(* ===== verification/_CoqProject ===== *)
-Q . S2P
Prelude.v
RingBuf.v
Modes.v
Utf8.v
Wire.v
Framing.v
PiCommand.v
Health.v
RouterConfig.v
Mosaic.v
ProcTree.v
Guardian.v
Upstream.v
LockRecord.v
Calls.v
LayoutFile.v
LayoutCas.v
Selector.v
Proxy.v
Slots.v
Session.v
Store.v
Rename.v
Suspend.v
Agents.v
Manager.v
Lifecycle.v
Slotted.v
Boot.v
Watchers.v
DaemonAttach.v
Supervisor.v
Reporter.v
Search.v
Attach.v
Http.v
Web.v
Browser.v
Hub.v
HubViews.v
Bridge.v
Requests.v
Table.v
Daemon.v
DaemonViews.v
Calendar.v
CodexUsage.v
Usage.v
Muse.v
Cgroup.v
Routes.v
