(* ===== verification/Prelude.v ===== *)
(** * A verification library for amber

    amber keeps terminal sessions alive in a daemon ([crates/amber], with its data
    types in [crates/amber-core]), shows them in a desktop app and a web view, and
    routes their agents' model requests over several provider keys
    ([crates/amber-router], [crates/router-core]).  This library translates the
    parts of the Rust code that decide something, function by function and under
    the source's names, and proves what they promise.

    ** Files and what they model

    Daemon, output of a session:
    - [RingBuf]: [amber-core/src/ring.rs], the scrollback buffer.  State [Ring],
      operations [new], [push], [snapshot], [since], [tail].
    - [Modes]: [amber-core/src/modes.rs], the private-mode tracker fed with the same
      output, and the preamble that restores the modes for a late client.
    - [Session]: [amber/src/pty.rs], reader, batcher, waiter, subscribers and clients
      of one session, interleaved by [step]; it holds a [Ring] and a tracker.
    - [DaemonAttach]: the [Attach] and [Detach] handlers of [amber/src/daemon.rs] and
      the forwarders they start, on top of [Session].
    - [Watchers]: [amber/src/watchers.rs], event subscriptions with bounded queues
      and eviction.
    - [Search]: [amber/src/search.rs] over the ring's bytes.

    Daemon, sessions:
    - [Store]: [amber-core/src/state.rs], the state directory.  Operations are
      programs in the monad [M] over files, each file operation meeting a fault of a
      schedule; [Rename] proves the journalled rename against every schedule.
    - [Manager]: [amber/src/manager.rs], create, rename, reap, remove, snapshot,
      restore and hooks over [Store].  [Lifecycle] has the weakest preconditions of
      its monad, [Slotted] the invariant of its table, [Boot] restoring and [run],
      a sequence of operations.
    - [Suspend]: parking and waking, the suspension half of [manager.rs] with the
      flags of [pty.rs].
    - [Muse]: the scan of Muse's own store in [amber/src/muse.rs] and the step of a
      snapshot that records a pane's conversation, over [Store].

    Daemon, requests:
    - [Table]: what the session manager promises its callers, the class
      [SessionTable]; [session_infos], [rename] and [set_title] with what they return,
      and [manager_table], the instance for [Manager].
    - [Bridge]: [amber/src/pi_bridge.rs], the registry of Pi bridges and its bounded
      channels.
    - [Requests]: [handle_control], [handle_frame], the end of a connection and the
      reaper's round ([lib.rs]) as programs ([prog]) over the calls they make
      ([action]); a terminal's calls are in [Session], the watchers' in [Watchers],
      suspension's in [Suspend].
    - [Daemon]: all connections' threads, the bridges' and the reaper, one call at a
      time over one session table, registry and watcher stream ([step], [run]).  It
      is a client of [SessionTable].
    - [DaemonViews]: what watchers believe of the sessions after it.

    Daemon, the wire:
    - [Utf8]: what is relied on of [str].
    - [Wire], [Framing]: [amber-core/src/proto.rs] and the read loop of
      [amber/src/daemon.rs].  serde_json is the class [Json]; a client knows only its
      operations.
    - [PiCommand]: the validators of commands for the Pi bridge and the base64
      decoder of uploads (also [proto.rs]).

    Daemon, resources:
    - [ProcTree]: [amber/src/procinfo.rs], walks over the process table.
    - [Guardian]: [amber/src/memory_guardian.rs], [host_pressure.rs] and their
      configuration in [amber-core/src/state.rs].  One [tick] takes the clocks, the
      samples and the session manager's answers, and returns the new state and the
      events it caused; [ticks] is a run.  It uses [ProcTree]'s sums and [Wire]'s
      pressure types.
    - [Cgroup]: [amber/src/cgroup.rs], the control groups of the daemon and of its
      sessions: paths and parsers, and each operation as a program ([Calls]) of the
      system calls it makes ([action]).
    - [Calendar], [CodexUsage], [Usage]: [amber/src/usage.rs], [codex_usage.rs], the
      quotas of the agents' providers: timestamps, the exchange with Codex's server,
      and [UsageCache] with the poller that fills it ([step]).

    In a session, and in front of it:
    - [Agents]: the recognizers of session ids, argument vectors and hook records of
      [claude.rs], [codex.rs] and the other agents' modules.
    - [Supervisor]: [amber/src/supervisor.rs], [supervise_agent] as a machine moved
      from one blocking point to the next by [advance].
    - [Reporter]: the reports a supervisor sends and the daemon's handling of them;
      [step] composes [Supervisor] with [Suspend].
    - [Attach]: [amber/src/attach.rs], the client of [amber attach].
    - [Http], [Web]: [amber/src/web.rs], reading a browser's request, and what it is
      allowed to reach: [step] interleaves the connections' threads over the sessions
      and failure counts of [Auth].
    - [Browser], [Hub], [HubViews]: the other half of [web.rs].  Browsers' messages and
      what they are mapped to; [HubInner], shared by all browsers and the one daemon
      connection, moved by [step]; what browsers see of it.

    Layout sidecar:
    - [Calls]: programs as trees of system calls, and [wp], which runs one against any
      reading of the calls; [LayoutFile] and [Cgroup] are written in it.
    - [LayoutFile]: [amber/src/layout_file.rs], the bounded read of the sidecar while
      others write it ([raced]).
    - [Mosaic]: [amber/src/mosaic.rs], validation of the sidecar and its rendering
      against the live sessions.
    - [LockRecord], [LayoutCas]: [amber/src/layout_cas.rs].  The lock file's text is
      data with a parser; [save] is a program counter per call ([pc]) whose file
      operations are the constructors of [move], and [step] interleaves the calls of
      processes that start and end.

    Router:
    - [Health]: [router-core/src/taxonomy.rs], [health.rs], what a status means and
      the state of one key.
    - [RouterConfig]: [config.rs], [registry.rs], from a configuration to chains of
      endpoints.
    - [Slots]: [amber-router/src/slots.rs], [store.rs], [live.rs], the list a user
      edits, its configuration and file, and the registry it is served from.  It
      builds on [RouterConfig].
    - [Selector]: [selector.rs], keys, permits and leases; [step] interleaves
      requests over the shared selector.  It uses [Health] and [RouterConfig].
    - [Upstream]: [upstream.rs], [sse.rs], the request of an attempt and the gate on
      a streamed answer.
    - [Proxy]: [proxy.rs], the failover walk of [proxy_once] and [proxy_stream].  It
      is a client of the class [KeyService]; the theorems hold for every
      implementation and [selector_service] is the code's own.
    - [Routes]: [routes.rs], [admin.rs], [state.rs] and [live.rs], from a request to its
      answer ([handle]) over [Slots] and [Proxy].

    This file holds what they share: [result] and its notations, machine integers,
    bytes and strings, list functions of the standard library under their Rust
    names, decimal and big-endian numbers, sorting, lawful comparators, and the
    tactics [len], [split_ifs], [zdivmod] and [cases].

    ** How code becomes definitions

    A struct is a record, an enum an inductive type, a function a [Definition] or
    [Fixpoint].  [Result] is [result]; a panic or an index out of range is [None] of
    an [option]; a HashMap is a [gmap], a HashSet a [gset]; a [u64] is a [Z] with its
    saturation or wrap-around written out; an [Instant] is a number of nanoseconds
    (milliseconds in [Cgroup]).
    Mutation is state passing.  Clocks, the network, the file system's answers and
    other processes are arguments.  Code outside the repository is a parameter:
    serde_json, TOML, the lookup of environment variables, the process probe.

    ** What the theorems show

    - Refinement: the ring is a window on the stream; what an attached client is sent
      continues a past state of the ring without loss or repetition; a renamed
      session's files are those of the old name or the new one at every crash; what
      the daemon believes of a supervisor's phase is what it reported last; a key's
      health is a function of its history; the registry resolves an alias to exactly
      the configured keys; a proxied request ends in one of five ways, each tied to
      what the upstream sent; a replaced slot list is what is served; a command for a
      Pi session reaches the latest bridge that registered for it, in order; what
      watchers are told of sessions is the manager's table while requests do not
      overlap.
    - Requests: each gets its reply, broadcasts and journal entry whatever the calls it
      makes answer ([Requests.requests_answered]).
    - Invariants of runs: permits and leases add up however requests interleave; each
      live session owns its slot; nothing private is served without the token or the
      local proxy's word, and the router never opens, whatever is edited through it;
      quotas are asked for politely and shown as current only when they are; nobody
      reports events for another's Pi session; browsers can make the daemon do only
      what their messages are for, what they look at stays attached, and what they are
      shown is the daemon's word; a session is parked only for a reason, and one
      parked by hand stays so; a supervisor never runs two children, and none while
      parked; watchers see a snapshot and then every event, or are severed; [save] is
      a compare-and-swap across processes as long as none leaves a lock behind; a
      sidecar is read whole or not at all; what is recorded of Muse is the pane's own;
      what is done to a session's control groups stays in them.
    - Round trips: timestamps, frames, HTTP requests, uploads, mode preambles, lock
      records, slots.
    - Bounds and termination on arbitrary input: the read loop, a session's queues,
      the mode tracker, cyclic process tables, hostile split trees, the failover
      walk, removing a session's control groups, waiting for killed processes.
    - Where the code does not do what it means to, a theorem shows the case:
      [DaemonViews.ghost_session], [Daemon.status_race], [Muse.reused_pid_wins],
      [Muse.newest_never_found], [Usage.token_prefix_shown],
      [Usage.rolled_window_shown], [LayoutCas.reclaim_race],
      [Lifecycle.pi_hook_wedges], [DaemonAttach.reattach_shows_twice],
      [Supervisor.reread_recording_ignored], [Attach.restore_leaves],
      [Web.forged_layout_write], [Http.content_length_panics],
      [HubViews.eviction_keeps_borrow], [HubViews.second_replay_unmarked],
      [Proxy.dead_rest_hides_error], [Health.retry_after_overflow_panics],
      [Guardian.third_tick_blind], [Wire.known_variants_but_seven].

    ** Bounds of the models

    [Store]'s faults are failing operations and crashes of the process; writes
    reordered by a loss of power, and a failing [stat], are not among them.
    [read_session] is taken to read the file: its cache is proved transparent on its
    own. [Hub]'s clients are numbered and added in one step. Writing a crash report is
    one operation. The parallel spawns of [restore] are put in sequence. [Daemon]
    takes each call of the manager and of the registry as one step, which their locks
    make it for the operations that change the table ([session_infos] reads a copy of
    it); calls on anything else answer anything, and may change whatever [tb_disturb]
    allows. The registry's 64-bit counter does not wrap in the life of a daemon.
    [LayoutFile] assumes that a change of a file moves its change time. In [Cgroup] a
    listing, a clock and every error are the system's answers; a path that was
    validated is the list of its names. [Routes] handles a request whole. Lower-casing of text is an argument, as its
    tables are Unicode's.

    ** Fuel

    Recursion that is not structural carries fuel, and the fuel given is shown to be
    enough by the theorem about the function: [decode_chars] and
    [interpolate_loop] get the length of their input, each turn consuming some of
    it; the read loop one turn per possible frame of the buffer; the worklist of
    split trees one turn per node it may still count; the process walk one turn per
    entry of the table, as a visited entry is never pushed again; [read_loop] one turn
    per byte the file may have and one more; [walk_loop] one
    turn per endpoint of the chain and one more, as each turn tries a new endpoint;
    [remove_all] two turns per directory; [kill_loop] [TURNS], a turn per sleep before
    its deadline (the walk of [kill_all], used where the kernel has no [cgroup.kill],
    is as long as the tree it is shown, and may [spin]);
    [dec] twenty digits, enough for 64 bits.

    ** What is not modelled

    Of the modelled files, what only reads the operating system is an input, and
    what only formats text for people is left out.  Of [manager.rs], the memory
    budget and the branch lookup; of [supervisor.rs], the command lines of the agents
    ([command_for]).  Nothing is modelled of the transports, the installation of Pi's
    extension, the command line ([main.rs]), the git helpers, background services and
    the TypeScript app; of [daemon.rs], accepting connections and Windows'
    supervisor connections; of [web.rs], the pump of a WebSocket and the token
    file. *)
From stdpp Require Export base list strings gmap numbers sorting.
From Stdlib Require Export Ascii ZArith Lia.

(** The notations of the development live in a scope of their own. *)
Declare Scope amber_scope.
Delimit Scope amber_scope with amber.
Global Open Scope amber_scope.

(** ** Results

    Rust's [Result<A, E>]. *)
Inductive result (A E : Type) : Type :=
| Ok (a : A)
| Err (e : E).
Arguments Ok {A E} a.
Arguments Err {A E} e.

Definition rbind {A B E : Type} (r : result A E) (k : A -> result B E) : result B E :=
  match r with
  | Ok a => k a
  | Err e => Err e
  end.

(** [expr?] followed by the rest of the body. *)
Notation "x <-? r ; k" := (rbind r (fun x => k))
  (at level 100, r at next level, right associativity) : amber_scope.
Notation "'check?' r ; k" := (rbind r (fun _ : unit => k))
  (at level 100, r at next level, right associativity) : amber_scope.

Definition is_ok {A E : Type} (r : result A E) : bool :=
  match r with Ok _ => true | Err _ => false end.

Lemma rbind_ok {A B E} (r : result A E) (k : A -> result B E) b :
  rbind r k = Ok b <-> exists a, r = Ok a /\ k a = Ok b.
Proof. destruct r as [a|e]; simpl; [naive_solver|]. split; [done|]. by intros (a & [=] & _). Qed.

Lemma rbind_ok_unit {B E} (r : result unit E) (k : unit -> result B E) b :
  rbind r k = Ok b <-> r = Ok tt /\ k tt = Ok b.
Proof. rewrite rbind_ok. split; [intros ([] & ?); done|]. by exists tt. Qed.

(** ** Machine integers

    A w-bit unsigned integer is a [Z] in range; every operation that can leave
    the range is written out. *)
Definition u16_max : Z := 2 ^ 16 - 1.
Definition u32_max : Z := 2 ^ 32 - 1.
Definition u64_max : Z := 2 ^ 64 - 1.

Definition sat_add64 (a b : Z) : Z := Z.min u64_max (a + b).
Definition sat_sub64 (a b : Z) : Z := Z.max 0 (a - b).
Definition sat_mul64 (a b : Z) : Z := Z.min u64_max (a * b).
Definition wrap16 (a : Z) : Z := a mod 2 ^ 16.
Definition wrap32 (a : Z) : Z := a mod 2 ^ 32.

Definition is_u64 (a : Z) : Prop := (0 <= a <= u64_max)%Z.

(** ** Bytes *)
Abbreviation byte := Z (only parsing).
Definition is_byte (b : byte) : Prop := (0 <= b < 256)%Z.
Definition bytes_ok (l : list byte) : Prop := Forall is_byte l.

Definition byte_of_ascii (c : ascii) : byte := Z.of_N (N_of_ascii c).
Definition ascii_of_byte (b : byte) : ascii := ascii_of_N (Z.to_N b).

(** A Rust [&str] is modelled by the [string] of its UTF-8 bytes. *)
Fixpoint bytes_of_string (s : string) : list byte :=
  match s with
  | EmptyString => []
  | String c s' => byte_of_ascii c :: bytes_of_string s'
  end.

Fixpoint string_of_bytes (l : list byte) : string :=
  match l with
  | [] => EmptyString
  | b :: l' => String (ascii_of_byte b) (string_of_bytes l')
  end.

Lemma byte_of_ascii_range (c : ascii) : is_byte (byte_of_ascii c).
Proof.
  unfold is_byte, byte_of_ascii. pose proof (N_ascii_bounded c). lia.
Qed.

Lemma byte_of_ascii_of_byte (b : byte) : is_byte b -> byte_of_ascii (ascii_of_byte b) = b.
Proof.
  unfold is_byte, byte_of_ascii, ascii_of_byte. intros Hb.
  rewrite N_ascii_embedding by lia. lia.
Qed.

Lemma ascii_of_byte_of_ascii (c : ascii) : ascii_of_byte (byte_of_ascii c) = c.
Proof.
  unfold byte_of_ascii, ascii_of_byte. rewrite N2Z.id. apply ascii_N_embedding.
Qed.

Lemma string_of_bytes_of_string (s : string) : string_of_bytes (bytes_of_string s) = s.
Proof. induction s as [|c s IH]; simpl; [done|]. by rewrite ascii_of_byte_of_ascii, IH. Qed.

Lemma bytes_of_string_of_bytes (l : list byte) :
  bytes_ok l -> bytes_of_string (string_of_bytes l) = l.
Proof.
  induction 1 as [|b l Hb _ IH]; simpl; [done|].
  by rewrite byte_of_ascii_of_byte, IH.
Qed.

Lemma bytes_of_string_ok (s : string) : bytes_ok (bytes_of_string s).
Proof. induction s; simpl; constructor; auto using byte_of_ascii_range. Qed.

Lemma length_bytes_of_string (s : string) : length (bytes_of_string s) = String.length s.
Proof. induction s; simpl; auto. Qed.

Lemma bytes_of_string_app (s t : string) :
  bytes_of_string (s +:+ t) = bytes_of_string s ++ bytes_of_string t.
Proof. induction s as [|c s IH]; simpl; [done|]. by rewrite IH. Qed.

Global Instance bytes_of_string_inj : Inj (=) (=) bytes_of_string.
Proof.
  intros s t H. rewrite <- (string_of_bytes_of_string s), <- (string_of_bytes_of_string t).
  by rewrite H.
Qed.

(** ** The last [n] elements of a list *)
Definition lastn {A : Type} (n : nat) (l : list A) : list A := drop (length l - n) l.

Section lastn.
Context {A : Type}.
Implicit Types l k : list A.

Lemma length_lastn n l : length (lastn n l) = Nat.min n (length l).
Proof. unfold lastn. rewrite length_drop. lia. Qed.

Lemma lastn_ge n l : length l <= n -> lastn n l = l.
Proof. intros H. unfold lastn. by replace (length l - n) with 0 by lia. Qed.

Lemma lastn_0 l : lastn 0 l = [].
Proof. unfold lastn. rewrite Nat.sub_0_r. apply drop_ge. lia. Qed.

Lemma lastn_nil n : lastn n (@nil A) = [].
Proof. apply drop_nil. Qed.

Lemma lastn_suffix n l : lastn n l `suffix_of` l.
Proof. exists (take (length l - n) l). symmetry. apply take_drop. Qed.

Lemma lastn_app_r n l k : n <= length k -> lastn n (l ++ k) = lastn n k.
Proof.
  intros H. unfold lastn. rewrite length_app, drop_app_ge by lia.
  f_equal. lia.
Qed.

Lemma lastn_app_l n l k :
  length k <= n -> lastn n (l ++ k) = lastn (n - length k) l ++ k.
Proof.
  intros H. unfold lastn. rewrite length_app.
  destruct (decide (length l + length k <= n)).
  - replace (length l + length k - n) with 0 by lia.
    by replace (length l - (n - length k)) with 0 by lia.
  - rewrite drop_app_le by lia. f_equal. f_equal. lia.
Qed.

(** Keeping the newest [n] can be done at every push or once at the end. *)
Lemma lastn_app_lastn n l k : lastn n (lastn n l ++ k) = lastn n (l ++ k).
Proof.
  destruct (decide (length k <= n)).
  - rewrite !lastn_app_l by done. f_equal. unfold lastn.
    rewrite drop_drop, length_drop. f_equal. lia.
  - by rewrite !lastn_app_r by lia.
Qed.

Lemma lastn_lastn n m l : lastn n (lastn m l) = lastn (Nat.min n m) l.
Proof. unfold lastn. rewrite drop_drop, length_drop. f_equal. lia. Qed.

Lemma lastn_app_exact l k : lastn (length k) (l ++ k) = k.
Proof. rewrite lastn_app_r by done. by rewrite lastn_ge. Qed.
End lastn.

(** ** Searching a list, the way iterator chains do *)
Fixpoint find_first {A : Type} (p : A -> bool) (l : list A) : option A :=
  match l with
  | [] => None
  | x :: l' => if p x then Some x else find_first p l'
  end.

(** [iter().position(p)] *)
Fixpoint position {A : Type} (p : A -> bool) (l : list A) : option nat :=
  match l with
  | [] => None
  | x :: l' => if p x then Some 0 else S <$> position p l'
  end.

Section find.
Context {A : Type} (p : A -> bool).

Lemma find_first_Some l x : find_first p l = Some x -> x ∈ l /\ p x = true.
Proof.
  induction l as [|y l IH]; simpl; [done|].
  destruct (p y) eqn:Hy; intros; simplify_eq; [set_solver|].
  destruct (IH H). set_solver.
Qed.

Lemma find_first_None l : find_first p l = None <-> forall x, x ∈ l -> p x = false.
Proof.
  induction l as [|y l IH]; simpl; [set_solver|].
  destruct (p y) eqn:Hy; split.
  - done.
  - intros H. rewrite (H y) in Hy; [done|set_solver].
  - intros H x Hx. apply elem_of_cons in Hx as [->|Hx]; [done|]. by apply IH.
  - intros H. apply IH. intros x Hx. apply H. set_solver.
Qed.

Lemma position_Some l i :
  position p l = Some i ->
  exists x, l !! i = Some x /\ p x = true /\ forall j y, j < i -> l !! j = Some y -> p y = false.
Proof.
  revert i. induction l as [|z l IH]; simpl; intros i H; [done|].
  destruct (p z) eqn:Hz; simplify_eq/=.
  - exists z. split_and!; auto. lia.
  - apply fmap_Some in H as (k & Hk & ->).
    destruct (IH _ Hk) as (x & Hx & Hp & Hmin). exists x. split_and!; auto.
    intros [|j] y Hj Hy; simplify_eq/=; [done|]. apply (Hmin j y); [lia|done].
Qed.

Lemma position_None l : position p l = None <-> forall x, x ∈ l -> p x = false.
Proof.
  induction l as [|y l IH]; simpl; [set_solver|].
  destruct (p y) eqn:Hy; split.
  - done.
  - intros H. rewrite (H y) in Hy; [done|set_solver].
  - intros H x Hx. apply fmap_None in H. apply elem_of_cons in Hx as [->|Hx]; [done|].
    by apply IH.
  - intros H. apply fmap_None, IH. intros x Hx. apply H. set_solver.
Qed.
End find.

(** ** Decimal numbers

    [format!("{n}")] and [str::parse::<uN>()], on bytes. *)
Definition is_digit (b : byte) : bool := ((48 <=? b) && (b <=? 57))%Z.

Fixpoint dec_aux (fuel : nat) (n : Z) : list byte :=
  match fuel with
  | 0 => []
  | S fuel' =>
      (if (n <? 10)%Z then [] else dec_aux fuel' (n / 10)%Z) ++ [(48 + n mod 10)%Z]
  end.

(** Twenty digits hold every 64-bit value. *)
Definition dec (n : Z) : list byte := dec_aux 20 n.

Fixpoint parse_digits (max acc : Z) (l : list byte) : option Z :=
  match l with
  | [] => Some acc
  | b :: l' =>
      if is_digit b then
        let v := (acc * 10 + (b - 48))%Z in
        if (max <? v)%Z then None else parse_digits max v l'
      else None
  end.

(** A leading [+] is accepted, an empty or bare-sign string is not. *)
Definition parse_uint (max : Z) (l : list byte) : option Z :=
  match l with
  | [] => None
  | 43%Z :: [] => None
  | 43%Z :: l' => parse_digits max 0 l'
  | _ => parse_digits max 0 l
  end.

Lemma parse_digits_app max acc l k :
  parse_digits max acc (l ++ k) = parse_digits max acc l ≫= fun v => parse_digits max v k.
Proof.
  revert acc. induction l as [|b l IH]; simpl; intros acc; [done|].
  destruct (is_digit b); [|done]. destruct (max <? _)%Z; [done|]. apply IH.
Qed.

Lemma dec_aux_digits f n : (0 <= n)%Z -> Forall (fun b => is_digit b = true) (dec_aux f n).
Proof.
  revert n. induction f as [|f IH]; simpl; intros n Hn; [constructor|].
  apply Forall_app. split.
  - destruct (Z.ltb_spec n 10); [constructor|]. apply IH. apply Z.div_pos; lia.
  - constructor; [|constructor]. unfold is_digit.
    pose proof (Z.mod_pos_bound n 10 ltac:(lia)). apply andb_true_iff. lia.
Qed.

Lemma parse_dec_aux max f n :
  (0 <= n <= max)%Z -> (n < 10 ^ Z.of_nat f)%Z -> parse_digits max 0 (dec_aux f n) = Some n.
Proof.
  revert n. induction f as [|f IH]; intros n Hn Hf.
  { simpl in *. f_equal. lia. }
  cbn [dec_aux]. rewrite parse_digits_app.
  pose proof (Z.mod_pos_bound n 10 ltac:(lia)) as Hm.
  pose proof (Z.div_mod n 10 ltac:(lia)) as Hdm.
  assert (Hd : is_digit (48 + n mod 10) = true) by (unfold is_digit; apply andb_true_iff; lia).
  destruct (Z.ltb_spec n 10).
  - cbn [parse_digits mbind option_bind]. rewrite Hd. rewrite Z.mod_small by lia.
    rewrite (proj2 (Z.ltb_ge _ _)) by lia. f_equal. lia.
  - rewrite IH.
    + cbn [parse_digits mbind option_bind]. rewrite Hd.
      rewrite (proj2 (Z.ltb_ge _ _)) by lia. f_equal. lia.
    + lia.
    + rewrite Nat2Z.inj_succ, Z.pow_succ_r in Hf by lia. apply Z.div_lt_upper_bound; lia.
Qed.

Lemma dec_digits n : (0 <= n)%Z -> Forall (fun b => is_digit b = true) (dec n).
Proof. apply dec_aux_digits. Qed.

Lemma dec_not_nil n : dec n <> [].
Proof. unfold dec. cbn [dec_aux]. intros H. by apply app_eq_nil in H as [_ H]. Qed.

Lemma parse_uint_digits max l :
  l <> [] -> Forall (fun b => is_digit b = true) l -> parse_uint max l = parse_digits max 0 l.
Proof.
  intros Hne Hd. destruct l as [|b l]; [done|]. inversion Hd as [|?? Hb _]; subst.
  unfold is_digit in Hb. unfold parse_uint.
  destruct (Z.eq_dec b 43) as [->|Hb43]; [done|].
  destruct b as [|p|p]; try done. do 6 (destruct p as [p|p|]; try done).
Qed.

(** Printing then parsing a number of any unsigned width gives it back. *)
Lemma parse_uint_dec max n :
  (0 <= n <= max)%Z -> (max <= u64_max)%Z -> parse_uint max (dec n) = Some n.
Proof.
  intros Hn Hmax. rewrite parse_uint_digits.
  - apply parse_dec_aux; [done|]. apply Z.le_lt_trans with u64_max; [lia|]. by vm_compute.
  - apply dec_not_nil.
  - apply dec_digits. lia.
Qed.

Lemma parse_digits_range max acc l v :
  (0 <= acc <= max)%Z -> parse_digits max acc l = Some v -> (0 <= v <= max)%Z.
Proof.
  revert acc. induction l as [|b l IH]; simpl; intros acc Hacc H; simplify_eq; [done|].
  destruct (is_digit b) eqn:Hb; [|done]. unfold is_digit in Hb.
  apply andb_true_iff in Hb as [?%Z.leb_le ?%Z.leb_le].
  destruct (Z.ltb_spec max (acc * 10 + (b - 48))); [done|]. apply IH in H; lia.
Qed.

Lemma parse_uint_range max l v :
  (0 <= max)%Z -> parse_uint max l = Some v -> (0 <= v <= max)%Z.
Proof.
  intros Hmax H. assert (Hd : exists k, parse_digits max 0 k = Some v).
  { destruct l as [|b l]; [done|]. unfold parse_uint in H. destruct (Z.eq_dec b 43) as [->|Hb].
    - destruct l; [done|eauto].
    - exists (b :: l). destruct b as [|p|p]; try done. do 6 (destruct p as [p|p|]; try done). }
  destruct Hd as [k Hk]. apply parse_digits_range in Hk; lia.
Qed.

(** ** Big-endian integers *)
Fixpoint be_bytes (n : nat) (z : Z) : list byte :=
  match n with
  | 0 => []
  | S n' => be_bytes n' (z / 256)%Z ++ [(z mod 256)%Z]
  end.

Definition from_be (l : list byte) : Z := foldl (fun acc b => acc * 256 + b)%Z 0%Z l.

Lemma length_be_bytes n z : length (be_bytes n z) = n.
Proof. revert z. induction n; intros; simpl; [done|]. rewrite length_app, IHn. simpl. lia. Qed.

Lemma from_be_be_bytes n z : (0 <= z < 256 ^ Z.of_nat n)%Z -> from_be (be_bytes n z) = z.
Proof.
  unfold from_be. revert z. induction n as [|n IH]; intros z Hz; cbn [be_bytes].
  - simpl in *. lia.
  - rewrite foldl_app. cbn [foldl]. rewrite IH.
    + pose proof (Z.div_mod z 256 ltac:(lia)). lia.
    + rewrite Nat2Z.inj_succ, Z.pow_succ_r in Hz by lia. split.
      * apply Z.div_pos; lia.
      * apply Z.div_lt_upper_bound; lia.
Qed.

Lemma be_bytes_ok n z : bytes_ok (be_bytes n z).
Proof.
  revert z. induction n as [|n IH]; intros; simpl; [constructor|].
  apply Forall_app. split; [apply IH|]. constructor; [|constructor].
  apply Z.mod_pos_bound. lia.
Qed.

(** ** Bits as arithmetic *)

(** Or-ing into clear low bits adds. *)
Lemma lor_low_add k x y :
  (0 <= k)%Z -> (x mod 2 ^ k = 0)%Z -> (0 <= y < 2 ^ k)%Z -> Z.lor x y = (x + y)%Z.
Proof.
  intros Hk Hx Hy. rewrite <- Z.add_lor_land.
  assert (Z.land x y = 0)%Z as ->; [|lia].
  apply Z.bits_inj'. intros i Hi. rewrite Z.land_spec, Z.bits_0.
  destruct (Z.lt_ge_cases i k) as [Hlt|Hge].
  - rewrite <- (Z.mod_pow2_bits_low x k i Hlt), Hx, Z.bits_0. done.
  - rewrite <- (Z.mod_small y (2 ^ k)) by done.
    rewrite (Z.mod_pow2_bits_high y k i) by lia. apply andb_false_r.
Qed.

(** ** Splitting on a separator byte, as [str::split] does *)
Fixpoint split_on (sep : byte) (l : list byte) : list (list byte) :=
  match l with
  | [] => [[]]
  | b :: l' =>
      if (b =? sep)%Z then [] :: split_on sep l'
      else match split_on sep l' with
           | [] => [[b]]
           | p :: ps => (b :: p) :: ps
           end
  end.

Lemma split_on_none sep l : Forall (fun b => b <> sep) l -> split_on sep l = [l].
Proof.
  induction 1 as [|b l Hb _ IH]; simpl; [done|].
  by rewrite (proj2 (Z.eqb_neq _ _) Hb), IH.
Qed.

Lemma split_on_cons sep l k :
  Forall (fun b => b <> sep) l -> split_on sep (l ++ sep :: k) = l :: split_on sep k.
Proof.
  induction 1 as [|b l Hb _ IH]; simpl; [by rewrite Z.eqb_refl|].
  by rewrite (proj2 (Z.eqb_neq _ _) Hb), IH.
Qed.

(** ** Sorting and deduplicating

    [sort_by]/[sort_unstable] as a stable insertion sort, [Vec::dedup], and the
    bytewise order of strings. *)
Fixpoint insert_by {A} (leb : A -> A -> bool) (x : A) (l : list A) : list A :=
  match l with
  | [] => [x]
  | y :: l' => if leb x y then x :: y :: l' else y :: insert_by leb x l'
  end.

Fixpoint sort_by {A} (leb : A -> A -> bool) (l : list A) : list A :=
  match l with
  | [] => []
  | x :: l' => insert_by leb x (sort_by leb l')
  end.

Fixpoint dedup {A} `{EqDecision A} (l : list A) : list A :=
  match l with
  | [] => []
  | x :: l' =>
      match dedup l' with
      | [] => [x]
      | y :: k => if decide (x = y) then y :: k else x :: y :: k
      end
  end.

Definition string_leb (s t : string) : bool :=
  match String.compare s t with Gt => false | _ => true end.

Section sorting.
Context {A : Type} (leb : A -> A -> bool).

Lemma insert_by_perm x l : insert_by leb x l ≡ₚ x :: l.
Proof.
  induction l as [|y l IH]; simpl; [done|]. destruct (leb x y); [done|].
  rewrite IH. constructor.
Qed.

Lemma sort_by_perm l : sort_by leb l ≡ₚ l.
Proof. induction l as [|x l IH]; simpl; [done|]. by rewrite insert_by_perm, IH. Qed.

Lemma elem_of_sort_by x l : x ∈ sort_by leb l <-> x ∈ l.
Proof. by rewrite sort_by_perm. Qed.

Definition ordered (l : list A) : Prop := StronglySorted (fun x y => leb x y = true) l.

Context (total : forall x y, leb x y = false -> leb y x = true).
Context (trans : forall x y z, leb x y = true -> leb y z = true -> leb x z = true).

Lemma insert_by_ordered x l : ordered l -> ordered (insert_by leb x l).
Proof.
  induction 1 as [|y l Hl IH Hy]; simpl; [repeat constructor|].
  destruct (leb x y) eqn:Hxy.
  - constructor; [by constructor|]. constructor; [done|].
    eapply Forall_impl; [exact Hy|]. intros z Hz. by apply (trans x y).
  - constructor; [done|]. apply Forall_forall. intros z Hz.
    rewrite insert_by_perm in Hz. apply elem_of_cons in Hz as [->|Hz]; [by apply total|].
    by apply (Forall_forall (fun z => leb y z = true) l).
Qed.

Lemma sort_by_ordered l : ordered (sort_by leb l).
Proof. induction l as [|x l IH]; simpl; [constructor|]. by apply insert_by_ordered. Qed.
End sorting.

Section dedup.
Context {A : Type} `{EqDecision A}.

Lemma elem_of_dedup x (l : list A) : x ∈ dedup l <-> x ∈ l.
Proof.
  induction l as [|y l IH]; simpl; [done|].
  destruct (dedup l) as [|z k] eqn:Hk.
  - rewrite !elem_of_cons, <- IH. naive_solver.
  - destruct (decide (y = z)) as [->|]; rewrite !elem_of_cons, <- IH, ?elem_of_cons; naive_solver.
Qed.

(** Sorting brings duplicates together, so [dedup] leaves none. *)
Lemma dedup_ordered_NoDup (leb : A -> A -> bool) (l : list A) :
  (forall x y, leb x y = true -> leb y x = true -> x = y) ->
  ordered leb l -> NoDup (dedup l) /\ ordered leb (dedup l).
Proof.
  intros Hanti. induction 1 as [|x l Hl [IHn IHo] Hx]; simpl; [split; constructor|].
  assert (Hall : Forall (fun y => leb x y = true) (dedup l)).
  { apply Forall_forall. intros y Hy. rewrite elem_of_dedup in Hy.
    by apply (Forall_forall (fun y => leb x y = true) l). }
  destruct (dedup l) as [|y k]; [split; repeat constructor; set_solver|].
  destruct (decide (x = y)) as [->|Hne]; [done|]. split; [|by constructor].
  constructor; [|done]. intros [->|Hin]%elem_of_cons; [done|].
  apply Hne. apply Hanti; [by inversion Hall|]. inversion IHo as [|?? _ Hy]; subst.
  by apply (Forall_forall (fun z => leb y z = true) k).
Qed.
End dedup.

Lemma Zleb_total x y : (x <=? y)%Z = false -> (y <=? x)%Z = true.
Proof. lia. Qed.
Lemma Zleb_trans' x y z : (x <=? y)%Z = true -> (y <=? z)%Z = true -> (x <=? z)%Z = true.
Proof. lia. Qed.
Lemma Zleb_antisym x y : (x <=? y)%Z = true -> (y <=? x)%Z = true -> x = y.
Proof. lia. Qed.

(** The ids a [sort_unstable] and [dedup] leave: each once, ascending. *)
Definition sort_ids (l : list Z) : list Z := dedup (sort_by Z.leb l).

Lemma elem_of_sort_ids x l : x ∈ sort_ids l <-> x ∈ l.
Proof. unfold sort_ids. by rewrite elem_of_dedup, elem_of_sort_by. Qed.

Lemma sort_ids_NoDup l : NoDup (sort_ids l).
Proof.
  unfold sort_ids. apply (dedup_ordered_NoDup Z.leb); [exact Zleb_antisym|].
  apply sort_by_ordered; [exact Zleb_total|exact Zleb_trans'].
Qed.

(** ** Comparators

    [Ord::cmp] and its combinators: a lawful comparator is antisymmetric and its
    "not greater" is transitive; comparing by a key, in reverse, and breaking ties
    keep that, so an instance is found for every comparator the code composes. *)
Definition then_with {A} (c d : A -> A -> comparison) (x y : A) : comparison :=
  match c x y with Eq => d x y | r => r end.
Definition by_key {A K} (f : A -> K) (c : K -> K -> comparison) (x y : A) : comparison :=
  c (f x) (f y).
Definition reversed {A} (c : A -> A -> comparison) (x y : A) : comparison := c y x.

#[export] Typeclasses Opaque then_with by_key reversed.

Class Lawful {A} (c : A -> A -> comparison) : Prop := {
  cmp_antisym : forall x y, c y x = CompOpp (c x y);
  cmp_trans : forall x y z, c x y <> Gt -> c y z <> Gt -> c x z <> Gt;
}.

Lemma cmp_refl {A} (c : A -> A -> comparison) `{!Lawful c} x : c x x = Eq.
Proof. pose proof (cmp_antisym (c := c) x x). by destruct (c x x). Qed.

Lemma cmp_eq_l {A} (c : A -> A -> comparison) `{!Lawful c} x y z :
  c x y = Eq -> c x z = c y z.
Proof.
  intros Hxy. assert (Hyx : c y x = Eq) by (by rewrite (cmp_antisym (c := c) x y), Hxy).
  pose proof (cmp_trans (c := c) x y z) as H1. pose proof (cmp_trans (c := c) y x z) as H2.
  pose proof (cmp_trans (c := c) z x y) as H3. pose proof (cmp_trans (c := c) z y x) as H4.
  pose proof (cmp_antisym (c := c) x z) as Hzx. pose proof (cmp_antisym (c := c) y z) as Hzy.
  rewrite Hxy in *. rewrite Hyx in *. rewrite Hzx in *. rewrite Hzy in *. clear Hxy Hyx Hzx Hzy.
  destruct (c x z), (c y z); simpl in *; try done; exfalso;
    first [apply H1; done | apply H2; done | apply H3; done | apply H4; done].
Qed.

#[export] Instance Z_compare_lawful : Lawful Z.compare.
Proof.
  split.
  - intros x y. apply Z.compare_antisym.
  - intros x y z H1 H2. change (x <= z)%Z. change (x <= y)%Z in H1. change (y <= z)%Z in H2. lia.
Qed.

Lemma ascii_compare_N a b : Ascii.compare a b = N.compare (N_of_ascii a) (N_of_ascii b).
Proof. done. Qed.

#[export] Instance string_compare_lawful : Lawful String.compare.
Proof.
  split; [intros x y; apply String.compare_antisym|].
  intros x. induction x as [|a x IH]; intros [|b y] [|d z]; simpl; try done.
  rewrite !ascii_compare_N.
  destruct (N.compare_spec (N_of_ascii a) (N_of_ascii b));
    destruct (N.compare_spec (N_of_ascii b) (N_of_ascii d));
    destruct (N.compare_spec (N_of_ascii a) (N_of_ascii d)); try lia; try done. apply IH.
Qed.

#[export] Instance by_key_lawful {A K} (f : A -> K) c `{!Lawful c} : Lawful (by_key f c).
Proof.
  split; unfold by_key; intros; [apply cmp_antisym|by eapply (cmp_trans (c := c))].
Qed.

#[export] Instance reversed_lawful {A} (c : A -> A -> comparison) `{!Lawful c} : Lawful (reversed c).
Proof.
  split; unfold reversed; intros; [apply cmp_antisym|by eapply (cmp_trans (c := c))].
Qed.

#[export] Instance then_with_lawful {A} (c d : A -> A -> comparison) `{!Lawful c, !Lawful d} :
  Lawful (then_with c d).
Proof.
  split; unfold then_with.
  - intros x y. rewrite (cmp_antisym (c := c) x y). destruct (c x y); simpl; [|done..]. apply cmp_antisym.
  - intros x y z H1 H2.
    destruct (c x y) eqn:Hxy; [| |done].
    + rewrite (cmp_eq_l c x y z Hxy). destruct (c y z); [|done|done].
      by apply (cmp_trans (c := d) x y z).
    + assert (Hxz : c x z <> Gt).
      { apply (cmp_trans (c := c) x y z); [by rewrite Hxy|]. destruct (c y z); done. }
      destruct (c x z) eqn:Hxz'; [|done|done]. exfalso.
      pose proof (cmp_eq_l c x z y Hxz') as He. rewrite Hxy in He.
      pose proof (cmp_antisym (c := c) z y) as Ha. rewrite <- He in Ha. rewrite Ha in H2. done.
Qed.

(** [Iterator::min_by]: the first of the least. *)
Definition min_by {A} (c : A -> A -> comparison) (l : list A) : option A :=
  match l with
  | [] => None
  | x :: l' => Some (foldl (fun acc y => match c acc y with Gt => y | _ => acc end) x l')
  end.

Lemma min_by_Some {A} (c : A -> A -> comparison) `{!Lawful c} l m :
  min_by c l = Some m -> m ∈ l /\ forall x, x ∈ l -> c m x <> Gt.
Proof.
  destruct l as [|x l]; [done|]. intros [= <-].
  induction l as [|y l IH] using rev_ind.
  - split; [left|]. intros z ->%list_elem_of_singleton. by rewrite (cmp_refl c).
  - rewrite foldl_app. simpl. set (m := foldl _ x l) in *. destruct IH as [Hin Hmin].
    assert (Hy : c m y <> Gt -> forall z, z ∈ x :: l ++ [y] -> c m z <> Gt).
    { intros Hmy z Hz. rewrite app_comm_cons in Hz.
      apply elem_of_app in Hz as [Hz| ->%list_elem_of_singleton]; auto. }
    destruct (c m y) eqn:Hmy.
    + split; [set_solver|]. by apply Hy.
    + split; [set_solver|]. by apply Hy.
    + split; [set_solver|]. intros z Hz.
      assert (Hym : c y m <> Gt) by (by rewrite (cmp_antisym (c := c) m y), Hmy).
      rewrite app_comm_cons in Hz.
      apply elem_of_app in Hz as [Hz| ->%list_elem_of_singleton].
      * apply (cmp_trans (c := c) y m z); auto.
      * by rewrite (cmp_refl c).
Qed.

Lemma min_by_None {A} (c : A -> A -> comparison) l : min_by c l = None <-> l = [].
Proof. by destruct l. Qed.

(** ** Automation *)
Create HintDb amber.
Create Rewrite HintDb len.
#[export] Hint Resolve byte_of_ascii_range bytes_of_string_ok lastn_suffix : amber.
#[export] Hint Rewrite @length_lastn @length_app @length_take @length_drop @length_rev
  length_bytes_of_string length_be_bytes : len.

(** Length goals: normalise every [length], then linear arithmetic. *)
Ltac len := autorewrite with len in *; simpl in *; lia.

(** Split every [if] of the goal on its condition. *)
Ltac split_ifs :=
  repeat match goal with |- context [if ?c then _ else _] => destruct c eqn:? end.

(** Arithmetic with division and remainder by constants. *)
Ltac zdivmod := Z.to_euclidean_division_equations; lia.

(** Split on the outermost [if]/[match] of the goal and close the impossible arms. *)
Ltac cases := repeat (case_match; simplify_eq/=; try done).
