(* ===== verification/RingBuf.v ===== *)
(** * The scrollback ring

    [crates/amber-core/src/ring.rs]: a byte buffer that keeps the newest [cap]
    bytes of a session's output stream.  The circular buffer is translated with
    its two phases (still filling, wrapping in place), its explicit capacity
    management, and every slice operation that can panic; [push_spec] shows that
    none does and that the buffer refines the abstract specification "the newest
    [cap] bytes of everything ever pushed". *)
From S2P Require Import Prelude.

(** ** State *)

Record Ring := mk_ring {
  r_cap : nat;
  r_buf : list byte;
  (** [buf.capacity()], which [allocated] reports *)
  r_capacity : nat;
  r_head : nat;
  r_written : Z;
  r_epoch : Z;
}.

Definition MIN_ALLOC : nat := Z.to_nat (8 * 1024).

(** The process-wide epoch allocator: the static [NEXT] is [next] before the
    call, [nanos] and [pid] are the clock and the process id it is seeded from.
    Returns the epoch handed out and the allocator's next state. *)
Definition next_epoch (next nanos pid : Z) : Z * Z :=
  let v :=
    if (next =? 1)%Z
    then Z.lor (Z.lxor nanos (Z.shiftl pid 32 mod 2 ^ 64)) 1
    else next in
  (if (v =? 0)%Z then 1%Z else v, ((v + 1) mod 2 ^ 64)%Z).

Definition new (cap : nat) (epoch : Z) : Ring :=
  mk_ring cap [] 0 0 0 epoch.

(** [buf[i..i + d.len()].copy_from_slice(d)]: [None] is the slice panic. *)
Definition copy_at (i : nat) (d l : list byte) : option (list byte) :=
  if i + length d <=? length l
  then Some (take i l ++ d ++ drop (i + length d) l)
  else None.

(** [Vec::extend_from_slice] reallocates by amortized doubling when the bytes
    do not fit. *)
Definition vec_extend_capacity (len capacity n : nat) : nat :=
  if len + n <=? capacity then capacity else Nat.max (2 * capacity) (Nat.max (len + n) 8).

(** [Vec::reserve_exact]. *)
Definition vec_reserve_exact (len capacity additional : nat) : nat :=
  Nat.max capacity (len + additional).

Definition reserve_up_to_cap (r : Ring) (additional : nat) : Ring :=
  let needed := length (r_buf r) + additional in
  if needed <=? r_capacity r then r
  else
    let want :=
      Nat.min (Nat.max (Nat.max (2 * r_capacity r) MIN_ALLOC) needed) (r_cap r) in
    mk_ring (r_cap r) (r_buf r)
      (vec_reserve_exact (length (r_buf r)) (r_capacity r) (want - length (r_buf r)))
      (r_head r) (r_written r) (r_epoch r).

(** Overwrite [data] at [head], wrapping once. *)
Definition write_wrapping (r : Ring) (data : list byte) : option Ring :=
  let n := length data in
  let first := Nat.min (r_cap r - r_head r) n in
  buf1 ← copy_at (r_head r) (take first data) (r_buf r);
  buf2 ← (if first <? n then copy_at 0 (drop first data) buf1 else Some buf1);
  Some (mk_ring (r_cap r) buf2 (r_capacity r) ((r_head r + n) mod r_cap r)
          (r_written r) (r_epoch r)).

(** [self.reserve_up_to_cap(take); self.buf.extend_from_slice(&data[..take])] *)
Definition fill (r : Ring) (tk : nat) (data : list byte) : Ring :=
  let r := reserve_up_to_cap r tk in
  mk_ring (r_cap r) (r_buf r ++ take tk data)
    (vec_extend_capacity (length (r_buf r)) (r_capacity r) tk)
    (r_head r) (r_written r) (r_epoch r).

(** [push] once the counter is updated and an oversized push is cut. *)
Definition store (r : Ring) (data : list byte) : option Ring :=
  if length (r_buf r) <? r_cap r then
    let room := r_cap r - length (r_buf r) in
    let tk := Nat.min room (length data) in
    let r := fill r tk data in
    if tk =? length data then Some r
    else write_wrapping r (drop tk data)
  else write_wrapping r data.

Definition count (r : Ring) (n : nat) : Ring :=
  mk_ring (r_cap r) (r_buf r) (r_capacity r) (r_head r)
    (sat_add64 (r_written r) (Z.of_nat n)) (r_epoch r).

Definition push (r : Ring) (data : list byte) : option Ring :=
  if (r_cap r =? 0) || (length data =? 0) then Some r
  else
    let r := count r (length data) in
    let data :=
      if r_cap r <? length data then drop (length data - r_cap r) data else data in
    store r data.

Definition from_bytes (cap : nat) (epoch : Z) (bytes : list byte) : option Ring :=
  push (new cap epoch) bytes.

Definition snapshot (r : Ring) : list byte :=
  if r_head r =? 0 then r_buf r
  else drop (r_head r) (r_buf r) ++ take (r_head r) (r_buf r).

Definition len (r : Ring) : nat := length (r_buf r).
Definition is_empty (r : Ring) : bool := match r_buf r with [] => true | _ => false end.
Definition allocated (r : Ring) : nat := r_capacity r.
Definition written (r : Ring) : Z := r_written r.
Definition epoch (r : Ring) : Z := r_epoch r.

(** The bytes pushed after absolute stream offset [offset]. *)
Definition since (r : Ring) (offset : Z) : option (list byte) :=
  if (r_written r <? offset)%Z then None
  else
    let have := Z.to_nat (r_written r - offset) in
    if length (r_buf r) <? have then None
    else if have =? 0 then Some []
    else
      let snap := snapshot r in
      Some (drop (length snap - have) snap).

Definition newline : byte := 10%Z.

(** The last [n] bytes, cut forward to just after the first newline. *)
Definition tail (r : Ring) (n : nat) : list byte :=
  let all := snapshot r in
  if length all <=? n then all
  else
    let window := drop (length all - n) all in
    match position (fun b => (b =? newline)%Z) window with
    | Some i => drop (i + 1) window
    | None => window
    end.

(** A stream of pushes. *)
Fixpoint push_all (r : Ring) (chunks : list (list byte)) : option Ring :=
  match chunks with
  | [] => Some r
  | c :: cs => r' ← push r c; push_all r' cs
  end.

(** ** Well-formed rings

    The invariant the type documents: [len <= capacity <= cap], and the head is
    [0] until the buffer is full. *)
Record wf (r : Ring) : Prop := mk_wf {
  wf_len : length (r_buf r) <= r_capacity r;
  wf_capacity : r_capacity r <= r_cap r;
  wf_filling : length (r_buf r) < r_cap r -> r_head r = 0;
  wf_head : r_head r < r_cap r \/ r_head r = 0;
  wf_written : (Z.of_nat (length (r_buf r)) <= r_written r <= u64_max)%Z;
  (** [usize] is at most 64 bits wide *)
  wf_cap : (Z.of_nat (r_cap r) <= u64_max)%Z;
}.

Lemma new_wf cap e : (Z.of_nat cap <= u64_max)%Z -> wf (new cap e).
Proof. intros H. split; simpl; try lia. Qed.

Lemma snapshot_rotate r : snapshot r = drop (r_head r) (r_buf r) ++ take (r_head r) (r_buf r).
Proof.
  unfold snapshot. destruct (Nat.eqb_spec (r_head r) 0) as [->|]; [|done].
  by rewrite drop_0, take_0, app_nil_r.
Qed.

Lemma length_snapshot r : length (snapshot r) = length (r_buf r).
Proof. rewrite snapshot_rotate, length_app, length_drop, length_take. lia. Qed.

Lemma copy_at_app a d m c :
  length m = length d -> copy_at (length a) d (a ++ m ++ c) = Some (a ++ d ++ c).
Proof.
  intros Hm. unfold copy_at. rewrite !length_app.
  destruct (Nat.leb_spec (length a + length d) (length a + (length m + length c))); [|lia].
  rewrite take_app_length, <- Hm, <- drop_drop, drop_app_length, drop_app_length. done.
Qed.

(** Splitting a list at a position inside it. *)
Lemma split_at {A} (n : nat) (l : list A) :
  n <= length l -> exists a b, l = a ++ b /\ length a = n.
Proof.
  intros H. exists (take n l), (drop n l). rewrite take_drop, length_take. split; [done|lia].
Qed.

Lemma rotate_app {A} (a b : list A) :
  drop (length a) (a ++ b) ++ take (length a) (a ++ b) = b ++ a.
Proof. by rewrite drop_app_length, take_app_length. Qed.

(** The in-place overwrite drops the oldest bytes and appends the new ones. *)
Lemma write_wrapping_spec r d :
  wf r -> length (r_buf r) = r_cap r -> 0 < r_cap r -> length d <= r_cap r ->
  exists buf' head',
    write_wrapping r d
      = Some (mk_ring (r_cap r) buf' (r_capacity r) head' (r_written r) (r_epoch r))
    /\ length buf' = r_cap r /\ head' < r_cap r
    /\ drop head' buf' ++ take head' buf' = drop (length d) (snapshot r) ++ d.
Proof.
  intros [Hl Hc _ Hh _ _] Hfull Hpos Hd.
  destruct r as [cap buf capac hd wr ep]; simpl in *.
  assert (Hlt : hd < cap) by lia.
  destruct (split_at hd buf) as (a & b & -> & Ha); [lia|].
  rewrite length_app in *. subst hd.
  rewrite (snapshot_rotate (mk_ring _ _ _ _ _ _)); simpl. rewrite rotate_app.
  unfold write_wrapping; simpl.
  destruct (decide (length d <= length b)) as [Hfit|Hwrap].
  - destruct (split_at (length d) b) as (b1 & b2 & -> & Hb1); [done|].
    rewrite Nat.min_r, take_ge, Nat.ltb_irrefl by lia.
    rewrite copy_at_app by lia. simpl. rewrite !length_app in *.
    do 2 eexists; split; [done|]. rewrite !length_app. split_and!; try lia.
    + apply Nat.mod_upper_bound. lia.
    + rewrite <- Hb1, <- app_assoc, drop_app_length.
      destruct (decide (length b2 = 0)) as [Hb2|Hb2].
      * apply length_zero_iff_nil in Hb2 as ->. simpl in *.
        replace (length a + length b1) with cap by lia.
        rewrite Nat.Div0.mod_same. simpl. by rewrite !app_nil_r.
      * rewrite Nat.mod_small by lia.
        rewrite Hb1, <- length_app, !app_assoc.
        by rewrite drop_app_length, take_app_length, <- app_assoc.
  - destruct (split_at (length b) d) as (d1 & d2 & -> & Hd1); [lia|].
    rewrite length_app in *.
    rewrite Nat.min_l by lia.
    replace (cap - length a) with (length d1) by lia.
    rewrite take_app_length, drop_app_length.
    destruct (Nat.ltb_spec (length d1) (length d1 + length d2)); [|lia].
    rewrite <- (app_nil_r b), copy_at_app by lia. simpl. rewrite !app_nil_r.
    destruct (split_at (length d2) a) as (a1 & a2 & -> & Ha1); [lia|].
    rewrite <- app_assoc.
    pose proof (copy_at_app [] d2 a1 (a2 ++ d1) ltac:(lia)) as Hcopy. simpl in Hcopy.
    rewrite Hcopy. simpl. rewrite !length_app in *.
    do 2 eexists; split; [done|].
    assert (Hmod : (length a1 + length a2 + (length d1 + length d2)) mod cap = length d2).
    { replace (length a1 + length a2 + (length d1 + length d2))
        with (length d2 + 1 * cap) by lia.
      rewrite Nat.Div0.mod_add. apply Nat.mod_small. lia. }
    rewrite Hmod, !length_app. split_and!; try lia.
    rewrite rotate_app, drop_app_ge by lia.
    replace (length d1 + length d2 - length b) with (length a1) by lia.
    by rewrite drop_app_length, app_assoc.
Qed.

Lemma reserve_bounds r n :
  wf r -> length (r_buf r) + n <= r_cap r ->
  exists c, reserve_up_to_cap r n
      = mk_ring (r_cap r) (r_buf r) c (r_head r) (r_written r) (r_epoch r)
    /\ length (r_buf r) + n <= c <= r_cap r.
Proof.
  intros [Hl Hc _ _ _ _] Hn. unfold reserve_up_to_cap, vec_reserve_exact.
  generalize MIN_ALLOC. intros m.
  destruct (Nat.leb_spec (length (r_buf r) + n) (r_capacity r)).
  - exists (r_capacity r). destruct r; simpl in *. split; [done|lia].
  - eexists; split; [done|]. lia.
Qed.

(** What [push] does, as a relation between the rings before and after:
    [data] is appended to the retained stream and everything older than the
    newest [cap] bytes is forgotten. *)
Record pushed (r : Ring) (data : list byte) (r' : Ring) : Prop := mk_pushed {
  pushed_wf : wf r';
  pushed_cap : r_cap r' = r_cap r;
  pushed_epoch : r_epoch r' = r_epoch r;
  pushed_snapshot : snapshot r' = lastn (r_cap r) (snapshot r ++ data);
  pushed_written :
    r_written r' =
      if r_cap r =? 0 then r_written r
      else sat_add64 (r_written r) (Z.of_nat (length data));
}.

(** Overwriting a full, well-formed ring in place. *)
Lemma write_wrapping_pushed r d :
  wf r -> length (r_buf r) = r_cap r -> 0 < r_cap r -> length d <= r_cap r ->
  exists r', write_wrapping r d = Some r' /\ wf r'
    /\ r_cap r' = r_cap r /\ r_epoch r' = r_epoch r /\ r_written r' = r_written r
    /\ snapshot r' = lastn (r_cap r) (snapshot r ++ d).
Proof.
  intros Hwf Hfull Hpos Hd.
  destruct (write_wrapping_spec r d Hwf Hfull Hpos Hd) as (buf' & hd' & -> & Hlen & Hh & Hs).
  eexists; split; [done|]. destruct Hwf. split_and!; try done.
  - split; simpl; lia.
  - rewrite snapshot_rotate; simpl. rewrite Hs, lastn_app_l by done. unfold lastn.
    rewrite length_snapshot. f_equal. f_equal. lia.
Qed.

(** While the buffer is filling the head is [0] and the snapshot is the buffer. *)
Lemma snapshot_filling r : r_head r = 0 -> snapshot r = r_buf r.
Proof. intros H. unfold snapshot. by rewrite H. Qed.

(** Phase 1 of [push]: [tk] bytes fit, and the reserved capacity holds them. *)
Lemma fill_wf r tk d :
  wf r -> length (r_buf r) < r_cap r -> length (r_buf r) + tk <= r_cap r ->
  (Z.of_nat (length (r_buf r) + tk) <= r_written r)%Z -> tk <= length d ->
  wf (fill r tk d) /\ r_cap (fill r tk d) = r_cap r /\ r_epoch (fill r tk d) = r_epoch r
    /\ r_written (fill r tk d) = r_written r
    /\ snapshot (fill r tk d) = snapshot r ++ take tk d
    /\ length (r_buf (fill r tk d)) = length (r_buf r) + tk.
Proof.
  intros Hwf Hlt Hroom Hw Htk. unfold fill.
  destruct (reserve_bounds r tk Hwf Hroom) as (c & -> & Hc). simpl.
  unfold vec_extend_capacity. rewrite (proj2 (Nat.leb_le _ _)) by lia.
  destruct Hwf as [Hl Hca Hf Hh Hwr Hcap]. specialize (Hf Hlt).
  rewrite !snapshot_filling by done. simpl.
  rewrite length_app, length_take_le by done.
  split_and!; try done. split; simpl; rewrite ?length_app, ?length_take_le by done; try lia.
Qed.

Lemma store_spec r d :
  wf r -> 0 < r_cap r -> length d <= r_cap r ->
  (Z.of_nat (Nat.min (r_cap r) (length (r_buf r) + length d)) <= r_written r)%Z ->
  exists r', store r d = Some r' /\ wf r'
    /\ r_cap r' = r_cap r /\ r_epoch r' = r_epoch r /\ r_written r' = r_written r
    /\ snapshot r' = lastn (r_cap r) (snapshot r ++ d).
Proof.
  intros Hwf Hpos Hd Hroom. pose proof (length_snapshot r) as Hsl. unfold store.
  destruct (Nat.ltb_spec (length (r_buf r)) (r_cap r)) as [Hlt|Hge].
  - set (tk := Nat.min _ _).
    destruct (fill_wf r tk d) as (Hwf2 & Hc2 & He2 & Hw2 & Hs2 & Hl2); [done|lia..|].
    cbv zeta. set (r2 := fill r tk d) in *.
    destruct (Nat.eqb_spec tk (length d)) as [Heq|Hne].
    + exists r2. split_and!; try done.
      rewrite Hs2, take_ge by lia. rewrite lastn_ge; [done|]. rewrite length_app. lia.
    + destruct (write_wrapping_pushed r2 (drop tk d)) as (r3 & -> & Hwf3 & Hc3 & He3 & Hw3 & Hs3);
        [done|lia|lia|rewrite length_drop; lia|].
      exists r3. split_and!; try congruence.
      by rewrite Hs3, Hs2, Hc2, <- app_assoc, take_drop.
  - apply write_wrapping_pushed; try done. destruct Hwf. lia.
Qed.

Lemma count_wf r n : wf r -> wf (count r n).
Proof. intros []. unfold count, sat_add64. split; simpl; try done; lia. Qed.

(** An oversized push may drop everything but its newest [cap] bytes first. *)
Lemma lastn_oversized {A} cap (s d : list A) :
  lastn cap (s ++ lastn cap d) = lastn cap (s ++ d).
Proof.
  destruct (decide (length d <= cap)).
  - by rewrite (lastn_ge _ d).
  - rewrite !lastn_app_r by (rewrite ?length_lastn; lia). by rewrite lastn_lastn, Nat.min_id.
Qed.

Lemma push_spec r d : wf r -> exists r', push r d = Some r' /\ pushed r d r'.
Proof.
  intros Hwf. pose proof (length_snapshot r) as Hsl. unfold push.
  destruct (Nat.eqb_spec (r_cap r) 0) as [H0|H0]; simpl.
  { exists r. split; [done|]. split; try done.
    - destruct Hwf. rewrite H0, lastn_0. apply length_zero_iff_nil. lia.
    - by rewrite H0. }
  destruct (Nat.eqb_spec (length d) 0) as [Hd0|Hd0].
  { apply length_zero_iff_nil in Hd0 as ->. exists r. split; [done|].
    destruct Hwf. split; try done.
    - rewrite app_nil_r, lastn_ge; [done|lia].
    - rewrite (proj2 (Nat.eqb_neq _ _) H0). unfold sat_add64. simpl. lia. }
  set (d' := if r_cap r <? length d then _ else d).
  assert (Hd' : d' = lastn (r_cap r) d).
  { subst d'. destruct (Nat.ltb_spec (r_cap r) (length d)); [done|]. by rewrite lastn_ge. }
  clearbody d'. subst d'.
  destruct (store_spec (count r (length d)) (lastn (r_cap r) d))
    as (r' & -> & Hwf' & Hc & He & Hw & Hs); simpl.
  { by apply count_wf. }
  { lia. }
  { rewrite length_lastn. lia. }
  { rewrite length_lastn. unfold sat_add64. destruct Hwf. lia. }
  exists r'. split; [done|]. split; try done.
  - rewrite Hs. simpl. apply lastn_oversized.
  - rewrite Hw. by rewrite (proj2 (Nat.eqb_neq _ _) H0).
Qed.

(** Iterating [push_spec]: the ring after a stream of pushes retains the newest
    [cap] bytes of the whole stream. *)
Lemma push_all_spec chunks r :
  wf r -> exists r', push_all r chunks = Some r' /\ wf r'
    /\ r_cap r' = r_cap r /\ r_epoch r' = r_epoch r
    /\ snapshot r' = lastn (r_cap r) (snapshot r ++ concat chunks)
    /\ (r_cap r <> 0 ->
        r_written r' = sat_add64 (r_written r) (Z.of_nat (length (concat chunks)))).
Proof.
  revert r. induction chunks as [|c cs IH]; simpl; intros r Hwf.
  - exists r. pose proof (length_snapshot r). destruct Hwf. split_and!; try done.
    + rewrite app_nil_r, lastn_ge; [done|lia].
    + unfold sat_add64. lia.
  - destruct (push_spec r c Hwf) as (r1 & -> & [Hwf1 Hc1 He1 Hs1 Hw1]). simpl.
    destruct (IH r1 Hwf1) as (r2 & -> & Hwf2 & Hc2 & He2 & Hs2 & Hw2).
    exists r2. split_and!; try congruence.
    + by rewrite Hs2, Hc1, Hs1, lastn_app_lastn, app_assoc.
    + intros H0. rewrite Hw2, Hw1 by lia. rewrite (proj2 (Nat.eqb_neq _ _) H0), length_app.
      unfold sat_add64. lia.
Qed.

(** [since], computed from the snapshot and the counter. *)
Lemma since_spec r off :
  wf r -> is_u64 off ->
  since r off =
    if ((off <=? r_written r) && (r_written r - off <=? Z.of_nat (length (r_buf r))))%Z
    then Some (lastn (Z.to_nat (r_written r - off)) (snapshot r)) else None.
Proof.
  intros Hwf Hoff. unfold since. pose proof (length_snapshot r) as Hsl.
  destruct (Z.ltb_spec (r_written r) off), (Z.leb_spec off (r_written r)); try lia; simpl; [done|].
  set (have := Z.to_nat _).
  destruct (Nat.ltb_spec (length (r_buf r)) have);
    destruct (Z.leb_spec (r_written r - off) (Z.of_nat (length (r_buf r)))); try lia; try done.
  destruct (Nat.eqb_spec have 0) as [->|]; [by rewrite lastn_0|].
  done.
Qed.

(** C10. The ring refines "the newest [cap] bytes of everything ever pushed". *)
Theorem ring_refines_stream (cap : nat) (e : Z) (chunks : list (list byte)) :
  (0 < cap) -> (Z.of_nat cap <= u64_max)%Z ->
  let stream := concat chunks in
  (Z.of_nat (length stream) <= u64_max)%Z ->
  exists r, push_all (new cap e) chunks = Some r
    /\ snapshot r = lastn cap stream
    /\ written r = Z.of_nat (length stream)
    /\ epoch r = e
    /\ len r <= allocated r <= cap
    /\ forall off : nat,
         since r (Z.of_nat off) =
           if (off <=? length stream) && (length stream - off <=? cap)
           then Some (drop off stream) else None.
Proof.
  intros Hpos Hcap stream Hlen.
  destruct (push_all_spec chunks (new cap e) (new_wf cap e Hcap))
    as (r & Hp & Hwf & Hc & He & Hs & Hw). simpl in *.
  specialize (Hw ltac:(lia)). unfold sat_add64 in Hw. fold stream in Hw.
  rewrite Z.min_r, Z.add_0_l in Hw by lia. change (concat chunks) with stream in Hs.
  pose proof (length_snapshot r) as Hsl. rewrite Hs, length_lastn in Hsl.
  exists r. split_and!; try done; [destruct Hwf; unfold len, allocated; lia..|].
  intros off. destruct (decide (off <= length stream)) as [Hle|Hgt].
  - rewrite since_spec by (unfold is_u64; auto; lia). rewrite Hw, Hs, <- Hsl.
    rewrite (proj2 (Nat.leb_le _ _) Hle), (proj2 (Z.leb_le _ _)) by lia. simpl.
    replace (Z.to_nat _) with (length stream - off) by lia.
    destruct (Nat.leb_spec (length stream - off) cap), (Z.leb_spec
      (Z.of_nat (length stream) - Z.of_nat off) (Z.of_nat (Nat.min cap (length stream))));
      try lia; [|done].
    rewrite lastn_lastn, Nat.min_l by done. unfold lastn. do 2 f_equal. lia.
  - rewrite (proj2 (Nat.leb_gt _ _)) by lia. simpl. unfold since.
    rewrite (proj2 (Z.ltb_lt _ _)) by lia. done.
Qed.

Lemma ring_refines_stream_witness :
  exists r, push_all (new 4 9) [[1; 2; 3]; [4; 5]; [6; 7]]%Z = Some r
    /\ snapshot r = [4; 5; 6; 7]%Z
    /\ since r 5 = Some [6; 7]%Z /\ since r 2 = None /\ since r 8 = None.
Proof.
  destruct (ring_refines_stream 4 9 [[1; 2; 3]; [4; 5]; [6; 7]]%Z)
    as (r & Hp & Hs & Hw & He & Ha & Hsince); [lia|by vm_compute|by vm_compute|].
  exists r. split; [exact Hp|]. split; [exact Hs|].
  split; [exact (Hsince 5)|]. split; [exact (Hsince 2)|exact (Hsince 8)].
Defined.

(** A preview never begins inside a line of the scrollback when the cut
    window holds a line break, and never grows past what was asked for. *)
Theorem tail_spec (r : Ring) (n : nat) :
  exists skipped, snapshot r = skipped ++ tail r n
    /\ (length (snapshot r) <= n -> skipped = [])
    /\ (n < length (snapshot r) ->
          length (tail r n) <= n
          /\ ((exists before window : list byte, lastn n (snapshot r) = window ++ (newline :: tail r n)
                 /\ (newline ∉ window) /\ skipped = before ++ (window ++ [newline]))
              \/ ((newline ∉ lastn n (snapshot r)) /\ tail r n = lastn n (snapshot r)))).
Proof.
  unfold tail. set (all := snapshot r).
  destruct (Nat.leb_spec (length all) n) as [Hle|Hgt].
  { exists []. split_and!; auto. lia. }
  change (drop (length all - n) all) with (lastn n all).
  destruct (lastn_suffix n all) as [before Hall].
  assert (Hlen : length (lastn n all) = n) by (rewrite length_lastn; lia).
  destruct (position _ (lastn n all)) as [i|] eqn:Hpos.
  - apply position_Some in Hpos as (x & Hx & Hnl & Hmin).
    apply Z.eqb_eq in Hnl as ->.
    pose proof (take_drop_middle _ _ _ Hx) as Hw. rewrite <- Nat.add_1_r in Hw.
    assert (Hnot : newline ∉ take i (lastn n all)).
    { intros Hin. apply list_elem_of_lookup in Hin as [j Hj].
      apply lookup_take_Some in Hj as [Hj Hji].
      specialize (Hmin j newline Hji Hj). by rewrite Z.eqb_refl in Hmin. }
    exists (before ++ take i (lastn n all) ++ [newline]). split_and!.
    + rewrite <- !app_assoc. simpl. by rewrite Hw.
    + lia.
    + intros _. rewrite length_drop. split; [lia|]. left.
      exists before, (take i (lastn n all)). by rewrite Hw.
  - exists before. split_and!; [done|lia|]. intros _. split; [lia|]. right. split; [|done].
    intros Hin. rewrite position_None in Hpos. specialize (Hpos _ Hin).
    by rewrite Z.eqb_refl in Hpos.
Qed.
