(* ===== verification/Modes.v ===== *)
(** * Private terminal modes

    [crates/amber-core/src/modes.rs]: the bounded, split-safe recognizer of
    [ESC [ ? params h|l] that remembers which private modes a session's
    application has switched on, and the preamble a cold terminal is put into
    those modes with. *)
From S2P Require Import Prelude.

(** ** Data *)

Definition BIT_ALT_47 : Z := Z.shiftl 1 0.
Definition BIT_ALT_1047 : Z := Z.shiftl 1 1.
Definition BIT_ALT_1049 : Z := Z.shiftl 1 2.
Definition BIT_MOUSE_1000 : Z := Z.shiftl 1 3.
Definition BIT_MOUSE_1002 : Z := Z.shiftl 1 4.
Definition BIT_MOUSE_1003 : Z := Z.shiftl 1 5.
Definition BIT_FOCUS_1004 : Z := Z.shiftl 1 6.
Definition BIT_MOUSE_1006 : Z := Z.shiftl 1 7.
Definition BIT_MOUSE_1015 : Z := Z.shiftl 1 8.
Definition BIT_MOUSE_1016 : Z := Z.shiftl 1 9.
Definition BIT_BRACKETED_PASTE : Z := Z.shiftl 1 10.
Definition BIT_CURSOR_HIDDEN : Z := Z.shiftl 1 11.

Definition TRACKED : list (Z * Z) := [
  (25, BIT_CURSOR_HIDDEN);
  (47, BIT_ALT_47);
  (1000, BIT_MOUSE_1000);
  (1002, BIT_MOUSE_1002);
  (1003, BIT_MOUSE_1003);
  (1004, BIT_FOCUS_1004);
  (1006, BIT_MOUSE_1006);
  (1015, BIT_MOUSE_1015);
  (1016, BIT_MOUSE_1016);
  (1047, BIT_ALT_1047);
  (1049, BIT_ALT_1049);
  (2004, BIT_BRACKETED_PASTE)]%Z.

Definition bit_for (mode : Z) : option Z :=
  snd <$> find_first (fun mb => (mb.1 =? mode)%Z) TRACKED.

Definition is_alt_bit (bit : Z) : bool :=
  ((bit =? BIT_ALT_47) || (bit =? BIT_ALT_1047) || (bit =? BIT_ALT_1049))%Z.

Inductive PreamblePass := AltScreen | Reporting.

Definition pass_is_alt (p : PreamblePass) : bool :=
  match p with AltScreen => true | Reporting => false end.

Definition MAX_PARAMS : nat := 64.

Inductive ModeParse :=
| Normal
| Esc
| Csi
| Priv (params : list byte).

Record TerminalModes := mk_modes {
  m_enabled : Z;
  m_state : ModeParse;
}.

Definition new : TerminalModes := mk_modes 0 Normal.

(** ** Operations *)

(** [!bit] on a [u32]. *)
Definition not32 (bit : Z) : Z := Z.lxor bit u32_max.

Definition set_bit (enabled bit : Z) (on : bool) : Z :=
  if on then Z.lor enabled bit else Z.land enabled (not32 bit).

Definition apply (enabled mode : Z) (set : bool) : Z :=
  if (mode =? 25)%Z then set_bit enabled BIT_CURSOR_HIDDEN (negb set)
  else match bit_for mode with
       | Some bit => set_bit enabled bit set
       | None => enabled
       end.

Definition semicolon : byte := 59%Z.

Definition apply_params (enabled : Z) (params : list byte) (set : bool) : Z :=
  foldl (fun en param =>
           match parse_uint u16_max param with
           | None => en
           | Some mode => apply en mode set
           end) enabled (split_on semicolon params).

Definition feed_byte (m : TerminalModes) (b : byte) : TerminalModes :=
  let en := m_enabled m in
  match m_state m with
  | Normal => if (b =? 27)%Z then mk_modes en Esc else mk_modes en Normal
  | Esc =>
      if (b =? 91)%Z then mk_modes en Csi
      else if (b =? 27)%Z then mk_modes en Esc
      else mk_modes en Normal
  | Csi =>
      if (b =? 63)%Z then mk_modes en (Priv [])
      else if (b =? 27)%Z then mk_modes en Esc
      else mk_modes en Normal
  | Priv params =>
      if ((b =? 104) || (b =? 108))%Z then
        mk_modes (apply_params en params (b =? 104)%Z) Normal
      else if (is_digit b || (b =? semicolon)%Z) then
        if length params <? MAX_PARAMS then mk_modes en (Priv (params ++ [b]))
        else mk_modes en Normal
      else if (b =? 27)%Z then mk_modes en Esc
      else mk_modes en Normal
  end.

Definition feed (m : TerminalModes) (bytes : list byte) : TerminalModes :=
  foldl feed_byte m bytes.

Definition alt_screen (m : TerminalModes) : bool :=
  negb (Z.land (m_enabled m) (Z.lor (Z.lor BIT_ALT_47 BIT_ALT_1047) BIT_ALT_1049) =? 0)%Z.

Definition mouse_tracking (m : TerminalModes) : bool :=
  negb (Z.land (m_enabled m)
    (foldr Z.lor 0 [BIT_MOUSE_1000; BIT_MOUSE_1002; BIT_MOUSE_1003; BIT_MOUSE_1006;
                    BIT_MOUSE_1015; BIT_MOUSE_1016]) =? 0)%Z.

Definition bracketed_paste (m : TerminalModes) : bool :=
  negb (Z.land (m_enabled m) BIT_BRACKETED_PASTE =? 0)%Z.

Definition cursor_hidden (m : TerminalModes) : bool :=
  negb (Z.land (m_enabled m) BIT_CURSOR_HIDDEN =? 0)%Z.

(** [format!("\x1b[?{mode}h")] *)
Definition decset (mode : Z) : list byte := [27; 91; 63]%Z ++ dec mode ++ [104]%Z.

Definition preamble_pass (enabled : Z) (p : PreamblePass) : list byte :=
  concat (map (fun '(mode, bit) =>
    if (mode =? 25)%Z || xorb (pass_is_alt p) (is_alt_bit bit) then []
    else if negb (Z.land enabled bit =? 0)%Z then decset mode else []) TRACKED).

Definition replay_preamble (m : TerminalModes) : list byte :=
  if negb (alt_screen m) then []
  else
    concat (map (preamble_pass (m_enabled m)) [AltScreen; Reporting])
    ++ (if cursor_hidden m then [27; 91; 63; 50; 53; 108]%Z else []).

(** ** The bound on what the recognizer remembers *)

Definition ALL_BITS : Z := Z.ones 12.

Definition param_byte (b : byte) : Prop := is_digit b = true \/ b = semicolon.

Record wf (m : TerminalModes) : Prop := mk_wf {
  wf_enabled : (0 <= m_enabled m < 2 ^ 12)%Z;
  wf_params : forall ps, m_state m = Priv ps -> length ps <= MAX_PARAMS /\ Forall param_byte ps;
}.

Lemma modes_new_wf : wf new.
Proof. split; simpl; [lia|done]. Qed.

(** A tracked bit sits inside the twelve owned ones. *)
Lemma bit_for_range mode bit : bit_for mode = Some bit -> (0 <= bit < 2 ^ 12)%Z.
Proof.
  unfold bit_for. intros H. apply fmap_Some in H as ([m b] & Hf & ->).
  apply find_first_Some in Hf as [Hin _]. simpl.
  assert (Hall : Forall (fun mb => 0 <= mb.2 < 2 ^ 12)%Z TRACKED)
    by (repeat (constructor; [vm_compute; split; congruence|]); constructor).
  exact (proj1 (Forall_forall _ _) Hall _ Hin).
Qed.

Lemma bits12_ones e : (0 <= e < 2 ^ 12)%Z <-> (0 <= e)%Z /\ forall i, (12 <= i)%Z -> Z.testbit e i = false.
Proof.
  split.
  - intros H. split; [lia|]. intros i Hi.
    destruct (Z.eq_dec e 0) as [->|]; [apply Z.bits_0|].
    apply Z.bits_above_log2; [lia|]. apply Z.lt_le_trans with 12%Z; [|done].
    apply Z.log2_lt_pow2; lia.
  - intros [Hpos Hb]. split; [done|]. destruct (Z.lt_ge_cases e (2 ^ 12)) as [?|Hge]; [done|].
    assert (Hl : (12 <= Z.log2 e)%Z) by (apply Z.log2_le_pow2; lia).
    specialize (Hb _ Hl). rewrite Z.bit_log2 in Hb; [done|lia].
Qed.

Lemma set_bit_range e bit on :
  (0 <= e < 2 ^ 12)%Z -> (0 <= bit < 2 ^ 12)%Z -> (0 <= set_bit e bit on < 2 ^ 12)%Z.
Proof.
  intros [He Hbe]%bits12_ones [Hb Hbb]%bits12_ones. apply bits12_ones.
  unfold set_bit. destruct on; split.
  - apply Z.lor_nonneg. lia.
  - intros i Hi. by rewrite Z.lor_spec, Hbe, Hbb.
  - apply Z.land_nonneg. lia.
  - intros i Hi. by rewrite Z.land_spec, Hbe.
Qed.

Lemma apply_range e mode set : (0 <= e < 2 ^ 12)%Z -> (0 <= apply e mode set < 2 ^ 12)%Z.
Proof.
  intros He. unfold apply. destruct (mode =? 25)%Z.
  - apply set_bit_range; [done|]. vm_compute. split; congruence.
  - destruct (bit_for mode) eqn:Hb; [|done]. apply set_bit_range; [done|].
    by apply bit_for_range in Hb.
Qed.

Lemma apply_params_range e ps set :
  (0 <= e < 2 ^ 12)%Z -> (0 <= apply_params e ps set < 2 ^ 12)%Z.
Proof.
  unfold apply_params. revert e. induction (split_on semicolon ps) as [|p l IH]; simpl; [done|].
  intros e He. apply IH. destruct (parse_uint u16_max p); [by apply apply_range|done].
Qed.

Lemma feed_byte_wf m b : wf m -> wf (feed_byte m b).
Proof.
  intros [He Hp]. unfold feed_byte. destruct (m_state m) as [| | |ps] eqn:Hs.
  1-3: repeat case_match; split; simpl; try done;
    intros ? [= <-]; (split; [unfold MAX_PARAMS; simpl; lia|constructor]).
  destruct (Hp _ eq_refl) as [Hlen Hall].
  destruct ((b =? 104) || (b =? 108))%Z; [split; simpl; [by apply apply_params_range|done]|].
  destruct (is_digit b || (b =? semicolon)%Z) eqn:Hb; [|case_match; split; simpl; done].
  destruct (Nat.ltb_spec (length ps) MAX_PARAMS); split; simpl; try done.
  intros ? [= <-]. rewrite length_app. simpl. split; [lia|].
  apply Forall_app. split; [done|]. constructor; [|done].
  apply orb_true_iff in Hb as [?|?%Z.eqb_eq]; [by left|by right].
Qed.

Lemma feed_cons m b l : feed m (b :: l) = feed (feed_byte m b) l.
Proof. done. Qed.

Lemma feed_app m l k : feed m (l ++ k) = feed (feed m l) k.
Proof. apply foldl_app. Qed.

Lemma feed_wf m bytes : wf m -> wf (feed m bytes).
Proof.
  revert m. induction bytes as [|b l IH]; [done|]. intros m H. apply IH, feed_byte_wf, H.
Qed.

Lemma reachable_wf chunks : wf (foldl feed new chunks).
Proof.
  generalize modes_new_wf. generalize new. induction chunks as [|c cs IH]; simpl; [done|].
  intros m H. apply IH, feed_wf, H.
Qed.

(** ** The preamble *)

(** Every mode set a tracker can hold, checked one by one. *)
Definition preamble_ok (e : Z) : bool :=
  let m := mk_modes e Normal in
  if alt_screen m then
    let cold := feed new (replay_preamble m) in
    (m_enabled cold =? e)%Z && match m_state cold with Normal => true | _ => false end
  else match replay_preamble m with [] => true | _ => false end.

Lemma preamble_ok_all : forallb (fun n => preamble_ok (Z.of_nat n)) (seq 0 4096) = true.
Proof. vm_compute. reflexivity. Qed.

Lemma preamble_ok_range e : (0 <= e < 2 ^ 12)%Z -> preamble_ok e = true.
Proof.
  intros He. pose proof preamble_ok_all as H. rewrite forallb_forall in H.
  rewrite <- (Z2Nat.id e) by lia. apply H, in_seq. lia.
Qed.

(** The preamble depends on the modes only, not on a half-read candidate. *)
Lemma replay_preamble_state m : replay_preamble m = replay_preamble (mk_modes (m_enabled m) Normal).
Proof. done. Qed.


(** ** What the recognizer recognizes *)

(** The output of an application, as the tracker sees it: text without an escape
    byte, and complete mode sequences. *)
Inductive item :=
| Text (t : list byte)
| Mode (params : list byte) (set : bool).

Definition render (i : item) : list byte :=
  match i with
  | Text t => t
  | Mode ps set => [27; 91; 63]%Z ++ ps ++ [if set then 104 else 108]%Z
  end.

Definition item_ok (i : item) : Prop :=
  match i with
  | Text t => Forall (fun b => b <> 27%Z) t
  | Mode ps _ => length ps <= MAX_PARAMS /\ Forall param_byte ps
  end.

Definition item_effect (e : Z) (i : item) : Z :=
  match i with
  | Text _ => e
  | Mode ps set => apply_params e ps set
  end.

Lemma feed_text e t : Forall (fun b => b <> 27%Z) t -> feed (mk_modes e Normal) t = mk_modes e Normal.
Proof.
  induction 1 as [|b t Hb _ IH]; [done|]. rewrite feed_cons.
  unfold feed_byte. simpl. by rewrite (proj2 (Z.eqb_neq _ _) Hb).
Qed.

Lemma param_byte_not_final b : param_byte b -> (b =? 104)%Z = false /\ (b =? 108)%Z = false.
Proof.
  unfold param_byte, is_digit, semicolon.
  intros [[?%Z.leb_le ?%Z.leb_le]%andb_true_iff| ->]; split; apply Z.eqb_neq; lia.
Qed.

Lemma feed_params e acc ps :
  Forall param_byte ps -> length acc + length ps <= MAX_PARAMS ->
  feed (mk_modes e (Priv acc)) ps = mk_modes e (Priv (acc ++ ps)).
Proof.
  intros Hall. revert acc. induction Hall as [|b ps Hb _ IH]; intros acc Hlen.
  { by rewrite app_nil_r. }
  rewrite feed_cons. unfold feed_byte. simpl in *.
  destruct (param_byte_not_final b Hb) as [-> ->]. simpl.
  assert (Hpb : is_digit b || (b =? semicolon)%Z = true).
  { apply orb_true_iff. destruct Hb; [by left|]. right. by apply Z.eqb_eq. }
  rewrite Hpb, (proj2 (Nat.ltb_lt _ _)) by lia.
  rewrite IH by (rewrite length_app; simpl; lia). by rewrite <- app_assoc.
Qed.

Lemma feed_item e i : item_ok i -> feed (mk_modes e Normal) (render i) = mk_modes (item_effect e i) Normal.
Proof.
  destruct i as [t|ps set]; simpl; [apply feed_text|]. intros [Hlen Hall].
  change (feed _ (ps ++ _) = mk_modes (apply_params e ps set) Normal) with
    (feed (mk_modes e (Priv [])) (ps ++ [if set then 104 else 108]%Z)
     = mk_modes (apply_params e ps set) Normal).
  rewrite feed_app, feed_params by (simpl; lia || done). by destruct set.
Qed.

(** A well-formed mode set is recognized wherever it stands in the output and
    however the daemon frames it, and nothing else changes the modes: the
    tracker's state is the fold of the mode sets in order. *)
Theorem feed_recognizes (items : list item) (chunks : list (list byte)) :
  Forall item_ok items -> concat chunks = concat (map render items) ->
  foldl feed new chunks = mk_modes (foldl item_effect 0%Z items) Normal.
Proof.
  intros Hok Hchunks.
  assert (Hfold : forall m, foldl feed m chunks = feed m (concat chunks)).
  { clear. induction chunks as [|c cs IH]; intros m; simpl; [done|]. by rewrite feed_app, IH. }
  rewrite Hfold, Hchunks. unfold new. generalize 0%Z. clear Hfold Hchunks chunks.
  induction Hok as [|i items Hi _ IH]; intros e; simpl; [done|].
  by rewrite feed_app, feed_item, IH.
Qed.

Lemma feed_recognizes_witness :
  foldl feed new [[65; 27; 91]; [63; 49; 48; 52]; [57; 59; 50; 53; 108; 66]]%Z
  = mk_modes BIT_CURSOR_HIDDEN Normal
  /\ foldl feed new [[27]; [91; 63; 49; 48; 52; 57; 104]]%Z = mk_modes BIT_ALT_1049 Normal.
Proof.
  split.
  - apply (feed_recognizes [Text [65]; Mode [49; 48; 52; 57; 59; 50; 53] false; Text [66]]%Z).
    + repeat constructor; vm_compute; try lia; intuition congruence.
    + reflexivity.
  - apply (feed_recognizes [Mode [49; 48; 52; 57] true]%Z).
    + repeat constructor; vm_compute; try lia; intuition congruence.
    + reflexivity.
Defined.

(** The recognizer's memory is bounded on arbitrary output: at most
    [MAX_PARAMS] parameter bytes and the twelve owned bits, so that neither
    binary noise nor a hostile stream can grow it. *)
Theorem tracker_bounded (chunks : list (list byte)) :
  let m := foldl feed new chunks in
  (0 <= m_enabled m < 2 ^ 12)%Z
  /\ match m_state m with
     | Priv ps => length ps <= MAX_PARAMS /\ Forall param_byte ps
     | _ => True
     end.
Proof.
  intros m. destruct (reachable_wf chunks) as [He Hp]. split; [done|]. case_match; auto.
Qed.
