(* ===== verification/Utf8.v ===== *)
(** * UTF-8

    What the program relies on of Rust's [str]: validity of a byte sequence
    ([std::str::from_utf8]), the characters of a string ([str::chars]), the
    character classes it tests and [str::trim].  A character is its scalar
    value. *)
From S2P Require Import Prelude.

Definition between (lo hi b : Z) : bool := ((lo <=? b) && (b <=? hi))%Z.
Definition is_cont (b : byte) : bool := between 128 191 b.

(** The admissible range of the second byte, by the first. *)
Definition second_ok (b0 b1 : byte) : bool :=
  (if b0 =? 224 then between 160 191 b1
   else if b0 =? 237 then between 128 159 b1
   else if b0 =? 240 then between 144 191 b1
   else if b0 =? 244 then between 128 143 b1
   else is_cont b1)%Z.

(** One character off the front. *)
Definition decode_char (l : list byte) : option (Z * list byte) :=
  match l with
  | [] => None
  | b0 :: r =>
      if (b0 <? 128)%Z then Some (b0, r)
      else match r with
      | b1 :: r1 =>
          if negb (second_ok b0 b1) then None
          else if between 194 223 b0 then Some ((b0 - 192) * 64 + (b1 - 128), r1)%Z
          else match r1 with
          | b2 :: r2 =>
              if negb (is_cont b2) then None
              else if between 224 239 b0 then
                Some ((b0 - 224) * 4096 + (b1 - 128) * 64 + (b2 - 128), r2)%Z
              else match r2 with
              | b3 :: r3 =>
                  if negb (is_cont b3) then None
                  else if between 240 244 b0 then
                    Some ((b0 - 240) * 262144 + (b1 - 128) * 4096
                          + (b2 - 128) * 64 + (b3 - 128), r3)%Z
                  else None
              | [] => None
              end
          | [] => None
          end
      | [] => None
      end
  end.

Arguments decode_char : simpl never.

Fixpoint decode_chars (fuel : nat) (l : list byte) : option (list Z) :=
  match l, fuel with
  | [], _ => Some []
  | _, 0 => None
  | _, S fuel' =>
      '(c, r) ← decode_char l;
      cs ← decode_chars fuel' r;
      Some (c :: cs)
  end.

(** A character takes at least one byte, so the length is fuel enough. *)
Definition chars_of (l : list byte) : option (list Z) := decode_chars (length l) l.

Definition utf8_valid (l : list byte) : bool :=
  match chars_of l with Some _ => true | None => false end.

Definition from_utf8 (l : list byte) : option string :=
  if utf8_valid l then Some (string_of_bytes l) else None.

(** [str::chars]; a Rust string is valid by its type. *)
Definition chars (s : string) : list Z := default [] (chars_of (bytes_of_string s)).

(** The type invariant of [String]. *)
Definition utf8_ok (s : string) : Prop := utf8_valid (bytes_of_string s) = true.

(** [char::is_control]: the general category Cc. *)
Definition is_control (c : Z) : bool := between 0 31 c || between 127 159 c.

Definition is_ascii_alphanumeric (b : byte) : bool :=
  between 48 57 b || between 65 90 b || between 97 122 b.

(** [char::is_whitespace]: the property White_Space. *)
Definition is_whitespace (c : Z) : bool :=
  between 9 13 c || existsb (Z.eqb c) [32; 133; 160; 5760; 8232; 8233; 8239; 8287; 12288]%Z
  || between 8192 8202 c.

Fixpoint trim_start (l : list Z) : list Z :=
  match l with
  | c :: l' => if is_whitespace c then trim_start l' else l
  | [] => []
  end.

Definition trim_end (l : list Z) : list Z := reverse (trim_start (reverse l)).
Definition trim (l : list Z) : list Z := trim_end (trim_start l).

(** [s.trim().is_empty()] *)
Definition blank (s : string) : bool := match trim (chars s) with [] => true | _ => false end.

(** ** Facts *)

Lemma decode_char_shrinks l c r : decode_char l = Some (c, r) -> exists n, r = drop n l /\ 1 <= n <= length l.
Proof.
  unfold decode_char. destruct l as [|b0 l]; [done|].
  repeat case_match; intros; simplify_eq/=.
  all: first [exists 1; split; [done|lia] | exists 2; split; [done|lia]
             | exists 3; split; [done|lia] | exists 4; split; [done|lia]].
Qed.

Lemma decode_chars_fuel f1 f2 l :
  length l <= f1 -> length l <= f2 -> decode_chars f1 l = decode_chars f2 l.
Proof.
  revert f2 l. induction f1 as [|f1 IH]; intros f2 l H1 H2.
  - destruct l; simpl in *; [|lia]. by destruct f2.
  - destruct l as [|b l]; [by destruct f2|]. destruct f2 as [|f2]; [simpl in *; lia|].
    cbn [decode_chars]. destruct (decode_char (b :: l)) as [[c r]|] eqn:Hd; [|done]. simpl.
    apply decode_char_shrinks in Hd as (n & -> & Hn).
    rewrite (IH f2); [done|..]; rewrite length_drop; simpl in *; lia.
Qed.

(** A seven-bit string is its own character sequence. *)
Lemma chars_of_ascii l : Forall (fun b => (b < 128)%Z) l -> chars_of l = Some l.
Proof.
  unfold chars_of. induction 1 as [|b l Hb _ IH]; [done|]. simpl. unfold decode_char.
  rewrite (proj2 (Z.ltb_lt _ _) Hb). simpl. by rewrite IH.
Qed.

Lemma utf8_valid_ascii l : Forall (fun b => (b < 128)%Z) l -> utf8_valid l = true.
Proof. intros H. unfold utf8_valid. by rewrite chars_of_ascii. Qed.

Lemma from_utf8_of_string s : utf8_ok s -> from_utf8 (bytes_of_string s) = Some s.
Proof. unfold utf8_ok, from_utf8. intros ->. by rewrite string_of_bytes_of_string. Qed.

Lemma decode_char_app l c r k : decode_char l = Some (c, r) -> decode_char (l ++ k) = Some (c, r ++ k).
Proof.
  unfold decode_char. destruct l as [|b0 [|b1 [|b2 [|b3 l]]]]; simpl;
    repeat case_match; intros; simplify_eq/=; done.
Qed.

Lemma chars_of_app l k cs ds :
  chars_of l = Some cs -> chars_of k = Some ds -> chars_of (l ++ k) = Some (cs ++ ds).
Proof.
  unfold chars_of. intros Hl Hk.
  assert (Hgen : forall f l cs, length l <= f -> decode_chars f l = Some cs ->
            decode_chars (f + length k) (l ++ k) = Some (cs ++ ds)).
  { clear l cs Hl. induction f as [|f IH]; intros l cs Hlen Hl.
    - destruct l; [|simpl in *; lia]. injection Hl as <-. exact Hk.
    - destruct l as [|b l].
      + injection Hl as <-. rewrite !app_nil_l, <- Hk. apply (decode_chars_fuel (S f + length k)); lia.
      + cbn [decode_chars] in Hl. destruct (decode_char (b :: l)) as [[c r]|] eqn:Hd; [|done].
        simpl in Hl. destruct (decode_chars f r) as [cs'|] eqn:Hr; simplify_eq/=.
        pose proof (decode_char_app _ _ _ k Hd) as Hd'.
        change (S f + length k) with (S (f + length k)). cbn [decode_chars app] in *.
        rewrite Hd'. simpl.
        apply decode_char_shrinks in Hd as (n & -> & Hn).
        rewrite (IH _ cs'); [done| |done]. rewrite length_drop. simpl in *. lia. }
  rewrite length_app. by apply Hgen.
Qed.

Lemma utf8_ok_app s t : utf8_ok s -> utf8_ok t -> utf8_ok (s +:+ t).
Proof.
  unfold utf8_ok, utf8_valid. rewrite bytes_of_string_app.
  destruct (chars_of (bytes_of_string s)) eqn:Hs; [|done].
  destruct (chars_of (bytes_of_string t)) eqn:Ht; [|done].
  by rewrite (chars_of_app _ _ _ _ Hs Ht).
Qed.
