(* ===== verification/Wire.v ===== *)
(** * The messages of the wire protocol

    [crates/amber-core/src/proto.rs]: the control messages, the Pi commands and
    the frames clients and daemon exchange.  Constructors carry the source's
    names behind a prefix that says which enum they belong to.  A JSON value
    ([serde_json::Value]) is a parameter of the types that hold one; a floating
    point number is its 64-bit pattern. *)
From S2P Require Import Prelude.

Record SessionInfo := mk_session_info {
  si_name : string;
  si_cwd : string;
  si_kind : string;
  si_alive : bool;
  si_title : option string;
  si_branch : option string;
  si_updated : Z;
  si_run_state : option string;
  si_claude_id : option string;
  si_cols : Z;
  si_rows : Z;
  si_slot : Z;
}.

Record SearchResult := mk_search_result {
  sr_name : string;
  sr_line : Z;
  sr_preview : string;
}.

Record RecoveryEvent := mk_recovery_event {
  re_at : Z;
  re_sequence : Z;
  re_level : string;
  re_event : string;
  re_session : option string;
  re_detail : string;
  re_code : option Z;
}.

Record AttachResume := mk_attach_resume {
  ar_epoch : Z;
  ar_offset : Z;
}.

Inductive ResourcePressureLevel := Level_Normal | Level_Critical.
Inductive ResourcePressureCause := Cause_Cpu | Cause_Io | Cause_Memory.

Record Gauge := mk_gauge {
  g_kind : string;
  g_label : string;
  g_percent : Z;
  g_resets_at : option Z;
  g_stale : bool;
}.

Record ProviderUsage := mk_provider_usage {
  pu_provider : string;
  pu_plan : option string;
  pu_gauges : list Gauge;
  pu_updated : Z;
  pu_state : string;
  pu_detail : option string;
}.

Inductive PiDelivery := D_Now | D_Steer | D_FollowUp.
Inductive PiSubagentAction := A_Stop | A_Steer | A_Interrupt | A_Resume.

Inductive PiCommand :=
| Pi_Snapshot
| Pi_Prompt (message : string) (delivery : PiDelivery)
| Pi_PromptWithAttachments (request_id message : string) (delivery : PiDelivery)
    (attachments : list string)
| Pi_UploadBegin (request_id filename mime_type : string) (size : Z)
| Pi_UploadChunk (request_id attachment_id : string) (offset : Z) (data : string)
| Pi_UploadFinish (request_id attachment_id : string)
| Pi_UploadCancel (request_id attachment_id : string)
| Pi_SubagentStatus (request_id : string)
| Pi_SubagentTranscript (request_id run_id : string) (index : option Z)
| Pi_SubagentControl (request_id : string) (action : PiSubagentAction) (run_id : string)
    (child_id : option string) (index : option Z) (message : option string)
| Pi_Abort
| Pi_SetThinkingLevel (level : string).

Inductive ControlMsg (Value : Type) :=
| M_Hello
| M_ListSessions
| M_Create (name cwd kind : string) (title : option string)
| M_Attach (name : string) (raw_client preview : bool) (resume : option AttachResume)
| M_Detach (name : string)
| M_Focus (name : string)
| M_Resize (name : string) (cols rows : Z)
| M_Kill (name : string)
| M_Rename (from to : string)
| M_SetTitle (name : string) (title : option string)
| M_TitleSet (name : string) (title : option string)
| M_ReportRunState (name state : string) (seq : Z)
| M_PiHook (name event session_id : string) (session_file : option string) (cwd : string)
    (pid pid_start_time : Z)
| M_PiHookAck (name : string)
| M_SupervisorHello (name : string)
| M_SupervisorCommand (name command : string)
| M_Suspend (name : string)
| M_Resume (name : string)
| M_Snapshot
| M_SnapshotOk
| M_DumpBacklog (name : string)
| M_SearchScrollback (request_id : Z) (query : string) (names : list string) (limit : Z)
| M_SearchResults (request_id : Z) (query : string) (results : list SearchResult)
| M_ListRecoveryEvents (limit : Z)
| M_ClearRecoveryEvents
| M_RecoveryEvents (events : list RecoveryEvent)
| M_RecoveryEventsCleared
| M_Backlog (name : string) (data : list byte)
| M_WatchSessions
| M_WatchMemoryPressure (version : Z)
| M_WatchPiEvents (version : Z)
| M_PiBridgeHello (name : string)
| M_PiBridgeCommand (name : string) (command : PiCommand)
| M_PiEvent (name : string) (seq : Z) (event : Value)
| M_PiBridgeStatus (name : string) (available : bool)
| M_ListSessionsDetailed
| M_Sessions (sessions : list SessionInfo)
| M_SessionsChanged (added : list SessionInfo) (removed : list string)
| M_Activity (name : string)
| M_MemoryStat (name : string) (rss_kb : Z) (growing : bool)
| M_MemoryPressure (level : string) (current_kb budget_kb : Z) (blocked : bool)
| M_ResourcePressure (level : ResourcePressureLevel) (causes : list ResourcePressureCause)
    (blocked : bool)
| M_RunStateAck (name : string) (seq : Z)
| M_AttachBacklog (name : string) (epoch end_offset : Z) (full : bool)
| M_SetMemoryBudget (mb : Z)
| M_GetMemoryBudget
| M_BudgetApplied (mb effective_budget_kb cgroup_limit_kb session_high_kb : Z)
| M_GetUsage
| M_RefreshUsage
| M_Usage (providers : list ProviderUsage)
| M_SessionList (names : list string)
| M_Created (name : string)
| M_Killed (name : string)
| M_Exit (name : string) (code : Z)
| M_Error (msg : string).

Inductive Frame (Value : Type) :=
| F_Control (msg : ControlMsg Value)
| F_Data (session : string) (bytes : list byte)
| F_Backlog (session : string) (bytes : list byte).

Arguments F_Control {Value} msg.
Arguments F_Data {Value} session bytes.
Arguments F_Backlog {Value} session bytes.

(** The externally tagged name serde gives a message: its variant's. *)
Definition variant_name {V} (m : ControlMsg V) : string :=
  match m with
  | M_Hello _ => "Hello"
  | M_ListSessions _ => "ListSessions"
  | M_Create _ _ _ _ _ => "Create"
  | M_Attach _ _ _ _ _ => "Attach"
  | M_Detach _ _ => "Detach"
  | M_Focus _ _ => "Focus"
  | M_Resize _ _ _ _ => "Resize"
  | M_Kill _ _ => "Kill"
  | M_Rename _ _ _ => "Rename"
  | M_SetTitle _ _ _ => "SetTitle"
  | M_TitleSet _ _ _ => "TitleSet"
  | M_ReportRunState _ _ _ _ => "ReportRunState"
  | M_PiHook _ _ _ _ _ _ _ _ => "PiHook"
  | M_PiHookAck _ _ => "PiHookAck"
  | M_SupervisorHello _ _ => "SupervisorHello"
  | M_SupervisorCommand _ _ _ => "SupervisorCommand"
  | M_Suspend _ _ => "Suspend"
  | M_Resume _ _ => "Resume"
  | M_Snapshot _ => "Snapshot"
  | M_SnapshotOk _ => "SnapshotOk"
  | M_DumpBacklog _ _ => "DumpBacklog"
  | M_SearchScrollback _ _ _ _ _ => "SearchScrollback"
  | M_SearchResults _ _ _ _ => "SearchResults"
  | M_ListRecoveryEvents _ _ => "ListRecoveryEvents"
  | M_ClearRecoveryEvents _ => "ClearRecoveryEvents"
  | M_RecoveryEvents _ _ => "RecoveryEvents"
  | M_RecoveryEventsCleared _ => "RecoveryEventsCleared"
  | M_Backlog _ _ _ => "Backlog"
  | M_WatchSessions _ => "WatchSessions"
  | M_WatchMemoryPressure _ _ => "WatchMemoryPressure"
  | M_WatchPiEvents _ _ => "WatchPiEvents"
  | M_PiBridgeHello _ _ => "PiBridgeHello"
  | M_PiBridgeCommand _ _ _ => "PiBridgeCommand"
  | M_PiEvent _ _ _ _ => "PiEvent"
  | M_PiBridgeStatus _ _ _ => "PiBridgeStatus"
  | M_ListSessionsDetailed _ => "ListSessionsDetailed"
  | M_Sessions _ _ => "Sessions"
  | M_SessionsChanged _ _ _ => "SessionsChanged"
  | M_Activity _ _ => "Activity"
  | M_MemoryStat _ _ _ _ => "MemoryStat"
  | M_MemoryPressure _ _ _ _ _ => "MemoryPressure"
  | M_ResourcePressure _ _ _ _ => "ResourcePressure"
  | M_RunStateAck _ _ _ => "RunStateAck"
  | M_AttachBacklog _ _ _ _ _ => "AttachBacklog"
  | M_SetMemoryBudget _ _ => "SetMemoryBudget"
  | M_GetMemoryBudget _ => "GetMemoryBudget"
  | M_BudgetApplied _ _ _ _ _ => "BudgetApplied"
  | M_GetUsage _ => "GetUsage"
  | M_RefreshUsage _ => "RefreshUsage"
  | M_Usage _ _ => "Usage"
  | M_SessionList _ _ => "SessionList"
  | M_Created _ _ => "Created"
  | M_Killed _ _ => "Killed"
  | M_Exit _ _ _ => "Exit"
  | M_Error _ _ => "Error"
  end.

(** The names [known_control_variant] matches. *)
Definition known_names : list string := [
  "Hello"; "ListSessions"; "Create"; "Attach"; "Detach"; "Focus"; "Resize"; "Kill";
  "Rename"; "SetTitle"; "TitleSet"; "ReportRunState"; "Suspend"; "Resume"; "Snapshot";
  "SnapshotOk"; "DumpBacklog"; "SearchScrollback"; "SearchResults"; "ListRecoveryEvents";
  "ClearRecoveryEvents"; "RecoveryEvents"; "RecoveryEventsCleared"; "Backlog";
  "WatchSessions"; "WatchMemoryPressure"; "WatchPiEvents"; "PiBridgeHello";
  "PiBridgeCommand"; "PiEvent"; "PiBridgeStatus"; "ListSessionsDetailed"; "Sessions";
  "SessionsChanged"; "Activity"; "MemoryStat"; "MemoryPressure"; "ResourcePressure";
  "RunStateAck"; "AttachBacklog"; "SetMemoryBudget"; "GetMemoryBudget"; "BudgetApplied";
  "SessionList"; "Created"; "Killed"; "Exit"; "Error"].

Definition known_control_variant (name : string) : bool :=
  existsb (String.eqb name) known_names.

(** The variants the list leaves out, although the enum has them. *)
Definition unlisted {V} (m : ControlMsg V) : bool :=
  match m with
  | M_PiHook _ _ _ _ _ _ _ _ | M_PiHookAck _ _ | M_SupervisorHello _ _
  | M_SupervisorCommand _ _ _ | M_GetUsage _ | M_RefreshUsage _ | M_Usage _ _ => true
  | _ => false
  end.

Definition is_zero (value : Z) : bool := (value =? 0)%Z.

(** The list of known control variants recognizes every message of the enum
    but seven: a malformed instance of one of those is taken for a future message. *)
Theorem known_variants_but_seven {V} (m : ControlMsg V) :
  known_control_variant (variant_name m) = negb (unlisted m).
Proof. destruct m; reflexivity. Qed.
