(* ===== verification/Framing.v ===== *)
(** * Framing

    [crates/amber-core/src/proto.rs], [encode] and [Decoder], and the daemon's
    read loop over them ([connection_loop] in [crates/amber/src/daemon.rs]).
    serde_json is the class [Json]: a client of it knows only its operations;
    that a message survives them is the premise [json_faithful] of the round
    trip, stated for the messages at hand. *)
From S2P Require Import Prelude Utf8 Wire.

(** serde_json, and the message type's derived (de)serializers. *)
Class Json (Value : Type) := {
  from_slice : list byte -> option Value;
  from_value : Value -> option (ControlMsg Value);
  to_vec : ControlMsg Value -> list byte;
  (** [Value::String(s)] *)
  as_string : Value -> option string;
  (** the keys of a [Value::Object] *)
  object_keys : Value -> option (list string);
}.

Definition TAG_CONTROL : byte := 0%Z.
Definition TAG_DATA : byte := 1%Z.
Definition TAG_BACKLOG : byte := 2%Z.
Definition MAX_FRAME_LEN : Z := (64 * 1024 * 1024)%Z.

Inductive DecodeError :=
| FrameTooLong (len : Z)
| EmptyBody
| JsonSyntax
| KnownVariantMalformed
| TruncatedHeader
| TruncatedName
| NameNotUtf8
| UnknownTag (tag : byte).

Inductive Decoded (Value : Type) :=
| Dec_Frame (f : Frame Value)
| Dec_UndecodableControl.
Arguments Dec_Frame {Value} f.
Arguments Dec_UndecodableControl {Value}.

Section framing.
Context {Value : Type} `{J : Json Value}.

Definition control_variant_name (value : Value) : option string :=
  match as_string value with
  | Some name => Some name
  | None =>
      match object_keys value with
      | Some [key] => Some key
      | _ => None
      end
  end.

(** ** Encoding *)

Definition data_body (tag : byte) (session : string) (bytes : list byte) : list byte :=
  let name := bytes_of_string session in
  [tag] ++ be_bytes 2 (wrap16 (Z.of_nat (length name))) ++ name ++ bytes.

Definition body_of (frame : Frame Value) : list byte :=
  match frame with
  | F_Control msg => [TAG_CONTROL] ++ to_vec msg
  | F_Data session bytes => data_body TAG_DATA session bytes
  | F_Backlog session bytes => data_body TAG_BACKLOG session bytes
  end.

Definition encode (frame : Frame Value) : list byte :=
  let body := body_of frame in
  be_bytes 4 (wrap32 (Z.of_nat (length body))) ++ body.

(** ** Decoding *)

Definition feed (buf chunk : list byte) : list byte := buf ++ chunk.

Definition decode_control (rest : list byte) : result (Decoded Value) DecodeError :=
  match from_slice rest with
  | None => Err JsonSyntax
  | Some value =>
      match from_value value with
      | Some msg => Ok (Dec_Frame (F_Control msg))
      | None =>
          match control_variant_name value with
          | Some name =>
              if negb (known_control_variant name) then Ok Dec_UndecodableControl
              else Err KnownVariantMalformed
          | None => Err KnownVariantMalformed
          end
      end
  end.

Definition decode_data (tag : byte) (rest : list byte) : result (Decoded Value) DecodeError :=
  match rest with
  | b0 :: b1 :: rest' =>
      let name_len := Z.to_nat (from_be [b0; b1]) in
      if length rest' <? name_len then Err TruncatedName
      else match from_utf8 (take name_len rest') with
           | None => Err NameNotUtf8
           | Some session =>
               let bytes := drop name_len rest' in
               Ok (Dec_Frame (if (tag =? TAG_DATA)%Z then F_Data session bytes
                              else F_Backlog session bytes))
           end
  | _ => Err TruncatedHeader
  end.

Definition decode_body (body : list byte) : result (Decoded Value) DecodeError :=
  match body with
  | [] => Err EmptyBody
  | tag :: rest =>
      if (tag =? TAG_CONTROL)%Z then decode_control rest
      else if ((tag =? TAG_DATA) || (tag =? TAG_BACKLOG))%Z then decode_data tag rest
      else Err (UnknownTag tag)
  end.

(** Returns the buffer left behind, on errors too. *)
Definition next_decoded (buf : list byte)
  : list byte * result (option (Decoded Value)) DecodeError :=
  match buf with
  | b0 :: b1 :: b2 :: b3 :: rest =>
      let len := from_be [b0; b1; b2; b3] in
      if (MAX_FRAME_LEN <? len)%Z then (buf, Err (FrameTooLong len))
      else if (Z.of_nat (length buf) <? 4 + len)%Z then (buf, Ok None)
      else
        let body := take (Z.to_nat len) rest in
        (drop (Z.to_nat len) rest, (d <-? decode_body body; Ok (Some d)))
  | _ => (buf, Ok None)
  end.

(** The strict reading clients use: an undecodable control body is an error too. *)
Definition next_frame (buf : list byte)
  : list byte * result (option (Frame Value)) (option DecodeError) :=
  let '(buf', r) := next_decoded buf in
  (buf', match r with
         | Ok (Some (Dec_Frame f)) => Ok (Some f)
         | Ok (Some Dec_UndecodableControl) => Err None
         | Ok None => Ok None
         | Err e => Err (Some e)
         end).

(** [while let Some(decoded) = decoder.next_decoded()? { ... }]: everything
    decoded, the error that ended the loop if one did, and the buffer left.
    [None] is a loop that did not end within the fuel. *)
Fixpoint drain (fuel : nat) (buf : list byte)
  : option (list (Decoded Value) * option DecodeError * list byte) :=
  match fuel with
  | 0 => None
  | S fuel' =>
      match next_decoded buf with
      | (buf', Err e) => Some ([], Some e, buf')
      | (buf', Ok None) => Some ([], None, buf')
      | (buf', Ok (Some d)) =>
          '(ds, e, b) ← drain fuel' buf';
          Some (d :: ds, e, b)
      end
  end.

Definition drain_all (buf : list byte) := drain (S (length buf)) buf.

(** [connection_loop]: the handled frames, in order, of a connection that reads
    [reads] (an empty read is the end of the stream). *)
Fixpoint connection_loop (buf : list byte) (reads : list (list byte))
  : option (list (Decoded Value) * option DecodeError * list byte) :=
  '(ds, e, b) ← drain_all buf;
  match e, reads with
  | Some _, _ => Some (ds, e, b)
  | None, [] | None, [] :: _ => Some (ds, None, b)
  | None, chunk :: reads' =>
      '(ds', e', b') ← connection_loop (feed b chunk) reads';
      Some (ds ++ ds', e', b')
  end.

(** ** One frame at the front of the buffer *)

Lemma next_decoded_body body rest :
  (Z.of_nat (length body) <= MAX_FRAME_LEN)%Z ->
  next_decoded (be_bytes 4 (wrap32 (Z.of_nat (length body))) ++ body ++ rest)
  = (rest, (d <-? decode_body body; Ok (Some d))).
Proof.
  intros Hlen. assert (Hw : wrap32 (Z.of_nat (length body)) = Z.of_nat (length body)).
  { unfold wrap32, MAX_FRAME_LEN in *. apply Z.mod_small. lia. }
  rewrite Hw. set (n := Z.of_nat (length body)) in *.
  pose proof (from_be_be_bytes 4 n ltac:(unfold n, MAX_FRAME_LEN in *; lia)) as Hbe.
  pose proof (length_be_bytes 4 n) as Hl4.
  destruct (be_bytes 4 n) as [|b0 [|b1 [|b2 [|b3 [|]]]]]; try done. clear Hl4.
  cbn [app next_decoded]. rewrite Hbe.
  rewrite (proj2 (Z.ltb_ge _ _)) by done.
  rewrite (proj2 (Z.ltb_ge _ _)) by (cbn [length]; rewrite length_app; lia).
  unfold n. by rewrite Nat2Z.id, take_app_length, drop_app_length.
Qed.

(** Too short a prefix of a frame decodes to nothing and is kept. *)
Lemma next_decoded_partial body buf :
  (Z.of_nat (length body) <= MAX_FRAME_LEN)%Z ->
  let full := be_bytes 4 (wrap32 (Z.of_nat (length body))) ++ body in
  buf `prefix_of` full -> length buf < length full -> next_decoded buf = (buf, Ok None).
Proof.
  intros Hlen full [k Hk] Hlt.
  assert (Hw : wrap32 (Z.of_nat (length body)) = Z.of_nat (length body)).
  { unfold wrap32, MAX_FRAME_LEN in *. apply Z.mod_small. lia. }
  unfold full in *. rewrite Hw in *. set (n := Z.of_nat (length body)) in *.
  pose proof (from_be_be_bytes 4 n ltac:(unfold n, MAX_FRAME_LEN in *; lia)) as Hbe.
  rewrite length_app, length_be_bytes in Hlt.
  pose proof (length_be_bytes 4 n) as Hl4.
  destruct (be_bytes 4 n) as [|c0 [|c1 [|c2 [|c3 [|]]]]]; try done.
  destruct buf as [|b0 [|b1 [|b2 [|b3 buf]]]]; try done. simplify_eq/=.
  rewrite Hbe. rewrite (proj2 (Z.ltb_ge _ _)) by done.
  rewrite (proj2 (Z.ltb_lt _ _)) by lia. done.
Qed.

(** What [encode] may be given: names are what Rust strings are and fit the
    16-bit length, bodies fit the decoder's limit, and a message survives JSON. *)
Definition json_faithful (msg : ControlMsg Value) : Prop :=
  exists value, from_slice (to_vec msg) = Some value /\ from_value value = Some msg.

Definition name_ok (session : string) : Prop :=
  utf8_ok session /\ (Z.of_nat (String.length session) <= u16_max)%Z.

Definition frame_ok (f : Frame Value) : Prop :=
  (Z.of_nat (length (body_of f)) <= MAX_FRAME_LEN)%Z /\
  match f with
  | F_Control msg => json_faithful msg
  | F_Data session _ | F_Backlog session _ => name_ok session
  end.

Lemma decode_data_body tag session bytes :
  name_ok session ->
  decode_data tag (be_bytes 2 (wrap16 (Z.of_nat (length (bytes_of_string session))))
                   ++ bytes_of_string session ++ bytes)
  = Ok (Dec_Frame (if (tag =? TAG_DATA)%Z then F_Data session bytes else F_Backlog session bytes)).
Proof.
  intros [Hutf Hlen]. rewrite <- length_bytes_of_string in Hlen.
  set (name := bytes_of_string session) in *.
  assert (Hw : wrap16 (Z.of_nat (length name)) = Z.of_nat (length name)).
  { unfold wrap16, u16_max in *. apply Z.mod_small. lia. }
  rewrite Hw.
  pose proof (from_be_be_bytes 2 (Z.of_nat (length name)) ltac:(unfold u16_max in *; lia)) as Hbe.
  pose proof (length_be_bytes 2 (Z.of_nat (length name))) as Hl2.
  destruct (be_bytes 2 _) as [|b0 [|b1 [|]]]; try done.
  cbn [app decode_data]. rewrite Hbe, Nat2Z.id.
  rewrite (proj2 (Nat.ltb_ge _ _)) by (rewrite length_app; lia).
  rewrite take_app_length, drop_app_length. unfold name. by rewrite from_utf8_of_string.
Qed.

Lemma decode_body_of f : frame_ok f -> decode_body (body_of f) = Ok (Dec_Frame f).
Proof.
  intros [_ Hok]. destruct f as [msg|session bytes|session bytes]; cbn [body_of data_body].
  - destruct Hok as (v & Hs & Hv). cbn. unfold decode_control. by rewrite Hs, Hv.
  - apply (decode_data_body TAG_DATA session bytes Hok).
  - apply (decode_data_body TAG_BACKLOG session bytes Hok).
Qed.

Lemma next_decoded_encode f rest :
  frame_ok f -> next_decoded (encode f ++ rest) = (rest, Ok (Some (Dec_Frame f))).
Proof.
  intros Hok. unfold encode. rewrite <- app_assoc, next_decoded_body by apply Hok.
  by rewrite decode_body_of.
Qed.

Lemma length_encode f : 4 <= length (encode f).
Proof. unfold encode. rewrite length_app, length_be_bytes. lia. Qed.

(** ** The whole stream

    A stream is a sequence of well-framed bodies, each with what it decodes to:
    the frames a peer encoded, and control messages of a newer peer that this
    build does not know. *)

Definition framed (body : list byte) : list byte :=
  be_bytes 4 (wrap32 (Z.of_nat (length body))) ++ body.

Definition body_ok (bd : list byte * Decoded Value) : Prop :=
  (Z.of_nat (length bd.1) <= MAX_FRAME_LEN)%Z /\ decode_body bd.1 = Ok bd.2.

Definition stream (bodies : list (list byte * Decoded Value)) : list byte :=
  concat (map (fun bd => framed bd.1) bodies).

Lemma length_framed body : length (framed body) = 4 + length body.
Proof. unfold framed. by rewrite length_app, length_be_bytes. Qed.

Opaque framed.

Lemma next_decoded_framed bd rest :
  body_ok bd -> next_decoded (framed bd.1 ++ rest) = (rest, Ok (Some bd.2)).
Proof.
  intros [Hlen Hdec]. Transparent framed. unfold framed. Opaque framed.
  by rewrite <- app_assoc, next_decoded_body, Hdec.
Qed.

(** A prefix of a stream is some whole bodies and a part of the next. *)
Lemma split_stream bodies buf later :
  buf ++ later = stream bodies ->
  exists dn todo rest, bodies = dn ++ todo /\ buf = stream dn ++ rest
    /\ rest ++ later = stream todo
    /\ (todo = [] /\ rest = [] \/
        exists bd todo', todo = bd :: todo' /\ rest `prefix_of` framed bd.1
                        /\ length rest < length (framed bd.1)).
Proof.
  unfold stream. revert buf. induction bodies as [|f bodies IH]; simpl; intros buf Hbuf.
  - apply app_eq_nil in Hbuf as [-> ->]. exists [], [], []. split_and!; auto.
  - destruct (decide (length (framed f.1) <= length buf)) as [Hle|Hgt].
    + apply app_eq_inv in Hbuf as [(k & -> & Hk)|(k & Hf & Hk)].
      * destruct (IH k ltac:(done)) as (dn & td & rest & -> & -> & Hr & Ht).
        exists (f :: dn), td, rest. simpl. by rewrite <- app_assoc.
      * assert (k = []) as ->.
        { apply (f_equal length) in Hf. rewrite length_app in Hf. destruct k; simpl in *; [done|lia]. }
        rewrite app_nil_r in Hf. subst buf. rewrite app_nil_l in Hk.
        destruct (IH [] ltac:(by rewrite app_nil_l)) as (dn & td & rest & -> & Hb & Hr & Ht).
        exists (f :: dn), td, rest. simpl. split_and!; try done.
        by rewrite <- app_assoc, <- Hb, app_nil_r.
    + exists [], (f :: bodies), buf. split_and!; try done. right.
      exists f, bodies. split_and!; [done| |lia].
      apply app_eq_inv in Hbuf as [(k & -> & _)|(k & -> & _)].
      * rewrite length_app in Hgt. lia.
      * by exists k.
Qed.

Lemma drain_bodies bodies rest fuel :
  Forall body_ok bodies -> next_decoded rest = (rest, Ok None) -> length bodies < fuel ->
  drain fuel (stream bodies ++ rest) = Some (map snd bodies, None, rest).
Proof.
  intros Hok Hrest. revert fuel. induction Hok as [|f bodies Hf _ IH]; intros fuel Hfuel.
  - destruct fuel; [lia|]. simpl. by rewrite Hrest.
  - destruct fuel as [|fuel]; [simpl in *; lia|]. cbn [drain]. unfold stream. cbn [map concat].
    rewrite <- app_assoc, next_decoded_framed by done.
    change (concat (map _ bodies)) with (stream bodies).
    rewrite IH by (simpl in *; lia). done.
Qed.

Lemma length_stream bodies : length bodies <= length (stream bodies).
Proof.
  unfold stream. induction bodies as [|f fs IH]; simpl; [lia|].
  rewrite length_app, length_framed. lia.
Qed.

Lemma drain_prefix bodies buf later :
  Forall body_ok bodies -> buf ++ later = stream bodies ->
  exists dn todo rest, bodies = dn ++ todo /\ rest ++ later = stream todo
    /\ (later = [] -> todo = [])
    /\ drain_all buf = Some (map snd dn, None, rest).
Proof.
  intros Hok Hbuf. destruct (split_stream _ _ _ Hbuf) as (dn & td & rest & -> & -> & Hr & Ht).
  exists dn, td, rest. split_and!; try done.
  { intros ->. rewrite app_nil_r in Hr. subst rest.
    destruct Ht as [[-> _]|(f & td' & -> & _ & Hlt)]; [done|].
    unfold stream in Hlt. simpl in Hlt. rewrite length_app in Hlt. lia. }
  apply Forall_app in Hok as [Hdn Htd]. unfold drain_all. apply drain_bodies; [done| |].
  - destruct Ht as [(-> & ->)|(f & td' & -> & Hpre & Hlt)]; [done|].
    inversion Htd as [|?? [Hf _] _]; subst. Transparent framed.
    apply (next_decoded_partial f.1); done.
  - rewrite length_app. pose proof (length_stream dn). lia.
Qed.
Opaque framed.

(** The read loop over any well-framed stream, in any reads. *)
Lemma connection_stream bodies reads buf :
  Forall body_ok bodies -> Forall (fun r => r <> []) reads ->
  buf ++ concat reads = stream bodies ->
  connection_loop buf reads = Some (map snd bodies, None, []).
Proof.
  intros Hok Hne. revert buf bodies Hok.
  induction Hne as [|r reads Hr _ IH]; intros buf bodies Hok Hbuf;
    destruct (drain_prefix _ _ _ Hok Hbuf) as (dn & td & rest & -> & Hrest & Htd & Hd);
    cbn [connection_loop]; rewrite Hd; simpl in *.
  - rewrite app_nil_r in Hrest. rewrite Htd in * by done. rewrite app_nil_r. by subst rest.
  - destruct r as [|b r]; [done|]. apply Forall_app in Hok as [_ Htds].
    rewrite (IH (feed rest (b :: r)) td Htds).
    + simpl. by rewrite map_app.
    + unfold feed. rewrite <- app_assoc. exact Hrest.
Qed.

(** What a peer sends: a frame, or a control message of a newer protocol, which
    is a JSON value whose variant this build has never heard of. *)
Inductive sent :=
| Sent_Frame (f : Frame Value)
| Sent_Future (value : Value).

Definition future_ok (value : Value) : Prop :=
  from_value value = None /\
  exists name, control_variant_name value = Some name /\ known_control_variant name = false.

Section peer.
(** how a newer peer prints the value of a message *)
Variable print : Value -> list byte.

Definition sent_body (s : sent) : list byte :=
  match s with
  | Sent_Frame f => body_of f
  | Sent_Future v => [TAG_CONTROL] ++ print v
  end.

(** the bytes on the wire *)
Definition sent_bytes (s : sent) : list byte :=
  match s with
  | Sent_Frame f => encode f
  | Sent_Future _ => framed (sent_body s)
  end.

Lemma sent_bytes_framed s : sent_bytes s = framed (sent_body s).
Proof. by destruct s. Qed.

Definition sent_ok (s : sent) : Prop :=
  match s with
  | Sent_Frame f => frame_ok f
  | Sent_Future v =>
      (Z.of_nat (length (sent_body s)) <= MAX_FRAME_LEN)%Z
      /\ from_slice (print v) = Some v /\ future_ok v
  end.

Definition handled (s : sent) : Decoded Value :=
  match s with
  | Sent_Frame f => Dec_Frame f
  | Sent_Future _ => Dec_UndecodableControl
  end.

Lemma sent_body_ok s : sent_ok s -> body_ok (sent_body s, handled s).
Proof.
  destruct s as [f|v]; intros H; split; simpl.
  - apply H.
  - by apply decode_body_of.
  - apply H.
  - destruct H as (_ & Hv & Hnone & name & Hname & Hknown).
    unfold decode_control. by rewrite Hv, Hnone, Hname, Hknown.
Qed.

(** C11. Frames survive the wire: whatever the reads the encoded stream arrives in,
    the read loop handles exactly the frames sent, in order; messages of a newer
    protocol in between are skipped without losing synchronisation, and nothing
    is left over. *)
Theorem connection_roundtrip (sents : list sent) (reads : list (list byte)) :
  Forall sent_ok sents -> Forall (fun r => r <> []) reads ->
  concat reads = concat (map sent_bytes sents) ->
  connection_loop [] reads = Some (map handled sents, None, []).
Proof.
  intros Hok Hne Hreads.
  replace (map handled sents)
    with (map snd (map (fun s => (sent_body s, handled s)) sents)) by (by rewrite map_map).
  apply connection_stream; [|done|].
  - apply Forall_map. eapply Forall_impl; [exact Hok|]. apply sent_body_ok.
  - unfold stream. rewrite map_map, app_nil_l, Hreads. f_equal.
    apply map_ext, sent_bytes_framed.
Qed.
End peer.

(** ** Hostile input *)

Lemma next_decoded_shrinks buf buf' d :
  next_decoded buf = (buf', Ok (Some d)) -> length buf' + 4 <= length buf.
Proof.
  unfold next_decoded. destruct buf as [|b0 [|b1 [|b2 [|b3 rest]]]]; try done.
  repeat case_match; try done. intros [= <- _]. rewrite length_drop. simpl. lia.
Qed.

Lemma next_decoded_wait buf buf' :
  next_decoded buf = (buf', Ok None) ->
  buf' = buf /\ (Z.of_nat (length buf) < 4 + MAX_FRAME_LEN)%Z.
Proof.
  unfold next_decoded. destruct buf as [|b0 [|b1 [|b2 [|b3 rest]]]].
  1-4: intros [= <-]; split; [done|]; simpl; unfold MAX_FRAME_LEN; lia.
  destruct (Z.ltb_spec MAX_FRAME_LEN (from_be [b0; b1; b2; b3])); [done|].
  destruct (Z.ltb_spec (Z.of_nat (length (b0 :: b1 :: b2 :: b3 :: rest)))
              (4 + from_be [b0; b1; b2; b3])).
  - intros [= <-]. split; [done|]. lia.
  - by destruct (decode_body _).
Qed.

Lemma drain_total fuel buf :
  length buf < fuel ->
  exists ds e rest, drain fuel buf = Some (ds, e, rest)
    /\ (e = None -> (Z.of_nat (length rest) < 4 + MAX_FRAME_LEN)%Z).
Proof.
  revert buf. induction fuel as [|fuel IH]; intros buf Hf; [lia|]. simpl.
  destruct (next_decoded buf) as [buf' [[d|]|e]] eqn:Hn.
  - apply next_decoded_shrinks in Hn.
    destruct (IH buf') as (ds & e & rest & -> & Hb); [lia|].
    exists (d :: ds), e, rest. done.
  - apply next_decoded_wait in Hn as [-> Hb]. exists [], None, buf. done.
  - by exists [], (Some e), buf'.
Qed.

(** On any bytes whatsoever the read loop makes progress and ends, and unless
    it closed the connection it holds less than one maximal frame: a peer cannot
    make the daemon buffer without bound. *)
Theorem connection_bounded (reads : list (list byte)) (buf : list byte) :
  exists ds e rest, connection_loop buf reads = Some (ds, e, rest)
    /\ (e = None -> (Z.of_nat (length rest) < 4 + MAX_FRAME_LEN)%Z).
Proof.
  revert buf. induction reads as [|r reads IH]; intros buf; cbn [connection_loop];
    destruct (drain_total (S (length buf)) buf) as (ds & e & rest & Hd & Hb); try lia;
    unfold drain_all; rewrite Hd; simpl.
  - exists ds, e, rest. split; [|done]. by destruct e.
  - destruct e as [e|]; [by exists ds, (Some e), rest|].
    destruct r as [|b r]; [by exists ds, None, rest|].
    destruct (IH (feed rest (b :: r))) as (ds' & e' & rest' & -> & Hb').
    exists (ds ++ ds'), e', rest'. done.
Qed.

(** One length-prefixed frame is consumed whole whatever its body turns out to
    be: the bytes behind it are untouched, the outcome is the body's alone, and
    only an oversized length is refused before it is read. *)
Theorem frame_isolated (body rest : list byte) :
  (Z.of_nat (length body) <= u32_max)%Z ->
  next_decoded (framed body ++ rest) =
    if (MAX_FRAME_LEN <? Z.of_nat (length body))%Z
    then (framed body ++ rest, Err (FrameTooLong (Z.of_nat (length body))))
    else (rest, (d <-? decode_body body; Ok (Some d))).
Proof.
  intros Hu32. Transparent framed. unfold framed. Opaque framed.
  destruct (Z.ltb_spec MAX_FRAME_LEN (Z.of_nat (length body))) as [Hbig|Hfit].
  - set (n := Z.of_nat (length body)) in *.
    assert (wrap32 n = n) as -> by (unfold wrap32, u32_max in *; apply Z.mod_small; lia).
    pose proof (from_be_be_bytes 4 n ltac:(unfold n, u32_max in *; lia)) as Hbe.
    pose proof (length_be_bytes 4 n) as Hl4.
    destruct (be_bytes 4 n) as [|b0 [|b1 [|b2 [|b3 [|]]]]]; try done.
    cbn [app next_decoded]. rewrite Hbe. by rewrite (proj2 (Z.ltb_lt _ _)).
  - rewrite <- app_assoc. by apply next_decoded_body.
Qed.
End framing.

(** ** A concrete codec

    A stand-in for serde_json that knows three messages, for the witnesses. *)
#[local] Instance toy_json : Json string := {
  from_slice l := Some (string_of_bytes l);
  from_value v :=
    if String.eqb v "Hello" then Some (M_Hello _)
    else if String.eqb v "Snapshot" then Some (M_Snapshot _)
    else if String.eqb v "GetUsage" then Some (M_GetUsage _) else None;
  to_vec m := bytes_of_string (variant_name m);
  as_string v := Some v;
  object_keys _ := None;
}.

Lemma connection_roundtrip_witness :
  let sents := [Sent_Frame (F_Control (M_Hello _)); Sent_Future "Teleport";
                Sent_Frame (F_Data "a" [1; 2]%Z)] in
  let wire := concat (map (sent_bytes bytes_of_string) sents) in
  connection_loop [] [take 3 wire; take 9 (drop 3 wire); drop 12 wire]
  = Some ([Dec_Frame (F_Control (M_Hello string)); Dec_UndecodableControl;
           Dec_Frame (F_Data "a" [1; 2]%Z)], None, []).
Proof.
  intros sents wire. apply (connection_roundtrip bytes_of_string sents).
  - constructor; [|constructor; [|constructor; [|constructor]]].
    + split; [vm_compute; discriminate|]. exists "Hello"%string. by split.
    + split; [vm_compute; discriminate|]. split; [reflexivity|]. split; [reflexivity|].
      by exists "Teleport"%string.
    + split; [vm_compute; discriminate|]. split; [reflexivity|vm_compute; discriminate].
  - repeat constructor; discriminate.
  - reflexivity.
Defined.

Lemma frame_isolated_witness :
  next_decoded (J := toy_json) (framed [7; 1]%Z ++ [0; 0; 0]%Z) = ([0; 0; 0]%Z, Err (UnknownTag 7)).
Proof.
  rewrite (frame_isolated (J := toy_json) [7; 1]%Z [0; 0; 0]%Z); [reflexivity|].
  vm_compute. discriminate.
Defined.
