(* ===== verification/PiCommand.v ===== *)
(** * Pi commands

    [crates/amber-core/src/proto.rs]: the bounds every Pi bridge command is
    checked against before it reaches the extension or the browser adapter, and
    the strict base64 decoder of upload chunks. *)
From S2P Require Import Prelude Utf8 Wire.

(** ** Bounds *)
Definition PI_PROMPT_MAX_BYTES : Z := (64 * 1024)%Z.
Definition PI_REQUEST_ID_MAX_BYTES : Z := 128%Z.
Definition PI_SUBAGENT_ID_MAX_BYTES : Z := 256%Z.
Definition PI_SUBAGENT_INDEX_MAX : Z := 500%Z.
Definition PI_ATTACHMENT_ID_MAX_BYTES : Z := 128%Z.
Definition PI_FILENAME_MAX_CHARS : Z := 255%Z.
Definition PI_MIME_TYPE_MAX_BYTES : Z := 128%Z.
Definition PI_ATTACHMENT_MAX_BYTES : Z := (16 * 1024 * 1024)%Z.
Definition PI_ATTACHMENTS_PER_PROMPT : Z := 8%Z.
Definition PI_UPLOAD_CHUNK_MAX_BYTES : Z := (48 * 1024)%Z.
(** [div_ceil(3) * 4] *)
Definition PI_UPLOAD_CHUNK_MAX_ENCODED_BYTES : Z :=
  (((PI_UPLOAD_CHUNK_MAX_BYTES + 2) / 3) * 4)%Z.

Inductive PiError :=
| Pi_Empty
| Pi_TooLong
| Pi_ControlCharacter
| Pi_PathOrWhitespace
| Pi_IndexTooLarge
| Pi_InvalidCharacter
| Pi_EmptyPrompt
| Pi_TooManyAttachments
| Pi_DuplicateAttachment
| Pi_SizeTooLarge
| Pi_NotCanonical
| Pi_ChunkTooLarge
| Pi_ChildTarget
| Pi_MessageRequired
| Pi_MessageNotAccepted
| Pi_UnsupportedLevel.

Definition ensure (b : bool) (e : PiError) : result unit PiError :=
  if b then Ok tt else Err e.

(** [str::len] *)
Definition len (s : string) : Z := Z.of_nat (String.length s).

Definition is_empty (s : string) : bool := (len s =? 0)%Z.

(** ** Validators *)

Definition validate_pi_identifier (value : string) (max : Z) : result unit PiError :=
  check? ensure (negb (is_empty value)) Pi_Empty;
  check? ensure (negb (max <? len value)%Z) Pi_TooLong;
  check? ensure (negb (existsb is_control (chars value))) Pi_ControlCharacter;
  Ok tt.

Definition slash : Z := 47%Z.
Definition backslash : Z := 92%Z.

Definition validate_pi_subagent_id (value : string) : result unit PiError :=
  check? validate_pi_identifier value PI_SUBAGENT_ID_MAX_BYTES;
  ensure (negb (existsb (fun c => (c =? slash)%Z || (c =? backslash)%Z || is_whitespace c)
                  (chars value))) Pi_PathOrWhitespace.

Definition validate_pi_subagent_index (index : option Z) : result unit PiError :=
  match index with
  | Some index => ensure (negb (PI_SUBAGENT_INDEX_MAX <? index)%Z) Pi_IndexTooLarge
  | None => Ok tt
  end.

Definition validate_pi_attachment_id (value : string) : result unit PiError :=
  check? validate_pi_identifier value PI_ATTACHMENT_ID_MAX_BYTES;
  ensure (forallb (fun b => is_ascii_alphanumeric b || (b =? 45)%Z || (b =? 95)%Z)
            (bytes_of_string value)) Pi_InvalidCharacter.

Definition validate_pi_filename (value : string) : result unit PiError :=
  check? ensure (negb (is_empty value)) Pi_Empty;
  check? ensure (negb (PI_FILENAME_MAX_CHARS <? Z.of_nat (length (chars value)))%Z) Pi_TooLong;
  ensure (negb (existsb (fun c => is_control c || (c =? slash)%Z || (c =? backslash)%Z)
                  (chars value))) Pi_ControlCharacter.

Definition validate_pi_mime_type (value : string) : result unit PiError :=
  validate_pi_identifier value PI_MIME_TYPE_MAX_BYTES.

(** ** Base64 *)

Definition base64_value (b : byte) : option Z :=
  (if between 65 90 b then Some (b - 65)
   else if between 97 122 b then Some (b - 97 + 26)
   else if between 48 57 b then Some (b - 48 + 52)
   else if b =? 43 then Some 62
   else if b =? 47 then Some 63
   else None)%Z.

Definition pad : byte := 61%Z.

(** [ok_or_else(...)?] *)
Definition or_err {A} (o : option A) (e : PiError) : result A PiError :=
  match o with Some a => Ok a | None => Err e end.

(** One group of four characters: its value and how many bytes it gives. *)
Definition decode_group (g0 g1 g2 g3 : byte) : result (list byte) PiError :=
  a <-? or_err (base64_value g0) Pi_NotCanonical;
  b <-? or_err (base64_value g1) Pi_NotCanonical;
  c <-? (if (g2 =? pad)%Z then Ok 0%Z else or_err (base64_value g2) Pi_NotCanonical);
  d <-? (if (g3 =? pad)%Z then Ok 0%Z else or_err (base64_value g3) Pi_NotCanonical);
  if ((g2 =? pad) && negb (g3 =? pad))%Z
     || ((g2 =? pad)%Z && negb (Z.land b 15 =? 0)%Z)
     || ((g3 =? pad)%Z && negb (Z.land c 3 =? 0)%Z)
  then Err Pi_NotCanonical
  else
    let n := Z.lor (Z.lor (Z.lor (Z.shiftl a 18) (Z.shiftl b 12)) (Z.shiftl c 6)) d in
    Ok ([(Z.shiftr n 16) mod 256]%Z
        ++ (if (g2 =? pad)%Z then [] else [((Z.shiftr n 8) mod 256)%Z])
        ++ (if (g3 =? pad)%Z then [] else [(n mod 256)%Z])).

(** [as_chunks::<4>]: a remainder is dropped. *)
Fixpoint decode_groups (bytes : list byte) : result (list byte) PiError :=
  match bytes with
  | g0 :: g1 :: g2 :: g3 :: rest =>
      out <-? decode_group g0 g1 g2 g3;
      outs <-? decode_groups rest;
      Ok (out ++ outs)
  | _ => Ok []
  end.

Fixpoint take_while (p : byte -> bool) (l : list byte) : list byte :=
  match l with
  | [] => []
  | b :: l' => if p b then b :: take_while p l' else []
  end.

Definition decode_pi_upload_chunk (data : string) : result (list byte) PiError :=
  let bytes := bytes_of_string data in
  let n := len data in
  if ((n =? 0) || (PI_UPLOAD_CHUNK_MAX_ENCODED_BYTES <? n) || negb (n mod 4 =? 0))%Z
  then Err Pi_NotCanonical
  else
    let padding := length (take_while (fun b => (b =? pad)%Z) (reverse bytes)) in
    if (2 <? padding) || existsb (fun b => (b =? pad)%Z) (take (length bytes - padding) bytes)
    then Err Pi_NotCanonical
    else
      let decoded_len := (n / 4 * 3 - Z.of_nat padding)%Z in
      if ((decoded_len =? 0) || (PI_UPLOAD_CHUNK_MAX_BYTES <? decoded_len))%Z
      then Err Pi_ChunkTooLarge
      else
        output <-? decode_groups bytes;
        if (Z.of_nat (length output) =? decoded_len)%Z then Ok output else Err Pi_NotCanonical.

(** ** Commands *)

(** The loop over the attachments, with the set of those seen. *)
Fixpoint validate_attachments (seen : gset string) (l : list string) : result unit PiError :=
  match l with
  | [] => Ok tt
  | a :: l' =>
      check? validate_pi_attachment_id a;
      if decide (a ∈ seen) then Err Pi_DuplicateAttachment
      else validate_attachments ({[a]} ∪ seen) l'
  end.

Definition action_takes_message (action : PiSubagentAction) : bool :=
  match action with
  | A_Steer | A_Resume => true
  | A_Stop | A_Interrupt => false
  end.

Definition THINKING_LEVELS : list string :=
  ["off"; "minimal"; "low"; "medium"; "high"; "xhigh"; "max"].

Definition validate_pi_command (command : PiCommand) : result unit PiError :=
  match command with
  | Pi_Snapshot | Pi_Abort => Ok tt
  | Pi_Prompt message _ =>
      check? ensure (negb (blank message)) Pi_EmptyPrompt;
      ensure (negb (PI_PROMPT_MAX_BYTES <? len message)%Z) Pi_TooLong
  | Pi_PromptWithAttachments request_id message _ attachments =>
      check? validate_pi_identifier request_id PI_REQUEST_ID_MAX_BYTES;
      check? ensure (negb (blank message && match attachments with [] => true | _ => false end))
               Pi_EmptyPrompt;
      check? ensure (negb (PI_PROMPT_MAX_BYTES <? len message)%Z) Pi_TooLong;
      check? ensure (negb (PI_ATTACHMENTS_PER_PROMPT <? Z.of_nat (length attachments))%Z)
               Pi_TooManyAttachments;
      validate_attachments ∅ attachments
  | Pi_UploadBegin request_id filename mime_type size =>
      check? validate_pi_identifier request_id PI_REQUEST_ID_MAX_BYTES;
      check? validate_pi_filename filename;
      check? validate_pi_mime_type mime_type;
      ensure (negb (PI_ATTACHMENT_MAX_BYTES <? size)%Z) Pi_SizeTooLarge
  | Pi_UploadChunk request_id attachment_id offset data =>
      check? validate_pi_identifier request_id PI_REQUEST_ID_MAX_BYTES;
      check? validate_pi_attachment_id attachment_id;
      check? ensure (negb (PI_ATTACHMENT_MAX_BYTES <? offset)%Z) Pi_SizeTooLarge;
      _ <-? decode_pi_upload_chunk data;
      Ok tt
  | Pi_UploadFinish request_id attachment_id | Pi_UploadCancel request_id attachment_id =>
      check? validate_pi_identifier request_id PI_REQUEST_ID_MAX_BYTES;
      validate_pi_attachment_id attachment_id
  | Pi_SubagentStatus request_id =>
      validate_pi_identifier request_id PI_REQUEST_ID_MAX_BYTES
  | Pi_SubagentTranscript request_id run_id index =>
      check? validate_pi_identifier request_id PI_REQUEST_ID_MAX_BYTES;
      check? validate_pi_subagent_id run_id;
      validate_pi_subagent_index index
  | Pi_SubagentControl request_id action run_id child_id index message =>
      check? validate_pi_identifier request_id PI_REQUEST_ID_MAX_BYTES;
      check? validate_pi_subagent_id run_id;
      check? ensure (match child_id, index with None, None => true | _, _ => false end)
               Pi_ChildTarget;
      if action_takes_message action then
        match message with
        | None => Err Pi_MessageRequired
        | Some message =>
            check? ensure (negb (blank message)) Pi_EmptyPrompt;
            ensure (negb (PI_PROMPT_MAX_BYTES <? len message)%Z) Pi_TooLong
        end
      else
        match message with
        | Some _ => Err Pi_MessageNotAccepted
        | None => Ok tt
        end
  | Pi_SetThinkingLevel level =>
      ensure (existsb (String.eqb level) THINKING_LEVELS) Pi_UnsupportedLevel
  end.

(** ** The canonical encoding

    The specification of upload chunks: RFC 4648 base64 with padding. *)
Definition base64_char (v : Z) : byte :=
  (if v <? 26 then v + 65 else if v <? 52 then v - 26 + 97
   else if v <? 62 then v - 52 + 48 else if v =? 62 then 43 else 47)%Z.

Definition encode_group (l : list byte) : list byte :=
  match l with
  | [x] => [base64_char (x / 4); base64_char (x mod 4 * 16); pad; pad]%Z
  | [x; y] =>
      [base64_char (x / 4); base64_char (x mod 4 * 16 + y / 16);
       base64_char (y mod 16 * 4); pad]%Z
  | [x; y; z] =>
      [base64_char (x / 4); base64_char (x mod 4 * 16 + y / 16);
       base64_char (y mod 16 * 4 + z / 64); base64_char (z mod 64)]%Z
  | _ => []
  end.

Fixpoint base64 (l : list byte) : list byte :=
  match l with
  | x :: y :: z :: rest => encode_group [x; y; z] ++ base64 rest
  | _ => encode_group l
  end.

Lemma base64_value_char v : (0 <= v < 64)%Z -> base64_value (base64_char v) = Some v.
Proof.
  intros Hv. unfold base64_char.
  split_ifs;
    unfold base64_value, between;
    split_ifs;
    first [f_equal; lia | exfalso; lia].
Qed.

Lemma base64_char_value b v : base64_value b = Some v -> base64_char v = b /\ (0 <= v < 64)%Z.
Proof.
  unfold base64_value, between.
  split_ifs;
    intros; simplify_eq; unfold base64_char;
    split_ifs; lia.
Qed.

Lemma base64_char_pad v : (0 <= v < 64)%Z -> (base64_char v =? pad)%Z = false.
Proof.
  intros Hv. unfold base64_char, pad.
  split_ifs; lia.
Qed.

Lemma base64_value_pad b v : base64_value b = Some v -> (b =? pad)%Z = false.
Proof. intros [<- Hv]%base64_char_value. by apply base64_char_pad. Qed.

(** The twenty-four bits of a group. *)
Lemma group_bits a b c d :
  (0 <= a < 64)%Z -> (0 <= b < 64)%Z -> (0 <= c < 64)%Z -> (0 <= d < 64)%Z ->
  let n := Z.lor (Z.lor (Z.lor (Z.shiftl a 18) (Z.shiftl b 12)) (Z.shiftl c 6)) d in
  ((Z.shiftr n 16) mod 256 = a * 4 + b / 16
   /\ (Z.shiftr n 8) mod 256 = b mod 16 * 16 + c / 4
   /\ n mod 256 = c mod 4 * 64 + d)%Z.
Proof.
  intros Ha Hb Hc Hd n.
  assert (Hn : n = (a * 262144 + b * 4096 + c * 64 + d)%Z).
  { unfold n. rewrite !Z.shiftl_mul_pow2 by lia.
    rewrite (lor_low_add 18 (a * 2 ^ 18) (b * 2 ^ 12)) by (zdivmod || lia).
    rewrite (lor_low_add 12 _ (c * 2 ^ 6)) by (zdivmod || lia).
    rewrite (lor_low_add 6 _ d) by (zdivmod || lia). lia. }
  clearbody n. subst n. rewrite !Z.shiftr_div_pow2 by lia.
  change (2 ^ 16)%Z with 65536%Z. change (2 ^ 8)%Z with 256%Z.
  split_and!; zdivmod.
Qed.

Lemma land_15 b : Z.land b 15 = (b mod 16)%Z.
Proof. change 15%Z with (Z.ones 4). by rewrite Z.land_ones. Qed.

Lemma land_3 c : Z.land c 3 = (c mod 4)%Z.
Proof. change 3%Z with (Z.ones 2). by rewrite Z.land_ones. Qed.

(** Decoding a group is the inverse of encoding it, in both directions. *)
Lemma decode_encode_group l :
  bytes_ok l -> 1 <= length l <= 3 ->
  exists g0 g1 g2 g3, encode_group l = [g0; g1; g2; g3] /\ decode_group g0 g1 g2 g3 = Ok l.
Proof.
  intros Hok Hlen.
  assert (Hd : forall x, is_byte x -> (0 <= x / 4 < 64 /\ 0 <= x mod 4 * 16 < 64
    /\ 0 <= x / 16 < 16 /\ 0 <= x mod 16 * 4 < 64 /\ 0 <= x / 64 < 4 /\ 0 <= x mod 64 < 64)%Z)
    by (unfold is_byte; intros x Hx; split_and!; zdivmod).
  destruct l as [|x [|y [|z [|]]]]; simpl in Hlen; try lia;
    do 4 eexists; (split; [reflexivity|]); unfold decode_group.
  all: repeat match goal with
         | H : bytes_ok (_ :: _) |- _ => apply Forall_cons in H as [? H]
         | H : Forall is_byte (_ :: _) |- _ => apply Forall_cons in H as [? H]
         end.
  all: repeat match goal with H : is_byte ?x |- _ => pose proof (Hd x H); unfold is_byte in H end.
  all: rewrite ?(Z.eqb_refl pad).
  all: rewrite ?base64_char_pad by zdivmod.
  all: repeat (rewrite base64_value_char by zdivmod;
               cbn [rbind or_err andb orb negb app]; rewrite ?base64_char_pad by zdivmod).
  all: cbn [rbind or_err andb orb negb app].
  all: rewrite ?land_15, ?land_3.
  - rewrite (proj2 (Z.eqb_eq ((x mod 4 * 16) mod 16) 0)) by zdivmod. cbn.
    destruct (group_bits (x / 4) (x mod 4 * 16) 0 0) as (G1 & _ & _); try zdivmod.
    rewrite G1. do 3 f_equal. zdivmod.
  - rewrite (proj2 (Z.eqb_eq ((y mod 16 * 4) mod 4) 0)) by zdivmod. cbn [negb orb].
    destruct (group_bits (x / 4) (x mod 4 * 16 + y / 16) (y mod 16 * 4) 0) as (G1 & G2 & _); try zdivmod.
    rewrite G1, G2. repeat f_equal; zdivmod.
  - destruct (group_bits (x / 4) (x mod 4 * 16 + y / 16) (y mod 16 * 4 + z / 64) (z mod 64))
      as (G1 & G2 & G3); try zdivmod.
    rewrite G1, G2, G3. repeat f_equal; zdivmod.
Qed.

Lemma encode_decode_group g0 g1 g2 g3 out :
  decode_group g0 g1 g2 g3 = Ok out ->
  encode_group out = [g0; g1; g2; g3] /\ bytes_ok out
  /\ length out = (if (g2 =? pad)%Z then 1 else if (g3 =? pad)%Z then 2 else 3).
Proof.
  unfold decode_group, or_err.
  destruct (base64_value g0) as [a|] eqn:Ea; [|done].
  destruct (base64_value g1) as [b|] eqn:Eb; [|done]. cbn [rbind].
  apply base64_char_value in Ea as [<- Ha]. apply base64_char_value in Eb as [<- Hb].
  destruct (Z.eqb_spec g2 pad) as [->|H2].
  - destruct (Z.eqb_spec g3 pad) as [->|H3].
    + cbn [rbind andb orb negb]. rewrite land_15.
      destruct (Z.eqb_spec (b mod 16) 0) as [Hz|]; [|done]. cbn. intros [= <-].
      destruct (group_bits a b 0 0) as (H1 & _ & _); try lia. rewrite H1. split_and!.
      * simpl. repeat f_equal; zdivmod.
      * constructor; [unfold is_byte; zdivmod|constructor].
      * done.
    + destruct (base64_value g3) eqn:?; done.
  - destruct (base64_value g2) as [c|] eqn:Ec; [|done]. cbn [rbind].
    apply base64_char_value in Ec as [<- Hc].
    destruct (Z.eqb_spec g3 pad) as [->|H3].
    + cbn [rbind andb orb negb]. rewrite land_3.
      destruct (Z.eqb_spec (c mod 4) 0) as [Hz|]; [|done]. cbn [negb app]. intros [= <-].
      destruct (group_bits a b c 0) as (H1 & H2' & _); try lia. rewrite H1, H2'. split_and!.
      * simpl. repeat f_equal; zdivmod.
      * repeat (constructor; [unfold is_byte; zdivmod|]); constructor.
      * done.
    + destruct (base64_value g3) as [d|] eqn:Ed; [|done]. cbn [rbind andb orb negb app].
      apply base64_char_value in Ed as [<- Hd]. intros [= <-].
      destruct (group_bits a b c d) as (H1 & H2' & H3'); try lia. rewrite H1, H2', H3'. split_and!.
      * simpl. repeat f_equal; zdivmod.
      * repeat (constructor; [unfold is_byte; zdivmod|]); constructor.
      * done.
Qed.

(** The canonical form: characters of the alphabet, then at most two pads. *)
Definition canonical (bytes : list byte) (n : nat) : Prop :=
  exists core pads, bytes = core ++ replicate pads pad /\ pads <= 2
    /\ Forall (fun b => b <> pad) core
    /\ exists groups, length bytes = 4 * groups /\ n + pads = 3 * groups.

Lemma base64_char_not_pad v : (0 <= v < 64)%Z -> base64_char v <> pad.
Proof. intros Hv. apply Z.eqb_neq. by apply base64_char_pad. Qed.

Lemma base64_canonical l : bytes_ok l -> canonical (base64 l) (length l).
Proof.
  induction l as [l IH] using (induction_ltof1 _ length). unfold ltof in IH. intros Hok.
  destruct l as [|x [|y [|z l]]].
  - exists [], 0. split_and!; try done; [lia|]. exists 0. done.
  - apply Forall_cons in Hok as [Hx _]. unfold is_byte in Hx.
    exists [base64_char (x / 4); base64_char (x mod 4 * 16)], 2. split_and!; try done.
    + repeat constructor; apply base64_char_not_pad; zdivmod.
    + by exists 1.
  - apply Forall_cons in Hok as [Hx [Hy _]%Forall_cons]. unfold is_byte in *.
    exists [base64_char (x / 4); base64_char (x mod 4 * 16 + y / 16); base64_char (y mod 16 * 4)], 1.
    split_and!; try done; [lia| |].
    + repeat constructor; apply base64_char_not_pad; zdivmod.
    + by exists 1.
  - apply Forall_cons in Hok as [Hx [Hy [Hz Hl]%Forall_cons]%Forall_cons]. unfold is_byte in *.
    destruct (IH l ltac:(simpl; lia) Hl) as (core & p & Heq & Hp & Hcl & g & Hg1 & Hg2).
    cbn [base64]. exists (encode_group [x; y; z] ++ core), p. split_and!; try done.
    + rewrite Heq. by rewrite app_assoc.
    + apply Forall_app. split; [|done].
      repeat constructor; apply base64_char_not_pad; zdivmod.
    + exists (S g). rewrite length_app. cbn [encode_group length]. lia.
Qed.

Lemma decode_groups_base64 l : bytes_ok l -> decode_groups (base64 l) = Ok l.
Proof.
  induction l as [l IH] using (induction_ltof1 _ length). unfold ltof in IH. intros Hok.
  destruct l as [|x [|y [|z l]]]; [done|..].
  - destruct (decode_encode_group [x] Hok) as (g0 & g1 & g2 & g3 & He & Hd); [simpl; lia|].
    cbn [base64]. rewrite He. cbn [decode_groups]. by rewrite Hd.
  - destruct (decode_encode_group [x; y] Hok) as (g0 & g1 & g2 & g3 & He & Hd); [simpl; lia|].
    cbn [base64]. rewrite He. cbn [decode_groups]. by rewrite Hd.
  - assert (Hxyz : bytes_ok [x; y; z] /\ bytes_ok l) by (by apply (Forall_app _ [x; y; z] l)).
    destruct Hxyz as [Hxyz Hl].
    destruct (decode_encode_group [x; y; z] Hxyz) as (g0 & g1 & g2 & g3 & He & Hd); [simpl; lia|].
    cbn [base64]. rewrite He. cbn [app decode_groups]. rewrite Hd. cbn [rbind].
    rewrite IH; [done|simpl; lia|done].
Qed.

Lemma base64_decode_groups bytes core p out :
  decode_groups bytes = Ok out -> bytes = core ++ replicate p pad -> p <= 2 ->
  Forall (fun b => b <> pad) core -> Nat.modulo (length bytes) 4 = 0 ->
  base64 out = bytes /\ bytes_ok out.
Proof.
  revert core out. induction bytes as [bytes IH] using (induction_ltof1 _ length).
  unfold ltof in IH. intros core out Hdec Hsplit Hp Hcl Hmod.
  destruct bytes as [|g0 [|g1 [|g2 [|g3 rest]]]]; try done.
  { injection Hdec as <-. split; [done|constructor]. }
  cbn [decode_groups] in Hdec.
  destruct (decode_group g0 g1 g2 g3) as [o|] eqn:Hg; [|done]. cbn [rbind] in Hdec.
  destruct (decode_groups rest) as [os|] eqn:Hr; [|done]. injection Hdec as <-.
  apply encode_decode_group in Hg as (He & Hok & Hlen).
  assert (Hmod' : Nat.modulo (length rest) 4 = 0).
  { cbn [length] in Hmod. replace (S (S (S (S (length rest))))) with (length rest + 1 * 4) in Hmod by lia.
    by rewrite Nat.Div0.mod_add in Hmod. }
  destruct rest as [|h0 [|h1 [|h2 [|h3 rest]]]]; try done.
  - injection Hr as <-. rewrite app_nil_r. split; [|done].
    destruct o as [|? [|? [|? [|]]]]; simpl in He; try done.
  - destruct core as [|c0 [|c1 [|c2 [|c3 core]]]];
      try (apply (f_equal length) in Hsplit; rewrite length_app, length_replicate in Hsplit;
           simpl in Hsplit; lia).
    cbn [app] in Hsplit. injection Hsplit as -> -> -> -> Hrest.
    apply Forall_cons in Hcl as [_ [_ [Hc2 [Hc3 Hcl]%Forall_cons]%Forall_cons]%Forall_cons].
    rewrite (proj2 (Z.eqb_neq _ _) Hc2), (proj2 (Z.eqb_neq _ _) Hc3) in Hlen.
    destruct (IH (h0 :: h1 :: h2 :: h3 :: rest) ltac:(simpl; lia) core os Hr Hrest Hp Hcl Hmod')
      as [Hb Hos].
    split; [|by apply Forall_app].
    destruct o as [|x [|y [|z [|]]]]; try done. cbn [app base64]. by rewrite He, Hb.
Qed.

Lemma take_while_app_stop p l k :
  Forall (fun b => p b = true) l -> (forall b k', k = b :: k' -> p b = false) ->
  take_while p (l ++ k) = l.
Proof.
  intros Hl Hk. induction Hl as [|b l Hb _ IH]; simpl.
  - destruct k as [|b k]; [done|]. simpl. by rewrite (Hk b k).
  - by rewrite Hb, IH.
Qed.

Lemma take_while_prefix p l :
  exists k, l = take_while p l ++ k /\ Forall (fun b => p b = true) (take_while p l).
Proof.
  induction l as [|b l (k & Hl & Hp)]; simpl; [by exists []|].
  destruct (p b) eqn:Hb.
  - exists k. simpl. split; [by f_equal|by constructor].
  - exists (b :: l). by split.
Qed.

Lemma all_pad l : Forall (fun b => (b =? pad)%Z = true) l -> l = replicate (length l) pad.
Proof. induction 1 as [|b l Hb%Z.eqb_eq _ IH]; simpl; [done|]. subst b. by rewrite <- IH. Qed.

(** Counting pads from the end finds the split of a canonical string. *)
Lemma padding_of core p :
  Forall (fun b => b <> pad) core ->
  length (take_while (fun b => (b =? pad)%Z) (reverse (core ++ replicate p pad))) = p.
Proof.
  intros Hcl. rewrite reverse_app, reverse_replicate, take_while_app_stop.
  - apply length_replicate.
  - apply Forall_replicate. by rewrite Z.eqb_refl.
  - intros b k Hk. apply Z.eqb_neq. apply (Forall_forall (fun b => b <> pad) core); [done|].
    apply elem_of_reverse. rewrite Hk. left.
Qed.

Lemma padding_split bytes :
  let p := length (take_while (fun b => (b =? pad)%Z) (reverse bytes)) in
  bytes = take (length bytes - p) bytes ++ replicate p pad.
Proof.
  intros p. destruct (take_while_prefix (fun b => (b =? pad)%Z) (reverse bytes)) as (k & Hk & Hall).
  apply all_pad in Hall. fold p in Hall. rewrite Hall in Hk.
  apply (f_equal reverse) in Hk. rewrite reverse_involutive, reverse_app, reverse_replicate in Hk.
  rewrite Hk at 2 3. rewrite length_app, length_replicate.
  replace (length (reverse k) + p - p) with (length (reverse k)) by lia.
  by rewrite take_app_length.
Qed.

Lemma no_pad_spec l :
  existsb (fun b => (b =? pad)%Z) l = false <-> Forall (fun b => b <> pad) l.
Proof.
  induction l as [|b l IH]; simpl; [by split|]. rewrite orb_false_iff, Forall_cons, IH.
  by rewrite Z.eqb_neq.
Qed.

Lemma upload_canonical (data : string) (out : list byte) :
  decode_pi_upload_chunk data = Ok out <->
  bytes_of_string data = base64 out /\ bytes_ok out
  /\ (0 < Z.of_nat (length out) <= PI_UPLOAD_CHUNK_MAX_BYTES)%Z.
Proof.
  unfold decode_pi_upload_chunk, len. rewrite <- length_bytes_of_string.
  set (bytes := bytes_of_string data). clearbody bytes.
  set (p := length (take_while _ _)). split.
  - destruct (_ || _ || _) eqn:Hlen; [done|].
    apply orb_false_iff in Hlen as [[Hne Hmax]%orb_false_iff Hmod%negb_false_iff].
    destruct (Nat.ltb_spec 2 p) as [|Hp]; [done|]. cbn [orb].
    destruct (existsb _ _) eqn:Hcl; [done|]. apply no_pad_spec in Hcl.
    destruct (_ || _) eqn:Hbound; [done|].
    destruct (decode_groups bytes) as [o|] eqn:Hdec; [|done]. cbn [rbind].
    destruct (Z.eqb_spec (Z.of_nat (length o))
                (Z.of_nat (length bytes) / 4 * 3 - Z.of_nat p)) as [Ho|]; [|done].
    intros [= <-].
    destruct (base64_decode_groups bytes (take (length bytes - p) bytes) p o Hdec) as [Hb Hok].
    + apply padding_split.
    + done.
    + done.
    + apply Z.eqb_eq in Hmod. apply Nat2Z.inj. rewrite Nat2Z.inj_mod. exact Hmod.
    + split_and!; try done; lia.
  - intros (Hb & Hok & Hsize).
    destruct (base64_canonical out Hok) as (core & q & Hsplit & Hq & Hcl & g & Hg1 & Hg2).
    assert (Hp : p = q).
    { unfold p. rewrite Hb, Hsplit. by apply padding_of. }
    rewrite Hb. clearbody p. subst p.
    assert (Htake : take (length (base64 out) - q) (base64 out) = core).
    { rewrite Hsplit, length_app, length_replicate.
      replace (length core + q - q) with (length core) by lia. by rewrite take_app_length. }
    rewrite Htake, (proj2 (no_pad_spec core) Hcl), Hg1, decode_groups_base64 by done.
    unfold PI_UPLOAD_CHUNK_MAX_ENCODED_BYTES, PI_UPLOAD_CHUNK_MAX_BYTES in *.
    change ((48 * 1024 + 2) / 3 * 4)%Z with 65536%Z.
    rewrite Nat2Z.inj_mul. change (Z.of_nat 4) with 4%Z.
    assert (Hdiv : (4 * Z.of_nat g / 4 = Z.of_nat g)%Z) by (rewrite Z.mul_comm; by apply Z.div_mul).
    assert (Hmod : (4 * Z.of_nat g mod 4 = 0)%Z) by (rewrite Z.mul_comm; by apply Z.mod_mul).
    rewrite Hdiv, Hmod, (proj2 (Z.eqb_neq _ _)), (proj2 (Z.ltb_ge _ _)),
      (proj2 (Nat.ltb_ge _ _)) by lia. cbn [orb negb Z.eqb].
    rewrite (proj2 (Z.eqb_neq _ _)), (proj2 (Z.ltb_ge _ _)) by lia. cbn [orb rbind].
    rewrite (proj2 (Z.eqb_eq _ _)) by lia. done.
Qed.

(** Upload chunks are decoded by exactly one spelling: the decoder accepts a
    string if and only if it is the padded base64 of the bytes it returns, which
    are between one byte and 48 KiB. *)
Theorem upload_chunk_canonical (data : string) (out : list byte) :
  decode_pi_upload_chunk data = Ok out <->
  bytes_of_string data = base64 out /\ bytes_ok out
  /\ (0 < Z.of_nat (length out) <= PI_UPLOAD_CHUNK_MAX_BYTES)%Z.
Proof. apply upload_canonical. Qed.

(** ** What a valid command is *)

Definition identifier_ok (max : Z) (s : string) : Prop :=
  s <> ""%string /\ (len s <= max)%Z /\ forall c, c ∈ chars s -> is_control c = false.

Definition subagent_id_ok (s : string) : Prop :=
  identifier_ok PI_SUBAGENT_ID_MAX_BYTES s
  /\ forall c, c ∈ chars s -> c <> slash /\ c <> backslash /\ is_whitespace c = false.

Definition attachment_id_ok (s : string) : Prop :=
  identifier_ok PI_ATTACHMENT_ID_MAX_BYTES s
  /\ forall b, b ∈ bytes_of_string s -> is_ascii_alphanumeric b = true \/ b = 45%Z \/ b = 95%Z.

Definition filename_ok (s : string) : Prop :=
  s <> ""%string /\ (Z.of_nat (length (chars s)) <= PI_FILENAME_MAX_CHARS)%Z
  /\ forall c, c ∈ chars s -> is_control c = false /\ c <> slash /\ c <> backslash.

(** Some character is not white space. *)
Definition has_text (s : string) : Prop := exists c, c ∈ chars s /\ is_whitespace c = false.

Definition text_ok (s : string) : Prop := has_text s /\ (len s <= PI_PROMPT_MAX_BYTES)%Z.

Definition command_ok (command : PiCommand) : Prop :=
  match command with
  | Pi_Snapshot | Pi_Abort => True
  | Pi_Prompt message _ => text_ok message
  | Pi_PromptWithAttachments request_id message _ attachments =>
      identifier_ok PI_REQUEST_ID_MAX_BYTES request_id
      /\ (has_text message \/ attachments <> [])
      /\ (len message <= PI_PROMPT_MAX_BYTES)%Z
      /\ (Z.of_nat (length attachments) <= PI_ATTACHMENTS_PER_PROMPT)%Z
      /\ Forall attachment_id_ok attachments /\ NoDup attachments
  | Pi_UploadBegin request_id filename mime_type size =>
      identifier_ok PI_REQUEST_ID_MAX_BYTES request_id /\ filename_ok filename
      /\ identifier_ok PI_MIME_TYPE_MAX_BYTES mime_type /\ (size <= PI_ATTACHMENT_MAX_BYTES)%Z
  | Pi_UploadChunk request_id attachment_id offset data =>
      identifier_ok PI_REQUEST_ID_MAX_BYTES request_id /\ attachment_id_ok attachment_id
      /\ (offset <= PI_ATTACHMENT_MAX_BYTES)%Z
      /\ exists out, bytes_of_string data = base64 out /\ bytes_ok out
           /\ (0 < Z.of_nat (length out) <= PI_UPLOAD_CHUNK_MAX_BYTES)%Z
  | Pi_UploadFinish request_id attachment_id | Pi_UploadCancel request_id attachment_id =>
      identifier_ok PI_REQUEST_ID_MAX_BYTES request_id /\ attachment_id_ok attachment_id
  | Pi_SubagentStatus request_id => identifier_ok PI_REQUEST_ID_MAX_BYTES request_id
  | Pi_SubagentTranscript request_id run_id index =>
      identifier_ok PI_REQUEST_ID_MAX_BYTES request_id /\ subagent_id_ok run_id
      /\ forall i, index = Some i -> (i <= PI_SUBAGENT_INDEX_MAX)%Z
  | Pi_SubagentControl request_id action run_id child_id index message =>
      identifier_ok PI_REQUEST_ID_MAX_BYTES request_id /\ subagent_id_ok run_id
      /\ child_id = None /\ index = None
      /\ (if action_takes_message action
          then exists text, message = Some text /\ text_ok text
          else message = None)
  | Pi_SetThinkingLevel level => level ∈ THINKING_LEVELS
  end.

Lemma ensure_ok b e : ensure b e = Ok tt <-> b = true.
Proof. unfold ensure. by destruct b. Qed.

Lemma not_too_long max n : negb (max <? n)%Z = true <-> (n <= max)%Z.
Proof. rewrite negb_true_iff. apply Z.ltb_ge. Qed.

Lemma is_empty_spec s : negb (is_empty s) = true <-> s <> ""%string.
Proof. unfold is_empty, len. rewrite negb_true_iff, Z.eqb_neq. by destruct s. Qed.

Lemma none_of (p : Z -> bool) l : negb (existsb p l) = true <-> forall c, c ∈ l -> p c = false.
Proof.
  rewrite negb_true_iff, <- not_true_iff_false, existsb_exists. split.
  - intros H c Hc. apply not_true_iff_false. intros Hp. apply H. exists c.
    by rewrite <- list_elem_of_In.
  - intros H (c & Hc%list_elem_of_In & Hp). by rewrite H in Hp.
Qed.

Lemma trim_start_nil l : trim_start l = [] <-> forall c, c ∈ l -> is_whitespace c = true.
Proof.
  induction l as [|c l IH]; simpl; [set_solver|].
  destruct (is_whitespace c) eqn:Hc.
  - rewrite IH. setoid_rewrite elem_of_cons. naive_solver.
  - split; [done|]. intros H. rewrite (H c) in Hc; [done|left].
Qed.

Lemma trim_start_suffix l : exists k, l = k ++ trim_start l /\ forall c, c ∈ k -> is_whitespace c = true.
Proof.
  induction l as [|c l (k & Hk & Hw)]; simpl; [exists []; set_solver|].
  destruct (is_whitespace c) eqn:Hc.
  - exists (c :: k). simpl. split; [by f_equal|]. set_solver.
  - exists []. split; [done|]. set_solver.
Qed.

Lemma blank_spec s : negb (blank s) = true <-> has_text s.
Proof.
  assert (Hb : blank s = true <-> forall c, c ∈ chars s -> is_whitespace c = true).
  { unfold blank, trim, trim_end.
    destruct (trim_start_suffix (chars s)) as (k & Hk & Hw).
    transitivity (trim_start (reverse (trim_start (chars s))) = []).
    { set (t := trim_start (reverse (trim_start (chars s)))). destruct t as [|c t]; [done|].
      rewrite reverse_cons. by destruct (reverse t). }
    rewrite trim_start_nil. setoid_rewrite elem_of_reverse. split; intros H c Hc.
    - rewrite Hk in Hc. apply elem_of_app in Hc as [Hc|Hc]; auto.
    - apply H. rewrite Hk. apply elem_of_app. by right. }
  rewrite negb_true_iff, <- not_true_iff_false, Hb. unfold has_text. split.
  - intros H. destruct (existsb (fun c => negb (is_whitespace c)) (chars s)) eqn:He.
    + apply existsb_exists in He as (c & Hc%list_elem_of_In & Hw%negb_true_iff). by exists c.
    + exfalso. apply H. intros c Hc. apply negb_false_iff.
      apply (proj1 (none_of (fun c => negb (is_whitespace c)) (chars s))); [by rewrite He|done].
  - intros (c & Hc & Hf) H. by rewrite H in Hf.
Qed.

Lemma identifier_spec s max : validate_pi_identifier s max = Ok tt <-> identifier_ok max s.
Proof.
  unfold validate_pi_identifier, identifier_ok.
  rewrite !rbind_ok_unit, !ensure_ok, is_empty_spec, not_too_long, none_of.
  intuition.
Qed.

Lemma subagent_id_spec s : validate_pi_subagent_id s = Ok tt <-> subagent_id_ok s.
Proof.
  unfold validate_pi_subagent_id, subagent_id_ok.
  rewrite rbind_ok_unit, ensure_ok, identifier_spec, none_of.
  apply and_iff_compat_l. apply forall_proper. intros c.
  rewrite !orb_false_iff, !Z.eqb_neq. tauto.
Qed.

Lemma attachment_id_spec s : validate_pi_attachment_id s = Ok tt <-> attachment_id_ok s.
Proof.
  unfold validate_pi_attachment_id, attachment_id_ok.
  rewrite rbind_ok_unit, ensure_ok, identifier_spec, forallb_forall.
  apply and_iff_compat_l. apply forall_proper. intros b.
  rewrite <- list_elem_of_In, !orb_true_iff, !Z.eqb_eq. tauto.
Qed.

Lemma filename_spec s : validate_pi_filename s = Ok tt <-> filename_ok s.
Proof.
  unfold validate_pi_filename, filename_ok.
  rewrite !rbind_ok_unit, !ensure_ok, is_empty_spec, not_too_long, none_of.
  do 2 apply and_iff_compat_l. apply forall_proper. intros c.
  rewrite !orb_false_iff, !Z.eqb_neq. tauto.
Qed.

Lemma index_spec i :
  validate_pi_subagent_index i = Ok tt <-> forall n, i = Some n -> (n <= PI_SUBAGENT_INDEX_MAX)%Z.
Proof. destruct i as [i|]; simpl; [rewrite ensure_ok, not_too_long|]; naive_solver. Qed.

Lemma attachments_spec l seen :
  validate_attachments seen l = Ok tt <->
  Forall attachment_id_ok l /\ NoDup l /\ forall a, a ∈ l -> a ∉ seen.
Proof.
  revert seen. induction l as [|a l IH]; intros seen; simpl.
  - split; [intros _; split_and!; [constructor|constructor|set_solver]|done].
  - rewrite rbind_ok_unit, attachment_id_spec, Forall_cons, NoDup_cons.
    destruct (decide (a ∈ seen)) as [Hin|Hout].
    + split; [by intros [_ [=]]|]. intros (_ & _ & H). exfalso. apply (H a); [left|done].
    + rewrite IH. setoid_rewrite elem_of_cons. set_solver.
Qed.

Lemma levels_spec level : existsb (String.eqb level) THINKING_LEVELS = true <-> level ∈ THINKING_LEVELS.
Proof.
  rewrite existsb_exists. setoid_rewrite <- list_elem_of_In. setoid_rewrite String.eqb_eq. naive_solver.
Qed.

Lemma text_spec s :
  (check? ensure (negb (blank s)) Pi_EmptyPrompt;
   ensure (negb (PI_PROMPT_MAX_BYTES <? len s)%Z) Pi_TooLong) = Ok tt <-> text_ok s.
Proof. by rewrite rbind_ok_unit, !ensure_ok, blank_spec, not_too_long. Qed.

(** The command gate accepts exactly the valid commands, on every variant. *)
Theorem validate_pi_command_spec (command : PiCommand) :
  validate_pi_command command = Ok tt <-> command_ok command.
Proof.
  destruct command as [|m d|r m d a|r f t n|r a o data|r a|r a|r|r run i|r act run c i m| |level];
    cbn [validate_pi_command command_ok].
  - done.
  - apply text_spec.
  - rewrite !rbind_ok_unit, !ensure_ok, identifier_spec, !not_too_long, attachments_spec,
      negb_andb, orb_true_iff, blank_spec.
    assert (negb (match a with [] => true | _ => false end) = true <-> a <> []) as -> by (by destruct a).
    split; [|set_solver]. intros (? & ? & ? & ? & ? & ? & _). done.
  - rewrite !rbind_ok_unit, !ensure_ok, identifier_spec, filename_spec, not_too_long.
    unfold validate_pi_mime_type. by rewrite identifier_spec.
  - rewrite !rbind_ok_unit, !ensure_ok, identifier_spec, attachment_id_spec, not_too_long, rbind_ok.
    setoid_rewrite upload_canonical. naive_solver.
  - by rewrite !rbind_ok_unit, identifier_spec, attachment_id_spec.
  - by rewrite !rbind_ok_unit, identifier_spec, attachment_id_spec.
  - apply identifier_spec.
  - by rewrite !rbind_ok_unit, identifier_spec, subagent_id_spec, index_spec.
  - rewrite !rbind_ok_unit, !ensure_ok, identifier_spec, subagent_id_spec.
    assert (match c, i with None, None => true | _, _ => false end = true <-> c = None /\ i = None)
      as -> by (destruct c, i; naive_solver).
    destruct (action_takes_message act); destruct m as [m|]; rewrite ?text_spec; naive_solver.
  - done.
  - by rewrite ensure_ok, levels_spec.
Qed.
