(* ===== verification/Health.v ===== *)
(** * Key health and the classification of upstream answers

    [crates/router-core/src/taxonomy.rs] and [health.rs]: what an upstream's
    status means for the key that was used, and the state of that key.  An
    [Instant] is a number of nanoseconds, [Duration]s are nanoseconds too;
    [Instant + Duration] panics past the largest representable instant, which
    [cool_down] returns as [None]. *)
From S2P Require Import Prelude Utf8.

(** ** Taxonomy *)

Definition duration := Z.

Inductive Verdict :=
| Success
| CoolDown (retry_after : option duration)
| DeadKey
| Fatal.

Definition CONSECUTIVE_CLIENT_ERRORS_LIMIT : nat := 3.

Definition client_error_stops_chain (consecutive_fatals : nat) : bool :=
  CONSECUTIVE_CLIENT_ERRORS_LIMIT <=? consecutive_fatals.

Definition nanos_per_sec : Z := 1000000000%Z.
Definition nanos_per_ms : Z := 1000000%Z.

Definition parse_retry_after (raw : string) : option duration :=
  (fun secs => secs * nanos_per_sec)%Z <$> parse_uint u64_max (trim (chars raw)).

Definition classify_status (status : Z) (retry_after_header : option string) : Verdict :=
  if between 200 299 status then Success
  else if ((status =? 400) || (status =? 422))%Z then Fatal
  else if ((status =? 401) || (status =? 403))%Z then DeadKey
  else if (status =? 429)%Z then CoolDown (retry_after_header ≫= parse_retry_after)
  else CoolDown None.

Definition classify_transport : Verdict := CoolDown None.

(** ** Health *)

Inductive KeyState :=
| Live
| Cooling (until : Z)
| Dead.

Record KeyHealth := mk_health {
  h_dead : bool;
  h_cooling_until : option Z;
  h_consecutive_failures : Z;
  h_requests : Z;
  h_errors : Z;
  h_last_error : option string;
}.

Definition new : KeyHealth := mk_health false None 0 0 0 None.

Definition state (h : KeyHealth) (now : Z) : KeyState :=
  if h_dead h then Dead
  else match h_cooling_until h with
       | Some until => if (now <? until)%Z then Cooling until else Live
       | None => Live
       end.

Definition wrap64 (a : Z) : Z := (a mod 2 ^ 64)%Z.

Definition record_success (h : KeyHealth) : KeyHealth :=
  mk_health (h_dead h) None 0 (wrap64 (h_requests h + 1)) (h_errors h) (h_last_error h).

Definition record_error (h : KeyHealth) (msg : string) : KeyHealth :=
  mk_health (h_dead h) (h_cooling_until h) (h_consecutive_failures h)
    (wrap64 (h_requests h + 1)) (wrap64 (h_errors h + 1)) (Some msg).

Definition mark_dead (h : KeyHealth) : KeyHealth :=
  mk_health true (h_cooling_until h) (h_consecutive_failures h)
    (h_requests h) (h_errors h) (h_last_error h).

(** The largest instant: [i64] seconds and the nanoseconds of one. *)
Definition instant_max : Z := ((2 ^ 63 - 1) * nanos_per_sec + (nanos_per_sec - 1))%Z.

Definition instant_add (now wait : Z) : option Z :=
  if (instant_max <? now + wait)%Z then None else Some (now + wait)%Z.

(** The exponential back-off of the [failures]-th failure in a row. *)
Definition backoff_ms (failures default_ms max_ms : Z) : Z :=
  let shift := Z.min (failures - 1) 6 in
  Z.min (sat_mul64 default_ms (Z.shiftl 1 shift)) max_ms.

Definition cool_down (h : KeyHealth) (now : Z) (retry_after : option duration)
    (default_ms max_ms : Z) : option KeyHealth :=
  if h_dead h then Some h
  else
    let failures := Z.min u32_max (h_consecutive_failures h + 1) in
    let wait :=
      match retry_after with
      | Some d => d
      | None => (backoff_ms failures default_ms max_ms * nanos_per_ms)%Z
      end in
    until ← instant_add now wait;
    Some (mk_health (h_dead h) (Some until) failures
            (h_requests h) (h_errors h) (h_last_error h)).

(** ** Histories of a key *)

Inductive event :=
| Ev_success
| Ev_error (msg : string)
| Ev_dead
| Ev_cool (now : Z) (retry_after : option duration).

Section history.
(** the provider's cool-down settings *)
Context (default_ms max_ms : Z).

Definition step (h : KeyHealth) (e : event) : option KeyHealth :=
  match e with
  | Ev_success => Some (record_success h)
  | Ev_error msg => Some (record_error h msg)
  | Ev_dead => Some (mark_dead h)
  | Ev_cool now ra => cool_down h now ra default_ms max_ms
  end.

Fixpoint run (h : KeyHealth) (es : list event) : option KeyHealth :=
  match es with
  | [] => Some h
  | e :: es' => h' ← step h e; run h' es'
  end.

(** *** The abstract specification

    A key is dead once marked so; the number of consecutive failures counts the
    cool-downs since the last success; and the key rests until the last
    cool-down's end unless a success came after it. *)
Definition marked (es : list event) : bool :=
  existsb (fun e => match e with Ev_dead => true | _ => false end) es.

(** The failures in a row at the end of a live key's history, saturating. *)
Fixpoint failures_after (n : Z) (es : list event) : Z :=
  match es with
  | [] => n
  | Ev_success :: es' => failures_after 0 es'
  | Ev_cool _ _ :: es' => failures_after (Z.min u32_max (n + 1)) es'
  | _ :: es' => failures_after n es'
  end.

Definition wait_ns (failures : Z) (ra : option duration) : Z :=
  match ra with
  | Some d => d
  | None => (backoff_ms failures default_ms max_ms * nanos_per_ms)%Z
  end.

Fixpoint resting_until (n : Z) (u : option Z) (es : list event) : option Z :=
  match es with
  | [] => u
  | Ev_success :: es' => resting_until 0 None es'
  | Ev_cool now ra :: es' =>
      let n' := Z.min u32_max (n + 1) in
      resting_until n' (Some (now + wait_ns n' ra)%Z) es'
  | _ :: es' => resting_until n u es'
  end.

Lemma run_dead h es h' : h_dead h = true -> run h es = Some h' -> h_dead h' = true.
Proof.
  revert h. induction es as [|e es IH]; simpl; intros h Hd Hrun; [by simplify_eq|].
  destruct (step h e) as [h1|] eqn:Hs; [|done]. simpl in Hrun. apply (IH h1); [|done].
  destruct e; simpl in Hs; simplify_eq/=; try done.
  unfold cool_down in Hs. rewrite Hd in Hs. by simplify_eq.
Qed.

Lemma run_live h es h' :
  h_dead h = false -> marked es = false -> run h es = Some h' ->
  h_dead h' = false
  /\ h_consecutive_failures h' = failures_after (h_consecutive_failures h) es
  /\ h_cooling_until h' = resting_until (h_consecutive_failures h) (h_cooling_until h) es.
Proof.
  revert h. induction es as [|e es IH]; simpl; intros h Hd Hm Hrun; [by simplify_eq|].
  apply orb_false_iff in Hm as [He Hm].
  destruct (step h e) as [h1|] eqn:Hs; [|done]. simpl in Hrun.
  destruct e as [|msg| |now ra]; try done; simpl in Hs; simplify_eq/=.
  - by apply (IH (record_success h)).
  - by apply (IH (record_error h msg)).
  - unfold cool_down in Hs. rewrite Hd in Hs. unfold instant_add in Hs.
    destruct (instant_max <? _)%Z; [done|]. simplify_eq/=. by apply IH in Hrun.
Qed.

Lemma run_marked h es h' : marked es = true -> run h es = Some h' -> h_dead h' = true.
Proof.
  revert h. induction es as [|e es IH]; simpl; intros h Hm Hrun; [done|].
  destruct (step h e) as [h1|] eqn:Hs; [|done]. simpl in Hrun.
  destruct e; simpl in Hm; try by apply (IH h1).
  apply (run_dead h1 es); [|done]. simpl in Hs. by simplify_eq.
Qed.

(** The state of a key is what its history says: dead for ever once a
    credential error marked it, otherwise cooling exactly until the end of the
    last cool-down that no success followed, otherwise live. *)
Theorem key_state_spec (es : list event) (h : KeyHealth) (now : Z) :
  run new es = Some h ->
  state h now =
    if marked es then Dead
    else match resting_until 0 None es with
         | Some until => if (now <? until)%Z then Cooling until else Live
         | None => Live
         end.
Proof.
  intros Hrun. unfold state. destruct (marked es) eqn:Hm.
  - by rewrite (run_marked new es h Hm Hrun).
  - destruct (run_live new es h eq_refl Hm Hrun) as (-> & _ & ->). done.
Qed.
End history.

Lemma key_state_spec_witness :
  exists h, run 30000 21600000 new
      [Ev_cool 5 None; Ev_error "e"; Ev_success; Ev_cool 7 (Some 100%Z)] = Some h
    /\ state h 50 = Cooling 107 /\ state h 107 = Live.
Proof.
  eexists. split; [reflexivity|].
  split; rewrite (key_state_spec 30000 21600000
    [Ev_cool 5 None; Ev_error "e"; Ev_success; Ev_cool 7 (Some 100%Z)]); reflexivity.
Defined.

(** The back-off doubles per failure up to 64 times the default, never beyond
    the configured maximum. *)
Lemma backoff_bounds failures default_ms max_ms :
  (1 <= failures)%Z -> is_u64 default_ms -> is_u64 max_ms ->
  (0 <= backoff_ms failures default_ms max_ms <= max_ms)%Z.
Proof.
  intros Hf [Hd _] [Hm _]. unfold backoff_ms, sat_mul64.
  assert (0 <= Z.shiftl 1 (Z.min (failures - 1) 6))%Z by (apply Z.shiftl_nonneg; lia).
  unfold u64_max. nia.
Qed.

Lemma backoff_mono f1 f2 default_ms max_ms :
  (1 <= f1 <= f2)%Z -> is_u64 default_ms ->
  (backoff_ms f1 default_ms max_ms <= backoff_ms f2 default_ms max_ms)%Z.
Proof.
  intros Hf [Hd _]. unfold backoff_ms, sat_mul64. rewrite !Z.shiftl_1_l.
  assert (2 ^ Z.min (f1 - 1) 6 <= 2 ^ Z.min (f2 - 1) 6)%Z by (apply Z.pow_le_mono_r; lia).
  nia.
Qed.

(** Cooling a live key down without a server's instruction succeeds and rests
    it for the exponential back-off: default times two to the number of earlier
    failures in a row (at most six doublings), capped by the configured maximum,
    and never shorter than after the failure before. *)
Theorem cool_down_backoff (h : KeyHealth) (now default_ms max_ms : Z) :
  h_dead h = false -> (0 <= h_consecutive_failures h < u32_max)%Z ->
  is_u64 default_ms -> is_u64 max_ms ->
  (now + max_ms * nanos_per_ms <= instant_max)%Z ->
  let k := h_consecutive_failures h in
  let ms := backoff_ms (k + 1) default_ms max_ms in
  cool_down h now None default_ms max_ms
    = Some (mk_health false (Some (now + ms * nanos_per_ms)%Z) (k + 1)
              (h_requests h) (h_errors h) (h_last_error h))
  /\ (0 <= ms <= max_ms)%Z
  /\ ms = Z.min (Z.min u64_max (default_ms * 2 ^ Z.min k 6)) max_ms
  /\ ((1 <= k)%Z -> (backoff_ms k default_ms max_ms <= ms)%Z).
Proof.
  intros Hlive Hk Hd Hm Hnow k ms.
  assert (Hms : (0 <= ms <= max_ms)%Z) by (apply backoff_bounds; (done || lia)).
  split_and!; try lia.
  - unfold cool_down, instant_add. rewrite Hlive. fold k. rewrite Z.min_r by (unfold u32_max in *; lia).
    fold ms. unfold nanos_per_ms in *. rewrite (proj2 (Z.ltb_ge _ _)) by lia. done.
  - unfold ms, backoff_ms, sat_mul64. rewrite Z.shiftl_1_l. replace (k + 1 - 1)%Z with k by lia. done.
  - intros H1. apply backoff_mono; [lia|done].
Qed.

Lemma cool_down_backoff_witness :
  cool_down new 0 None 30000 21600000
    = Some (mk_health false (Some 30000000000)%Z 1 0 0 None)
  /\ backoff_ms 9 30000 21600000 = 1920000%Z.
Proof.
  split; [|reflexivity].
  destruct (cool_down_backoff new 0 30000 21600000) as (H & _);
    [reflexivity|vm_compute; split; congruence|vm_compute; split; congruence
    |vm_compute; split; congruence|vm_compute; congruence|exact H].
Defined.

(** A server that asks for the largest wait a [Retry-After] header can hold
    crashes the router: the header is accepted verbatim and no instant lies that
    far ahead, so [cool_down] panics whenever it is obeyed. *)
Theorem retry_after_overflow_panics (h : KeyHealth) (now default_ms max_ms : Z) :
  h_dead h = false -> (0 <= now)%Z ->
  exists ra, classify_status 429 (Some "18446744073709551615"%string) = CoolDown (Some ra)
    /\ cool_down h now (Some ra) default_ms max_ms = None.
Proof.
  intros Hlive Hnow. exists (u64_max * nanos_per_sec)%Z. split; [reflexivity|].
  unfold cool_down, instant_add. rewrite Hlive.
  rewrite (proj2 (Z.ltb_lt _ _)); [done|].
  unfold instant_max, nanos_per_sec, u64_max. lia.
Qed.

Lemma retry_after_overflow_panics_witness :
  cool_down new 0 (Some (u64_max * nanos_per_sec)%Z) 30000 21600000 = None.
Proof.
  destruct (retry_after_overflow_panics new 0 30000 21600000) as (ra & Hc & Hp);
    [reflexivity|lia|]. injection Hc as <-. exact Hp.
Defined.
