(* ===== verification/RouterConfig.v ===== *)
(** * Router configuration and registry

    [crates/router-core/src/config.rs] and [registry.rs]: variable
    interpolation, what a loaded configuration is checked for, and the chains of
    endpoints built from it.  TOML parsing is a parameter of [load_str]. *)
From S2P Require Import Prelude.

(** ** Data *)

Inductive ConfigError :=
| Toml (e : string)
| UnresolvedVar (v : string)
| UnknownProvider (alias provider : string)
| EmptyChain (alias : string)
| NoKeys (provider : string)
| DuplicateAlias (alias : string).

Record ServerConfig := mk_server {
  s_bind : string;
  s_auth_token : option string;
  s_max_body_bytes : Z;
  s_queue_capacity : Z;
}.

Record ProviderConfig := mk_provider {
  p_name : string;
  p_id : string;
  p_base_url : string;
  p_keys : list string;
  p_max_inflight_per_key : Z;
  p_drop_params : list string;
  p_connect_timeout_ms : Z;
  p_first_byte_timeout_ms : Z;
  p_total_timeout_ms : Z;
  p_default_cooldown_ms : Z;
  p_max_cooldown_ms : Z;
}.

Record ChainEntry := mk_entry { e_provider : string; e_model : string }.

Record AliasConfig := mk_alias { a_name : string; a_chain : list ChainEntry }.

Record Config := mk_config {
  c_server : ServerConfig;
  c_providers : list ProviderConfig;
  c_aliases : list AliasConfig;
}.

Definition default_bind : string := "127.0.0.1:4000".
Definition default_max_body : Z := 4000000%Z.
Definition default_queue_capacity : Z := 256%Z.
Definition default_inflight : Z := 4%Z.
Definition default_connect_ms : Z := 3000%Z.
Definition default_first_byte_ms : Z := 20000%Z.
Definition default_total_ms : Z := 300000%Z.
Definition default_cooldown_ms : Z := 30000%Z.
Definition default_max_cooldown_ms : Z := 21600000%Z.

(** ** Interpolation *)

Definition dollar : byte := 36%Z.
Definition open_brace : byte := 123%Z.
Definition close_brace : byte := 125%Z.

(** [str::find("${")] *)
Fixpoint find_open (l : list byte) : option nat :=
  match l with
  | [] => None
  | b :: l' =>
      match l' with
      | b' :: _ =>
          if ((b =? dollar) && (b' =? open_brace))%Z then Some 0 else S <$> find_open l'
      | [] => None
      end
  end.

Section interpolate.
Context (lookup : string -> option string).

(** The loop, with the text written so far and what is left; it ends within a
    step per byte. *)
Fixpoint interpolate_loop (fuel : nat) (out rest : list byte) : result (list byte) ConfigError :=
  match fuel with
  | 0 => Ok (out ++ rest)
  | S fuel' =>
      match find_open rest with
      | None => Ok (out ++ rest)
      | Some start =>
          let out := out ++ take start rest in
          let after := drop (start + 2) rest in
          match position (fun b => (b =? close_brace)%Z) after with
          | None => Ok (out ++ drop start rest)
          | Some e =>
              let name := string_of_bytes (take e after) in
              match lookup name with
              | Some v => interpolate_loop fuel' (out ++ bytes_of_string v) (drop (e + 1) after)
              | None => Err (UnresolvedVar name)
              end
          end
      end
  end.

Definition interpolate (input : string) : result string ConfigError :=
  let bytes := bytes_of_string input in
  out <-? interpolate_loop (S (length bytes)) [] bytes;
  Ok (string_of_bytes out).

(** ** Loading *)

(** [for k in &mut ... { *k = interpolate(k, lookup)?; }] *)
Fixpoint interpolate_all (l : list string) : result (list string) ConfigError :=
  match l with
  | [] => Ok []
  | k :: l' => k' <-? interpolate k; l'' <-? interpolate_all l'; Ok (k' :: l'')
  end.

Definition interpolate_provider (p : ProviderConfig) : result ProviderConfig ConfigError :=
  base_url <-? interpolate (p_base_url p);
  keys <-? interpolate_all (p_keys p);
  Ok (mk_provider (p_name p) (p_id p) base_url keys (p_max_inflight_per_key p)
        (p_drop_params p) (p_connect_timeout_ms p) (p_first_byte_timeout_ms p)
        (p_total_timeout_ms p) (p_default_cooldown_ms p) (p_max_cooldown_ms p)).

Fixpoint interpolate_providers (l : list ProviderConfig)
  : result (list ProviderConfig) ConfigError :=
  match l with
  | [] => Ok []
  | p :: l' =>
      p' <-? interpolate_provider p; l'' <-? interpolate_providers l'; Ok (p' :: l'')
  end.

Definition interpolate_token (s : ServerConfig) : result ServerConfig ConfigError :=
  match s_auth_token s with
  | None => Ok s
  | Some tok =>
      resolved <-? interpolate tok;
      Ok (mk_server (s_bind s)
            (if String.eqb resolved "" then None else Some resolved)
            (s_max_body_bytes s) (s_queue_capacity s))
  end.

(** *** Validation *)

Fixpoint validate_providers (l : list ProviderConfig) : result unit ConfigError :=
  match l with
  | [] => Ok tt
  | p :: l' =>
      match p_keys p with
      | [] => Err (NoKeys (p_name p))
      | _ => validate_providers l'
      end
  end.

Definition known_provider (providers : list ProviderConfig) (name : string) : bool :=
  existsb (fun p => String.eqb (p_name p) name) providers.

Fixpoint validate_chain (providers : list ProviderConfig) (alias : string) (l : list ChainEntry)
  : result unit ConfigError :=
  match l with
  | [] => Ok tt
  | e :: l' =>
      if negb (known_provider providers (e_provider e))
      then Err (UnknownProvider alias (e_provider e))
      else validate_chain providers alias l'
  end.

Fixpoint validate_aliases (providers : list ProviderConfig) (seen : gset string)
    (l : list AliasConfig) : result unit ConfigError :=
  match l with
  | [] => Ok tt
  | a :: l' =>
      if decide (a_name a ∈ seen) then Err (DuplicateAlias (a_name a))
      else match a_chain a with
           | [] => Err (EmptyChain (a_name a))
           | chain =>
               check? validate_chain providers (a_name a) chain;
               validate_aliases providers ({[a_name a]} ∪ seen) l'
           end
  end.

Definition validate (cfg : Config) : result unit ConfigError :=
  check? validate_providers (c_providers cfg);
  validate_aliases (c_providers cfg) ∅ (c_aliases cfg).

(** [toml::from_str] is [from_toml]. *)
Definition load_str (from_toml : string -> result Config string) (src : string)
  : result Config ConfigError :=
  match from_toml src with
  | Err e => Err (Toml e)
  | Ok cfg =>
      server <-? interpolate_token (c_server cfg);
      providers <-? interpolate_providers (c_providers cfg);
      let cfg := mk_config server providers (c_aliases cfg) in
      check? validate cfg;
      Ok cfg
  end.
End interpolate.

(** ** The registry *)

Record Endpoint := mk_endpoint {
  ep_provider_idx : nat;
  ep_key_idx : nat;
  ep_model_id : string;
}.

Record Registry := mk_registry {
  g_cfg : Config;
  g_chains : gmap string (list Endpoint);
  g_key_base : list nat;
  g_key_total : nat;
}.

(** [key_base] and the running total. *)
Fixpoint key_bases (running : nat) (l : list ProviderConfig) : list nat * nat :=
  match l with
  | [] => ([], running)
  | p :: l' =>
      let '(bases, total) := key_bases (running + length (p_keys p)) l' in
      (running :: bases, total)
  end.

Definition entry_endpoints (providers : list ProviderConfig) (e : ChainEntry)
  : option (list Endpoint) :=
  provider_idx ← position (fun p => String.eqb (p_name p) (e_provider e)) providers;
  p ← providers !! provider_idx;
  Some (map (fun key_idx => mk_endpoint provider_idx key_idx (e_model e))
          (seq 0 (length (p_keys p)))).

(** [None] is the panic of [expect("validated at config load")]. *)
Fixpoint chain_endpoints (providers : list ProviderConfig) (chain : list ChainEntry)
  : option (list Endpoint) :=
  match chain with
  | [] => Some []
  | e :: chain' =>
      es ← entry_endpoints providers e;
      rest ← chain_endpoints providers chain';
      Some (es ++ rest)
  end.

Fixpoint build_chains (providers : list ProviderConfig) (chains : gmap string (list Endpoint))
    (l : list AliasConfig) : option (gmap string (list Endpoint)) :=
  match l with
  | [] => Some chains
  | a :: l' =>
      endpoints ← chain_endpoints providers (a_chain a);
      build_chains providers (<[a_name a := endpoints]> chains) l'
  end.

Definition build (cfg : Config) : option Registry :=
  let '(key_base, running) := key_bases 0 (c_providers cfg) in
  chains ← build_chains (c_providers cfg) ∅ (c_aliases cfg);
  Some (mk_registry cfg chains key_base running).

Definition chain (g : Registry) (alias : string) : option (list Endpoint) := g_chains g !! alias.

Definition provider (g : Registry) (idx : nat) : option ProviderConfig :=
  c_providers (g_cfg g) !! idx.

Definition provider_count (g : Registry) : nat := length (c_providers (g_cfg g)).

Definition key (g : Registry) (e : Endpoint) : option string :=
  p ← provider g (ep_provider_idx e); p_keys p !! ep_key_idx e.

Definition key_count (g : Registry) : nat := g_key_total g.

Definition flat_key_index (g : Registry) (provider_idx key_idx : nat) : option nat :=
  base ← g_key_base g !! provider_idx; Some (base + key_idx).

(** ** Interpolation, specified

    A template is literal text and variable references, then a tail without a
    complete reference. *)
Abbreviation segment := (list byte * list byte)%type (only parsing).

Definition render (segs : list segment) (tail : list byte) : list byte :=
  concat (map (fun s => s.1 ++ [dollar; open_brace] ++ s.2 ++ [close_brace]) segs) ++ tail.

Definition segment_ok (s : segment) : Prop :=
  find_open s.1 = None /\ close_brace ∉ s.2.

Definition tail_ok (tail : list byte) : Prop :=
  match find_open tail with
  | None => True
  | Some start => close_brace ∉ drop (start + 2) tail
  end.

Definition template (input : list byte) (segs : list segment) (tail : list byte) : Prop :=
  input = render segs tail /\ Forall segment_ok segs /\ tail_ok tail.

Section interpolation.
Context (lookup : string -> option string).

(** The values are inserted verbatim: what a variable holds is never expanded. *)
Fixpoint expand (segs : list segment) (tail : list byte) : result (list byte) ConfigError :=
  match segs with
  | [] => Ok tail
  | (lit, name) :: segs' =>
      match lookup (string_of_bytes name) with
      | None => Err (UnresolvedVar (string_of_bytes name))
      | Some v => rest <-? expand segs' tail; Ok (lit ++ bytes_of_string v ++ rest)
      end
  end.

Lemma find_open_lit lit k :
  find_open lit = None -> find_open (lit ++ dollar :: open_brace :: k) = Some (length lit).
Proof.
  induction lit as [|b lit IH]; [done|]. intros H. cbn [app]. destruct lit as [|b' lit].
  - cbn. by rewrite andb_false_r.
  - cbn [app find_open] in H |- *. destruct (_ && _); [done|].
    cbn [length]. cbn [app find_open] in IH. rewrite IH; [done|]. by apply fmap_None in H.
Qed.

Lemma position_not_in (b : byte) l k :
  b ∉ l -> position (fun c => (c =? b)%Z) (l ++ b :: k) = Some (length l).
Proof.
  induction l as [|c l IH]; simpl; intros H; [by rewrite Z.eqb_refl|].
  apply not_elem_of_cons in H as [Hne H]. rewrite (proj2 (Z.eqb_neq _ _)) by congruence.
  by rewrite IH.
Qed.

Lemma position_absent (b : byte) l : position (fun c => (c =? b)%Z) l = None <-> b ∉ l.
Proof.
  rewrite position_None. split.
  - intros H Hin. specialize (H b Hin). by rewrite Z.eqb_refl in H.
  - intros H c Hc. apply Z.eqb_neq. by intros ->.
Qed.

Lemma interpolate_loop_spec segs tail out fuel :
  Forall segment_ok segs -> tail_ok tail -> length segs < fuel ->
  interpolate_loop lookup fuel out (render segs tail)
  = (rest <-? expand segs tail; Ok (out ++ rest)).
Proof.
  intros Hsegs Htail. revert out fuel.
  induction Hsegs as [|[lit name] segs [Hlit Hname] _ IH]; intros out fuel Hfuel;
    destruct fuel as [|fuel]; try (simpl in Hfuel; lia); cbn [interpolate_loop].
  - unfold render. cbn [map concat app expand rbind]. unfold tail_ok in Htail.
    destruct (find_open tail) as [start|]; [|done].
    rewrite (proj2 (position_absent _ _) Htail). by rewrite <- app_assoc, take_drop.
  - simpl in Hlit, Hname. set (rest := render segs tail).
    assert (Hr : render ((lit, name) :: segs) tail
              = lit ++ dollar :: open_brace :: (name ++ close_brace :: rest)).
    { unfold rest, render. simpl. rewrite <- !app_assoc. simpl. by rewrite <- !app_assoc. }
    rewrite Hr, find_open_lit by done.
    rewrite take_app_length.
    replace (drop (length lit + 2) (lit ++ dollar :: open_brace :: (name ++ close_brace :: rest)))
      with (name ++ close_brace :: rest)
      by (rewrite drop_app_ge by lia; by replace (length lit + 2 - length lit) with 2 by lia).
    rewrite position_not_in by done. rewrite take_app_length. cbn [expand].
    destruct (lookup (string_of_bytes name)) as [v|]; [|done].
    replace (drop (length name + 1) (name ++ close_brace :: rest)) with rest
      by (rewrite drop_app_ge by lia; by replace (length name + 1 - length name) with 1 by lia).
    unfold rest. rewrite IH by (simpl in Hfuel; lia).
    destruct (expand segs tail); cbn [rbind]; [|done]. by rewrite <- !app_assoc.
Qed.

Lemma find_open_Some l start :
  find_open l = Some start ->
  find_open (take start l) = None /\ l = take start l ++ dollar :: open_brace :: drop (start + 2) l.
Proof.
  revert start. induction l as [|b l IH]; simpl; intros start H; [done|].
  destruct l as [|b' l]; [done|].
  destruct ((b =? dollar) && (b' =? open_brace))%Z eqn:Hb.
  - injection H as <-. apply andb_true_iff in Hb as [->%Z.eqb_eq ->%Z.eqb_eq]. done.
  - apply fmap_Some in H as (s & Hs & ->). destruct (IH s Hs) as [Hn Heq]. cbn [take]. split.
    + destruct s as [|s]; [done|]. cbn [take] in *.
      change (find_open (b :: b' :: take s l)) with
        (if ((b =? dollar) && (b' =? open_brace))%Z then Some 0
         else S <$> find_open (b' :: take s l)).
      by rewrite Hb, Hn.
    + simpl. by f_equal.
Qed.

(** Every input is a template. *)
Lemma template_exists input : exists segs tail, template input segs tail.
Proof.
  induction input as [input IH] using (induction_ltof1 _ length). unfold ltof in IH.
  destruct (find_open input) as [start|] eqn:Ho.
  2: { exists [], input. split_and!; [done|constructor|]. unfold tail_ok. by rewrite Ho. }
  destruct (find_open_Some _ _ Ho) as [Hlit Heq].
  destruct (position (fun b => (b =? close_brace)%Z) (drop (start + 2) input)) as [e|] eqn:Hp.
  2: { exists [], input. split_and!; [done|constructor|]. unfold tail_ok. rewrite Ho.
       by apply position_absent. }
  apply position_Some in Hp as (c & Hc & ->%Z.eqb_eq & Hmin).
  pose proof (take_drop_middle _ _ _ Hc) as Hmid.
  destruct (IH (drop (S e) (drop (start + 2) input))) as (segs & tail & Hr & Hs & Ht).
  { apply lookup_lt_Some in Hc. rewrite !length_drop in *. lia. }
  exists ((take start input, take e (drop (start + 2) input)) :: segs), tail. split_and!; [| |done].
  - unfold render in *. cbn [map concat]. rewrite <- !app_assoc. rewrite <- Hr.
    cbn [app]. rewrite Heq at 1. by rewrite <- Hmid at 1.
  - constructor; [|done]. split; [done|]. simpl. intros Hin.
    apply list_elem_of_lookup in Hin as [j Hj]. apply lookup_take_Some in Hj as [Hj Hlt].
    specialize (Hmin j _ Hlt Hj). by rewrite Z.eqb_refl in Hmin.
Qed.

Lemma length_render segs tail : length segs <= length (render segs tail).
Proof.
  unfold render. rewrite length_app. induction segs as [|[l n] segs IH]; [simpl; lia|].
  cbn [map concat length fst snd]. rewrite !length_app. cbn [length]. lia.
Qed.

(** Every configuration string has a reading as literal text and [${VAR}]
    references, and interpolation replaces each reference by the variable's value
    taken verbatim (a value is never expanded again), fails naming the first
    unset variable, and leaves an unterminated [${] alone. *)
Theorem interpolate_spec (input : string) :
  (exists segs tail, template (bytes_of_string input) segs tail)
  /\ forall segs tail, template (bytes_of_string input) segs tail ->
       interpolate lookup input = (out <-? expand segs tail; Ok (string_of_bytes out)).
Proof.
  split; [apply template_exists|]. intros segs tail (Hin & Hs & Ht). unfold interpolate.
  rewrite Hin, interpolate_loop_spec; [|done|done|pose proof (length_render segs tail); lia].
  by destruct (expand segs tail).
Qed.
End interpolation.

(** ** Validation, specified *)

Definition providers_ok (providers : list ProviderConfig) : Prop :=
  Forall (fun p => p_keys p <> []) providers.

Definition alias_ok (providers : list ProviderConfig) (a : AliasConfig) : Prop :=
  a_chain a <> []
  /\ Forall (fun e => exists p, p ∈ providers /\ p_name p = e_provider e) (a_chain a).

Definition config_ok (cfg : Config) : Prop :=
  providers_ok (c_providers cfg)
  /\ Forall (alias_ok (c_providers cfg)) (c_aliases cfg)
  /\ NoDup (map a_name (c_aliases cfg)).

Lemma validate_providers_spec l : validate_providers l = Ok tt <-> providers_ok l.
Proof.
  unfold providers_ok. induction l as [|p l IH]; simpl; [by split|].
  rewrite Forall_cons. destruct (p_keys p); [|rewrite IH]; naive_solver.
Qed.

Lemma known_provider_spec ps name :
  known_provider ps name = true <-> exists p, p ∈ ps /\ p_name p = name.
Proof.
  unfold known_provider. rewrite existsb_exists. setoid_rewrite String.eqb_eq.
  by setoid_rewrite list_elem_of_In.
Qed.

Lemma validate_chain_spec ps alias l :
  validate_chain ps alias l = Ok tt <->
  Forall (fun e => exists p, p ∈ ps /\ p_name p = e_provider e) l.
Proof.
  induction l as [|e l IH]; simpl; [by split|]. rewrite Forall_cons, <- known_provider_spec, <- IH.
  destruct (known_provider ps (e_provider e)); simpl; naive_solver.
Qed.

Lemma validate_aliases_spec ps seen l :
  validate_aliases ps seen l = Ok tt <->
  Forall (alias_ok ps) l /\ NoDup (map a_name l) /\ forall a, a ∈ l -> a_name a ∉ seen.
Proof.
  revert seen. induction l as [|a l IH]; intros seen; cbn [validate_aliases map].
  - split; [intros _; split_and!; [constructor|constructor|set_solver]|done].
  - rewrite Forall_cons, NoDup_cons. unfold alias_ok at 1.
    destruct (decide (a_name a ∈ seen)) as [Hin|Hout].
    + split; [done|]. intros (_ & _ & H). exfalso. apply (H a); [left|done].
    + destruct (a_chain a) as [|e ch] eqn:Hch; [split; [done|]; naive_solver|].
      rewrite rbind_ok_unit, validate_chain_spec, IH.
      setoid_rewrite elem_of_cons. setoid_rewrite list_elem_of_fmap. set_solver.
Qed.

(** The gate [load_str] puts every configuration through. *)
Lemma validate_ok cfg : validate cfg = Ok tt <-> config_ok cfg.
Proof.
  unfold validate, config_ok. rewrite rbind_ok_unit, validate_providers_spec, validate_aliases_spec.
  set_solver.
Qed.

(** ** The registry, specified *)

(** A key slot that exists. *)
Definition valid_key (ps : list ProviderConfig) (i k : nat) : Prop :=
  exists p, ps !! i = Some p /\ k < length (p_keys p).

Fixpoint keys_before (ps : list ProviderConfig) (i : nat) : nat :=
  match i, ps with
  | S i', p :: ps' => length (p_keys p) + keys_before ps' i'
  | _, _ => 0
  end.

Lemma key_bases_spec n ps bases total :
  key_bases n ps = (bases, total) ->
  total = n + keys_before ps (length ps)
  /\ forall i, i < length ps -> bases !! i = Some (n + keys_before ps i).
Proof.
  revert n bases total. induction ps as [|p ps IH]; simpl; intros n bases total H.
  - simplify_eq. split; [lia|]. intros. lia.
  - destruct (key_bases (n + length (p_keys p)) ps) as [bs t] eqn:Hb. simplify_eq.
    destruct (IH _ _ _ Hb) as [-> Hi]. split; [lia|]. intros [|i] Hlt; simpl; [f_equal; lia|].
    rewrite Hi by lia. f_equal. lia.
Qed.

Lemma keys_before_step ps i p j :
  ps !! i = Some p -> i < j -> keys_before ps i + length (p_keys p) <= keys_before ps j.
Proof.
  revert i j. induction ps as [|q ps IH]; intros [|i] [|j] Hi Hlt; simpl in *; try done; try lia.
  - simplify_eq. lia.
  - specialize (IH i j Hi ltac:(lia)). lia.
Qed.

Lemma flat_bounded ps i k :
  valid_key ps i k -> keys_before ps i + k < keys_before ps (length ps).
Proof.
  intros (p & Hp & Hk). pose proof (lookup_lt_Some _ _ _ Hp).
  pose proof (keys_before_step ps i p (length ps) Hp ltac:(lia)). lia.
Qed.

Lemma flat_injective ps i k j l :
  valid_key ps i k -> valid_key ps j l ->
  keys_before ps i + k = keys_before ps j + l -> i = j /\ k = l.
Proof.
  intros (p & Hp & Hk) (q & Hq & Hl) Heq.
  destruct (Nat.lt_trichotomy i j) as [Hlt|[->|Hlt]].
  - pose proof (keys_before_step ps i p j Hp Hlt). lia.
  - lia.
  - pose proof (keys_before_step ps j q i Hq Hlt). lia.
Qed.

Lemma flat_surjective ps n :
  n < keys_before ps (length ps) -> exists i k, valid_key ps i k /\ keys_before ps i + k = n.
Proof.
  revert n. induction ps as [|p ps IH]; simpl; intros n Hn; [lia|].
  destruct (decide (n < length (p_keys p))).
  - exists 0, n. split; [by exists p|done].
  - destruct (IH (n - length (p_keys p))) as (i & k & (q & Hq & Hk) & Heq); [lia|].
    exists (S i), k. split; [by exists q|]. simpl. lia.
Qed.

(** The keys a chain walks, entry by entry, each with the entry's model. *)
Definition chain_keys (ps : list ProviderConfig) (ch : list ChainEntry) : list (string * string) :=
  concat (map (fun e =>
    match find_first (fun p => String.eqb (p_name p) (e_provider e)) ps with
    | Some p => map (fun k => (k, e_model e)) (p_keys p)
    | None => []
    end) ch).

(** An endpoint stands for a key and a model. *)
Definition stands_for (ps : list ProviderConfig) (ep : Endpoint) (km : string * string) : Prop :=
  valid_key ps (ep_provider_idx ep) (ep_key_idx ep)
  /\ (p ← ps !! ep_provider_idx ep; p_keys p !! ep_key_idx ep) = Some km.1
  /\ ep_model_id ep = km.2.

Lemma position_find_first {A} (p : A -> bool) l :
  find_first p l = position p l ≫= (fun i => l !! i).
Proof.
  induction l as [|x l IH]; simpl; [done|]. destruct (p x); [done|].
  rewrite IH. by destruct (position p l).
Qed.

Lemma entry_endpoints_spec ps e :
  (exists p, p ∈ ps /\ p_name p = e_provider e) ->
  exists eps, entry_endpoints ps e = Some eps
    /\ Forall2 (stands_for ps) eps (chain_keys ps [e]).
Proof.
  intros (p0 & Hin & Hname). unfold entry_endpoints, chain_keys. simpl.
  rewrite position_find_first, app_nil_r.
  destruct (position _ ps) as [i|] eqn:Hp.
  2: { rewrite position_None in Hp. specialize (Hp p0 Hin). by rewrite Hname, String.eqb_refl in Hp. }
  apply position_Some in Hp as (p & Hi & _ & _). simpl. rewrite Hi. simpl.
  eexists. split; [done|]. apply Forall2_fmap_l, Forall2_fmap_r, Forall2_same_length_lookup.
  split; [apply length_seq|]. intros k kidx key Hk Hkey.
  apply lookup_seq in Hk as [-> Hlt]. simpl. split_and!; simpl; [by exists p| |done].
  by rewrite Hi.
Qed.

Lemma chain_endpoints_spec ps ch :
  Forall (fun e => exists p, p ∈ ps /\ p_name p = e_provider e) ch ->
  exists eps, chain_endpoints ps ch = Some eps /\ Forall2 (stands_for ps) eps (chain_keys ps ch).
Proof.
  induction 1 as [|e ch He _ (eps & Heps & Hall)]; simpl; [by exists []|].
  destruct (entry_endpoints_spec ps e He) as (es & -> & Hes). simpl. rewrite Heps. simpl.
  eexists. split; [done|]. unfold chain_keys in *. simpl in *. rewrite app_nil_r in Hes.
  by apply Forall2_app.
Qed.

Lemma build_chains_spec ps chains l :
  Forall (alias_ok ps) l -> NoDup (map a_name l) ->
  exists chains', build_chains ps chains l = Some chains'
    /\ (forall a, a ∈ l -> exists eps, chains' !! a_name a = Some eps
          /\ Forall2 (stands_for ps) eps (chain_keys ps (a_chain a)))
    /\ (forall n, n ∉ map a_name l -> chains' !! n = chains !! n).
Proof.
  intros Hok. revert chains. induction Hok as [|a l [_ Ha] _ IH]; intros chains Hnd; simpl in *.
  - exists chains. split_and!; [done|set_solver|done].
  - apply NoDup_cons in Hnd as [Hnotin Hnd].
    destruct (chain_endpoints_spec ps (a_chain a) Ha) as (eps & -> & Heps). simpl.
    destruct (IH (<[a_name a := eps]> chains) Hnd) as (ch' & Hb & Hin & Hout).
    exists ch'. split_and!; [done| |].
    + intros b [->|Hb']%elem_of_cons; [|by apply Hin].
      exists eps. split; [|done]. rewrite Hout by done. apply lookup_insert_eq.
    + intros n [Hne Hn]%not_elem_of_cons. rewrite Hout by done. by apply lookup_insert_ne.
Qed.

(** From every configuration the loader accepts a registry is built without a
    panic; an alias resolves to the keys of its chain's providers in order, each
    with its model, and an unknown alias to nothing; every endpoint names a key
    that exists; and the flat index numbers the configured keys one to one. *)
Theorem registry_sound (cfg : Config) :
  validate cfg = Ok tt ->
  exists g, build cfg = Some g
    /\ (forall a, a ∈ c_aliases cfg -> exists eps, chain g (a_name a) = Some eps
          /\ Forall2 (fun ep km => key g ep = Some km.1 /\ ep_model_id ep = km.2
                        /\ exists n, flat_key_index g (ep_provider_idx ep) (ep_key_idx ep) = Some n
                             /\ n < key_count g)
               eps (chain_keys (c_providers cfg) (a_chain a)))
    /\ (forall n, n ∉ map a_name (c_aliases cfg) -> chain g n = None)
    /\ (forall n, n < key_count g <-> exists i k, valid_key (c_providers cfg) i k
          /\ flat_key_index g i k = Some n)
    /\ (forall i k j l n, valid_key (c_providers cfg) i k -> valid_key (c_providers cfg) j l ->
          flat_key_index g i k = Some n -> flat_key_index g j l = Some n -> i = j /\ k = l).
Proof.
  intros (Hps & Has & Hnd)%validate_ok. unfold build.
  destruct (key_bases 0 (c_providers cfg)) as [bases total] eqn:Hb.
  destruct (key_bases_spec 0 _ _ _ Hb) as [-> Hbase].
  destruct (build_chains_spec (c_providers cfg) ∅ (c_aliases cfg) Has Hnd) as (chs & -> & Hin & Hout).
  eexists. split; [done|]. unfold chain, key, provider, flat_key_index, key_count. simpl in *.
  assert (Hflat : forall i k, valid_key (c_providers cfg) i k ->
    (base ← bases !! i; Some (base + k)) = Some (keys_before (c_providers cfg) i + k)).
  { intros i k (p & Hp & _). rewrite Hbase; [done|]. by apply lookup_lt_Some in Hp. }
  split_and!.
  - intros a Ha. destruct (Hin a Ha) as (eps & Heps & Hall). exists eps. split; [done|].
    eapply Forall2_impl; [exact Hall|]. intros ep km (Hv & Hk & Hm). split_and!; [done..|].
    eexists. split; [by apply Hflat|]. by apply flat_bounded.
  - intros n Hn. rewrite Hout by done. apply lookup_empty.
  - intros n. split.
    + intros (i & k & Hv & <-)%flat_surjective. exists i, k. split; [done|]. by apply Hflat.
    + intros (i & k & Hv & Hf). rewrite Hflat in Hf by done. simplify_eq. by apply flat_bounded.
  - intros i k j l n Hv Hw Hi Hj. rewrite Hflat in Hi, Hj by done. simplify_eq.
    by apply (flat_injective (c_providers cfg)).
Qed.

(** Two providers, one of them with two keys. *)
Definition example_config : Config :=
  let prov name keys := mk_provider name "" "http://x" keys 4 [] 1 1 1 1 1 in
  mk_config (mk_server default_bind None 1 1)
    [prov "p" ["k0"; "k1"]; prov "q" ["k2"]]%string
    [mk_alias "a" [mk_entry "q" "m1"; mk_entry "p" "m2"]]%string.

Lemma registry_sound_witness :
  exists g eps, build example_config = Some g /\ chain g "a" = Some eps
    /\ map (key g) eps = [Some "k2"; Some "k0"; Some "k1"]%string
    /\ flat_key_index g 1 0 = Some 2.
Proof.
  destruct (registry_sound example_config) as (g & Hg & Hin & _); [reflexivity|].
  destruct (Hin (mk_alias "a" [mk_entry "q" "m1"; mk_entry "p" "m2"]%string)) as (eps & Heps & _).
  { left. }
  vm_compute in Hg. injection Hg as <-. vm_compute in Heps. injection Heps as <-.
  do 2 eexists. split; [reflexivity|]. split; [reflexivity|]. split; reflexivity.
Defined.

(** The loader accepts exactly the configurations whose providers all have a
    key, whose alias names are distinct, and whose chains are non-empty and name
    configured providers. *)
Theorem validate_spec (cfg : Config) : validate cfg = Ok tt <-> config_ok cfg.
Proof. apply validate_ok. Qed.
