(* ===== verification/Mosaic.v ===== *)
(** * The mosaic

    [crates/amber/src/mosaic.rs]: the read-only projection of the desktop app's
    layout sidecar that [amber web] renders: structural validation, the pane-name
    grammar, pruning of leaves that are not live sessions, appending of sessions
    the sidecar never recorded.  A hash map is a [gmap]; a 32-bit float is its bit
    pattern; the JSON object [render] builds is the record [Rendered], with the
    fields of the source. *)
From S2P Require Import Prelude Utf8 Wire.

(** ** Limits ([layout_file.rs]) *)
Definition LAYOUT_MAX_WORKSPACES : nat := 256.
Definition LAYOUT_MAX_TABS_PER_WORKSPACE : nat := 1024.
Definition LAYOUT_MAX_MAP_ENTRIES : nat := 4096.
Definition LAYOUT_MAX_TREE_DEPTH : nat := 64.
Definition LAYOUT_MAX_TREE_NODES : nat := 4096.
Definition LAYOUT_MAX_STRING_BYTES : Z := (16 * 1024)%Z.

(** ** Data *)

Inductive Node :=
| Leaf (pane_id : string)
| Split (dir : string) (ratio : Z) (a b : Node).

Record FrozenEntry := mk_frozen { fe_note : option string }.

Record TabLayout := mk_tab { t_tree : option Node; t_label : option string }.

Record WsLayout := mk_ws {
  w_active_tab : Z;
  w_tabs : gmap string TabLayout;
  w_label : option string;
  w_tab_order : option (list Z);
}.

Record LayoutFile := mk_layout {
  l_version : Z;
  l_active_workspace : Z;
  l_workspaces : gmap string WsLayout;
  l_frozen : gmap string FrozenEntry;
}.

Definition default_active_tab : Z := 1%Z.
Definition default_active_workspace : Z := 1%Z.

(** [LayoutFile::default] *)
Definition default_layout : LayoutFile := mk_layout 1 1 ∅ ∅.

(** ** Validation *)

Definition bounded_string (value : string) : bool :=
  (Z.of_nat (String.length value) <=? LAYOUT_MAX_STRING_BYTES)%Z.

Definition bounded_opt (o : option string) : bool :=
  match o with Some s => bounded_string s | None => true end.

(** [ratio.is_finite() && (0.0..=1.0).contains(ratio)], on the bit pattern: the
    patterns of 0.0 to 1.0 in order, and -0.0. *)
Definition ratio_ok (bits : Z) : bool :=
  between 0 1065353216 bits || (bits =? 2147483648)%Z.

Definition dir_ok (dir : string) : bool := String.eqb dir "h" || String.eqb dir "v".

(** [validate_tree]: the pending stack and the node count of the whole file.
    Every round counts a node, so the node limit is fuel enough. *)
Fixpoint validate_pending (fuel : nat) (pending : list (Node * nat)) (count : nat) : option nat :=
  match pending with
  | [] => Some count
  | (node, depth) :: pending' =>
      match fuel with
      | 0 => None
      | S fuel' =>
          if LAYOUT_MAX_TREE_DEPTH <? depth then None
          else
            let count := count + 1 in
            if LAYOUT_MAX_TREE_NODES <? count then None
            else
              match node with
              | Leaf pane_id =>
                  if bounded_string pane_id then validate_pending fuel' pending' count else None
              | Split dir ratio a b =>
                  if negb (dir_ok dir) || negb (ratio_ok ratio) then None
                  else validate_pending fuel' ((b, depth + 1) :: (a, depth + 1) :: pending') count
              end
      end
  end.

Definition validate_tree (root : Node) (count : nat) : option nat :=
  validate_pending (S LAYOUT_MAX_TREE_NODES) [(root, 1)] count.

Fixpoint validate_tabs (tabs : list (string * TabLayout)) (count : nat) : option nat :=
  match tabs with
  | [] => Some count
  | (tab_id, tab) :: tabs' =>
      if negb (bounded_string tab_id) || negb (bounded_opt (t_label tab)) then None
      else
        match t_tree tab with
        | Some tree => count' ← validate_tree tree count; validate_tabs tabs' count'
        | None => validate_tabs tabs' count
        end
  end.

Fixpoint validate_workspaces (l : list (string * WsLayout)) (count : nat) : option nat :=
  match l with
  | [] => Some count
  | (workspace_id, workspace) :: l' =>
      if negb (bounded_string workspace_id)
         || (LAYOUT_MAX_TABS_PER_WORKSPACE <? size (w_tabs workspace))
         || match w_tab_order workspace with
            | Some order => LAYOUT_MAX_TABS_PER_WORKSPACE <? length order
            | None => false
            end
         || negb (bounded_opt (w_label workspace))
      then None
      else count' ← validate_tabs (map_to_list (w_tabs workspace)) count;
           validate_workspaces l' count'
  end.

Definition validate_layout (layout : LayoutFile) : bool :=
  if negb ((l_version layout =? 1) || (l_version layout =? 2))%Z
     || (LAYOUT_MAX_WORKSPACES <? size (l_workspaces layout))
     || (LAYOUT_MAX_MAP_ENTRIES <? size (l_frozen layout))
  then false
  else
    match validate_workspaces (map_to_list (l_workspaces layout)) 0 with
    | None => false
    | Some _ =>
        forallb (fun kv => bounded_string kv.1 && bounded_opt (fe_note kv.2))
          (map_to_list (l_frozen layout))
    end.

(** ** Pane names *)

(** Digits only: no leading sign. *)
Definition num (s : list byte) : option Z :=
  match s with
  | [] => None
  | _ => if forallb is_digit s then parse_uint u32_max s else None
  end.

Fixpoint strip_prefix (prefix l : list byte) : option (list byte) :=
  match prefix, l with
  | [], _ => Some l
  | p :: prefix', b :: l' => if (p =? b)%Z then strip_prefix prefix' l' else None
  | _, [] => None
  end.

Definition dash : byte := 45%Z.

Definition parse_pane_name (name : string) : option (Z * Z * Z) :=
  rest ← strip_prefix (bytes_of_string "amber-") (bytes_of_string name);
  match split_on dash rest with
  | ws :: tab :: ord :: id :: more =>
      ws ← num ws;
      tab ← num tab;
      ord ← num ord;
      if match more with [] => false | _ => true end
         || match id with [] => true | _ => false end
         || negb (forallb is_ascii_alphanumeric id)
      then None
      else Some (ws, tab, ord)
  | _ => None
  end.

(** [n.to_string()] *)
Definition to_string (n : Z) : string := string_of_bytes (dec n).

(** [k.parse::<u32>().ok()] *)
Definition parse_u32 (k : string) : option Z := parse_uint u32_max (bytes_of_string k).

(** ** Trees *)

Fixpoint prune_tree (n : Node) (live : gset string) : option Node :=
  match n with
  | Leaf pane_id => if decide (pane_id ∈ live) then Some n else None
  | Split dir ratio a b =>
      match prune_tree a live, prune_tree b live with
      | None, None => None
      | Some x, None | None, Some x => Some x
      | Some x, Some y => Some (Split dir ratio x y)
      end
  end.

Fixpoint leaves (n : Node) : list string :=
  match n with
  | Leaf pane_id => [pane_id]
  | Split _ _ a b => leaves a ++ leaves b
  end.

(** the bit pattern of [0.66f32] *)
Definition append_ratio : Z := 1059648963%Z.

Definition append_leaf (tree : option Node) (pane_id : string) : Node :=
  match tree with
  | None => Leaf pane_id
  | Some t => Split "h" append_ratio t (Leaf pane_id)
  end.

(** ** Rendering *)

Record RenderedTab := mk_rendered_tab {
  rt_tab : Z;
  rt_label : option string;
  rt_tree : Node;
}.

Record RenderedWs := mk_rendered_ws {
  rw_ws : Z;
  rw_label : option string;
  rw_active_tab : Z;
  rw_tabs : list RenderedTab;
}.

Record Rendered := mk_rendered {
  rd_active_workspace : Z;
  rd_workspaces : list RenderedWs;
  rd_frozen : list string;
}.

(** The sessions whose name is a pane's, each under its (workspace, tab). *)
Definition group_by_tab (sessions : list SessionInfo) : gmap (Z * Z) (list string) :=
  sort_by string_leb <$>
  foldl (fun m s =>
    match parse_pane_name (si_name s) with
    | Some (ws, tab, _) =>
        <[(ws, tab) := default [] (m !! (ws, tab)) ++ [si_name s]]> m
    | None => m
    end) ∅ sessions.

Definition live_names (sessions : list SessionInfo) : list string :=
  omap (fun s => match parse_pane_name (si_name s) with
                 | Some _ => Some (si_name s)
                 | None => None
                 end) sessions.

(** [order.iter().position(|o| o == t).unwrap_or(usize::MAX)], compared. *)
Definition order_leb (order : list Z) (t u : Z) : bool :=
  match position (Z.eqb t) order, position (Z.eqb u) order with
  | Some i, Some j => i <=? j
  | Some _, None => true
  | None, Some _ => false
  | None, None => true
  end.

(** A tab's tree: the recorded leaves that are live, then the live sessions of
    the tab that are not among them. *)
Definition tab_tree (recorded : option Node) (live : gset string) (names : list string)
  : option Node :=
  let tree := recorded ≫= fun t => prune_tree t live in
  let placed := match tree with Some t => leaves t | None => [] end in
  foldl (fun tree n =>
    if existsb (String.eqb n) placed then tree else Some (append_leaf tree n)) tree names.

Definition render_tab (wl : option WsLayout) (live : gset string)
    (by_tab : gmap (Z * Z) (list string)) (ws tab : Z) : option RenderedTab :=
  let tl := wl ≫= fun w => w_tabs w !! to_string tab in
  t ← tab_tree (tl ≫= t_tree) live (default [] (by_tab !! (ws, tab)));
  Some (mk_rendered_tab tab (tl ≫= t_label) t).

Definition tab_ids (wl : option WsLayout) (by_tab : gmap (Z * Z) (list string)) (ws : Z) : list Z :=
  let recorded := match wl with
                  | Some w => omap (fun kv => parse_u32 kv.1) (map_to_list (w_tabs w))
                  | None => []
                  end in
  let live := omap (fun kv => if (kv.1.1 =? ws)%Z then Some kv.1.2 else None)
                (map_to_list by_tab) in
  let ids := sort_ids (recorded ++ live) in
  match wl ≫= w_tab_order with
  | Some order => sort_by (order_leb order) ids
  | None => ids
  end.

Definition render_ws (f : LayoutFile) (live : gset string)
    (by_tab : gmap (Z * Z) (list string)) (ws : Z) : option RenderedWs :=
  let wl := l_workspaces f !! to_string ws in
  match omap (render_tab wl live by_tab ws) (tab_ids wl by_tab ws) with
  | [] => None
  | out_tabs =>
      Some (mk_rendered_ws ws (wl ≫= w_label)
              (match wl with Some w => w_active_tab w | None => 0%Z end) out_tabs)
  end.

Definition ws_ids (f : LayoutFile) (by_tab : gmap (Z * Z) (list string)) : list Z :=
  sort_ids (omap (fun kv => parse_u32 kv.1) (map_to_list (l_workspaces f))
            ++ map (fun kv => kv.1.1) (map_to_list by_tab)).

Definition render_valid (f : LayoutFile) (sessions : list SessionInfo) : Rendered :=
  let by_tab := group_by_tab sessions in
  let live := list_to_set (live_names sessions) : gset string in
  mk_rendered (l_active_workspace f)
    (omap (render_ws f live by_tab) (ws_ids f by_tab))
    (sort_by string_leb (map fst (map_to_list (l_frozen f)))).

Definition render (f : LayoutFile) (sessions : list SessionInfo) : Rendered :=
  if negb (validate_layout f) then render_valid default_layout sessions
  else render_valid f sessions.

(** ** Trees, specified *)

Fixpoint nodes (n : Node) : nat :=
  match n with
  | Leaf _ => 1
  | Split _ _ a b => 1 + nodes a + nodes b
  end.

Fixpoint depth_of (n : Node) : nat :=
  match n with
  | Leaf _ => 1
  | Split _ _ a b => 1 + Nat.max (depth_of a) (depth_of b)
  end.

Fixpoint node_ok (n : Node) : bool :=
  match n with
  | Leaf pane_id => bounded_string pane_id
  | Split dir ratio a b => dir_ok dir && ratio_ok ratio && node_ok a && node_ok b
  end.

Fixpoint pending_nodes (pending : list (Node * nat)) : nat :=
  match pending with
  | [] => 0
  | nd :: pending' => nodes nd.1 + pending_nodes pending'
  end.

Definition pending_ok (pending : list (Node * nat)) : Prop :=
  Forall (fun nd => node_ok nd.1 = true /\ nd.2 + depth_of nd.1 <= S LAYOUT_MAX_TREE_DEPTH) pending.

Lemma nodes_pos n : 1 <= nodes n.
Proof. destruct n; simpl; lia. Qed.

(** The worklist accepts exactly the trees within the bounds, and counts their
    nodes. *)
Lemma validate_pending_spec fuel pending count :
  LAYOUT_MAX_TREE_NODES < fuel + count ->
  forall total, validate_pending fuel pending count = Some total <->
    pending_ok pending /\ total = count + pending_nodes pending
    /\ (pending <> [] -> total <= LAYOUT_MAX_TREE_NODES).
Proof.
  revert pending count. induction fuel as [|fuel IH]; intros [|[n d] pending] count Hfuel total;
    unfold pending_ok in *; cbn [validate_pending pending_nodes fst snd].
  - split; [intros [= <-]; split_and!; [constructor|simpl; lia|done]|]. simpl. intuition. f_equal. lia.
  - split; [done|]. intros (_ & -> & Hle). specialize (Hle ltac:(done)). lia.
  - split; [intros [= <-]; split_and!; [constructor|simpl; lia|done]|]. simpl. intuition. f_equal. lia.
  - rewrite Forall_cons. cbn [fst snd].
    assert (Hd1 : 1 <= depth_of n) by (destruct n; simpl; lia). pose proof (nodes_pos n) as Hn1.
    destruct (Nat.ltb_spec LAYOUT_MAX_TREE_DEPTH d) as [Hdeep|Hd].
    { split; [done|]. intros ([[_ Hd] _] & _). lia. }
    destruct (Nat.ltb_spec LAYOUT_MAX_TREE_NODES (count + 1)) as [Hmany|Hc].
    { split; [done|]. intros (_ & -> & Hle). specialize (Hle ltac:(done)). lia. }
    destruct n as [pane|dir ratio a b]; cbn [node_ok depth_of nodes].
    + destruct (bounded_string pane) eqn:Hb; [|naive_solver].
      rewrite IH by lia. split.
      * intros (Hok & -> & Hle). split_and!; try done; try lia.
        intros _. destruct pending; [simpl; lia|]. by apply Hle.
      * intros ([_ Hok] & -> & Hle). specialize (Hle ltac:(done)). split_and!; try done; lia.
    + destruct (dir_ok dir && ratio_ok ratio) eqn:Hdr.
      * apply andb_true_iff in Hdr as [-> ->]. cbn [negb orb]. rewrite IH by lia.
        rewrite !Forall_cons. cbn [fst snd pending_nodes].
        rewrite !andb_true_iff. split.
        -- intros (([Hb ?] & [Ha ?] & Hok) & -> & Hle). split_and!; try done; try lia.
           intros _. specialize (Hle ltac:(done)). lia.
        -- intros ([[[[_ Ha] Hb] Hdep] Hok] & -> & Hle).
           specialize (Hle ltac:(done)). split_and!; try done; lia.
      * assert (negb (dir_ok dir) || negb (ratio_ok ratio) = true) as -> by
          (destruct (dir_ok dir), (ratio_ok ratio); done).
        split; [done|]. intros ([[Hok _] _] & _).
        rewrite !andb_true_iff in Hok. naive_solver.
Qed.

(** The iterative check of a split tree is the recursive one: it accepts
    exactly the trees with well-formed nodes, depth at most 64 and, with the trees
    counted before, at most 4096 nodes, and it counts them exactly. *)
Theorem validate_tree_spec (root : Node) (count total : nat) :
  validate_tree root count = Some total <->
  node_ok root = true /\ depth_of root <= LAYOUT_MAX_TREE_DEPTH
  /\ total = count + nodes root /\ total <= LAYOUT_MAX_TREE_NODES.
Proof.
  unfold validate_tree. rewrite validate_pending_spec by lia.
  unfold pending_ok. rewrite Forall_cons. cbn [fst snd pending_nodes]. rewrite Nat.add_0_r.
  split.
  - intros ([[Hn Hd] _] & -> & Hle). specialize (Hle ltac:(done)). split_and!; try done; lia.
  - intros (Hn & Hd & -> & Hle). split_and!; try done; lia.
Qed.

Definition tree_leaves (tree : option Node) : list string :=
  match tree with Some t => leaves t | None => [] end.

(** Pruning keeps the live leaves, in order. *)
Lemma prune_leaves n live :
  tree_leaves (prune_tree n live) = filter (fun p => p ∈ live) (leaves n).
Proof.
  induction n as [p|dir ratio a IHa b IHb]; simpl.
  - rewrite filter_cons. destruct (decide (p ∈ live)); done.
  - rewrite filter_app, <- IHa, <- IHb.
    destruct (prune_tree a live), (prune_tree b live); simpl; by rewrite ?app_nil_r.
Qed.

Lemma leaves_not_nil n : leaves n <> [].
Proof.
  induction n as [p|dir ratio a IHa b IHb]; simpl; [done|]. intros H.
  by apply app_eq_nil in H as [H _].
Qed.

Lemma append_leaves_some tree p :
  tree_leaves (Some (append_leaf tree p)) = tree_leaves tree ++ [p].
Proof. by destruct tree. Qed.

(** The leaves of a rendered tab: the recorded live ones, then what was missing. *)
Definition placed_leaves (recorded : option Node) (live : gset string) : list string :=
  filter (fun p => p ∈ live) (tree_leaves recorded).

Lemma append_missing tree placed names :
  tree_leaves (foldl (fun tree n =>
    if existsb (String.eqb n) placed then tree else Some (append_leaf tree n)) tree names)
  = tree_leaves tree ++ filter (fun n => n ∉ placed) names.
Proof.
  revert tree. induction names as [|n names IH]; intros tree; simpl; [by rewrite app_nil_r|].
  rewrite filter_cons, IH. destruct (existsb (String.eqb n) placed) eqn:He.
  - apply existsb_exists in He as (m & Hm%list_elem_of_In & ->%String.eqb_eq).
    by destruct (decide (m ∉ placed)).
  - destruct (decide (n ∉ placed)) as [|Hin]; [by rewrite append_leaves_some, <- app_assoc|].
    exfalso. apply Hin. intros Hn. apply not_true_iff_false in He. apply He, existsb_exists.
    exists n. by rewrite <- list_elem_of_In, String.eqb_refl.
Qed.

Lemma tab_tree_leaves recorded live names :
  tree_leaves (tab_tree recorded live names)
  = placed_leaves recorded live
    ++ filter (fun n => n ∉ placed_leaves recorded live) names.
Proof.
  assert (Htree : tree_leaves (recorded ≫= fun t => prune_tree t live) = placed_leaves recorded live).
  { unfold placed_leaves. destruct recorded; simpl; [apply prune_leaves|done]. }
  unfold tab_tree. cbv zeta. rewrite append_missing.
  change (match _ with Some t => leaves t | None => [] end) with
    (tree_leaves (recorded ≫= fun t => prune_tree t live)).
  by rewrite Htree.
Qed.

(** *** Grouping *)

Definition names_of (k : Z * Z) (sessions : list SessionInfo) : list string :=
  omap (fun s => match parse_pane_name (si_name s) with
                 | Some (ws, tab, _) => if decide ((ws, tab) = k) then Some (si_name s) else None
                 | None => None
                 end) sessions.

Lemma group_by_tab_lookup sessions k :
  group_by_tab sessions !! k =
    match names_of k sessions with [] => None | l => Some (sort_by string_leb l) end.
Proof.
  unfold group_by_tab. rewrite lookup_fmap.
  assert (Hgen : forall m, foldl (fun (m : gmap (Z * Z) (list string)) s =>
    match parse_pane_name (si_name s) with
    | Some (ws, tab, _) => <[(ws, tab) := default [] (m !! (ws, tab)) ++ [si_name s]]> m
    | None => m
    end) m sessions !! k =
    match names_of k sessions with
    | [] => m !! k
    | l => Some (default [] (m !! k) ++ l)
    end).
  { induction sessions as [|s sessions IH]; intros m; simpl; [done|]. rewrite IH.
    destruct (parse_pane_name (si_name s)) as [[[ws tab] ord]|]; [|done].
    destruct (decide ((ws, tab) = k)) as [<-|Hne].
    - rewrite lookup_insert_eq. simpl. destruct (names_of _ sessions); [done|].
      by rewrite <- app_assoc.
    - rewrite lookup_insert_ne by done. done. }
  rewrite Hgen, lookup_empty. by destruct (names_of k sessions).
Qed.

Lemma names_of_spec k sessions n :
  n ∈ names_of k sessions <->
  exists s ord, s ∈ sessions /\ si_name s = n /\ parse_pane_name n = Some (k.1, k.2, ord).
Proof.
  unfold names_of. rewrite list_elem_of_omap. split.
  - intros (s & Hs & Hn). destruct (parse_pane_name (si_name s)) as [[[ws tab] ord]|] eqn:Hp; [|done].
    destruct (decide ((ws, tab) = k)) as [<-|]; [|done]. simplify_eq. by exists s, ord.
  - intros (s & ord & Hs & <- & Hp). exists s. split; [done|]. rewrite Hp.
    rewrite decide_True; [done|]. by destruct k.
Qed.

Lemma grouped_spec sessions k n :
  n ∈ default [] (group_by_tab sessions !! k) <->
  exists s ord, s ∈ sessions /\ si_name s = n /\ parse_pane_name n = Some (k.1, k.2, ord).
Proof.
  rewrite group_by_tab_lookup, <- names_of_spec. destruct (names_of k sessions) eqn:He; [done|].
  cbn [default]. apply elem_of_sort_by.
Qed.

Lemma live_names_spec sessions n :
  n ∈ live_names sessions <->
  exists s, s ∈ sessions /\ si_name s = n /\ is_Some (parse_pane_name n).
Proof.
  unfold live_names. rewrite list_elem_of_omap. split.
  - intros (s & Hs & Hn). destruct (parse_pane_name (si_name s)) eqn:Hp; [|done]. simplify_eq.
    exists s. by rewrite Hp.
  - intros (s & Hs & <- & [k Hp]). exists s. by rewrite Hp.
Qed.

(** *** Ids *)

Lemma elem_of_ws_ids f m ws :
  (exists tab names, m !! (ws, tab) = Some names) -> ws ∈ ws_ids f m.
Proof.
  intros (tab & names & Hm). unfold ws_ids. rewrite elem_of_sort_ids, elem_of_app. right.
  apply list_elem_of_fmap. exists ((ws, tab), names). split; [done|]. by apply elem_of_map_to_list.
Qed.

Lemma elem_of_tab_ids wl m ws tab names : m !! (ws, tab) = Some names -> tab ∈ tab_ids wl m ws.
Proof.
  intros Hm. unfold tab_ids.
  match goal with |- tab ∈ match _ with Some order => sort_by _ ?ids | None => _ end =>
    assert (Hin : tab ∈ ids) end.
  { rewrite elem_of_sort_ids, elem_of_app. right. apply list_elem_of_omap.
    exists ((ws, tab), names). split; [by apply elem_of_map_to_list|]. simpl. by rewrite Z.eqb_refl. }
  destruct (wl ≫= w_tab_order); [by apply elem_of_sort_by|done].
Qed.

Lemma tab_ids_NoDup wl m ws : NoDup (tab_ids wl m ws).
Proof.
  unfold tab_ids. destruct (wl ≫= w_tab_order); [rewrite sort_by_perm|]; apply sort_ids_NoDup.
Qed.

Lemma NoDup_omap_key {A B K} (f : A -> option B) (key : B -> K) (l : list A) (ida : A -> K) :
  (forall a b, f a = Some b -> key b = ida a) -> NoDup (map ida l) -> NoDup (map key (omap f l)).
Proof.
  intros Hkey. induction l as [|a l IH]; simpl; intros Hnd; [constructor|].
  apply NoDup_cons in Hnd as [Hn Hnd].
  destruct (f a) as [b|] eqn:Hf; simpl; [|by apply IH]. constructor; [|by apply IH].
  rewrite (Hkey a b Hf). intros (b' & Heq & Hb')%list_elem_of_fmap. apply Hn.
  apply list_elem_of_omap in Hb' as (a' & Ha' & Hf'). apply Hkey in Hf'.
  rewrite Heq, Hf'. by apply list_elem_of_fmap_2.
Qed.

(** What [render] works on: the file itself, or the empty layout. *)
Definition effective (f : LayoutFile) : LayoutFile :=
  if validate_layout f then f else default_layout.

Lemma default_valid : validate_layout default_layout = true.
Proof. vm_compute. reflexivity. Qed.

Lemma render_effective f sessions : render f sessions = render_valid (effective f) sessions.
Proof. unfold render, effective. by destruct (validate_layout f). Qed.

(** The recorded tree of a tab. *)
Definition recorded_tree (f : LayoutFile) (ws tab : Z) : option Node :=
  w ← l_workspaces f !! to_string ws; t ← w_tabs w !! to_string tab; t_tree t.

Lemma rendered_tab_tree f live m ws tab t :
  render_tab (l_workspaces f !! to_string ws) live m ws tab = Some t ->
  rt_tab t = tab
  /\ Some (rt_tree t) = tab_tree (recorded_tree f ws tab) live (default [] (m !! (ws, tab))).
Proof.
  unfold render_tab, recorded_tree. intros H. apply bind_Some in H as (tr & Htr & [= <-]).
  split; [done|]. simpl. rewrite <- Htr. f_equal.
  destruct (l_workspaces f !! to_string ws); [|done]. simpl.
  by destruct (w_tabs w !! to_string tab).
Qed.

Lemma tab_tree_Some recorded live names n :
  n ∈ names -> n ∈ tree_leaves (tab_tree recorded live names).
Proof.
  intros Hn. rewrite tab_tree_leaves, elem_of_app, list_elem_of_filter.
  destruct (decide (n ∈ placed_leaves recorded live)); auto.
Qed.

(** No live pane is lost: whatever the sidecar holds (also when it is
    malformed, stale, or disagrees with the daemon), every session whose name is a
    pane's is a leaf of the rendered tab its name says. *)
Theorem render_complete (f : LayoutFile) (sessions : list SessionInfo) (s : SessionInfo)
    (ws tab ord : Z) :
  s ∈ sessions -> parse_pane_name (si_name s) = Some (ws, tab, ord) ->
  exists w t, w ∈ rd_workspaces (render f sessions) /\ rw_ws w = ws
    /\ t ∈ rw_tabs w /\ rt_tab t = tab /\ si_name s ∈ leaves (rt_tree t).
Proof.
  intros Hs Hp. rewrite render_effective. generalize (effective f). clear f. intros f.
  assert (Hin : si_name s ∈ default [] (group_by_tab sessions !! (ws, tab)))
    by (apply grouped_spec; by exists s, ord).
  destruct (group_by_tab sessions !! (ws, tab)) as [names|] eqn:Hm; [|set_solver]. simpl in Hin.
  unfold render_valid. cbn [rd_workspaces]. set (live := list_to_set _).
  set (wl := l_workspaces f !! to_string ws).
  destruct (render_tab wl live (group_by_tab sessions) ws tab) as [t|] eqn:Ht.
  2: { exfalso. unfold render_tab in Ht. rewrite Hm in Ht. simpl in Ht.
       apply bind_None in Ht as [Ht|(tr & _ & [=])].
       pose proof (tab_tree_Some ((wl ≫= fun w => w_tabs w !! to_string tab) ≫= t_tree) live
         names _ Hin) as H. rewrite Ht in H. by apply elem_of_nil in H. }
  assert (Htabs : t ∈ omap (render_tab wl live (group_by_tab sessions) ws)
                    (tab_ids wl (group_by_tab sessions) ws)).
  { apply list_elem_of_omap. exists tab. split; [by apply (elem_of_tab_ids _ _ _ _ names)|done]. }
  destruct (rendered_tab_tree f _ _ _ _ _ Ht) as [Htab Htree].
  exists (mk_rendered_ws ws (wl ≫= w_label)
    (match wl with Some w => w_active_tab w | None => 0%Z end)
    (omap (render_tab wl live (group_by_tab sessions) ws)
       (tab_ids wl (group_by_tab sessions) ws))), t.
  split_and!; try done.
  - apply list_elem_of_omap. exists ws. split; [by apply elem_of_ws_ids; eauto|].
    unfold render_ws. fold wl. destruct (omap _ _); [by apply elem_of_nil in Htabs|done].
  - rewrite Hm in Htree. simpl in Htree.
    pose proof (tab_tree_Some (recorded_tree f ws tab) live names _ Hin) as H.
    by rewrite <- Htree in H.
Qed.

Lemma render_ws_inv f live m ws w :
  render_ws f live m ws = Some w ->
  rw_ws w = ws
  /\ rw_tabs w = omap (render_tab (l_workspaces f !! to_string ws) live m ws)
                   (tab_ids (l_workspaces f !! to_string ws) m ws).
Proof. unfold render_ws. destruct (omap _ _); [done|]. by intros [= <-]. Qed.

(** The mosaic shows nothing else: each workspace and each of its tabs is
    rendered once, and a tab's leaves are the recorded ones that are live sessions,
    in the recorded order, followed by the tab's own sessions missing there. *)
Theorem render_sound (f : LayoutFile) (sessions : list SessionInfo) :
  let m := render f sessions in
  NoDup (map rw_ws (rd_workspaces m))
  /\ forall w, w ∈ rd_workspaces m ->
       NoDup (map rt_tab (rw_tabs w))
       /\ forall t, t ∈ rw_tabs w ->
            let recorded := filter (fun p => p ∈ live_names sessions)
                              (tree_leaves (recorded_tree (effective f) (rw_ws w) (rt_tab t))) in
            exists own, leaves (rt_tree t) = recorded ++ filter (fun n => n ∉ recorded) own
              /\ (forall n, n ∈ own <-> exists s ord, s ∈ sessions /\ si_name s = n
                    /\ parse_pane_name n = Some (rw_ws w, rt_tab t, ord)).
Proof.
  intros m. unfold m. rewrite render_effective. generalize (effective f). clear f m. intros f.
  unfold render_valid. cbn [rd_workspaces]. set (live := list_to_set _). split.
  - apply (NoDup_omap_key _ _ _ id); [by intros ws w [? _]%render_ws_inv|].
    rewrite list_fmap_id. apply sort_ids_NoDup.
  - intros w (ws & _ & Hw)%list_elem_of_omap. apply render_ws_inv in Hw as [Hws Htabs].
    rewrite Htabs. split.
    + apply (NoDup_omap_key _ _ _ id); [by intros tab t [? _]%rendered_tab_tree|].
      rewrite list_fmap_id. apply tab_ids_NoDup.
    + intros t (tab & _ & Ht)%list_elem_of_omap. apply rendered_tab_tree in Ht as [Htab Htree].
      cbv zeta. rewrite Hws, Htab.
      exists (default [] (group_by_tab sessions !! (ws, tab))). split.
      * change (leaves (rt_tree t)) with (tree_leaves (Some (rt_tree t))).
        rewrite Htree, tab_tree_leaves. unfold placed_leaves.
        assert (Hf : forall l : list string, filter (fun p => p ∈ live) l
                       = filter (fun p => p ∈ live_names sessions) l).
        { intros l. apply list_filter_iff. intros p. unfold live. by rewrite elem_of_list_to_set. }
        by rewrite Hf.
      * intros n. rewrite grouped_spec. done.
Qed.

Definition example_session (name : string) : SessionInfo :=
  mk_session_info name "" "shell" true None None 0 None None 80 24 0.

Lemma render_complete_witness :
  let m := render default_layout [example_session "amber-2-3-1-a9"; example_session "s1"] in
  exists w t, w ∈ rd_workspaces m /\ rw_ws w = 2%Z /\ t ∈ rw_tabs w /\ rt_tab t = 3%Z
    /\ "amber-2-3-1-a9"%string ∈ leaves (rt_tree t).
Proof.
  intros m. apply (render_complete default_layout
    [example_session "amber-2-3-1-a9"; example_session "s1"]
    (example_session "amber-2-3-1-a9") 2 3 1); [left|reflexivity].
Defined.
