(* ===== verification/ProcTree.v ===== *)
(** * Process trees

    [crates/amber/src/procinfo.rs]: the walks over a snapshot of the process
    table that find what a session's child started (to kill it, and to sum its
    memory), and the leak detector over a series of samples.  Reading the table is
    the operating system's; the walks are pure over it. *)
From S2P Require Import Prelude.

Record ProcEntry := mk_proc {
  pe_pid : Z;
  pe_ppid : Z;
  pe_comm : string;
  pe_rss_kb : Z;
}.

(** [children.get(&pid)]: entries under their parent, in table order; an entry
    that is its own parent is nobody's child. *)
Definition children (table : list ProcEntry) (pid : Z) : list Z :=
  omap (fun e => if (negb (pe_pid e =? pe_ppid e) && (pe_ppid e =? pid))%Z
                 then Some (pe_pid e) else None) table.

(** [rss_of]: a later entry of the same pid replaces an earlier one. *)
Definition rss_of (table : list ProcEntry) : gmap Z Z :=
  foldl (fun m e => <[pe_pid e := pe_rss_kb e]> m) ∅ table.

(** [for &kid in kids { if seen.insert(kid) { ... } }]: the set afterwards and the
    kids that were new. *)
Fixpoint visit (seen : gset Z) (kids : list Z) : gset Z * list Z :=
  match kids with
  | [] => (seen, [])
  | kid :: kids' =>
      if decide (kid ∈ seen) then visit seen kids'
      else let '(seen', fresh) := visit ({[kid]} ∪ seen) kids' in (seen', kid :: fresh)
  end.

(** The loop of [descendants_of]. *)
Fixpoint descend (table : list ProcEntry) (fuel : nat) (queue : list Z) (seen : gset Z)
    (out : list Z) : option (list Z) :=
  match queue, fuel with
  | [], _ => Some out
  | _, 0 => None
  | pid :: queue', S fuel' =>
      let '(seen', fresh) := visit seen (children table pid) in
      descend table fuel' (queue' ++ fresh) seen' (out ++ fresh)
  end.

(** The root and the distinct pids of the table are all a walk can meet. *)
Definition walk_fuel (table : list ProcEntry) : nat := S (length table).

Definition descendants_of (table : list ProcEntry) (root : Z) : option (list Z) :=
  descend table (walk_fuel table) [root] {[root]} [].

(** The loop of [subtree_rss_kb]. *)
Fixpoint sum_tree (table : list ProcEntry) (rss : gmap Z Z) (fuel : nat) (queue : list Z)
    (seen : gset Z) (total : Z) : option Z :=
  match queue, fuel with
  | [], _ => Some total
  | _, 0 => None
  | pid :: queue', S fuel' =>
      let total := sat_add64 total (default 0%Z (rss !! pid)) in
      let '(seen', fresh) := visit seen (children table pid) in
      sum_tree table rss fuel' (queue' ++ fresh) seen' total
  end.

Definition subtree_rss_kb (table : list ProcEntry) (root : Z) : option Z :=
  let rss := rss_of table in
  match rss !! root with
  | None => Some 0%Z
  | Some _ => sum_tree table rss (walk_fuel table) [root] {[root]} 0
  end.

(** The samples dip nowhere by more than the noise. *)
Fixpoint no_dip (noise_kb : Z) (samples : list Z) : bool :=
  match samples with
  | a :: l =>
      match l with
      | b :: _ => negb (sat_add64 b noise_kb <? a)%Z && no_dip noise_kb l
      | [] => true
      end
  | [] => true
  end.

Definition is_growing (samples : list Z) (min_growth_kb noise_kb : Z) : bool :=
  if length samples <? 3 then false
  else
    let first := hd 0%Z samples in
    let last := List.last samples 0%Z in
    if (last <=? sat_add64 first min_growth_kb)%Z then false
    else no_dip noise_kb samples.

(** ** Reachability *)

Section walk.
Context (table : list ProcEntry).

Definition is_child (p c : Z) : Prop := c ∈ children table p.

(** [c] was started by [p], directly or through others. *)
Definition descendant (p c : Z) : Prop := rtc is_child p c.

Definition universe (root : Z) : gset Z := {[root]} ∪ list_to_set (map pe_pid table).

Lemma children_in_table p c : c ∈ children table p -> c ∈ map pe_pid table.
Proof.
  unfold children. intros (e & He & Hc)%list_elem_of_omap.
  destruct (_ && _); [|done]. injection Hc as <-. by apply list_elem_of_fmap_2.
Qed.

Lemma visit_spec seen kids :
  let '(seen', fresh) := visit seen kids in
  seen' = list_to_set fresh ∪ seen /\ NoDup fresh
  /\ (forall k, k ∈ fresh <-> k ∈ kids /\ k ∉ seen).
Proof.
  revert seen. induction kids as [|kid kids IH]; intros seen; simpl.
  - split_and!; [set_solver|constructor|set_solver].
  - destruct (decide (kid ∈ seen)) as [Hin|Hout].
    + specialize (IH seen). destruct (visit seen kids) as [seen' fresh].
      destruct IH as (-> & Hnd & Hk). split_and!; [done|done|]. intros k. rewrite Hk. set_solver.
    + specialize (IH ({[kid]} ∪ seen)). destruct (visit _ kids) as [seen' fresh].
      destruct IH as (-> & Hnd & Hk). split_and!.
      * clear Hk. set_solver.
      * constructor; [rewrite Hk; set_solver|done].
      * intros k. rewrite !elem_of_cons, Hk, not_elem_of_union, not_elem_of_singleton.
        destruct (decide (k = kid)) as [->|]; naive_solver.
Qed.

(** The state of a walk from [root]: what is out and seen, what is left to expand,
    and that everything expanded has its children seen. *)
Record walking (root : Z) (queue : list Z) (seen : gset Z) (out : list Z) : Prop := mk_walking {
  wk_seen : seen = list_to_set (root :: out);
  wk_NoDup : NoDup (root :: out);
  wk_queue : forall p, p ∈ queue -> p ∈ seen;
  wk_reach : forall p, p ∈ seen -> descendant root p;
  wk_closed : forall p c, p ∈ seen -> p ∉ queue -> is_child p c -> c ∈ seen;
}.

Lemma walking_init root : walking root [root] {[root]} [].
Proof.
  split.
  - set_solver.
  - repeat constructor. set_solver.
  - set_solver.
  - intros p ->%elem_of_singleton. apply rtc_refl.
  - set_solver.
Qed.

Lemma walking_step root pid queue seen out :
  walking root (pid :: queue) seen out ->
  let '(seen', fresh) := visit seen (children table pid) in
  walking root (queue ++ fresh) seen' (out ++ fresh).
Proof.
  intros [Hs Hnd Hq Hr Hc]. pose proof (visit_spec seen (children table pid)) as Hv.
  destruct (visit seen (children table pid)) as [seen' fresh]. destruct Hv as (-> & Hnf & Hk).
  split.
  - rewrite Hs. set_solver.
  - change (NoDup ((root :: out) ++ fresh)). apply NoDup_app. split_and!; [done| |done].
    intros p Hp Hf. apply Hk in Hf as [_ Hf]. apply Hf. rewrite Hs. by apply elem_of_list_to_set.
  - intros p [Hp|Hp]%elem_of_app; [|set_solver]. apply elem_of_union. right. apply Hq. by right.
  - intros p [Hp%elem_of_list_to_set|Hp]%elem_of_union; [|by apply Hr].
    apply Hk in Hp as [Hp _]. eapply rtc_r; [apply Hr, Hq; left|done].
  - intros p c Hp Hnq Hpc. apply not_elem_of_app in Hnq as [Hnq Hnf'].
    apply elem_of_union in Hp as [Hp%elem_of_list_to_set|Hp]; [done|].
    destruct (decide (p = pid)) as [->|Hne].
    + destruct (decide (c ∈ seen)); [set_solver|]. apply elem_of_union. left.
      apply elem_of_list_to_set, Hk. done.
    + apply elem_of_union. right. apply (Hc p); [done| |done]. by intros [->|?]%elem_of_cons.
Qed.

(** A finished walk has found exactly the descendants. *)
Lemma walking_done root seen out :
  walking root [] seen out ->
  NoDup (root :: out) /\ forall p, p ∈ root :: out <-> descendant root p.
Proof.
  intros [Hs Hnd Hq Hr Hc]. split; [done|]. intros p.
  rewrite <- (elem_of_list_to_set (C := gset Z)), <- Hs. split; [apply Hr|].
  assert (Hcl : forall x y, descendant x y -> x ∈ seen -> y ∈ seen).
  { induction 1 as [|x y z Hxy _ IH]; [done|]. intros Hx. apply IH.
    apply (Hc x); [done|set_solver|done]. }
  intros Hp. apply (Hcl root); [done|]. rewrite Hs. set_solver.
Qed.

(** How many rounds a walk still takes at most: everything queued and everything
    not seen yet. *)
Definition rounds (root : Z) (queue : list Z) (seen : gset Z) : nat :=
  length queue + size (universe root ∖ seen).

Lemma rounds_step root pid queue seen :
  seen ⊆ universe root ->
  let '(seen', fresh) := visit seen (children table pid) in
  seen' ⊆ universe root /\ S (rounds root (queue ++ fresh) seen') <= rounds root (pid :: queue) seen.
Proof.
  intros Hsub. pose proof (visit_spec seen (children table pid)) as Hv.
  destruct (visit seen (children table pid)) as [seen' fresh]. destruct Hv as (-> & Hnf & Hk).
  assert (Hfu : list_to_set fresh ⊆ universe root ∖ seen).
  { intros k Hf%elem_of_list_to_set. apply Hk in Hf as [Hf Hns].
    apply children_in_table in Hf. unfold universe. set_solver. }
  split; [set_solver|]. unfold rounds. rewrite length_app. simpl.
  assert (Hsz : size (universe root ∖ (list_to_set fresh ∪ seen)) + length fresh
                = size (universe root ∖ seen)).
  { rewrite <- (size_list_to_set (C := gset Z) fresh Hnf).
    replace (universe root ∖ (list_to_set fresh ∪ seen))
      with ((universe root ∖ seen) ∖ list_to_set fresh) by set_solver.
    rewrite size_difference by done. pose proof (subseteq_size _ _ Hfu). lia. }
  lia.
Qed.

Lemma universe_rounds root : rounds root [root] {[root]} <= walk_fuel table.
Proof.
  unfold rounds, walk_fuel, universe. simpl.
  assert (size (({[root]} ∪ list_to_set (map pe_pid table)) ∖ {[root]} : gset Z) <= length table).
  2: lia.
  transitivity (size (list_to_set (map pe_pid table) : gset Z)).
  - apply subseteq_size. set_solver.
  - rewrite <- (length_map pe_pid table). generalize (map pe_pid table). intros l.
    induction l as [|p l IH]; simpl; [done|].
    rewrite size_union_alt, size_singleton.
    pose proof (subseteq_size (list_to_set l ∖ {[p]}) (list_to_set l : gset Z) ltac:(set_solver)).
    lia.
Qed.
End walk.

(** ** The walks, specified *)

Section walks.
Context (table : list ProcEntry) (root : Z).

Lemma descend_spec fuel queue seen out :
  rounds table root queue seen <= fuel -> seen ⊆ universe table root ->
  walking table root queue seen out ->
  exists out', descend table fuel queue seen out = Some out'
    /\ NoDup (root :: out') /\ forall p, p ∈ root :: out' <-> descendant table root p.
Proof.
  revert queue seen out. induction fuel as [|fuel IH]; intros [|pid queue] seen out Hf Hsub Hw;
    cbn [descend].
  - exists out. split; [done|]. by apply (walking_done table root seen).
  - unfold rounds in Hf. simpl in Hf. lia.
  - exists out. split; [done|]. by apply (walking_done table root seen).
  - pose proof (rounds_step table root pid queue seen Hsub) as Hr.
    apply walking_step in Hw. destruct (visit seen (children table pid)) as [seen' fresh].
    destruct Hr as [Hsub' Hr]. apply IH; [lia|done|done].
Qed.

Lemma sum_tree_descend fuel queue seen total out out' :
  descend table fuel queue seen out = Some out' ->
  exists found, out' = out ++ found
    /\ sum_tree table (rss_of table) fuel queue seen total
       = Some (foldl (fun t p => sat_add64 t (default 0%Z (rss_of table !! p))) total (queue ++ found)).
Proof.
  revert queue seen total out. induction fuel as [|fuel IH]; intros [|pid queue] seen total out Hd;
    cbn [descend sum_tree] in *; simplify_eq.
  - exists []. by rewrite app_nil_r.
  - exists []. by rewrite app_nil_r.
  - destruct (visit seen (children table pid)) as [seen' fresh].
    apply (IH _ _ (sat_add64 total (default 0%Z (rss_of table !! pid)))) in Hd
      as (found & -> & Hsum).
    exists (fresh ++ found). rewrite <- app_assoc. split; [done|]. rewrite Hsum. cbn [app foldl].
    by rewrite <- app_assoc.
Qed.

Lemma foldl_sat l total :
  (0 <= total <= u64_max)%Z -> (forall p, p ∈ l -> 0 <= default 0%Z (rss_of table !! p))%Z ->
  foldl (fun t p => sat_add64 t (default 0%Z (rss_of table !! p))) total l
  = Z.min u64_max (total + foldr (fun p s => default 0%Z (rss_of table !! p) + s)%Z 0%Z l).
Proof.
  revert total. induction l as [|p l IH]; simpl; intros total Ht Hl; [lia|].
  pose proof (Hl p ltac:(left)) as Hp. unfold sat_add64 at 2. rewrite IH.
  - assert (0 <= foldr (fun p s => default 0%Z (rss_of table !! p) + s)%Z 0%Z l)%Z; [|lia].
    clear IH. induction l as [|q l IH]; simpl; [lia|].
    pose proof (Hl q ltac:(right; left)). specialize (IH ltac:(set_solver)). lia.
  - lia.
  - intros q Hq. apply Hl. by right.
Qed.

Lemma rss_of_nonneg p :
  Forall (fun e => 0 <= pe_rss_kb e)%Z table -> (0 <= default 0%Z (rss_of table !! p))%Z.
Proof.
  unfold rss_of. intros Hall.
  assert (Hgen : forall m : gmap Z Z, (0 <= default 0%Z (m !! p))%Z ->
    (0 <= default 0%Z (foldl (fun m e => <[pe_pid e := pe_rss_kb e]> m) m table !! p))%Z).
  { induction Hall as [|e l He _ IH]; simpl; [done|]. intros m Hm. apply IH.
    destruct (decide (pe_pid e = p)) as [<-|Hne].
    - by rewrite lookup_insert_eq.
    - by rewrite lookup_insert_ne. }
  apply Hgen. by rewrite lookup_empty.
Qed.
End walks.

(** The kill sweep reaches exactly what the session's child started: on every
    process table, malformed ones with parent cycles included, the walk ends and
    returns each process descended from the root once, and never the root. *)
Theorem descendants_of_spec (table : list ProcEntry) (root : Z) :
  exists out, descendants_of table root = Some out
    /\ NoDup out /\ root ∉ out
    /\ forall p, p ∈ out <-> descendant table root p /\ p <> root.
Proof.
  destruct (descend_spec table root (walk_fuel table) [root] {[root]} [])
    as (out & Hd & [Hr Hnd]%NoDup_cons & Hp).
  - apply universe_rounds.
  - unfold universe. set_solver.
  - apply walking_init.
  - exists out. split_and!; try done. intros p. rewrite <- Hp, elem_of_cons. naive_solver.
Qed.

(** The memory of a session is the saturating sum over the root and exactly its
    descendants, each counted once, and zero for a root that is gone. *)
Theorem subtree_rss_spec (table : list ProcEntry) (root : Z) :
  Forall (fun e => 0 <= pe_rss_kb e)%Z table ->
  exists tree, NoDup tree /\ (forall p, p ∈ tree <-> descendant table root p)
    /\ subtree_rss_kb table root =
         Some (match rss_of table !! root with
               | None => 0
               | Some _ =>
                   Z.min u64_max
                     (foldr (fun p s => default 0 (rss_of table !! p) + s) 0 tree)
               end)%Z.
Proof.
  intros Hrss. destruct (descend_spec table root (walk_fuel table) [root] {[root]} [])
    as (out & Hd & Hnd & Hp).
  - apply universe_rounds.
  - unfold universe. set_solver.
  - apply walking_init.
  - exists (root :: out). split_and!; [done|done|]. unfold subtree_rss_kb.
    destruct (rss_of table !! root); [|done].
    destruct (sum_tree_descend table _ _ _ 0%Z _ _ Hd) as (found & -> & ->).
    rewrite foldl_sat; [done| |].
    + unfold u64_max. lia.
    + intros p _. by apply rss_of_nonneg.
Qed.

(** A cycle 2 -> 3 -> 2 under the root 1, and a process of another session. *)
Definition example_table : list ProcEntry :=
  [mk_proc 1 0 "sh" 10; mk_proc 2 3 "a" 5; mk_proc 3 2 "b" 7; mk_proc 3 1 "b" 7;
   mk_proc 9 9 "init" 100]%Z.

Lemma subtree_rss_spec_witness :
  Forall (fun e => 0 <= pe_rss_kb e)%Z example_table
  /\ exists tree, NoDup tree /\ (forall p, p ∈ tree <-> descendant example_table 1 p)
       /\ subtree_rss_kb example_table 1 = Some 22%Z.
Proof.
  assert (H : Forall (fun e => 0 <= pe_rss_kb e)%Z example_table) by (repeat constructor; simpl; lia).
  split; [exact H|]. destruct (subtree_rss_spec example_table 1 H) as (tree & Hnd & Hp & _).
  exists tree. split; [exact Hnd|]. split; [exact Hp|]. reflexivity.
Defined.

(** ** The leak detector *)

Lemma no_dip_spec noise l :
  no_dip noise l = true <->
  forall i a b, l !! i = Some a -> l !! S i = Some b -> (a <= sat_add64 b noise)%Z.
Proof.
  induction l as [|x l IH]; [by split|]. cbn [no_dip]. destruct l as [|y l].
  - split; [|done]. intros _ [|i] a b Ha Hb; simpl in Hb; done.
  - rewrite andb_true_iff, negb_true_iff, Z.ltb_ge, IH. split.
    + intros [Hxy Hl] [|i] a b Ha Hb; simpl in *; simplify_eq; [done|]. by apply (Hl i).
    + intros H. split; [by apply (H 0)|]. intros i a b Ha Hb. by apply (H (S i)).
Qed.

(** The leak badge is lit exactly for a sustained rise: at least three samples,
    the newest above the oldest by more than the growth threshold, and no drop by
    more than the noise between neighbours. *)
Theorem is_growing_spec (samples : list Z) (min_growth_kb noise_kb : Z) :
  is_growing samples min_growth_kb noise_kb = true <->
  3 <= length samples
  /\ (sat_add64 (hd 0%Z samples) min_growth_kb < List.last samples 0%Z)%Z
  /\ forall i a b, samples !! i = Some a -> samples !! S i = Some b ->
       (a <= sat_add64 b noise_kb)%Z.
Proof.
  unfold is_growing. destruct (Nat.ltb_spec (length samples) 3) as [|Hlen].
  - split; [done|]. lia.
  - destruct (Z.leb_spec (List.last samples 0%Z) (sat_add64 (hd 0%Z samples) min_growth_kb)).
    + split; [done|]. lia.
    + rewrite no_dip_spec. naive_solver.
Qed.
