(* ===== verification/Guardian.v ===== *)
(** * The resource guardian

    [crates/amber/src/memory_guardian.rs] and [host_pressure.rs], with the
    configuration they run on ([amber-core/src/state.rs]): when memory or host
    pressure is critical, which session may be parked for it, and what watchers are
    told.  Clocks, samples and the session manager's answers are inputs of a tick;
    what the tick does is the list of its events.  A double is the rational number
    it stands for, or not finite. *)
From Stdlib Require Import QArith_base.
From S2P Require Import Prelude Wire ProcTree.

(** ** Doubles *)

Inductive f64 := Finite (q : Q) | NotFinite.

Definition is_finite (x : f64) : bool :=
  match x with Finite _ => true | NotFinite => false end.

(** [x >= y] for a finite [x] against a configured threshold. *)
Definition f64_ge (x y : f64) : bool :=
  match x, y with
  | Finite a, Finite b => Qle_bool b a
  | _, _ => false
  end.

(** ** Configuration *)

Record MemoryConfig := mk_memory_config {
  mc_enabled : bool;
  mc_budget_mb : option Z;
  mc_session_high_mb : Z;
}.

Definition default_memory_config : MemoryConfig := mk_memory_config true None 4096.

Definition option_or {A} (a b : option A) : option A :=
  match a with Some _ => a | None => b end.

Definition budget_kb (c : MemoryConfig) (physical_kb cgroup_limit_kb : option Z) : option Z :=
  requested ← option_or (option_or ((fun mb => sat_mul64 mb 1024) <$> mc_budget_mb c)
                           ((fun kb => kb / 2)%Z <$> physical_kb)) cgroup_limit_kb;
  let requested := Z.max requested (512 * 1024) in
  Some (match cgroup_limit_kb with Some limit => Z.min requested limit | None => requested end).

Definition session_high_kb (c : MemoryConfig) (budget_kb : option Z) : Z :=
  let requested := Z.max (sat_mul64 (mc_session_high_mb c) 1024) (256 * 1024) in
  match budget_kb with Some budget => Z.min requested budget | None => requested end.

Record PressureConfig := mk_pressure_config {
  pc_cpu_some_percent : f64;
  pc_io_full_percent : f64;
  pc_memory_full_percent : f64;
  pc_sustain_seconds : Z;
  pc_cooldown_seconds : Z;
}.

Definition default_pressure_config : PressureConfig :=
  mk_pressure_config (Finite 25) (Finite 20) (Finite 2) 120 10.

Record RawPressureConfig := mk_raw_pressure_config {
  raw_cpu_some_percent : option f64;
  raw_io_full_percent : option f64;
  raw_memory_full_percent : option f64;
  raw_sustain_seconds : option Z;
  raw_cooldown_seconds : option Z;
}.

(** [value.clamp(0.0, 100.0)] *)
Definition clamp_percent (q : Q) : Q :=
  if negb (Qle_bool 0 q) then 0%Q else if negb (Qle_bool q 100) then 100%Q else q.

Definition normalized_percent (value : option f64) (default : f64) : f64 :=
  match value with
  | Some (Finite q) => Finite (clamp_percent q)
  | _ => default
  end.

Definition normalized_interval (value : option Z) (default : Z) : Z :=
  match value with
  | Some v => if (v =? 0)%Z then default else v
  | None => default
  end.

Definition was_normalized (raw : RawPressureConfig) : bool :=
  existsb (fun value => match value with
                        | Finite q => negb (Qle_bool 0 q && Qle_bool q 100)
                        | NotFinite => true
                        end)
    (omap id [raw_cpu_some_percent raw; raw_io_full_percent raw; raw_memory_full_percent raw])
  || existsb (Z.eqb 0) (omap id [raw_sustain_seconds raw; raw_cooldown_seconds raw]).

(** [PressureConfig::deserialize], from what serde read. *)
Definition deserialize_pressure (raw : RawPressureConfig) : PressureConfig :=
  let d := default_pressure_config in
  mk_pressure_config
    (normalized_percent (raw_cpu_some_percent raw) (pc_cpu_some_percent d))
    (normalized_percent (raw_io_full_percent raw) (pc_io_full_percent d))
    (normalized_percent (raw_memory_full_percent raw) (pc_memory_full_percent d))
    (normalized_interval (raw_sustain_seconds raw) (pc_sustain_seconds d))
    (normalized_interval (raw_cooldown_seconds raw) (pc_cooldown_seconds d)).

(** ** Host pressure *)

Inductive HostPressureCause := Cpu | Io | Memory.

Record HostPressureSample := mk_host_sample {
  hs_cpu_some_percent : f64;
  hs_io_full_percent : f64;
  hs_memory_full_percent : f64;
}.

Inductive HostPressureDecision :=
| Host_Normal
| Host_Unavailable
| Host_Critical (causes : list HostPressureCause) (can_park : bool).

Record HostPressureState := mk_host_state {
  hp_config : PressureConfig;
  hp_episode_started_ms : option Z;
  hp_cooldown_until_ms : option Z;
}.

Definition host_new (config : PressureConfig) : HostPressureState := mk_host_state config None None.

Definition host_causes (config : PressureConfig) (sample : HostPressureSample)
  : list HostPressureCause :=
  (if f64_ge (hs_cpu_some_percent sample) (pc_cpu_some_percent config) then [Cpu] else [])
  ++ (if f64_ge (hs_io_full_percent sample) (pc_io_full_percent config) then [Io] else [])
  ++ (if f64_ge (hs_memory_full_percent sample) (pc_memory_full_percent config)
      then [Memory] else []).

Definition host_state_step (st : HostPressureState) (now_ms : Z)
    (sample : option HostPressureSample) : HostPressureState * HostPressureDecision :=
  match sample with
  | None => (st, Host_Unavailable)
  | Some sample =>
      match host_causes (hp_config st) sample with
      | [] => (mk_host_state (hp_config st) None (hp_cooldown_until_ms st), Host_Normal)
      | causes =>
          let started_ms := default now_ms (hp_episode_started_ms st) in
          let sustained :=
            (sat_mul64 (pc_sustain_seconds (hp_config st)) 1000 <=? sat_sub64 now_ms started_ms)%Z in
          let cooldown_complete :=
            match hp_cooldown_until_ms st with
            | Some until_ms => (until_ms <=? now_ms)%Z
            | None => true
            end in
          (mk_host_state (hp_config st) (Some started_ms) (hp_cooldown_until_ms st),
           Host_Critical causes (sustained && cooldown_complete))
      end
  end.

Definition record_parked (st : HostPressureState) (now_ms : Z) : HostPressureState :=
  mk_host_state (hp_config st) (hp_episode_started_ms st)
    (Some (sat_add64 now_ms (sat_mul64 (pc_cooldown_seconds (hp_config st)) 1000))).

(** ** Memory pressure *)

Definition RECENT_USE_MS : Z := 120000%Z.
Definition SUSPEND_STALL_MS : Z := 10000%Z.
Definition PRESSURE_REFRESH_MS : Z := 3000%Z.
Definition PSI_ERROR_LOG_MS : Z := 60000%Z.
Definition WINDOW : nat := 5.
Definition MIN_GROWTH_KB : Z := 100000%Z.
Definition NOISE_KB : Z := 20000%Z.

Inductive PressureLevel := Normal | Warning | Critical.

#[export] Instance PressureLevel_eq_dec : EqDecision PressureLevel.
Proof. solve_decision. Defined.

Record Candidate := mk_candidate {
  cd_name : string;
  cd_memory_kb : Z;
  cd_last_used_ms : Z;
  cd_is_agent : bool;
  cd_running : bool;
  cd_has_resume_id : bool;
  cd_suspended : bool;
}.

Record HostPressureCandidate := mk_host_candidate {
  hc_name : string;
  hc_memory_kb : Z;
  hc_last_user_ms : Z;
}.

Definition pressure_level (previous : PressureLevel) (current_kb budget_kb : Z) : PressureLevel :=
  if (budget_kb =? 0)%Z then Normal
  else
    let percent := (sat_mul64 current_kb 100 / budget_kb)%Z in
    match previous with
    | Normal =>
        if (80 <=? percent)%Z then Critical
        else if (70 <=? percent)%Z then Warning else Normal
    | Warning =>
        if (80 <=? percent)%Z then Critical
        else if (percent <? 65)%Z then Normal else Warning
    | Critical =>
        if (percent <? 65)%Z then Normal
        else if (percent <? 80)%Z then Warning else Critical
    end.

(** Agents that can be resumed and nobody has used recently. *)
Definition eligible (now_ms : Z) (c : Candidate) : bool :=
  cd_is_agent c && cd_running c && cd_has_resume_id c && negb (cd_suspended c)
  && (RECENT_USE_MS <=? sat_sub64 now_ms (cd_last_used_ms c))%Z.

(** Least recently used first, then the largest, then by name. *)
Definition candidate_cmp : Candidate -> Candidate -> comparison :=
  then_with (then_with (by_key cd_last_used_ms Z.compare)
                       (reversed (by_key cd_memory_kb Z.compare)))
            (by_key cd_name String.compare).

#[export] Instance candidate_cmp_lawful : Lawful candidate_cmp.
Proof. unfold candidate_cmp. apply _. Qed.
#[export] Typeclasses Opaque candidate_cmp.

Definition select_candidate (now_ms : Z) (candidates : list Candidate) : option Candidate :=
  min_by candidate_cmp (List.filter (eligible now_ms) candidates).

Record StepDecision := mk_decision {
  sd_level : PressureLevel;
  sd_candidate : option string;
  sd_blocked : bool;
}.

Definition step (previous : PressureLevel) (now_ms current_kb budget_kb : Z)
    (pending_since_ms : option Z) (candidates : list Candidate) : StepDecision :=
  let level := pressure_level previous current_kb budget_kb in
  if negb (bool_decide (level = Critical)) then mk_decision level None false
  else
    match pending_since_ms with
    | Some started => mk_decision level None (SUSPEND_STALL_MS <=? sat_sub64 now_ms started)%Z
    | None =>
        let candidate := cd_name <$> select_candidate now_ms candidates in
        mk_decision level candidate (match candidate with None => true | Some _ => false end)
    end.

(** ** Acting and telling *)

(** [apply_action]: the snapshot, then the suspend; a failure of either leaves the
    session running and blocks.  Returns the decision and whether a session was
    suspended. *)
Definition apply_action (d : StepDecision) (snapshot : bool) (suspend : string -> bool)
  : StepDecision * option string :=
  match sd_candidate d with
  | None => (d, None)
  | Some name =>
      if snapshot && suspend name then (d, Some name)
      else (mk_decision (sd_level d) (sd_candidate d) true, None)
  end.

Definition should_broadcast (previous_level : PressureLevel) (previous_blocked : bool)
    (last_broadcast_ms : option Z) (now_ms : Z) (d : StepDecision) : bool :=
  negb (bool_decide (sd_level d = previous_level)) || xorb (sd_blocked d) previous_blocked
  || match last_broadcast_ms with
     | None => true
     | Some last => (PRESSURE_REFRESH_MS <=? sat_sub64 now_ms last)%Z
     end.

Record ResourcePressureStatus := mk_status {
  rs_level : ResourcePressureLevel;
  rs_causes : list ResourcePressureCause;
  rs_blocked : bool;
}.

#[export] Instance ResourcePressureLevel_eq_dec : EqDecision ResourcePressureLevel.
Proof. solve_decision. Defined.
#[export] Instance ResourcePressureCause_eq_dec : EqDecision ResourcePressureCause.
Proof. solve_decision. Defined.
#[export] Instance ResourcePressureStatus_eq_dec : EqDecision ResourcePressureStatus.
Proof. solve_decision. Defined.

Record HostStepDecision := mk_host_decision {
  hd_status : option ResourcePressureStatus;
  hd_candidate : option string;
  hd_blocked : bool;
}.

Definition resource_pressure_cause (cause : HostPressureCause) : ResourcePressureCause :=
  match cause with Cpu => Cause_Cpu | Io => Cause_Io | Memory => Cause_Memory end.

Definition host_step (now_ms : Z) (pressure : HostPressureDecision)
    (pending_since_ms : option Z) (candidates : list HostPressureCandidate) : HostStepDecision :=
  match pressure with
  | Host_Unavailable => mk_host_decision None None false
  | Host_Normal => mk_host_decision (Some (mk_status Level_Normal [] false)) None false
  | Host_Critical causes can_park =>
      let '(candidate, blocked) :=
        if negb can_park then (None, false)
        else match pending_since_ms with
             | Some started => (None, (SUSPEND_STALL_MS <=? sat_sub64 now_ms started)%Z)
             | None =>
                 match candidates with
                 | [] => (None, true)
                 | c :: _ => (Some (hc_name c), false)
                 end
             end in
      mk_host_decision
        (Some (mk_status Level_Critical (map resource_pressure_cause causes) blocked))
        candidate blocked
  end.

Definition block_status (s : option ResourcePressureStatus) (b : bool)
  : option ResourcePressureStatus :=
  (fun s => mk_status (rs_level s) (rs_causes s) b) <$> s.

(** [apply_host_action]; a successful suspend returns when the signal was sent. *)
Definition apply_host_action (d : HostStepDecision) (snapshot : bool)
    (suspend : string -> option Z) : HostStepDecision * option (string * Z) :=
  match hd_candidate d with
  | None => (d, None)
  | Some name =>
      match (if snapshot then suspend name else None) with
      | Some signaled => (d, Some (name, signaled))
      | None => (mk_host_decision (block_status (hd_status d) true) (hd_candidate d) true, None)
      end
  end.

Definition should_broadcast_resource (previous : option ResourcePressureStatus)
    (last_broadcast_ms : option Z) (now_ms : Z) (next : ResourcePressureStatus) : bool :=
  negb (bool_decide (previous = Some next))
  || match last_broadcast_ms with
     | None => true
     | Some last => (PRESSURE_REFRESH_MS <=? sat_sub64 now_ms last)%Z
     end.

(** ** Telemetry *)

Inductive event :=
| Ev_stat (name : string) (rss_kb : Z) (growing : bool)
| Ev_suspend (name : string)
| Ev_pressure (level : PressureLevel) (current_kb budget_kb : Z) (blocked : bool)
| Ev_host_suspend (name : string) (signaled_at_ms : Z)
| Ev_resource (status : ResourcePressureStatus).

Definition histories := gmap string (list Z).

Definition record_rss_stat (h : histories) (name : string) (rss_kb : Z) : histories * event :=
  let history := lastn WINDOW (default [] (h !! name) ++ [rss_kb]) in
  (<[name := history]> h,
   Ev_stat name rss_kb (is_growing history MIN_GROWTH_KB NOISE_KB)).

Fixpoint record_all (h : histories) (l : list (string * Z)) : histories * list event :=
  match l with
  | [] => (h, [])
  | (name, kb) :: l' =>
      let '(h1, e) := record_rss_stat h name kb in
      let '(h2, es) := record_all h1 l' in
      (h2, e :: es)
  end.

(** [samples.retain(|name, _| live.contains(name))] *)
Definition retain_live (h : histories) (live : list string) : histories :=
  filter (fun kv => kv.1 ∈ live) h.

Definition sample : Type := (Z * gmap string Z)%type.

Definition select_pressure_sample (cgroup_enabled : bool) (cgroup_sample rss_sample : option sample)
  : option sample :=
  if cgroup_enabled then cgroup_sample else rss_sample.

(** ** A tick *)

(** What the tick reads: the budget, the cgroup sample, the process-table walk over
    the live sessions ([None] when the table is empty), the clock, the manager's
    answers, and the PSI sample with its own clock. *)
Record Env := mk_env {
  en_budget : option Z;
  en_cgroup : option sample;
  en_walk : option (list (string * Z));
  en_now_ms : Z;
  en_pending : option Z;
  en_candidates : gmap string Z -> list Candidate;
  en_snapshot : bool;
  en_suspend : string -> bool;
  en_psi : option HostPressureSample;
  en_host_now_ms : Z;
  en_host_pending : option Z;
  en_host_candidates : list HostPressureCandidate;
  en_host_snapshot : bool;
  en_host_suspend : string -> option Z;
}.

Record Guardian := mk_guardian {
  gd_tick : Z;
  gd_level : PressureLevel;
  gd_blocked : bool;
  gd_last_pressure_broadcast_ms : option Z;
  gd_host_pressure : HostPressureState;
  gd_last_resource_status : option ResourcePressureStatus;
  gd_last_resource_broadcast_ms : option Z;
  gd_last_psi_error_log_ms : option Z;
  gd_last_per_session_kb : gmap string Z;
  gd_samples : histories;
}.

Definition initial (config : PressureConfig) : Guardian :=
  mk_guardian 0 Normal false None (host_new config) None None None ∅ ∅.

Section guardian.
(** fixed for the life of the daemon *)
Context (cgroup_enabled host_psi_enabled : bool) (config : MemoryConfig).

(** Every third tick the per-session samples become telemetry.  With containment
    they are the cgroup sample, which is taken ([Option::take]) for it. *)
Definition telemetry (tick : Z) (samples : histories) (env : Env)
  : histories * list event * option sample * option sample :=
  let cgroup := en_cgroup env in
  if negb (tick mod 3 =? 0)%Z then (samples, [], cgroup, None)
  else if cgroup_enabled then
    match cgroup with
    | Some (total, per_session) =>
        let l := map_to_list per_session in
        let '(h, es) := record_all (retain_live samples (map fst l)) l in
        (h, es, None, Some (total, per_session))
    | None => (samples, [], None, None)
    end
  else
    match en_walk env with
    | None => (samples, [], cgroup, None)
    | Some l =>
        let '(h, es) := record_all (retain_live samples (map fst l)) l in
        let per_session := foldl (fun m kv => <[kv.1 := kv.2]> m) (∅ : gmap string Z) l in
        (h, es, cgroup,
         Some (foldl (fun t kv => sat_add64 t kv.2) 0%Z (map_to_list per_session), per_session))
    end.

(** The memory part of a tick: the new level, blocked flag, broadcast time and
    events. *)
Definition memory_part (level : PressureLevel) (blocked : bool) (last : option Z) (env : Env)
    (budget current_kb : Z) (per_session_kb : gmap string Z)
  : PressureLevel * bool * option Z * list event :=
  let now_ms := en_now_ms env in
  let pending := if mc_enabled config then en_pending env else None in
  let next_level := pressure_level level current_kb budget in
  let candidates :=
    if mc_enabled config && bool_decide (next_level = Critical)
       && match pending with None => true | Some _ => false end
    then en_candidates env per_session_kb else [] in
  let decision := step level now_ms current_kb budget pending candidates in
  let '(decision, suspended) :=
    if mc_enabled config then apply_action decision (en_snapshot env) (en_suspend env)
    else (mk_decision (sd_level decision) None false, None) in
  let acted := match suspended with Some name => [Ev_suspend name] | None => [] end in
  if should_broadcast level blocked last now_ms decision
  then (sd_level decision, sd_blocked decision, Some now_ms,
        acted ++ [Ev_pressure (sd_level decision) current_kb budget (sd_blocked decision)])
  else (sd_level decision, sd_blocked decision, last, acted).

(** The host part of a tick. *)
Definition host_part (g : Guardian) (env : Env) : Guardian * list event :=
  let now_ms := en_host_now_ms env in
  let '(host_pressure, decision) := host_state_step (gd_host_pressure g) now_ms (en_psi env) in
  let log :=
    match decision with
    | Host_Unavailable =>
        if match gd_last_psi_error_log_ms g with
           | None => true
           | Some last => (PSI_ERROR_LOG_MS <=? sat_sub64 now_ms last)%Z
           end
        then Some now_ms else gd_last_psi_error_log_ms g
    | _ => gd_last_psi_error_log_ms g
    end in
  let pending := if mc_enabled config then en_host_pending env else None in
  let candidates :=
    if mc_enabled config
       && match decision with Host_Critical _ can_park => can_park | _ => false end
       && match pending with None => true | Some _ => false end
    then en_host_candidates env else [] in
  let action := host_step now_ms decision pending candidates in
  let '(action, parked) :=
    if mc_enabled config
    then apply_host_action action (en_host_snapshot env) (en_host_suspend env)
    else (mk_host_decision (block_status (hd_status action) false) None false, None) in
  let host_pressure :=
    match parked with
    | Some (_, signaled_at_ms) => record_parked host_pressure signaled_at_ms
    | None => host_pressure
    end in
  let acted := match parked with Some (name, at_ms) => [Ev_host_suspend name at_ms] | None => [] end in
  let '(status, broadcast_ms, told) :=
    match hd_status action with
    | None => (gd_last_resource_status g, gd_last_resource_broadcast_ms g, [])
    | Some status =>
        if should_broadcast_resource (gd_last_resource_status g)
             (gd_last_resource_broadcast_ms g) now_ms status
        then (Some status, Some now_ms, [Ev_resource status])
        else (Some status, gd_last_resource_broadcast_ms g, [])
    end in
  (mk_guardian (gd_tick g) (gd_level g) (gd_blocked g) (gd_last_pressure_broadcast_ms g)
     host_pressure status broadcast_ms log (gd_last_per_session_kb g) (gd_samples g),
   acted ++ told).

Definition tick (g : Guardian) (env : Env) : Guardian * list event :=
  let t := ((gd_tick g + 1) mod 2 ^ 64)%Z in
  let '(samples, stats, cgroup_sample, rss_sample) := telemetry t (gd_samples g) env in
  let '(g, events) :=
    match en_budget env, select_pressure_sample cgroup_enabled cgroup_sample rss_sample with
    | Some budget, Some (current_kb, per_session_kb) =>
        let '(level, blocked, last, es) :=
          memory_part (gd_level g) (gd_blocked g) (gd_last_pressure_broadcast_ms g) env
            budget current_kb per_session_kb in
        (mk_guardian t level blocked last (gd_host_pressure g) (gd_last_resource_status g)
           (gd_last_resource_broadcast_ms g) (gd_last_psi_error_log_ms g) per_session_kb samples,
         stats ++ es)
    | _, _ =>
        (mk_guardian t (gd_level g) (gd_blocked g) (gd_last_pressure_broadcast_ms g)
           (gd_host_pressure g) (gd_last_resource_status g) (gd_last_resource_broadcast_ms g)
           (gd_last_psi_error_log_ms g) (gd_last_per_session_kb g) samples, stats)
    end in
  if host_psi_enabled then
    let '(g, host_events) := host_part g env in (g, events ++ host_events)
  else (g, events).

(** The guardian's life: its events over the ticks. *)
Fixpoint ticks (g : Guardian) (envs : list Env) : Guardian * list event :=
  match envs with
  | [] => (g, [])
  | env :: envs' =>
      let '(g1, es) := tick g env in
      let '(g2, es') := ticks g1 envs' in
      (g2, es ++ es')
  end.
End guardian.

(** ** Memory parking *)

(** The level follows the charge with hysteresis: critical from 80 percent,
    warning from 70, normal below 65, and between 65 and 70 an alarm once raised
    stays raised; without a budget it is always normal. *)
Theorem pressure_level_spec (previous : PressureLevel) (current_kb budget_kb : Z) :
  let percent := (sat_mul64 current_kb 100 / budget_kb)%Z in
  pressure_level previous current_kb budget_kb =
    if (budget_kb =? 0)%Z then Normal
    else if (80 <=? percent)%Z then Critical
    else if (70 <=? percent)%Z then Warning
    else if (65 <=? percent)%Z && negb (bool_decide (previous = Normal)) then Warning
    else Normal.
Proof.
  unfold pressure_level. destruct (budget_kb =? 0)%Z; [done|]. cbv zeta.
  generalize (sat_mul64 current_kb 100 / budget_kb)%Z. intros p.
  destruct previous; simpl;
    destruct (Z.leb_spec 80 p), (Z.leb_spec 70 p), (Z.leb_spec 65 p), (Z.ltb_spec p 65),
      (Z.ltb_spec p 80); try lia; done.
Qed.

Lemma select_candidate_Some now_ms cs c :
  select_candidate now_ms cs = Some c ->
  c ∈ cs /\ eligible now_ms c = true
  /\ forall d, d ∈ cs -> eligible now_ms d = true -> candidate_cmp c d <> Gt.
Proof.
  intros H. unfold select_candidate in H. apply (min_by_Some candidate_cmp) in H as [Hin Hmin].
  apply list_elem_of_In, List.filter_In in Hin as [Hin He]. split_and!; [|done|].
  - by apply list_elem_of_In.
  - intros d Hd He'. apply Hmin, list_elem_of_In, List.filter_In. split; [|done].
    by apply list_elem_of_In.
Qed.

Definition is_stat (e : event) : Prop := match e with Ev_stat _ _ _ => True | _ => False end.

Lemma record_all_stats h l : Forall is_stat (record_all h l).2.
Proof.
  revert h. induction l as [|[n kb] l IH]; intros h; simpl; [constructor|].
  specialize (IH (<[n := lastn WINDOW (default [] (h !! n) ++ [kb])]> h)).
  destruct (record_all _ l). by constructor.
Qed.

Section safety.
Context (cgroup_enabled host_psi_enabled : bool) (config : MemoryConfig).
Abbreviation tick := (tick cgroup_enabled host_psi_enabled config).
Abbreviation ticks := (ticks cgroup_enabled host_psi_enabled config).

Lemma telemetry_stats t h env h' es c r :
  telemetry cgroup_enabled t h env = (h', es, c, r) -> Forall is_stat es.
Proof.
  unfold telemetry. destruct (negb _); [intros; simplify_eq; constructor|].
  destruct cgroup_enabled.
  - destruct (en_cgroup env) as [[total per]|]; [|intros; simplify_eq; constructor].
    pose proof (record_all_stats (retain_live h (map fst (map_to_list per))) (map_to_list per)).
    destruct (record_all _ _). intros. by simplify_eq.
  - destruct (en_walk env) as [l|]; [|intros; simplify_eq; constructor].
    pose proof (record_all_stats (retain_live h (map fst l)) l).
    destruct (record_all _ _). intros. by simplify_eq.
Qed.

(** Events of the host part. *)
Definition is_host (e : event) : Prop :=
  match e with Ev_host_suspend _ _ | Ev_resource _ => True | _ => False end.

Lemma host_part_events g env : Forall is_host (host_part config g env).2.
Proof.
  unfold host_part. destruct (host_state_step _ _ _) as [hp decision].
  destruct (if mc_enabled config then _ else _) as [action parked]. cbv zeta.
  destruct parked as [[]|]; (destruct (hd_status action) as [st|];
    [destruct (should_broadcast_resource _ _ _ st)|]); repeat constructor.
Qed.

(** How a tick's state and events come about. *)
Lemma tick_inv g env g' es :
  tick g env = (g', es) ->
  exists stats mem host g1, es = stats ++ mem ++ host
    /\ Forall is_stat stats /\ Forall is_host host
    /\ (g', host) = (if host_psi_enabled then host_part config g1 env else (g1, []))
    /\ gd_host_pressure g1 = gd_host_pressure g
    /\ ((mem = [] /\ gd_level g1 = gd_level g /\ gd_blocked g1 = gd_blocked g
         /\ gd_last_pressure_broadcast_ms g1 = gd_last_pressure_broadcast_ms g)
        \/ exists budget current_kb per, en_budget env = Some budget
           /\ (gd_level g1, gd_blocked g1, gd_last_pressure_broadcast_ms g1, mem)
              = memory_part config (gd_level g) (gd_blocked g)
                  (gd_last_pressure_broadcast_ms g) env budget current_kb per).
Proof.
  unfold Guardian.tick.
  destruct (telemetry _ _ _ _) as [[[samples stats] c] r] eqn:Ht.
  pose proof (telemetry_stats _ _ _ _ _ _ _ Ht) as Hstats.
  set (res := match en_budget env with Some _ => _ | None => _ end).
  assert (Hres : exists mem g1, res = (g1, stats ++ mem)
    /\ gd_host_pressure g1 = gd_host_pressure g
    /\ ((mem = [] /\ gd_level g1 = gd_level g /\ gd_blocked g1 = gd_blocked g
         /\ gd_last_pressure_broadcast_ms g1 = gd_last_pressure_broadcast_ms g)
        \/ exists budget current_kb per, en_budget env = Some budget
           /\ (gd_level g1, gd_blocked g1, gd_last_pressure_broadcast_ms g1, mem)
              = memory_part config (gd_level g) (gd_blocked g)
                  (gd_last_pressure_broadcast_ms g) env budget current_kb per)).
  { subst res. destruct (en_budget env) as [budget|].
    2: { exists []. eexists. rewrite app_nil_r. split; [done|]. split; [done|]. by left. }
    destruct (select_pressure_sample _ _ _) as [[cur per]|].
    2: { exists []. eexists. rewrite app_nil_r. split; [done|]. split; [done|]. by left. }
    destruct (memory_part _ _ _ _ _ _ _ _) as [[[lvl bl] last] mem] eqn:Hm.
    exists mem. eexists. split; [done|]. split; [done|]. right. exists budget, cur, per. simpl.
    by rewrite Hm. }
  destruct Hres as (mem & g1 & -> & Hhp & Hmem). intros Hend.
  destruct host_psi_enabled.
  - pose proof (host_part_events g1 env) as Hh.
    destruct (host_part config g1 env) as [g2 host] eqn:Hp. simplify_eq.
    exists stats, mem, host, g1. rewrite <- app_assoc, Hp. by split_and!.
  - simplify_eq. exists stats, mem, [], g'. rewrite !app_nil_r. split_and!; try done; constructor.
Qed.

Lemma memory_part_suspend level blocked last env budget cur per level' blocked' last' es name :
  memory_part config level blocked last env budget cur per = (level', blocked', last', es) ->
  Ev_suspend name ∈ es ->
  mc_enabled config = true /\ pressure_level level cur budget = Critical
  /\ en_pending env = None /\ en_snapshot env = true /\ en_suspend env name = true
  /\ exists c, c ∈ en_candidates env per /\ cd_name c = name /\ eligible (en_now_ms env) c = true
       /\ forall d, d ∈ en_candidates env per -> eligible (en_now_ms env) d = true ->
            candidate_cmp c d <> Gt.
Proof.
  assert (Hno : forall (b : bool) (d : StepDecision) (acted : list event),
    (if b then (sd_level d, sd_blocked d, Some (en_now_ms env),
                acted ++ [Ev_pressure (sd_level d) cur budget (sd_blocked d)])
     else (sd_level d, sd_blocked d, last, acted)) = (level', blocked', last', es) ->
    Ev_suspend name ∈ es -> Ev_suspend name ∈ acted).
  { intros b d acted. destruct b; intros [= _ _ _ <-] Hin; [|done].
    apply elem_of_app in Hin as [Hin|Hin]; [done|]. by apply list_elem_of_singleton in Hin. }
  unfold memory_part, step, apply_action. cbv zeta.
  destruct (mc_enabled config); cbn [andb].
  2: { intros Hm Hin. specialize (Hno _ _ _ Hm Hin). by apply elem_of_nil in Hno. }
  destruct (bool_decide_reflect (pressure_level level cur budget = Critical)) as [Hc|Hc];
    cbn [negb andb].
  2: { intros Hm Hin. specialize (Hno _ _ _ Hm Hin). by apply elem_of_nil in Hno. }
  destruct (en_pending env) as [started|]; cbn [negb andb].
  { intros Hm Hin. specialize (Hno _ _ _ Hm Hin). by apply elem_of_nil in Hno. }
  destruct (select_candidate (en_now_ms env) (en_candidates env per)) as [c|] eqn:Hsel;
    cbn [fmap option_fmap option_map sd_candidate].
  2: { intros Hm Hin. specialize (Hno _ _ _ Hm Hin). by apply elem_of_nil in Hno. }
  destruct (en_snapshot env && en_suspend env (cd_name c)) eqn:Hok; intros Hm Hin;
    specialize (Hno _ _ _ Hm Hin); [|by apply elem_of_nil in Hno].
  apply list_elem_of_singleton in Hno as [= ->].
  apply andb_true_iff in Hok as [Hs Hsus]. apply select_candidate_Some in Hsel as (H1 & H2 & H3).
  split_and!; try done. by exists c.
Qed.

(** A session that may be parked: a running agent that can be resumed, not suspended
    already, and not used for two minutes. *)
Definition resumable_idle (now_ms : Z) (c : Candidate) : Prop :=
  cd_is_agent c = true /\ cd_running c = true /\ cd_has_resume_id c = true
  /\ cd_suspended c = false /\ (120000 <= now_ms - cd_last_used_ms c)%Z.

Lemma eligible_spec now_ms c : eligible now_ms c = true <-> resumable_idle now_ms c.
Proof.
  unfold eligible, resumable_idle, RECENT_USE_MS, sat_sub64.
  rewrite !andb_true_iff, negb_true_iff, Z.leb_le. split; intros; intuition lia.
Qed.

(** Used before, or as long ago and no smaller. *)
Definition parked_before (c d : Candidate) : Prop :=
  (cd_last_used_ms c < cd_last_used_ms d)%Z
  \/ cd_last_used_ms c = cd_last_used_ms d /\ (cd_memory_kb d <= cd_memory_kb c)%Z.

Lemma candidate_cmp_spec c d : candidate_cmp c d <> Gt -> parked_before c d.
Proof.
  unfold candidate_cmp, then_with, by_key, reversed, parked_before. intros H.
  destruct (Z.compare_spec (cd_last_used_ms c) (cd_last_used_ms d)); [|by left|done].
  right. split; [done|]. destruct (Z.compare_spec (cd_memory_kb d) (cd_memory_kb c)); [lia|lia|done].
Qed.


(** *** What watchers know *)

(** The pressure a watcher shows after the events, normal to begin with. *)
Definition shown (start : PressureLevel * bool) (es : list event) : PressureLevel * bool :=
  foldl (fun s e => match e with Ev_pressure l _ _ b => (l, b) | _ => s end) start es.

Lemma shown_app start es es' : shown start (es ++ es') = shown (shown start es) es'.
Proof. apply foldl_app. Qed.

Lemma shown_quiet start es :
  Forall (fun e => match e with Ev_pressure _ _ _ _ => False | _ => True end) es ->
  shown start es = start.
Proof.
  unfold shown. intros H. revert start.
  induction H as [|e es He _ IH]; intros start; simpl; [done|]. rewrite IH. by destruct e.
Qed.

Lemma memory_part_shown level blocked last env budget cur per level' blocked' last' es :
  memory_part config level blocked last env budget cur per = (level', blocked', last', es) ->
  shown (level, blocked) es = (level', blocked').
Proof.
  unfold memory_part. cbv zeta.
  destruct (if mc_enabled config then _ else _) as [d suspended].
  destruct (should_broadcast level blocked last (en_now_ms env) d) eqn:Hb; intros [= <- <- _ <-].
  - rewrite shown_app. by destruct suspended.
  - unfold should_broadcast in Hb. apply orb_false_iff in Hb as [[Hl%negb_false_iff Hx]%orb_false_iff _].
    apply bool_decide_eq_true in Hl. rewrite Hl.
    rewrite shown_quiet by (destruct suspended; repeat constructor).
    f_equal. destruct (sd_blocked d), blocked; done.
Qed.

Lemma tick_shown g env g' es :
  tick g env = (g', es) -> shown (gd_level g, gd_blocked g) es = (gd_level g', gd_blocked g').
Proof.
  intros Ht. destruct (tick_inv _ _ _ _ Ht) as (stats & mem & host & g1 & -> & Hst & Hho & Hg & _ & Hmem).
  rewrite !shown_app.
  rewrite (shown_quiet _ stats) by (eapply Forall_impl; [exact Hst|]; by intros []).
  assert (Hmid : shown (gd_level g, gd_blocked g) mem = (gd_level g1, gd_blocked g1)).
  { destruct Hmem as [(-> & -> & -> & _)|(budget & cur & per & _ & Hm)]; [done|].
    symmetry in Hm. by apply memory_part_shown in Hm. }
  rewrite Hmid, shown_quiet by (eapply Forall_impl; [exact Hho|]; by intros []).
  destruct host_psi_enabled; [|by simplify_eq].
  unfold host_part in Hg. destruct (host_state_step _ _ _) as [hp decision].
  destruct (if mc_enabled config then _ else _) as [action parked]. cbv zeta in Hg.
  destruct (match hd_status action with Some _ => _ | None => _ end) as [[? ?] ?].
  by injection Hg as -> _.
Qed.

(** A watcher that follows the broadcasts always knows the guardian's pressure
    level and whether relief is blocked: every change is told, whatever the samples,
    failures and clock of the ticks. *)
Theorem watchers_current (pc : PressureConfig) (envs : list Env) :
  let '(g, es) := ticks (initial pc) envs in
  shown (Normal, false) es = (gd_level g, gd_blocked g).
Proof.
  change (Normal, false) with (gd_level (initial pc), gd_blocked (initial pc)).
  generalize (initial pc). induction envs as [|env envs IH]; intros g; [done|].
  cbn [Guardian.ticks]. destruct (tick g env) as [g1 es] eqn:Ht.
  specialize (IH g1). destruct (ticks g1 envs) as [g2 es'].
  by rewrite shown_app, (tick_shown _ _ _ _ Ht).
Qed.

(** *** Host parking *)

(** The time of the last automatic host parking. *)
Definition last_park (es : list event) : option Z :=
  foldl (fun p e => match e with Ev_host_suspend _ t => Some t | _ => p end) None es.

(** A tick whose PSI sample was available and showed no cause. *)
Definition calm (pc : PressureConfig) (env : Env) : Prop :=
  exists s, en_psi env = Some s /\ host_causes pc s = [].

Definition pressed (pc : PressureConfig) (env : Env) : Prop :=
  exists s, en_psi env = Some s /\ host_causes pc s <> [].

(** An episode that began at [t0] and no calm tick has ended. *)
Definition episode (pc : PressureConfig) (envs : list Env) (t0 : Z) : Prop :=
  exists before start after, envs = before ++ start :: after
    /\ en_host_now_ms start = t0 /\ pressed pc start /\ Forall (fun e => ~ calm pc e) after.

Record host_inv (pc : PressureConfig) (envs : list Env) (parked : option Z)
    (st : HostPressureState) : Prop := mk_host_inv {
  hi_config : hp_config st = pc;
  hi_episode : forall t0, hp_episode_started_ms st = Some t0 -> episode pc envs t0;
  hi_cooldown : hp_cooldown_until_ms st =
    (fun t => sat_add64 t (sat_mul64 (pc_cooldown_seconds pc) 1000)) <$> parked;
}.

Lemma host_inv_step pc envs parked st env st' decision :
  host_inv pc envs parked st ->
  host_state_step st (en_host_now_ms env) (en_psi env) = (st', decision) ->
  host_inv pc (envs ++ [env]) parked st'
  /\ forall causes, decision = Host_Critical causes true ->
       exists t0, episode pc (envs ++ [env]) t0
         /\ (sat_mul64 (pc_sustain_seconds pc) 1000 <= sat_sub64 (en_host_now_ms env) t0)%Z
         /\ forall t, parked = Some t ->
              (sat_add64 t (sat_mul64 (pc_cooldown_seconds pc) 1000) <= en_host_now_ms env)%Z.
Proof.
  intros [Hc He Hcd] Hstep. unfold host_state_step in Hstep.
  assert (Hkeep : forall t0, ~ calm pc env -> hp_episode_started_ms st = Some t0 ->
            episode pc (envs ++ [env]) t0).
  { intros t0 Hnc Ht0. destruct (He t0 Ht0) as (b & s & a & -> & H1 & H2 & H3).
    exists b, s, (a ++ [env]). rewrite <- app_assoc. split_and!; try done.
    apply Forall_app. split; [done|]. by constructor. }
  destruct (en_psi env) as [s|] eqn:Hs.
  2: { injection Hstep as <- <-. split; [|by intros ? [=]]. split; try done.
       intros t0 Ht0. apply Hkeep; [|done]. intros (s & Hs' & _). congruence. }
  rewrite Hc in Hstep. destruct (host_causes pc s) as [|c cs] eqn:Hcs.
  { injection Hstep as <- <-. split; [|by intros ? [=]]. by split. }
  injection Hstep as <- <-.
  assert (Hep : episode pc (envs ++ [env]) (default (en_host_now_ms env) (hp_episode_started_ms st))).
  { destruct (hp_episode_started_ms st) as [t0|]; simpl.
    - apply Hkeep; [|done]. intros (s' & Hs' & Hnil). congruence.
    - exists envs, env, []. split_and!; try done. exists s. by rewrite Hs, Hcs. }
  split.
  - split; simpl; [done| |done]. by intros t0 [= <-].
  - intros causes [= _ Hpark]. apply andb_true_iff in Hpark as [Hsus%Z.leb_le Hcool].
    eexists. split; [exact Hep|]. split; [done|]. intros t ->. rewrite Hcd in Hcool. simpl in Hcool.
    by apply Z.leb_le.
Qed.

Lemma record_parked_inv pc envs parked st t :
  host_inv pc envs parked st -> host_inv pc envs (Some t) (record_parked st t).
Proof. intros [Hc He Hcd]. unfold record_parked. split; simpl; [done|done|]. by rewrite Hc. Qed.

(** What the host part of a tick may do, and the invariant over it. *)
Lemma host_part_spec pc envs parked g env g' host :
  host_inv pc envs parked (gd_host_pressure g) -> host_part config g env = (g', host) ->
  (host_inv pc (envs ++ [env]) parked (gd_host_pressure g')
   /\ forall n t, Ev_host_suspend n t ∉ host)
  \/ (exists name t causes rest, host_inv pc (envs ++ [env]) (Some t) (gd_host_pressure g')
       /\ host = Ev_host_suspend name t :: rest /\ (forall n t, Ev_host_suspend n t ∉ rest)
       /\ (host_state_step (gd_host_pressure g) (en_host_now_ms env) (en_psi env)).2
          = Host_Critical causes true
       /\ mc_enabled config = true /\ en_host_pending env = None
       /\ en_host_snapshot env = true /\ en_host_suspend env name = Some t
       /\ exists c cs, en_host_candidates env = c :: cs /\ name = hc_name c).
Proof.
  intros Hinv. unfold host_part.
  destruct (host_state_step _ _ _) as [hp decision] eqn:Hstep.
  destruct (host_inv_step _ _ _ _ _ _ _ Hinv Hstep) as [Hinv' _]. cbv zeta. cbn [snd].
  set (act := if mc_enabled config then apply_host_action _ _ _ else _).
  assert (Hact : act.2 = None \/ exists name t causes, act.2 = Some (name, t)
    /\ decision = Host_Critical causes true /\ mc_enabled config = true
    /\ en_host_pending env = None /\ en_host_snapshot env = true
    /\ en_host_suspend env name = Some t
    /\ exists c cs, en_host_candidates env = c :: cs /\ name = hc_name c).
  { subst act. destruct (mc_enabled config); [|by left]. cbn [andb].
    unfold apply_host_action, host_step.
    destruct decision as [| |causes [|]]; try by left. cbn [negb andb].
    destruct (en_host_pending env) as [started|]; [by left|].
    destruct (en_host_candidates env) as [|c cs]; [by left|]. cbn [hd_candidate].
    destruct (en_host_snapshot env); [|by left].
    destruct (en_host_suspend env (hc_name c)) as [t|] eqn:Hsus; [|by left].
    right. exists (hc_name c), t, causes. split_and!; try done. by exists c, cs. }
  clearbody act. destruct act as [action parked']. cbn [snd] in Hact.
  set (told := match hd_status action with Some _ => _ | None => _ end).
  assert (Htold : forall n t, Ev_host_suspend n t ∉ told.2).
  { intros n t. subst told. destruct (hd_status action) as [st|]; [|by apply not_elem_of_nil].
    destruct (should_broadcast_resource _ _ _ st); [|by apply not_elem_of_nil].
    by intros ?%list_elem_of_singleton. }
  clearbody told. destruct told as [[status bms] told]. cbn [snd] in Htold.
  intros [= <- <-]. simpl.
  destruct Hact as [->|(name & t & causes & -> & -> & H1 & H2 & H3 & H4 & H5)].
  - left. split; [done|]. exact Htold.
  - right. exists name, t, causes, told. split_and!; try done. by apply (record_parked_inv pc _ parked).
Qed.

Lemma last_park_app es es' :
  last_park (es ++ es') =
    foldl (fun p e => match e with Ev_host_suspend _ t => Some t | _ => p end) (last_park es) es'.
Proof. apply foldl_app. Qed.

Lemma last_park_quiet p es :
  (forall n t, Ev_host_suspend n t ∉ es) ->
  foldl (fun p e => match e with Ev_host_suspend _ t => Some t | _ => p end) p es = p.
Proof.
  revert p. induction es as [|e es IH]; intros p Hno; simpl; [done|].
  rewrite IH by (intros n t Hin; apply (Hno n t); by right).
  destruct e; try done. exfalso. apply (Hno name signaled_at_ms). left.
Qed.

Lemma tick_host g env g' es :
  tick g env = (g', es) ->
  exists front host g1, es = front ++ host
    /\ (forall n t, Ev_host_suspend n t ∉ front)
    /\ (g', host) = (if host_psi_enabled then host_part config g1 env else (g1, []))
    /\ gd_host_pressure g1 = gd_host_pressure g.
Proof.
  intros Ht. destruct (tick_inv _ _ _ _ Ht) as (stats & mem & host & g1 & -> & Hst & _ & Hg & Hhp & Hmem).
  exists (stats ++ mem), host, g1. rewrite <- app_assoc. split_and!; try done.
  intros n t [Hin|Hin]%elem_of_app.
  - rewrite Forall_forall in Hst. by apply Hst in Hin.
  - destruct Hmem as [[-> _]|(budget & cur & per & _ & Hm)]; [by apply elem_of_nil in Hin|].
    unfold memory_part in Hm. cbv zeta in Hm.
    destruct (if mc_enabled config then _ else _) as [d suspended].
    destruct (should_broadcast _ _ _ _ d); injection Hm as _ _ _ ->;
      destruct suspended; apply list_elem_of_In in Hin; simpl in Hin; intuition congruence.
Qed.

Hypothesis psi : host_psi_enabled = true.

Lemma ticks_host_inv pc past parked g envs g' es :
  host_inv pc past parked (gd_host_pressure g) -> ticks g envs = (g', es) ->
  host_inv pc (past ++ envs)
    (foldl (fun p e => match e with Ev_host_suspend _ t => Some t | _ => p end) parked es)
    (gd_host_pressure g').
Proof.
  revert past parked g es. induction envs as [|env envs IH]; intros past parked g es Hinv Ht;
    cbn [Guardian.ticks] in Ht.
  - injection Ht as <- <-. by rewrite app_nil_r.
  - destruct (tick g env) as [g1 es1] eqn:Ht1. destruct (ticks g1 envs) as [g2 es2] eqn:Ht2.
    injection Ht as <- <-.
    destruct (tick_host _ _ _ _ Ht1) as (front & host & gm & -> & Hfront & Hg & Hgm).
    rewrite psi in Hg. symmetry in Hg. rewrite <- Hgm in Hinv.
    rewrite !foldl_app, (last_park_quiet _ front) by done.
    rewrite cons_middle, app_assoc.
    destruct (host_part_spec pc past parked gm env g1 host Hinv Hg)
      as [[Hinv1 Hno]|(n & t & cs & rest & Hinv1 & -> & Hno & _)].
    + rewrite (last_park_quiet _ host) by done. by apply (IH _ parked g1).
    + cbn [foldl]. rewrite (last_park_quiet _ rest) by done. by apply (IH _ (Some t) g1).
Qed.

(** A session is parked for host pressure only with cause: at every tick since
    some earlier one the readable PSI samples showed pressure, that one lies at
    least the configured time back, the cool-down after the last automatic parking
    is over, nothing is pending, and the snapshot succeeded just before. *)
Theorem host_park_justified (pc : PressureConfig) (envs : list Env) (g : Guardian)
    (es : list event) (env : Env) (g' : Guardian) (es' : list event) (name : string) (at_ms : Z) :
  ticks (initial pc) envs = (g, es) -> tick g env = (g', es') ->
  Ev_host_suspend name at_ms ∈ es' ->
  mc_enabled config = true /\ en_host_pending env = None /\ en_host_snapshot env = true
  /\ en_host_suspend env name = Some at_ms
  /\ (exists c cs, en_host_candidates env = c :: cs /\ name = hc_name c)
  /\ exists t0, episode pc (envs ++ [env]) t0
       /\ (sat_mul64 (pc_sustain_seconds pc) 1000 <= sat_sub64 (en_host_now_ms env) t0)%Z
       /\ forall t, last_park es = Some t ->
            (sat_add64 t (sat_mul64 (pc_cooldown_seconds pc) 1000) <= en_host_now_ms env)%Z.
Proof.
  intros Hrun Ht Hin.
  assert (H0 : host_inv pc [] None (gd_host_pressure (initial pc)))
    by (split; [done|by intros t0 [=]|done]).
  pose proof (ticks_host_inv pc [] None (initial pc) envs g es H0 Hrun) as Hinv. simpl in Hinv.
  destruct (tick_host _ _ _ _ Ht) as (front & host & gm & -> & Hfront & Hg & Hgm).
  rewrite psi in Hg. symmetry in Hg. rewrite <- Hgm in Hinv.
  apply elem_of_app in Hin as [Hin|Hin]; [by apply Hfront in Hin|].
  destruct (host_part_spec pc envs _ gm env g' host Hinv Hg)
    as [[_ Hno]|(n & t & cs & rest & _ & -> & Hno & Hdec & H1 & H2 & H3 & H4 & H5)];
    [by apply Hno in Hin|].
  apply elem_of_cons in Hin as [[= <- <-]|Hin]; [|by apply Hno in Hin].
  split_and!; try done.
  destruct (host_state_step (gd_host_pressure gm) (en_host_now_ms env) (en_psi env))
    as [st' decision] eqn:Hst.
  destruct (host_inv_step _ _ _ _ _ _ _ Hinv Hst) as [_ Hcan]. simpl in Hdec.
  by apply (Hcan cs).
Qed.
End safety.

(** ** A sample lost every third tick *)

(** With cgroup containment every third tick ignores the charge: the sample is
    taken for the telemetry before the pressure decision, which then has none, so
    nothing is parked or told however far the charge is over the budget. *)
Theorem third_tick_blind (host_psi_enabled : bool) (config : MemoryConfig) (g : Guardian)
    (env : Env) :
  ((gd_tick g + 1) mod 2 ^ 64 mod 3 = 0)%Z ->
  let '(g', es) := tick true host_psi_enabled config g env in
  gd_level g' = gd_level g /\ gd_blocked g' = gd_blocked g
  /\ (forall l c b bl, Ev_pressure l c b bl ∉ es) /\ forall name, Ev_suspend name ∉ es.
Proof.
  intros H3. unfold tick.
  destruct (telemetry true _ _ env) as [[[samples stats] c] r] eqn:Ht.
  pose proof (telemetry_stats _ _ _ _ _ _ _ _ Ht) as Hst.
  assert (c = None) as ->.
  { unfold telemetry in Ht. rewrite H3 in Ht. cbn [negb Z.eqb] in Ht.
    destruct (en_cgroup env) as [[total per]|]; [|by simplify_eq].
    destruct (record_all _ _). by simplify_eq. }
  cbn [select_pressure_sample].
  set (res := match en_budget env with Some _ => _ | None => _ end).
  assert (exists gm, res = (gm, stats) /\ gd_level gm = gd_level g /\ gd_blocked gm = gd_blocked g)
    as (gm & -> & Hl & Hb) by (subst res; destruct (en_budget env); eauto).
  assert (Hquiet : forall es, Forall is_host es ->
    (forall l c b bl, Ev_pressure l c b bl ∉ stats ++ es)
    /\ forall name, Ev_suspend name ∉ stats ++ es).
  { intros es Hes. rewrite Forall_forall in Hst, Hes.
    split; intros; intros [Hin|Hin]%elem_of_app; (by apply Hst in Hin) || by apply Hes in Hin. }
  destruct host_psi_enabled.
  - pose proof (host_part_events config gm env) as Hh.
    destruct (host_part config gm env) as [g2 host] eqn:Hp.
    assert (gd_level g2 = gd_level gm /\ gd_blocked g2 = gd_blocked gm) as [-> ->].
    { unfold host_part in Hp. destruct (host_state_step _ _ _) as [hp decision].
      destruct (if mc_enabled config then _ else _) as [action parked]. cbv zeta in Hp.
      destruct (match hd_status action with Some _ => _ | None => _ end) as [[? ?] ?].
      by injection Hp as <- _. }
    split_and!; try done; by apply Hquiet.
  - destruct (Hquiet [] ltac:(constructor)) as [H1 H2]. rewrite app_nil_r in H1, H2.
    by split_and!.
Qed.

(** ** Configuration, specified *)

Definition percent_ok (x : f64) : Prop := exists q, x = Finite q /\ (0 <= q <= 100)%Q.

Lemma clamp_ok q : (0 <= clamp_percent q <= 100)%Q.
Proof.
  unfold clamp_percent. destruct (Qle_bool 0 q) eqn:H0; simpl; [|split; discriminate].
  destruct (Qle_bool q 100) eqn:H1; simpl; [|split; discriminate].
  split; by apply Qle_bool_iff.
Qed.

Lemma normalized_percent_ok v d : percent_ok d -> percent_ok (normalized_percent v d).
Proof. intros Hd. destruct v as [[q|]|]; try done. exists (clamp_percent q). split; [done|apply clamp_ok]. Qed.

Lemma normalized_percent_kept v d :
  existsb (fun value => match value with
                        | Finite q => negb (Qle_bool 0 q && Qle_bool q 100)
                        | NotFinite => true
                        end) (omap id [v]) = false ->
  normalized_percent v d = default d v.
Proof.
  destruct v as [[q|]|]; simpl; try done. rewrite orb_false_r.
  intros [H0 H1]%negb_false_iff%andb_true_iff. unfold clamp_percent. by rewrite H0, H1.
Qed.

(** C39. Whatever the configuration file holds, the pressure policy in force has
    finite thresholds between 0 and 100 percent and non-zero intervals, and a
    configuration not reported as normalized is in force as written, with the
    defaults for what it leaves out. *)
Theorem pressure_config_sound (raw : RawPressureConfig) :
  let c := deserialize_pressure raw in
  let d := default_pressure_config in
  (percent_ok (pc_cpu_some_percent c) /\ percent_ok (pc_io_full_percent c)
   /\ percent_ok (pc_memory_full_percent c)
   /\ pc_sustain_seconds c <> 0%Z /\ pc_cooldown_seconds c <> 0%Z)
  /\ if was_normalized raw then True
     else c = mk_pressure_config (default (pc_cpu_some_percent d) (raw_cpu_some_percent raw))
                (default (pc_io_full_percent d) (raw_io_full_percent raw))
                (default (pc_memory_full_percent d) (raw_memory_full_percent raw))
                (default (pc_sustain_seconds d) (raw_sustain_seconds raw))
                (default (pc_cooldown_seconds d) (raw_cooldown_seconds raw)).
Proof.
  intros c d. destruct raw as [cpu io mem sus cool]. subst c d. split.
  - split_and!; simpl; try (apply normalized_percent_ok; eexists; split; [done|split; discriminate]).
    + destruct sus as [s|]; simpl; [|done]. destruct (Z.eqb_spec s 0); [done|done].
    + destruct cool as [s|]; simpl; [|done]. destruct (Z.eqb_spec s 0); [done|done].
  - destruct (was_normalized _) eqn:Hw; [done|]. unfold was_normalized in Hw. simpl in Hw.
    apply orb_false_iff in Hw as [Hp Hi].
    assert (Hsplit : forall (A : Type) (p : A -> bool) (o : option A) (l : list A),
      existsb p (match o with Some x => x :: l | None => l end) = false ->
      existsb p (omap id [o]) = false /\ existsb p l = false).
    { intros A p [x|] l; simpl; [|done]. by intros [-> ->]%orb_false_iff. }
    apply (Hsplit f64) in Hp as [Hcpu Hp]. apply (Hsplit f64) in Hp as [Hio Hp].
    apply (Hsplit f64) in Hp as [Hmem _].
    apply (Hsplit Z) in Hi as [Hsus Hi]. apply (Hsplit Z) in Hi as [Hcool _].
    unfold deserialize_pressure. cbn [raw_cpu_some_percent raw_io_full_percent
      raw_memory_full_percent raw_sustain_seconds raw_cooldown_seconds].
    rewrite !normalized_percent_kept by done. f_equal.
    + destruct sus as [[|s|s]|]; done.
    + destruct cool as [[|s|s]|]; done.
Qed.

(** The effective memory budget never exceeds the cgroup limit, is at least
    512 MiB unless that limit is lower, and no session's ceiling exceeds it. *)
Theorem memory_budget_bounds (c : MemoryConfig) (physical_kb cgroup_limit_kb : option Z) (b : Z) :
  budget_kb c physical_kb cgroup_limit_kb = Some b ->
  (forall l, cgroup_limit_kb = Some l -> b <= l)%Z
  /\ (512 * 1024 <= b \/ cgroup_limit_kb = Some b)%Z
  /\ (session_high_kb c (Some b) <= b)%Z
  /\ (forall mb, mc_budget_mb c = Some mb -> cgroup_limit_kb = None ->
        b = Z.max (Z.min u64_max (mb * 1024)) (512 * 1024))%Z.
Proof.
  unfold budget_kb, session_high_kb. intros H. apply bind_Some in H as (r & Hr & [= <-]).
  split_and!.
  - intros l ->. lia.
  - destruct cgroup_limit_kb as [l|]; [|left; lia].
    destruct (Z.le_gt_cases l (Z.max r (512 * 1024))); [right; f_equal; lia|left; lia].
  - lia.
  - intros mb Hmb ->. rewrite Hmb in Hr. simpl in Hr. by injection Hr as <-.
Qed.

Lemma memory_budget_bounds_witness :
  budget_kb default_memory_config (Some 32000000%Z) (Some 9000000%Z) = Some 9000000%Z
  /\ (session_high_kb default_memory_config (Some 9000000%Z) <= 9000000)%Z.
Proof.
  split; [reflexivity|].
  apply (memory_budget_bounds default_memory_config (Some 32000000%Z) (Some 9000000%Z)). reflexivity.
Defined.

(** ** Concrete ticks *)

(** Two old agents and one in use, at 90 percent of the budget, PSI unreadable
    until [psi]. *)
Definition example_env (now : Z) (psi : option HostPressureSample) : Env :=
  mk_env (Some 1000%Z) (Some (900%Z, ∅)) None now None
    (fun _ => [mk_candidate "busy" 10 (now - 5) true true true false;
               mk_candidate "old" 20 1 true true true false;
               mk_candidate "older" 5 0 true true true false]%Z)
    true (fun _ => true) psi now None [mk_host_candidate "idle" 7 0] true (fun _ => Some now).

Definition stalled : option HostPressureSample :=
  Some (mk_host_sample (Finite 90) (Finite 0) (Finite 0)).


Lemma host_park_justified_witness :
  let envs := [example_env 1000 stalled; example_env 2000 None] in
  let '(g, es) := ticks true true default_memory_config (initial default_pressure_config) envs in
  let '(g', es') := tick true true default_memory_config g (example_env 121000 stalled) in
  exists t0, episode default_pressure_config (envs ++ [example_env 121000 stalled]) t0
    /\ (120000 <= 121000 - t0)%Z.
Proof.
  intros envs. destruct (ticks _ _ _ _ envs) as [g es] eqn:Hrun.
  destruct (tick _ _ _ g _) as [g' es'] eqn:Ht.
  assert (Hin : Ev_host_suspend "idle" 121000 ∈ es').
  { vm_compute in Hrun. injection Hrun as <- <-. vm_compute in Ht. injection Ht as <- <-.
    apply list_elem_of_In. simpl. tauto. }
  destruct (host_park_justified true true default_memory_config eq_refl default_pressure_config
    envs g es (example_env 121000 stalled) g' es' "idle" 121000 Hrun Ht Hin)
    as (_ & _ & _ & _ & _ & t0 & He & Hs & _).
  exists t0. split; [exact He|]. unfold sat_sub64 in Hs. vm_compute (sat_mul64 _ _) in Hs.
  simpl in Hs. lia.
Defined.

Lemma third_tick_blind_witness :
  let g := (ticks true true default_memory_config (initial default_pressure_config)
              [example_env 1000 None; example_env 2000 None]).1 in
  let '(g', es) := tick true true default_memory_config g (example_env 500000 None) in
  forall name, Ev_suspend name ∉ es.
Proof.
  intros g. pose proof (third_tick_blind true default_memory_config g (example_env 500000 None)
    eq_refl) as H.
  destruct (tick _ _ _ g _) as [g' es]. apply H.
Defined.
