(* ===== verification/Upstream.v ===== *)
(** * Requests to a provider and the first-frame gate

    [crates/amber-router/src/upstream.rs] (the request one attempt sends) and
    [crates/amber-router/src/sse.rs] (what of a streamed answer is committed).  A
    [serde_json::Value] is data here; parsing its text is a parameter. *)
From S2P Require Import Prelude Utf8.

(** ** JSON values *)

Inductive Value :=
| VNull
| VBool (b : bool)
| VNumber (text : string)
| VString (s : string)
| VArray (l : list Value)
| VObject (fields : list (string * Value)).

(** [serde_json::Map]: a field is there once. *)
Definition field_get (fields : list (string * Value)) (k : string) : option Value :=
  snd <$> find_first (fun f => String.eqb f.1 k) fields.

Definition field_remove (fields : list (string * Value)) (k : string) : list (string * Value) :=
  List.filter (fun f => negb (String.eqb f.1 k)) fields.

Definition field_insert (fields : list (string * Value)) (k : string) (v : Value)
  : list (string * Value) :=
  (k, v) :: field_remove fields k.

(** [Value::get] with a string index. *)
Definition get (v : Value) (k : string) : option Value :=
  match v with VObject fields => field_get fields k | _ => None end.

(** ** The request *)

Definition prepare_body (original : Value) (model_id : string) (drop_params : list string) : Value :=
  match original with
  | VObject obj => VObject (foldl field_remove (field_insert obj "model" (VString model_id)) drop_params)
  | _ => original
  end.

Definition is_stream_requested (body : Value) : bool :=
  match get body "stream" with Some (VBool b) => b | _ => false end.

Definition slash : byte := 47%Z.

Fixpoint strip_slashes (l : list byte) : list byte :=
  match l with
  | b :: l' => if (b =? slash)%Z then strip_slashes l' else l
  | [] => []
  end.

(** [trim_end_matches('/')] *)
Definition trim_end_slashes (s : string) : string :=
  string_of_bytes (reverse (strip_slashes (reverse (bytes_of_string s)))).

Definition chat_completions_url (base_url : string) : string :=
  trim_end_slashes base_url +:+ "/chat/completions".

(** ** The gate on a streamed answer *)

Definition done_marker : list Z := chars "[DONE]".

Section gate.
Context (from_str : list Z -> option Value).

Definition first_frame_is_error (frame : string) : bool :=
  let trimmed := trim (chars frame) in
  if match trimmed with [] => true | _ => false end || bool_decide (trimmed = done_marker) then false
  else match from_str trimmed with
       | Some v => match get v "error" with Some _ => true | None => false end
       | None => false
       end.

Inductive GateFailure :=
| UpstreamError (body : string)
| GateTimeout
| Empty.

(** What awaiting the next event before the deadline answers. *)
Inductive next_event :=
| Deadline
| Stream_end
| Event_error
| Event (data : string).

(** The events still to come after the first frame, as they arrived. *)
Record GatedStream := mk_gated { gs_first : string; gs_rest : list next_event }.

(** The loop of [gate_stream] over the events in their order; the list ends where the
    stream does. *)
Fixpoint gate_stream (events : list next_event) : result GatedStream GateFailure :=
  match events with
  | [] => Err Empty
  | Deadline :: _ => Err GateTimeout
  | Stream_end :: _ => Err Empty
  | Event_error :: _ => Err Empty
  | Event data :: events' =>
      if blank data then gate_stream events'
      else if first_frame_is_error data then Err (UpstreamError data)
      else Ok (mk_gated data events')
  end.
End gate.

(** [format!("data: {}\n\n", data)] *)
Definition sse_frame (data : string) : string :=
  "data: " +:+ data +:+ string_of_bytes [10; 10]%Z.

(** The downstream bodies: an upstream error breaks the body ([None]). *)
Fixpoint rest_bodies (events : list next_event) : list (option string) :=
  match events with
  | Event data :: events' => Some (sse_frame data) :: rest_bodies events'
  | Event_error :: events' => None :: rest_bodies events'
  | _ => []
  end.

Definition into_body_stream (g : GatedStream) : list (option string) :=
  Some (sse_frame (gs_first g)) :: rest_bodies (gs_rest g).

(** ** What is sent *)

Lemma find_first_filter {A} (p q : A -> bool) l :
  (forall x, p x = true -> q x = true) -> find_first p (List.filter q l) = find_first p l.
Proof.
  intros H. induction l as [|x l IH]; [done|]. simpl. destruct (q x) eqn:Hq; simpl.
  - by rewrite IH.
  - rewrite IH. destruct (p x) eqn:Hp; [|done]. by rewrite H in Hq.
Qed.

Lemma field_get_remove fields k k' :
  field_get (field_remove fields k) k' = if String.eqb k k' then None else field_get fields k'.
Proof.
  unfold field_get, field_remove. destruct (String.eqb_spec k k') as [<-|Hne].
  - induction fields as [|[k0 v] fields IH]; [done|]. simpl.
    destruct (String.eqb_spec k0 k) as [->|?]; simpl; [done|].
    destruct (String.eqb_spec k0 k); done.
  - rewrite find_first_filter; [done|]. intros [k0 v] Hk. simpl in *.
    apply String.eqb_eq in Hk as ->. apply negb_true_iff, String.eqb_neq. congruence.
Qed.

Lemma field_get_insert fields k v k' :
  field_get (field_insert fields k v) k' = if String.eqb k k' then Some v else field_get fields k'.
Proof.
  unfold field_insert. unfold field_get at 1. simpl. destruct (String.eqb k k') eqn:E; [done|].
  change (field_get (field_remove fields k) k' = field_get fields k'). by rewrite field_get_remove, E.
Qed.

Lemma field_get_remove_all fields ks k :
  field_get (foldl field_remove fields ks) k
  = if bool_decide (k ∈ ks) then None else field_get fields k.
Proof.
  revert fields. induction ks as [|k0 ks IH]; intros fields; [done|]. simpl. rewrite IH, field_get_remove.
  destruct (String.eqb_spec k0 k) as [->|Hne].
  - rewrite (bool_decide_eq_true_2 (k ∈ k :: ks)) by (by left). by destruct (bool_decide _).
  - apply (f_equal (fun b : bool => if b then None else field_get fields k)).
    apply bool_decide_ext. rewrite elem_of_cons. split; [by right|by intros [->|?]].
Qed.

(** The body sent to a provider is the client's with exactly two changes: the
    parameters the provider refuses are gone, and the model is the endpoint's own;
    a body that is no object is sent as it is. *)
Theorem prepare_body_spec (original : Value) (model_id : string) (drop_params : list string) (k : string) :
  get (prepare_body original model_id drop_params) k =
    match original with
    | VObject fields =>
        if bool_decide (k ∈ drop_params) then None
        else if String.eqb k "model" then Some (VString model_id)
        else field_get fields k
    | _ => None
    end.
Proof.
  destruct original; try done. unfold prepare_body, get.
  rewrite field_get_remove_all, field_get_insert. by rewrite (String.eqb_sym "model").
Qed.

(** ** What is committed *)

(** The gate commits a stream iff its first frame that is not blank arrived in
    time and is no error; everything downstream is then that frame and what
    followed it, and of a refused stream nothing is. *)
Theorem gate_stream_spec (from_str : list Z -> option Value) (events : list next_event) (g : GatedStream) :
  gate_stream from_str events = Ok g <->
  exists keepalives, events = map Event keepalives ++ Event (gs_first g) :: gs_rest g
    /\ Forall (fun data => blank data = true) keepalives
    /\ blank (gs_first g) = false /\ first_frame_is_error from_str (gs_first g) = false.
Proof.
  split.
  - revert g. induction events as [|ev events IH]; intros g H; [done|]. destruct ev as [| | |data]; try done.
    simpl in H. destruct (blank data) eqn:Ht.
    + destruct (IH g H) as (ks & -> & Hks & Hrest). exists (data :: ks). split; [done|]. split; [|done].
      by constructor.
    + destruct (first_frame_is_error from_str data) eqn:He; [done|]. injection H as <-.
      by exists [].
  - intros (ks & -> & Hks & Hnb & He). induction Hks as [|k ks Hk _ IH]; simpl.
    + rewrite Hnb, He. by destruct g.
    + by rewrite Hk.
Qed.
