(* ===== verification/LockRecord.v ===== *)
(** * The layout lock's record

    [crates/amber/src/layout_cas.rs], the text of the lock file: what a writer
    publishes, what an inspector accepts, the record an older version left half
    written, and what the identity of the owner says about reclaiming the lock.
    Texts are bytes. *)
From S2P Require Import Prelude Utf8.

Definition text := list byte.

Record LayoutLockRecord := mk_record { lr_pid : Z; lr_start : text; lr_token : text }.

#[export] Instance record_eq_dec : EqDecision LayoutLockRecord.
Proof. solve_decision. Defined.

Inductive OwnerState := OS_Live | OS_Dead | OS_Unknown.

Definition newline : byte := 10%Z.
Definition equals : byte := 61%Z.

Definition LOCK_PROTOCOL : text := bytes_of_string "amber-layout-lock-v1".
Definition k_pid : text := bytes_of_string "pid".
Definition k_start : text := bytes_of_string "start".
Definition k_token : text := bytes_of_string "token".
Definition k_created : text := bytes_of_string "created".

Definition format_lock_record (r : LayoutLockRecord) : text :=
  LOCK_PROTOCOL ++ newline :: k_pid ++ equals :: dec (lr_pid r)
    ++ newline :: k_start ++ equals :: lr_start r
    ++ newline :: k_token ++ equals :: lr_token r ++ [newline].

Definition field_byte (b : byte) : bool :=
  is_ascii_alphanumeric b || existsb (Z.eqb b) [95; 46; 58; 45]%Z.

Definition valid_lock_field (value : text) : bool :=
  negb (bool_decide (value = [])) && (length value <=? 256) && forallb field_byte value.

(** [str::split_once('=')] *)
Definition split_once (line : text) : option (text * text) :=
  i ← position (Z.eqb equals) line; Some (take i line, drop (S i) line).

(** [strip_suffix('\n')] *)
Definition strip_newline (t : text) : option text :=
  match last t with
  | Some b => if (b =? newline)%Z then Some (removelast t) else None
  | None => None
  end.

(** What a field of the process id holds. *)
Definition parse_pid (value : text) : option Z :=
  n ← parse_uint u32_max value; if (0 <? n)%Z then Some n else None.

(** The three fields and which of them were seen. *)
Record Fields := mk_fields {
  fl_pid : option Z; fl_start : option text; fl_token : option text;
  fl_seen_pid : bool; fl_seen_start : bool; fl_seen_token : bool;
}.

Definition no_fields : Fields := mk_fields None None None false false false.

(** One line of [parse_lock_record]'s loop. *)
Definition record_line (f : Fields) (line : text) : option Fields :=
  if bool_decide (line = []) then None
  else
    '(key, value) ← split_once line;
    if bool_decide (value = []) || negb (length (List.filter (Z.eqb equals) line) =? 1) then None
    else if bool_decide (key = k_pid) && negb (fl_seen_pid f) then
      if forallb is_digit value then
        Some (mk_fields (parse_pid value) (fl_start f) (fl_token f) true (fl_seen_start f) (fl_seen_token f))
      else None
    else if bool_decide (key = k_start) && negb (fl_seen_start f) then
      Some (mk_fields (fl_pid f) (if valid_lock_field value then Some value else fl_start f) (fl_token f)
              (fl_seen_pid f) true (fl_seen_token f))
    else if bool_decide (key = k_token) && negb (fl_seen_token f) then
      Some (mk_fields (fl_pid f) (fl_start f) (if valid_lock_field value then Some value else fl_token f)
              (fl_seen_pid f) (fl_seen_start f) true)
    else None.

Fixpoint record_lines (f : Fields) (lines : list text) : option Fields :=
  match lines with
  | [] => Some f
  | line :: lines' => f' ← record_line f line; record_lines f' lines'
  end.

Definition parse_lock_record (t : text) : option LayoutLockRecord :=
  body ← strip_newline t;
  match split_on newline body with
  | header :: lines =>
      if bool_decide (header = LOCK_PROTOCOL) then
        f ← record_lines no_fields lines;
        pid ← fl_pid f; start ← fl_start f; token ← fl_token f;
        Some (mk_record pid start token)
      else None
  | [] => None
  end.

(** The fields of a legacy record. *)
Record LegacyFields := mk_legacy {
  lf_pid : option Z; lf_start : option text;
  lf_seen_pid : bool; lf_seen_start : bool; lf_seen_token : bool; lf_seen_created : bool;
}.

Definition legacy_line (f : LegacyFields) (line : text) : option LegacyFields :=
  '(key, value) ← split_once line;
  if bool_decide (key = k_pid) && negb (lf_seen_pid f) then
    if forallb is_digit value then
      Some (mk_legacy (parse_pid value) (lf_start f) true (lf_seen_start f) (lf_seen_token f) (lf_seen_created f))
    else None
  else if bool_decide (key = k_start) && negb (lf_seen_start f) then
    if valid_lock_field value then
      Some (mk_legacy (lf_pid f) (Some value) (lf_seen_pid f) true (lf_seen_token f) (lf_seen_created f))
    else None
  else if bool_decide (key = k_token) && negb (lf_seen_token f) then
    if valid_lock_field value then
      Some (mk_legacy (lf_pid f) (lf_start f) (lf_seen_pid f) (lf_seen_start f) true (lf_seen_created f))
    else None
  else if bool_decide (key = k_created) && negb (lf_seen_created f) then
    if valid_lock_field value then
      Some (mk_legacy (lf_pid f) (lf_start f) (lf_seen_pid f) (lf_seen_start f) (lf_seen_token f) true)
    else None
  else None.

Fixpoint legacy_lines (f : LegacyFields) (lines : list text) : option LegacyFields :=
  match lines with
  | [] => Some f
  | line :: lines' => f' ← legacy_line f line; legacy_lines f' lines'
  end.

Definition parse_legacy_owner (t : text) : option LayoutLockRecord :=
  match split_on newline (default t (strip_newline t)) with
  | header :: lines =>
      if bool_decide (header = LOCK_PROTOCOL) then
        f ← legacy_lines (mk_legacy None None false false false false) lines;
        pid ← lf_pid f; start ← lf_start f;
        Some (mk_record pid start [])
      else None
  | [] => None
  end.

(** The owner an inspector attributes a lock file to. *)
Definition lock_owner (t : text) : option LayoutLockRecord :=
  match parse_lock_record t with
  | Some r => Some r
  | None => parse_legacy_owner t
  end.

Definition unknown : text := bytes_of_string "unknown".

Fixpoint starts_with (prefix l : text) : bool :=
  match prefix, l with
  | [], _ => true
  | b :: prefix', c :: l' => (b =? c)%Z && starts_with prefix' l'
  | _, [] => false
  end.

(** The owner's state, from what probing its process answered: an error, no such
    process, or the start identity of the process there is. *)
Definition owner_state (probe : result (option text) unit) (r : LayoutLockRecord) : OwnerState :=
  match probe with
  | Err _ => OS_Unknown
  | Ok identity =>
      if bool_decide (lr_start r = unknown) || starts_with (unknown ++ [58%Z]) (lr_start r) then OS_Unknown
      else match identity with
           | None => OS_Dead
           | Some s => if bool_decide (s = lr_start r) then OS_Live else OS_Dead
           end
  end.

(** ** Round trip *)

(** A record a writer publishes. *)
Definition record_ok (r : LayoutLockRecord) : Prop :=
  (0 < lr_pid r <= u32_max)%Z /\ valid_lock_field (lr_start r) = true /\ valid_lock_field (lr_token r) = true.

Lemma field_byte_plain b : field_byte b = true -> b <> newline /\ b <> equals.
Proof. intros H. split; intros ->; done. Qed.

Lemma valid_field_plain v :
  valid_lock_field v = true -> v <> [] /\ Forall (fun b => b <> newline) v /\ Forall (fun b => b <> equals) v.
Proof.
  unfold valid_lock_field. rewrite !andb_true_iff, negb_true_iff, bool_decide_eq_false, forallb_forall.
  intros [[Hne _] Hall]. split; [done|].
  split; apply Forall_forall; intros b Hb%list_elem_of_In; by apply field_byte_plain, Hall.
Qed.

Lemma digits_plain v :
  Forall (fun b => is_digit b = true) v -> Forall (fun b => b <> newline) v /\ Forall (fun b => b <> equals) v.
Proof. intros H. split; (eapply Forall_impl; [exact H|]); intros b Hb ->; done. Qed.

Lemma position_equals l k :
  Forall (fun b => b <> equals) l -> position (Z.eqb equals) (l ++ equals :: k) = Some (length l).
Proof.
  induction 1 as [|b l Hb _ IH]; [done|]. cbn [position app].
  destruct (Z.eqb_spec equals b); [congruence|]. by rewrite IH.
Qed.

Lemma split_once_line key value :
  Forall (fun b => b <> equals) key -> split_once (key ++ equals :: value) = Some (key, value).
Proof.
  intros H. unfold split_once. rewrite position_equals by done. simpl.
  rewrite take_app_length. f_equal. f_equal. rewrite (cons_middle equals), app_assoc.
  rewrite drop_app_length'; [done|]. rewrite length_app. simpl. lia.
Qed.

Lemma count_equals key value :
  Forall (fun b => b <> equals) key -> Forall (fun b => b <> equals) value ->
  length (List.filter (Z.eqb equals) (key ++ equals :: value)) = 1.
Proof.
  assert (Hnone : forall l, Forall (fun b => b <> equals) l -> List.filter (Z.eqb equals) l = []).
  { induction 1 as [|b l Hb _ IH]; [done|]. cbn [List.filter].
    destruct (Z.eqb_spec equals b); [congruence|done]. }
  intros Hk Hv. rewrite List.filter_app, (Hnone key Hk). simpl. by rewrite (Hnone value Hv).
Qed.

Lemma strip_newline_snoc t : strip_newline (t ++ [newline]) = Some t.
Proof. unfold strip_newline. rewrite last_snoc. simpl. by rewrite removelast_last. Qed.

(** A well-formed line passes the guards of the loop. *)
Lemma record_line_split f key value :
  Forall (fun b => b <> equals) key -> value <> [] -> Forall (fun b => b <> equals) value ->
  record_line f (key ++ equals :: value) =
    if bool_decide (key = k_pid) && negb (fl_seen_pid f) then
      if forallb is_digit value then
        Some (mk_fields (parse_pid value) (fl_start f) (fl_token f) true (fl_seen_start f) (fl_seen_token f))
      else None
    else if bool_decide (key = k_start) && negb (fl_seen_start f) then
      Some (mk_fields (fl_pid f) (if valid_lock_field value then Some value else fl_start f) (fl_token f)
              (fl_seen_pid f) true (fl_seen_token f))
    else if bool_decide (key = k_token) && negb (fl_seen_token f) then
      Some (mk_fields (fl_pid f) (fl_start f) (if valid_lock_field value then Some value else fl_token f)
              (fl_seen_pid f) (fl_seen_start f) true)
    else None.
Proof.
  intros Hk Hne Hv. unfold record_line. rewrite split_once_line, count_equals by done.
  rewrite bool_decide_eq_false_2 by (by destruct key). simpl. by rewrite bool_decide_eq_false_2.
Qed.

(** The three lines of a published record. *)
Definition record_text (r : LayoutLockRecord) : list text :=
  [k_pid ++ equals :: dec (lr_pid r); k_start ++ equals :: lr_start r; k_token ++ equals :: lr_token r].

Lemma plain_line key v :
  Forall (fun b => b <> newline) key -> Forall (fun b => b <> newline) v ->
  Forall (fun b => b <> newline) (key ++ equals :: v).
Proof. intros Hk Hv. apply Forall_app. split; [done|]. by constructor. Qed.

Lemma split_format r :
  record_ok r -> exists body, strip_newline (format_lock_record r) = Some body
    /\ split_on newline body = LOCK_PROTOCOL :: record_text r.
Proof.
  intros (Hpid & Hstart & Htoken).
  destruct (valid_field_plain _ Hstart) as (_ & Hs & _). destruct (valid_field_plain _ Htoken) as (_ & Ht & _).
  destruct (digits_plain _ (dec_digits (lr_pid r) ltac:(lia))) as [Hd _].
  assert (Hkeys : Forall (Forall (fun b => b <> newline)) [LOCK_PROTOCOL; k_pid; k_start; k_token])
    by (repeat constructor; done).
  rewrite !Forall_cons in Hkeys. destruct Hkeys as (Hp & Hk1 & Hk2 & Hk3 & _).
  exists (LOCK_PROTOCOL ++ newline :: (k_pid ++ equals :: dec (lr_pid r)) ++ newline ::
      (k_start ++ equals :: lr_start r) ++ newline :: (k_token ++ equals :: lr_token r)).
  split.
  - rewrite <- strip_newline_snoc. f_equal. unfold format_lock_record.
    repeat (rewrite <- app_assoc || rewrite <- app_comm_cons). done.
  - rewrite !split_on_cons by auto using plain_line. by rewrite split_on_none by auto using plain_line.
Qed.

Lemma parse_pid_dec n : (0 < n <= u32_max)%Z -> parse_pid (dec n) = Some n.
Proof.
  intros Hn. unfold parse_pid. rewrite parse_uint_dec by (unfold u32_max, u64_max in *; lia).
  cbn [mbind option_bind]. by rewrite (proj2 (Z.ltb_lt _ _)) by lia.
Qed.

Ltac fields := cbn [andb negb no_fields fl_pid fl_start fl_token fl_seen_pid fl_seen_start
  fl_seen_token mbind option_bind].

Lemma record_lines_format r :
  record_ok r ->
  record_lines no_fields (record_text r)
  = Some (mk_fields (Some (lr_pid r)) (Some (lr_start r)) (Some (lr_token r)) true true true).
Proof.
  intros (Hpid & Hstart & Htoken).
  destruct (valid_field_plain _ Hstart) as (Hs1 & _ & Hs3). destruct (valid_field_plain _ Htoken) as (Ht1 & _ & Ht3).
  pose proof (dec_digits (lr_pid r) ltac:(lia)) as Hd. destruct (digits_plain _ Hd) as [_ Hd3].
  assert (Hall : forallb is_digit (dec (lr_pid r)) = true).
  { apply forallb_forall. intros b Hb%list_elem_of_In. rewrite Forall_forall in Hd. by apply Hd. }
  assert (Hkeys : Forall (Forall (fun b => b <> equals)) [k_pid; k_start; k_token]) by (repeat constructor; done).
  rewrite !Forall_cons in Hkeys. destruct Hkeys as (He1 & He2 & He3 & _).
  unfold record_text. cbn [record_lines]. rewrite record_line_split by (done || apply dec_not_nil).
  rewrite Hall, parse_pid_dec by done.
  change (bool_decide (k_pid = k_pid)) with true. fields.
  rewrite record_line_split by done. fields.
  change (bool_decide (k_start = k_pid)) with false. change (bool_decide (k_start = k_start)) with true.
  rewrite Hstart. fields.
  rewrite record_line_split by done. fields.
  change (bool_decide (k_token = k_pid)) with false. change (bool_decide (k_token = k_start)) with false.
  change (bool_decide (k_token = k_token)) with true. by rewrite Htoken.
Qed.

Lemma parse_format r : record_ok r -> parse_lock_record (format_lock_record r) = Some r.
Proof.
  intros Hok. destruct (split_format r Hok) as (body & Hb & Hs). unfold parse_lock_record.
  rewrite Hb. cbn [mbind option_bind]. rewrite Hs, bool_decide_eq_true_2 by done.
  rewrite record_lines_format by done. by destruct r.
Qed.

(** ** What is accepted *)

(** The fields read so far are publishable ones. *)
Definition fields_ok (f : Fields) : Prop :=
  (forall n, fl_pid f = Some n -> (0 < n <= u32_max)%Z)
  /\ (forall v, fl_start f = Some v -> valid_lock_field v = true)
  /\ (forall v, fl_token f = Some v -> valid_lock_field v = true).

Lemma parse_pid_range v n : parse_pid v = Some n -> (0 < n <= u32_max)%Z.
Proof.
  unfold parse_pid. intros (m & Hm & H)%bind_Some. destruct (Z.ltb_spec 0 m); [|done]. injection H as <-.
  apply parse_uint_range in Hm; [lia|done].
Qed.

Lemma record_line_ok f line f' : fields_ok f -> record_line f line = Some f' -> fields_ok f'.
Proof.
  intros (H1 & H2 & H3) H. unfold record_line in H. destruct (bool_decide (line = [])); [done|].
  apply bind_Some in H as ([key value] & _ & H). destruct (_ || _); [done|].
  destruct (_ && _); [|destruct (_ && _); [|destruct (_ && _); [|done]]].
  - destruct (forallb _ _); [|done]. injection H as <-. split_and!; simpl; try done. intros n. apply parse_pid_range.
  - injection H as <-. split_and!; simpl; try done. intros v. destruct (valid_lock_field value) eqn:Hv; [|apply H2].
    by intros [= <-].
  - injection H as <-. split_and!; simpl; try done. intros v. destruct (valid_lock_field value) eqn:Hv; [|apply H3].
    by intros [= <-].
Qed.

Lemma record_lines_ok lines f f' : fields_ok f -> record_lines f lines = Some f' -> fields_ok f'.
Proof.
  revert f. induction lines as [|l lines IH]; intros f Hf H; simpl in H; [by injection H as <-|].
  apply bind_Some in H as (f1 & H1 & H). by eapply IH, H; eapply record_line_ok.
Qed.

Lemma parse_record_ok t r : parse_lock_record t = Some r -> record_ok r.
Proof.
  unfold parse_lock_record. intros (body & _ & H)%bind_Some. destruct (split_on newline body) as [|h ls]; [done|].
  destruct (bool_decide _); [|done]. apply bind_Some in H as (f & Hf & H).
  apply bind_Some in H as (pid & Hp & H). apply bind_Some in H as (start & Hs & H).
  apply bind_Some in H as (token & Ht & [= <-]).
  apply record_lines_ok in Hf as (H1 & H2 & H3); [|split_and!; done].
  split; [by apply H1|]. split; simpl; eauto.
Qed.

(** The inspector reads back exactly the record a writer published, and accepts
    no text whose record a writer could not have published. *)
Theorem lock_record_roundtrip (r : LayoutLockRecord) :
  (record_ok r -> parse_lock_record (format_lock_record r) = Some r /\ lock_owner (format_lock_record r) = Some r)
  /\ (forall t, parse_lock_record t = Some r -> record_ok r).
Proof.
  split; [|intros t; apply parse_record_ok]. intros Hok. unfold lock_owner. by rewrite parse_format.
Qed.

Lemma lock_record_roundtrip_witness :
  let r := mk_record 4711 (bytes_of_string "linux:123456") (bytes_of_string "00000000000012f3") in
  record_ok r /\ parse_lock_record (format_lock_record r) = Some r.
Proof.
  intros r. assert (Hok : record_ok r).
  { split; [vm_compute; split; [reflexivity|discriminate]|split; vm_compute; reflexivity]. }
  split; [exact Hok|]. exact (proj1 (proj1 (lock_record_roundtrip r) Hok)).
Defined.
