(* ===== verification/Calls.v ===== *)
(** * Programs of system calls

    Code that is what it asks of the system: a program is a tree whose nodes are calls,
    each with the continuation of what it answers, or a loop that used up its fuel.  [wp]
    runs one against a reading of the calls; no reading is built in. *)
From S2P Require Import Prelude.

Section Programs.
Context {Action : Type} (Answer : Action -> Type).

(** [spin]: a loop that has used up its fuel. *)
Inductive prog (A : Type) :=
| ret (a : A)
| act (a : Action) (k : Answer a -> prog A)
| spin.
End Programs.
Arguments ret {Action Answer A} a.
Arguments act {Action Answer A} a k.
Arguments spin {Action Answer A}.

Section Bind.
Context {Action : Type} {Answer : Action -> Type}.

Fixpoint pbind {A B} (m : prog Answer A) (k : A -> prog Answer B) : prog Answer B :=
  match m with
  | ret a => k a
  | act a c => act a (fun r => pbind (c r) k)
  | spin => spin
  end.

(** A program that may fail, [?] and what follows. *)
Definition try_ {A B E} (m : prog Answer (result A E)) (k : A -> prog Answer (result B E)) : prog Answer (result B E) :=
  pbind m (fun r => match r with Ok a => k a | Err e => ret (Err e) end).

Definition call (a : Action) : prog Answer (Answer a) := act a ret.

Definition pure {A E} (r : result A E) : prog Answer (result A E) := ret r.

Lemma try_ok {A B E} (a : A) (k : A -> prog Answer (result B E)) : try_ (pure (Ok a)) k = k a.
Proof. done. Qed.

Lemma try_err {A B E} (e : E) (k : A -> prog Answer (result B E)) : try_ (pure (Err e)) k = ret (Err e).
Proof. done. Qed.
End Bind.

Notation "x <~ m ; k" := (pbind m (fun x => k)) (at level 100, m at next level, right associativity) : amber_scope.
Notation "x <~? m ; k" := (try_ m (fun x => k)) (at level 100, m at next level, right associativity) : amber_scope.
Notation "m ;~? k" := (try_ m (fun _ => k)) (at level 100, right associativity) : amber_scope.

(** ** Running a program

    [does a s Q]: whatever the call [a] does to a state [s], [Q] holds of what it answers
    and the state it leaves. *)
Section Wp.
Context {Action : Type} {Answer : Action -> Type} {St : Type}.
Context (does : forall a : Action, St -> (Answer a -> St -> Prop) -> Prop) (spins : Prop).

Fixpoint wp {A} (m : prog Answer A) (s : St) (Q : A -> St -> Prop) : Prop :=
  match m with
  | ret a => Q a s
  | act a k => does a s (fun r s' => wp (k r) s' Q)
  | spin => spins
  end.

Hypothesis does_mono : forall a s (Q Q' : Answer a -> St -> Prop), (forall r s', Q r s' -> Q' r s') -> does a s Q -> does a s Q'.

Lemma prog_mono {A} (m : prog Answer A) s (Q Q' : A -> St -> Prop) : (forall a s', Q a s' -> Q' a s') -> wp m s Q -> wp m s Q'.
Proof.
  intros HQ. revert s. induction m as [a|a k IH|]; intros s; simpl; [apply HQ| |done].
  apply does_mono. intros r s'. apply IH.
Qed.

Lemma prog_bind {A B} (m : prog Answer A) (k : A -> prog Answer B) s Q :
  wp m s (fun a s' => wp (k a) s' Q) -> wp (pbind m k) s Q.
Proof.
  revert s. induction m as [a|a c IH|]; intros s; simpl; [done| |done]. apply does_mono. intros r s'. apply IH.
Qed.

Lemma prog_try {A B E} (m : prog Answer (result A E)) (k : A -> prog Answer (result B E)) s (Q : result B E -> St -> Prop) :
  wp m s (fun r s' => match r with Ok a => wp (k a) s' Q | Err e => Q (Err e) s' end) -> wp (try_ m k) s Q.
Proof. intros Hm. apply prog_bind. eapply prog_mono; [|exact Hm]. by intros [a|e] s'. Qed.
End Wp.
