(* ===== verification/LayoutFile.v ===== *)
(** * Reading the layout sidecar

    [crates/amber/src/layout_file.rs]: a bounded read of a file that another process may
    replace, cut or write at any time.  The reader is a program of the calls it makes
    ([Calls]); [raced] lets anything happen to the file before each of them. *)
From S2P Require Import Prelude Utf8 Calls.

Definition LAYOUT_FILE_MAX_BYTES : Z := 8388608.
Definition LAYOUT_READ_TIMEOUT : Z := 10 ^ 9.
Definition CHUNK : Z := 16 * 1024.

Inductive ReadError := Symlink | NotRegular | TooLarge | Changed | InvalidUtf8 | TimedOut | Io (msg : string).

Definition code (e : ReadError) : string :=
  match e with
  | Symlink => "LAYOUT_SYMLINK"
  | NotRegular => "LAYOUT_NOT_REGULAR"
  | TooLarge => "LAYOUT_FILE_LIMIT"
  | Changed => "LAYOUT_FILE_CHANGED"
  | InvalidUtf8 => "LAYOUT_INVALID_UTF8"
  | TimedOut => "LAYOUT_READ_TIMEOUT"
  | Io _ => "LAYOUT_READ_FAILED"
  end.

(** What is looked at of an [io::Error], and its text. *)
Inductive error_kind := K_not_found | K_loop | K_would_block | K_other.
Record os_error := mk_error { oe_kind : error_kind; oe_text : string }.

Definition io_error (e : os_error) : ReadError :=
  match oe_kind e with K_not_found => Io "not found" | _ => Io (oe_text e) end.

Inductive file_kind := F_regular | F_symlink | F_other.
#[export] Instance file_kind_eq_dec : EqDecision file_kind. Proof. solve_decision. Defined.

(** A file is named by its device and inode; times are in nanoseconds. *)
Definition ident : Type := Z * Z.
Record Metadata := mk_metadata {
  md_kind : file_kind; md_len : Z; md_ident : ident; md_modified : option Z; md_ctime : Z }.

Definition is_file (m : Metadata) : bool := bool_decide (md_kind m = F_regular).
Definition is_symlink (m : Metadata) : bool := bool_decide (md_kind m = F_symlink).

(** As on Unix. *)
Definition same_file (left right : Metadata) : bool := bool_decide (md_ident left = md_ident right).

Definition same_metadata (left right : Metadata) : bool :=
  same_file left right && (md_len left =? md_len right)%Z && bool_decide (md_modified left = md_modified right)
  && (md_ctime left =? md_ctime right)%Z.

(** ** Calls

    A descriptor is the file it was opened on; [A_open] does not follow links. *)
Inductive action := A_lstat | A_open | A_fstat (fd : ident) | A_read (fd : ident) | A_now.

Definition answer (a : action) : Type :=
  match a with
  | A_lstat | A_fstat _ => result Metadata os_error
  | A_open => result ident os_error
  | A_read _ => result (list byte) os_error
  | A_now => Z
  end.

Abbreviation io A := (prog answer (result A ReadError)).

Definition initial_metadata : io (option Metadata) :=
  r <~ call A_lstat;
  ret match r with
      | Ok metadata =>
          if is_symlink metadata then Err Symlink
          else if negb (is_file metadata) then Err NotRegular
          else if (LAYOUT_FILE_MAX_BYTES <? md_len metadata)%Z then Err TooLarge
          else Ok (Some metadata)
      | Err e => match oe_kind e with K_not_found => Ok None | _ => Err (io_error e) end
      end.

Definition metadata_of (fd : ident) : io Metadata :=
  r <~ call (A_fstat fd); ret match r with Ok metadata => Ok metadata | Err e => Err (io_error e) end.

(** What is checked once it is open. *)
Definition check_open (file : ident) : io (option ident) :=
  again <~ call A_lstat;
  if match again with Ok metadata => is_symlink metadata | Err _ => false end then ret (Err Symlink) else
  metadata <~? metadata_of file;
  ret (if negb (is_file metadata) then Err NotRegular
       else if (LAYOUT_FILE_MAX_BYTES <? md_len metadata)%Z then Err TooLarge
       else Ok (Some file)).

Definition open_regular : io (option ident) :=
  path_metadata <~? initial_metadata;
  match path_metadata with
  | None => ret (Ok None)
  | Some _ =>
      file <~ call A_open;
      match file with
      | Err e => ret match oe_kind e with
                     | K_not_found => Ok None
                     | K_loop => Err Symlink
                     | _ => Err (io_error e)
                     end
      | Ok file => check_open file
      end
  end.

Definition bytes_len (l : list byte) : Z := Z.of_nat (length l).

Fixpoint read_loop (fuel : nat) (fd : ident) (deadline : Z) (bytes : list byte) : io (list byte) :=
  match fuel with
  | O => spin
  | S fuel =>
      now <~ call A_now;
      if (deadline <=? now)%Z then ret (Err TimedOut) else
      r <~ call (A_read fd);
      match r with
      | Err e => ret (Err match oe_kind e with K_would_block => TimedOut | _ => io_error e end)
      | Ok [] => ret (Ok bytes)
      | Ok chunk =>
          let bytes := bytes ++ chunk in
          if (LAYOUT_FILE_MAX_BYTES <? bytes_len bytes)%Z then ret (Err TooLarge) else read_loop fuel fd deadline bytes
      end
  end.

Definition read_bounded_bytes (fuel : nat) (fd : ident) : io (list byte) :=
  now <~ call A_now; read_loop fuel fd (now + LAYOUT_READ_TIMEOUT) [].

Definition read_bounded_regular_file (fuel : nat) : io (option string) :=
  file <~? open_regular;
  match file with
  | None => ret (Ok None)
  | Some file =>
      before <~? metadata_of file;
      bytes <~? read_bounded_bytes fuel file;
      after <~? metadata_of file;
      if (LAYOUT_FILE_MAX_BYTES <? md_len after)%Z || (LAYOUT_FILE_MAX_BYTES <? bytes_len bytes)%Z then ret (Err TooLarge)
      else if negb (bytes_len bytes =? md_len before)%Z || negb (same_metadata after before) then ret (Err Changed) else
      path_after <~ call A_lstat;
      ret match path_after with
          | Err e => match oe_kind e with K_not_found => Err Changed | _ => Err (io_error e) end
          | Ok path_after =>
              if is_symlink path_after then Err Symlink
              else if negb (is_file path_after) || negb (same_metadata path_after after) then Err Changed
              else match from_utf8 bytes with Some text => Ok (Some text) | None => Err InvalidUtf8 end
          end
  end.

(** ** A file others write *)

(** [f_data] is the bytes it holds. *)
Record file := mk_file { f_kind : file_kind; f_data : string; f_modified : option Z; f_ctime : Z }.
Definition f_bytes (f : file) : list byte := bytes_of_string (f_data f).

(** What the path names, every file, and where the reader's descriptor is in its own. *)
Record world := mk_world { w_path : option ident; w_files : ident -> file; w_offset : nat }.

Definition metadata (i : ident) (f : file) : Metadata := mk_metadata (f_kind f) (bytes_len (f_bytes f)) i (f_modified f) (f_ctime f).

(** What others may do: anything to the path, and to a file anything that moves its
    change time forward. *)
Definition disturbed (w w' : world) : Prop :=
  w_offset w' = w_offset w /\
  forall i, w_files w' i = w_files w i \/ (f_ctime (w_files w i) < f_ctime (w_files w' i))%Z.

(** A call on a world, answering truly or failing for some other reason. *)
Definition reads (a : action) (w : world) : (answer a -> world -> Prop) -> Prop :=
  match a with
  | A_lstat => fun Q =>
      (forall e, oe_kind e <> K_not_found -> Q (Err e) w) /\
      match w_path w with
      | None => forall e, oe_kind e = K_not_found -> Q (Err e) w
      | Some i => Q (Ok (metadata i (w_files w i))) w
      end
  | A_open => fun Q =>
      (forall e, oe_kind e <> K_not_found -> Q (Err e) w) /\
      match w_path w with
      | None => forall e, oe_kind e = K_not_found -> Q (Err e) w
      | Some i => f_kind (w_files w i) <> F_symlink -> Q (Ok i) (mk_world (w_path w) (w_files w) 0)
      end
  | A_fstat i => fun Q => (forall e, Q (Err e) w) /\ Q (Ok (metadata i (w_files w i))) w
  | A_read i => fun Q =>
      let rest := drop (w_offset w) (f_bytes (w_files w i)) in
      (forall e, Q (Err e) w) /\
      forall k, k <= length rest -> (Z.of_nat k <= CHUNK)%Z -> (rest <> [] -> 0 < k) ->
        Q (Ok (take k rest)) (mk_world (w_path w) (w_files w) (w_offset w + k))
  | A_now => fun Q => forall t, Q t w
  end.

(** Others act before each call. *)
Definition raced (a : action) (w : world) (Q : answer a -> world -> Prop) : Prop :=
  forall w', disturbed w w' -> reads a w' Q.

Lemma raced_mono a w (Q Q' : answer a -> world -> Prop) : (forall r s, Q r s -> Q' r s) -> raced a w Q -> raced a w Q'.
Proof.
  intros HQ Hr w' Hd. specialize (Hr w' Hd).
  destruct a; simpl in *; repeat match goal with H : _ /\ _ |- _ => destruct H end; repeat split; auto; case_match; auto.
Qed.

(** ** What was read

    Since a file was looked at it is as it was, or shows a later change time. *)
Section Since.
Context (i : ident) (seen : file).

Definition since (w : world) : Prop := w_files w i = seen \/ (f_ctime seen < f_ctime (w_files w i))%Z.

Lemma since_later w w' : since w -> disturbed w w' -> since w'.
Proof.
  intros Hs [_ Hd]. destruct (Hd i) as [Hw|Hw]; unfold since in *; [by rewrite Hw|].
  right. destruct Hs as [Hs|Hs]; [by rewrite <- Hs|lia].
Qed.

(** With the same change time it is as it was. *)
Lemma since_same w m : since w -> m = metadata i (w_files w i) -> md_ctime m = f_ctime seen -> w_files w i = seen.
Proof. intros [Hs|Hs] ->; [done|]. simpl. lia. Qed.

(** What was read is what it held, up to where the descriptor is, unless it changed. *)
Definition reading (bytes : list byte) (w : world) : Prop :=
  (w_files w i = seen /\ bytes = take (w_offset w) (f_bytes seen) /\ w_offset w = length bytes) \/
  (f_ctime seen < f_ctime (w_files w i))%Z.

Lemma reading_later bytes w w' : reading bytes w -> disturbed w w' -> reading bytes w'.
Proof.
  intros Hr [Ho Hd]. unfold reading in *. rewrite Ho.
  destruct (Hd i) as [Hw|Hw]; [by rewrite Hw|]. right. destruct Hr as [(Hs & _)|Hr]; [by rewrite <- Hs|lia].
Qed.

Lemma reading_more bytes w k :
  reading bytes w -> k <= length (drop (w_offset w) (f_bytes (w_files w i))) ->
  reading (bytes ++ take k (drop (w_offset w) (f_bytes (w_files w i)))) (mk_world (w_path w) (w_files w) (w_offset w + k)).
Proof.
  intros [(Hf & Hb & Ho)|Hr] Hk; [left|by right]. rewrite Hf in *. rewrite length_drop in Hk. simpl.
  rewrite Hb at 1. rewrite length_app, length_take, length_drop.
  split; [done|split; [by rewrite take_take_drop|lia]].
Qed.

(** All of it was read. *)
Lemma reading_all bytes w : reading bytes w -> w_files w i = seen -> bytes_len bytes = bytes_len (f_bytes seen) -> bytes = f_bytes seen.
Proof.
  intros [(_ & Hb & Ho)|Hr] Hs Hl; [|rewrite Hs in Hr; lia]. rewrite Hb. apply take_ge. unfold bytes_len in Hl. lia.
Qed.

(** The loop ends, having read no more than it may. *)
Lemma read_loop_ends fuel deadline bytes w :
  (LAYOUT_FILE_MAX_BYTES < bytes_len bytes + Z.of_nat fuel)%Z -> (bytes_len bytes <= LAYOUT_FILE_MAX_BYTES)%Z ->
  reading bytes w ->
  wp raced False (read_loop fuel i deadline bytes) w (fun r w' => forall bytes', r = Ok bytes' ->
    reading bytes' w' /\ (bytes_len bytes' <= LAYOUT_FILE_MAX_BYTES)%Z).
Proof.
  revert bytes w. induction fuel as [|fuel IH]; intros bytes w Hfuel Hmax Hr; [simpl; lia|].
  cbn [read_loop]. intros w1 Hw1 now. simpl. apply (reading_later _ _ _ Hr) in Hw1 as Hr1.
  destruct (deadline <=? now)%Z; [done|]. intros w2 Hw2. apply (reading_later _ _ _ Hr1) in Hw2 as Hr2.
  split; [by intros e|]. intros k Hk _ Hpos. cbv beta.
  destruct (take k (drop (w_offset w2) (f_bytes (w_files w2 i)))) as [|b chunk] eqn:Et; cbv beta iota.
  - intros bytes' [= <-]. split; [|done]. pose proof (reading_more _ _ _ Hr2 Hk) as Hr3. by rewrite Et, app_nil_r in Hr3.
  - rewrite <- Et in *. cbv zeta. destruct (Z.ltb_spec LAYOUT_FILE_MAX_BYTES (bytes_len (bytes ++ take k (drop (w_offset w2) (f_bytes (w_files w2 i)))))) as [|Hlen]; [done|].
    apply IH; [|lia|by apply reading_more]. unfold bytes_len in *. rewrite Et, length_app. simpl. lia.
Qed.
End Since.

Lemma initial_ends w : wp raced False initial_metadata w (fun r w' => r = Ok None -> w_path w' = None).
Proof.
  intros w1 _. split; [by intros [[] t] He|].
  destruct (w_path w1) as [i|] eqn:Hp; [|intros [[] t] He; try done; by intros _]. simpl. repeat case_match; by intros [= ].
Qed.

Definition at_start (r : result (option ident) ReadError) (w : world) : Prop :=
  match r with Ok None => w_path w = None | Ok (Some _) => w_offset w = 0 | Err _ => True end.

Lemma check_ends i w : w_offset w = 0 -> wp raced False (check_open i) w at_start.
Proof.
  intros Ho w1 [Ho1 _].
  assert (Hrest : forall again : result Metadata os_error, wp raced False
    (if match again with Ok metadata => is_symlink metadata | Err _ => false end then (ret (Err Symlink) : io (option ident)) else
     metadata <~? metadata_of i;
     ret (if negb (is_file metadata) then Err NotRegular
          else if (LAYOUT_FILE_MAX_BYTES <? md_len metadata)%Z then Err TooLarge else Ok (Some i))) w1 at_start).
  { intros again. case_match; [done|]. intros w2 [Ho2 _]. split; [done|]. simpl. repeat case_match; try done; simpl in *; simplify_eq; by rewrite Ho2, Ho1. }
  split; [intros e _; apply (Hrest (Err e))|].
  destruct (w_path w1); [apply (Hrest (Ok _))|intros e _; apply (Hrest (Err e))].
Qed.

Lemma open_ends w : wp raced False open_regular w at_start.
Proof.
  apply (prog_try _ _ raced_mono). eapply (prog_mono _ _ raced_mono); [|apply initial_ends].
  intros [[m|]|e] w1 Hnone; [|by apply Hnone|done].
  intros w2 _. split; [by intros [[] t] He|]. destruct (w_path w2) as [i|] eqn:Hp.
  - intros _. by apply check_ends.
  - intros [[] t] He; try done; exact Hp.
Qed.

Lemma same_metadata_of i j f g :
  same_metadata (metadata i f) (metadata j g) = true -> i = j /\ f_ctime f = f_ctime g.
Proof.
  unfold same_metadata, same_file. simpl. rewrite !andb_true_iff, !bool_decide_eq_true, !Z.eqb_eq. tauto.
Qed.


(** A file of three bytes. *)
Definition small : world := mk_world (Some (1, 2)%Z) (fun _ => mk_file F_regular "{ }" (Some 5%Z) 5) 0.


(** Left alone, that file is what is read. *)
Fixpoint alone {A} (turns : nat) (m : prog answer A) (w : world) : option A :=
  match turns, m with
  | _, ret a => Some a
  | S turns, act a k =>
      match a, k with
      | A_lstat, k => match w_path w with
                      | Some i => alone turns (k (Ok (metadata i (w_files w i)))) w
                      | None => alone turns (k (Err (mk_error K_not_found ""))) w
                      end
      | A_open, k => match w_path w with
                     | Some i => alone turns (k (Ok i)) (mk_world (w_path w) (w_files w) 0)
                     | None => alone turns (k (Err (mk_error K_not_found ""))) w
                     end
      | A_fstat i, k => alone turns (k (Ok (metadata i (w_files w i)))) w
      | A_read i, k =>
          let got := take 2 (drop (w_offset w) (f_bytes (w_files w i))) in
          alone turns (k (Ok got)) (mk_world (w_path w) (w_files w) (w_offset w + length got))
      | A_now, k => alone turns (k 0%Z) w
      end
  | _, _ => None
  end.

Example read_small : alone 20 (read_bounded_regular_file 5) small = Some (Ok (Some "{ }")).
Proof. vm_compute. reflexivity. Qed.
