(* ===== verification/LayoutCas.v ===== *)
(** * Compare-and-swap of the layout sidecar

    [crates/amber/src/layout_cas.rs]: [load], [save] and the lock file that makes
    [save]'s comparison and replacement one critical section across processes.
    Each call of [save] is a program whose file operations are the steps of
    [step]; calls of several processes interleave, processes come and go.  An
    operation that may fail for a reason of the file system may always fail. *)
From S2P Require Import Prelude LockRecord.
From S2P Require LayoutFile.

Abbreviation LAYOUT_FILE_MAX_BYTES := LayoutFile.LAYOUT_FILE_MAX_BYTES.

(** What is compared of a lock file's metadata. *)
Record Metadata := mk_meta {
  md_len : Z; md_modified : Z; md_dev : Z; md_ino : Z; md_ctime : Z; md_ctime_nsec : Z;
}.

Definition same_lock_metadata (left right : Metadata) : bool :=
  (md_len left =? md_len right)%Z && (md_modified left =? md_modified right)%Z
  && (md_dev left =? md_dev right)%Z && (md_ino left =? md_ino right)%Z
  && (md_ctime left =? md_ctime right)%Z && (md_ctime_nsec left =? md_ctime_nsec right)%Z.

Record LockFile := mk_lock_file { lf_text : text; lf_metadata : Metadata }.

(** The two files. *)
Record Disk := mk_disk { dk_lock : option LockFile; dk_layout : option text }.

Record LockSnapshot := mk_snapshot {
  ss_record : option LayoutLockRecord; ss_text : text; ss_metadata : Metadata;
}.

Record LayoutLock := mk_layout_lock {
  ll_record : LayoutLockRecord; ll_text : text; ll_metadata : Metadata;
}.

(** [load]: the version is the text itself; a file that cannot be read is none. *)
Definition load (d : Disk) (readable : bool) : option text * option text :=
  if readable then (dk_layout d, dk_layout d) else (None, None).

Definition read_lock (d : Disk) : option LockSnapshot :=
  (fun f => mk_snapshot (parse_lock_record (lf_text f)) (lf_text f) (lf_metadata f)) <$> dk_lock d.

(** [fs::hard_link] onto the lock's name: it never replaces. *)
Definition hard_link (d : Disk) (f : LockFile) : option Disk :=
  match dk_lock d with
  | None => Some (mk_disk (Some f) (dk_layout d))
  | Some _ => None
  end.

(** [fs::remove_file] of the lock's name, whatever file that is now. *)
Definition remove_lock (d : Disk) : Disk := mk_disk None (dk_layout d).

(** [fs::rename] onto the sidecar. *)
Definition rename_layout (d : Disk) (t : text) : Disk := mk_disk (dk_lock d) (Some t).

(** The check of [remove_lock_if_unchanged]. *)
Definition unchanged (current expected : LockSnapshot) : bool :=
  bool_decide (ss_record current = ss_record expected) && bool_decide (ss_text current = ss_text expected)
  && same_lock_metadata (ss_metadata current) (ss_metadata expected).

(** The check of [LayoutLock]'s [drop]. *)
Definition still_owned (current : LockSnapshot) (lock : LayoutLock) : bool :=
  bool_decide (ss_record current = Some (ll_record lock)) && bool_decide (ss_text current = ll_text lock)
  && same_lock_metadata (ss_metadata current) (ll_metadata lock).

Inductive SaveResult :=
| SR_Ok (version : text)
| SR_Conflict (current : option text)
| SR_Error (msg : string).

(** One call of [save], with the lock record it writes. *)
Record Call := mk_call { cl_record : LayoutLockRecord; cl_text : text; cl_expected : option text }.

Definition publish (c : Call) (m : Metadata) : LockFile := mk_lock_file (format_lock_record (cl_record c)) m.

Definition held_lock (c : Call) (m : Metadata) : LayoutLock :=
  mk_layout_lock (cl_record c) (format_lock_record (cl_record c)) m.

(** Where a call is. *)
Inductive pc :=
| Idle
| Linking
| Inspecting
| Probing (sn : LockSnapshot)
| Reclaiming (sn : LockSnapshot)
| Unlinking
| Locked (lock : LayoutLock)
| Matched (lock : LayoutLock)
| Dropping (lock : LayoutLock) (r : SaveResult)
| Dropping_owned (lock : LayoutLock) (r : SaveResult)
| Finished (r : SaveResult)
| Gone.

(** A process: its id and its start time, which no two processes share. *)
Definition identity : Type := (Z * text)%type.
Definition owner_id (r : LayoutLockRecord) : identity := (lr_pid r, lr_start r).

(** What probing a process id may answer. *)
Definition truthful (running : gset identity) (pid : Z) (probe : result (option text) unit) : Prop :=
  match probe with
  | Err _ => True
  | Ok None => forall s, (pid, s) ∉ running
  | Ok (Some s) => (pid, s) ∈ running /\ forall s', (pid, s') ∈ running -> s' = s
  end.

Record State := mk_state {
  st_disk : Disk;
  st_pcs : nat -> pc;
  st_running : gset identity;
  st_dead : gset identity;
}.

Definition set_pc (s : State) (c : nat) (d : Disk) (p : pc) : State :=
  mk_state d (fun c' => if decide (c' = c) then p else st_pcs s c') (st_running s) (st_dead s).

Section protocol.
Context (calls : list Call).

(** The moves of a call [c] that is at [p] over the files [d]: where it goes, the
    files it leaves, and the replacement it made. *)
Inductive move (running : gset identity) (c : Call) (d : Disk) : pc -> pc -> Disk -> option (option text * text) -> Prop :=
| mv_too_long :
    (LAYOUT_FILE_MAX_BYTES < Z.of_nat (length (cl_text c)))%Z ->
    move running c d Idle (Finished (SR_Error "LAYOUT_FILE_LIMIT")) d None
| mv_root_error msg :
    (Z.of_nat (length (cl_text c)) <= LAYOUT_FILE_MAX_BYTES)%Z ->
    move running c d Idle (Finished (SR_Error msg)) d None
| mv_start :
    (Z.of_nat (length (cl_text c)) <= LAYOUT_FILE_MAX_BYTES)%Z -> move running c d Idle Linking d None
| mv_link m d' :
    hard_link d (publish c m) = Some d' -> move running c d Linking (Locked (held_lock c m)) d' None
| mv_link_then_error m d' msg :
    hard_link d (publish c m) = Some d' -> move running c d Linking (Finished (SR_Error msg)) d' None
| mv_link_exists m :
    hard_link d (publish c m) = None -> move running c d Linking Inspecting d None
| mv_link_error msg : move running c d Linking (Finished (SR_Error msg)) d None
| mv_inspect sn : read_lock d = Some sn -> move running c d Inspecting (Probing sn) d None
| mv_inspect_nothing : move running c d Inspecting Linking d None
| mv_timeout : move running c d Inspecting (Finished (SR_Error "LAYOUT_LOCK_TIMEOUT")) d None
| mv_probe_dead sn owner probe :
    lock_owner (ss_text sn) = Some owner -> truthful running (lr_pid owner) probe ->
    owner_state probe owner = OS_Dead ->
    move running c d (Probing sn) (Reclaiming sn) d None
| mv_probe_other sn : move running c d (Probing sn) Linking d None
| mv_probe_timeout sn : move running c d (Probing sn) (Finished (SR_Error "LAYOUT_LOCK_TIMEOUT")) d None
| mv_reread sn current :
    read_lock d = Some current -> unchanged current sn = true ->
    move running c d (Reclaiming sn) Unlinking d None
| mv_reread_other sn : move running c d (Reclaiming sn) Linking d None
| mv_unlink : move running c d Unlinking Linking (remove_lock d) None
| mv_unlink_error : move running c d Unlinking Linking d None
| mv_match lock : dk_layout d = cl_expected c -> move running c d (Locked lock) (Matched lock) d None
| mv_conflict lock :
    dk_layout d <> cl_expected c ->
    move running c d (Locked lock) (Dropping lock (SR_Conflict (dk_layout d))) d None
| mv_read_error lock msg : move running c d (Locked lock) (Dropping lock (SR_Error msg)) d None
| mv_rename lock :
    move running c d (Matched lock) (Dropping lock (SR_Ok (cl_text c))) (rename_layout d (cl_text c))
      (Some (cl_expected c, cl_text c))
| mv_rename_sync_error lock msg :
    move running c d (Matched lock) (Dropping lock (SR_Error msg)) (rename_layout d (cl_text c))
      (Some (cl_expected c, cl_text c))
| mv_write_error lock msg : move running c d (Matched lock) (Dropping lock (SR_Error msg)) d None
| mv_drop_check lock r current :
    read_lock d = Some current -> still_owned current lock = true ->
    move running c d (Dropping lock r) (Dropping_owned lock r) d None
| mv_drop_leave lock r : move running c d (Dropping lock r) (Finished r) d None
| mv_drop_unlink lock r : move running c d (Dropping_owned lock r) (Finished r) (remove_lock d) None
| mv_drop_unlink_error lock r : move running c d (Dropping_owned lock r) (Finished r) d None.

(** Processes: [leave] says which may end now. *)
Context (leave : State -> identity -> Prop).

Inductive step : State -> option (option text * text) -> State -> Prop :=
| step_move s c call p d l :
    calls !! c = Some call -> owner_id (cl_record call) ∈ st_running s ->
    move (st_running s) call (st_disk s) (st_pcs s c) p d l ->
    step s l (set_pc s c d p)
| step_born s i :
    i ∉ st_running s -> i ∉ st_dead s ->
    step s None (mk_state (st_disk s) (st_pcs s) ({[i]} ∪ st_running s) (st_dead s))
| step_left s i :
    i ∈ st_running s -> leave s i ->
    step s None (mk_state (st_disk s)
      (fun c => match calls !! c with
                | Some call => if decide (owner_id (cl_record call) = i) then Gone else st_pcs s c
                | None => st_pcs s c
                end)
      (st_running s ∖ {[i]}) ({[i]} ∪ st_dead s)).

(** The replacements of a run, in order. *)
Inductive run : State -> list (option text * text) -> State -> Prop :=
| run_nil s : run s [] s
| run_snoc s s' s'' h l :
    run s h s' -> step s' l s'' -> run s (h ++ match l with Some x => [x] | None => [] end) s''.
End protocol.

(** Nothing running, no lock. *)
Definition initial (layout : option text) : State :=
  mk_state (mk_disk None layout) (fun _ => Idle) ∅ ∅.

(** The lock a call has. *)
Definition holding (p : pc) : option LayoutLock :=
  match p with
  | Locked lock | Matched lock => Some lock
  | Dropping lock _ | Dropping_owned lock _ => Some lock
  | _ => None
  end.

(** A process leaves nothing behind: no lock file names it. *)
Definition clean_leave (s : State) (i : identity) : Prop :=
  forall f r, dk_lock (st_disk s) = Some f -> lock_owner (lf_text f) = Some r -> owner_id r <> i.

(** Any time, a crash included. *)
Definition any_leave (s : State) (i : identity) : Prop := True.

(** Each replacement replaced what the one before wrote. *)
Fixpoint linear (layout : option text) (h : list (option text * text)) : option (option text) :=
  match h with
  | [] => Some layout
  | (expected, new) :: h' => if decide (expected = layout) then linear (Some new) h' else None
  end.

(** ** One critical section *)

Section safety.
Context (calls : list Call) (layout0 : option text).
(** Every writer's record is well formed, and no two calls write the same one. *)
Hypothesis records_ok : Forall (fun c => record_ok (cl_record c)) calls.
Hypothesis records_distinct : NoDup (map cl_record calls).

Lemma format_owner c call : calls !! c = Some call ->
  lock_owner (format_lock_record (cl_record call)) = Some (cl_record call).
Proof.
  intros Hc. rewrite Forall_forall in records_ok. apply list_elem_of_lookup_2 in Hc.
  unfold lock_owner. by rewrite (parse_format _ (records_ok _ Hc)).
Qed.

Lemma format_inj c1 c2 call1 call2 :
  calls !! c1 = Some call1 -> calls !! c2 = Some call2 ->
  format_lock_record (cl_record call1) = format_lock_record (cl_record call2) -> c1 = c2.
Proof.
  intros H1 H2 Heq. pose proof (format_owner _ _ H1) as Ho. rewrite Heq, (format_owner _ _ H2) in Ho.
  injection Ho as Ho. eapply (NoDup_lookup (map cl_record calls)); [done| |]; rewrite list_lookup_fmap;
    [by rewrite H1|]. rewrite H2. simpl. by rewrite Ho.
Qed.

(** A text some call published, its process in [who]. *)
Definition written_by (who : gset identity) (t : text) : Prop :=
  exists c call, calls !! c = Some call /\ t = format_lock_record (cl_record call)
    /\ owner_id (cl_record call) ∈ who.

Definition holds (d : Disk) (call : Call) (lock : LayoutLock) : Prop :=
  exists m, lock = held_lock call m /\ dk_lock d = Some (publish call m).

Definition pc_ok (d : Disk) (running dead : gset identity) (call : Call) (p : pc) : Prop :=
  match p with
  | Probing sn => written_by (running ∪ dead) (ss_text sn)
  | Reclaiming sn => written_by dead (ss_text sn)
  | Unlinking => False
  | Locked lock | Dropping lock _ | Dropping_owned lock _ => holds d call lock
  | Matched lock => holds d call lock /\ dk_layout d = cl_expected call
  | Idle | Linking | Inspecting | Finished _ | Gone => True
  end.

Record inv (s : State) (h : list (option text * text)) : Prop := mk_inv {
  iv_disjoint : forall i, i ∈ st_running s -> i ∉ st_dead s;
  iv_lock : forall f, dk_lock (st_disk s) = Some f -> written_by (st_running s) (lf_text f);
  iv_pcs : forall c call, calls !! c = Some call ->
    pc_ok (st_disk s) (st_running s) (st_dead s) call (st_pcs s c);
  iv_history : linear layout0 h = Some (dk_layout (st_disk s));
}.

Lemma holding_holds d running dead call p lock :
  pc_ok d running dead call p -> holding p = Some lock -> holds d call lock.
Proof. destruct p; simpl; intros H [= <-]; try done. by destruct H. Qed.

(** The lock has one holder. *)
Lemma holds_unique d c1 c2 call1 call2 l1 l2 :
  calls !! c1 = Some call1 -> calls !! c2 = Some call2 ->
  holds d call1 l1 -> holds d call2 l2 -> c1 = c2.
Proof.
  intros H1 H2 (m1 & _ & E1) (m2 & _ & E2). eapply format_inj; [done..|].
  rewrite E1 in E2. by apply (f_equal (fun o => lf_text <$> o)), (inj Some) in E2.
Qed.

(** A call that does not hold the lock does not care about the files. *)
Lemma pc_ok_disk d d' running dead call p :
  holding p = None -> pc_ok d running dead call p -> pc_ok d' running dead call p.
Proof. by destruct p. Qed.

Lemma not_holding_free d running dead call p :
  dk_lock d = None -> pc_ok d running dead call p -> holding p = None.
Proof.
  intros Hd Hp. destruct (holding p) as [lock|] eqn:Hh; [|done].
  destruct (holding_holds _ _ _ _ _ _ Hp Hh) as (m & _ & H). congruence.
Qed.

(** A dead owner's lock is not there: what lies there is a running writer's. *)
Lemma reread_differs d running dead sn current :
  (forall i, i ∈ running -> i ∉ dead) ->
  (forall f, dk_lock d = Some f -> written_by running (lf_text f)) ->
  written_by dead (ss_text sn) -> read_lock d = Some current -> unchanged current sn = false.
Proof.
  intros Hdis Hlock (c1 & call1 & H1 & Ht1 & Hdead) Hread. unfold read_lock in Hread.
  apply fmap_Some in Hread as (f & Hf & ->). destruct (Hlock f Hf) as (c2 & call2 & H2 & Ht2 & Hrun).
  unfold unchanged. cbn [ss_text ss_record]. rewrite (bool_decide_eq_false_2 (lf_text f = ss_text sn)).
  - by rewrite andb_false_r.
  - intros Heq. rewrite Ht2, Ht1 in Heq. pose proof (format_inj _ _ _ _ H2 H1 Heq) as ->.
    rewrite H1 in H2. injection H2 as ->. by apply (Hdis _ Hrun).
Qed.

(** The owner a truthful probe calls dead is not running. *)
Lemma probe_dead running owner probe :
  truthful running (lr_pid owner) probe -> owner_state probe owner = OS_Dead -> owner_id owner ∉ running.
Proof.
  unfold truthful, owner_state, owner_id. intros Ht Ho Hin.
  destruct probe as [[start|]|]; [| |done]; destruct (_ || _); try done.
  - destruct Ht as [_ Huniq]. rewrite (Huniq _ Hin), bool_decide_eq_true_2 in Ho; done.
  - by apply (Ht (lr_start owner)).
Qed.

(** What a move of one call leaves true: its own place, the lock, the others and
    the history. *)
Record move_ok (s : State) (h : list (option text * text)) (c : nat) (call : Call) (p : pc) (d : Disk)
    (l : option (option text * text)) : Prop := mk_move_ok {
  mo_pc : pc_ok d (st_running s) (st_dead s) call p;
  mo_lock : forall f, dk_lock d = Some f -> written_by (st_running s) (lf_text f);
  mo_others : forall c' call', c' <> c -> calls !! c' = Some call' ->
    pc_ok d (st_running s) (st_dead s) call' (st_pcs s c');
  mo_history : linear layout0 (h ++ match l with Some x => [x] | None => [] end) = Some (dk_layout d);
}.

Lemma linear_app layout h x :
  linear layout (h ++ [x]) =
    match linear layout h with
    | Some cur => if decide (x.1 = cur) then Some (Some x.2) else None
    | None => None
    end.
Proof.
  revert layout. induction h as [|[e n] h IH]; intros layout; simpl; [by destruct x|].
  by destruct (decide (e = layout)).
Qed.

(** The moves that leave the files alone. *)
Lemma move_ok_same s h c call p :
  inv s h -> calls !! c = Some call ->
  pc_ok (st_disk s) (st_running s) (st_dead s) call p -> move_ok s h c call p (st_disk s) None.
Proof.
  intros Hi Hc Hp. constructor; [done|apply (iv_lock _ _ Hi)| |rewrite app_nil_r; apply (iv_history _ _ Hi)].
  intros c' call' _ Hc'. by apply (iv_pcs _ _ Hi).
Qed.

Lemma move_ok_link s h c call m p :
  inv s h -> calls !! c = Some call -> owner_id (cl_record call) ∈ st_running s ->
  dk_lock (st_disk s) = None ->
  let d := mk_disk (Some (publish call m)) (dk_layout (st_disk s)) in
  pc_ok d (st_running s) (st_dead s) call p -> move_ok s h c call p d None.
Proof.
  intros Hi Hc Hrun Hfree d Hp. constructor; [done| | |rewrite app_nil_r; apply (iv_history _ _ Hi)].
  - intros f [= <-]. exists c, call. done.
  - intros c' call' _ Hc'. pose proof (iv_pcs _ _ Hi c' call' Hc') as Hok.
    eapply pc_ok_disk; [by eapply not_holding_free|done].
Qed.

(** A holder may change either file: nobody else relies on them. *)
Lemma move_ok_holder s h c call lock p d l :
  inv s h -> calls !! c = Some call -> holds (st_disk s) call lock ->
  pc_ok d (st_running s) (st_dead s) call p ->
  (forall f, dk_lock d = Some f -> dk_lock (st_disk s) = Some f) ->
  linear layout0 (h ++ match l with Some x => [x] | None => [] end) = Some (dk_layout d) ->
  move_ok s h c call p d l.
Proof.
  intros Hi Hc Hhold Hp Hlock Hlin. constructor; [done|eauto using iv_lock| |done].
  intros c' call' Hne Hc'. pose proof (iv_pcs _ _ Hi c' call' Hc') as Hok.
  eapply pc_ok_disk; [|done]. destruct (holding (st_pcs s c')) as [lock'|] eqn:Hh; [|done].
  exfalso. apply Hne. eapply holds_unique; [done..| |done]. by eapply holding_holds.
Qed.

Lemma move_good s h c call p d l :
  inv s h -> calls !! c = Some call -> owner_id (cl_record call) ∈ st_running s ->
  move (st_running s) call (st_disk s) (st_pcs s c) p d l -> move_ok s h c call p d l.
Proof.
  intros Hi Hc Hrun Hm. pose proof (iv_pcs _ _ Hi c call Hc) as Hok.
  inversion Hm as [| | |m d' Hl|m d' msg Hl|m Hl| |sn Hr| | |sn owner probe Ho Ht Hs| | |sn cur Hr Hu| | |
    |lock Hl|lock Hl| |lock|lock| |lock r cur| | |]; subst;
    match goal with H : _ = st_pcs s c |- _ => rewrite <- H in Hok end;
    try (by apply move_ok_same); try done.
  - unfold hard_link in Hl. destruct (dk_lock (st_disk s)) eqn:Hf; [done|]. injection Hl as <-.
    apply move_ok_link; [done..|]. by exists m.
  - unfold hard_link in Hl. destruct (dk_lock (st_disk s)) eqn:Hf; [done|]. injection Hl as <-.
    by apply move_ok_link.
  - apply move_ok_same; [done..|]. unfold read_lock in Hr. apply fmap_Some in Hr as (f & Hf & ->).
    destruct (iv_lock _ _ Hi f Hf) as (c1 & call1 & H1 & Ht1 & Hr1). exists c1, call1. set_solver.
  - apply move_ok_same; [done..|]. destruct Hok as (c1 & call1 & H1 & Ht1 & Hr1). exists c1, call1.
    split_and!; [done..|]. rewrite Ht1, (format_owner _ _ H1) in Ho. injection Ho as <-.
    pose proof (probe_dead _ _ _ Ht Hs). set_solver.
  - pose proof (reread_differs _ _ _ _ _ (iv_disjoint _ _ Hi) (iv_lock _ _ Hi) Hok Hr). congruence.
  - destruct Hok as [Hh Hl]. eapply move_ok_holder; [done..|by exact Hh|done|].
    rewrite linear_app, (iv_history _ _ Hi). simpl. by rewrite decide_True.
  - destruct Hok as [Hh Hl]. eapply move_ok_holder; [done..|by exact Hh|done|].
    rewrite linear_app, (iv_history _ _ Hi). simpl. by rewrite decide_True.
  - destruct Hok as [Hh _]. by apply move_ok_same.
  - eapply move_ok_holder; [done..|]. rewrite app_nil_r. apply (iv_history _ _ Hi).
Qed.

Lemma step_inv s h l s' :
  inv s h -> step calls clean_leave s l s' ->
  inv s' (h ++ match l with Some x => [x] | None => [] end).
Proof.
  intros Hi Hs. destruct Hs as [s c call p d l Hc Hrun Hm|s i Hnr Hnd|s i Hr Hleave].
  - destruct (move_good s h c call p d l Hi Hc Hrun Hm) as [Hp Hl Ho Hh].
    constructor; cbn [set_pc st_running st_dead st_disk st_pcs]; [apply (iv_disjoint _ _ Hi)|done| |done].
    intros c' call' Hc'. destruct (decide (c' = c)) as [->|Hne]; [|by apply Ho].
    rewrite Hc in Hc'. by injection Hc' as <-.
  - rewrite app_nil_r. assert (Hmono : forall who t, written_by who t -> written_by ({[i]} ∪ who) t).
    { intros who t (c & call & ? & ? & ?). exists c, call. set_solver. }
    constructor; cbn [st_running st_dead st_disk st_pcs].
    + intros j [->%elem_of_singleton|Hj]%elem_of_union; [done|by apply (iv_disjoint _ _ Hi)].
    + intros f Hf. by apply Hmono, (iv_lock _ _ Hi).
    + intros c call Hc. pose proof (iv_pcs _ _ Hi c call Hc) as Hok.
      destruct (st_pcs s c) as [| | |sn|sn| | | | | | |]; try done. simpl in *. rewrite <- union_assoc_L. by apply Hmono.
    + apply (iv_history _ _ Hi).
  - rewrite app_nil_r. assert (Hdead : forall t, written_by (st_dead s) t -> written_by ({[i]} ∪ st_dead s) t).
    { intros t (c & call & ? & ? & ?). exists c, call. set_solver. }
    constructor; cbn [st_running st_dead st_disk st_pcs]; [|  | |apply (iv_history _ _ Hi)].
    + intros j [Hj Hji]%elem_of_difference [?|Hd]%elem_of_union; [done|by apply (iv_disjoint _ _ Hi j)].
    + intros f Hf. destruct (iv_lock _ _ Hi f Hf) as (c & call & Hc & Ht & Hrun). exists c, call.
      split_and!; [done..|]. apply elem_of_difference. split; [done|]. intros Hid%elem_of_singleton.
      eapply Hleave; [done| |done]. rewrite Ht. by eapply format_owner.
    + intros c call Hc. rewrite Hc. destruct (decide _) as [Hid|Hid]; [done|].
      pose proof (iv_pcs _ _ Hi c call Hc) as Hok.
      destruct (st_pcs s c) as [| | |sn|sn| | | | | | |]; try done; simpl in *; [|by apply Hdead].
      destruct Hok as (c1 & call1 & ? & ? & ?). exists c1, call1. split_and!; [done..|].
      destruct (decide (owner_id (cl_record call1) = i)); set_solver.
Qed.

Lemma run_inv h s : run calls clean_leave (initial layout0) h s -> inv s h.
Proof.
  intros Hr. remember (initial layout0) as s0 eqn:Hs0. induction Hr as [s|s s' s'' h l _ IH Hs]; [|by eapply step_inv, Hs; apply IH].
  subst. constructor; simpl; [set_solver|done|done|done].
Qed.
End safety.

(** The result a call is about to return or has returned. *)
Definition result_of (p : pc) : option SaveResult :=
  match p with
  | Dropping _ r | Dropping_owned _ r | Finished r => Some r
  | _ => None
  end.

(** A call that says it saved did. *)
Lemma ok_recorded calls leave layout0 h s c call v :
  run calls leave (initial layout0) h s -> calls !! c = Some call ->
  result_of (st_pcs s c) = Some (SR_Ok v) -> (cl_expected call, v) ∈ h.
Proof.
  intros Hr Hc. remember (initial layout0) as s0 eqn:Hs0.
  induction Hr as [s|s s' s'' h l _ IH Hs]; [by subst|]. intros Hres.
  assert (Hold : result_of (st_pcs s' c) = Some (SR_Ok v) -> (cl_expected call, v) ∈ h ++ match l with Some x => [x] | None => [] end).
  { intros H. apply elem_of_app. left. by apply IH. }
  destruct Hs as [s' c' call' p d l Hc' _ Hm|s' i _ _|s' i _ _]; cbn [set_pc st_pcs] in *.
  - destruct (decide (c = c')) as [<-|]; [|by apply Hold]. rewrite Hc in Hc'. injection Hc' as <-.
    inversion Hm; subst; simpl in Hres; try done;
      try (apply Hold; match goal with H : _ = st_pcs _ _ |- _ => rewrite <- H end; done).
    injection Hres as <-. apply elem_of_app. right. by left.
  - by apply Hold.
  - rewrite Hc in Hres. destruct (decide _); [done|by apply Hold].
Qed.

(** C26. As long as processes end without leaving a lock of theirs behind, [save] is
    a compare-and-swap across all processes: the lock has one holder at a time,
    the replacements form one line in which each replaced exactly the content it
    expected, the file holds the last one, and a call that reports success is
    among them. *)
Theorem save_exclusive (calls : list Call) (layout0 : option text) (h : list (option text * text)) (s : State)
    (Hok : Forall (fun c => record_ok (cl_record c)) calls)
    (Hdistinct : NoDup (map cl_record calls))
    (Hrun : run calls clean_leave (initial layout0) h s) :
  (forall c1 c2 call1 call2 l1 l2, calls !! c1 = Some call1 -> calls !! c2 = Some call2 ->
     holding (st_pcs s c1) = Some l1 -> holding (st_pcs s c2) = Some l2 -> c1 = c2)
  /\ linear layout0 h = Some (dk_layout (st_disk s))
  /\ forall c call v, calls !! c = Some call -> result_of (st_pcs s c) = Some (SR_Ok v) ->
       (cl_expected call, v) ∈ h.
Proof.
  pose proof (run_inv calls layout0 Hok Hdistinct h s Hrun) as Hi. split_and!.
  - intros c1 c2 call1 call2 l1 l2 H1 H2 Hh1 Hh2.
    eapply (holds_unique calls Hok Hdistinct); [done|done| |];
      (eapply holding_holds; [by apply (iv_pcs _ _ _ _ Hi)|done]).
  - apply (iv_history _ _ _ _ Hi).
  - intros c call v Hc Hres. by eapply ok_recorded.
Qed.

(** ** A crash and two inspectors *)

Definition example_record (pid : Z) : LayoutLockRecord :=
  mk_record pid (bytes_of_string "linux:77") (bytes_of_string "00aa").

Definition example_call (pid : Z) (t : string) : Call :=
  mk_call (example_record pid) (bytes_of_string t) None.

(** Three processes save over a missing sidecar. *)
Definition example_calls : list Call := [example_call 1 "A"; example_call 2 "B"; example_call 3 "C"].

Definition id_of (pid : Z) : identity := (pid, bytes_of_string "linux:77").
Definition meta_of (ino : Z) : Metadata := mk_meta 60 0 1 ino 0 0.

(** The lock the crashed process left. *)
Definition stale : LockFile := publish (example_call 1 "A") (meta_of 1).
Definition stale_snapshot : LockSnapshot :=
  mk_snapshot (Some (example_record 1)) (format_lock_record (example_record 1)) (meta_of 1).

Lemma example_calls_ok :
  Forall (fun c => record_ok (cl_record c)) example_calls /\ NoDup (map cl_record example_calls).
Proof.
  split.
  - repeat (constructor; [split; [vm_compute; split; [reflexivity|discriminate]|split; vm_compute; reflexivity]|]).
    constructor.
  - apply (bool_decide_unpack _). vm_compute. exact I.
Qed.

(** A run of the example up to a state, given by what it holds. *)
Definition reaches (h : list (option text * text)) (d : Disk) (ps : list pc) (running dead : gset identity)
  : Prop :=
  exists s, run example_calls any_leave (initial None) h s
    /\ st_disk s = d /\ (forall c p, ps !! c = Some p -> st_pcs s c = p)
    /\ st_running s = running /\ st_dead s = dead.

Lemma reaches_move c call p p' d' l h d ps running dead :
  reaches h d ps running dead -> example_calls !! c = Some call -> ps !! c = Some p ->
  owner_id (cl_record call) ∈ running -> move running call d p p' d' l ->
  reaches (h ++ match l with Some x => [x] | None => [] end) d' (<[c := p']> ps) running dead.
Proof.
  intros (s & Hr & <- & Hps & <- & <-) Hc Hp Hrun Hm. pose proof (Hps _ _ Hp) as Hsp. subst p.
  exists (set_pc s c d' p'). split; [eapply run_snoc; [exact Hr|by eapply step_move]|].
  split_and!; try done. intros c1 p1 H1. simpl. destruct (decide (c1 = c)) as [->|Hne].
  - rewrite list_lookup_insert_eq in H1; [by injection H1|by eapply lookup_lt_Some].
  - rewrite list_lookup_insert_ne in H1 by done. by apply Hps.
Qed.

Lemma reaches_start :
  reaches [] (mk_disk None None) [Idle; Idle; Idle] {[id_of 3; id_of 2; id_of 1]} ∅.
Proof.
  eexists. split.
  - eapply (run_snoc _ _ _ _ _ [] None); [eapply (run_snoc _ _ _ _ _ [] None);
      [eapply (run_snoc _ _ _ _ _ [] None); [constructor|]|]|].
    + apply (step_born _ _ _ (id_of 1)); apply (bool_decide_unpack _); vm_compute; exact I.
    + apply (step_born _ _ _ (id_of 2)); apply (bool_decide_unpack _); vm_compute; exact I.
    + apply (step_born _ _ _ (id_of 3)); apply (bool_decide_unpack _); vm_compute; exact I.
  - split_and!; [done| |apply (bool_decide_unpack _); vm_compute; exact I|done].
    intros c p H. destruct c as [|[|[|c]]]; [by injection H as <-..|done].
Qed.

(** The first process crashes. *)
Lemma reaches_crash h d p0 p1 p2 :
  reaches h d [p0; p1; p2] {[id_of 3; id_of 2; id_of 1]} ∅ ->
  reaches h d [Gone; p1; p2] {[id_of 3; id_of 2]} {[id_of 1]}.
Proof.
  intros (s & Hr & <- & Hps & Hrun & Hd). eexists. split.
  - rewrite <- (app_nil_r h). eapply (run_snoc _ _ _ _ _ _ None); [exact Hr|].
    apply (step_left _ _ _ (id_of 1)); [|exact I]. rewrite Hrun.
    apply (bool_decide_unpack _). vm_compute. exact I.
  - cbn [st_disk st_pcs st_running st_dead]. rewrite Hrun, Hd. split_and!; [done| | |].
    + intros c p H. destruct c as [|[|[|c]]]; simpl in H; [by injection H|by apply (Hps 1)|by apply (Hps 2)|done].
    + apply (bool_decide_unpack _). vm_compute. exact I.
    + apply (bool_decide_unpack _). vm_compute. exact I.
Qed.

(** A running process finds the stale lock and gets as far as deleting it. *)
Lemma finds_stale c call ps h :
  example_calls !! c = Some call -> ps !! c = Some Idle ->
  owner_id (cl_record call) ∈ ({[id_of 3; id_of 2]} : gset identity) ->
  (Z.of_nat (length (cl_text call)) <= LAYOUT_FILE_MAX_BYTES)%Z ->
  reaches h (mk_disk (Some stale) None) ps {[id_of 3; id_of 2]} {[id_of 1]} ->
  reaches h (mk_disk (Some stale) None) (<[c := Unlinking]> ps) {[id_of 3; id_of 2]} {[id_of 1]}.
Proof.
  intros Hc Hp Hrun Hlen R. assert (Hlt := lookup_lt_Some _ _ _ Hp).
  assert (Hnext : forall p p', ps !! c = Some Idle ->
    move {[id_of 3; id_of 2]} call (mk_disk (Some stale) None) p p' (mk_disk (Some stale) None) None ->
    reaches h (mk_disk (Some stale) None) (<[c := p]> ps) {[id_of 3; id_of 2]} {[id_of 1]} ->
    reaches h (mk_disk (Some stale) None) (<[c := p']> ps) {[id_of 3; id_of 2]} {[id_of 1]}).
  { intros p p' _ Hm Hr. eapply reaches_move in Hr; [|exact Hc|by apply list_lookup_insert_eq|done|exact Hm].
    by rewrite app_nil_r, list_insert_insert_eq in Hr. }
  rewrite <- (list_insert_id _ _ _ Hp) in R.
  apply (Hnext Idle Linking Hp) in R; [|by apply mv_start].
  apply (Hnext Linking Inspecting Hp) in R; [|by apply (mv_link_exists _ _ _ (meta_of 9))].
  apply (Hnext Inspecting (Probing stale_snapshot) Hp) in R; [|by apply mv_inspect].
  apply (Hnext (Probing stale_snapshot) (Reclaiming stale_snapshot) Hp) in R.
  2: { apply (mv_probe_dead _ _ _ _ (example_record 1) (Ok None)); [reflexivity| |reflexivity].
       intros st. simpl. rewrite not_elem_of_union, !not_elem_of_singleton. split; intros [=]. }
  apply (Hnext (Reclaiming stale_snapshot) Unlinking Hp) in R; [done|].
  by apply (mv_reread _ _ _ _ stale_snapshot).
Qed.

Definition lock_of (c : Call) (ino : Z) : LayoutLock := held_lock c (meta_of ino).

(** Both have seen the stale lock; then one deletes it and takes the lock, and the
    other deletes what is there now. *)
Lemma both_locked :
  reaches [] (mk_disk (Some (publish (example_call 3 "C") (meta_of 3))) None)
    [Gone; Locked (lock_of (example_call 2 "B") 2); Locked (lock_of (example_call 3 "C") 3)]
    {[id_of 3; id_of 2]} {[id_of 1]}.
Proof.
  pose proof reaches_start as R.
  eapply (reaches_move 0) in R; [|reflexivity|reflexivity|set_solver|by apply mv_start]. cbn in R.
  eapply (reaches_move 0) in R; [|reflexivity|reflexivity|set_solver|by apply (mv_link _ _ _ (meta_of 1))].
  cbn -[format_lock_record] in R.
  apply reaches_crash in R. change (mk_lock_file _ (meta_of 1)) with stale in R.
  apply (finds_stale 1 (example_call 2 "B")) in R; [|reflexivity|reflexivity|set_solver|done].
  apply (finds_stale 2 (example_call 3 "C")) in R; [|reflexivity|reflexivity|set_solver|done].
  eapply (reaches_move 1) in R; [|reflexivity|reflexivity|set_solver|by apply mv_unlink]. cbn in R.
  eapply (reaches_move 1) in R; [|reflexivity|reflexivity|set_solver|by apply (mv_link _ _ _ (meta_of 2))].
  cbn -[format_lock_record] in R.
  eapply (reaches_move 2) in R; [|reflexivity|reflexivity|set_solver|by apply mv_unlink].
  cbn -[format_lock_record] in R.
  eapply (reaches_move 2) in R; [|reflexivity|reflexivity|set_solver|by apply (mv_link _ _ _ (meta_of 3))].
  exact R.
Qed.

(** After a crash that leaves a stale lock, two calls can hold the lock at once:
    both find the dead owner's record unchanged, one deletes it and locks, the
    other then deletes the new lock.  Both expected no sidecar, both report
    success, and one write is lost. *)
Theorem reclaim_race :
  exists calls h s, Forall (fun c => record_ok (cl_record c)) calls /\ NoDup (map cl_record calls)
    /\ run calls any_leave (initial None) h s
    /\ h = [(None, bytes_of_string "B"); (None, bytes_of_string "C")]
    /\ result_of (st_pcs s 1) = Some (SR_Ok (bytes_of_string "B"))
    /\ result_of (st_pcs s 2) = Some (SR_Ok (bytes_of_string "C"))
    /\ dk_layout (st_disk s) = Some (bytes_of_string "C") /\ linear None h = None.
Proof.
  pose proof both_locked as R.
  eapply (reaches_move 1) in R; [|reflexivity|reflexivity|set_solver|by apply mv_match]. cbn -[format_lock_record] in R.
  eapply (reaches_move 2) in R; [|reflexivity|reflexivity|set_solver|by apply mv_match]. cbn -[format_lock_record] in R.
  eapply (reaches_move 1) in R; [|reflexivity|reflexivity|set_solver|by apply mv_rename].
  eapply (reaches_move 2) in R; [|reflexivity|reflexivity|set_solver|by apply mv_rename].
  destruct R as (s & Hr & Hd & Hps & _). destruct example_calls_ok as [Hok Hnd].
  exists example_calls, [(None, bytes_of_string "B"); (None, bytes_of_string "C")], s. split; [exact Hok|]. split; [exact Hnd|]. split; [exact Hr|].
  split; [reflexivity|]. rewrite (Hps 1 _ eq_refl), (Hps 2 _ eq_refl), Hd. done.
Qed.

Lemma save_exclusive_witness :
  exists s, run [example_call 2 "B"] clean_leave (initial None) [] s
    /\ st_pcs s 0 = Locked (lock_of (example_call 2 "B") 2)
    /\ linear None [] = Some (dk_layout (st_disk s)).
Proof.
  set (calls := [example_call 2 "B"]).
  assert (R : exists s, run calls clean_leave (initial None) [] s
    /\ st_pcs s 0 = Locked (lock_of (example_call 2 "B") 2)).
  { eexists. split.
    - eapply (run_snoc _ _ _ _ _ [] None); [eapply (run_snoc _ _ _ _ _ [] None);
        [eapply (run_snoc _ _ _ _ _ [] None); [constructor|]|]|].
      + apply (step_born _ _ _ (id_of 2)); apply (bool_decide_unpack _); vm_compute; exact I.
      + eapply (step_move _ _ _ 0); [reflexivity|apply (bool_decide_unpack _); vm_compute; exact I|by apply mv_start].
      + eapply (step_move _ _ _ 0); [reflexivity|apply (bool_decide_unpack _); vm_compute; exact I|].
        by apply (mv_link _ _ _ (meta_of 2)).
    - reflexivity. }
  destruct R as (s & Hr & Hpc). exists s. split; [exact Hr|]. split; [exact Hpc|].
  assert (Hok : Forall (fun c => record_ok (cl_record c)) calls).
  { constructor; [split; [vm_compute; split; [reflexivity|discriminate]|split; vm_compute; reflexivity]|constructor]. }
  assert (Hnd : NoDup (map cl_record calls)) by apply NoDup_singleton.
  exact (proj1 (proj2 (save_exclusive calls None [] s Hok Hnd Hr))).
Defined.
