(* ===== verification/Selector.v ===== *)
(** * The key selector

    [crates/amber-router/src/selector.rs]: which endpoint of a chain a request is
    given, the permits that bound the requests in flight per key, and the reports
    that feed key health.  One round of [acquire] is a function of the selector and
    the clock; a request that must wait gets the instant of its next round.
    Requests interleave as steps of [step] over the shared selector. *)
From S2P Require Import Prelude Health RouterConfig.

Inductive AcquireError := AllDead | Timeout.

#[export] Instance Endpoint_eq_dec : EqDecision Endpoint.
Proof. solve_decision. Defined.

(** The semaphore is its number of free permits. *)
Record KeyRuntime := mk_key {
  kr_provider_idx : nat;
  kr_key_idx : nat;
  kr_permits : nat;
  kr_in_flight : nat;
  kr_health : KeyHealth;
}.

Record Selector := mk_selector {
  sl_registry : Registry;
  sl_keys : list KeyRuntime;
}.

(** The keys of a provider, fresh. *)
Definition provider_keys (provider_idx : nat) (p : ProviderConfig) : list KeyRuntime :=
  map (fun key_idx => mk_key provider_idx key_idx (Z.to_nat (p_max_inflight_per_key p)) 0 Health.new)
    (seq 0 (length (p_keys p))).

Definition new (g : Registry) : Selector :=
  mk_selector g (concat (imap provider_keys (c_providers (g_cfg g)))).

(** The index of an endpoint's key; [None] would be the slice panic of [slot]. *)
Definition slot_index (sel : Selector) (e : Endpoint) : option nat :=
  flat_key_index (sl_registry sel) (ep_provider_idx e) (ep_key_idx e).

Definition slot (sel : Selector) (e : Endpoint) : option KeyRuntime :=
  i ← slot_index sel e; sl_keys sel !! i.

Definition with_key (sel : Selector) (i : nat) (k : KeyRuntime) : Selector :=
  mk_selector (sl_registry sel) (<[i := k]> (sl_keys sel)).

(** ** Acquiring *)

(** What the scan of a chain found. *)
Inductive scan_result :=
| Found (e : Endpoint)
| Missed (any_live : bool) (earliest_cooling : option Z).

Definition earlier (cur : option Z) (until : Z) : option Z :=
  match cur with
  | Some c => if (c <=? until)%Z then Some c else Some until
  | None => Some until
  end.

Fixpoint scan (sel : Selector) (now : Z) (chain : list Endpoint) (any_live : bool)
    (earliest_cooling : option Z) : option scan_result :=
  match chain with
  | [] => Some (Missed any_live earliest_cooling)
  | e :: chain' =>
      k ← slot sel e;
      match state (kr_health k) now with
      | Dead => scan sel now chain' any_live earliest_cooling
      | Cooling until => scan sel now chain' any_live (earlier earliest_cooling until)
      | Live =>
          if 0 <? kr_permits k then Some (Found e)
          else scan sel now chain' true earliest_cooling
      end
  end.

Inductive acquire_result :=
| Leased (e : Endpoint) (sel : Selector)
| Failed (err : AcquireError)
| Wait (wake_at : Z).

Definition poll_ns : Z := (50 * nanos_per_ms)%Z.

(** One round of the loop of [acquire]. *)
Definition acquire_round (sel : Selector) (chain : list Endpoint) (now deadline : Z)
  : option acquire_result :=
  if (deadline <=? now)%Z then Some (Failed Timeout)
  else
    found ← scan sel now chain false None;
    match found with
    | Found e =>
        i ← slot_index sel e;
        k ← sl_keys sel !! i;
        Some (Leased e (with_key sel i
                (mk_key (kr_provider_idx k) (kr_key_idx k) (kr_permits k - 1)
                   (kr_in_flight k + 1) (kr_health k))))
    | Missed any_live earliest_cooling =>
        if negb any_live && match earliest_cooling with None => true | Some _ => false end
        then Some (Failed AllDead)
        else
          Some (Wait (Z.min (if any_live then (now + poll_ns)%Z
                             else default deadline earliest_cooling) deadline))
    end.

(** [Lease::drop] *)
Definition release (sel : Selector) (e : Endpoint) : option Selector :=
  i ← slot_index sel e;
  k ← sl_keys sel !! i;
  Some (with_key sel i
    (mk_key (kr_provider_idx k) (kr_key_idx k) (kr_permits k + 1) (kr_in_flight k - 1)
       (kr_health k))).

(** ** Reports *)

Definition update_health (sel : Selector) (e : Endpoint) (f : KeyHealth -> option KeyHealth)
  : option Selector :=
  i ← slot_index sel e;
  k ← sl_keys sel !! i;
  h ← f (kr_health k);
  Some (with_key sel i
    (mk_key (kr_provider_idx k) (kr_key_idx k) (kr_permits k) (kr_in_flight k) h)).

Definition report_success (sel : Selector) (e : Endpoint) : option Selector :=
  update_health sel e (fun h => Some (record_success h)).

(** [None] is a panic, the clock overflow of [cool_down] included. *)
Definition report_cooldown (sel : Selector) (e : Endpoint) (now : Z)
    (retry_after : option duration) (msg : string) : option Selector :=
  p ← provider (sl_registry sel) (ep_provider_idx e);
  update_health sel e (fun h =>
    cool_down (record_error h msg) now retry_after (p_default_cooldown_ms p) (p_max_cooldown_ms p)).

Definition report_dead (sel : Selector) (e : Endpoint) (msg : string) : option Selector :=
  update_health sel e (fun h => Some (mark_dead (record_error h msg))).

Record KeySnapshot := mk_snapshot {
  ks_label : string;
  ks_state : string;
  ks_cooling_secs_remaining : option Z;
  ks_in_flight : nat;
  ks_requests : Z;
  ks_errors : Z;
  ks_last_error : option string;
}.

(** [None] is the panic of an index past the providers. *)
Definition key_label (g : Registry) (e : Endpoint) : option string :=
  p ← provider g (ep_provider_idx e);
  Some (p_name p ++ "#" ++ string_of_bytes (dec (Z.of_nat (ep_key_idx e))))%string.

Definition snapshot_key (g : Registry) (now : Z) (k : KeyRuntime) : option KeySnapshot :=
  let h := kr_health k in
  let '(st, cooling_secs_remaining) :=
    match state h now with
    | Live => ("live"%string, None)
    | Dead => ("dead"%string, None)
    | Cooling until => ("cooling"%string, Some (Z.max 0 (until - now) / nanos_per_sec)%Z)
    end in
  label ← key_label g (mk_endpoint (kr_provider_idx k) (kr_key_idx k) "");
  Some (mk_snapshot label st cooling_secs_remaining (kr_in_flight k)
          (h_requests h) (h_errors h) (h_last_error h)).

Definition snapshot (sel : Selector) (now : Z) : option (list KeySnapshot) :=
  mapM (snapshot_key (sl_registry sel) now) (sl_keys sel).

(** ** Requests, interleaved *)

(** The shared selector and the leases requests hold. *)
Definition system : Type := (Selector * list Endpoint)%type.

Inductive step : system -> system -> Prop :=
| step_acquire sel leases chain now deadline e sel' :
    acquire_round sel chain now deadline = Some (Leased e sel') ->
    step (sel, leases) (sel', e :: leases)
| step_release sel leases before e after sel' :
    leases = before ++ e :: after -> release sel e = Some sel' ->
    step (sel, leases) (sel', before ++ after)
| step_success sel leases e sel' :
    report_success sel e = Some sel' -> step (sel, leases) (sel', leases)
| step_cooldown sel leases e now ra msg sel' :
    report_cooldown sel e now ra msg = Some sel' -> step (sel, leases) (sel', leases)
| step_dead sel leases e msg sel' :
    report_dead sel e msg = Some sel' -> step (sel, leases) (sel', leases).

(** The leases held on the key at flat index [i]. *)
Definition held (sel : Selector) (leases : list Endpoint) (i : nat) : nat :=
  length (List.filter (fun e => bool_decide (slot_index sel e = Some i)) leases).

(** The limit the configuration gives each key. *)
Definition limits (g : Registry) : list nat :=
  map kr_permits (sl_keys (new g)).

Definition permits_ok (g : Registry) (s : system) : Prop :=
  sl_registry s.1 = g /\ length (sl_keys s.1) = length (limits g)
  /\ forall i k n, sl_keys s.1 !! i = Some k -> limits g !! i = Some n ->
       kr_permits k + held s.1 s.2 i = n /\ kr_in_flight k = held s.1 s.2 i.

Lemma new_permits_ok g : permits_ok g (new g, []).
Proof.
  unfold permits_ok, limits. split_and!; [done|by rewrite length_map|].
  intros i k n Hk Hn. cbn [fst snd] in *. rewrite list_lookup_fmap, Hk in Hn. simpl in Hn.
  injection Hn as <-. unfold held. simpl. split; [lia|].
  unfold new in Hk. cbn [sl_keys] in Hk. apply list_elem_of_lookup_2 in Hk.
  rewrite list_elem_of_In, in_concat in Hk. destruct Hk as (l & Hl & Hk). apply list_elem_of_In in Hl, Hk. apply elem_of_lookup_imap in Hl as (j & p & -> & _).
  unfold provider_keys in Hk. apply list_elem_of_fmap in Hk as (x & -> & _). done.
Qed.

(** Updating one key keeps the invariant when its permits and in-flight count move
    with the leases. *)
Lemma permits_ok_update g sel leases leases' i k k' :
  permits_ok g (sel, leases) -> sl_keys sel !! i = Some k ->
  (forall j, j <> i -> held sel leases' j = held sel leases j) ->
  kr_permits k' + held sel leases' i = kr_permits k + held sel leases i ->
  kr_in_flight k' + held sel leases i = kr_in_flight k + held sel leases' i ->
  permits_ok g (with_key sel i k', leases').
Proof.
  intros (Hg & Hlen & Hok) Hk Hother Hp Hf. unfold permits_ok, with_key. cbn [fst snd sl_registry sl_keys] in *.
  split_and!; [done|by rewrite length_insert|].
  intros j kj n Hj Hn. change (held (mk_selector _ _) leases' j) with (held sel leases' j).
  destruct (decide (j = i)) as [->|Hne].
  - rewrite list_lookup_insert_eq in Hj by (by apply lookup_lt_Some in Hk). injection Hj as <-.
    destruct (Hok i k n Hk Hn) as [H1 H2]. lia.
  - rewrite list_lookup_insert_ne in Hj by done. rewrite Hother by done. by apply (Hok j).
Qed.

Lemma held_cons sel e leases i :
  held sel (e :: leases) i = (if bool_decide (slot_index sel e = Some i) then 1 else 0) + held sel leases i.
Proof. unfold held. simpl. by destruct (bool_decide _). Qed.

Lemma held_middle sel before e after i :
  held sel (before ++ e :: after) i
  = (if bool_decide (slot_index sel e = Some i) then 1 else 0) + held sel (before ++ after) i.
Proof.
  unfold held. rewrite !List.filter_app, !length_app. simpl.
  destruct (bool_decide _); simpl; lia.
Qed.

Lemma update_health_ok g sel leases e f sel' :
  permits_ok g (sel, leases) -> update_health sel e f = Some sel' -> permits_ok g (sel', leases).
Proof.
  intros Hok Hu. unfold update_health in Hu.
  apply bind_Some in Hu as (i & _ & Hu). apply bind_Some in Hu as (k & Hk & Hu).
  apply bind_Some in Hu as (h & _ & [= <-]).
  apply (permits_ok_update g sel leases leases i k); try done; simpl; lia.
Qed.

Lemma scan_found sel now chain live cool e :
  scan sel now chain live cool = Some (Found e) ->
  exists before after k, chain = before ++ e :: after /\ slot sel e = Some k
    /\ state (kr_health k) now = Live /\ 0 < kr_permits k
    /\ forall e', e' ∈ before -> exists k', slot sel e' = Some k'
         /\ (state (kr_health k') now <> Live \/ kr_permits k' = 0).
Proof.
  revert live cool. induction chain as [|e0 chain IH]; intros live cool H; [done|]. simpl in H.
  apply bind_Some in H as (k & Hk & H).
  assert (Hskip : forall live cool, scan sel now chain live cool = Some (Found e) ->
    (state (kr_health k) now <> Live \/ kr_permits k = 0) ->
    exists before after k, e0 :: chain = before ++ e :: after /\ slot sel e = Some k
      /\ state (kr_health k) now = Live /\ 0 < kr_permits k
      /\ forall e', e' ∈ before -> exists k', slot sel e' = Some k'
           /\ (state (kr_health k') now <> Live \/ kr_permits k' = 0)).
  { intros lv cl Hs Hwhy. destruct (IH _ _ Hs) as (b & a & k1 & -> & H1 & H2 & H3 & H4).
    exists (e0 :: b), a, k1. split_and!; try done. intros e' [->|He']%elem_of_cons; [|by apply H4].
    by exists k. }
  destruct (state (kr_health k) now) eqn:Hst.
  - destruct (Nat.ltb_spec 0 (kr_permits k)) as [Hp|Hp].
    + injection H as <-. exists [], chain, k. split_and!; try done. set_solver.
    + apply (Hskip _ _ H). right. lia.
  - apply (Hskip _ _ H). by left.
  - apply (Hskip _ _ H). by left.
Qed.

Lemma acquire_leased sel chain now deadline e sel' :
  acquire_round sel chain now deadline = Some (Leased e sel') ->
  exists i k, slot_index sel e = Some i /\ sl_keys sel !! i = Some k /\ 0 < kr_permits k
    /\ (now < deadline)%Z
    /\ sel' = with_key sel i (mk_key (kr_provider_idx k) (kr_key_idx k) (kr_permits k - 1)
                                (kr_in_flight k + 1) (kr_health k))
    /\ scan sel now chain false None = Some (Found e).
Proof.
  unfold acquire_round. destruct (Z.leb_spec deadline now); [done|]. intros H1.
  apply bind_Some in H1 as (r & Hscan & H1). destruct r as [e'|l c].
  2: { destruct (negb l && _); done. }
  apply bind_Some in H1 as (i & Hi & H1). apply bind_Some in H1 as (k & Hk & [= <- <-]).
  destruct (scan_found _ _ _ _ _ _ Hscan) as (_ & _ & k' & _ & Hslot & _ & Hp & _).
  unfold slot in Hslot. rewrite Hi in Hslot. simpl in Hslot. rewrite Hk in Hslot. injection Hslot as <-.
  exists i, k. split_and!; try done.
Qed.

Lemma step_permits_ok g s s' : permits_ok g s -> step s s' -> permits_ok g s'.
Proof.
  intros Hok Hstep. destruct Hstep as [sel leases chain now dl e sel' Ha
    |sel leases before e after sel' -> Hr|sel leases e sel' Hr|sel leases e now ra msg sel' Hr
    |sel leases e msg sel' Hr].
  - apply acquire_leased in Ha as (i & k & Hi & Hk & Hp & _ & -> & _).
    apply (permits_ok_update g sel leases (e :: leases) i k); try done.
    + intros j Hne. rewrite held_cons, bool_decide_eq_false_2; [done|congruence].
    + rewrite held_cons, bool_decide_eq_true_2 by done. simpl. lia.
    + rewrite held_cons, bool_decide_eq_true_2 by done. simpl. lia.
  - unfold release in Hr. apply bind_Some in Hr as (i & Hi & Hr). apply bind_Some in Hr as (k & Hk & [= <-]).
    assert (Hpos : 1 <= kr_in_flight k).
    { destruct Hok as (_ & Hlen & Hall). cbn [fst snd] in *.
      destruct (lookup_lt_is_Some_2 (limits g) i) as [n Hn];
        [rewrite <- Hlen; by apply lookup_lt_Some in Hk|].
      destruct (Hall i k n Hk Hn) as [_ ->]. rewrite held_middle, bool_decide_eq_true_2 by done. lia. }
    apply (permits_ok_update g sel (before ++ e :: after) (before ++ after) i k); try done.
    + intros j Hne. rewrite held_middle, bool_decide_eq_false_2; [done|congruence].
    + rewrite held_middle, bool_decide_eq_true_2 by done. simpl. lia.
    + rewrite held_middle, bool_decide_eq_true_2 by done. simpl. lia.
  - by apply (update_health_ok g sel leases e _ sel') in Hr.
  - unfold report_cooldown in Hr. apply bind_Some in Hr as (p & _ & Hr).
    by apply (update_health_ok g sel leases e _ sel') in Hr.
  - by apply (update_health_ok g sel leases e _ sel') in Hr.
Qed.


(** ** What one round of [acquire] decides *)

Definition key_state (sel : Selector) (now : Z) (e : Endpoint) (st : KeyState) : Prop :=
  exists k, slot sel e = Some k /\ state (kr_health k) now = st.

(** A request may be sent there now. *)
Definition usable (sel : Selector) (now : Z) (e : Endpoint) : Prop :=
  exists k, slot sel e = Some k /\ state (kr_health k) now = Live /\ 0 < kr_permits k.

Lemma key_state_fun sel now e s1 s2 : key_state sel now e s1 -> key_state sel now e s2 -> s1 = s2.
Proof. intros (k1 & H1 & <-) (k2 & H2 & <-). congruence. Qed.

Lemma earlier_spec cur until : exists m, earlier cur until = Some m
  /\ (m <= until)%Z /\ (forall c, cur = Some c -> (m <= c)%Z) /\ (Some m = cur \/ m = until).
Proof.
  destruct cur as [c|]; simpl.
  - destruct (Z.leb_spec c until).
    + exists c. split_and!; [done|lia|intros ? [= <-]; lia|by left].
    + exists until. split_and!; [done|lia|intros ? [= <-]; lia|by right].
  - exists until. split_and!; [done|lia|done|by right].
Qed.

(** One step of a scan that finds nothing. *)
Lemma scan_missed_cons sel now e chain live cool l c :
  scan sel now (e :: chain) live cool = Some (Missed l c) ->
  exists st, key_state sel now e st /\ ~ usable sel now e
    /\ scan sel now chain
         (match st with Live => true | _ => live end)
         (match st with Cooling u => earlier cool u | _ => cool end) = Some (Missed l c).
Proof.
  intros H. simpl in H. apply bind_Some in H as (k & Hk & H).
  exists (state (kr_health k) now). split; [by exists k|].
  assert (Hno : state (kr_health k) now <> Live \/ kr_permits k = 0 -> ~ usable sel now e).
  { intros Hwhy (k' & Hk' & Hl & Hp). rewrite Hk in Hk'. injection Hk' as <-.
    destruct Hwhy; [done|lia]. }
  destruct (state (kr_health k) now).
  - destruct (Nat.ltb_spec 0 (kr_permits k)); [done|]. split; [|done]. apply Hno. right. lia.
  - split; [|done]. apply Hno. by left.
  - split; [|done]. apply Hno. by left.
Qed.

Lemma scan_missed_usable sel now chain live cool l c :
  scan sel now chain live cool = Some (Missed l c) -> forall e, e ∈ chain -> ~ usable sel now e.
Proof.
  revert live cool. induction chain as [|e0 chain IH]; intros live cool H e He.
  - by apply not_elem_of_nil in He.
  - apply scan_missed_cons in H as (st & _ & Hno & H). apply elem_of_cons in He as [->|He]; eauto.
Qed.

Lemma scan_missed_live sel now chain live cool l c :
  scan sel now chain live cool = Some (Missed l c) ->
  l = true <-> live = true \/ exists e, e ∈ chain /\ key_state sel now e Live.
Proof.
  revert live cool. induction chain as [|e0 chain IH]; intros live cool H.
  - simpl in H. injection H as -> ->. split; [by left|].
    intros [?|(e & He & _)]; [done|by apply not_elem_of_nil in He].
  - apply scan_missed_cons in H as (st & Hst & _ & H). rewrite (IH _ _ H).
    setoid_rewrite elem_of_cons. split.
    + intros [Hl|(e & He & Hl)]; [|right; eauto]. destruct st; [right; eauto|by left|by left].
    + intros [Hl|(e & [->|He] & Hl)]; [left; by destruct st| |right; eauto].
      left. by rewrite (key_state_fun _ _ _ _ _ Hst Hl).
Qed.

(** The instant remembered is the earliest end of a cool-down seen. *)
Lemma scan_missed_cooling sel now chain live cool l c :
  scan sel now chain live cool = Some (Missed l c) ->
  (forall u, cool = Some u \/ (exists e, e ∈ chain /\ key_state sel now e (Cooling u)) ->
     exists m, c = Some m /\ (m <= u)%Z)
  /\ (forall m, c = Some m ->
        cool = Some m \/ exists e, e ∈ chain /\ key_state sel now e (Cooling m)).
Proof.
  revert live cool. induction chain as [|e0 chain IH]; intros live cool H.
  { simpl in H. injection H as -> ->. split; [|by left].
    intros u [->|(e & He & _)]; [eauto with lia|by apply not_elem_of_nil in He]. }
  apply scan_missed_cons in H as (st & Hst & _ & H). destruct (IH _ _ H) as [H3 H4].
  setoid_rewrite elem_of_cons.
  assert (Hseen : forall u, cool = Some u -> exists m, c = Some m /\ (m <= u)%Z).
  { intros u Hu. destruct st as [|v|]; [apply H3; by left| |apply H3; by left].
    destruct (earlier_spec cool v) as (m0 & Hm0 & _ & Hcur & _).
    destruct (H3 m0) as (m & -> & Hm); [by left|]. specialize (Hcur u Hu). eauto with lia. }
  split.
  - intros u [Hu|(e & [->|He] & Hc)]; [by apply Hseen| |apply H3; right; eauto].
    pose proof (key_state_fun _ _ _ _ _ Hst Hc) as ->.
    destruct (earlier_spec cool u) as (m0 & Hm0 & Hle & _).
    destruct (H3 m0) as (m & -> & Hm); [by left|]. eauto with lia.
  - intros m Hm. destruct (H4 m Hm) as [Hc|(e & He & Hc)]; [|right; eauto].
    destruct st as [|v|]; [by left| |by left].
    destruct (earlier_spec cool v) as (m0 & Hm0 & _ & _ & Hfrom). rewrite Hc in Hm0.
    injection Hm0 as ->. destruct Hfrom as [->| ->]; [by left|right; eauto].
Qed.

Lemma scan_total sel now chain live cool :
  (forall e, e ∈ chain -> is_Some (slot sel e)) -> is_Some (scan sel now chain live cool).
Proof.
  revert live cool. induction chain as [|e chain IH]; intros live cool H; [by eexists|]. simpl.
  destruct (H e) as [k ->]; [by left|]. simpl.
  assert (Hrest : forall lv cl, is_Some (scan sel now chain lv cl))
    by (intros; apply IH; intros; apply H; by right).
  destruct (state (kr_health k) now); [|done|done]. by destruct (0 <? kr_permits k).
Qed.

Lemma cooling_future h now u : state h now = Cooling u -> (now < u)%Z.
Proof.
  unfold state. destruct (h_dead h); [done|]. destruct (h_cooling_until h) as [v|]; [|done].
  destruct (Z.ltb_spec now v); [|done]. by intros [= ->].
Qed.

(** What a round may answer, in terms of the keys of the chain. *)
Definition round_ok (sel : Selector) (chain : list Endpoint) (now deadline : Z)
    (r : acquire_result) : Prop :=
  match r with
  | Leased e _ =>
      (now < deadline)%Z /\ usable sel now e
      /\ exists before after, chain = before ++ e :: after
           /\ forall e', e' ∈ before -> ~ usable sel now e'
  | Failed Timeout => (deadline <= now)%Z
  | Failed AllDead => (now < deadline)%Z /\ forall e, e ∈ chain -> key_state sel now e Dead
  | Wait wake_at =>
      (now < wake_at <= deadline)%Z
      /\ (forall e, e ∈ chain -> ~ usable sel now e)
      /\ (exists e, e ∈ chain /\ ~ key_state sel now e Dead)
      /\ (forall e, e ∈ chain -> key_state sel now e Live -> (wake_at <= now + poll_ns)%Z)
      /\ ((forall e, e ∈ chain -> ~ key_state sel now e Live) ->
           forall e u, e ∈ chain -> key_state sel now e (Cooling u) -> (wake_at <= u)%Z)
  end.

Lemma wait_ok sel chain now deadline l c :
  (now < deadline)%Z -> (forall e, e ∈ chain -> is_Some (slot sel e)) ->
  scan sel now chain false None = Some (Missed l c) -> (l = true \/ is_Some c) ->
  round_ok sel chain now deadline
    (Wait (Z.min (if l then (now + poll_ns)%Z else default deadline c) deadline)).
Proof.
  intros Hdl Hslots Hs Hwhy. pose proof (scan_missed_usable _ _ _ _ _ _ _ Hs) as Hno.
  pose proof (scan_missed_live _ _ _ _ _ _ _ Hs) as Hl.
  destruct (scan_missed_cooling _ _ _ _ _ _ _ Hs) as [Hmin Hfrom].
  assert (Hex : forall m, c = Some m -> (now < m)%Z /\ exists e, e ∈ chain /\ key_state sel now e (Cooling m)).
  { intros m Hm. destruct (Hfrom m Hm) as [?|(e & He & Hc)]; [done|]. split; [|eauto].
    destruct Hc as (k & _ & Hc). by apply cooling_future in Hc. }
  unfold round_ok, poll_ns, nanos_per_ms in *. split_and!; [|lia|done| | |].
  - destruct l; [lia|]. destruct c as [m|]; simpl; [|lia]. destruct (Hex m) as [? _]; [done|]. lia.
  - destruct Hwhy as [->|[m Hm]].
    + destruct (proj1 Hl eq_refl) as [?|(e & He & HL)]; [done|]. exists e. split; [done|].
      intros HD. by pose proof (key_state_fun _ _ _ _ _ HL HD).
    + destruct (Hex m Hm) as (_ & e & He & HC). exists e. split; [done|].
      intros HD. by pose proof (key_state_fun _ _ _ _ _ HC HD).
  - intros e He HL. rewrite (proj2 Hl) by eauto. lia.
  - intros HnoL e u He HC. destruct l; [destruct (proj1 Hl eq_refl) as [?|(? & ? & ?)]; [done|by exfalso; eapply HnoL]|].
    destruct (Hmin u) as (m & -> & Hm); [eauto|]. simpl. lia.
Qed.

(** One round of [acquire] always answers, and it answers by the order of the
    chain: the lease is the first endpoint that is live with a free permit; the
    round fails with [AllDead] only when every key is dead and with [Timeout]
    only past the deadline; otherwise it waits, for a future instant not past the
    deadline, at most one poll when a key is only busy and no later than the
    first cool-down to end when none is live. *)
Theorem acquire_round_spec (sel : Selector) (chain : list Endpoint) (now deadline : Z)
    (Hslots : forall e, e ∈ chain -> is_Some (slot sel e)) :
  exists r, acquire_round sel chain now deadline = Some r /\ round_ok sel chain now deadline r.
Proof.
  unfold acquire_round. destruct (Z.leb_spec deadline now) as [Hdl|Hdl]; [by eexists|].
  destruct (scan_total sel now chain false None Hslots) as [[e|l c] Hs]; rewrite Hs; simpl.
  - destruct (scan_found _ _ _ _ _ _ Hs) as (b & a & k & -> & Hk & HL & Hp & Hb).
    pose proof Hk as Hk'. unfold slot in Hk'. apply bind_Some in Hk' as (i & Hi & Hki).
    rewrite Hi. simpl. rewrite Hki. simpl.
    eexists. split; [done|]. split_and!; [done|by exists k|]. exists b, a. split; [done|].
    intros e' He' (k1 & H1 & H2 & H3). destruct (Hb e' He') as (k2 & H4 & [H5|H5]); [congruence|].
    rewrite H1 in H4. injection H4 as ->. lia.
  - destruct (negb l && _) eqn:Hd; (eexists; split; [done|]).
    + destruct l; [done|]. destruct c; [done|]. split; [done|]. intros e He.
      destruct (Hslots e He) as [k Hk]. exists k. split; [done|].
      assert (Hst : key_state sel now e (state (kr_health k) now)) by (by exists k).
      destruct (state (kr_health k) now) as [|u|]; [| |done].
      * by assert (false = true) by (apply (scan_missed_live _ _ _ _ _ _ _ Hs); eauto).
      * by destruct (proj1 (scan_missed_cooling _ _ _ _ _ _ _ Hs) u) as (m & ? & _); [eauto|].
    + apply wait_ok; try done. destruct l; [by left|]. right. destruct c; [by eexists|done].
Qed.

(** Two keys with one permit each: two requests take them, a third waits, and a
    release is seen by the next round. *)
Definition two_keys : Registry :=
  default (mk_registry (mk_config (mk_server "" None 0 0) [] []) ∅ [] 0)
    (build (mk_config (mk_server "" None 0 0)
      [mk_provider "p" "" "" ["k1"; "k2"] 1 [] 0 0 0 0 0] [])).

Definition two_chain : list Endpoint := [mk_endpoint 0 0 "m"; mk_endpoint 0 1 "m"].

Definition leased (r : option acquire_result) : option Selector :=
  match r with Some (Leased _ sel) => Some sel | _ => None end.

Definition held_one : Selector :=
  default (new two_keys) (leased (acquire_round (new two_keys) two_chain 0 100)).

Definition held_both : Selector :=
  default (new two_keys) (leased (acquire_round held_one two_chain 1 100)).


Lemma acquire_round_spec_witness :
  (forall e, e ∈ two_chain -> is_Some (slot held_both e))
  /\ acquire_round held_both two_chain 2 100000000 = Some (Wait 50000002)
  /\ round_ok held_both two_chain 2 100000000 (Wait 50000002).
Proof.
  assert (H : forall e, e ∈ two_chain -> is_Some (slot held_both e)).
  { intros e [->|[->|[]%not_elem_of_nil]%elem_of_cons]%elem_of_cons; eexists; reflexivity. }
  split; [exact H|]. split; [reflexivity|].
  destruct (acquire_round_spec held_both two_chain 2 100000000 H) as (r & Hr & Hok).
  assert (Heq : acquire_round held_both two_chain 2 100000000 = Some (Wait 50000002)) by reflexivity.
  rewrite Heq in Hr. injection Hr as <-. exact Hok.
Defined.
