(* ===== verification/Proxy.v ===== *)
(** * The failover walk

    [crates/amber-router/src/proxy.rs]: a request tries the endpoints of its alias
    one after the other until one answers.  The walk is a client of the key
    service ([KeyService], which the selector implements at the end of the file)
    and of the network: what a request gets back is a function of the attempt's
    index and the request, the latency measured with it. *)
From S2P Require Import Prelude Health RouterConfig Upstream Selector.

Record Attempt := mk_attempt {
  at_label : string;
  at_model : string;
  at_outcome : string;
  at_status : option Z;
  at_latency_ms : Z;
}.

Record ProxyOutcome := mk_outcome {
  po_status : Z;
  po_body : list byte;
  po_content_type : string;
  po_attempts : list Attempt;
}.

Inductive ProxyError :=
| UnknownAlias
| QueueFull
| PE_AllDead (attempts : list Attempt)
| Exhausted (attempts : list Attempt) (status : Z) (body : list byte)
| PE_Timeout (attempts : list Attempt).

(** [errors[i]]: the status and body of attempt [i], when it got a response. *)
Definition error_slot_body : Type := Z * list byte.
Definition error_slot : Type := option error_slot_body.

Definition reportable (a : Attempt) : bool :=
  match at_status a with
  | Some s => negb (s =? 429)%Z
  | None => false
  end.

Definition pick_reportable (attempts : list Attempt) : nat :=
  default (length attempts - 1) (position reportable attempts).

Definition exhausted_body : list byte := bytes_of_string "router: all endpoints exhausted".

Fixpoint find_some {A : Type} (l : list (option A)) : option A :=
  match l with
  | [] => None
  | Some a :: _ => Some a
  | None :: l' => find_some l'
  end.

Definition most_informative (attempts : list Attempt) (errors : list error_slot) : Z * list byte :=
  match mjoin (errors !! pick_reportable attempts) with
  | Some e => e
  | None => default (502%Z, exhausted_body) (find_some (reverse errors))
  end.

Definition remaining_endpoints (chain tried : list Endpoint) : list Endpoint :=
  List.filter (fun e => negb (bool_decide (e ∈ tried))) chain.

(** ** The services a walk uses *)

(** What the walk needs of the selector.  An operation is [None] when it panics; an
    acquired endpoint is one of those asked for. *)
Class KeyService (W : Type) := {
  ks_acquire : W -> list Endpoint -> Z -> option (W * result Endpoint AcquireError);
  ks_report_success : W -> Endpoint -> option W;
  ks_report_cooldown : W -> Endpoint -> option duration -> string -> option W;
  ks_report_dead : W -> Endpoint -> string -> option W;
  ks_drop : W -> Endpoint -> option W;
  ks_acquire_in : forall w chain deadline w' e,
    ks_acquire w chain deadline = Some (w', Ok e) -> e ∈ chain;
}.

(** The request of one attempt. *)
Record Sent := mk_sent {
  se_url : string;
  se_key : string;
  se_body : Value;
  se_connect_ms : Z;
}.

(** A [reqwest] failure, or the router's own timeout. *)
Inductive failure :=
| Reqwest (is_timeout : bool) (msg : string)
| Elapsed.

Record response := mk_response {
  rs_status : Z;
  rs_retry_after : option string;
  rs_content_type : option string;
  rs_body : result (list byte) failure;
  rs_latency_ms : Z;
}.

(** What [upstream.send] answers to the attempt of that index, with the latency in
    milliseconds when there is no response. *)
Definition network : Type := nat -> Sent -> result response (failure * Z).

(** ** The state of a walk *)

Record walk (W FE : Type) := mk_walk {
  w_world : W;
  w_attempts : list Attempt;
  w_errors : list error_slot;
  w_tried : list Endpoint;
  w_consecutive : nat;
  w_first : option FE;
  w_sent : list Sent;
}.
Arguments mk_walk {W FE}.
Arguments w_world {W FE}.
Arguments w_attempts {W FE}.
Arguments w_errors {W FE}.
Arguments w_tried {W FE}.
Arguments w_consecutive {W FE}.
Arguments w_first {W FE}.
Arguments w_sent {W FE}.

(** How a turn ends: the walk goes on, or it is over; [Panicked] is a panic of a
    service the turn called. *)
Inductive turn (W FE R : Type) :=
| Continue (s : walk W FE)
| Return (s : walk W FE) (r : result R ProxyError)
| Panicked
| Out_of_fuel.
Arguments Continue {W FE R}.
Arguments Return {W FE R}.
Arguments Panicked {W FE R}.
Arguments Out_of_fuel {W FE R}.

Definition exhausted {W FE R : Type} (s : walk W FE) : turn W FE R :=
  let '(status, body) := most_informative (w_attempts s) (w_errors s) in
  Return s (Err (Exhausted (w_attempts s) status body)).

(** The check at the end of an attempt. *)
Definition next_or_exhausted {W FE R : Type} (chain : list Endpoint) (s : walk W FE) : turn W FE R :=
  if length chain <=? length (w_attempts s) then exhausted s else Continue s.

Definition outcome_of (f : failure) : string :=
  match f with
  | Reqwest true _ => "timeout"
  | Reqwest false _ => "transport"
  | Elapsed => "timeout"
  end.

(** The health message of a failed attempt; [elapsed_msg] is the timeout's own. *)
Definition failure_msg (elapsed_msg : string) (f : failure) : string :=
  match f with
  | Reqwest _ msg => outcome_of f +:+ ": " +:+ msg
  | Elapsed => elapsed_msg
  end.

Section walking.
Context {W : Type} `{KeyService W} {FE R : Type}.
Context (g : Registry) (chain : list Endpoint) (deadline : Z).
Context (finish_client : FE -> list Attempt -> result R ProxyError).
Implicit Types s : walk W FE.

(** An attempt that counts against the key: it is recorded, reported, and ends the
    streak of client errors. *)
Definition failed_attempt s (e : Endpoint) (a : Attempt) (slot : error_slot)
    (report : W -> option W) : turn W FE R :=
  match (w ← report (w_world s); ks_drop w e) with
  | None => Panicked
  | Some w =>
      next_or_exhausted chain
        (mk_walk w (w_attempts s ++ [a]) (w_errors s ++ [slot]) (w_tried s) 0 None (w_sent s))
  end.

(** A client error ([Fatal]): the key is not blamed; three in a row end the walk. *)
Definition client_error s (e : Endpoint) (a : Attempt) (fe : FE) (status : Z) (body : list byte)
  : turn W FE R :=
  let first := match w_first s with Some f => Some f | None => Some fe end in
  match (w ← ks_report_success (w_world s) e; ks_drop w e) with
  | None => Panicked
  | Some w =>
      let s' := mk_walk w (w_attempts s ++ [a]) (w_errors s ++ [Some (status, body)])
                  (w_tried s) (w_consecutive s + 1) first (w_sent s) in
      if client_error_stops_chain (w_consecutive s + 1) then
        match first with
        | Some f => Return s' (finish_client f (w_attempts s'))
        | None => Panicked
        end
      else Continue s'
  end.

(** What an attempt at an endpoint does, once it holds the lease. *)
Context (attempt : walk W FE -> Endpoint -> turn W FE R).

(** One turn of the loop. *)
Definition turn_once s : turn W FE R :=
  let remaining := remaining_endpoints chain (w_tried s) in
  match remaining with
  | [] =>
      match w_first s with
      | Some f => Return s (finish_client f (w_attempts s))
      | None => exhausted s
      end
  | _ =>
      match ks_acquire (w_world s) remaining deadline with
      | None => Panicked
      | Some (w, r) =>
          let s1 := mk_walk w (w_attempts s) (w_errors s) (w_tried s) (w_consecutive s)
                      (w_first s) (w_sent s) in
          match r with
          | Err AllDead => Return s1 (Err (PE_AllDead (w_attempts s)))
          | Err Timeout =>
              match w_attempts s, w_first s with
              | [], _ => Return s1 (Err (PE_Timeout []))
              | _, Some f => Return s1 (finish_client f (w_attempts s))
              | _, None => exhausted s1
              end
          | Ok e =>
              attempt (mk_walk w (w_attempts s) (w_errors s) (w_tried s ++ [e]) (w_consecutive s)
                         (w_first s) (w_sent s)) e
          end
      end
  end.

Fixpoint walk_loop (fuel : nat) s : turn W FE R :=
  match fuel with
  | O => Out_of_fuel
  | S fuel' =>
      match turn_once s with
      | Continue s' => walk_loop fuel' s'
      | t => t
      end
  end.

(** Each turn tries an endpoint of the chain no other turn did. *)
Definition walk_fuel : nat := S (length chain).
End walking.

(** ** One request *)

(** The request an attempt sends; [None] is an index past the configuration. *)
Definition request_to (g : Registry) (body : Value) (e : Endpoint) : option (ProviderConfig * Sent) :=
  p ← provider g (ep_provider_idx e);
  k ← key g e;
  Some (p, mk_sent (chat_completions_url (p_base_url p)) k
             (prepare_body body (ep_model_id e) (p_drop_params p)) (p_connect_timeout_ms p)).

(** The total timeout of a chain: the longest of its providers'. *)
Definition total_timeout_ms (g : Registry) (chain : list Endpoint) : Z :=
  match omap (fun e => p_total_timeout_ms <$> provider g (ep_provider_idx e)) chain with
  | [] => 300000%Z
  | t :: ts => foldl Z.max t ts
  end.

Definition verdict_outcome (v : Verdict) : string :=
  match v with
  | Success => "success"
  | CoolDown _ => "cooldown"
  | DeadKey => "dead_key"
  | Fatal => "fatal"
  end.

Definition http_msg (status : Z) : string :=
  "HTTP " +:+ string_of_bytes (dec status).

Section once.
Context {W : Type} `{KeyService W} (g : Registry) (send : network) (body : Value).
Context (chain : list Endpoint).

Definition client_body : Type := Z * list byte * string.

Definition finish_once (f : client_body) (attempts : list Attempt) : result ProxyOutcome ProxyError :=
  let '(status, b, content_type) := f in Ok (mk_outcome status b content_type attempts).

Definition success_once (s : walk W client_body) (e : Endpoint) (a : Attempt) (status : Z)
    (b : list byte) (content_type : string) : turn W client_body ProxyOutcome :=
  match (w ← ks_report_success (w_world s) e; ks_drop w e) with
  | None => Panicked
  | Some w =>
      let attempts := w_attempts s ++ [a] in
      Return (mk_walk w attempts (w_errors s) (w_tried s) (w_consecutive s) (w_first s) (w_sent s))
        (Ok (mk_outcome status b content_type attempts))
  end.

(** The answer to the request, by its verdict. *)
Definition response_once (s : walk W client_body) (e : Endpoint) (label : string) (r : response)
  : turn W client_body ProxyOutcome :=
  let at_ o st := mk_attempt label (ep_model_id e) o st (rs_latency_ms r) in
  let status := rs_status r in
  let content_type := default "application/json"%string (rs_content_type r) in
  let verdict := classify_status status (rs_retry_after r) in
  let resp_body := match rs_body r with Ok b => b | Err _ => [] end in
  match verdict with
  | Success =>
      match rs_body r with
      | Ok b => success_once s e (at_ "success" (Some status)) status b content_type
      | Err f =>
          failed_attempt chain s e (at_ (outcome_of f) None) None
            (fun w => ks_report_cooldown w e None (failure_msg "timeout reading body" f))
      end
  | Fatal =>
      client_error finish_once s e (at_ "fatal" (Some status))
        (status, resp_body, content_type) status resp_body
  | DeadKey =>
      failed_attempt chain s e (at_ (verdict_outcome verdict) (Some status)) (Some (status, resp_body))
        (fun w => ks_report_dead w e (http_msg status))
  | CoolDown retry_after =>
      failed_attempt chain s e (at_ (verdict_outcome verdict) (Some status)) (Some (status, resp_body))
        (fun w => ks_report_cooldown w e retry_after (http_msg status))
  end.

(** The body of the loop of [proxy_once] with a lease on [e]. *)
Definition attempt_once (s : walk W client_body) (e : Endpoint) : turn W client_body ProxyOutcome :=
  match request_to g body e, key_label g e with
  | Some (p, sent), Some label =>
      let s1 := mk_walk (w_world s) (w_attempts s) (w_errors s) (w_tried s) (w_consecutive s)
                  (w_first s) (w_sent s ++ [sent]) in
      match send (length (w_attempts s)) sent with
      | Ok r => response_once s1 e label r
      | Err (f, latency_ms) =>
          failed_attempt chain s1 e (mk_attempt label (ep_model_id e) (outcome_of f) None latency_ms) None
            (fun w => ks_report_cooldown w e None (failure_msg "timeout waiting for headers" f))
      end
  | _, _ => Panicked
  end.
End once.

(** What [proxy_once] does from a world, a clock and the free places of the
    admission queue.  The walk's state is kept in the answer for the properties. *)
Definition start {W FE : Type} (w : W) : walk W FE := mk_walk w [] [] [] 0 None [].

Definition proxy_once {W : Type} `{KeyService W} (g : Registry) (send : network) (admission : nat)
    (now : Z) (w : W) (alias : string) (body : Value) : turn W client_body ProxyOutcome :=
  match RouterConfig.chain g alias with
  | None => Return (start w) (Err UnknownAlias)
  | Some chain =>
      if admission =? 0 then Return (start w) (Err QueueFull)
      else
        match instant_add now (total_timeout_ms g chain * nanos_per_ms)%Z with
        | None => Panicked
        | Some deadline =>
            walk_loop chain deadline finish_once (attempt_once g send body chain)
              (walk_fuel chain) (start w)
        end
  end.

(** ** One streamed request *)

Record stream_response := mk_stream {
  st_status : Z;
  st_retry_after : option string;
  st_body : list byte;
  st_events : list next_event;
  st_latency_ms : Z;
}.

Definition stream_network : Type := nat -> Sent -> result stream_response (failure * Z).

(** The response committed to the client. *)
Record Committed := mk_committed {
  cm_attempts_header : string;
  cm_bodies : list (option string);
}.

Definition attempt_header (a : Attempt) : string :=
  at_label a +:+ ":" +:+ at_outcome a +:+ ":"
    +:+ match at_status a with Some s => string_of_bytes (dec s) | None => "-" end.

Definition attempts_header (attempts : list Attempt) : string :=
  String.concat "," (map attempt_header attempts).

Definition stream_failure_msg (f : failure) : string :=
  match f with Reqwest _ msg => msg | Elapsed => "timeout waiting for headers" end.

Definition gate_outcome (f : GateFailure) : string * string :=
  match f with
  | UpstreamError b => ("sse_error", b)
  | GateTimeout => ("timeout", "no first token")
  | Empty => ("empty_stream", "stream ended")
  end.

Section stream.
Context {W : Type} `{KeyService W} (g : Registry) (send : stream_network).
Context (from_str : list Z -> option Value) (body : Value) (chain : list Endpoint).

Definition finish_stream (f : error_slot_body) (attempts : list Attempt) : result Committed ProxyError :=
  Err (Exhausted attempts f.1 f.2).

(** A stream past the gate: the lease stays with it, it is not dropped here. *)
Definition commit_stream (s : walk W error_slot_body) (e : Endpoint) (a : Attempt) (gated : GatedStream)
  : turn W error_slot_body Committed :=
  match ks_report_success (w_world s) e with
  | None => Panicked
  | Some w =>
      let attempts := w_attempts s ++ [a] in
      Return (mk_walk w attempts (w_errors s) (w_tried s) (w_consecutive s) (w_first s) (w_sent s))
        (Ok (mk_committed (attempts_header attempts) (into_body_stream gated)))
  end.

Definition response_stream (s : walk W error_slot_body) (e : Endpoint) (label : string)
    (r : stream_response) : turn W error_slot_body Committed :=
  let at_ o st := mk_attempt label (ep_model_id e) o (Some st) (st_latency_ms r) in
  let status := st_status r in
  let verdict := classify_status status (st_retry_after r) in
  match verdict with
  | Success =>
      match gate_stream from_str (st_events r) with
      | Ok gated => commit_stream s e (at_ "success" 200%Z) gated
      | Err failed =>
          let '(outcome, body_text) := gate_outcome failed in
          failed_attempt chain s e (at_ outcome 200%Z) (Some (502%Z, bytes_of_string body_text))
            (fun w => ks_report_cooldown w e None outcome)
      end
  | Fatal =>
      client_error finish_stream s e (at_ "fatal" status) (status, st_body r) status (st_body r)
  | DeadKey =>
      failed_attempt chain s e (at_ (verdict_outcome verdict) status) (Some (status, st_body r))
        (fun w => ks_report_dead w e (http_msg status))
  | CoolDown retry_after =>
      failed_attempt chain s e (at_ (verdict_outcome verdict) status) (Some (status, st_body r))
        (fun w => ks_report_cooldown w e retry_after (http_msg status))
  end.

(** The body of the loop of [proxy_stream] with a lease on [e]. *)
Definition attempt_stream (s : walk W error_slot_body) (e : Endpoint)
  : turn W error_slot_body Committed :=
  match request_to g body e, key_label g e with
  | Some (p, sent), Some label =>
      let s1 := mk_walk (w_world s) (w_attempts s) (w_errors s) (w_tried s) (w_consecutive s)
                  (w_first s) (w_sent s ++ [sent]) in
      match send (length (w_attempts s)) sent with
      | Ok r => response_stream s1 e label r
      | Err (f, latency_ms) =>
          failed_attempt chain s1 e (mk_attempt label (ep_model_id e) (outcome_of f) None latency_ms) None
            (fun w => ks_report_cooldown w e None (stream_failure_msg f))
      end
  | _, _ => Panicked
  end.
End stream.

Definition proxy_stream {W : Type} `{KeyService W} (g : Registry) (send : stream_network)
    (from_str : list Z -> option Value) (admission : nat) (now : Z) (w : W) (alias : string)
    (body : Value) : turn W error_slot_body Committed :=
  match RouterConfig.chain g alias with
  | None => Return (start w) (Err UnknownAlias)
  | Some chain =>
      if admission =? 0 then Return (start w) (Err QueueFull)
      else
        match instant_add now (total_timeout_ms g chain * nanos_per_ms)%Z with
        | None => Panicked
        | Some deadline =>
            walk_loop chain deadline finish_stream (attempt_stream g send from_str body chain)
              (walk_fuel chain) (start w)
        end
  end.

(** ** The walk, specified *)

Definition is_fatal (a : Attempt) : bool := String.eqb (at_outcome a) "fatal".

(** How many client errors in a row the attempts end with. *)
Fixpoint leading_fatal (l : list Attempt) : nat :=
  match l with
  | a :: l' => if is_fatal a then S (leading_fatal l') else 0
  | [] => 0
  end.

Definition fatal_streak (attempts : list Attempt) : nat := leading_fatal (reverse attempts).

Lemma fatal_streak_snoc ats a :
  fatal_streak (ats ++ [a]) = if is_fatal a then S (fatal_streak ats) else 0.
Proof. unfold fatal_streak. by rewrite reverse_snoc. Qed.

Lemma fatal_streak_le ats : fatal_streak ats <= length ats.
Proof.
  unfold fatal_streak. rewrite <- length_reverse. generalize (reverse ats) as l.
  induction l as [|a l IH]; simpl; [lia|]. destruct (is_fatal a); lia.
Qed.

(** The status and body of the first client error of the current streak. *)
Definition streak_error (attempts : list Attempt) (errors : list error_slot) : error_slot :=
  if fatal_streak attempts =? 0 then None
  else mjoin (errors !! (length attempts - fatal_streak attempts)).

Lemma streak_error_fatal ats errs a b :
  length ats = length errs -> is_fatal a = true ->
  streak_error (ats ++ [a]) (errs ++ [Some b])
  = match streak_error ats errs with Some x => Some x | None => if fatal_streak ats =? 0 then Some b else None end.
Proof.
  intros Hlen Ha. unfold streak_error. rewrite fatal_streak_snoc, Ha, length_app. simpl.
  pose proof (fatal_streak_le ats). destruct (Nat.eqb_spec (fatal_streak ats) 0) as [Hz|Hz].
  - rewrite Hz, lookup_app_r by lia. by replace (length ats + 1 - 1 - length errs) with 0 by lia.
  - rewrite lookup_app_l by lia. replace (length ats + 1 - S (fatal_streak ats))
      with (length ats - fatal_streak ats) by lia. by destruct (mjoin _).
Qed.

Lemma streak_error_other ats errs a slot :
  is_fatal a = false -> streak_error (ats ++ [a]) (errs ++ [slot]) = None.
Proof. intros Ha. unfold streak_error. by rewrite fatal_streak_snoc, Ha. Qed.

Section spec.
Context {W : Type} `{KeyService W} {FE R : Type}.
Context (g : Registry) (body : Value) (chain : list Endpoint) (deadline : Z).
Context (finish_client : FE -> list Attempt -> result R ProxyError) (fe_of : FE -> error_slot_body).
Context (slot_ok : nat -> Sent -> Attempt -> error_slot -> Prop).
Context (committed : walk W FE -> R -> Prop).
Implicit Types s : walk W FE.

(** The attempts made: each tried endpoint got one request, its own, and one
    attempt is recorded for it under its label. *)
Definition attempted (e : Endpoint) (sent : Sent) : Prop :=
  exists p, request_to g body e = Some (p, sent).

Definition recorded (e : Endpoint) (a : Attempt) : Prop :=
  key_label g e = Some (at_label a) /\ at_model a = ep_model_id e.

Record walk_ok (s : walk W FE) : Prop := mk_walk_ok {
  wo_nodup : NoDup (w_tried s);
  wo_incl : forall e, e ∈ w_tried s -> e ∈ chain;
  wo_sent : Forall2 attempted (w_tried s) (w_sent s);
  wo_recorded : Forall2 recorded (w_tried s) (w_attempts s);
}.

(** Attempt [i] and its error are what the network answered to its request. *)
Record slots_ok (s : walk W FE) : Prop := mk_slots_ok {
  so_errors : length (w_errors s) = length (w_attempts s);
  so_sent : length (w_sent s) = length (w_attempts s);
  so_slot : forall i sent a slot,
    w_sent s !! i = Some sent -> w_attempts s !! i = Some a -> w_errors s !! i = Some slot ->
    slot_ok i sent a slot;
}.

(** The walk between two turns. *)
Record walk_inv (s : walk W FE) : Prop := mk_walk_inv {
  wi_ok : walk_ok s;
  wi_slots : slots_ok s;
  wi_failed : Forall (fun a => at_outcome a <> "success"%string) (w_attempts s);
  wi_streak : w_consecutive s = fatal_streak (w_attempts s) /\ w_consecutive s < 3;
  wi_first : fe_of <$> w_first s = streak_error (w_attempts s) (w_errors s);
  wi_some : w_first s = None -> fatal_streak (w_attempts s) = 0;
}.

(** How a walk may end.  [Exhausted] carries the most informative error, a client
    error ends with the first of its streak. *)
Inductive ending (s : walk W FE) : result R ProxyError -> Prop :=
| end_client f :
    streak_error (w_attempts s) (w_errors s) = Some (fe_of f) ->
    ending s (finish_client f (w_attempts s))
| end_exhausted status b :
    fatal_streak (w_attempts s) = 0 ->
    most_informative (w_attempts s) (w_errors s) = (status, b) ->
    slots_ok s ->
    ending s (Err (Exhausted (w_attempts s) status b))
| end_dead : ending s (Err (PE_AllDead (w_attempts s)))
| end_timeout : w_attempts s = [] -> ending s (Err (PE_Timeout []))
| end_committed attempts a r :
    w_attempts s = attempts ++ [a] -> at_outcome a = "success"%string ->
    Forall (fun a => at_outcome a <> "success"%string) attempts ->
    committed s r ->
    ending s (Ok r).

(** The services never panic on the endpoints of the chain. *)
Definition services_total : Prop :=
  (forall (w : W) (es : list Endpoint) (dl : Z), (forall e, e ∈ es -> e ∈ chain) -> is_Some (ks_acquire w es dl))
  /\ forall e, e ∈ chain ->
    (forall w : W, is_Some (ks_report_success w e) /\ is_Some (ks_drop w e)
       /\ (forall ra msg, is_Some (ks_report_cooldown w e ra msg))
       /\ (forall msg, is_Some (ks_report_dead w e msg)))
    /\ is_Some (request_to g body e) /\ is_Some (key_label g e).

Definition good_turn (s : walk W FE) (t : turn W FE R) : Prop :=
  match t with
  | Continue s' => walk_inv s' /\ length (w_tried s) < length (w_tried s')
  | Return s' r => walk_ok s' /\ ending s' r
  | Panicked => ~ services_total
  | Out_of_fuel => False
  end.

(** A lease taken: what an attempt starts from. *)
Definition leased_walk (s : walk W FE) (w : W) (e : Endpoint) : walk W FE :=
  mk_walk w (w_attempts s) (w_errors s) (w_tried s ++ [e]) (w_consecutive s) (w_first s) (w_sent s).

Definition sent_walk (s : walk W FE) (sent : Sent) : walk W FE :=
  mk_walk (w_world s) (w_attempts s) (w_errors s) (w_tried s) (w_consecutive s) (w_first s)
    (w_sent s ++ [sent]).

Lemma walk_ok_world s w :
  walk_ok s -> walk_ok (mk_walk w (w_attempts s) (w_errors s) (w_tried s) (w_consecutive s)
                          (w_first s) (w_sent s)).
Proof. intros []. by constructor. Qed.

(** An attempt recorded and answered. *)
Lemma walk_ok_attempt s w w' e sent a errors n first :
  walk_ok s -> e ∈ chain -> e ∉ w_tried s -> attempted e sent -> recorded e a ->
  let s1 := sent_walk (leased_walk s w e) sent in
  walk_ok (mk_walk w' (w_attempts s1 ++ [a]) errors (w_tried s1) n first (w_sent s1)).
Proof.
  intros [Hnd Hin Hs Hr] He Hnew Hsent Ha s1. constructor; simpl.
  - apply NoDup_app. split_and!; [done| |apply NoDup_singleton].
    by intros x Hx ->%list_elem_of_singleton.
  - intros e' [?| ->%list_elem_of_singleton]%elem_of_app; auto.
  - by apply Forall2_app, Forall2_cons; [|split; [|constructor]].
  - by apply Forall2_app, Forall2_cons; [|split; [|constructor]].
Qed.

Lemma slots_ok_attempt s w w' e sent a slot tried n first :
  slots_ok s -> slot_ok (length (w_attempts s)) sent a slot ->
  let s1 := sent_walk (leased_walk s w e) sent in
  slots_ok (mk_walk w' (w_attempts s1 ++ [a]) (w_errors s1 ++ [slot]) tried n first (w_sent s1)).
Proof.
  intros [He Hs Hslots] Hslot s1. constructor; simpl.
  - rewrite !length_app. simpl. lia.
  - rewrite !length_app. simpl. lia.
  - intros i x b y Hx Hb Hy. destruct (decide (i < length (w_attempts s))).
    + rewrite lookup_app_l in Hx by lia. rewrite lookup_app_l in Hb by lia.
      rewrite lookup_app_l in Hy by lia. eauto.
    + assert (i = length (w_attempts s)) as ->.
      { apply lookup_lt_Some in Hb. rewrite length_app in Hb. simpl in Hb. lia. }
      rewrite list_lookup_middle in Hb by done. rewrite list_lookup_middle in Hx by lia.
      rewrite list_lookup_middle in Hy by lia. by simplify_eq.
Qed.

Lemma failed_attempt_good s w e sent a slot report :
  walk_inv s -> e ∈ chain -> e ∉ w_tried s -> attempted e sent -> recorded e a ->
  slot_ok (length (w_attempts s)) sent a slot -> is_fatal a = false -> at_outcome a <> "success"%string ->
  (services_total -> forall w, is_Some (report w)) ->
  good_turn s (failed_attempt chain (sent_walk (leased_walk s w e) sent) e a slot report).
Proof.
  intros Hi He Hnew Hsent Ha Hslot Hf Hns Hrep. unfold failed_attempt.
  destruct (_ ≫= _) as [w'|] eqn:Hw.
  2: { intros Ht. destruct (Hrep Ht w) as [w1 Hw1]. simpl in Hw. rewrite Hw1 in Hw. simpl in Hw.
       destruct (proj2 Ht e He) as [Hs _]. destruct (Hs w1) as (_ & [] & _). congruence. }
  assert (Hok := walk_ok_attempt s w w' e sent a (w_errors s ++ [slot]) 0 None
    (wi_ok s Hi) He Hnew Hsent Ha). simpl in *.
  assert (Hslots := fun tried n first =>
    slots_ok_attempt s w w' e sent a slot tried n first (wi_slots s Hi) Hslot).
  assert (Hz : fatal_streak (w_attempts s ++ [a]) = 0) by (by rewrite fatal_streak_snoc, Hf).
  unfold next_or_exhausted, exhausted. simpl. destruct (_ <=? _).
  - destruct (most_informative _ _) as [st b] eqn:Hm. simpl. split; [done|].
    by eapply (end_exhausted (mk_walk w' (w_attempts s ++ [a]) (w_errors s ++ [slot]) _ _ _ _)).
  - simpl. split; [|rewrite length_app; simpl; lia]. constructor; simpl; try done.
    + apply Forall_app. split; [apply (wi_failed s Hi)|by constructor].
    + rewrite Hz. split; lia.
    + symmetry. by apply streak_error_other.
Qed.

Lemma client_error_good s w e sent a fe :
  walk_inv s -> e ∈ chain -> e ∉ w_tried s -> attempted e sent -> recorded e a ->
  slot_ok (length (w_attempts s)) sent a (Some (fe_of fe)) -> at_outcome a = "fatal"%string ->
  good_turn s (client_error finish_client (sent_walk (leased_walk s w e) sent) e a fe
                 (fe_of fe).1 (fe_of fe).2).
Proof.
  intros Hi He Hnew Hsent Ha Hslot Hf. unfold client_error. rewrite <- surjective_pairing. simpl.
  destruct (ks_report_success w e ≫= _) as [w'|] eqn:Hw.
  2: { intros Ht. destruct (proj2 Ht e He) as [Hs _]. destruct (Hs w) as ([w1 Hw1] & _).
       rewrite Hw1 in Hw. simpl in Hw. destruct (Hs w1) as (_ & [] & _). congruence. }
  set (first := match w_first s with Some f => Some f | None => Some fe end).
  assert (Hfirst : exists f, first = Some f) by (unfold first; destruct (w_first s); eauto).
  assert (Hok := walk_ok_attempt s w w' e sent a (w_errors s ++ [Some (fe_of fe)])
    (w_consecutive s + 1) first (wi_ok s Hi) He Hnew Hsent Ha). simpl in Hok.
  assert (Hfatal : is_fatal a = true) by (unfold is_fatal; by rewrite Hf).
  assert (Hstreak : fe_of <$> first = streak_error (w_attempts s ++ [a]) (w_errors s ++ [Some (fe_of fe)])).
  { rewrite streak_error_fatal by (try done; symmetry; apply (wi_slots s Hi)).
    rewrite <- (wi_first s Hi). unfold first. destruct (w_first s) eqn:Hnone; [done|]. simpl.
    by rewrite (wi_some s Hi Hnone). }
  destruct (wi_streak s Hi) as [Hc Hlt].
  destruct (client_error_stops_chain _) eqn:Hstop.
  - destruct Hfirst as [f Hf1]. rewrite Hf1 in Hstreak |- *. simpl. rewrite Hf1 in Hok. split; [done|].
    apply (end_client (mk_walk w' (w_attempts s ++ [a]) (w_errors s ++ [Some (fe_of fe)]) _ _ _ _)).
    simpl. by rewrite <- Hstreak.
  - simpl. split; [|rewrite length_app; simpl; lia]. constructor; simpl; try done.
    + by apply (slots_ok_attempt s w w' e); [apply (wi_slots s Hi)|].
    + apply Forall_app. split; [apply (wi_failed s Hi)|]. constructor; [by rewrite Hf|done].
    + rewrite fatal_streak_snoc, Hfatal. unfold client_error_stops_chain, CONSECUTIVE_CLIENT_ERRORS_LIMIT in Hstop.
      apply Nat.leb_gt in Hstop. lia.
    + intros Hn. destruct Hfirst. congruence.
Qed.

(** The end of a chain none of whose endpoints is left. *)
Lemma out_of_endpoints s :
  walk_inv s ->
  good_turn s match w_first s with
              | Some f => Return s (finish_client f (w_attempts s))
              | None => exhausted s
              end.
Proof.
  intros Hi. destruct (w_first s) as [f|] eqn:Hw.
  - simpl. split; [apply (wi_ok s Hi)|]. apply end_client. by rewrite <- (wi_first s Hi), Hw.
  - unfold exhausted. destruct (most_informative _ _) as [st b] eqn:Hm. simpl. split; [apply (wi_ok s Hi)|].
    apply end_exhausted; [by apply (wi_some s Hi)|done|apply (wi_slots s Hi)].
Qed.

Lemma walk_inv_world s w :
  walk_inv s -> walk_inv (mk_walk w (w_attempts s) (w_errors s) (w_tried s) (w_consecutive s)
                            (w_first s) (w_sent s)).
Proof. intros [? [] ? ? ? ?]. constructor; try done. by apply walk_ok_world. Qed.

Lemma elem_of_remaining tried e : e ∈ remaining_endpoints chain tried <-> e ∈ chain /\ e ∉ tried.
Proof.
  unfold remaining_endpoints. rewrite !list_elem_of_In, filter_In, negb_true_iff.
  by rewrite bool_decide_eq_false, list_elem_of_In.
Qed.

Context (attempt : walk W FE -> Endpoint -> turn W FE R).
Hypothesis attempt_good : forall s w e,
  walk_inv s -> e ∈ chain -> e ∉ w_tried s -> good_turn s (attempt (leased_walk s w e) e).

Lemma turn_once_good s :
  walk_inv s -> good_turn s (turn_once chain deadline finish_client attempt s).
Proof.
  intros Hi. unfold turn_once.
  destruct (remaining_endpoints chain (w_tried s)) as [|e0 es] eqn:Hrem; [by apply out_of_endpoints|].
  rewrite <- Hrem. destruct (ks_acquire _ _ _) as [[w r]|] eqn:Hacq.
  2: { intros Ht. destruct (proj1 Ht (w_world s) (remaining_endpoints chain (w_tried s)) deadline); [|congruence].
       intros e He. by apply elem_of_remaining in He as [He _]. }
  pose proof (walk_inv_world s w Hi) as Hi1. destruct r as [e|[]].
  - apply ks_acquire_in in Hacq. apply elem_of_remaining in Hacq as [He Hnew].
    by apply attempt_good.
  - simpl. split; [apply (wi_ok _ Hi1)|]. apply (end_dead (mk_walk w (w_attempts s) _ _ _ _ _)).
  - destruct (w_attempts s) as [|a ats] eqn:Hats.
    + simpl. split; [apply (wi_ok _ Hi1)|]. by apply end_timeout.
    + pose proof (out_of_endpoints _ Hi1) as Hgood. simpl in Hgood. by destruct (w_first s).
Qed.

Lemma tried_le s : walk_ok s -> length (w_tried s) <= length chain.
Proof. intros []. by apply submseteq_length, NoDup_submseteq. Qed.

Lemma walk_loop_good fuel s :
  walk_inv s -> length chain < fuel + length (w_tried s) ->
  match walk_loop chain deadline finish_client attempt fuel s with
  | Return s' r => walk_ok s' /\ ending s' r
  | Panicked => ~ services_total
  | Continue _ | Out_of_fuel => False
  end.
Proof.
  revert s. induction fuel as [|fuel IH]; intros s Hi Hfuel.
  { pose proof (tried_le s (wi_ok s Hi)). lia. }
  simpl. pose proof (turn_once_good s Hi) as Hgood.
  destruct (turn_once chain deadline finish_client attempt s) as [s'|s' r| |]; simpl in Hgood; try done.
  destruct Hgood as [Hi' Hlt]. apply IH; [done|lia].
Qed.

Lemma start_inv (w : W) : walk_inv (start w).
Proof.
  constructor; [|by constructor|by constructor|split; [done|simpl; lia]|done|done].
  constructor; [constructor|intros e He; by apply not_elem_of_nil in He|constructor|constructor].
Qed.
End spec.

(** ** [proxy_once] *)

(** A recorded error is the response the upstream gave to that request. *)
Definition slot_once (send : network) (i : nat) (sent : Sent) (a : Attempt) (slot : error_slot) : Prop :=
  match slot with
  | None => at_status a = None
  | Some (status, b) =>
      at_status a = Some status /\ classify_status status None <> Success
      /\ exists r, send i sent = Ok r /\ rs_status r = status
           /\ b = match rs_body r with Ok x => x | Err _ => [] end
  end.

(** A success is the last upstream response, unchanged. *)
Definition committed_once (send : network) {W} (s : walk W client_body) (o : ProxyOutcome) : Prop :=
  po_attempts o = w_attempts s /\ classify_status (po_status o) None = Success
  /\ exists sent r, last (w_sent s) = Some sent /\ send (length (w_attempts s) - 1) sent = Ok r
       /\ rs_status r = po_status o /\ rs_body r = Ok (po_body o)
       /\ po_content_type o = default "application/json"%string (rs_content_type r).

Lemma classify_success status ra : classify_status status ra = Success <-> classify_status status None = Success.
Proof. unfold classify_status. by repeat case_match. Qed.

Lemma slot_once_response send i sent r a :
  send i sent = Ok r -> classify_status (rs_status r) (rs_retry_after r) <> Success ->
  at_status a = Some (rs_status r) ->
  slot_once send i sent a (Some (rs_status r, match rs_body r with Ok x => x | Err _ => [] end)).
Proof.
  intros Hr Hv Ha. simpl. split; [done|]. split; [by rewrite <- classify_success|]. by exists r.
Qed.

Section total.
Context {W : Type} `{KeyService W} (g : Registry) (body : Value) (chain : list Endpoint).
Context (Ht : services_total (W := W) g body chain) (e : Endpoint) (He : e ∈ chain).

Lemma total_cooldown ra msg w : is_Some (ks_report_cooldown w e ra msg).
Proof. destruct (proj2 Ht e He) as [Hs _]. apply (Hs w). Qed.

Lemma total_dead msg w : is_Some (ks_report_dead w e msg).
Proof. destruct (proj2 Ht e He) as [Hs _]. apply (Hs w). Qed.

Lemma total_success w : is_Some (ks_report_success w e).
Proof. destruct (proj2 Ht e He) as [Hs _]. apply (Hs w). Qed.

Lemma total_success_drop w : is_Some (w' ← ks_report_success w e; ks_drop w' e).
Proof.
  destruct (proj2 Ht e He) as [Hs _]. destruct (Hs w) as ([w1 ->] & _). simpl. apply (Hs w1).
Qed.

Lemma total_request : is_Some (request_to g body e) /\ is_Some (key_label g e).
Proof. by destruct (proj2 Ht e He). Qed.
End total.

Definition body_of (f : client_body) : error_slot_body := f.1.

Lemma attempt_once_good {W : Type} `{KeyService W} g send body chain (s : walk W client_body) w e :
  let inv := walk_inv g body chain body_of (slot_once send) in
  inv s -> e ∈ chain -> e ∉ w_tried s ->
  good_turn g body chain finish_once body_of (slot_once send) (committed_once send) s
    (attempt_once g send body chain (leased_walk s w e) e).
Proof.
  intros inv Hi He Hnew. unfold attempt_once.
  destruct (request_to g body e) as [[p sent]|] eqn:Hreq.
  2: { intros Ht. destruct (total_request _ _ _ Ht e He) as [[] _]. congruence. }
  destruct (key_label g e) as [label|] eqn:Hlab.
  2: { intros Ht. destruct (total_request _ _ _ Ht e He) as [_ []]. congruence. }
  change (mk_walk _ _ _ _ _ _ _) with (sent_walk (leased_walk s w e) sent).
  assert (Hsent : attempted g body e sent) by (by exists p).
  destruct (send (length (w_attempts (leased_walk s w e))) sent) as [r|[f lat]] eqn:Hr; simpl in Hr.
  2: { apply failed_attempt_good; try done.
       - by destruct f as [[]|].
       - by destruct f as [[]|].
       - eauto using total_cooldown, total_dead. }
  unfold response_once. destruct (classify_status (rs_status r) (rs_retry_after r)) as [|ra| |] eqn:Hv.
  - destruct (rs_body r) as [b|f] eqn:Hb.
    + unfold success_once. destruct (ks_report_success _ e ≫= _) as [w'|] eqn:Hw; simpl in Hw.
      2: { intros Ht. destruct (total_success_drop _ _ _ Ht e He w). congruence. }
      split; [by eapply (walk_ok_attempt g body chain s w w' e); [apply (wi_ok _ _ _ _ _ s Hi)|..]|].
      eapply end_committed; [done|done|apply (wi_failed _ _ _ _ _ s Hi)|].
      split; [done|]. split; [by apply (classify_success _ (rs_retry_after r))|].
      exists sent, r. simpl. rewrite last_snoc, length_app. simpl.
      replace (length (w_attempts s) + 1 - 1) with (length (w_attempts s)) by lia. done.
    + apply failed_attempt_good; try done.
      * by destruct f as [[]|].
      * by destruct f as [[]|].
      * eauto using total_cooldown, total_dead.
  - apply failed_attempt_good; try done.
    + apply slot_once_response; [done|by rewrite Hv|done].
    + eauto using total_cooldown, total_dead.
  - apply failed_attempt_good; try done.
    + apply slot_once_response; [done|by rewrite Hv|done].
    + eauto using total_cooldown, total_dead.
  - set (b := match rs_body r with Ok x => x | Err _ => [] end).
    apply (client_error_good g body chain finish_once body_of (slot_once send) (committed_once send) s w e sent _
      (rs_status r, b, _)); try done.
    apply slot_once_response; [done|by rewrite Hv|done].
Qed.


(** ** [proxy_stream] *)

(** A recorded error is the refused response, or the 502 of a stream the gate
    refused. *)
Definition slot_stream (send : stream_network) (from_str : list Z -> option Value) (i : nat)
    (sent : Sent) (a : Attempt) (slot : error_slot) : Prop :=
  match slot with
  | None => at_status a = None
  | Some (status, b) => exists r, send i sent = Ok r /\
      (at_status a = Some status /\ classify_status status None <> Success
         /\ status = st_status r /\ b = st_body r
       \/ at_status a = Some 200%Z /\ status = 502%Z
         /\ exists f, gate_stream from_str (st_events r) = Err f /\ b = bytes_of_string (gate_outcome f).2)
  end.

(** What is committed is a stream that passed the gate, from its first frame on. *)
Definition committed_stream (send : stream_network) (from_str : list Z -> option Value) {W}
    (s : walk W error_slot_body) (c : Committed) : Prop :=
  cm_attempts_header c = attempts_header (w_attempts s)
  /\ exists sent r gated, last (w_sent s) = Some sent /\ send (length (w_attempts s) - 1) sent = Ok r
       /\ classify_status (st_status r) None = Success
       /\ gate_stream from_str (st_events r) = Ok gated /\ cm_bodies c = into_body_stream gated.

Lemma slot_stream_response send from_str i sent r a :
  send i sent = Ok r -> classify_status (st_status r) (st_retry_after r) <> Success ->
  at_status a = Some (st_status r) ->
  slot_stream send from_str i sent a (Some (st_status r, st_body r)).
Proof.
  intros Hr Hv Ha. exists r. split; [done|]. left. split; [done|]. split; [by rewrite <- classify_success|done].
Qed.

Lemma attempt_stream_good {W : Type} `{KeyService W} g send from_str body chain
    (s : walk W error_slot_body) w e :
  let inv := walk_inv g body chain (fun f => f) (slot_stream send from_str) in
  inv s -> e ∈ chain -> e ∉ w_tried s ->
  good_turn g body chain finish_stream (fun f => f) (slot_stream send from_str)
    (committed_stream send from_str) s
    (attempt_stream g send from_str body chain (leased_walk s w e) e).
Proof.
  intros inv Hi He Hnew. unfold attempt_stream.
  destruct (request_to g body e) as [[p sent]|] eqn:Hreq.
  2: { intros Ht. destruct (total_request _ _ _ Ht e He) as [[] _]. congruence. }
  destruct (key_label g e) as [label|] eqn:Hlab.
  2: { intros Ht. destruct (total_request _ _ _ Ht e He) as [_ []]. congruence. }
  change (mk_walk _ _ _ _ _ _ _) with (sent_walk (leased_walk s w e) sent).
  assert (Hsent : attempted g body e sent) by (by exists p).
  destruct (send (length (w_attempts (leased_walk s w e))) sent) as [r|[f lat]] eqn:Hr; simpl in Hr.
  2: { apply failed_attempt_good; try done; [by destruct f as [[]|]..|eauto using total_cooldown]. }
  unfold response_stream. destruct (classify_status (st_status r) (st_retry_after r)) as [|ra| |] eqn:Hv.
  - apply classify_success in Hv as Hok.
    destruct (gate_stream from_str (st_events r)) as [gated|f] eqn:Hg.
    + unfold commit_stream. destruct (ks_report_success _ e) as [w'|] eqn:Hw; simpl in Hw.
      2: { intros Ht. destruct (total_success _ _ _ Ht e He w). congruence. }
      split; [by eapply (walk_ok_attempt g body chain s w w' e); [apply (wi_ok _ _ _ _ _ s Hi)|..]|].
      eapply end_committed; [done|done|apply (wi_failed _ _ _ _ _ s Hi)|].
      split; [done|]. exists sent, r, gated. simpl. rewrite last_snoc, length_app. simpl.
      replace (length (w_attempts s) + 1 - 1) with (length (w_attempts s)) by lia. done.
    + destruct (gate_outcome f) as [outcome text] eqn:Ho.
      apply failed_attempt_good; try done; [|by destruct f; injection Ho as <- <-..|eauto using total_cooldown].
      exists r. split; [done|]. right. split; [done|]. split; [done|]. exists f. by rewrite Ho.
  - apply failed_attempt_good; try done; [|eauto using total_cooldown].
    apply slot_stream_response; [done|by rewrite Hv|done].
  - apply failed_attempt_good; try done; [|eauto using total_dead].
    apply slot_stream_response; [done|by rewrite Hv|done].
  - apply (client_error_good g body chain finish_stream (fun f => f) (slot_stream send from_str)
      (committed_stream send from_str) s w e sent _ (st_status r, st_body r)); try done.
    apply slot_stream_response; [done|by rewrite Hv|done].
Qed.


(** ** The error reported *)

(** Entry [i] is the last of the list that is there. *)
Definition last_some (l : list error_slot) (i : nat) (e : error_slot_body) : Prop :=
  l !! i = Some (Some e) /\ forall j x, i < j -> l !! j = Some x -> x = None.

Lemma find_some_reverse (l : list error_slot) :
  match find_some (reverse l) with
  | Some e => exists i, last_some l i e
  | None => forall x, x ∈ l -> x = None
  end.
Proof.
  induction l as [|x l IH] using rev_ind; [intros x Hx; by apply not_elem_of_nil in Hx|].
  rewrite reverse_snoc. destruct x as [e|]; simpl.
  - exists (length l). split; [by apply list_lookup_middle|]. intros j y Hj Hy.
    apply lookup_lt_Some in Hy. rewrite length_app in Hy. simpl in Hy. lia.
  - destruct (find_some (reverse l)) as [e|].
    + destruct IH as (i & Hi & Hafter). exists i. split; [by apply lookup_app_l_Some|].
      intros j y Hj Hy. apply lookup_app_Some in Hy as [Hy|[_ Hy]]; [by eapply Hafter|].
      apply list_lookup_singleton_Some in Hy as [_ <-]. done.
    + intros x [Hx| ->%list_elem_of_singleton]%elem_of_app; auto.
Qed.

Lemma find_some_head (l : list error_slot) e :
  mjoin (l !! (length l - 1)) = Some e -> find_some (reverse l) = Some e.
Proof.
  destruct l as [|x l] using rev_ind; [done|]. rewrite length_app. simpl.
  replace (length l + 1 - 1) with (length l) by lia. rewrite list_lookup_middle by done.
  rewrite reverse_snoc. simpl. by intros ->.
Qed.

Lemma most_informative_fallback attempts errors :
  length attempts = length errors -> position reportable attempts = None ->
  most_informative attempts errors = default (502%Z, exhausted_body) (find_some (reverse errors)).
Proof.
  intros Hlen Hpos. unfold most_informative, pick_reportable. rewrite Hpos, Hlen. simpl.
  destruct (mjoin _) as [e|] eqn:He; [|done]. by rewrite (find_some_head _ _ He).
Qed.

(** The error an exhausted walk reports is that of its first attempt that got a
    response other than a rate limit; failing that, the last response there was;
    failing that, the router's own 502. *)
Theorem most_informative_spec (attempts : list Attempt) (errors : list error_slot)
    (Haligned : Forall2 (fun a slot => at_status a = None <-> slot = None) attempts errors) :
  (exists i a e, attempts !! i = Some a /\ reportable a = true
     /\ (forall j b, j < i -> attempts !! j = Some b -> reportable b = false)
     /\ errors !! i = Some (Some e) /\ most_informative attempts errors = e)
  \/ ((forall a, a ∈ attempts -> reportable a = false)
      /\ ((exists i e, last_some errors i e /\ most_informative attempts errors = e)
          \/ ((forall x, x ∈ errors -> x = None)
              /\ most_informative attempts errors = (502%Z, exhausted_body)))).
Proof.
  assert (Hlen := Forall2_length _ _ _ Haligned).
  destruct (position reportable attempts) as [i|] eqn:Hpos.
  - left. destruct (position_Some _ _ _ Hpos) as (a & Ha & Hr & Hfirst).
    destruct (Forall2_lookup_l _ _ _ _ _ Haligned Ha) as (slot & Hslot & Hal).
    assert (exists e, slot = Some e) as [e ->].
    { destruct slot as [e|]; [eauto|]. unfold reportable in Hr. by rewrite (proj2 Hal eq_refl) in Hr. }
    exists i, a, e. split_and!; try done. unfold most_informative, pick_reportable.
    rewrite Hpos. change (default (length attempts - 1) (Some i)) with i.
    unfold error_slot, error_slot_body in *. by rewrite Hslot.
  - right. split; [by apply position_None|]. rewrite most_informative_fallback by done.
    pose proof (find_some_reverse errors) as Hlast. destruct (find_some (reverse errors)) as [e|].
    + left. destruct Hlast as [i Hi]. eauto.
    + by right.
Qed.

Lemma most_informative_spec_witness :
  let attempts := [mk_attempt "a#0" "m" "cooldown" (Some 429%Z) 1; mk_attempt "b#0" "m" "transport" None 1;
                   mk_attempt "c#0" "m" "cooldown" (Some 500%Z) 1] in
  let errors := [Some (429, []); None; Some (500, [120])]%Z in
  Forall2 (fun a slot => at_status a = None <-> slot = None) attempts errors
  /\ most_informative attempts errors = (500, [120])%Z
  /\ exists i a e, attempts !! i = Some a /\ reportable a = true /\ errors !! i = Some (Some e)
       /\ most_informative attempts errors = e.
Proof.
  intros attempts errors.
  assert (H : Forall2 (fun a slot => at_status a = None <-> slot = None) attempts errors)
    by (repeat constructor; done).
  split; [exact H|]. split; [reflexivity|].
  destruct (most_informative_spec attempts errors H) as [(i & a & e & H1 & H2 & _ & H3 & H4)|[Hno _]].
  - exists i, a, e. done.
  - exfalso. assert (Hr := Hno (mk_attempt "c#0" "m" "cooldown" (Some 500%Z) 1)).
    discriminate Hr. repeat constructor.
Defined.

(** ** The selector as the key service *)

(** A request's view of the shared selector: its clock, and the instants at which
    its waits end, each with what the other tasks did to the selector meanwhile. *)
Record Router := mk_router {
  rt_sel : Selector;
  rt_clock : Z;
  rt_wakes : list (Z * (Selector -> Selector));
}.

(** The loop of [Selector::acquire]: a round, and a wait when it says so.  A wait
    ends at a wake-up; with none left it lasts until the deadline. *)
Fixpoint acquire (sel : Selector) (clock : Z) (wakes : list (Z * (Selector -> Selector)))
    (chain : list Endpoint) (deadline : Z) : option (Router * result Endpoint AcquireError) :=
  match acquire_round sel chain clock deadline with
  | None => None
  | Some (Leased e sel') => Some (mk_router sel' clock wakes, Ok e)
  | Some (Failed err) => Some (mk_router sel clock wakes, Err err)
  | Some (Wait _) =>
      match wakes with
      | [] => Some (mk_router sel deadline [], Err Timeout)
      | (now, others) :: wakes' => acquire (others sel) now wakes' chain deadline
      end
  end.

Definition with_sel (rt : Router) (sel : Selector) : Router :=
  mk_router sel (rt_clock rt) (rt_wakes rt).

Lemma acquire_in sel clock wakes chain deadline rt e :
  acquire sel clock wakes chain deadline = Some (rt, Ok e) -> e ∈ chain.
Proof.
  revert sel clock. induction wakes as [|[now others] wakes IH]; intros sel clock H; simpl in H;
    destruct (acquire_round sel chain clock deadline) as [[e' sel'|err|wake]|] eqn:Hr; try done.
  1: injection H as _ <-. 2: injection H as _ <-. 3: by eapply IH.
  all: apply acquire_leased in Hr as (i & k & _ & _ & _ & _ & _ & Hs);
    apply scan_found in Hs as (b & a & _ & -> & _); apply elem_of_app; right; by left.
Qed.

#[export] Instance selector_service : KeyService Router := {
  ks_acquire rt chain deadline := acquire (rt_sel rt) (rt_clock rt) (rt_wakes rt) chain deadline;
  ks_report_success rt e := with_sel rt <$> report_success (rt_sel rt) e;
  ks_report_cooldown rt e ra msg := with_sel rt <$> report_cooldown (rt_sel rt) e (rt_clock rt) ra msg;
  ks_report_dead rt e msg := with_sel rt <$> report_dead (rt_sel rt) e msg;
  ks_drop rt e := with_sel rt <$> release (rt_sel rt) e;
  ks_acquire_in rt chain deadline rt' e :=
    acquire_in (rt_sel rt) (rt_clock rt) (rt_wakes rt) chain deadline rt' e;
}.

(** Two providers; the first answers 400, the key of the second is dead. *)
Definition example_registry : Registry :=
  default two_keys (build (mk_config (mk_server "" None 0 0)
    [mk_provider "a" "" "http://a/v1/" ["ka"] 1 [] 0 0 1000 1000 60000;
     mk_provider "b" "" "http://b/v1" ["kb"] 1 [] 0 0 1000 1000 60000]
    [mk_alias "smart" [mk_entry "a" "ma"; mk_entry "b" "mb"]])).

Definition endpoint_a : Endpoint := mk_endpoint 0 0 "ma".
Definition endpoint_b : Endpoint := mk_endpoint 1 0 "mb".

Definition bad_request : network :=
  fun _ _ => Ok (mk_response 400 None None (Ok [123; 125]%Z) 3).

(** A provider that rate-limits, then one that answers. *)
Definition second_answers : network :=
  fun i _ => if i =? 0 then Ok (mk_response 429 None None (Ok []) 3)
             else Ok (mk_response 200 None None (Ok [111; 107]%Z) 7).

Definition answer {W FE R} (t : turn W FE R) : option (result R ProxyError) :=
  match t with Return _ r => Some r | _ => None end.

Example failover_run :
  answer (proxy_once example_registry second_answers 8 0
            (mk_router (new example_registry) 0 []) "smart" (VObject []))
  = Some (Ok (mk_outcome 200 [111; 107]%Z "application/json"
      [mk_attempt "a#0" "ma" "cooldown" (Some 429%Z) 3; mk_attempt "b#0" "mb" "success" (Some 200%Z) 7])).
Proof. vm_compute. reflexivity. Qed.

Definition b_dead : Selector :=
  default (new example_registry) (report_dead (new example_registry) endpoint_b "HTTP 401").

(** ** When only dead keys are left *)

(** When every endpoint not tried yet is dead, the walk ends by reporting that
    every credential is dead, whatever its attempts got: a client error that
    would be the answer if those endpoints had been tried, or had the deadline
    passed, is dropped. *)
Theorem dead_rest_hides_error {W FE R : Type} `{KeyService W} (chain : list Endpoint) (deadline : Z)
    (finish_client : FE -> list Attempt -> result R ProxyError)
    (attempt : walk W FE -> Endpoint -> turn W FE R) (fuel : nat) (s : walk W FE) (f : FE) (w : W)
    (Hleft : remaining_endpoints chain (w_tried s) <> [])
    (Hfirst : w_first s = Some f) (Hatt : w_attempts s <> []) :
  (ks_acquire (w_world s) (remaining_endpoints chain (w_tried s)) deadline = Some (w, Err AllDead) ->
   exists s', walk_loop chain deadline finish_client attempt (S fuel) s
              = Return s' (Err (PE_AllDead (w_attempts s))))
  /\ (ks_acquire (w_world s) (remaining_endpoints chain (w_tried s)) deadline = Some (w, Err Timeout) ->
      exists s', walk_loop chain deadline finish_client attempt (S fuel) s
                 = Return s' (finish_client f (w_attempts s))).
Proof.
  destruct (remaining_endpoints chain (w_tried s)) as [|e0 es] eqn:Hrem; [done|].
  simpl. unfold turn_once. rewrite Hrem. split; intros ->; [by eexists|].
  rewrite Hfirst. destruct (w_attempts s); [done|]. by eexists.
Qed.

Lemma dead_rest_hides_error_witness :
  let s := mk_walk (mk_router b_dead 0 []) [mk_attempt "a#0" "ma" "fatal" (Some 400%Z) 3]
             [Some (400, [123; 125])]%Z [endpoint_a] 1 (Some (400%Z, [123; 125]%Z, "application/json"%string)) [] in
  let chain := [endpoint_a; endpoint_b] in
  (exists s', walk_loop chain 1000000000 finish_once
      (attempt_once example_registry bad_request (VObject []) chain) 2 s
    = Return s' (Err (PE_AllDead [mk_attempt "a#0" "ma" "fatal" (Some 400%Z) 3])))
  /\ answer (proxy_once example_registry bad_request 8 0 (mk_router b_dead 0 []) "smart" (VObject []))
     = Some (Err (PE_AllDead [mk_attempt "a#0" "ma" "fatal" (Some 400%Z) 3]))
  /\ answer (proxy_once example_registry bad_request 8 0 (mk_router (new example_registry) 0 [])
       "smart" (VObject []))
     = Some (Ok (mk_outcome 400 [123; 125]%Z "application/json"
         [mk_attempt "a#0" "ma" "fatal" (Some 400%Z) 3; mk_attempt "b#0" "mb" "fatal" (Some 400%Z) 3])).
Proof.
  intros s chain. split.
  - eapply (dead_rest_hides_error chain 1000000000 finish_once
      (attempt_once example_registry bad_request (VObject []) chain) 1 s); try discriminate; vm_compute; reflexivity.
  - split; vm_compute; reflexivity.
Defined.
