(* ===== verification/Slots.v ===== *)
(** * Slots

    [crates/amber-router/src/slots.rs], [store.rs] and [live.rs]: the flat list the
    user edits, the configuration it is turned into, the file it is kept in, and
    the registry requests are served from.  TOML and the source of fresh ids are
    parameters. *)
From S2P Require Import Prelude Utf8 RouterConfig.

Definition DEFAULT_ALIAS : string := "auto".

Record Slot := mk_slot {
  sl_id : string;
  sl_name : string;
  sl_base_url : string;
  sl_api_key : string;
  sl_model : string;
  sl_enabled : bool;
}.

Record SlotView := mk_view {
  sv_id : string;
  sv_name : string;
  sv_base_url : string;
  sv_model : string;
  sv_enabled : bool;
  sv_has_key : bool;
  sv_key_hint : list Z;
}.

(** The bullet U+2022. *)
Definition bullet : Z := 8226%Z.

(** In characters. *)
Definition mask_key (key : string) : list Z :=
  if String.eqb key "" then []
  else repeat bullet 4 ++ lastn 4 (chars key).

Definition view (s : Slot) : SlotView :=
  mk_view (sl_id s) (sl_name s) (sl_base_url s) (sl_model s) (sl_enabled s)
    (negb (String.eqb (sl_api_key s) "")) (mask_key (sl_api_key s)).

(** [Vec::remove] and [Vec::insert] *)
Definition move_slot (slots : list Slot) (from to : nat) : list Slot :=
  if (length slots <=? from) || (length slots <=? to) || (from =? to) then slots
  else
    match slots !! from with
    | Some item =>
        let rest := delete from slots in
        take to rest ++ item :: drop to rest
    | None => slots
    end.

Definition name_char (c : Z) : bool := is_ascii_alphanumeric c || (c =? 45)%Z || (c =? 95)%Z.

Fixpoint validate_slots (seen : list string) (slots : list Slot) : result unit string :=
  match slots with
  | [] => Ok tt
  | s :: slots' =>
      if blank (sl_name s) then Err "slot name must not be empty"%string
      else if String.eqb (sl_name s) DEFAULT_ALIAS then
        Err ("`" +:+ DEFAULT_ALIAS +:+ "` is reserved for the failover chain")
      else if negb (forallb name_char (chars (sl_name s))) then
        Err ("slot name `" +:+ sl_name s +:+ "` may only use letters, digits, `-` and `_`")
      else if existsb (String.eqb (sl_name s)) seen then
        Err ("slot `" +:+ sl_name s +:+ "` is defined more than once")
      else if negb (String.prefix "http://" (sl_base_url s))
              && negb (String.prefix "https://" (sl_base_url s)) then
        Err ("slot `" +:+ sl_name s +:+ "` needs an http(s) base URL")
      else if blank (sl_model s) then Err ("slot `" +:+ sl_name s +:+ "` needs a model id")
      else if String.eqb (sl_api_key s) "" then Err ("slot `" +:+ sl_name s +:+ "` needs an API key")
      else validate_slots (sl_name s :: seen) slots'
  end.

Definition validate (slots : list Slot) : result unit string := validate_slots [] slots.

(** ** The configuration *)

Definition to_provider (s : Slot) : ProviderConfig :=
  mk_provider (sl_name s) (sl_id s) (sl_base_url s)
    (if String.eqb (sl_api_key s) "" then [] else [sl_api_key s])
    default_inflight [] default_connect_ms default_first_byte_ms default_total_ms
    default_cooldown_ms default_max_cooldown_ms.

Definition entry (s : Slot) : ChainEntry := mk_entry (sl_name s) (sl_model s).

Definition pinned (s : Slot) : AliasConfig := mk_alias (sl_name s) [entry s].

Definition to_config (server : ServerConfig) (slots : list Slot) : Config :=
  let enabled := List.filter sl_enabled slots in
  mk_config server (map to_provider slots)
    (match enabled with [] => [] | _ => [mk_alias DEFAULT_ALIAS (map entry enabled)] end
     ++ map pinned slots).

Definition find_alias (cfg : Config) (name : string) : option AliasConfig :=
  find_first (fun a => String.eqb (a_name a) name) (c_aliases cfg).

Definition from_provider (cfg : Config) (enabled : list string) (p : ProviderConfig) : Slot :=
  mk_slot (p_id p) (p_name p) (p_base_url p) (default ""%string (head (p_keys p)))
    (default ""%string (a ← find_alias cfg (p_name p); e_model <$> head (a_chain a)))
    (existsb (String.eqb (p_name p)) enabled).

Definition from_config (cfg : Config) : list Slot :=
  let enabled :=
    match find_alias cfg DEFAULT_ALIAS with
    | Some a => map e_provider (a_chain a)
    | None => []
    end in
  map (from_provider cfg enabled) (c_providers cfg).

(** ** Editing *)

Definition merge_key (stored : list Slot) (s : Slot) : Slot :=
  if negb (String.eqb (sl_api_key s) "") || String.eqb (sl_id s) "" then s
  else
    match find_first (fun p => String.eqb (sl_id p) (sl_id s)) stored with
    | Some prev => mk_slot (sl_id s) (sl_name s) (sl_base_url s) (sl_api_key prev) (sl_model s) (sl_enabled s)
    | None => s
    end.

Definition merge_keys (incoming stored : list Slot) : list Slot := map (merge_key stored) incoming.

Definition with_id (s : Slot) (id : string) : Slot :=
  mk_slot id (sl_name s) (sl_base_url s) (sl_api_key s) (sl_model s) (sl_enabled s).

(** ** The file and the live registry *)

Section store.
(** TOML, and what [new_slot_id] answers to the [n]-th call ([None] when the system
    has no randomness). *)
Context (to_string_pretty : Config -> option string) (from_str : string -> option Config).
Context (new_slot_id : nat -> option string).
Context (default_server : ServerConfig).

(** The file, and how many ids were asked for. *)
Record Store := mk_store { st_file : option string; st_ids : nat }.

(** [None] is an error. *)
Definition load (st : Store) : option (list Slot) :=
  match st_file st with
  | None => Some []
  | Some text => from_config <$> from_str text
  end.

Fixpoint mint (n : nat) (l : list Slot) : option (list Slot * nat) :=
  match l with
  | [] => Some ([], n)
  | s :: l' =>
      if String.eqb (sl_id s) "" then
        id ← new_slot_id n;
        '(rest, n') ← mint (S n) l';
        Some (with_id s id :: rest, n')
      else
        '(rest, n') ← mint n l';
        Some (s :: rest, n')
  end.

Definition save (st : Store) (l : list Slot) : option Store :=
  match validate l with
  | Err _ => None
  | Ok _ =>
      '(l', n) ← mint (st_ids st) l;
      text ← to_string_pretty (to_config default_server l');
      Some (mk_store (Some text) n)
  end.

Definition ensure_ids (st : Store) : option (Store * list Slot) :=
  l ← load st;
  if match l with [] => true | _ => false end
     || forallb (fun s => negb (String.eqb (sl_id s) "")) l
  then Some (st, l)
  else
    st' ← save st l;
    l' ← load st';
    Some (st', l').

(** The router: its store, and the registry the next request is served from. *)
Record Live := mk_live { lv_store : Store; lv_registry : Registry }.

(** [AppState::new]'s registry; [None] is the panic of [Registry::build]. *)
Definition from_store (st : Store) (server : ServerConfig) : option Live :=
  '(st', l) ← ensure_ids st;
  g ← build (to_config server l);
  Some (mk_live st' g).

Definition reload (lv : Live) (server : ServerConfig) : option Live :=
  l ← load (lv_store lv);
  g ← build (to_config server l);
  Some (mk_live (lv_store lv) g).

Definition replace_slots (lv : Live) (server : ServerConfig) (l : list Slot) : option Live :=
  st ← save (lv_store lv) l;
  reload (mk_live st (lv_registry lv)) server.

(** The admin route: blank keys are filled in from the file first. *)
Definition replace (lv : Live) (server : ServerConfig) (incoming : list Slot) : option Live :=
  stored ← load (lv_store lv);
  replace_slots lv server (merge_keys incoming stored).
End store.

(** ** What a valid list is *)

Lemma validate_slots_ok seen slots :
  validate_slots seen slots = Ok tt ->
  NoDup (map sl_name slots)
  /\ Forall (fun s => sl_name s <> DEFAULT_ALIAS /\ (sl_name s ∉ seen) /\ sl_api_key s <> ""%string) slots.
Proof.
  revert seen. induction slots as [|s slots IH]; intros seen H; [by repeat constructor|].
  cbn [validate_slots] in H. destruct (blank (sl_name s)); [done|].
  destruct (String.eqb_spec (sl_name s) DEFAULT_ALIAS) as [|Hauto]; [done|].
  destruct (negb (forallb _ _)); [done|].
  destruct (existsb (String.eqb (sl_name s)) seen) eqn:Hseen; [done|].
  destruct (_ && _); [done|]. destruct (blank (sl_model s)); [done|].
  destruct (String.eqb_spec (sl_api_key s) "") as [|Hkey]; [done|].
  apply IH in H as [Hnd Hall]. rewrite Forall_forall in Hall.
  assert (Hns : sl_name s ∉ seen).
  { intros Hin. enough (existsb (String.eqb (sl_name s)) seen = true) by congruence.
    apply existsb_exists. exists (sl_name s). split; [by apply list_elem_of_In|apply String.eqb_refl]. }
  split.
  - constructor; [|done]. intros (x & Hx & Hin)%list_elem_of_fmap.
    destruct (Hall x Hin) as (_ & Hno & _). apply Hno. rewrite Hx. by left.
  - constructor; [done|]. apply Forall_forall. intros x Hx.
    destruct (Hall x Hx) as (H1 & H2 & H3). split_and!; [done| |done]. intros Hin. apply H2. by right.
Qed.

Definition slots_ok (slots : list Slot) : Prop :=
  NoDup (map sl_name slots)
  /\ Forall (fun s => sl_name s <> DEFAULT_ALIAS /\ sl_api_key s <> ""%string) slots.

Lemma validate_slots_sound slots : validate slots = Ok tt -> slots_ok slots.
Proof.
  intros H. apply validate_slots_ok in H as [Hnd Hall]. split; [done|].
  eapply Forall_impl; [exact Hall|]. by intros s (H1 & _ & H3).
Qed.

(** Ids are not looked at. *)
Lemma validate_slots_ext seen l l' :
  Forall2 (fun s s' => exists id, s' = with_id s id) l l' ->
  validate_slots seen l' = validate_slots seen l.
Proof.
  intros H. revert seen. induction H as [|s s' l l' [id ->] _ IH]; intros seen; [done|].
  cbn. by rewrite IH.
Qed.

(** ** Finding a slot again *)

Lemma find_first_app {A} (p : A -> bool) l k :
  find_first p (l ++ k) = match find_first p l with Some x => Some x | None => find_first p k end.
Proof. induction l as [|x l IH]; [done|]. simpl. by destruct (p x). Qed.

(** In a list without repeated keys the key finds the element. *)
Lemma find_first_key {A B} (f : A -> string) (g : A -> B) (h : B -> string) (l : list A) x :
  NoDup (map f l) -> (forall y, h (g y) = f y) -> x ∈ l ->
  find_first (fun y => String.eqb (h y) (f x)) (map g l) = Some (g x).
Proof.
  intros Hnd Hh Hin. induction l as [|y l IH]; [by apply not_elem_of_nil in Hin|].
  apply NoDup_cons in Hnd as [Hy Hnd]. simpl. rewrite Hh.
  apply elem_of_cons in Hin as [->|Hin]; [by rewrite String.eqb_refl|].
  destruct (String.eqb_spec (f y) (f x)) as [Heq|]; [|by apply IH].
  exfalso. apply Hy. rewrite Heq. apply list_elem_of_fmap. eauto.
Qed.

Lemma position_key {A B} (f : A -> string) (g : A -> B) (h : B -> string) (l : list A) x :
  NoDup (map f l) -> (forall y, h (g y) = f y) -> x ∈ l ->
  exists i, position (fun y => String.eqb (h y) (f x)) (map g l) = Some i /\ l !! i = Some x.
Proof.
  intros Hnd Hh Hin. pose proof (find_first_key f g h l x Hnd Hh Hin) as Hf.
  rewrite position_find_first in Hf. destruct (position _ _) as [i|] eqn:Hp; [|done].
  exists i. split; [done|]. apply position_Some in Hp as (y & Hy & Heq & _). apply String.eqb_eq in Heq.
  rewrite list_lookup_fmap in Hy. destruct (l !! i) as [z|] eqn:Hz; [|done]. simpl in Hy.
  injection Hy as <-. rewrite Hh in Heq. f_equal.
  apply list_elem_of_lookup in Hin as [j Hj].
  assert (i = j) as ->; [|congruence].
  eapply (NoDup_lookup (map f l)); [done| |]; rewrite list_lookup_fmap; [by rewrite Hz|].
  rewrite Hj. simpl. by rewrite Heq.
Qed.

Lemma existsb_name (names : list string) n : existsb (String.eqb n) names = bool_decide (n ∈ names).
Proof.
  apply eq_true_iff_eq. rewrite existsb_exists, bool_decide_eq_true. split.
  - intros (x & Hx & ->%String.eqb_eq). by apply list_elem_of_In.
  - intros Hn. exists n. split; [by apply list_elem_of_In|apply String.eqb_refl].
Qed.

(** ** The configuration and back *)

Lemma find_auto server l :
  slots_ok l -> find_alias (to_config server l) DEFAULT_ALIAS =
    match List.filter sl_enabled l with
    | [] => None
    | en => Some (mk_alias DEFAULT_ALIAS (map entry en))
    end.
Proof.
  intros [_ Hall]. unfold find_alias, to_config. cbn [c_aliases].
  destruct (List.filter sl_enabled l) as [|s en]; [|done].
  apply (proj2 (find_first_None _ _)). intros a (x & -> & Hx)%list_elem_of_fmap. rewrite Forall_forall in Hall.
  apply String.eqb_neq. by apply (Hall x Hx).
Qed.

Lemma find_pinned server l s :
  slots_ok l -> s ∈ l -> find_alias (to_config server l) (sl_name s) = Some (pinned s).
Proof.
  intros [Hnd Hall] Hs. unfold find_alias, to_config. cbn [c_aliases]. rewrite find_first_app.
  rewrite (proj2 (find_first_None _ (match List.filter sl_enabled l with [] => [] | _ => _ end))).
  - by apply (find_first_key sl_name pinned a_name).
  - intros a Ha. rewrite Forall_forall in Hall. destruct (Hall s Hs) as [Hne _].
    destruct (List.filter sl_enabled l); [by apply not_elem_of_nil in Ha|].
    apply list_elem_of_singleton in Ha as ->. by apply String.eqb_neq.
Qed.

Lemma enabled_names l s :
  NoDup (map sl_name l) -> s ∈ l -> sl_name s ∈ map sl_name (List.filter sl_enabled l) <-> sl_enabled s = true.
Proof.
  intros Hnd Hs. split.
  - intros (x & Hx & [Hin Hen]%list_elem_of_In%filter_In)%list_elem_of_fmap. apply list_elem_of_In in Hin.
    apply list_elem_of_lookup in Hs as [i Hi]. apply list_elem_of_lookup in Hin as [j Hj].
    assert (i = j) as ->; [|congruence].
    eapply (NoDup_lookup (map sl_name l)); [done| |]; rewrite list_lookup_fmap; [by rewrite Hi|].
    rewrite Hj. simpl. by rewrite Hx.
  - intros Hen. apply list_elem_of_fmap. exists s. split; [done|].
    apply list_elem_of_In, filter_In. split; [by apply list_elem_of_In|done].
Qed.

Lemma from_to_config server l : slots_ok l -> from_config (to_config server l) = l.
Proof.
  intros Hok. unfold from_config. rewrite find_auto by done.
  set (enabled := match _ with Some _ => _ | None => _ end).
  assert (Hen : enabled = map sl_name (List.filter sl_enabled l)).
  { unfold enabled. destruct (List.filter sl_enabled l); [done|]. cbn [a_chain]. by rewrite List.map_map. }
  cbn [c_providers to_config]. rewrite List.map_map. rewrite <- (List.map_id l) at 2.
  apply List.map_ext_in. intros s Hs%list_elem_of_In. pose proof Hok as [Hnd Hall].
  rewrite Forall_forall in Hall. destruct (Hall s Hs) as [_ Hkey]. unfold from_provider. cbn [p_name to_provider].
  rewrite (find_pinned server l s) by done. cbn. rewrite existsb_name, Hen.
  destruct (String.eqb_spec (sl_api_key s) ""); [done|]. cbn.
  rewrite (bool_decide_ext _ (sl_enabled s = true)) by (by apply enabled_names).
  destruct s as [? ? ? ? ? []]; done.
Qed.

(** The editor's list survives the configuration it is stored as: a list that
    passes validation is read back slot for slot, in order, keys, models and
    disabled slots included. *)
Theorem slots_roundtrip (server : ServerConfig) (l : list Slot) (Hvalid : validate l = Ok tt) :
  from_config (to_config server l) = l.
Proof. by apply from_to_config, validate_slots_sound. Qed.

Definition example_slots : list Slot :=
  [mk_slot "i1" "groq" "https://groq.example/v1" "sk-1" "llama" true;
   mk_slot "i2" "local" "http://localhost:1" "sk-2" "m" false;
   mk_slot "" "cerebras" "https://c.example" "sk-3" "qwen" true].

Lemma slots_roundtrip_witness :
  validate example_slots = Ok tt
  /\ from_config (to_config (mk_server default_bind None 1 1) example_slots) = example_slots.
Proof.
  assert (H : validate example_slots = Ok tt) by (vm_compute; reflexivity).
  split; [exact H|]. exact (slots_roundtrip (mk_server default_bind None 1 1) example_slots H).
Defined.

(** ** What the registry serves *)

(** The endpoint of a slot: its provider, its key and its model. *)
Definition served (g : Registry) (ep : Endpoint) (s : Slot) : Prop :=
  provider g (ep_provider_idx ep) = Some (to_provider s)
  /\ key g ep = Some (sl_api_key s) /\ ep_model_id ep = sl_model s.

(** The registry serves the list: the default alias is the enabled slots in order,
    and every slot is an alias of its own. *)
Definition serves (g : Registry) (l : list Slot) : Prop :=
  match List.filter sl_enabled l with
  | [] => chain g DEFAULT_ALIAS = None
  | en => exists eps, chain g DEFAULT_ALIAS = Some eps /\ Forall2 (served g) eps en
  end
  /\ forall s, s ∈ l -> exists ep, chain g (sl_name s) = Some [ep] /\ served g ep s.

Definition slot_endpoint (ps : list ProviderConfig) (ep : Endpoint) (s : Slot) : Prop :=
  ps !! ep_provider_idx ep = Some (to_provider s) /\ ep_key_idx ep = 0 /\ ep_model_id ep = sl_model s.

Lemma entry_of_slot l s :
  slots_ok l -> s ∈ l ->
  exists ep, entry_endpoints (map to_provider l) (entry s) = Some [ep]
    /\ slot_endpoint (map to_provider l) ep s.
Proof.
  intros [Hnd Hall] Hs.
  destruct (position_key sl_name to_provider p_name l s Hnd (fun _ => eq_refl) Hs) as (i & Hp & Hi).
  assert (Hl : map to_provider l !! i = Some (to_provider s)) by (by rewrite list_lookup_fmap, Hi).
  exists (mk_endpoint i 0 (sl_model s)). unfold entry_endpoints. cbn [e_provider entry e_model].
  rewrite Hp. simpl. rewrite Hl. simpl. rewrite Forall_forall in Hall. destruct (Hall s Hs) as [_ Hkey].
  destruct (String.eqb_spec (sl_api_key s) ""); done.
Qed.

Lemma chain_of_slots l en :
  slots_ok l -> (forall s, s ∈ en -> s ∈ l) ->
  exists eps, chain_endpoints (map to_provider l) (map entry en) = Some eps
    /\ Forall2 (slot_endpoint (map to_provider l)) eps en.
Proof.
  intros Hok. induction en as [|s en IH]; intros Hin; [exists []; by repeat constructor|]. simpl.
  destruct (entry_of_slot l s Hok) as (ep & -> & Hep); [apply Hin; by left|].
  destruct IH as (eps & -> & Heps); [intros x Hx; apply Hin; by right|]. simpl.
  exists (ep :: eps). split; [done|]. by constructor.
Qed.

(** Pinned aliases are added one by one; none of them is the default one. *)
Lemma build_pinned l chains todo :
  slots_ok l -> (forall s, s ∈ todo -> s ∈ l) -> NoDup (map sl_name todo) ->
  exists chains', build_chains (map to_provider l) chains (map pinned todo) = Some chains'
    /\ (forall n, n ∉ map sl_name todo -> chains' !! n = chains !! n)
    /\ forall s, s ∈ todo -> exists ep, chains' !! sl_name s = Some [ep]
         /\ slot_endpoint (map to_provider l) ep s.
Proof.
  intros Hok. revert chains. induction todo as [|s todo IH]; intros chains Hin Hnd.
  { exists chains. split_and!; [done|done|]. intros s Hs. by apply not_elem_of_nil in Hs. }
  apply NoDup_cons in Hnd as [Hs Hnd]. simpl.
  destruct (entry_of_slot l s Hok) as (ep & -> & Hep); [apply Hin; by left|]. simpl.
  destruct (IH (<[sl_name s := [ep]]> chains)) as (ch & -> & Hother & Hin'); [|done|].
  { intros x Hx. apply Hin. by right. }
  exists ch. split_and!; [done| |].
  - intros n [Hne Hn]%not_elem_of_cons. rewrite Hother by done. by apply lookup_insert_ne.
  - intros x [->|Hx]%elem_of_cons; [|by apply Hin'].
    exists ep. split; [|done]. rewrite Hother by done. apply lookup_insert_eq.
Qed.

Lemma slot_endpoint_served cfg chains bases total ep s :
  sl_api_key s <> ""%string -> slot_endpoint (c_providers cfg) ep s ->
  served (mk_registry cfg chains bases total) ep s.
Proof.
  intros Hkey (Hp & Hk & Hm). unfold served, key, provider. cbn [g_cfg]. rewrite Hp, Hk. simpl.
  destruct (String.eqb_spec (sl_api_key s) ""); done.
Qed.

Lemma to_config_serves server l :
  slots_ok l -> exists g, build (to_config server l) = Some g /\ serves g l.
Proof.
  intros Hok. pose proof Hok as [Hnd Hall]. rewrite Forall_forall in Hall.
  unfold build. destruct (key_bases _ _) as [bases total].
  set (en := List.filter sl_enabled l).
  assert (Hen : forall s, s ∈ en -> s ∈ l).
  { intros s [Hin _]%list_elem_of_In%filter_In. by apply list_elem_of_In. }
  destruct (chain_of_slots l en Hok Hen) as (eps & Hch & Heps).
  set (auto := match en with [] => ∅ | _ => <[DEFAULT_ALIAS := eps]> ∅ end : gmap string (list Endpoint)).
  destruct (build_pinned l auto l Hok (fun _ H => H) Hnd) as (ch & Hb & Hother & Hpin).
  assert (Hnotin : DEFAULT_ALIAS ∉ map sl_name l).
  { intros (s & Hs & Hin)%list_elem_of_fmap. by destruct (Hall s Hin). }
  assert (Hchains : build_chains (c_providers (to_config server l)) ∅ (c_aliases (to_config server l)) = Some ch).
  { unfold to_config. cbn [c_aliases c_providers]. fold en. unfold auto in Hb. destruct en as [|s0 en0]; [done|].
    cbn [build_chains app a_chain a_name]. rewrite Hch. exact Hb. }
  rewrite Hchains. simpl. eexists. split; [done|]. unfold serves, chain. cbn [g_chains]. fold en.
  split.
  - rewrite Hother by done. unfold auto. destruct en as [|s0 en0]; [done|].
    exists eps. split; [apply lookup_insert_eq|].
    apply Forall2_same_length_lookup. apply Forall2_same_length_lookup in Heps as [Hlen Heps].
    split; [done|]. intros i ep s Hep Hs. apply slot_endpoint_served; [|by eapply Heps].
    by eapply Hall, Hen, list_elem_of_lookup_2.
  - intros s Hs. destruct (Hpin s Hs) as (ep & Hep & Hslot). exists ep. split; [done|].
    apply slot_endpoint_served; [by apply Hall|done].
Qed.

(** *** Whatever the file says *)

Lemma position_Some_in {A} (p : A -> bool) l x : x ∈ l -> p x = true -> is_Some (position p l).
Proof.
  intros Hx Hp. destruct (position p l) eqn:H; [done|]. rewrite position_None in H.
  by rewrite H in Hp.
Qed.

Lemma entry_total l s : s ∈ l -> is_Some (entry_endpoints (map to_provider l) (entry s)).
Proof.
  intros Hs. unfold entry_endpoints.
  destruct (position_Some_in (fun p => String.eqb (p_name p) (e_provider (entry s)))
    (map to_provider l) (to_provider s)) as [i Hi].
  - apply list_elem_of_fmap. eauto.
  - apply String.eqb_refl.
  - rewrite Hi. simpl. apply position_Some in Hi as (p & -> & _). by eexists.
Qed.

Lemma chain_total l en :
  (forall s, s ∈ en -> s ∈ l) -> is_Some (chain_endpoints (map to_provider l) (map entry en)).
Proof.
  induction en as [|s en IH]; intros Hin; [by eexists|]. simpl.
  destruct (entry_total l s) as [es ->]; [apply Hin; by left|].
  destruct IH as [rest ->]; [intros x Hx; apply Hin; by right|]. by eexists.
Qed.

Lemma build_chains_total l chains als :
  (forall a, a ∈ als -> exists en, a_chain a = map entry en /\ forall s, s ∈ en -> s ∈ l) ->
  is_Some (build_chains (map to_provider l) chains als).
Proof.
  revert chains. induction als as [|a als IH]; intros chains H; [by eexists|]. simpl.
  destruct (H a) as (en & -> & Hen); [by left|]. destruct (chain_total l en Hen) as [es ->]. simpl.
  apply IH. intros b Hb. apply H. by right.
Qed.

(** Reloading never panics, whatever list the file holds: the configuration
    generated from any list, valid or not, names only providers it has, so the
    registry is built. *)
Theorem to_config_builds (server : ServerConfig) (l : list Slot) : is_Some (build (to_config server l)).
Proof.
  unfold build. destruct (key_bases _ _) as [bases total].
  destruct (build_chains_total l ∅ (c_aliases (to_config server l))) as [ch Hch]; [|simpl in *; rewrite Hch; by eexists].
  intros a Ha. unfold to_config in Ha. cbn [c_aliases] in Ha. apply elem_of_app in Ha as [Ha|Ha].
  - destruct (List.filter sl_enabled l) as [|s0 en0] eqn:Hf; [by apply not_elem_of_nil in Ha|].
    rewrite <- Hf in Ha. apply list_elem_of_singleton in Ha as ->. exists (List.filter sl_enabled l). split; [done|].
    intros s Hs. apply list_elem_of_In, filter_In in Hs as [Hs _]. by apply list_elem_of_In.
  - apply list_elem_of_fmap in Ha as (s & -> & Hs). exists [s]. split; [done|].
    by intros y ->%list_elem_of_singleton.
Qed.

(** *** Replacing the list *)

(** The same slots, the missing ids filled in. *)
Definition ids_filled (s s' : Slot) : Prop :=
  exists id, s' = with_id s id /\ (sl_id s <> ""%string -> id = sl_id s).

(** The key a saved slot ends up with: its own, or the stored one of the same id. *)
Definition key_after (stored : list Slot) (s : Slot) : string :=
  if String.eqb (sl_api_key s) "" && negb (String.eqb (sl_id s) "") then
    match find_first (fun p => String.eqb (sl_id p) (sl_id s)) stored with
    | Some p => sl_api_key p
    | None => ""
    end
  else sl_api_key s.

Lemma merge_key_spec stored s :
  sl_name (merge_key stored s) = sl_name s /\ sl_base_url (merge_key stored s) = sl_base_url s
  /\ sl_model (merge_key stored s) = sl_model s /\ sl_enabled (merge_key stored s) = sl_enabled s
  /\ sl_api_key (merge_key stored s) = key_after stored s.
Proof.
  unfold merge_key, key_after. destruct (String.eqb_spec (sl_api_key s) ""); simpl; [|done].
  destruct (String.eqb (sl_id s) ""); simpl; [done|]. by destruct (find_first _ _).
Qed.

Section replacing.
Context (to_string_pretty : Config -> option string) (from_str : string -> option Config).
Context (new_slot_id : nat -> option string) (default_server : ServerConfig).
(** TOML reads back what it wrote. *)
Hypothesis toml_roundtrip : forall cfg text, to_string_pretty cfg = Some text -> from_str text = Some cfg.

Lemma mint_spec n l l' n' : mint new_slot_id n l = Some (l', n') -> Forall2 ids_filled l l'.
Proof.
  revert n l' n'. induction l as [|s l IH]; intros n l' n' H; simpl in H; [by injection H as <- _|].
  destruct (String.eqb_spec (sl_id s) "") as [Hid|Hid].
  - apply bind_Some in H as (id & _ & H). apply bind_Some in H as ([rest m] & Hr & [= <- <-]).
    constructor; [exists id; by rewrite Hid|by eapply IH].
  - apply bind_Some in H as ([rest m] & Hr & [= <- <-]).
    constructor; [exists (sl_id s); split; [by destruct s|done]|by eapply IH].
Qed.

Lemma save_spec st l st' :
  save to_string_pretty new_slot_id default_server st l = Some st' ->
  validate l = Ok tt /\ exists l', Forall2 ids_filled l l' /\ load from_str st' = Some l' /\ slots_ok l'.
Proof.
  unfold save. destruct (validate l) as [[]|] eqn:Hv; [|done]. intros H. split; [done|].
  apply bind_Some in H as ([l' n] & Hm & H). apply bind_Some in H as (text & Ht & [= <-]).
  apply mint_spec in Hm. exists l'.
  assert (Hok : slots_ok l').
  { apply validate_slots_sound. rewrite <- Hv. apply validate_slots_ext.
    eapply Forall2_impl; [exact Hm|]. intros x y (id & -> & _). eauto. }
  split; [done|]. split; [|done]. unfold load. cbn [st_file].
  rewrite (toml_roundtrip _ _ Ht).
  change (Some (from_config (to_config default_server l')) = Some l'). by rewrite from_to_config.
Qed.

(** C27. A replaced list is what the next request is served from: it was valid, it is
    on disk slot for slot with ids filled in, the default alias fails over along the
    enabled slots in order, and every slot reaches its own URL and model with the
    key it was given, or, when the editor left the key blank, the key stored under
    its id, whatever it is called now. *)
Theorem replace_serves (lv lv' : Live) (server : ServerConfig) (incoming stored : list Slot)
    (Hload : load from_str (lv_store lv) = Some stored)
    (Hrep : replace to_string_pretty from_str new_slot_id default_server lv server incoming = Some lv') :
  validate (merge_keys incoming stored) = Ok tt
  /\ exists l, load from_str (lv_store lv') = Some l
       /\ Forall2 ids_filled (merge_keys incoming stored) l
       /\ serves (lv_registry lv') l
       /\ forall s, s ∈ incoming -> exists ep p, chain (lv_registry lv') (sl_name s) = Some [ep]
            /\ provider (lv_registry lv') (ep_provider_idx ep) = Some p /\ p_base_url p = sl_base_url s
            /\ ep_model_id ep = sl_model s /\ key (lv_registry lv') ep = Some (key_after stored s).
Proof.
  unfold replace in Hrep. rewrite Hload in Hrep. simpl in Hrep. unfold replace_slots in Hrep.
  apply bind_Some in Hrep as (st & Hsave & Hrel). unfold reload in Hrel. cbn [lv_store] in Hrel.
  destruct (save_spec _ _ _ Hsave) as (Hv & l & Hids & Hl & Hok). rewrite Hl in Hrel. simpl in Hrel.
  destruct (to_config_serves server l Hok) as (g & Hg & Hserves). rewrite Hg in Hrel.
  injection Hrel as <-. split; [done|]. exists l. split_and!; try done.
  intros s Hs. assert (Hm : merge_key stored s ∈ merge_keys incoming stored) by (apply list_elem_of_fmap; eauto).
  apply list_elem_of_lookup in Hm as [i Hi]. destruct (Forall2_lookup_l _ _ _ _ _ Hids Hi) as (s' & Hs' & id & -> & _).
  destruct Hserves as [_ Hpin]. destruct (Hpin _ (list_elem_of_lookup_2 _ _ _ Hs')) as (ep & Hch & Hp & Hk & Hmod).
  destruct (merge_key_spec stored s) as (H1 & H2 & H3 & _ & H5). cbn [sl_name with_id sl_api_key sl_model] in *.
  rewrite H1 in Hch. rewrite H5 in Hk. rewrite H3 in Hmod. exists ep, (to_provider (with_id (merge_key stored s) id)).
  by split_and!.
Qed.
End replacing.

#[export] Instance server_eq_dec : EqDecision ServerConfig.
Proof. solve_decision. Defined.
#[export] Instance provider_eq_dec : EqDecision ProviderConfig.
Proof. solve_decision. Defined.
#[export] Instance entry_eq_dec : EqDecision ChainEntry.
Proof. solve_decision. Defined.
#[export] Instance alias_eq_dec : EqDecision AliasConfig.
Proof. solve_decision. Defined.
#[export] Instance config_eq_dec : EqDecision Config.
Proof. solve_decision. Defined.

(** A rename with the key left blank. *)
Definition example_server : ServerConfig := mk_server default_bind None 1 1.
Definition stored_slots : list Slot := [mk_slot "i1" "groq" "https://groq.example/v1" "sk-1" "llama" true].
Definition renamed_slot : Slot := mk_slot "i1" "fast" "https://groq.example/v1" "" "llama" true.
Definition config_0 : Config := to_config example_server stored_slots.
Definition config_1 : Config := to_config example_server (merge_keys [renamed_slot] stored_slots).

(** A format of two texts. *)
Definition to_text (cfg : Config) : option string :=
  if decide (cfg = config_0) then Some "0"%string
  else if decide (cfg = config_1) then Some "1"%string else None.

Definition of_text (text : string) : option Config :=
  if String.eqb text "0" then Some config_0 else if String.eqb text "1" then Some config_1 else None.

Lemma replace_serves_witness :
  (forall cfg text, to_text cfg = Some text -> of_text text = Some cfg)
  /\ forall g, exists lv',
       replace to_text of_text (fun _ => None) example_server (mk_live (mk_store (Some "0"%string) 0) g)
         example_server [renamed_slot] = Some lv'
       /\ exists ep, chain (lv_registry lv') "fast" = Some [ep] /\ key (lv_registry lv') ep = Some "sk-1"%string.
Proof.
  assert (Htoml : forall cfg text, to_text cfg = Some text -> of_text text = Some cfg).
  { unfold to_text. intros cfg text. destruct (decide (cfg = config_0)) as [->|]; [by intros [= <-]|].
    destruct (decide (cfg = config_1)) as [->|]; [by intros [= <-]|done]. }
  split; [exact Htoml|]. intros g.
  destruct (replace to_text of_text (fun _ => None) example_server (mk_live (mk_store (Some "0"%string) 0) g)
    example_server [renamed_slot]) as [lv'|] eqn:Hrep; [|vm_compute in Hrep; discriminate Hrep].
  exists lv'. split; [reflexivity|].
  assert (Hl : load of_text (lv_store (mk_live (mk_store (Some "0"%string) 0) g)) = Some stored_slots)
    by (vm_compute; reflexivity).
  destruct (replace_serves to_text of_text (fun _ => None) example_server Htoml _ lv' example_server
    [renamed_slot] stored_slots Hl Hrep) as (_ & l & _ & _ & _ & H).
  destruct (H renamed_slot) as (ep & p & Hch & _ & _ & _ & Hk); [left|].
  exists ep. split; [exact Hch|exact Hk].
Defined.
