(* ===== verification/Session.v ===== *)
(** * A live session

    [crates/amber/src/pty.rs]: how a session's output reaches its subscribers.  A
    reader thread puts chunks on a bounded channel, a batcher joins them into
    frames, appends each frame to the ring and the mode tracker and delivers it to
    the subscribers of that moment; clients subscribe, read, drop out and
    unsubscribe at any time, and a waiter tears the session down.  [step]
    interleaves them; what runs under one lock is one step. *)
From S2P Require Import Prelude.
From S2P Require RingBuf Modes.

Definition SUBSCRIBER_QUEUE_DEPTH : nat := 8.
Definition BATCH_MAX_BYTES : Z := (256 * 1024)%Z.
Definition READER_CHANNEL_DEPTH : nat := 32.
Definition READ_MAX_BYTES : Z := 8192%Z.
Definition STALL_ROUND_LIMIT : nat := 150.
#[global] Arguments STALL_ROUND_LIMIT : simpl never.

(** ** Channels *)

(** A subscriber's bounded channel: what is queued, whether the receiver still
    exists, and what it has taken so far. *)
Record Channel := mk_channel {
  ch_queue : list (list byte);
  ch_alive : bool;
  ch_taken : list (list byte);
}.

Inductive send_result := Sent (ch : Channel) | Full | Disconnected.

Definition try_send (ch : Channel) (payload : list byte) : send_result :=
  if negb (ch_alive ch) then Disconnected
  else if length (ch_queue ch) <? SUBSCRIBER_QUEUE_DEPTH
       then Sent (mk_channel (ch_queue ch ++ [payload]) (ch_alive ch) (ch_taken ch))
       else Full.

(** ** Delivering a chunk *)

(** [deliver_chunk] in the middle of a round: the senders not tried yet, those found
    full in this round, and its variables. *)
Record Delivery := mk_delivery {
  dl_todo : list nat;
  dl_pending : list nat;
  dl_delivered_any : bool;
  dl_stall_rounds : nat;
  dl_dead : list nat;
}.

Definition start_delivery (senders : list nat) : Delivery := mk_delivery senders [] false 0 [].

Inductive progress :=
| Going (d : Delivery)
| Delivered (dead : list nat).

(** One [try_send], or the end of a round. *)
Definition deliver_step (chunk : list byte) (chans : gmap nat Channel) (d : Delivery)
  : gmap nat Channel * progress :=
  match dl_todo d with
  | id :: todo =>
      match chans !! id with
      | None => (chans, Going (mk_delivery todo (dl_pending d) (dl_delivered_any d) (dl_stall_rounds d) (dl_dead d ++ [id])))
      | Some ch =>
          match try_send ch chunk with
          | Sent ch' =>
              (<[id := ch']> chans,
               Going (mk_delivery todo (dl_pending d) true (dl_stall_rounds d) (dl_dead d)))
          | Full =>
              (chans, Going (mk_delivery todo (dl_pending d ++ [id]) (dl_delivered_any d)
                               (dl_stall_rounds d) (dl_dead d)))
          | Disconnected =>
              (chans, Going (mk_delivery todo (dl_pending d) (dl_delivered_any d)
                               (dl_stall_rounds d) (dl_dead d ++ [id])))
          end
      end
  | [] =>
      match dl_pending d with
      | [] => (chans, Delivered (dl_dead d))
      | pending =>
          if dl_delivered_any d then
            if STALL_ROUND_LIMIT <=? dl_stall_rounds d + 1 then (chans, Delivered (dl_dead d ++ pending))
            else (chans, Going (mk_delivery pending [] true (dl_stall_rounds d + 1) (dl_dead d)))
          else (chans, Going (mk_delivery pending [] false (dl_stall_rounds d) (dl_dead d)))
      end
  end.

(** ** State *)

(** What a subscriber is handed besides its receiver. *)
Record Subscription := mk_subscription {
  sb_full : bool;
  sb_backlog : list byte;
  sb_preamble : list byte;
  sb_end_offset : Z;
}.

Inductive Batcher :=
| Receiving
| Batching (batch : list byte)
| Delivering (chunk : list byte) (d : Delivery) (eof : bool)
| Pruning (dead : list nat) (eof : bool)
| Ending
| Ended.

Record Session := mk_session {
  s_ring : RingBuf.Ring;
  s_modes : Modes.TerminalModes;
  s_subs : list nat;
  s_reader_done : bool;
  s_next_sub_id : nat;
  s_chans : gmap nat Channel;
  s_reads : list (list byte);
  s_reader_open : bool;
  s_batcher : Batcher;
  s_exit : option (result Z string);
  s_exit_teardown_done : bool;
}.

(** ** Operations *)

(** The batcher's critical section: the frame goes to the ring and the tracker and
    the senders are snapshotted under the ring lock. [None] is a panic. *)
Definition publish (s : Session) (batch : list byte) (eof : bool) : option Session :=
  r ← RingBuf.push (s_ring s) batch;
  Some (mk_session r (Modes.feed (s_modes s) batch) (s_subs s) (s_reader_done s) (s_next_sub_id s)
          (s_chans s) (s_reads s) (s_reader_open s) (Delivering batch (start_delivery (s_subs s)) eof)
          (s_exit s) (s_exit_teardown_done s)).

Definition preload (s : Session) (bytes : list byte) : option Session :=
  r ← RingBuf.push (s_ring s) bytes;
  Some (mk_session r (Modes.feed (s_modes s) bytes) (s_subs s) (s_reader_done s) (s_next_sub_id s)
          (s_chans s) (s_reads s) (s_reader_open s) (s_batcher s) (s_exit s) (s_exit_teardown_done s)).

Definition subscribe_from (s : Session) (epoch offset : Z) : nat * Subscription * Session :=
  let current_epoch := RingBuf.epoch (s_ring s) in
  let '(full, backlog) :=
    if ((current_epoch =? epoch) && negb (epoch =? 0))%Z then
      match RingBuf.since (s_ring s) offset with
      | Some delta => (false, delta)
      | None => (true, RingBuf.snapshot (s_ring s))
      end
    else (true, RingBuf.snapshot (s_ring s)) in
  let preamble := if full : bool then Modes.replay_preamble (s_modes s) else [] in
  let id := s_next_sub_id s in
  (id, mk_subscription full backlog preamble (RingBuf.written (s_ring s)),
   mk_session (s_ring s) (s_modes s) (if s_reader_done s then s_subs s else s_subs s ++ [id])
     (s_reader_done s) (s_next_sub_id s + 1) (<[id := mk_channel [] true []]> (s_chans s))
     (s_reads s) (s_reader_open s) (s_batcher s) (s_exit s) (s_exit_teardown_done s)).

Definition with_batcher (s : Session) (b : Batcher) : Session :=
  mk_session (s_ring s) (s_modes s) (s_subs s) (s_reader_done s) (s_next_sub_id s) (s_chans s)
    (s_reads s) (s_reader_open s) b (s_exit s) (s_exit_teardown_done s).

Definition with_reads (s : Session) (reads : list (list byte)) (opened : bool) (b : Batcher) : Session :=
  mk_session (s_ring s) (s_modes s) (s_subs s) (s_reader_done s) (s_next_sub_id s) (s_chans s)
    reads opened b (s_exit s) (s_exit_teardown_done s).

Definition with_chans (s : Session) (chans : gmap nat Channel) (b : Batcher) : Session :=
  mk_session (s_ring s) (s_modes s) (s_subs s) (s_reader_done s) (s_next_sub_id s) chans
    (s_reads s) (s_reader_open s) b (s_exit s) (s_exit_teardown_done s).

(** [subs.retain]; clearing the list at the end marks the reader done under the same
    lock. *)
Definition retain (s : Session) (keep : nat -> bool) (b : Batcher) : Session :=
  mk_session (s_ring s) (s_modes s) (List.filter keep (s_subs s)) (s_reader_done s) (s_next_sub_id s)
    (s_chans s) (s_reads s) (s_reader_open s) b (s_exit s) (s_exit_teardown_done s).

Definition clear_subs (s : Session) (b : Batcher) : Session :=
  mk_session (s_ring s) (s_modes s) [] true (s_next_sub_id s) (s_chans s) (s_reads s) (s_reader_open s)
    b (s_exit s) (s_exit_teardown_done s).

Definition finish_teardown (s : Session) : Session :=
  mk_session (s_ring s) (s_modes s) (s_subs s) (s_reader_done s) (s_next_sub_id s) (s_chans s)
    (s_reads s) (s_reader_open s) (s_batcher s) (s_exit s) true.

Definition unsubscribe (s : Session) (id : nat) : Session :=
  retain s (fun sid => negb (sid =? id)) (s_batcher s).

Definition with_exit (s : Session) (status : result Z string) : Session :=
  mk_session (s_ring s) (s_modes s) (s_subs s) (s_reader_done s) (s_next_sub_id s) (s_chans s)
    (s_reads s) (s_reader_open s) (s_batcher s) (Some status) (s_exit_teardown_done s).

(** The loop of [wait_exit] ends when this answers. *)
Definition wait_exit (s : Session) : option (result Z string) :=
  if s_exit_teardown_done s then s_exit s else None.

Definition is_alive (s : Session) : bool := match s_exit s with None => true | Some _ => false end.

Definition spawn (cap : nat) (epoch : Z) : Session :=
  mk_session (RingBuf.new cap epoch) Modes.new [] false 0 ∅ [] true Receiving None false.

(** ** Steps *)

(** What a step shows: a frame published, a subscription handed out. *)
Inductive label :=
| Quiet
| Published (frame : list byte)
| Subscribed (id : nat) (epoch offset : Z) (sub : Subscription).

Inductive step : Session -> label -> Session -> Prop :=
| st_read s chunk :
    s_reader_open s = true -> length (s_reads s) < READER_CHANNEL_DEPTH ->
    (0 < Z.of_nat (length chunk) <= READ_MAX_BYTES)%Z ->
    step s Quiet (with_reads s (s_reads s ++ [chunk]) true (s_batcher s))
| st_eof s :
    s_reader_open s = true -> step s Quiet (with_reads s (s_reads s) false (s_batcher s))
| st_recv s chunk reads :
    s_batcher s = Receiving -> s_reads s = chunk :: reads ->
    step s Quiet (with_reads s reads (s_reader_open s) (Batching chunk))
| st_recv_closed s :
    s_batcher s = Receiving -> s_reads s = [] -> s_reader_open s = false ->
    step s Quiet (with_batcher s Ending)
| st_extend s batch chunk reads :
    s_batcher s = Batching batch -> (Z.of_nat (length batch) < BATCH_MAX_BYTES)%Z -> s_reads s = chunk :: reads ->
    step s Quiet (with_reads s reads (s_reader_open s) (Batching (batch ++ chunk)))
| st_publish s batch s' :
    s_batcher s = Batching batch -> publish s batch false = Some s' -> step s (Published batch) s'
| st_publish_tail s batch s' :
    s_batcher s = Batching batch -> (Z.of_nat (length batch) < BATCH_MAX_BYTES)%Z -> s_reads s = [] ->
    s_reader_open s = false -> publish s batch true = Some s' -> step s (Published batch) s'
| st_deliver s chunk d eof chans d' :
    s_batcher s = Delivering chunk d eof -> deliver_step chunk (s_chans s) d = (chans, Going d') ->
    step s Quiet (with_chans s chans (Delivering chunk d' eof))
| st_delivered s chunk d eof chans dead :
    s_batcher s = Delivering chunk d eof -> deliver_step chunk (s_chans s) d = (chans, Delivered dead) ->
    step s Quiet (with_chans s chans (Pruning dead eof))
| st_prune s dead eof :
    s_batcher s = Pruning dead eof ->
    step s Quiet (retain s (fun id => negb (existsb (Nat.eqb id) dead)) (if eof : bool then Ending else Receiving))
| st_end s : s_batcher s = Ending -> step s Quiet (clear_subs s Ended)
| st_exited s status : s_exit s = None -> step s Quiet (with_exit s status)
| st_grace_over s status : s_exit s = Some status -> step s Quiet (clear_subs s (s_batcher s))
| st_teardown s status : s_exit s = Some status -> s_reader_done s = true -> step s Quiet (finish_teardown s)
| st_subscribe s epoch offset id sub s' :
    is_u64 epoch -> is_u64 offset -> subscribe_from s epoch offset = (id, sub, s') -> step s (Subscribed id epoch offset sub) s'
| st_unsubscribe s id : step s Quiet (unsubscribe s id)
| st_take s id ch f q :
    s_chans s !! id = Some ch -> ch_alive ch = true -> ch_queue ch = f :: q ->
    step s Quiet (with_chans s (<[id := mk_channel q true (ch_taken ch ++ [f])]> (s_chans s)) (s_batcher s))
| st_drop s id ch :
    s_chans s !! id = Some ch ->
    step s Quiet (with_chans s (<[id := mk_channel (ch_queue ch) false (ch_taken ch)]> (s_chans s)) (s_batcher s)).

(** ** The contract

    What a run showed: the session's output so far, and for each subscription what
    had been written before it and what has been since. *)
Record Entry := mk_entry {
  en_id : nat; en_epoch : Z; en_offset : Z; en_sub : Subscription;
  en_before : list byte; en_after : list byte;
}.

Record Log := mk_log { lg_stream : list byte; lg_entries : list Entry }.

Definition observe (lg : Log) (l : label) : Log :=
  match l with
  | Quiet => lg
  | Published f =>
      mk_log (lg_stream lg ++ f)
        (map (fun en => mk_entry (en_id en) (en_epoch en) (en_offset en) (en_sub en) (en_before en)
                          (en_after en ++ f)) (lg_entries lg))
  | Subscribed id e o sub =>
      mk_log (lg_stream lg) (lg_entries lg ++ [mk_entry id e o sub (lg_stream lg) []])
  end.

(** A run of a session restored with some history. *)
Inductive run (cap : nat) (epoch : Z) (history : list byte) : Session -> Log -> Prop :=
| run_start s : preload (spawn cap epoch) history = Some s -> run cap epoch history s (mk_log history [])
| run_step s lg l s' :
    run cap epoch history s lg -> step s l s' -> run cap epoch history s' (observe lg l).

(** Everything a subscriber's channel has carried. *)
Definition carried (ch : Channel) : list byte := concat (ch_taken ch ++ ch_queue ch).

(** What the batcher is about to send it. *)
Definition in_delivery (b : Batcher) (id : nat) : Prop :=
  match b with
  | Delivering _ d _ => id ∈ dl_todo d ++ dl_pending d
  | _ => False
  end.

#[export] Instance in_delivery_dec b id : Decision (in_delivery b id).
Proof. destruct b; simpl; apply _. Defined.

Definition owed (b : Batcher) (id : nat) : list byte :=
  if decide (in_delivery b id) then match b with Delivering chunk _ _ => chunk | _ => [] end else [].

(** The subscribers the batcher has given up. *)
Definition given_up (b : Batcher) (id : nat) : Prop :=
  match b with
  | Delivering _ d _ => id ∈ dl_dead d
  | Pruning dead _ => id ∈ dead
  | _ => False
  end.

(** A subscriber that still gets everything. *)
Definition served (s : Session) (id : nat) : Prop :=
  in_delivery (s_batcher s) id \/ (id ∈ s_subs s /\ ~ given_up (s_batcher s) id).

(** What a subscription's backlog must be. *)
Definition backlog_ok (cap : nat) (epoch : Z) (en : Entry) : Prop :=
  let sub := en_sub en in
  let before := en_before en in
  sb_end_offset sub = Z.of_nat (length before)
  /\ if sb_full sub then
       sb_backlog sub = lastn cap before
       /\ sb_preamble sub = Modes.replay_preamble (Modes.feed Modes.new before)
     else
       en_epoch en = epoch /\ sb_preamble sub = []
       /\ exists off : nat, en_offset en = Z.of_nat off /\ off <= length before
            /\ sb_backlog sub = drop off before.

Section session.
Context (cap : nat) (epoch : Z) (history : list byte).
Hypothesis cap_pos : 0 < cap.
Hypothesis cap_u64 : (Z.of_nat cap <= u64_max)%Z.

(** *** The ring and the modes follow the stream *)

Record ring_ok (r : RingBuf.Ring) (stream : list byte) : Prop := mk_ring_ok {
  ro_wf : RingBuf.wf r;
  ro_cap : RingBuf.r_cap r = cap;
  ro_epoch : RingBuf.r_epoch r = epoch;
  ro_snapshot : RingBuf.snapshot r = lastn cap stream;
  ro_written : RingBuf.r_written r = Z.min u64_max (Z.of_nat (length stream));
}.

Lemma ring_ok_new : ring_ok (RingBuf.new cap epoch) [].
Proof. constructor; simpl; try done. by apply RingBuf.new_wf. Qed.

Lemma ring_ok_push r stream d r' :
  ring_ok r stream -> RingBuf.push r d = Some r' -> ring_ok r' (stream ++ d).
Proof.
  intros [Hwf Hc He Hs Hw] Hp. destruct (RingBuf.push_spec r d Hwf) as (r1 & Hp1 & [H1 H2 H3 H4 H5]).
  rewrite Hp1 in Hp. injection Hp as ->. rewrite Hc in *. constructor; try done; try congruence.
  - rewrite H4, Hs. by apply lastn_app_lastn.
  - rewrite H5, (proj2 (Nat.eqb_neq _ _)) by lia. unfold sat_add64. rewrite Hw, length_app. lia.
Qed.

(** A push never panics. *)
Lemma ring_ok_push_total r stream d : ring_ok r stream -> is_Some (RingBuf.push r d).
Proof. intros [Hwf _ _ _ _]. destruct (RingBuf.push_spec r d Hwf) as (r1 & -> & _). by eexists. Qed.

Lemma ring_ok_since r stream off :
  ring_ok r stream -> is_u64 (Z.of_nat off) -> (Z.of_nat (length stream) <= u64_max)%Z ->
  forall delta, RingBuf.since r (Z.of_nat off) = Some delta -> off <= length stream /\ delta = drop off stream.
Proof.
  intros [Hwf Hc _ Hs Hw] Hoff Hlen delta H. rewrite RingBuf.since_spec in H by done.
  rewrite Hw, Z.min_r in H by done. pose proof (RingBuf.length_snapshot r) as Hsl.
  rewrite Hs, length_lastn in Hsl. rewrite <- Hsl in H.
  destruct (Z.leb_spec (Z.of_nat off) (Z.of_nat (length stream))); [|done]. simpl in H.
  destruct (Z.leb_spec (Z.of_nat (length stream) - Z.of_nat off) (Z.of_nat (Nat.min cap (length stream)))); [|done].
  injection H as <-. split; [lia|]. rewrite Hs.
  replace (Z.to_nat _) with (length stream - off) by lia. rewrite lastn_lastn, Nat.min_l by lia.
  unfold lastn. f_equal. lia.
Qed.

(** *** What a subscriber got *)

Definition entry_ok (s : Session) (en : Entry) : Prop :=
  exists ch, s_chans s !! en_id en = Some ch
    /\ (carried ch ++ owed (s_batcher s) (en_id en)) `prefix_of` en_after en
    /\ (served s (en_id en) -> carried ch ++ owed (s_batcher s) (en_id en) = en_after en).

(** The senders the batcher works on are different ones. *)
Definition batcher_ok (s : Session) : Prop :=
  match s_batcher s with
  | Delivering _ d _ => NoDup (dl_todo d ++ dl_pending d ++ dl_dead d)
  | _ => True
  end.

Record inv (s : Session) (lg : Log) : Prop := mk_inv {
  iv_ring : ring_ok (s_ring s) (lg_stream lg);
  iv_modes : s_modes s = Modes.feed Modes.new (lg_stream lg);
  iv_ids : forall id, is_Some (s_chans s !! id) <-> id < s_next_sub_id s;
  iv_senders : forall id, id ∈ s_subs s \/ in_delivery (s_batcher s) id -> id < s_next_sub_id s;
  iv_nodup : NoDup (s_subs s);
  iv_batcher : batcher_ok s;
  iv_entries : Forall (entry_ok s) (lg_entries lg);
  iv_split : Forall (fun en => en_before en ++ en_after en = lg_stream lg) (lg_entries lg);
  iv_backlogs : (Z.of_nat (length (lg_stream lg)) <= u64_max)%Z -> Forall (backlog_ok cap epoch) (lg_entries lg);
  iv_known : Forall (fun en => en_id en < s_next_sub_id s) (lg_entries lg);
}.

Lemma owed_other b id : ~ in_delivery b id -> owed b id = [].
Proof. intros H. unfold owed. by rewrite decide_False. Qed.

(** An entry survives a step that neither publishes nor touches its channel, if the
    batcher's debt to it stays or is written off. *)
Lemma entry_ok_keep s s' en :
  entry_ok s en -> s_chans s' !! en_id en = s_chans s !! en_id en ->
  (served s' (en_id en) -> served s (en_id en) /\ owed (s_batcher s') (en_id en) = owed (s_batcher s) (en_id en)) ->
  (owed (s_batcher s') (en_id en) = owed (s_batcher s) (en_id en) \/ owed (s_batcher s') (en_id en) = []) ->
  entry_ok s' en.
Proof.
  intros (ch & Hch & Hpre & Heq) Hsame Hserved Howed. exists ch. rewrite Hsame. split; [done|]. split.
  - destruct Howed as [-> | ->]; [done|]. rewrite app_nil_r. etrans; [|exact Hpre]. by apply prefix_app_r.
  - intros Hs. destruct (Hserved Hs) as [Hs0 ->]. by apply Heq.
Qed.

(** The steps that leave the stream, the ids and the channels alone. *)
Lemma inv_quiet s s' lg :
  inv s lg -> s_ring s' = s_ring s -> s_modes s' = s_modes s -> s_chans s' = s_chans s ->
  s_next_sub_id s' = s_next_sub_id s -> (forall id, id ∈ s_subs s' -> id ∈ s_subs s) -> NoDup (s_subs s') ->
  (forall id, in_delivery (s_batcher s') id -> in_delivery (s_batcher s) id) -> batcher_ok s' ->
  (forall id, served s' id -> served s id /\ owed (s_batcher s') id = owed (s_batcher s) id) ->
  (forall id, owed (s_batcher s') id = owed (s_batcher s) id \/ owed (s_batcher s') id = []) ->
  inv s' lg.
Proof.
  intros [H1 H2 H3 H4 H5 H6 H7 H8 H9 H10] E1 E2 E3 E4 E5 E6 E7 E8 E9 E10.
  constructor; rewrite ?E1, ?E2, ?E3, ?E4; try done.
  - intros id [Hid|Hid]; apply H4; [left|right]; auto.
  - eapply Forall_impl; [exact H7|]. intros en Hen. apply (entry_ok_keep s); [done|by rewrite E3|apply E9|apply E10].
Qed.

(** A step of the reader, the waiter or a client that leaves the batcher alone. *)
Lemma inv_same_batcher s s' lg :
  inv s lg -> s_ring s' = s_ring s -> s_modes s' = s_modes s -> s_chans s' = s_chans s ->
  s_next_sub_id s' = s_next_sub_id s -> (forall id, id ∈ s_subs s' -> id ∈ s_subs s) -> NoDup (s_subs s') ->
  s_batcher s' = s_batcher s -> inv s' lg.
Proof.
  intros Hi E1 E2 E3 E4 E5 E6 E7. eapply inv_quiet; try done; unfold batcher_ok, served; rewrite ?E7; try done.
  - apply (iv_batcher _ _ Hi).
  - intros id [Hid|[Hid Hg]]; split; try done; [by left|right; auto].
  - by left.
Qed.
(** A client takes a frame or goes away: what its channel carried stays. *)
Lemma inv_channel s lg id ch ch' :
  inv s lg -> s_chans s !! id = Some ch -> carried ch' = carried ch ->
  inv (with_chans s (<[id := ch']> (s_chans s)) (s_batcher s)) lg.
Proof.
  intros [H1 H2 H3 H4 H5 H6 H7 H8 H9 H10] Hch Hc. constructor; try done; cbn [with_chans s_chans s_next_sub_id].
  - intros i. rewrite <- H3. destruct (decide (i = id)) as [->|Hne]; [rewrite lookup_insert_eq, Hch|by rewrite lookup_insert_ne].
    by split; intros _; eexists.
  - eapply Forall_impl; [exact H7|]. intros en (c & Hc0 & Hpre & Heq). unfold entry_ok, served.
    cbn [with_chans s_chans s_batcher s_subs]. destruct (decide (en_id en = id)) as [<-|Hne].
    + exists ch'. rewrite lookup_insert_eq. rewrite Hch in Hc0. injection Hc0 as <-. by rewrite Hc.
    + exists c. by rewrite lookup_insert_ne by congruence.
Qed.

(** *** Delivery *)

Lemma owed_in chunk d eof id : id ∈ dl_todo d ++ dl_pending d -> owed (Delivering chunk d eof) id = chunk.
Proof. intros H. unfold owed. by rewrite decide_True. Qed.

Lemma owed_not_in chunk d eof id : id ∉ dl_todo d ++ dl_pending d -> owed (Delivering chunk d eof) id = [].
Proof. intros H. by apply owed_other. Qed.

(** Moving ids about among the senders, or giving some up. *)
Lemma inv_redeliver s lg chunk d d' eof :
  inv s lg -> s_batcher s = Delivering chunk d eof ->
  NoDup (dl_todo d' ++ dl_pending d' ++ dl_dead d') ->
  (forall id, id ∈ dl_todo d' ++ dl_pending d' -> id ∈ dl_todo d ++ dl_pending d) ->
  (forall id, id ∈ dl_todo d ++ dl_pending d -> id ∈ dl_todo d' ++ dl_pending d' \/ id ∈ dl_dead d') ->
  (forall id, id ∈ dl_dead d -> id ∈ dl_dead d') ->
  inv (with_chans s (s_chans s) (Delivering chunk d' eof)) lg.
Proof.
  intros Hi Hb Hnd Hsub Hcover Hdead.
  eapply inv_quiet; try done; cbn [with_chans s_subs s_batcher].
  - apply (iv_nodup _ _ Hi).
  - rewrite Hb. done.
  - intros id Hs. rewrite Hb. unfold served in *. cbn [with_chans s_subs s_batcher in_delivery given_up] in *.
    rewrite Hb. cbn [in_delivery given_up].
    destruct (decide (id ∈ dl_todo d' ++ dl_pending d')) as [Hin|Hout].
    + rewrite !owed_in by auto. split; [left; auto|done].
    + destruct Hs as [?|[Hsubs Hng]]; [done|]. rewrite owed_not_in by done.
      destruct (decide (id ∈ dl_todo d ++ dl_pending d)) as [Hin|Hout'].
      * destruct (Hcover id Hin); done.
      * rewrite owed_not_in by done. split; [right; auto|done].
  - intros id. rewrite Hb. destruct (decide (id ∈ dl_todo d' ++ dl_pending d')) as [Hin|Hout].
    + left. rewrite !owed_in; auto.
    + right. by apply owed_not_in.
Qed.

(** A sender accepted the chunk. *)
Lemma inv_sent s lg chunk id todo d eof ch :
  inv s lg -> s_batcher s = Delivering chunk d eof -> dl_todo d = id :: todo ->
  s_chans s !! id = Some ch ->
  inv (with_chans s (<[id := mk_channel (ch_queue ch ++ [chunk]) (ch_alive ch) (ch_taken ch)]> (s_chans s))
        (Delivering chunk (mk_delivery todo (dl_pending d) true (dl_stall_rounds d) (dl_dead d)) eof)) lg.
Proof.
  intros [H1 H2 H3 H4 H5 H6 H7 H8 H9 H10] Hb Htodo Hch. unfold batcher_ok in H6. rewrite Hb, Htodo in H6.
  apply NoDup_cons in H6 as [Hfresh Hnd]. rewrite !elem_of_app in Hfresh.
  constructor; try done; cbn [with_chans s_chans s_next_sub_id s_subs s_batcher].
  - intros i. rewrite <- H3. destruct (decide (i = id)) as [->|Hne]; [rewrite lookup_insert_eq, Hch|by rewrite lookup_insert_ne].
    by split; intros _; eexists.
  - intros i [Hi|Hi]; apply H4; [by left|right]. rewrite Hb. simpl in *. rewrite Htodo. by right.
  - eapply Forall_impl; [exact H7|]. intros en (c & Hc0 & Hpre & Heq). unfold entry_ok, served in *.
    cbn [with_chans s_chans s_batcher s_subs]. rewrite Hb in *. cbn [in_delivery given_up dl_todo dl_pending dl_dead] in *.
    destruct (decide (en_id en = id)) as [Hid|Hne].
    + subst id. rewrite Hch in Hc0. injection Hc0 as <-. rewrite lookup_insert_eq. eexists. split; [done|].
      rewrite owed_in in Hpre, Heq by (rewrite Htodo; by left).
      rewrite owed_not_in by (cbn [dl_todo dl_pending]; rewrite elem_of_app; tauto).
      assert (Hcar : carried (mk_channel (ch_queue ch ++ [chunk]) (ch_alive ch) (ch_taken ch)) ++ [] = carried ch ++ chunk).
      { unfold carried. cbn [ch_taken ch_queue]. rewrite app_nil_r, app_assoc, concat_app. simpl. by rewrite app_nil_r. }
      rewrite Hcar. split; [done|]. intros _. apply Heq. left. rewrite Htodo. by left.
    + rewrite lookup_insert_ne by congruence. exists c. split; [done|].
      assert (Ho : forall e, owed (Delivering chunk (mk_delivery todo (dl_pending d) true (dl_stall_rounds d) (dl_dead d)) e) (en_id en)
        = owed (Delivering chunk d e) (en_id en)).
      { intros e. destruct (decide (en_id en ∈ todo ++ dl_pending d)) as [Hin|Hout].
        - rewrite !owed_in; [done|rewrite Htodo; by right|done].
        - rewrite !owed_not_in; [done| |done]. rewrite Htodo. cbn [app]. rewrite elem_of_cons. tauto. }
      rewrite Ho. split; [done|]. intros Hs. apply Heq. rewrite Htodo. cbn [app]. rewrite elem_of_cons. tauto.
Qed.
Lemma deliver_going s lg chunk d eof chans d' :
  inv s lg -> s_batcher s = Delivering chunk d eof ->
  deliver_step chunk (s_chans s) d = (chans, Going d') ->
  inv (with_chans s chans (Delivering chunk d' eof)) lg.
Proof.
  intros Hi Hb Hd. pose proof (iv_batcher _ _ Hi) as Hnd. unfold batcher_ok in Hnd. rewrite Hb in Hnd.
  unfold deliver_step in Hd. destruct (dl_todo d) as [|id todo] eqn:Htodo.
  - destruct (dl_pending d) as [|p ps] eqn:Hpend; [done|]. rewrite <- Hpend in Hd.
    assert (Hround : chans = s_chans s /\ dl_todo d' = dl_pending d /\ dl_pending d' = [] /\ dl_dead d' = dl_dead d).
    { destruct (dl_delivered_any d); [destruct (STALL_ROUND_LIMIT <=? _); [done|]|]; by injection Hd as <- <-. }
    destruct Hround as (-> & E1 & E2 & E3). eapply inv_redeliver; try done; rewrite ?E1, ?E2, ?E3, ?Htodo, ?Hpend.
    + done.
    + intros id. by rewrite app_nil_r.
    + intros id. rewrite app_nil_r. by left.
    + done.
  - assert (Hmove : forall p any rounds dead, p = [] \/ p = [id] -> dead = [] \/ dead = [id] -> p <> dead ->
      inv (with_chans s (s_chans s)
        (Delivering chunk (mk_delivery todo (dl_pending d ++ p) any rounds (dl_dead d ++ dead)) eof)) lg).
    { intros p any rounds dead Hp Hdd Hne. eapply inv_redeliver; try done; cbn [dl_todo dl_pending dl_dead].
      - eapply NoDup_Permutation_proper; [|exact Hnd].
        destruct Hp as [-> | ->], Hdd as [-> | ->]; try done; rewrite ?app_nil_r; solve_Permutation.
      - rewrite Htodo. intros i. rewrite !elem_of_app, elem_of_cons.
        destruct Hp as [-> | ->]; rewrite ?list_elem_of_singleton, ?elem_of_nil; tauto.
      - rewrite Htodo. intros i. rewrite !elem_of_app, elem_of_cons.
        destruct Hp as [-> | ->], Hdd as [-> | ->]; rewrite ?list_elem_of_singleton, ?elem_of_nil; tauto.
      - intros i Hi'. apply elem_of_app. by left. }
    destruct (s_chans s !! id) as [ch|] eqn:Hch.
    2: { injection Hd as <- <-. specialize (Hmove [] (dl_delivered_any d) (dl_stall_rounds d) [id]).
         rewrite app_nil_r in Hmove. apply Hmove; auto. }
    unfold try_send in Hd. destruct (ch_alive ch) eqn:Hal; cbn [negb] in Hd.
    + destruct (length (ch_queue ch) <? SUBSCRIBER_QUEUE_DEPTH).
      * injection Hd as <- <-. pose proof (inv_sent _ _ _ _ _ _ _ _ Hi Hb Htodo Hch) as Hs. by rewrite Hal in Hs.
      * injection Hd as <- <-. specialize (Hmove [id] (dl_delivered_any d) (dl_stall_rounds d) []).
        rewrite app_nil_r in Hmove. apply Hmove; auto.
    + injection Hd as <- <-. specialize (Hmove [] (dl_delivered_any d) (dl_stall_rounds d) [id]).
      rewrite app_nil_r in Hmove. apply Hmove; auto.
Qed.

Lemma deliver_done s lg chunk d eof chans dead :
  inv s lg -> s_batcher s = Delivering chunk d eof ->
  deliver_step chunk (s_chans s) d = (chans, Delivered dead) ->
  inv (with_chans s chans (Pruning dead eof)) lg.
Proof.
  intros Hi Hb Hd. unfold deliver_step in Hd. destruct (dl_todo d) as [|id todo] eqn:Htodo.
  2: { destruct (s_chans s !! id) as [ch|]; [|done]. by destruct (try_send ch chunk). }
  assert (Hdead : chans = s_chans s /\ dead = dl_dead d ++ dl_pending d).
  { destruct (dl_pending d); [injection Hd as <- <-; by rewrite app_nil_r|].
    destruct (dl_delivered_any d); [|done]. destruct (STALL_ROUND_LIMIT <=? _); [|done]. by injection Hd as <- <-. }
  destruct Hdead as [-> ->]. eapply inv_quiet; try done; cbn [with_chans s_subs s_batcher].
  - apply (iv_nodup _ _ Hi).
  - intros id Hs. rewrite Hb. unfold served in *. cbn [with_chans s_subs s_batcher in_delivery given_up] in *.
    rewrite Hb. cbn [in_delivery given_up]. rewrite elem_of_app in Hs.
    destruct Hs as [[]|[Hsubs Hng]]. rewrite owed_other by (intros []).
    rewrite owed_not_in by (rewrite Htodo; simpl; tauto). split; [right; tauto|done].
  - intros id. right. apply owed_other. intros [].
Qed.

(** *** The other steps of the batcher *)

Definition plain (b : Batcher) : Prop := match b with Delivering _ _ _ => False | _ => True end.

Lemma plain_owed b id : plain b -> owed b id = [] /\ ~ in_delivery b id.
Proof.
  intros H. assert (Hn : ~ in_delivery b id) by (destruct b; simpl; tauto).
  split; [by apply owed_other|done].
Qed.

Lemma inv_plain s s' lg :
  inv s lg -> plain (s_batcher s) -> plain (s_batcher s') ->
  s_ring s' = s_ring s -> s_modes s' = s_modes s -> s_chans s' = s_chans s ->
  s_next_sub_id s' = s_next_sub_id s -> (forall id, id ∈ s_subs s' -> id ∈ s_subs s) -> NoDup (s_subs s') ->
  (forall id, id ∈ s_subs s' -> ~ given_up (s_batcher s') id -> ~ given_up (s_batcher s) id) -> inv s' lg.
Proof.
  intros Hi Hp Hp' E1 E2 E3 E4 E5 E6 E7. eapply inv_quiet; try done.
  - intros id H. by destruct (plain_owed _ id Hp').
  - unfold batcher_ok. by destruct (s_batcher s').
  - intros id Hs. destruct (plain_owed _ id Hp) as [-> Hn], (plain_owed _ id Hp') as [-> Hn'].
    split; [|done]. destruct Hs as [?|[H1 H2]]; [done|]. right. auto.
  - intros id. right. by apply plain_owed.
Qed.

Lemma nodup_filter_subs (keep : nat -> bool) l : NoDup l -> NoDup (List.filter keep l).
Proof. rewrite !NoDup_ListNoDup. apply List.NoDup_filter. Qed.

Lemma elem_of_filter_subs (keep : nat -> bool) l id : id ∈ List.filter keep l <-> id ∈ l /\ keep id = true.
Proof. rewrite !list_elem_of_In. apply filter_In. Qed.

Lemma inv_prune s lg dead eof :
  inv s lg -> s_batcher s = Pruning dead eof ->
  inv (retain s (fun id => negb (existsb (Nat.eqb id) dead)) (if eof : bool then Ending else Receiving)) lg.
Proof.
  intros Hi Hb. eapply inv_plain; try done; cbn [retain s_subs s_batcher].
  - by rewrite Hb.
  - by destruct eof.
  - intros id [H _]%elem_of_filter_subs. done.
  - apply nodup_filter_subs, (iv_nodup _ _ Hi).
  - intros id [_ Hk]%elem_of_filter_subs _. rewrite Hb. simpl. intros Hin.
    apply negb_true_iff in Hk. enough (existsb (Nat.eqb id) dead = true) by congruence.
    apply existsb_exists. exists id. split; [by apply list_elem_of_In|apply Nat.eqb_refl].
Qed.

(** *** Publishing *)

Lemma inv_publish s lg batch eof s' :
  inv s lg -> s_batcher s = Batching batch -> publish s batch eof = Some s' -> inv s' (observe lg (Published batch)).
Proof.
  intros Hi Hb Hp. unfold publish in Hp. apply bind_Some in Hp as (r & Hr & [= <-]).
  destruct Hi as [H1 H2 H3 H4 H5 H6 H7 H8 H9 H10].
  constructor; cbn [s_ring s_modes s_subs s_chans s_next_sub_id s_batcher observe lg_stream lg_entries]; try done.
  - by eapply ring_ok_push.
  - by rewrite H2, Modes.feed_app.
  - intros id [Hid|Hid]; apply H4; left; [done|]. simpl in Hid. by rewrite app_nil_r in Hid.
  - unfold batcher_ok. cbn [s_batcher start_delivery dl_todo dl_pending dl_dead]. by rewrite !app_nil_r.
  - apply Forall_fmap. eapply Forall_impl; [exact H7|]. intros en (c & Hc & Hpre & Heq). unfold entry_ok, served in *.
    cbn [compose en_id en_after s_chans s_batcher s_subs in_delivery given_up start_delivery dl_todo dl_pending dl_dead].
    rewrite Hb in *. cbn [in_delivery given_up] in *. rewrite owed_other in Hpre, Heq by tauto.
    rewrite app_nil_r in Hpre, Heq. exists c. split; [done|].
    destruct (decide (en_id en ∈ s_subs s)) as [Hin|Hout].
    + rewrite owed_in by (cbn [dl_todo dl_pending]; by rewrite app_nil_r). rewrite Heq by tauto. done.
    + rewrite owed_not_in by (cbn [dl_todo dl_pending]; by rewrite app_nil_r). rewrite app_nil_r. split.
      * etrans; [exact Hpre|]. by apply prefix_app_r.
      * rewrite app_nil_r. tauto.
  - apply Forall_fmap. eapply Forall_impl; [exact H8|]. intros en Hen. cbn [compose en_before en_after].
    by rewrite app_assoc, Hen.
  - intros Hlen. apply Forall_fmap. rewrite length_app in Hlen. eapply Forall_impl; [apply H9; lia|]. done.
  - apply Forall_fmap. eapply Forall_impl; [exact H10|]. done.
Qed.
(** *** Subscribing *)

Lemma subscription_ok s lg e o id sub s' :
  inv s lg -> is_u64 o -> (Z.of_nat (length (lg_stream lg)) <= u64_max)%Z ->
  subscribe_from s e o = (id, sub, s') -> backlog_ok cap epoch (mk_entry id e o sub (lg_stream lg) []).
Proof.
  intros Hi Ho Hlen Hs. pose proof (iv_ring _ _ Hi) as [Hwf Hc He Hsnap Hw].
  unfold subscribe_from in Hs. unfold RingBuf.epoch, RingBuf.written in Hs.
  assert (Hfull : RingBuf.snapshot (s_ring s) = lastn cap (lg_stream lg)
    /\ Modes.replay_preamble (s_modes s) = Modes.replay_preamble (Modes.feed Modes.new (lg_stream lg)))
    by (by rewrite (iv_modes _ _ Hi)).
  unfold backlog_ok. cbn [en_sub en_before en_epoch en_offset].
  destruct ((RingBuf.r_epoch (s_ring s) =? e) && negb (e =? 0))%Z eqn:Hep.
  - apply andb_true_iff in Hep as [Hep _]. apply Z.eqb_eq in Hep.
    destruct (RingBuf.since (s_ring s) o) as [delta|] eqn:Hsince; injection Hs as <- <- <-; cbn.
    + split; [rewrite Hw; lia|]. split; [congruence|]. split; [done|]. exists (Z.to_nat o).
      assert (Hoz : o = Z.of_nat (Z.to_nat o)) by (unfold is_u64 in Ho; lia). split; [done|].
      rewrite Hoz in Hsince, Ho. by apply (ring_ok_since _ _ _ (iv_ring _ _ Hi) Ho Hlen).
    + split; [rewrite Hw; lia|done].
  - injection Hs as <- <- <-. cbn. split; [rewrite Hw; lia|done].
Qed.

Lemma inv_subscribe s lg e o id sub s' :
  inv s lg -> is_u64 o -> subscribe_from s e o = (id, sub, s') -> inv s' (observe lg (Subscribed id e o sub)).
Proof.
  intros Hi Ho Hs. pose proof (fun Hlen => subscription_ok s lg e o id sub s' Hi Ho Hlen Hs) as Hback.
  destruct Hi as [H1 H2 H3 H4 H5 H6 H7 H8 H9 H10].
  assert (Hshape : id = s_next_sub_id s /\ s' = mk_session (s_ring s) (s_modes s)
     (if s_reader_done s then s_subs s else s_subs s ++ [id]) (s_reader_done s) (s_next_sub_id s + 1)
     (<[id := mk_channel [] true []]> (s_chans s)) (s_reads s) (s_reader_open s) (s_batcher s) (s_exit s)
     (s_exit_teardown_done s)).
  { unfold subscribe_from in Hs. destruct (_ && _); [destruct (RingBuf.since _ _)|]; by injection Hs as <- <- <-. }
  destruct Hshape as [-> ->]. set (id := s_next_sub_id s) in *.
  assert (Hsubs : forall i, i ∈ (if s_reader_done s then s_subs s else s_subs s ++ [id]) -> i ∈ s_subs s \/ i = id).
  { intros i. destruct (s_reader_done s); [by left|]. rewrite elem_of_app, list_elem_of_singleton. tauto. }
  constructor; cbn [s_ring s_modes s_subs s_chans s_next_sub_id s_batcher observe lg_stream lg_entries]; try done.
  - intros i. rewrite lookup_insert_is_Some', H3. unfold id. lia.
  - intros i [Hi%Hsubs|Hi]; [destruct Hi as [Hi| ->]; [|unfold id; lia]|].
    + specialize (H4 i (or_introl Hi)). lia.
    + specialize (H4 i (or_intror Hi)). lia.
  - destruct (s_reader_done s); [done|]. apply NoDup_app. split_and!; [done| |apply NoDup_singleton].
    intros i Hi ->%list_elem_of_singleton. specialize (H4 id (or_introl Hi)). unfold id in H4. lia.
  - apply Forall_app. split; [|constructor; [|constructor]].
    + rewrite Forall_forall in H7, H10. apply Forall_forall. intros en Hen.
      assert (Hne : en_id en <> id) by (specialize (H10 en Hen); unfold id; lia).
      destruct (H7 en Hen) as (c & Hc & Hpre & Heq). exists c. cbn [s_chans s_batcher].
      rewrite lookup_insert_ne by congruence. split; [done|]. split; [done|]. intros Hs'. apply Heq.
      unfold served in *. cbn [s_subs s_batcher] in Hs'. destruct Hs' as [?|[[?|?]%Hsubs ?]]; tauto.
    + eexists. cbn [en_id en_after s_chans s_batcher]. rewrite lookup_insert_eq. split; [done|].
      rewrite owed_other by (intros Hin; specialize (H4 id (or_intror Hin)); unfold id in H4; lia). by split.
  - apply Forall_app. split; [done|]. constructor; [|constructor]. simpl. by rewrite app_nil_r.
  - intros Hlen. apply Forall_app. split; [by apply H9|]. constructor; [by apply Hback|constructor].
  - apply Forall_app. split; [|constructor; [simpl; unfold id; lia|constructor]].
    eapply Forall_impl; [exact H10|]. simpl. intros. lia.
Qed.

(** *** Every step *)

Lemma session_step_inv s lg l s' : inv s lg -> step s l s' -> inv s' (observe lg l).
Proof.
  intros Hi Hs. pose proof (iv_nodup _ _ Hi) as Hnd. destruct Hs; cbn [observe].
  - by apply (inv_same_batcher s).
  - by apply (inv_same_batcher s).
  - apply (inv_plain s); try done; rewrite H; [done|tauto].
  - apply (inv_plain s); try done; rewrite H; [done|tauto].
  - apply (inv_plain s); try done; rewrite H; [done|tauto].
  - by eapply inv_publish.
  - by eapply inv_publish.
  - by eapply deliver_going.
  - by eapply deliver_done.
  - by apply inv_prune.
  - apply (inv_plain s); try done; [by rewrite H| |constructor|]; cbn; intros i Hin; by apply not_elem_of_nil in Hin.
  - by apply (inv_same_batcher s).
  - apply (inv_same_batcher s); try done; [|constructor]. cbn. intros i Hin. by apply not_elem_of_nil in Hin.
  - by apply (inv_same_batcher s).
  - by eapply inv_subscribe.
  - apply (inv_same_batcher s); try done; cbn; [|by apply nodup_filter_subs].
    by intros i [Hin _]%elem_of_filter_subs.
  - eapply inv_channel; [done..|]. unfold carried. cbn [ch_taken ch_queue].
    rewrite H1. by rewrite <- app_assoc.
  - by eapply inv_channel.
Qed.

Lemma session_run_inv s lg : run cap epoch history s lg -> inv s lg.
Proof.
  induction 1 as [s Hp|s lg l s' _ IH Hs]; [|by eapply session_step_inv].
  unfold preload in Hp. apply bind_Some in Hp as (r & Hr & [= <-]).
  constructor; cbn; try done.
  - apply (ring_ok_push _ [] _ _ ring_ok_new Hr).
  - intros id. rewrite lookup_empty. split; [by intros []|lia].
  - intros id [Hid|[]]. by apply not_elem_of_nil in Hid.
  - constructor.
Qed.
End session.

(** C1. A subscriber misses nothing, sees nothing twice and nothing out of order.
    Whatever the interleaving, what it was handed and what its channel has carried
    is the session's output: the backlog is everything written before it came that
    the ring retains, with the modes' preamble, or exactly the bytes after its
    watermark; the channel carries an initial part of what was written since, and
    all of it whenever the batcher is not in a delivery and the subscriber has not
    been dropped. *)
Theorem session_stream (cap : nat) (epoch : Z) (history : list byte) (s : Session) (lg : Log)
    (Hcap : 0 < cap) (Hu64 : (Z.of_nat cap <= u64_max)%Z)
    (Hrun : run cap epoch history s lg) (Hlen : (Z.of_nat (length (lg_stream lg)) <= u64_max)%Z) :
  RingBuf.snapshot (s_ring s) = lastn cap (lg_stream lg)
  /\ s_modes s = Modes.feed Modes.new (lg_stream lg)
  /\ forall en, en ∈ lg_entries lg ->
       en_before en ++ en_after en = lg_stream lg /\ backlog_ok cap epoch en
       /\ exists ch, s_chans s !! en_id en = Some ch /\ carried ch `prefix_of` en_after en
            /\ (en_id en ∈ s_subs s -> s_batcher s = Receiving \/ (exists b, s_batcher s = Batching b) ->
                carried ch = en_after en).
Proof.
  pose proof (session_run_inv cap epoch history Hcap Hu64 s lg Hrun) as Hi. destruct (iv_ring _ _ _ _ Hi) as [_ _ _ Hs _].
  split; [done|]. split; [apply (iv_modes _ _ _ _ Hi)|]. intros en Hen.
  pose proof (iv_split _ _ _ _ Hi) as Hsp. pose proof (iv_backlogs _ _ _ _ Hi Hlen) as Hb.
  pose proof (iv_entries _ _ _ _ Hi) as He. rewrite Forall_forall in Hsp, Hb, He.
  split; [by apply Hsp|]. split; [by apply Hb|]. destruct (He en Hen) as (ch & Hch & Hpre & Heq).
  exists ch. split; [done|]. split; [etrans; [|exact Hpre]; by apply prefix_app_r|].
  intros Hin Hbat. assert (Hp : plain (s_batcher s)) by (by destruct Hbat as [-> |[b ->]]).
  destruct (plain_owed _ (en_id en) Hp) as [Ho _]. rewrite Ho, app_nil_r in Heq. apply Heq. right.
  split; [done|]. destruct Hbat as [-> |[b ->]]; intros [].
Qed.

(** One step of a concrete run, its state evaluated. *)
Tactic Notation "advance" hyp(R) "by" tactic3(st) := eapply run_step in R; [|st]; vm_compute in R.

(** A subscriber of a restored session and one frame, delivered. *)
Lemma example_run :
  exists s lg, run 4 9 [1; 2; 3; 4; 5]%Z s lg /\ lg_stream lg = [1; 2; 3; 4; 5; 6; 7]%Z
    /\ s_subs s = [0] /\ s_batcher s = Receiving /\ map en_id (lg_entries lg) = [0]
    /\ map en_after (lg_entries lg) = [[6; 7]]%Z.
Proof.
  pose proof (run_start 4 9 [1; 2; 3; 4; 5]%Z _ eq_refl) as R.
  advance R by (eapply (st_subscribe _ 0 0); [by split|by split|reflexivity]).
  advance R by (eapply (st_read _ [6; 7]%Z); [reflexivity|apply Nat.ltb_lt; reflexivity| split; [apply Z.ltb_lt|apply Z.leb_le]; reflexivity]).
  advance R by (eapply st_recv; reflexivity).
  advance R by (eapply st_publish; reflexivity).
  advance R by (eapply st_deliver; reflexivity).
  advance R by (eapply st_delivered; reflexivity).
  advance R by (eapply st_prune; reflexivity).
  eexists _, _. split; [exact R|]. repeat split.
Qed.

Lemma session_stream_witness :
  exists s lg, run 4 9 [1; 2; 3; 4; 5]%Z s lg
    /\ exists en ch, en ∈ lg_entries lg /\ s_chans s !! en_id en = Some ch /\ carried ch = [6; 7]%Z
         /\ sb_end_offset (en_sub en) = 5%Z.
Proof.
  destruct example_run as (s & lg & Hrun & Hstream & Hsubs & Hb & Hid & Hafter).
  exists s, lg. split; [exact Hrun|].
  destruct (session_stream 4 9 [1; 2; 3; 4; 5]%Z s lg) as (_ & _ & H);
    [lia|by vm_compute|exact Hrun|rewrite Hstream; by vm_compute|].
  destruct (lg_entries lg) as [|en [|]] eqn:He; try discriminate Hafter.
  injection Hafter as Hafter. injection Hid as Hid.
  destruct (H en) as (Hsplit & [Hend _] & ch & Hch & _ & Heq); [by left|].
  rewrite Hafter, Hstream in *. exists en, ch. split; [by left|]. split; [exact Hch|]. split.
  - apply Heq; [rewrite Hid, Hsubs; by left|by left].
  - rewrite Hend. apply (app_inv_tail [6; 7]%Z (en_before en) [1; 2; 3; 4; 5]%Z) in Hsplit.
    by rewrite Hsplit.
Defined.

(** ** Memory *)

Definition FRAME_BOUND : Z := (BATCH_MAX_BYTES + READ_MAX_BYTES)%Z.

Definition frame_ok (f : list byte) : Prop := (Z.of_nat (length f) < FRAME_BOUND)%Z.

Definition batch_ok (b : Batcher) : Prop :=
  match b with
  | Batching batch => frame_ok batch
  | Delivering chunk _ _ => frame_ok chunk
  | _ => True
  end.

Definition channel_ok (ch : Channel) : Prop :=
  length (ch_queue ch) <= SUBSCRIBER_QUEUE_DEPTH /\ Forall frame_ok (ch_queue ch).

Record bounded (s : Session) : Prop := mk_bounded {
  bd_reads : Forall (fun c => Z.of_nat (length c) <= READ_MAX_BYTES)%Z (s_reads s);
  bd_depth : length (s_reads s) <= READER_CHANNEL_DEPTH;
  bd_batch : batch_ok (s_batcher s);
  bd_chans : forall id ch, s_chans s !! id = Some ch -> channel_ok ch;
}.

Lemma insert_channel_ok (chans : gmap nat Channel) id ch :
  (forall i c, chans !! i = Some c -> channel_ok c) -> channel_ok ch ->
  forall i c, <[id := ch]> chans !! i = Some c -> channel_ok c.
Proof.
  intros H Hch i c Hc. destruct (decide (i = id)) as [->|Hne].
  - rewrite lookup_insert_eq in Hc. by injection Hc as <-.
  - rewrite lookup_insert_ne in Hc by done. by eapply H.
Qed.

Lemma deliver_step_bounded chunk chans d chans' p :
  frame_ok chunk -> (forall i c, chans !! i = Some c -> channel_ok c) ->
  deliver_step chunk chans d = (chans', p) -> forall i c, chans' !! i = Some c -> channel_ok c.
Proof.
  intros Hf Hok Hd. unfold deliver_step in Hd. destruct (dl_todo d) as [|id todo].
  { assert (chans' = chans) as ->; [|done].
    destruct (dl_pending d); [congruence|]. destruct (dl_delivered_any d); [|congruence].
    destruct (STALL_ROUND_LIMIT <=? _); congruence. }
  destruct (chans !! id) as [ch|] eqn:Hch; [|by injection Hd as <- _].
  unfold try_send in Hd. destruct (negb (ch_alive ch)); [by injection Hd as <- _|].
  destruct (Nat.ltb_spec (length (ch_queue ch)) SUBSCRIBER_QUEUE_DEPTH) as [Hlt|]; injection Hd as <- _; [|done].
  destruct (Hok id ch Hch) as [H1 H2]. apply insert_channel_ok; [done|]. split; cbn [ch_queue].
  - rewrite length_app. simpl. lia.
  - apply Forall_app. split; [done|]. by constructor.
Qed.

Lemma publish_bounded s batch eof s' :
  bounded s -> s_batcher s = Batching batch -> publish s batch eof = Some s' -> bounded s'.
Proof.
  intros [H1 H2 H3 H4] Hb Hp. unfold publish in Hp. apply bind_Some in Hp as (r & _ & [= <-]).
  rewrite Hb in H3. by constructor.
Qed.

Lemma step_bounded s l s' : bounded s -> step s l s' -> bounded s'.
Proof.
  intros Hb Hs. pose proof Hb as [H1 H2 H3 H4]. destruct Hs.
  - constructor; cbn; try done; [|rewrite length_app; simpl; lia].
    apply Forall_app. split; [done|]. constructor; [lia|constructor].
  - by constructor.
  - rewrite H0 in H1, H2. apply Forall_cons in H1 as [Hc Hr]. simpl in H2.
    constructor; cbn; try done; [lia|]. unfold frame_ok, FRAME_BOUND.
    unfold BATCH_MAX_BYTES. lia.
  - by constructor.
  - rewrite H5 in H1, H2. apply Forall_cons in H1 as [Hc Hr]. simpl in H2.
    constructor; cbn; try done; [lia|]. unfold frame_ok, FRAME_BOUND. rewrite length_app. lia.
  - by eapply publish_bounded.
  - by eapply publish_bounded.
  - rewrite H in H3. constructor; try done. cbn. by eapply deliver_step_bounded.
  - rewrite H in H3. constructor; try done. cbn. by eapply deliver_step_bounded.
  - constructor; cbn; try done. by destruct eof.
  - by constructor.
  - by constructor.
  - by constructor.
  - by constructor.
  - assert (Hs' : s_reads s' = s_reads s /\ s_batcher s' = s_batcher s /\ exists i, s_chans s' = <[i := mk_channel [] true []]> (s_chans s)).
    { unfold subscribe_from in H5. destruct (_ && _); [destruct (RingBuf.since _ _)|];
        injection H5 as <- <- <-; cbn; eauto. }
    destruct Hs' as (E1 & E2 & i & E3). constructor; rewrite ?E1, ?E2, ?E3; try done.
    apply insert_channel_ok; [done|]. split; [simpl; unfold SUBSCRIBER_QUEUE_DEPTH; lia|constructor].
  - by constructor.
  - constructor; try done. cbn. apply insert_channel_ok; [done|]. destruct (H4 id ch H) as [Hl Hf].
    rewrite H5 in Hl, Hf. apply Forall_cons in Hf as [_ Hf]. simpl in Hl. split; cbn; [lia|done].
  - constructor; try done. cbn. apply insert_channel_ok; [done|]. apply (H4 id ch H).
Qed.

Lemma run_bounded cap epoch history s lg : run cap epoch history s lg -> bounded s.
Proof.
  induction 1 as [s Hp|s lg l s' _ IH Hs]; [|by eapply step_bounded].
  unfold preload in Hp. apply bind_Some in Hp as (r & _ & [= <-]). constructor; cbn; [constructor|lia|done|].
  intros id ch Hch. by rewrite lookup_empty in Hch.
Qed.

Lemma concat_bound n (fs : list (list byte)) :
  Forall (fun f => Z.of_nat (length f) <= n)%Z fs -> (Z.of_nat (length (concat fs)) <= Z.of_nat (length fs) * n)%Z.
Proof. induction 1 as [|f fs Hf _ IH]; simpl concat; [simpl; lia|]. rewrite length_app. simpl length. lia. Qed.

(** Memory stays bounded however fast the child writes and however slow its
    clients are: at most 32 reads of 8 KiB wait for the batcher, a frame stays under
    264 KiB, and a subscriber's queue holds at most eight. *)
Theorem session_bounded (cap : nat) (epoch : Z) (history : list byte) (s : Session) (lg : Log)
    (Hrun : run cap epoch history s lg) :
  (Z.of_nat (length (concat (s_reads s))) <= 32 * 8192)%Z
  /\ (forall batch, s_batcher s = Batching batch -> Z.of_nat (length batch) < 264 * 1024)%Z
  /\ forall id ch, s_chans s !! id = Some ch ->
       length (ch_queue ch) <= 8 /\ (Z.of_nat (length (concat (ch_queue ch))) < 8 * (264 * 1024))%Z.
Proof.
  destruct (run_bounded _ _ _ _ _ Hrun) as [H1 H2 H3 H4].
  unfold READER_CHANNEL_DEPTH in H2. split_and!.
  - pose proof (concat_bound _ _ H1). unfold READ_MAX_BYTES in *. nia.
  - intros batch Hb. rewrite Hb in H3. unfold batch_ok, frame_ok, FRAME_BOUND, BATCH_MAX_BYTES, READ_MAX_BYTES in H3. lia.
  - intros id ch Hch. destruct (H4 id ch Hch) as [Hq Hf]. unfold SUBSCRIBER_QUEUE_DEPTH in Hq. split; [done|].
    assert (Hf' : Forall (fun f => Z.of_nat (length f) <= FRAME_BOUND - 1)%Z (ch_queue ch)).
    { eapply Forall_impl; [exact Hf|]. unfold frame_ok. intros. lia. }
    apply concat_bound in Hf'. unfold FRAME_BOUND, BATCH_MAX_BYTES, READ_MAX_BYTES in Hf'. nia.
Qed.

Lemma session_bounded_witness :
  exists s lg, run 4 9 [1; 2; 3; 4; 5]%Z s lg /\ (Z.of_nat (length (concat (s_reads s))) <= 32 * 8192)%Z.
Proof.
  destruct example_run as (s & lg & Hrun & _). exists s, lg. split; [exact Hrun|].
  exact (proj1 (session_bounded 4 9 [1; 2; 3; 4; 5]%Z s lg Hrun)).
Defined.

(** ** A delivery ends

    [deliver_chunk] against an arbitrary environment: [env t] is what the channels
    are when its [t]-th action looks at them.  [None] while it is still running. *)
Fixpoint deliver_for (n : nat) (chunk : list byte) (env : nat -> gmap nat Channel) (t : nat) (d : Delivery)
  : option (list nat) :=
  match n with
  | O => None
  | S n' =>
      match snd (deliver_step chunk (env t) d) with
      | Going d' => deliver_for n' chunk env (t + 1) d'
      | Delivered dead => Some dead
      end
  end.

Definition has_room (chans : gmap nat Channel) (id : nat) : Prop :=
  exists ch, chans !! id = Some ch /\ ch_alive ch = true /\ length (ch_queue ch) < SUBSCRIBER_QUEUE_DEPTH.

Section delivery.
Context (chunk : list byte) (env : nat -> gmap nat Channel).

(** The actions left once somebody took the chunk. *)
Definition actions_left (d : Delivery) : nat :=
  length (dl_todo d) + 1
  + (STALL_ROUND_LIMIT - dl_stall_rounds d) * (length (dl_todo d) + length (dl_pending d) + 1).

Lemma deliver_step_progress chans d :
  match snd (deliver_step chunk chans d) with
  | Going d' =>
      (dl_delivered_any d = true -> dl_delivered_any d' = true)
      /\ length (dl_todo d') + length (dl_pending d') <= length (dl_todo d) + length (dl_pending d)
      /\ (dl_delivered_any d = true -> actions_left d' < actions_left d)
  | Delivered _ => True
  end.
Proof.
  unfold deliver_step, actions_left. destruct (dl_todo d) as [|id todo] eqn:Ht.
  - destruct (dl_pending d) as [|p ps] eqn:Hp; [done|].
    destruct (dl_delivered_any d).
    + destruct (Nat.leb_spec STALL_ROUND_LIMIT (dl_stall_rounds d + 1)); simpl; [done|].
      split; [done|]. split; [lia|]. intros _.
      replace (STALL_ROUND_LIMIT - dl_stall_rounds d) with (S (STALL_ROUND_LIMIT - (dl_stall_rounds d + 1))) by lia.
      lia.
    + simpl. split; [done|]. split; [lia|done].
  - destruct (chans !! id) as [ch|]; [destruct (try_send ch chunk)|]; simpl; rewrite ?length_app; simpl;
      (split; [done|]; split; [lia|intros _; nia]).
Qed.

Lemma deliver_ends_soon n t d :
  dl_delivered_any d = true -> actions_left d <= n -> is_Some (deliver_for n chunk env t d).
Proof.
  revert t d. induction n as [|n IH]; intros t d Hany Hn; [unfold actions_left in Hn; nia|].
  simpl. pose proof (deliver_step_progress (env t) d) as Hp.
  destruct (snd (deliver_step chunk (env t) d)) as [d'|dead]; [|by eexists].
  destruct Hp as (H1 & _ & H3). apply IH; [auto|]. specialize (H3 Hany). lia.
Qed.

Lemma deliver_for_more n m t d dead : n <= m -> deliver_for n chunk env t d = Some dead -> deliver_for m chunk env t d = Some dead.
Proof.
  revert m t d. induction n as [|n IH]; intros m t d Hnm H; [done|]. destruct m as [|m]; [lia|].
  simpl in H |- *. destruct (snd _); [|done]. apply IH; [lia|done].
Qed.

(** Until the chunk is taken, a sender whose receiver exists is kept, and one that
    has room is reached in this round or the next. *)
Definition attached (chans : gmap nat Channel) (id : nat) : Prop :=
  exists ch, chans !! id = Some ch /\ ch_alive ch = true.

Definition waits (id : nat) (d : Delivery) : Prop :=
  dl_delivered_any d = false /\ id ∈ dl_todo d ++ dl_pending d.

Definition turns (id : nat) (d : Delivery) : nat :=
  if decide (id ∈ dl_todo d) then length (dl_todo d)
  else length (dl_todo d) + 1 + (length (dl_todo d) + length (dl_pending d)).

Lemma deliver_step_waiting id chans d :
  attached chans id -> waits id d ->
  match snd (deliver_step chunk chans d) with
  | Going d' => dl_delivered_any d' = true \/ waits id d' /\ (has_room chans id -> turns id d' < turns id d)
  | Delivered _ => False
  end.
Proof.
  intros (ch & Hch & Hal) [Hany Hin]. unfold deliver_step, waits, turns. destruct (dl_todo d) as [|i todo] eqn:Ht.
  - destruct (dl_pending d) as [|p ps]; [by apply not_elem_of_nil in Hin|].
    rewrite Hany. cbn [snd dl_todo dl_pending dl_delivered_any]. right. rewrite app_nil_r.
    split; [done|]. intros _. rewrite decide_True, decide_False by (done || apply not_elem_of_nil). simpl. lia.
  - destruct (decide (i = id)) as [->|Hne].
    + rewrite Hch. unfold try_send. rewrite Hal. simpl.
      destruct (Nat.ltb_spec (length (ch_queue ch)) SUBSCRIBER_QUEUE_DEPTH) as [|Hfull]; simpl; [by left|].
      right. split; [split; [done|]; rewrite !elem_of_app, list_elem_of_singleton; tauto|].
      intros (ch' & Hch' & _ & Hroom). rewrite Hch in Hch'. injection Hch' as <-. lia.
    + assert (Hin' : id ∈ todo ++ dl_pending d) by (apply elem_of_cons in Hin as [->|]; done).
      assert (Hiff : id ∈ i :: todo <-> id ∈ todo) by (rewrite elem_of_cons; naive_solver).
      destruct (chans !! i) as [c|]; [destruct (try_send c chunk)|]; simpl; rewrite ?Hany; (try by left); right;
        rewrite ?length_app, (decide_ext (id ∈ i :: todo) (id ∈ todo)) by done;
        (split; [split; [done|]; rewrite ?app_assoc, ?elem_of_app in *; tauto|]);
        intros _; destruct (decide (id ∈ todo)); simpl; lia.
Qed.

Lemma deliver_ends_room id t d :
  (forall u, t <= u -> has_room (env u) id) -> waits id d -> exists n, is_Some (deliver_for n chunk env t d).
Proof.
  remember (turns id d) as k eqn:Hk. revert t d Hk. induction k as [k IH] using lt_wf_ind. intros t d -> Hroom Hw.
  assert (Hat : attached (env t) id) by (destruct (Hroom t) as (ch & H1 & H2 & _); [lia|by exists ch]).
  pose proof (deliver_step_waiting id (env t) d Hat Hw) as Hs.
  destruct (snd (deliver_step chunk (env t) d)) as [d'|dead] eqn:Hd; [|done].
  destruct Hs as [Hany|[Hw' Hlt]].
  - exists (S (actions_left d')). simpl. rewrite Hd. by apply deliver_ends_soon.
  - destruct (IH (turns id d') (Hlt (Hroom t ltac:(lia))) (t + 1) d' eq_refl) as [n Hn]; [|done|].
    + intros u Hu. apply Hroom. lia.
    + exists (S n). simpl. by rewrite Hd.
Qed.

Lemma deliver_ends_attached id T t d :
  (forall u, t <= u -> attached (env u) id) -> (forall u, T <= u -> has_room (env u) id) ->
  waits id d -> exists n, is_Some (deliver_for n chunk env t d).
Proof.
  remember (T - t) as k eqn:Hk. revert t d Hk. induction k as [|k IH]; intros t d Hk Hat Hroom Hw.
  - apply (deliver_ends_room id); [|done]. intros u Hu. apply Hroom. lia.
  - pose proof (deliver_step_waiting id (env t) d (Hat t (le_n t)) Hw) as Hs.
    destruct (snd (deliver_step chunk (env t) d)) as [d'|dead] eqn:Hd; [|done]. destruct Hs as [Hany|[Hw' _]].
    + exists (S (actions_left d')). simpl. rewrite Hd. by apply deliver_ends_soon.
    + destruct (IH (t + 1) d') as [n Hn]; [lia| |done|done|].
      * intros u Hu. apply Hat. lia.
      * exists (S n). simpl. by rewrite Hd.
Qed.

End delivery.

(** One slow client cannot hold a session up: however the clients interleave with
    the sending, as soon as one receiver that stays attached has room, the delivery
    of a frame ends; and once one receiver took it, at most 150 more rounds over the
    senders follow. *)
Theorem delivery_completes (chunk : list byte) (env : nat -> gmap nat Channel) (senders : list nat) (id T : nat)
    (Hin : id ∈ senders) (Hat : forall t, attached (env t) id) (Hroom : forall t, T <= t -> has_room (env t) id) :
  (exists n, is_Some (deliver_for n chunk env 0 (start_delivery senders)))
  /\ forall t d, dl_delivered_any d = true -> length (dl_todo d) + length (dl_pending d) <= length senders ->
       is_Some (deliver_for (151 * (length senders + 1)) chunk env t d).
Proof.
  split.
  - apply (deliver_ends_attached chunk env id T); [done|done|]. split; [done|]. simpl. by rewrite app_nil_r.
  - intros t d Hany Hlen. apply deliver_ends_soon; [done|]. unfold actions_left, STALL_ROUND_LIMIT. nia.
Qed.

Lemma delivery_completes_witness :
  exists n, is_Some (deliver_for n [1%Z] (fun _ => {[0 := mk_channel [] true []]}) 0 (start_delivery [0])).
Proof.
  refine (proj1 (delivery_completes [1%Z] (fun _ => {[0 := mk_channel [] true []]}) [0] 0 0 _ _ _)).
  - left.
  - intros t. by exists (mk_channel [] true []).
  - intros t _. exists (mk_channel [] true []). split; [done|]. split; [done|]. apply Nat.ltb_lt. reflexivity.
Defined.

(** ** Coming back *)

(** A client that comes back with its watermark, the end offset it was given plus
    the bytes it has consumed since, and is answered with a delta, then has every
    byte of the session once: its first backlog's past, what it consumed, and the
    delta make up the stream at its return. *)
Theorem resume_seamless (cap : nat) (epoch : Z) (history : list byte) (s : Session) (lg : Log)
    (first again : Entry) (ch : Channel) (consumed : list byte)
    (Hcap : 0 < cap) (Hu64 : (Z.of_nat cap <= u64_max)%Z)
    (Hrun : run cap epoch history s lg) (Hlen : (Z.of_nat (length (lg_stream lg)) <= u64_max)%Z)
    (Hfirst : first ∈ lg_entries lg) (Hagain : again ∈ lg_entries lg)
    (Hch : s_chans s !! en_id first = Some ch) (Hcons : consumed `prefix_of` carried ch)
    (Hmark : en_offset again = (sb_end_offset (en_sub first) + Z.of_nat (length consumed))%Z)
    (Hdelta : sb_full (en_sub again) = false) :
  en_before first ++ consumed ++ sb_backlog (en_sub again) = en_before again.
Proof.
  pose proof (session_run_inv cap epoch history Hcap Hu64 s lg Hrun) as Hi.
  pose proof (iv_split _ _ _ _ Hi) as Hsp. pose proof (iv_backlogs _ _ _ _ Hi Hlen) as Hb.
  pose proof (iv_entries _ _ _ _ Hi) as He. rewrite Forall_forall in Hsp, Hb, He.
  destruct (He first Hfirst) as (ch' & Hch' & Hpre & _). rewrite Hch in Hch'. injection Hch' as <-.
  destruct (Hb first Hfirst) as [Hend _]. destruct (Hb again Hagain) as [_ Hback]. rewrite Hdelta in Hback.
  destruct Hback as (_ & _ & off & Hoff & Hle & ->). rewrite Hmark, Hend in Hoff.
  assert (Hcp : (en_before first ++ consumed) `prefix_of` lg_stream lg).
  { rewrite <- (Hsp first Hfirst). apply prefix_app. etrans; [exact Hcons|]. etrans; [|exact Hpre]. by apply prefix_app_r. }
  assert (Hap : en_before again `prefix_of` lg_stream lg) by (exists (en_after again); by rewrite (Hsp again Hagain)).
  destruct Hcp as [k Hk], Hap as [k' Hk']. rewrite Hk in Hk'.
  assert (Ho : off = length (en_before first ++ consumed)) by (rewrite length_app; lia).
  rewrite app_assoc, Ho. rewrite <- (take_drop (length (en_before first ++ consumed)) (en_before again)) at 2.
  f_equal. apply (f_equal (take (length (en_before first ++ consumed)))) in Hk'.
  rewrite take_app_length, take_app_le in Hk' by lia. exact Hk'.
Qed.

(** The example's subscriber returns with its two bytes consumed, after a third was
    written: it gets that byte only. *)
Lemma resume_seamless_witness :
  exists s lg first again, run 4 9 [1; 2; 3; 4; 5]%Z s lg /\ first ∈ lg_entries lg /\ again ∈ lg_entries lg
    /\ sb_backlog (en_sub again) = [8]%Z
    /\ en_before first ++ [6; 7]%Z ++ sb_backlog (en_sub again) = en_before again.
Proof.
  pose proof (run_start 4 9 [1; 2; 3; 4; 5]%Z _ eq_refl) as R.
  advance R by (eapply (st_subscribe _ 0 0); [by split|by split|reflexivity]).
  advance R by (eapply (st_read _ [6; 7; 8]%Z); [reflexivity|apply Nat.ltb_lt; reflexivity| split; [apply Z.ltb_lt|apply Z.leb_le]; reflexivity]).
  advance R by (eapply st_recv; reflexivity).
  advance R by (eapply st_publish; reflexivity).
  advance R by (eapply st_deliver; reflexivity).
  advance R by (eapply st_delivered; reflexivity).
  advance R by (eapply st_prune; reflexivity).
  advance R by (eapply (st_subscribe _ 9 7); [by split|by split|reflexivity]).
  match type of R with run _ _ _ ?s ?lg => set (s0 := s) in R; set (lg0 := lg) in R end.
  assert (H : exists first again, lg_entries lg0 = [first; again]) by (do 2 eexists; reflexivity).
  destruct H as (first & again & Hlg). exists s0, lg0, first, again.
  assert (Hin1 : first ∈ lg_entries lg0) by (rewrite Hlg; left).
  assert (Hin2 : again ∈ lg_entries lg0) by (rewrite Hlg; right; left).
  split; [exact R|]. split; [exact Hin1|]. split; [exact Hin2|].
  vm_compute in Hlg. injection Hlg as <- <-. split; [vm_compute; reflexivity|].
  eapply (resume_seamless 4 9 [1; 2; 3; 4; 5]%Z s0 lg0 _ _ _ [6; 7]%Z);
    [lia|by vm_compute|exact R|by vm_compute|exact Hin1|exact Hin2|reflexivity
    |by exists [8]%Z|reflexivity|reflexivity].
Defined.
