(* ===== verification/Store.v ===== *)
(** * The state directory

    [crates/amber-core/src/state.rs]: what the daemon keeps on disk.  Files are a map
    from paths to bytes; every file operation of the code is one of the primitives
    below and takes a [fault] from a schedule: it works, fails before or after its
    effect is visible, or the process dies before or after it.  On them the code's
    own procedures: the journalled rename of a session and its recovery, removal,
    the lifecycle journal, and the stat-keyed cache of parsed files. *)
From S2P Require Import Prelude Utf8.
From S2P Require Import Wire.

(** ** Data *)
Inductive SessionKind := Shell | Claude | Grok | Codex | OpenCode | Hermes | Pi | Muse.

#[export] Instance SessionKind_eq_dec : EqDecision SessionKind.
Proof. solve_decision. Defined.

Definition is_agent (kind : SessionKind) : bool :=
  match kind with
  | Claude | Grok | Codex | OpenCode | Hermes | Pi | Muse => true
  | Shell => false
  end.

Definition as_str (kind : SessionKind) : string :=
  match kind with
  | Shell => "shell" | Claude => "claude" | Grok => "grok" | Codex => "codex"
  | OpenCode => "opencode" | Hermes => "hermes" | Pi => "pi" | Muse => "muse"
  end.

Record SessionMeta := mk_meta {
  sm_name : string;
  sm_cwd : string;
  sm_kind : SessionKind;
  sm_updated : Z;
  sm_title : option string;
  sm_resume_as_claude : bool;
  sm_resume_as_muse : bool;
  sm_run_state : option string;
  sm_slot : Z;
}.

#[export] Instance SessionMeta_eq_dec : EqDecision SessionMeta.
Proof. solve_decision. Defined.

Definition with_name (m : SessionMeta) (name : string) : SessionMeta :=
  mk_meta name (sm_cwd m) (sm_kind m) (sm_updated m) (sm_title m) (sm_resume_as_claude m)
    (sm_resume_as_muse m) (sm_run_state m) (sm_slot m).

Record ClaudeMeta := mk_claude {
  cm_session_id : string;
  cm_cwd : string;
  cm_updated : Z;
  cm_session_file : option string;
  cm_agent_kind : option SessionKind;
}.

Record RenameJournal := mk_journal {
  jn_from : string;
  jn_to : string;
  jn_source : SessionMeta;
}.

(** What is relied on of serde_json: a record is read back from its text. *)
Class StateJson := {
  meta_text : SessionMeta -> list byte;
  read_meta : list byte -> option SessionMeta;
  read_meta_text m : read_meta (meta_text m) = Some m;
  journal_text : RenameJournal -> list byte;
  read_journal : list byte -> option RenameJournal;
  read_journal_text j : read_journal (journal_text j) = Some j;
  claude_text : ClaudeMeta -> list byte;
  read_claude_meta : list byte -> option ClaudeMeta;
  read_claude_text c : read_claude_meta (claude_text c) = Some c;
  events_text : list RecoveryEvent -> list byte;
  read_events : list byte -> option (list RecoveryEvent);
  read_events_text es : read_events (events_text es) = Some es;
}.

(** ** Files *)

(** A directory under the root and a file name. *)
Abbreviation path := (string * string)%type (only parsing).
Abbreviation FS := (gmap (string * string) (list byte)) (only parsing).

Definition session_path (name : string) : path := ("sessions", name +:+ ".json").
Definition claude_path (name : string) : path := ("claude", name +:+ ".json").
Definition claude_settings_path (name : string) : path := ("claude", name +:+ ".settings.json").
Definition scrollback_path (name : string) : path := ("scrollback", name +:+ ".bin").
Definition rename_journal_path : path := ("", "rename.json").
Definition recovery_events_path : path := ("", "recovery-events.json").

Inductive fault := F_ok | F_fail | F_fail_late | F_crash | F_crash_late.

(** A run ends with a result, the files and what is left of the schedule, or dies. *)
Inductive outcome (A : Type) :=
| Done (r : result A string) (fs : FS) (faults : list fault)
| Crashed (fs : FS).
Arguments Done {A} r fs faults.
Arguments Crashed {A} fs.

Definition M (A : Type) : Type := FS -> list fault -> outcome A.

Definition ret {A} (a : A) : M A := fun fs o => Done (Ok a) fs o.
Definition fail {A} (e : string) : M A := fun fs o => Done (Err e) fs o.

Definition mbind {A B} (m : M A) (k : A -> M B) : M B := fun fs o =>
  match m fs o with
  | Done (Ok a) fs' o' => k a fs' o'
  | Done (Err e) fs' o' => Done (Err e) fs' o'
  | Crashed fs' => Crashed fs'
  end.

Notation "x <-! m ; k" := (mbind m (fun x => k))
  (at level 100, m at next level, right associativity) : amber_scope.

(** A result inspected instead of returned with [?]. *)
Definition try {A} (m : M A) : M (result A string) := fun fs o =>
  match m fs o with
  | Done r fs' o' => Done (Ok r) fs' o'
  | Crashed fs' => Crashed fs'
  end.

Definition next (o : list fault) : fault := hd F_ok o.

Definition change (f : FS -> FS) : M unit := fun fs o =>
  match next o with
  | F_ok => Done (Ok tt) (f fs) (tl o)
  | F_fail => Done (Err "io") fs (tl o)
  | F_fail_late => Done (Err "io") (f fs) (tl o)
  | F_crash => Crashed fs
  | F_crash_late => Crashed (f fs)
  end.

(** A failure after the replacement is one of the directory's sync. *)
Definition atomic_write (p : path) (bytes : list byte) : M unit := change (insert p bytes).

(** A missing file is no error. *)
Definition remove_durable (p : path) : M unit := change (delete p).
Definition remove_if_exists (p : path) : M unit := change (delete p).

Definition read (p : path) : M (option (list byte)) := fun fs o =>
  match next o with
  | F_ok => Done (Ok (fs !! p)) fs (tl o)
  | F_fail | F_fail_late => Done (Err "io") fs (tl o)
  | F_crash | F_crash_late => Crashed fs
  end.

Definition exists_ (p : path) : M bool := fun fs o => Done (Ok (bool_decide (is_Some (fs !! p)))) fs o.

Section store.
Context {J : StateJson}.

(** ** Sessions *)

Definition write_session (m : SessionMeta) : M unit := atomic_write (session_path (sm_name m)) (meta_text m).

Definition read_session (name : string) : M (option SessionMeta) :=
  bytes <-! read (session_path name);
  match bytes with
  | None => ret None
  | Some b => match read_meta b with Some m => ret (Some m) | None => fail "malformed session" end
  end.

(** [path.extension() == Some("json")]: a name, a dot and [json]. *)
Definition has_json_extension (file : string) : bool :=
  let l := bytes_of_string file in
  (5 <? length l) && bool_decide (drop (length l - 5) l = bytes_of_string ".json").

Definition session_files (fs : FS) : list path :=
  List.filter (fun p => bool_decide (fst p = "sessions"%string) && has_json_extension (snd p)) (map fst (map_to_list fs)).

(** Files that cannot be read or parsed are skipped. *)
Fixpoint read_sessions (paths : list path) : M (list SessionMeta) :=
  match paths with
  | [] => ret []
  | p :: rest =>
      r <-! try (read p);
      metas <-! read_sessions rest;
      ret (match r with Ok (Some b) => match read_meta b with Some m => m :: metas | None => metas end | _ => metas end)
  end.

(** [read_dir] in some order. *)
Definition list_sessions : M (list SessionMeta) := fun fs o =>
  match next o with
  | F_ok => read_sessions (session_files fs) fs (tl o)
  | F_fail | F_fail_late => Done (Err "io") fs (tl o)
  | F_crash | F_crash_late => Crashed fs
  end.

Definition write_scrollback (name : string) (bytes : list byte) : M unit := atomic_write (scrollback_path name) bytes.
Definition read_scrollback (name : string) : M (option (list byte)) := read (scrollback_path name).

Definition write_claude (name : string) (m : ClaudeMeta) : M unit := atomic_write (claude_path name) (claude_text m).

Definition read_claude (name : string) : M (option ClaudeMeta) :=
  bytes <-! read (claude_path name);
  match bytes with
  | None => ret None
  | Some b => match read_claude_meta b with Some m => ret (Some m) | None => fail "malformed recording" end
  end.

Definition remove_session (name : string) : M unit :=
  _ <-! remove_if_exists (claude_path name);
  _ <-! remove_if_exists (claude_settings_path name);
  _ <-! remove_if_exists (scrollback_path name);
  remove_if_exists (session_path name).

(** ** Renaming *)

Definition copies (from to : string) : list (path * path) :=
  [(claude_path from, claude_path to);
   (claude_settings_path from, claude_settings_path to);
   (scrollback_path from, scrollback_path to)].

Fixpoint any_exists (paths : list path) : M bool :=
  match paths with
  | [] => ret false
  | p :: rest => b <-! exists_ p; if b : bool then ret true else any_exists rest
  end.

(** The loop of [rename_precommit_error], over the paths already reversed. *)
Fixpoint remove_all {A} (error : string) (paths : list path) : M A :=
  match paths with
  | [] => fail error
  | p :: rest =>
      r <-! try (remove_durable p);
      match r with
      | Err rollback => fail (error +:+ "; rename rollback failed: " +:+ rollback)
      | Ok _ => remove_all error rest
      end
  end.

Definition rename_precommit_error {A} (error : string) (destination_paths : list path) : M A :=
  remove_all error (rev destination_paths).

Definition if_exists (p : path) : M (list path) :=
  b <-! exists_ p; ret (if b : bool then [p] else []).

Fixpoint copy_artifacts (pairs : list (path * path)) (created : list path) : M (list path) :=
  match pairs with
  | [] => ret created
  | (old, new) :: rest =>
      r <-! try (read old);
      match r with
      | Err error => rename_precommit_error error created
      | Ok None => copy_artifacts rest created
      | Ok (Some bytes) =>
          w <-! try (atomic_write new bytes);
          match w with
          | Err error => visible <-! if_exists new; rename_precommit_error error (created ++ visible)
          | Ok _ => copy_artifacts rest (created ++ [new])
          end
      end
  end.

(** Removal of the sources; tells whether all of them went. *)
Fixpoint collect_garbage (olds : list path) (cleanup_failed : bool) : M bool :=
  match olds with
  | [] => ret cleanup_failed
  | old :: rest =>
      r <-! try (remove_durable old);
      collect_garbage rest (match r with Ok _ => cleanup_failed | Err _ => true end)
  end.

Definition drop_journal : M unit := _ <-! try (remove_durable rename_journal_path); ret tt.

(** After the destination is published: the commit point and what follows. *)
Definition commit (from to : string) (created : list path) : M unit :=
  r <-! try (remove_durable (session_path from));
  still <-! exists_ (session_path from);
  match r with
  | Err error =>
      if still : bool then rename_precommit_error error (created ++ [session_path to])
      else
        cleanup_failed <-! collect_garbage (map fst (copies from to)) false;
        if cleanup_failed : bool then ret tt else drop_journal
  | Ok _ =>
      cleanup_failed <-! collect_garbage (map fst (copies from to)) false;
      if cleanup_failed : bool then ret tt else drop_journal
  end.

Definition publish (meta : SessionMeta) (from to : string) (created : list path) : M unit :=
  r <-! try (write_session (with_name meta to));
  match r with
  | Err error => visible <-! if_exists (session_path to); rename_precommit_error error (created ++ visible)
  | Ok _ => commit from to created
  end.

Definition rename_session (from to : string) : M unit :=
  m <-! read_session from;
  match m with
  | None => fail "no such session"
  | Some meta =>
      pending <-! exists_ rename_journal_path;
      if pending : bool then fail "another session rename is pending recovery" else
      taken <-! exists_ (session_path to);
      if taken : bool then fail "target session artifact already exists" else
      occupied <-! any_exists (map snd (copies from to));
      if occupied : bool then fail "target session artifact already exists" else
      r <-! try (atomic_write rename_journal_path (journal_text (mk_journal from to meta)));
      match r with
      | Err error => created <-! if_exists rename_journal_path; rename_precommit_error error created
      | Ok _ =>
          created <-! copy_artifacts (copies from to) [rename_journal_path];
          publish meta from to created
      end
  end.

(** ** Recovery *)

(** The bytes a name may not contain. *)
Definition bad_name (name : string) : bool :=
  (String.length name =? 0) || (200 <? String.length name) || (name =? ".")%string || (name =? "..")%string
  || existsb (fun b => (b =? 47) || (b =? 0))%Z (bytes_of_string name).

Definition invalid_journal (j : RenameJournal) : bool :=
  (jn_from j =? jn_to j)%string || negb (sm_name (jn_source j) =? jn_from j)%string
  || bad_name (jn_from j) || bad_name (jn_to j).

Definition differs (found : option SessionMeta) (expected : SessionMeta) : bool :=
  match found with Some m => negb (bool_decide (m = expected)) | None => false end.

(** Every artifact is tried; the first error is the answer. *)
Fixpoint cleanup_paths (paths : list path) (first_error : option string) : M unit :=
  match paths with
  | [] => match first_error with None => ret tt | Some e => fail e end
  | p :: rest =>
      r <-! try (remove_durable p);
      cleanup_paths rest (match r, first_error with Err e, None => Some e | _, _ => first_error end)
  end.

Definition cleanup_rename_artifacts (name : string) : M unit :=
  cleanup_paths [claude_path name; claude_settings_path name; scrollback_path name] None.

Definition finish_recovery : M bool :=
  r <-! try (remove_durable rename_journal_path);
  match r with Ok _ => ret true | Err _ => ret false end.

Definition cleanup_then_finish (name : string) : M bool :=
  r <-! try (cleanup_rename_artifacts name);
  match r with Err _ => ret false | Ok _ => finish_recovery end.

Definition recover_pending_rename : M bool :=
  bytes <-! read rename_journal_path;
  match bytes with
  | None => ret true
  | Some b =>
      match read_journal b with
      | None => fail "malformed journal"
      | Some j =>
          if invalid_journal j then fail "invalid pending rename journal" else
          from <-! read_session (jn_from j);
          to <-! read_session (jn_to j);
          if differs from (jn_source j) || differs to (with_name (jn_source j) (jn_to j)) then
            fail "pending rename metadata does not match its journal"
          else
          match from, to with
          | _, Some _ =>
              r <-! try (remove_durable (session_path (jn_from j)));
              match r with
              | Err error =>
                  left <-! read_session (jn_from j);
                  match left with
                  | Some _ => fail error
                  | None => cleanup_then_finish (jn_from j)
                  end
              | Ok _ => cleanup_then_finish (jn_from j)
              end
          | Some _, None => cleanup_then_finish (jn_to j)
          | None, None => fail "pending rename has no session metadata"
          end
      end
  end.

(** ** The lifecycle journal *)
Definition RECOVERY_EVENT_CAP : nat := 500.
Definition RECOVERY_DETAIL_CAP : nat := 512.

(** [chars().take(n).collect()] *)
Fixpoint take_chars (n : nat) (l : list byte) : list byte :=
  match n with
  | O => []
  | S n' =>
      match decode_char l with
      | Some (_, rest) => take (length l - length rest) l ++ take_chars n' rest
      | None => []
      end
  end.

Definition clip (n : nat) (s : string) : string := string_of_bytes (take_chars n (bytes_of_string s)).

Definition next_sequence (events : list RecoveryEvent) : Z :=
  match last events with
  | None => 1
  | Some previous => Z.max ((re_sequence previous + 1) mod 2 ^ 64) 1
  end.

Definition sanitize (event : RecoveryEvent) (sequence : Z) : RecoveryEvent :=
  mk_recovery_event (re_at event) sequence
    (if (re_level event =? "warning")%string || (re_level event =? "error")%string then re_level event else "info")
    (clip 80 (re_event event)) (clip 200 <$> re_session event) (clip RECOVERY_DETAIL_CAP (re_detail event)) (re_code event).

Definition load_events : M (list RecoveryEvent) :=
  bytes <-! read recovery_events_path;
  match bytes with
  | None => ret []
  | Some b => match read_events b with Some events => ret events | None => fail "malformed journal" end
  end.

Definition append_recovery_event (event : RecoveryEvent) : M RecoveryEvent :=
  events <-! load_events;
  let event := sanitize event (next_sequence events) in
  let events := events ++ [event] in
  let events := drop (length events - RECOVERY_EVENT_CAP) events in
  _ <-! atomic_write recovery_events_path (events_text events);
  ret event.

Definition list_recovery_events (limit : Z) : M (list RecoveryEvent) :=
  events <-! load_events;
  let limit := if (limit =? 0)%Z then 200 else Nat.min (Z.to_nat limit) RECOVERY_EVENT_CAP in
  ret (drop (length events - limit) events).

Definition clear_recovery_events : M unit := atomic_write recovery_events_path (events_text []).
End store.

(** ** The cache of parsed files

    [FileCache::get] looks at the file's stamp, answers from the cache when it is the
    cached one, and otherwise loads the file and remembers the value under the stamp
    seen before. *)
Record FileStamp := mk_stamp {
  st_modified : option Z;
  st_len : Z;
  st_device : Z;
  st_inode : Z;
}.

#[export] Instance FileStamp_eq_dec : EqDecision FileStamp.
Proof. solve_decision. Defined.

Section cache.
Context {T : Type}.

Abbreviation FileCache := (gmap path (FileStamp * T)) (only parsing).

Definition cached (cache : FileCache) (p : path) (stamp : option FileStamp) : option T :=
  match stamp, cache !! p with
  | Some s, Some (cached_stamp, value) => if decide (cached_stamp = s) then Some value else None
  | _, _ => None
  end.

Definition remember (cache : FileCache) (p : path) (stamp : option FileStamp) (loaded : result (option T) string)
  : FileCache :=
  match loaded with
  | Err _ => cache
  | Ok value =>
      match stamp, value with
      | Some s, Some v => <[p := (s, v)]> cache
      | _, _ => delete p cache
      end
  end.

(** [get] on a cache that changes between its two critical sections. *)
Definition get (before after : FileCache) (p : path) (stamp : option FileStamp) (loaded : result (option T) string)
  : result (option T) string * FileCache :=
  match cached before p stamp with
  | Some value => (Ok (Some value), before)
  | None => (loaded, remember after p stamp loaded)
  end.

(** What each path is at each moment: absent, or a file with a stamp that parses to
    a value or does not. *)
Context (file : path -> nat -> option (FileStamp * option T)).

Definition stat_at (p : path) (t : nat) : option FileStamp := fst <$> file p t.

Definition load_at (p : path) (t : nat) : result (option T) string :=
  match file p t with
  | None => Ok None
  | Some (_, Some v) => Ok (Some v)
  | Some (_, None) => Err "malformed"
  end.

(** Writers replace files, so a stamp once gone does not come back. *)
Definition stamps_identify : Prop :=
  forall p i j k s, i <= j -> j <= k -> stat_at p i = Some s -> stat_at p k = Some s -> file p j = file p i.

(** The caches at each moment under any concurrent calls, a call's stat and load
    lying before its store. *)
Inductive cache_at : nat -> FileCache -> Prop :=
| ca_new : cache_at 0 ∅
| ca_wait t t' cache : t <= t' -> cache_at t cache -> cache_at t' cache
| ca_store t cache p t_stat t_load :
    cache_at t cache -> t_stat <= t_load -> t_load <= t ->
    cache_at t (remember cache p (stat_at p t_stat) (load_at p t_load)).

Lemma cache_at_entry t cache p s v :
  cache_at t cache -> cache !! p = Some (s, v) ->
  exists i j, i <= j /\ j <= t /\ stat_at p i = Some s /\ load_at p j = Ok (Some v).
Proof.
  intros Hc. revert p s v. induction Hc as [|t t' cache Hle _ IH|t cache q t1 t3 _ IH H1 H2]; intros p s v He.
  - by rewrite lookup_empty in He.
  - destruct (IH p s v He) as (i & j & ? & ? & ? & ?). exists i, j. split_and!; [lia|lia|done|done].
  - unfold remember in He. destruct (load_at q t3) as [[w|]|e] eqn:Hl; [| |by apply (IH p s v)].
    + destruct (stat_at q t1) as [s1|] eqn:Hs.
      * destruct (decide (p = q)) as [->|Hne].
        -- rewrite lookup_insert_eq in He. injection He as <- <-. by exists t1, t3.
        -- rewrite lookup_insert_ne in He by done. by apply (IH p s v).
      * apply lookup_delete_Some in He as [_ He]. by apply (IH p s v).
    + assert (He' : delete q cache !! p = Some (s, v)) by (by destruct (stat_at q t1)).
      apply lookup_delete_Some in He' as [_ He']. by apply (IH p s v).
Qed.

End cache.

(** ** A codec for examples

    One number per record. *)
#[export] Instance SessionKind_countable : Countable SessionKind.
Proof.
  refine (inj_countable' (fun k => match k with Shell => 0 | Claude => 1 | Grok => 2 | Codex => 3 | OpenCode => 4
    | Hermes => 5 | Pi => 6 | Muse => 7 end) (fun n => match n with 0 => Shell | 1 => Claude | 2 => Grok | 3 => Codex
    | 4 => OpenCode | 5 => Hermes | 6 => Pi | _ => Muse end) _). by intros [].
Defined.

#[export] Instance SessionMeta_countable : Countable SessionMeta.
Proof.
  refine (inj_countable' (fun m => (sm_name m, sm_cwd m, sm_kind m, sm_updated m, sm_title m, sm_resume_as_claude m,
      sm_resume_as_muse m, sm_run_state m, sm_slot m))
    (fun '(a, b, c, d, e, f, g, h, i) => mk_meta a b c d e f g h i) _). by intros [].
Defined.

#[export] Instance ClaudeMeta_eq_dec : EqDecision ClaudeMeta.
Proof. solve_decision. Defined.

#[export] Instance ClaudeMeta_countable : Countable ClaudeMeta.
Proof.
  refine (inj_countable' (fun c => (cm_session_id c, cm_cwd c, cm_updated c, cm_session_file c, cm_agent_kind c))
    (fun '(a, b, c, d, e) => mk_claude a b c d e) _). by intros [].
Defined.

Definition number_text {A : Type} `{Countable A} (x : A) : list byte := [Z.pos (encode x)].
Definition number_read {A : Type} `{Countable A} (l : list byte) : option A :=
  match l with [Zpos p] => decode p | _ => None end.

Definition event_numbers (e : RecoveryEvent) : list byte :=
  [re_at e; re_sequence e; Zpos (encode (re_level e)); Zpos (encode (re_event e)); Zpos (encode (re_session e));
   Zpos (encode (re_detail e)); Zpos (encode (re_code e))].

Fixpoint event_numbers_read (l : list byte) : option (list RecoveryEvent) :=
  match l with
  | [] => Some []
  | a :: s :: Zpos l1 :: Zpos l2 :: Zpos l3 :: Zpos l4 :: Zpos l5 :: rest =>
      level ← decode l1; event ← decode l2; session ← decode l3; detail ← decode l4; code ← decode l5;
      events ← event_numbers_read rest;
      Some (mk_recovery_event a s level event session detail code :: events)
  | _ => None
  end.

Lemma event_numbers_roundtrip es : event_numbers_read (concat (map event_numbers es)) = Some es.
Proof.
  induction es as [|[a s l e n d c] es IH]; [done|]. cbn [map concat event_numbers app event_numbers_read
    re_at re_sequence re_level re_event re_session re_detail re_code]. rewrite !decode_encode. simpl. by rewrite IH.
Qed.

Definition numbered : StateJson.
Proof.
  refine {| meta_text := number_text; read_meta := number_read;
    journal_text j := number_text (jn_from j, jn_to j, jn_source j);
    read_journal l := (fun '(a, b, c) => mk_journal a b c) <$> number_read l;
    claude_text := number_text; read_claude_meta := number_read;
    events_text es := concat (map event_numbers es); read_events := event_numbers_read |}.
  - intros m. apply decode_encode.
  - intros [a b c]. unfold number_read, number_text. by rewrite decode_encode.
  - intros c. apply decode_encode.
  - intros es. apply event_numbers_roundtrip.
Defined.

(** ** Names

    [validate_session_name] of [crates/amber/src/platform.rs]: what may become a file
    name here. *)
Definition name_byte (b : byte) : bool :=
  between 97 122 b || between 65 90 b || between 48 57 b || (b =? 45)%Z || (b =? 95)%Z || (b =? 46)%Z.

Definition to_ascii_uppercase (l : list byte) : list byte := map (fun b => if between 97 122 b then (b - 32)%Z else b) l.

(** [split('.').next()] *)
Fixpoint before_dot (l : list byte) : list byte :=
  match l with
  | [] => []
  | b :: l' => if (b =? 46)%Z then [] else b :: before_dot l'
  end.

Definition is_single_device_number (number : list byte) : bool :=
  match number with [b] => between 49 57 b | _ => false end.

Definition strip_prefix (prefix l : list byte) : option (list byte) :=
  if bool_decide (take (length prefix) l = prefix) then Some (drop (length prefix) l) else None.

Definition reserved_device_name (name : string) : bool :=
  let base := to_ascii_uppercase (before_dot (bytes_of_string name)) in
  bool_decide (base ∈ map bytes_of_string ["CON"; "PRN"; "AUX"; "NUL"]%string)
  || match strip_prefix (bytes_of_string "COM") base with Some n => is_single_device_number n | None => false end
  || match strip_prefix (bytes_of_string "LPT") base with Some n => is_single_device_number n | None => false end.

Definition ends_with_dot_or_space (l : list byte) : bool :=
  match last l with Some b => (b =? 46)%Z || (b =? 32)%Z | None => false end.

Definition validate_session_name (name : string) : result unit string :=
  let bytes := bytes_of_string name in
  if (length bytes =? 0) || (200 <? length bytes) || existsb (fun b => negb (name_byte b)) bytes then
    Err "invalid session name"
  else if ends_with_dot_or_space bytes || reserved_device_name name then Err "invalid portable session name"
  else Ok tt.

Lemma append_inj (x y s : string) : x +:+ s = y +:+ s -> x = y.
Proof.
  intros H. apply (f_equal bytes_of_string) in H. rewrite !bytes_of_string_app in H.
  apply app_inv_tail in H. by apply (inj bytes_of_string).
Qed.

Lemma append_assoc (x y z : string) : (x +:+ y) +:+ z = x +:+ (y +:+ z).
Proof.
  induction x as [|c x IH]; [reflexivity|].
  change (String c ((x +:+ y) +:+ z) = String c (x +:+ (y +:+ z))). by rewrite IH.
Qed.

Lemma settings_path_is (x : string) : claude_settings_path x = claude_path (x +:+ ".settings").
Proof. unfold claude_settings_path, claude_path. rewrite append_assoc. reflexivity. Qed.

(** A valid name has none of the bytes the rename journal refuses. *)
Lemma validate_good name : validate_session_name name = Ok tt -> bad_name name = false.
Proof.
  unfold validate_session_name, bad_name. rewrite <- length_bytes_of_string. intros H.
  destruct (_ || _ || _) eqn:H1 in H; [done|]. destruct (_ || _) eqn:H2 in H; [done|].
  apply orb_false_iff in H1 as [[H1 H3]%orb_false_iff H4]. apply orb_false_iff in H2 as [H2 _].
  rewrite H1, H3. simpl.
  assert (Hb : existsb (fun b => (b =? 47) || (b =? 0))%Z (bytes_of_string name) = false).
  { apply not_true_is_false. intros (b & Hin & Hb)%existsb_exists.
    assert (Hn : name_byte b = true).
    { apply negb_false_iff. destruct (negb (name_byte b)) eqn:Hnb; [|done].
      assert (Hx : existsb (fun b => negb (name_byte b)) (bytes_of_string name) = true)
        by (apply existsb_exists; by exists b). congruence. }
    apply orb_true_iff in Hb. unfold name_byte, between in Hn.
    destruct Hb as [Hb%Z.eqb_eq|Hb%Z.eqb_eq]; subst b; vm_compute in Hn; discriminate. }
  rewrite Hb, orb_false_r. apply orb_false_iff. split; apply String.eqb_neq; intros ->; vm_compute in H2; discriminate.
Qed.

Lemma before_dot_dot l k : before_dot (l ++ 46%Z :: k) = before_dot l.
Proof. induction l as [|b l IH]; simpl; [done|]. destruct (b =? 46)%Z; [done|]. by rewrite IH. Qed.

Lemma before_dot_settings l : before_dot (l ++ bytes_of_string ".settings") = before_dot l.
Proof. apply before_dot_dot. Qed.

Lemma validate_settings name :
  validate_session_name name = Ok tt -> length (bytes_of_string name) <= 191 ->
  validate_session_name (name +:+ ".settings") = Ok tt.
Proof.
  unfold validate_session_name, reserved_device_name. rewrite bytes_of_string_app, before_dot_settings.
  intros H Hlen. destruct (_ || _ || existsb _ _) eqn:H1 in H; [done|].
  apply orb_false_iff in H1 as [[H1 H3]%orb_false_iff H4].
  rewrite existsb_app, H4, length_app. cbn [length bytes_of_string].
  replace (length (bytes_of_string name) + 9 =? 0) with false by (symmetry; apply Nat.eqb_neq; lia).
  replace (200 <? length (bytes_of_string name) + 9) with false by (symmetry; apply Nat.ltb_ge; lia).
  unfold ends_with_dot_or_space in *. rewrite last_app. simpl.
  by destruct (match last _ with Some _ => _ | None => _ end).
Qed.

(** ** Removal

    The metadata goes last: as long as an artifact is there, so is the record a
    retry finds the session by. *)
Section removal.
Context {J : StateJson}.

Definition files_of (name : string) : list path :=
  [claude_path name; claude_settings_path name; scrollback_path name; session_path name].

(** What the directory can hold during a removal: the files a prefix of the list
    has been removed of. *)
Definition removed_up_to (paths : list path) (n : nat) (fs0 : FS) : FS :=
  foldl (fun fs p => delete p fs) fs0 (take n paths).

Definition final_files {A : Type} (out : outcome A) : FS := match out with Done _ fs _ | Crashed fs => fs end.

Fixpoint remove_paths (paths : list path) : M unit :=
  match paths with [] => ret tt | p :: rest => _ <-! remove_if_exists p; remove_paths rest end.

Lemma remove_session_paths name fs o : remove_session name fs o = remove_paths (files_of name) fs o.
Proof.
  unfold remove_session, files_of, remove_paths, mbind, ret, remove_if_exists.
  repeat (destruct (change _ _ _) as [[[]|]|]; [|done..]). done.
Qed.

Lemma remove_paths_prefix paths fs0 o :
  exists n, n <= length paths /\ final_files (remove_paths paths fs0 o) = removed_up_to paths n fs0
    /\ (forall fs o', remove_paths paths fs0 o = Done (Ok tt) fs o' -> n = length paths).
Proof.
  revert fs0 o. induction paths as [|p paths IH]; intros fs0 o; [by exists 0|].
  simpl. unfold mbind, remove_if_exists, change.
  destruct (next o).
  1:{ destruct (IH (delete p fs0) (tl o)) as (n & H1 & H2 & H3). exists (S n). split; [lia|].
      split; [exact H2|]. intros fs o' H. f_equal. by eapply H3. }
  all: first [by exists 0; split; [lia|]|by exists 1; split; [lia|]].
Qed.

(** Removing a session with any failures and crashes removes a prefix of its
    files, the metadata last, and all of them when it reports success. *)
Theorem remove_session_ordered (name : string) (fs0 : FS) (schedule : list fault) :
  let out := remove_session name fs0 schedule in
  exists n, n <= 4 /\ final_files out = removed_up_to (files_of name) n fs0
    /\ (forall fs o, out = Done (Ok tt) fs o -> n = 4).
Proof. intros out. unfold out. rewrite remove_session_paths. apply (remove_paths_prefix (files_of name)). Qed.

(** The settings file of a session called [x] is the resume record of one called
    [x.settings], and both are names a session may have: removing [x] deletes the
    other's record. *)
Theorem remove_takes_neighbour (name : string) (fs : FS)
    (Hvalid : validate_session_name name = Ok tt) (Hlen : length (bytes_of_string name) <= 191) :
  validate_session_name (name +:+ ".settings") = Ok tt
  /\ exists fs', remove_session name fs [] = Done (Ok tt) fs' []
       /\ fs' !! claude_path (name +:+ ".settings") = None
       /\ fs' !! session_path (name +:+ ".settings") = fs !! session_path (name +:+ ".settings").
Proof.
  split; [by apply validate_settings|]. eexists. split; [reflexivity|].
  rewrite <- settings_path_is. split.
  - rewrite !lookup_delete_ne by (unfold session_path, scrollback_path, claude_settings_path; intros [=]).
    apply lookup_delete_eq.
  - assert (Hne : session_path name <> session_path (name +:+ ".settings")).
    { intros H. injection H as H%append_inj. apply (f_equal (fun s => length (bytes_of_string s))) in H.
      rewrite bytes_of_string_app, length_app in H. simpl in H. lia. }
    by rewrite !lookup_delete_ne by (unfold session_path, claude_path, scrollback_path, claude_settings_path in *; congruence).
Qed.

Lemma remove_takes_neighbour_witness :
  exists fs', remove_session "s1" {[claude_path "s1.settings" := [7%Z]]} [] = Done (Ok tt) fs' []
    /\ fs' !! claude_path "s1.settings" = None.
Proof.
  destruct (remove_takes_neighbour "s1" {[claude_path "s1.settings" := [7%Z]]}) as (_ & fs' & H1 & H2 & _);
    [reflexivity|vm_compute; lia|]. by exists fs'.
Defined.
End removal.

(** ** The lifecycle journal keeps the newest events *)
Section journal.
Context {J : StateJson}.

Fixpoint numbered_from (k : Z) (events : list RecoveryEvent) : list RecoveryEvent :=
  match events with [] => [] | e :: rest => sanitize e k :: numbered_from (k + 1) rest end.

(** The file after the events [kept] took effect. *)
Definition holds_events (kept : list RecoveryEvent) (fs : FS) : Prop :=
  fs !! recovery_events_path = Some (events_text (lastn RECOVERY_EVENT_CAP (numbered_from 1 kept)))
  \/ kept = [] /\ fs !! recovery_events_path = None.

(** Appends one after the other, each under its own schedule: what is left, and the
    events reported as written. *)
Fixpoint append_each (calls : list (RecoveryEvent * list fault)) (fs : FS) : FS * list RecoveryEvent :=
  match calls with
  | [] => (fs, [])
  | (e, o) :: rest =>
      let out := append_recovery_event e fs o in
      let '(fs', written) := append_each rest (final_files out) in
      (fs', match out with Done (Ok _) _ _ => e :: written | _ => written end)
  end.

Lemma length_numbered_from k es : length (numbered_from k es) = length es.
Proof. revert k. induction es as [|e es IH]; intros k; simpl; [done|]. by rewrite IH. Qed.

Lemma numbered_from_snoc k es e :
  numbered_from k (es ++ [e]) = numbered_from k es ++ [sanitize e (k + Z.of_nat (length es))].
Proof.
  revert k. induction es as [|e' es IH]; intros k; simpl.
  - by rewrite Z.add_0_r.
  - rewrite IH. by replace (k + Z.of_nat (S (length es)))%Z with (k + 1 + Z.of_nat (length es))%Z by lia.
Qed.

Lemma last_lastn {A : Type} n (l : list A) : 0 < n -> last (lastn n l) = last l.
Proof.
  intros Hn. unfold lastn. destruct l as [|x l] using rev_ind; [by rewrite drop_nil|].
  rewrite length_app. simpl. rewrite drop_app_le by lia. by rewrite !last_snoc.
Qed.

Lemma next_sequence_kept kept :
  (Z.of_nat (length kept) < u64_max)%Z ->
  next_sequence (lastn RECOVERY_EVENT_CAP (numbered_from 1 kept)) = (1 + Z.of_nat (length kept))%Z.
Proof.
  intros Hlen. unfold next_sequence. rewrite last_lastn by (unfold RECOVERY_EVENT_CAP; lia).
  destruct kept as [|e kept _] using rev_ind; [done|].
  rewrite numbered_from_snoc, last_snoc. cbn [sanitize re_sequence].
  rewrite length_app in *. unfold u64_max in Hlen. simpl length in *.
  rewrite Z.mod_small by lia. lia.
Qed.

Lemma load_events_kept kept fs o :
  holds_events kept fs ->
  load_events fs o = Done (Ok (lastn RECOVERY_EVENT_CAP (numbered_from 1 kept))) fs (tl o)
  \/ load_events fs o = Done (Err "io") fs (tl o) \/ load_events fs o = Crashed fs.
Proof.
  intros H. unfold load_events, mbind, read. destruct (next o); auto.
  left. destruct H as [-> |[-> ->]]; [by rewrite read_events_text|done].
Qed.

(** One append takes effect whole or not at all. *)
Lemma append_atomic kept e fs o :
  holds_events kept fs -> (Z.of_nat (length kept) < u64_max)%Z ->
  let out := append_recovery_event e fs o in
  match out with
  | Done (Ok _) fs' _ => holds_events (kept ++ [e]) fs'
  | Done (Err _) fs' _ | Crashed fs' => holds_events kept fs' \/ holds_events (kept ++ [e]) fs'
  end.
Proof.
  intros H Hlen. simpl. unfold append_recovery_event, mbind.
  destruct (load_events_kept kept fs o H) as [-> |[-> | ->]]; [|by left..].
  rewrite (next_sequence_kept kept Hlen).
  set (es := lastn RECOVERY_EVENT_CAP (numbered_from 1 kept)).
  assert (Hnew : forall fs, holds_events (kept ++ [e]) (<[recovery_events_path :=
      events_text (drop (length (es ++ [sanitize e (1 + Z.of_nat (length kept))]) - RECOVERY_EVENT_CAP)
        (es ++ [sanitize e (1 + Z.of_nat (length kept))]))]> fs)).
  { intros fs1. left. rewrite lookup_insert_eq, numbered_from_snoc. do 2 f_equal. apply lastn_app_lastn. }
  unfold atomic_write, change. destruct (next (tl o)); simpl; auto.
Qed.

(** The lifecycle journal after any appends, failed and interrupted ones
    included: it is the newest 500 of the events that took effect, numbered from
    one without gaps; those reported as written are among them; and a listing
    answers with the newest of them. *)
Theorem recovery_journal_newest (calls : list (RecoveryEvent * list fault)) (fs0 : FS)
    (Hempty : fs0 !! recovery_events_path = None) (Hfew : (Z.of_nat (length calls) <= u64_max)%Z) :
  let '(fs, written) := append_each calls fs0 in
  exists kept, sublist written kept /\ sublist kept (map fst calls) /\ holds_events kept fs
    /\ forall limit, (0 < limit <= 500)%Z ->
         list_recovery_events limit fs [] = Done (Ok (lastn (Z.to_nat limit) (numbered_from 1 kept))) fs [].
Proof.
  assert (Hrun : forall kept0, holds_events kept0 fs0 ->
    (Z.of_nat (length kept0) + Z.of_nat (length calls) <= u64_max)%Z ->
    let '(fs, written) := append_each calls fs0 in
    exists kept, sublist written kept /\ sublist kept (map fst calls) /\ holds_events (kept0 ++ kept) fs).
  { clear Hempty Hfew. revert fs0. induction calls as [|[e o] calls IH]; intros fs0 kept0 H Hlen; cbn [append_each].
    - exists []. split_and!; [constructor|constructor|by rewrite app_nil_r].
    - cbn [length] in Hlen. pose proof (append_atomic kept0 e fs0 o H ltac:(lia)) as Ha.
      assert (Hl1 : Z.of_nat (length (kept0 ++ [e])) = (Z.of_nat (length kept0) + 1)%Z) by (rewrite length_app; simpl; lia).
      set (out := append_recovery_event e fs0 o) in *. cbn zeta in Ha.
      assert (Hyes : holds_events (kept0 ++ [e]) (final_files out) ->
        let '(fs, written) := append_each calls (final_files out) in
        exists kept, sublist (e :: written) kept /\ sublist kept (e :: map fst calls) /\ holds_events (kept0 ++ kept) fs).
      { intros Hh. specialize (IH (final_files out) (kept0 ++ [e]) Hh ltac:(lia)).
        destruct (append_each calls (final_files out)) as [fs written]. destruct IH as (kept & H1 & H2 & H3).
        exists (e :: kept). rewrite <- app_assoc in H3. split_and!; [by constructor|by constructor|done]. }
      assert (Hno : holds_events kept0 (final_files out) ->
        let '(fs, written) := append_each calls (final_files out) in
        exists kept, sublist written kept /\ sublist kept (e :: map fst calls) /\ holds_events (kept0 ++ kept) fs).
      { intros Hh. specialize (IH (final_files out) kept0 Hh ltac:(lia)).
        destruct (append_each calls (final_files out)) as [fs written]. destruct IH as (kept & H1 & H2 & H3).
        exists kept. split_and!; [done|by constructor|done]. }
      destruct (append_each calls (final_files out)) as [fs written]. cbn [map fst].
      destruct out as [[ev|err] fs1 o1|fs1]; cbn [final_files] in Hyes, Hno.
      + by apply Hyes.
      + destruct Ha as [Ha|Ha]; [by apply Hno|]. destruct (Hyes Ha) as (kept & H1 & H2 & H3).
        exists kept. split_and!; [|done|done]. etrans; [|exact H1]. by constructor.
      + destruct Ha as [Ha|Ha]; [by apply Hno|]. destruct (Hyes Ha) as (kept & H1 & H2 & H3).
        exists kept. split_and!; [|done|done]. etrans; [|exact H1]. by constructor. }
  specialize (Hrun [] (or_intror (conj eq_refl Hempty)) ltac:(simpl; lia)).
  destruct (append_each calls fs0) as [fs written]. destruct Hrun as (kept & H1 & H2 & H3).
  exists kept. split_and!; [done|done|done|]. intros limit Hl.
  unfold list_recovery_events, mbind. destruct (load_events_kept kept fs [] H3) as [-> |[Hx|Hx]].
  - unfold ret. simpl tl. rewrite (proj2 (Z.eqb_neq _ _)) by lia. do 2 f_equal.
    change (lastn (Nat.min (Z.to_nat limit) RECOVERY_EVENT_CAP) (lastn RECOVERY_EVENT_CAP (numbered_from 1 kept))
      = lastn (Z.to_nat limit) (numbered_from 1 kept)).
    rewrite lastn_lastn. f_equal. unfold RECOVERY_EVENT_CAP. lia.
  - unfold load_events, mbind, read in Hx. simpl in Hx. destruct (fs !! _) as [b|]; [destruct (read_events b)|]; discriminate.
  - unfold load_events, mbind, read in Hx. simpl in Hx. destruct (fs !! _) as [b|]; [destruct (read_events b)|]; discriminate.
Qed.
End journal.

Definition example_event (level : string) : RecoveryEvent := mk_recovery_event 3 0 level "daemon.restore" None "x" None.

(** Three appends, the second of which fails before it is written. *)
Lemma recovery_journal_newest_witness :
  exists fs kept, append_each (J := numbered) [(example_event "info", []); (example_event "bad", [F_ok; F_fail]);
      (example_event "error", [])] ∅ = (fs, [example_event "info"; example_event "error"])
    /\ sublist [example_event "info"; example_event "error"] kept /\ length kept <= 3.
Proof.
  pose proof (recovery_journal_newest (J := numbered) [(example_event "info", []); (example_event "bad", [F_ok; F_fail]);
    (example_event "error", [])] ∅ eq_refl) as H.
  match type of H with _ -> let '(_, _) := ?t in _ => destruct t as [fs written] eqn:E end.
  destruct H as (kept & H1 & H2 & _); [by vm_compute|].
  assert (Hw : written = [example_event "info"; example_event "error"]) by (change written with (snd (fs, written)); rewrite <- E; vm_compute; reflexivity).
  subst written. exists fs, kept. split; [reflexivity|]. split; [exact H1|]. by apply sublist_length in H2.
Defined.

Definition example_stamp (n : Z) : FileStamp := mk_stamp (Some n) 1 0 n.

