(* ===== verification/Rename.v ===== *)
(** * Renaming a session survives crashes

    [StateStore::rename_session] and [recover_pending_rename] of
    [crates/amber-core/src/state.rs], against every schedule of file-system failures
    and crashes: a Hoare logic for [Store.M] with a postcondition for each way a run
    ends, the files a rename works on as keys, and the five states the directory can
    be in while a rename is under way. *)
From S2P Require Import Prelude Wire Store.

(** ** Triples *)

Definition triple {A : Type} (P : FS -> Prop) (m : M A) (Q : A -> FS -> Prop) (E C : FS -> Prop) : Prop :=
  forall fs o, P fs ->
    match m fs o with
    | Done (Ok a) fs' _ => Q a fs'
    | Done (Err _) fs' _ => E fs'
    | Crashed fs' => C fs'
    end.

Section triples.
Implicit Types P E C : FS -> Prop.

Lemma triple_ret {A : Type} P (a : A) (Q : A -> FS -> Prop) E C : (forall fs, P fs -> Q a fs) -> triple P (ret a) Q E C.
Proof. intros H fs o HP. by apply H. Qed.

Lemma triple_fail {A : Type} P (e : string) (Q : A -> FS -> Prop) E C : (forall fs, P fs -> E fs) -> triple P (fail e) Q E C.
Proof. intros H fs o HP. by apply H. Qed.

Lemma triple_bind {A B : Type} P (m : M A) (k : A -> M B) (R : A -> FS -> Prop) (Q : B -> FS -> Prop) E C :
  triple P m R E C -> (forall a, triple (R a) (k a) Q E C) -> triple P (mbind m k) Q E C.
Proof.
  intros Hm Hk fs o HP. unfold mbind. specialize (Hm fs o HP).
  destruct (m fs o) as [[a|e] fs' o'|fs']; [by apply Hk|done|done].
Qed.

Lemma triple_try {A : Type} P (m : M A) (Q : A -> FS -> Prop) E C E' :
  triple P m Q E C -> triple P (try m) (fun r fs => match r with Ok a => Q a fs | Err _ => E fs end) E' C.
Proof.
  intros Hm fs o HP. unfold try. specialize (Hm fs o HP). by destruct (m fs o) as [[a|e] fs' o'|fs'].
Qed.

Lemma triple_weaken {A : Type} P P' (m : M A) (Q Q' : A -> FS -> Prop) E E' C C' :
  triple P' m Q' E' C' -> (forall fs, P fs -> P' fs) -> (forall a fs, Q' a fs -> Q a fs) ->
  (forall fs, E' fs -> E fs) -> (forall fs, C' fs -> C fs) -> triple P m Q E C.
Proof.
  intros Hm H1 H2 H3 H4 fs o HP. specialize (Hm fs o (H1 fs HP)).
  destruct (m fs o) as [[a|e] fs' o'|fs']; auto.
Qed.

Lemma triple_pre {A : Type} P P' (m : M A) (Q : A -> FS -> Prop) E C :
  (forall fs, P fs -> P' fs) -> triple P' m Q E C -> triple P m Q E C.
Proof. intros H Hm. by eapply triple_weaken. Qed.

(** The value of a condition on the files at the start. *)
Lemma triple_case {A : Type} P (m : M A) (Q : A -> FS -> Prop) E C : (forall fs0, P fs0 -> triple (fun fs => fs = fs0) m Q E C) -> triple P m Q E C.
Proof. intros H fs o HP. by apply (H fs HP). Qed.

Lemma triple_exists {B : Type} P (p : path) (k : bool -> M B) (Q : B -> FS -> Prop) E C :
  triple (fun fs => P fs /\ is_Some (fs !! p)) (k true) Q E C ->
  triple (fun fs => P fs /\ fs !! p = None) (k false) Q E C ->
  triple P (mbind (exists_ p) k) Q E C.
Proof.
  intros Ht Hf fs o HP. unfold mbind, exists_. destruct (fs !! p) as [b|] eqn:Hp.
  - rewrite bool_decide_true by eauto. apply Ht. eauto.
  - rewrite bool_decide_false by (intros [? [=]]). apply Hf. eauto.
Qed.

Lemma triple_read {B : Type} P (p : path) (k : option (list byte) -> M B) (Q : B -> FS -> Prop) E C :
  (forall v, triple (fun fs => P fs /\ fs !! p = v) (k v) Q E C) ->
  (forall fs, P fs -> E fs) -> (forall fs, P fs -> C fs) -> triple P (mbind (read p) k) Q E C.
Proof.
  intros Hk HE HC fs o HP. unfold mbind, read. destruct (next o); auto. by apply (Hk (fs !! p)).
Qed.

(** A change happens, or fails, or the process dies, before or after its effect. *)
Lemma triple_change P (f : FS -> FS) (Q : unit -> FS -> Prop) (E C : FS -> Prop) :
  (forall fs, P fs -> Q tt (f fs) /\ E fs /\ E (f fs) /\ C fs /\ C (f fs)) -> triple P (change f) Q E C.
Proof. intros H fs o HP. specialize (H fs HP). unfold change. destruct (next o); tauto. Qed.

Lemma triple_try_change {B : Type} P (f : FS -> FS) (k : result unit string -> M B) (Q : B -> FS -> Prop) E C :
  triple (fun fs => exists fs', P fs' /\ fs = f fs') (k (Ok tt)) Q E C ->
  (forall e, triple (fun fs => P fs \/ exists fs', P fs' /\ fs = f fs') (k (Err e)) Q E C) ->
  (forall fs, P fs -> C fs /\ C (f fs)) -> triple P (mbind (try (change f)) k) Q E C.
Proof.
  intros Hok Herr HC fs o HP. specialize (HC fs HP). unfold mbind, try, change.
  destruct (next o); try tauto; [apply Hok|apply Herr|apply Herr]; eauto.
Qed.

Lemma triple_try_read {B : Type} P (p : path) (k : result (option (list byte)) string -> M B) (Q : B -> FS -> Prop) E C :
  (forall v, triple (fun fs => P fs /\ fs !! p = v) (k (Ok v)) Q E C) -> (forall e, triple P (k (Err e)) Q E C) ->
  (forall fs, P fs -> C fs) -> triple P (mbind (try (read p)) k) Q E C.
Proof.
  intros Hk HE HC fs o HP. unfold mbind, try, read. destruct (next o); auto; [by apply (Hk (fs !! p))|by apply HE..].
Qed.

Lemma triple_if_exists {B : Type} P (p : path) (k : list path -> M B) (Q : B -> FS -> Prop) E C :
  triple (fun fs => P fs /\ is_Some (fs !! p)) (k [p]) Q E C ->
  triple (fun fs => P fs /\ fs !! p = None) (k []) Q E C ->
  triple P (mbind (if_exists p) k) Q E C.
Proof.
  intros Ht Hf fs o HP. unfold mbind, if_exists, mbind, exists_, ret. destruct (fs !! p) as [b|] eqn:Hp.
  - rewrite bool_decide_true by eauto. apply Ht. eauto.
  - rewrite bool_decide_false by (intros [? [=]]). apply Hf. eauto.
Qed.
End triples.

Lemma triple_error {A : Type} (P : FS -> Prop) (m : M A) (E C : FS -> Prop) (Q : A -> FS -> Prop) :
  triple P m (fun _ _ => False) E C -> triple P m Q E C.
Proof. intros H. eapply triple_weaken; [exact H|..]; done. Qed.

(** ** The files of a rename *)
Inductive artifact := A_claude | A_settings | A_scrollback.
Inductive side := From | To.
Inductive key := K_journal | K_meta (s : side) | K_art (a : artifact) (s : side).

#[export] Instance artifact_eq_dec : EqDecision artifact.
Proof. solve_decision. Defined.
#[export] Instance side_eq_dec : EqDecision side.
Proof. solve_decision. Defined.
#[export] Instance key_eq_dec : EqDecision key.
Proof. solve_decision. Defined.

Definition artifact_path (a : artifact) : string -> path :=
  match a with A_claude => claude_path | A_settings => claude_settings_path | A_scrollback => scrollback_path end.

(** Names whose artifacts are different files: a session called [x.settings] shares
    one with [x]. *)
Definition apart (x y : string) : Prop := x <> y /\ x <> y +:+ ".settings" /\ y <> x +:+ ".settings".

Lemma claude_path_inj x y : claude_path x = claude_path y -> x = y.
Proof. intros H. injection H as H. by apply append_inj in H. Qed.

Lemma artifact_path_apart a b x y : apart x y -> artifact_path a x <> artifact_path b y.
Proof.
  intros (H1 & H2 & H3) H.
  destruct a, b; simpl in H; rewrite ?settings_path_is in H; try (by apply (f_equal fst) in H).
  1-4: apply claude_path_inj in H; first [congruence|apply append_inj in H; congruence].
  injection H as H. by apply append_inj in H.
Qed.

Lemma artifact_path_inj a b x : artifact_path a x = artifact_path b x -> a = b.
Proof.
  intros H. destruct a, b; simpl in H; rewrite ?settings_path_is in H; try done;
    try (by apply (f_equal fst) in H); apply claude_path_inj in H; exfalso;
    apply (f_equal (fun s => length (bytes_of_string s))) in H; rewrite bytes_of_string_app, length_app in H;
    simpl in H; lia.
Qed.

Section rename.
Context {J : StateJson}.
Context (from to : string) (meta : SessionMeta) (fs0 : FS).
Hypothesis names_apart : apart from to.
Hypothesis from_good : bad_name from = false.
Hypothesis to_good : bad_name to = false.
Hypothesis meta_name : sm_name meta = from.
Implicit Types fs : FS.

Definition name_of (s : side) : string := match s with From => from | To => to end.

Definition loc (k : key) : path :=
  match k with
  | K_journal => rename_journal_path
  | K_meta s => session_path (name_of s)
  | K_art a s => artifact_path a (name_of s)
  end.

Arguments loc : simpl never.

Lemma loc_inj k k' : loc k = loc k' -> k = k'.
Proof.
  destruct names_apart as (Hne & _ & _).
  destruct k as [|s|a s], k' as [|s'|a' s']; unfold loc; intros H; try done;
    try (by destruct a; apply (f_equal fst) in H); try (by destruct a'; apply (f_equal fst) in H).
  - destruct s, s'; simpl in H; try done; injection H as H; apply append_inj in H; congruence.
  - destruct s, s'; simpl in H.
    + by apply artifact_path_inj in H as ->.
    + by apply artifact_path_apart in H.
    + symmetry in H. by apply artifact_path_apart in H.
    + by apply artifact_path_inj in H as ->.
Qed.

Lemma key_delete fs k k' : delete (loc k) fs !! loc k' = if decide (k = k') then None else fs !! loc k'.
Proof.
  destruct (decide (k = k')) as [->|Hne]; [apply lookup_delete_eq|]. apply lookup_delete_ne. by intros ?%loc_inj.
Qed.

Lemma key_insert fs k k' b : <[loc k := b]> fs !! loc k' = if decide (k = k') then Some b else fs !! loc k'.
Proof.
  destruct (decide (k = k')) as [->|Hne]; [apply lookup_insert_eq|]. apply lookup_insert_ne. by intros ?%loc_inj.
Qed.

(** Everything else stays as it was. *)
Definition frame (fs : FS) : Prop := forall p, (forall k, p <> loc k) -> fs !! p = fs0 !! p.

Lemma frame_delete fs k : frame fs -> frame (delete (loc k) fs).
Proof. intros H p Hp. rewrite lookup_delete_ne by (intros E; by apply (Hp k)). by apply H. Qed.

Lemma frame_insert fs k b : frame fs -> frame (<[loc k := b]> fs).
Proof. intros H p Hp. rewrite lookup_insert_ne by (intros E; by apply (Hp k)). by apply H. Qed.

(** ** The states of the directory *)
Context (mbytes : list byte).
Hypothesis meta_stored : fs0 !! loc (K_meta From) = Some mbytes.
Hypothesis meta_read : read_meta mbytes = Some meta.

Definition arts (a : artifact) : option (list byte) := fs0 !! loc (K_art a From).
Definition journal_bytes : list byte := journal_text (mk_journal from to meta).
Definition published : list byte := meta_text (with_name meta to).

(** A session complete under a name, and what may be left of its artifacts. *)
Definition source_kept (fs : FS) : Prop :=
  fs !! loc (K_meta From) = Some mbytes /\ forall a, fs !! loc (K_art a From) = arts a.
Definition target_made (fs : FS) : Prop :=
  fs !! loc (K_meta To) = Some published /\ forall a, fs !! loc (K_art a To) = arts a.
Definition partly (s : side) (fs : FS) : Prop :=
  forall a, fs !! loc (K_art a s) = None \/ fs !! loc (K_art a s) = arts a.
Definition bare (s : side) (fs : FS) : Prop := forall a, fs !! loc (K_art a s) = None.

Record old_pending (fs : FS) : Prop := mk_old_pending {
  op_frame : frame fs; op_journal : fs !! loc K_journal = Some journal_bytes;
  op_source : source_kept fs; op_target : fs !! loc (K_meta To) = None; op_arts : partly To fs }.
Record old_clean (fs : FS) : Prop := mk_old_clean {
  oc_frame : frame fs; oc_journal : fs !! loc K_journal = None;
  oc_source : source_kept fs; oc_target : fs !! loc (K_meta To) = None; oc_arts : bare To fs }.
Record both (fs : FS) : Prop := mk_both {
  bo_frame : frame fs; bo_journal : fs !! loc K_journal = Some journal_bytes;
  bo_source : source_kept fs; bo_target : target_made fs }.
Record new_pending (fs : FS) : Prop := mk_new_pending {
  np_frame : frame fs; np_journal : fs !! loc K_journal = Some journal_bytes;
  np_source : fs !! loc (K_meta From) = None; np_target : target_made fs; np_arts : partly From fs }.
Record new_clean (fs : FS) : Prop := mk_new_clean {
  nc_frame : frame fs; nc_journal : fs !! loc K_journal = None;
  nc_source : fs !! loc (K_meta From) = None; nc_target : target_made fs; nc_arts : bare From fs }.

(** The old name is authoritative, or the new one. *)
Definition old (fs : FS) : Prop := old_pending fs \/ old_clean fs.
Definition new (fs : FS) : Prop := new_pending fs \/ new_clean fs.

Hint Resolve frame_delete frame_insert : core.

(** Looks every key up in changed files. *)
Ltac keys :=
  repeat match goal with
  | H : _ /\ _ |- _ => destruct H
  | H : old_pending _ |- _ => destruct H
  | H : both _ |- _ => destruct H
  | H : new_pending _ |- _ => destruct H
  | H : source_kept _ |- _ => destruct H
  | H : target_made _ |- _ => destruct H
  end;
  lazymatch goal with
  | |- frame _ => solve [auto]
  | _ => unfold source_kept, target_made, partly, bare in *; repeat split; intros; auto;
         rewrite ?key_delete, ?key_insert; repeat case_decide; simplify_eq; auto
  end.

Local Abbreviation to_path := (fun a => loc (K_art a To)).
Local Abbreviation from_path := (fun a => loc (K_art a From)).

Lemma nothing_left (fs : FS) : (forall a, fs !! loc (K_art a To) <> None -> a ∈ @nil artifact) -> bare To fs.
Proof.
  intros H a. destruct (fs !! loc (K_art a To)) eqn:Ha; [|done].
  assert (Hin : a ∈ @nil artifact) by (apply H; by rewrite Ha). by apply not_elem_of_nil in Hin.
Qed.

Lemma journal_dropped (fs : FS) : old_pending fs -> bare To fs -> old (delete (loc K_journal) fs).
Proof. intros Hop Hb. right. constructor; keys. Qed.

Lemma rollback_old {A : Type} (e : string) (l : list artifact) :
  triple (fun fs => old_pending fs /\ forall a, fs !! loc (K_art a To) <> None -> a ∈ l)
    (@remove_all A e (map to_path l ++ [loc K_journal])) (fun _ _ => False) old old.
Proof.
  induction l as [|a l IH]; simpl.
  - apply triple_try_change.
    + apply triple_fail. intros fs (fs' & [Hop Hl%nothing_left] & ->). by apply journal_dropped.
    + intros r. apply triple_fail. intros fs [[Hop Hl]|(fs' & [Hop Hl%nothing_left] & ->)]; [by left|].
      by apply journal_dropped.
    + intros fs [Hop Hl%nothing_left]. split; [by left|]. by apply journal_dropped.
  - apply triple_try_change.
    + eapply triple_weaken; [exact IH| |done..]. intros fs (fs' & [Hop Hl] & ->). split; [constructor; keys|].
      intros b Hb. rewrite key_delete in Hb. case_decide; [done|].
      apply Hl, elem_of_cons in Hb as [->|]; [congruence|done].
    + intros r. apply triple_fail. intros fs [[Hop Hl]|(fs' & [Hop Hl] & ->)]; left; [done|]. constructor; keys.
    + intros fs [Hop _]. split; left; [done|constructor; keys].
Qed.

Lemma rollback_both {A : Type} (e : string) (l : list artifact) :
  triple (fun fs => both fs /\ forall a, fs !! loc (K_art a To) <> None -> a ∈ l)
    (@remove_all A e (loc (K_meta To) :: map to_path l ++ [loc K_journal]))
    (fun _ _ => False) (fun fs => old fs \/ both fs) (fun fs => old fs \/ both fs).
Proof.
  assert (Hdel : forall fs, both fs -> old_pending (delete (loc (K_meta To)) fs)).
  { intros fs Hb. constructor; keys. }
  apply triple_try_change.
  - eapply triple_weaken; [apply rollback_old| |done|by left|by left]. intros fs (fs' & [Hb Hl] & ->).
    split; [by apply Hdel|]. intros a Ha. rewrite key_delete in Ha. case_decide; [done|]. by apply Hl.
  - intros r. apply triple_fail. intros fs [[Hb _]|(fs' & [Hb _] & ->)]; [by right|left; left; by apply Hdel].
  - intros fs [Hb _]. split; [by right|left; left; by apply Hdel].
Qed.

Lemma rev_created (l : list artifact) (more : list path) :
  rev ((loc K_journal :: map to_path l) ++ more) = rev more ++ map to_path (rev l) ++ [loc K_journal].
Proof. simpl. by rewrite rev_app_distr, map_rev, <- app_assoc. Qed.

(** ** The rename *)
Definition pairs (l : list artifact) : list (path * path) := map (fun a => (loc (K_art a From), loc (K_art a To))) l.

Lemma copies_pairs : copies from to = pairs [A_claude; A_settings; A_scrollback].
Proof. done. Qed.

(** While copying: what is at the destination is listed, and what is not to be copied
    any more is there. *)
Record copying (todo done : list artifact) (fs : FS) : Prop := mk_copying {
  co_old : old_pending fs;
  co_listed : forall a, fs !! loc (K_art a To) <> None -> a ∈ done;
  co_there : forall a, a ∉ todo -> fs !! loc (K_art a To) = arts a }.

Lemma copying_old todo l fs : copying todo l fs -> old fs.
Proof. intros [H _ _]. by left. Qed.

Lemma precommit_old {A : Type} (e : string) (l : list artifact) (P : FS -> Prop) (Q : A -> FS -> Prop) :
  (forall fs, P fs -> old_pending fs /\ forall a, fs !! loc (K_art a To) <> None -> a ∈ l) ->
  triple P (@rename_precommit_error A e (loc K_journal :: map to_path l)) Q old old.
Proof.
  intros HP. apply triple_error. unfold rename_precommit_error.
  rewrite <- (app_nil_r (_ :: _)), rev_created. eapply triple_weaken; [apply rollback_old| |done..].
  intros fs Hfs. destruct (HP fs Hfs) as [H1 H2]. split; [done|]. intros a Ha.
  rewrite list_elem_of_In, <- in_rev, <- list_elem_of_In. by apply H2.
Qed.

Lemma copy_one (a : artifact) todo l fs b :
  copying (a :: todo) l fs -> fs !! loc (K_art a From) = Some b ->
  copying todo (l ++ [a]) (<[loc (K_art a To) := b]> fs).
Proof.
  intros [H1 H2 H3] Hb. assert (Ha : arts a = Some b) by (destruct H1 as [_ _ [_ Hs] _ _]; by rewrite <- Hs).
  constructor.
  - constructor; keys.
  - intros c Hc. rewrite key_insert in Hc. apply elem_of_app. case_decide as Hd; [|left; by apply H2].
    right. injection Hd as ->. by left.
  - intros c Hc. rewrite key_insert. case_decide as Hd; [by injection Hd as <-|].
    apply H3. intros [->|]%elem_of_cons; [congruence|done].
Qed.

Lemma copy_none (a : artifact) todo l fs :
  copying (a :: todo) l fs -> fs !! loc (K_art a From) = None -> copying todo l fs.
Proof.
  intros [H1 H2 H3] Hb. constructor; [done|done|]. intros c Hc.
  destruct (decide (c = a)) as [->|Hne]; [|apply H3; by intros [->|]%elem_of_cons].
  destruct H1 as [_ _ [_ Hs] _ Hp]. rewrite <- Hs, Hb. destruct (Hp a) as [H|H]; [done|].
  by rewrite H, <- Hs.
Qed.

Lemma copy_spec todo l :
  triple (copying todo l) (copy_artifacts (pairs todo) (loc K_journal :: map to_path l))
    (fun created fs => exists l', created = loc K_journal :: map to_path l' /\ copying [] l' fs) old old.
Proof.
  revert l. induction todo as [|a todo IH]; intros l; simpl.
  { apply triple_ret. intros fs H. by exists l. }
  apply triple_try_read.
  - intros [b|].
    + apply triple_try_change.
      * change [loc (K_art a To)] with (map to_path [a]); rewrite <- ?app_comm_cons, <- map_app. eapply triple_weaken; [apply IH| |done..].
        intros fs (fs' & [Hc Hb] & ->). by apply copy_one.
      * intros e. apply triple_if_exists.
        -- change [loc (K_art a To)] with (map to_path [a]); rewrite <- ?app_comm_cons, <- map_app. apply precommit_old.
           intros fs [[[Hc Hb]|(fs' & [Hc Hb] & ->)] _].
           ++ destruct Hc as [H1 H2 _]. split; [done|]. intros c Hc. apply elem_of_app. left. by apply H2.
           ++ destruct (copy_one _ _ _ _ _ Hc Hb) as [H1 H2 _]. by split.
        -- rewrite app_nil_r. apply precommit_old. intros fs [[[Hc Hb]|(fs' & [Hc Hb] & ->)] Hno].
           ++ destruct Hc as [H1 H2 _]. by split.
           ++ rewrite key_insert, decide_True in Hno by done. done.
      * intros fs [Hc Hb]. split; [by eapply copying_old|]. eapply copying_old. by apply copy_one.
    + eapply triple_weaken; [apply IH| |done..]. intros fs [Hc Hb]. by eapply copy_none.
  - intros e. apply precommit_old. intros fs [H1 H2 _]. by split.
  - intros fs Hc. by eapply copying_old.
Qed.

(** What is at the destination is listed. *)
Definition listed (l : list artifact) (fs : FS) : Prop := forall a, fs !! loc (K_art a To) <> None -> a ∈ l.

Lemma commit_point fs : both fs -> new_pending (delete (loc (K_meta From)) fs).
Proof. intros Hb. constructor; keys. Qed.

Lemma precommit_both {A : Type} (e : string) (l : list artifact) (P : FS -> Prop) (Q : A -> FS -> Prop) (C : FS -> Prop) :
  (forall fs, P fs -> both fs /\ listed l fs) -> (forall fs, old fs \/ both fs -> C fs) ->
  triple P (@rename_precommit_error A e ((loc K_journal :: map to_path l) ++ [loc (K_meta To)])) Q
    (fun fs => old fs \/ both fs) C.
Proof.
  intros HP HC. apply triple_error. unfold rename_precommit_error. rewrite rev_created.
  eapply triple_weaken; [apply rollback_both| |done|done|exact HC].
  intros fs Hfs. destruct (HP fs Hfs) as [H1 H2]. split; [done|]. intros a Ha.
  rewrite list_elem_of_In, <- in_rev, <- list_elem_of_In. by apply H2.
Qed.

(** The sources still to be removed are those left. *)
Lemma garbage_spec (l : list artifact) (failed : bool) :
  triple (fun fs => new_pending fs /\ (failed = false -> forall a, a ∉ l -> fs !! loc (K_art a From) = None))
    (collect_garbage (map from_path l) failed)
    (fun failed fs => new_pending fs /\ (failed = false -> bare From fs)) (fun _ => False) new.
Proof.
  assert (Hdel : forall a fs, new_pending fs -> new_pending (delete (loc (K_art a From)) fs)).
  { intros a fs H. constructor; keys. }
  revert failed. induction l as [|a l IH]; intros failed; simpl.
  { apply triple_ret. intros fs [H1 H2]. split; [done|]. intros Hf a. apply H2; [done|]. apply not_elem_of_nil. }
  apply triple_try_change.
  - eapply triple_weaken; [apply IH| |done..]. intros fs (fs' & [H1 H2] & ->). split; [by apply Hdel|].
    intros Hf b Hb. rewrite key_delete. case_decide as Hd; [done|]. apply H2; [done|].
    intros [->|]%elem_of_cons; done.
  - intros e. eapply triple_weaken; [apply IH| |done..].
    intros fs [[H1 H2]|(fs' & [H1 H2] & ->)]; (split; [auto|done]).
  - intros fs [H1 _]. split; left; auto.
Qed.

Lemma drop_journal_spec : triple (fun fs => new_pending fs /\ bare From fs) drop_journal (fun _ => new) (fun _ => False) new.
Proof.
  assert (Hd : forall fs, new_pending fs -> bare From fs -> new (delete (loc K_journal) fs)).
  { intros fs H Hb. right. constructor; keys. }
  apply triple_try_change.
  - apply triple_ret. intros fs (fs' & [H1 H2] & ->). by apply Hd.
  - intros e. apply triple_ret. intros fs [[H1 H2]|(fs' & [H1 H2] & ->)]; [by left|by apply Hd].
  - intros fs [H1 H2]. split; [by left|by apply Hd].
Qed.

Lemma after_commit :
  triple new_pending
    (mbind (collect_garbage (map fst (copies from to)) false) (fun f => if f : bool then ret tt else drop_journal))
    (fun _ => new) (fun _ => False) new.
Proof.
  eapply triple_bind.
  - eapply triple_weaken; [apply (garbage_spec [A_claude; A_settings; A_scrollback] false)| |done..].
    intros fs H. split; [done|]. intros _ a Ha. exfalso. apply Ha. destruct a; set_solver.
  - intros []; simpl.
    + apply triple_ret. intros fs [H _]. by left.
    + eapply triple_weaken; [apply drop_journal_spec| |done..]. intros fs [H1 H2]. auto.
Qed.

(** Where a run may die. *)
Definition anywhere (fs : FS) : Prop := old fs \/ both fs \/ new fs.

Lemma commit_spec l :
  triple (fun fs => both fs /\ listed l fs) (commit from to (loc K_journal :: map to_path l))
    (fun _ => new) (fun fs => old fs \/ both fs) anywhere.
Proof.
  assert (Hafter : forall P, (forall fs, P fs -> new_pending fs) ->
    triple P (mbind (collect_garbage (map fst (copies from to)) false) (fun f => if f : bool then ret tt else drop_journal))
      (fun _ => new) (fun fs => old fs \/ both fs) anywhere).
  { intros P HP. eapply triple_weaken; [apply after_commit|done|done|done|]. unfold anywhere. tauto. }
  apply (triple_try_change _ (delete (loc (K_meta From)))).
  - apply (triple_exists _ (loc (K_meta From))).
    + apply Hafter. intros fs [(fs' & [H _] & ->) _]. by apply commit_point.
    + apply Hafter. intros fs [(fs' & [H _] & ->) _]. by apply commit_point.
  - intros e. apply (triple_exists _ (loc (K_meta From))).
    + apply (precommit_both e l).
      * intros fs [[[H1 H2]|(fs' & [H1 H2] & ->)] Hsome]; [done|].
        rewrite key_delete, decide_True in Hsome by done. by destruct Hsome.
      * unfold anywhere. tauto.
    + apply Hafter. intros fs [[[H1 H2]|(fs' & [H1 H2] & ->)] Hno]; [|by apply commit_point].
      destruct H1 as [_ _ [Hs _] _]. congruence.
  - intros fs [H _]. split; [right; by left|]. right. right. left. by apply commit_point.
Qed.

Lemma publish_both l fs : copying [] l fs -> both (<[loc (K_meta To) := published]> fs).
Proof.
  intros [H _ Ht]. assert (Hall : forall a, fs !! loc (K_art a To) = arts a) by (intros a; apply Ht, not_elem_of_nil).
  constructor; keys.
Qed.

Lemma publish_listed l fs : copying [] l fs -> listed l (<[loc (K_meta To) := published]> fs).
Proof. intros [_ H _] a Ha. rewrite key_insert in Ha. case_decide; [done|]. by apply H. Qed.

Lemma publish_spec l :
  triple (copying [] l) (publish meta from to (loc K_journal :: map to_path l))
    (fun _ => new) (fun fs => old fs \/ both fs) anywhere.
Proof.
  apply (triple_try_change _ (insert (loc (K_meta To)) published)).
  - eapply triple_weaken; [apply (commit_spec l)| |done..]. intros fs (fs' & H & ->).
    split; [by eapply publish_both|by apply publish_listed].
  - intros e. apply (triple_if_exists _ (loc (K_meta To))).
    + apply precommit_both; [|unfold anywhere; tauto]. intros fs [[H|(fs' & H & ->)] Hsome].
      * destruct H as [[_ _ _ Hno _] _ _]. destruct Hsome. congruence.
      * split; [by eapply publish_both|by apply publish_listed].
    + rewrite app_nil_r. eapply triple_weaken; [apply (precommit_old e l (fun fs => old_pending fs /\ listed l fs) (fun _ => new))| |done| |].
      * done.
      * intros fs [[H|(fs' & H & ->)] Hno]; [destruct H as [H1 H2 _]; by split|].
        rewrite key_insert, decide_True in Hno by done. done.
      * by left.
      * by left.
  - intros fs H. split; [left; by eapply copying_old|]. right. left. by eapply publish_both.
Qed.

(** Before a rename: no journal, and nothing under the new name. *)
Record ready : Prop := mk_ready {
  rd_journal : fs0 !! loc K_journal = None;
  rd_target : fs0 !! loc (K_meta To) = None;
  rd_bare : bare To fs0 }.

Lemma ready_old_clean : ready -> old_clean fs0.
Proof. intros [H1 H2 H3]. constructor; try done. Qed.

Lemma ready_pending : ready -> copying [A_claude; A_settings; A_scrollback] [] (<[loc K_journal := journal_bytes]> fs0).
Proof.
  intros Hr. pose proof (ready_old_clean Hr) as [H1 H2 [H3 H4] H5 H6]. destruct Hr as [H7 H8 H9].
  assert (Hb : forall a, <[loc K_journal := journal_bytes]> fs0 !! loc (K_art a To) = None).
  { intros a. rewrite key_insert, decide_False by done. apply H9. }
  constructor.
  - constructor; keys.
  - intros a Ha. by rewrite Hb in Ha.
  - intros a Ha. exfalso. apply Ha. destruct a; set_solver.
Qed.

Lemma any_exists_none fs o l : (forall p, p ∈ l -> fs !! p = None) -> any_exists l fs o = Done (Ok false) fs o.
Proof.
  induction l as [|p l IH]; intros H; simpl; [done|]. unfold mbind, exists_.
  rewrite (H p) by left. rewrite bool_decide_false by (intros [? [=]]). apply IH. intros q Hq. apply H. by right.
Qed.

Lemma journal_spec :
  ready ->
  triple (fun fs => fs = fs0)
    (mbind (try (atomic_write rename_journal_path (journal_text (mk_journal from to meta)))) (fun r =>
      match r with
      | Err error => created <-! if_exists rename_journal_path; rename_precommit_error error created
      | Ok _ =>
          created <-! copy_artifacts (copies from to) [rename_journal_path];
          publish meta from to created
      end))
    (fun _ => new) (fun fs => old fs \/ both fs) anywhere.
Proof.
  intros Hr. pose proof (ready_old_clean Hr) as Hoc. pose proof (ready_pending Hr) as Hcp.
  apply (triple_try_change _ (insert (loc K_journal) journal_bytes)).
  - eapply triple_bind.
    + eapply triple_weaken; [apply (copy_spec [A_claude; A_settings; A_scrollback] [])| |done|by left|by left].
      by intros fs (fs' & -> & ->).
    + intros created. apply triple_case. intros fs1 (l' & -> & Hc).
      eapply triple_weaken; [apply (publish_spec l')| |done..]. by intros fs ->.
  - intros e. apply (triple_if_exists _ (loc K_journal)).
    + eapply triple_weaken; [apply (precommit_old e [] (fun fs => copying [A_claude; A_settings; A_scrollback] [] fs) (fun _ => new))| |done|by left|by left].
      * intros fs [H1 H2 _]. by split.
      * intros fs [[->|(fs' & -> & ->)] Hsome]; [|done]. destruct Hoc as [_ Hno _ _ _]. destruct Hsome. congruence.
    + apply triple_fail. intros fs [[->|(fs' & -> & ->)] Hno]; [left; by right|].
      rewrite key_insert, decide_True in Hno by done. done.
  - intros fs ->. split; [left; by right|]. left. by eapply copying_old.
Qed.

Lemma rename_triple :
  ready -> triple (fun fs => fs = fs0) (rename_session from to) (fun _ => new) (fun fs => old fs \/ both fs) anywhere.
Proof.
  intros Hr. pose proof (ready_old_clean Hr) as Hoc. unfold rename_session.
  eapply (triple_bind _ _ _ (fun m fs => m = Some meta /\ fs = fs0)).
  - unfold read_session. apply (triple_read _ (loc (K_meta From))).
    + intros v fs o [-> Hv]. rewrite meta_stored in Hv. subst v. by rewrite meta_read.
    + intros fs ->. left. by right.
    + intros fs ->. left. by right.
  - intros m fs o [-> ->]. destruct Hr as [H1 H2 H3].
    assert (Hx : forall p o', fs0 !! p = None -> exists_ p fs0 o' = Done (Ok false) fs0 o').
    { intros p o' Hp. unfold exists_. rewrite bool_decide_false; [done|]. rewrite Hp. by intros [? [=]]. }
    unfold mbind at 1. rewrite (Hx _ _ H1). unfold mbind at 1. rewrite (Hx _ _ H2).
    unfold mbind at 1. rewrite any_exists_none.
    + by apply (journal_spec (mk_ready H1 H2 H3)).
    + rewrite copies_pairs. simpl. intros p. rewrite !elem_of_cons, elem_of_nil.
      intros [->|[->|[->|[]]]]; [apply (H3 A_claude)|apply (H3 A_settings)|apply (H3 A_scrollback)].
Qed.

(** ** Recovery

    [s] is the name that loses: the source once the target is published. *)
Definition pending (s : side) (fs : FS) : Prop := match s with To => old_pending fs | From => new_pending fs end.
Definition clean (s : side) (fs : FS) : Prop := match s with To => old_clean fs | From => new_clean fs end.
Definition settled (s : side) (fs : FS) : Prop := pending s fs \/ clean s fs.

Lemma pending_delete s a fs : pending s fs -> pending s (delete (loc (K_art a s)) fs).
Proof. destruct s; simpl; intros H; constructor; keys. Qed.

Lemma pending_finish s fs : pending s fs -> bare s fs -> clean s (delete (loc K_journal) fs).
Proof. destruct s; simpl; intros H Hb; constructor; keys. Qed.

Lemma cleanup_spec s (l : list artifact) (first_error : option string) :
  triple (fun fs => pending s fs /\ (first_error = None -> forall a, a ∉ l -> fs !! loc (K_art a s) = None))
    (cleanup_paths (map (fun a => loc (K_art a s)) l) first_error)
    (fun _ fs => pending s fs /\ bare s fs) (pending s) (settled s).
Proof.
  revert first_error. induction l as [|a l IH]; intros err; simpl.
  - destruct err as [e|]; [by apply triple_fail; intros fs []|].
    apply triple_ret. intros fs [H1 H2]. split; [done|]. intros a. apply H2; [done|apply not_elem_of_nil].
  - apply triple_try_change.
    + eapply triple_weaken; [apply IH| |done..]. intros fs (fs' & [H1 H2] & ->). split; [by apply pending_delete|].
      intros He b Hb. rewrite key_delete. case_decide as Hd; [done|]. apply H2; [by destruct err|].
      intros [->|]%elem_of_cons; done.
    + intros e. eapply triple_weaken; [apply IH| |done..].
      intros fs [[H1 H2]|(fs' & [H1 H2] & ->)]; (split; [by try apply pending_delete|by destruct err]).
    + intros fs [H1 _]. split; left; [done|by apply pending_delete].
Qed.

Lemma cleanup_then_finish_spec s :
  triple (pending s) (cleanup_then_finish (name_of s)) (fun b fs => settled s fs /\ (b = true -> clean s fs))
    (fun _ => False) (settled s).
Proof.
  unfold cleanup_then_finish. eapply triple_bind.
  - eapply (triple_try _ _ _ (pending s)).
    eapply triple_weaken; [apply (cleanup_spec s [A_claude; A_settings; A_scrollback] None)| |done..].
    intros fs H. split; [done|]. intros _ a Ha. exfalso. apply Ha. destruct a; set_solver.
  - intros [[]|e]; simpl.
    + apply triple_try_change.
      * apply triple_ret. intros fs (fs' & [H1 H2] & ->). split; [right|intros _]; by apply pending_finish.
      * intros e. apply triple_ret.
        intros fs [[H1 H2]|(fs' & [H1 H2] & ->)]; (split; [|done]); [by left|right; by apply pending_finish].
      * intros fs [H1 H2]. split; [by left|right; by apply pending_finish].
    + apply triple_ret. intros fs H. split; [by left|done].
Qed.

Lemma read_session_some (P : FS -> Prop) (k : side) b m :
  (forall fs, P fs -> fs !! loc (K_meta k) = Some b) -> read_meta b = Some m ->
  triple P (read_session (name_of k)) (fun r fs => P fs /\ r = Some m) P P.
Proof.
  intros HP Hb. apply (triple_read _ (loc (K_meta k))); [|done|done].
  intros v fs o [H1 H2]. rewrite (HP fs H1) in H2. subst v. by rewrite Hb.
Qed.

Lemma read_session_none (P : FS -> Prop) (k : side) :
  (forall fs, P fs -> fs !! loc (K_meta k) = None) ->
  triple P (read_session (name_of k)) (fun r fs => P fs /\ r = None) P P.
Proof.
  intros HP. apply (triple_read _ (loc (K_meta k))); [|done|done].
  intros v fs o [H1 H2]. rewrite (HP fs H1) in H2. by subst v.
Qed.

Lemma journal_valid : invalid_journal (mk_journal from to meta) = false.
Proof.
  unfold invalid_journal. cbn [jn_from jn_to jn_source]. rewrite meta_name, from_good, to_good.
  rewrite (proj2 (String.eqb_neq from to)) by apply names_apart. by rewrite String.eqb_refl.
Qed.

(** Recovery with the journal there, by the state it finds. *)
Definition recover_journal (j : RenameJournal) : M bool :=
  from <-! read_session (jn_from j);
  to <-! read_session (jn_to j);
  if differs from (jn_source j) || differs to (with_name (jn_source j) (jn_to j)) then
    fail "pending rename metadata does not match its journal"
  else
  match from, to with
  | _, Some _ =>
      r <-! try (remove_durable (session_path (jn_from j)));
      match r with
      | Err error =>
          left <-! read_session (jn_from j);
          match left with
          | Some _ => fail error
          | None => cleanup_then_finish (jn_from j)
          end
      | Ok _ => cleanup_then_finish (jn_from j)
      end
  | Some _, None => cleanup_then_finish (jn_to j)
  | None, None => fail "pending rename has no session metadata"
  end.

Lemma recover_unfold (P : FS -> Prop) (Q : bool -> FS -> Prop) (E C : FS -> Prop) :
  (forall fs, P fs -> fs !! loc K_journal = Some journal_bytes \/ fs !! loc K_journal = None) ->
  triple (fun fs => P fs /\ fs !! loc K_journal = None) (ret true) Q E C ->
  triple (fun fs => P fs /\ fs !! loc K_journal = Some journal_bytes) (recover_journal (mk_journal from to meta)) Q E C ->
  (forall fs, P fs -> E fs) -> (forall fs, P fs -> C fs) -> triple P recover_pending_rename Q E C.
Proof.
  intros HP Hnone Hsome HE HC. apply (triple_read _ (loc K_journal)); [|done|done]. intros v fs o [H1 H2].
  destruct (HP fs H1) as [Hj|Hj]; rewrite Hj in H2; subst v.
  - unfold journal_bytes. rewrite read_journal_text, journal_valid. by apply Hsome.
  - by apply Hnone.
Qed.

Lemma not_different m : differs (Some m) m = false.
Proof. unfold differs. by rewrite bool_decide_true. Qed.

Lemma recover_old : triple old recover_pending_rename (fun b fs => old fs /\ (b = true -> old_clean fs)) old old.
Proof.
  apply recover_unfold; [| | |done|done].
  - intros fs [[_ H _ _ _]|[_ H _ _ _]]; auto.
  - apply triple_ret. intros fs [[[_ H _ _ _]|H] Hj]; [congruence|]. split; [by right|done].
  - unfold recover_journal. cbn [jn_from jn_to jn_source].
    apply (triple_pre _ old_pending); [intros fs [[H|[_ H _ _ _]] Hj]; [done|congruence]|].
    eapply triple_bind.
    { eapply triple_weaken; [apply (read_session_some old_pending From mbytes meta)|done|done|by left|by left]; [|done].
      by intros fs [_ _ [H _] _ _]. }
    intros m. apply triple_case. intros fs1 [Hp ->]. eapply triple_bind.
    { eapply triple_weaken; [apply (read_session_none old_pending To)|by intros fs ->|done|by left|by left].
      by intros fs [_ _ _ H _]. }
    intros m. apply triple_case. intros fs2 [Hp2 ->]. rewrite not_different. simpl.
    eapply triple_weaken; [apply (cleanup_then_finish_spec To)|by intros fs ->|done|done|done].
Qed.

(** Once the target is published, dropping the source commits. *)
Lemma finish_new (P : FS -> Prop) (b : bool) :
  (forall fs, P fs -> (b = true /\ both fs) \/ (b = false /\ new_pending fs)) ->
  triple P
    (r <-! try (remove_durable (session_path from));
     match r with
     | Err error =>
         left <-! read_session from;
         match left with
         | Some _ => fail error
         | None => cleanup_then_finish from
         end
     | Ok _ => cleanup_then_finish from
     end)
    (fun r fs => new fs /\ (r = true -> new_clean fs))
    (fun fs => (b = true /\ both fs) \/ new fs) (fun fs => (b = true /\ both fs) \/ new fs).
Proof.
  intros HP.
  assert (Hdel : forall fs, P fs -> new_pending (delete (loc (K_meta From)) fs)).
  { intros fs Hfs. destruct (HP fs Hfs) as [[_ H]|[_ H]]; [by apply commit_point|]. constructor; keys. }
  assert (Hfin : forall P' : FS -> Prop, (forall fs, P' fs -> new_pending fs) ->
    triple P' (cleanup_then_finish from) (fun r fs => new fs /\ (r = true -> new_clean fs))
      (fun fs => (b = true /\ both fs) \/ new fs) (fun fs => (b = true /\ both fs) \/ new fs)).
  { intros P' HP'. eapply triple_weaken; [apply (cleanup_then_finish_spec From)|exact HP'|done|done|by right]. }
  apply (triple_try_change _ (delete (loc (K_meta From)))).
  - apply Hfin. intros fs (fs' & H & ->). by apply Hdel.
  - intros e. apply triple_case. intros fs1 Hfs1.
    assert (Hcase : (b = true /\ both fs1) \/ new_pending fs1).
    { destruct Hfs1 as [H|(fs' & H & ->)]; [|right; by apply Hdel]. destruct (HP _ H) as [|[_ ?]]; auto. }
    destruct Hcase as [[-> Hb]|Hn].
    + eapply triple_bind.
      * eapply triple_weaken; [apply (read_session_some both From mbytes meta)|by intros fs ->|done|by left; split|by left; split]; [|done].
        by intros fs [_ _ [H _] _].
      * intros m. apply triple_case. intros fs2 [Hp ->]. apply triple_fail. intros fs ->. by left.
    + eapply triple_bind.
      * eapply triple_weaken; [apply (read_session_none new_pending From)|by intros fs ->|done|by right; left|by right; left].
        by intros fs [_ _ H _ _].
      * intros m. apply triple_case. intros fs2 [Hp ->]. apply Hfin. by intros fs ->.
  - intros fs H. split; [|right; left; by apply Hdel].
    destruct (HP _ H) as [|[_ ?]]; [by left|right; by left].
Qed.

Lemma recover_new : triple new recover_pending_rename (fun b fs => new fs /\ (b = true -> new_clean fs)) new new.
Proof.
  apply recover_unfold; [| | |done|done].
  - intros fs [[_ H _ _ _]|[_ H _ _ _]]; auto.
  - apply triple_ret. intros fs [[[_ H _ _ _]|H] Hj]; [congruence|]. split; [by right|done].
  - unfold recover_journal. cbn [jn_from jn_to jn_source].
    apply (triple_pre _ new_pending); [intros fs [[H|[_ H _ _ _]] Hj]; [done|congruence]|].
    eapply triple_bind.
    { eapply triple_weaken; [apply (read_session_none new_pending From)|done|done|by left|by left]. by intros fs [_ _ H _ _]. }
    intros m. apply triple_case. intros fs1 [Hp ->]. eapply triple_bind.
    { eapply triple_weaken; [apply (read_session_some new_pending To published (with_name meta to))|by intros fs ->|done|by left|by left].
      - by intros fs [_ _ _ [H _] _].
      - apply read_meta_text. }
    intros m. apply triple_case. intros fs2 [Hp2 ->]. rewrite not_different. simpl.
    eapply triple_weaken; [apply (finish_new (fun fs => fs = fs2) false)|done|done| |].
    + intros fs ->. by right.
    + intros fs [[? _]|]; done.
    + intros fs [[? _]|]; done.
Qed.

Lemma recover_both :
  triple both recover_pending_rename (fun b fs => new fs /\ (b = true -> new_clean fs))
    (fun fs => both fs \/ new fs) (fun fs => both fs \/ new fs).
Proof.
  apply recover_unfold; [| | |by left|by left].
  - intros fs [_ H _ _]; auto.
  - apply triple_ret. intros fs [[_ H _ _] Hj]. congruence.
  - unfold recover_journal. cbn [jn_from jn_to jn_source].
    apply (triple_pre _ both); [by intros fs [H _]|].
    eapply triple_bind.
    { eapply triple_weaken; [apply (read_session_some both From mbytes meta)|done|done|by left|by left]; [|done].
      by intros fs [_ _ [H _] _]. }
    intros m. apply triple_case. intros fs1 [Hp ->]. eapply triple_bind.
    { eapply triple_weaken; [apply (read_session_some both To published (with_name meta to))|by intros fs ->|done|by left|by left].
      - by intros fs [_ _ _ [H _]].
      - apply read_meta_text. }
    intros m. apply triple_case. intros fs2 [Hp2 ->]. rewrite !not_different. simpl.
    eapply triple_weaken; [apply (finish_new (fun fs => fs = fs2) true)|done|done| |].
    + intros fs ->. by left.
    + intros fs [[_ H]|]; auto.
    + intros fs [[_ H]|]; auto.
Qed.

(** ** What recovery leaves *)
Lemma cleanup_paths_good fs l : exists fs', cleanup_paths l None fs [] = Done (Ok tt) fs' [].
Proof. revert fs. induction l as [|p l IH]; intros fs; simpl; [by eexists|]. apply IH. Qed.

Lemma cleanup_then_finish_good fs name : exists fs', cleanup_then_finish name fs [] = Done (Ok true) fs' [].
Proof.
  unfold cleanup_then_finish, mbind, try, cleanup_rename_artifacts.
  destruct (cleanup_paths_good fs [claude_path name; claude_settings_path name; scrollback_path name]) as [fs' ->].
  by eexists.
Qed.

Lemma read_session_good fs k n b m :
  name_of k = n -> fs !! loc (K_meta k) = Some b -> read_meta b = Some m -> read_session n fs [] = Done (Ok (Some m)) fs [].
Proof. intros <- H1 H2. unfold read_session, mbind, read. simpl. unfold loc in H1. rewrite H1, H2. done. Qed.

Lemma read_session_gone fs k n :
  name_of k = n -> fs !! loc (K_meta k) = None -> read_session n fs [] = Done (Ok None) fs [].
Proof. intros <- H1. unfold read_session, mbind, read. simpl. unfold loc in H1. by rewrite H1. Qed.

(** Nothing stands in the way of a recovery without faults. *)
Lemma recover_good fs : anywhere fs -> exists fs', recover_pending_rename fs [] = Done (Ok true) fs' [].
Proof.
  intros Hfs. unfold recover_pending_rename, mbind at 1, read. simpl next. cbn iota.
  assert (Hj : fs !! rename_journal_path = None \/ fs !! rename_journal_path = Some journal_bytes /\ (old_pending fs \/ both fs \/ new_pending fs)).
  { destruct Hfs as [[H|[_ H _ _ _]]|[H|[H|[_ H _ _ _]]]]; auto; right; (split; [by destruct H|auto]). }
  destruct Hj as [-> | [-> Hp]]; [by eexists|]. unfold journal_bytes. rewrite read_journal_text, journal_valid.
  cbn [jn_from jn_to jn_source]. unfold mbind at 1. simpl tl.
  destruct Hp as [[_ _ [H1 _] H2 _]|[[_ _ [H1 _] [H2 _]]|[_ _ H1 [H2 _] _]]].
  - rewrite (read_session_good _ From from _ _ eq_refl H1 meta_read). unfold mbind at 1.
    rewrite (read_session_gone _ To to eq_refl H2), not_different. apply cleanup_then_finish_good.
  - rewrite (read_session_good _ From from _ _ eq_refl H1 meta_read). unfold mbind at 1.
    rewrite (read_session_good _ To to _ _ eq_refl H2 (read_meta_text _)), !not_different. simpl.
    unfold mbind, try, remove_durable, change. simpl. apply cleanup_then_finish_good.
  - rewrite (read_session_gone _ From from eq_refl H1). unfold mbind at 1.
    rewrite (read_session_good _ To to _ _ eq_refl H2 (read_meta_text _)), not_different. simpl.
    unfold mbind, try, remove_durable, change. simpl. apply cleanup_then_finish_good.
Qed.

(** The directory after an uninterrupted rename. *)
Definition move_artifact (a : artifact) (fs : FS) : FS :=
  match fs0 !! loc (K_art a From) with
  | Some b => <[loc (K_art a To) := b]> (delete (loc (K_art a From)) fs)
  | None => fs
  end.

Definition moved : FS :=
  <[loc (K_meta To) := published]> (delete (loc (K_meta From))
    (move_artifact A_claude (move_artifact A_settings (move_artifact A_scrollback fs0)))).

Lemma move_artifact_lookup a fs k :
  fs !! loc (K_art a From) = arts a -> fs !! loc (K_art a To) = None ->
  move_artifact a fs !! loc k =
    if decide (k = K_art a To) then arts a else if decide (k = K_art a From) then None else fs !! loc k.
Proof.
  intros H1 H2. unfold move_artifact. fold (arts a). destruct (arts a) as [b|] eqn:Ha.
  - rewrite key_insert, key_delete. repeat case_decide; congruence.
  - repeat case_decide; subst; congruence.
Qed.

Lemma move_artifact_frame a fs : frame fs -> frame (move_artifact a fs).
Proof. intros H. unfold move_artifact. destruct (fs0 !! loc (K_art a From)); [by apply frame_insert, frame_delete|done]. Qed.

Lemma moved_clean : ready -> new_clean moved.
Proof.
  intros [H1 H2 H3].
  assert (Hk : forall k, moved !! loc k =
     match k with
     | K_journal => None | K_meta To => Some published | K_meta From => None
     | K_art a To => arts a | K_art a From => None
     end).
  { intros k. unfold moved. rewrite key_insert, key_delete.
    assert (L1 : forall k, move_artifact A_scrollback fs0 !! loc k = if decide (k = K_art A_scrollback To) then arts A_scrollback
      else if decide (k = K_art A_scrollback From) then None else fs0 !! loc k) by (intros; by apply move_artifact_lookup).
    assert (L2 : forall k, move_artifact A_settings (move_artifact A_scrollback fs0) !! loc k =
      if decide (k = K_art A_settings To) then arts A_settings
      else if decide (k = K_art A_settings From) then None else move_artifact A_scrollback fs0 !! loc k).
    { intros; apply move_artifact_lookup; rewrite L1; [done|apply H3]. }
    rewrite move_artifact_lookup, L2, L1; [|by rewrite L2, L1|by rewrite L2, L1; apply H3].
    destruct k as [|[]|[] []]; done. }
  constructor.
  - apply frame_insert, frame_delete, move_artifact_frame, move_artifact_frame, move_artifact_frame. done.
  - by rewrite Hk.
  - by rewrite Hk.
  - split; [by rewrite Hk|]. intros a. by rewrite Hk.
  - intros a. by rewrite Hk.
Qed.

Definition all_keys : list key :=
  [K_journal; K_meta From; K_meta To; K_art A_claude From; K_art A_claude To; K_art A_settings From;
   K_art A_settings To; K_art A_scrollback From; K_art A_scrollback To].

Lemma same_files fs fs' : frame fs -> frame fs' -> (forall k, fs !! loc k = fs' !! loc k) -> fs = fs'.
Proof.
  intros Hf Hf' Hk. apply map_eq. intros p. destruct (decide (p ∈ map loc all_keys)) as [Hin|Hout].
  - apply list_elem_of_In, in_map_iff in Hin as (k & <- & _). apply Hk.
  - assert (Hno : forall k, p <> loc k).
    { intros k ->. apply Hout, list_elem_of_In, in_map_iff. exists k. split; [done|]. apply list_elem_of_In.
      destruct k as [|[]|[] []]; set_solver. }
    by rewrite (Hf p Hno), (Hf' p Hno).
Qed.

Lemma old_clean_same fs : ready -> old_clean fs -> fs = fs0.
Proof.
  intros [R1 R2 R3] [H1 H2 [H3 H4] H5 H6]. apply same_files; [done|done|].
  intros [|[]|a []]; first [congruence|apply H4|by rewrite H6, R3].
Qed.

Lemma new_clean_same fs : ready -> new_clean fs -> fs = moved.
Proof.
  intros Hr [H1 H2 H3 [H4 H5] H6]. destruct (moved_clean Hr) as [M1 M2 M3 [M4 M5] M6]. apply same_files; [done|done|].
  intros [|[]|a []]; first [congruence|by rewrite H6, M6|by rewrite H5, M5].
Qed.

(** ** Any number of interrupted recoveries *)
Definition files {A : Type} (out : outcome A) : FS := match out with Done _ fs _ | Crashed fs => fs end.

Fixpoint restarts (fs : FS) (schedules : list (list fault)) : FS :=
  match schedules with
  | [] => fs
  | o :: rest => restarts (files (recover_pending_rename fs o)) rest
  end.

Lemma triple_files {A : Type} (P R : FS -> Prop) (m : M A) (Q : A -> FS -> Prop) (E C : FS -> Prop) fs o :
  triple P m Q E C -> P fs -> (forall a fs, Q a fs -> R fs) -> (forall fs, E fs -> R fs) -> (forall fs, C fs -> R fs) ->
  R (files (m fs o)).
Proof.
  intros Hm HP HQ HE HC. specialize (Hm fs o HP). destruct (m fs o) as [[a|e] fs' o'|fs']; simpl; eauto.
Qed.

Lemma restarts_old fs l : old fs -> old (restarts fs l).
Proof.
  revert fs. induction l as [|o l IH]; intros fs H; simpl; [done|]. apply IH.
  eapply triple_files; [apply recover_old|done|by intros a ? []|done|done].
Qed.

Lemma restarts_new fs l : new fs -> new (restarts fs l).
Proof.
  revert fs. induction l as [|o l IH]; intros fs H; simpl; [done|]. apply IH.
  eapply triple_files; [apply recover_new|done|by intros a ? []|done|done].
Qed.

Lemma restarts_both fs l : both fs \/ new fs -> both (restarts fs l) \/ new (restarts fs l).
Proof.
  revert fs. induction l as [|o l IH]; intros fs H; simpl; [done|]. destruct H as [H|H]; [|right; apply (restarts_new _ (o :: l) H)].
  apply IH. eapply triple_files; [apply recover_both|done|intros a ? []; by right|done|done].
Qed.

Lemma settle_old fs : ready -> old fs -> recover_pending_rename fs [] = Done (Ok true) fs0 [].
Proof.
  intros Hr H. destruct (recover_good fs (or_introl H)) as [fs' Hg]. pose proof (recover_old fs [] H) as Ht.
  rewrite Hg in Ht |- *. destruct Ht as [_ Ht]. by rewrite (old_clean_same fs' Hr (Ht eq_refl)).
Qed.

Lemma settle_new fs : ready -> both fs \/ new fs -> recover_pending_rename fs [] = Done (Ok true) moved [].
Proof.
  intros Hr H. destruct (recover_good fs (or_intror H)) as [fs' Hg].
  assert (Ht : new_clean fs').
  { destruct H as [H|H]; [pose proof (recover_both fs [] H) as Ht|pose proof (recover_new fs [] H) as Ht];
      rewrite Hg in Ht; by apply Ht. }
  by rewrite Hg, (new_clean_same fs' Hr Ht).
Qed.

(** Without faults the rename goes through. *)
Lemma copy_good l fs created :
  exists created' fs', copy_artifacts l created fs [] = Done (Ok created') fs' [].
Proof.
  revert fs created. induction l as [|[p q] l IH]; intros fs created; [by eexists _, _|].
  simpl. unfold mbind at 1, try at 1, read. simpl. destruct (fs !! p) as [b|]; [|apply IH].
  unfold mbind at 1, try at 1, atomic_write, change. simpl. apply IH.
Qed.

Lemma garbage_good l fs : exists fs', collect_garbage l false fs [] = Done (Ok false) fs' [].
Proof.
  revert fs. induction l as [|p l IH]; intros fs; [by eexists|].
  simpl. unfold mbind at 1, try at 1, remove_durable, change. simpl. apply IH.
Qed.

Lemma rename_good : ready -> rename_session from to fs0 [] = Done (Ok tt) moved [].
Proof.
  intros Hr. pose proof (rename_triple Hr fs0 [] eq_refl) as Ht.
  assert (Hg : exists fs, rename_session from to fs0 [] = Done (Ok tt) (delete (loc K_journal) fs) []).
  { destruct Hr as [H1 H2 H3].
    assert (Hx : forall p o', fs0 !! p = None -> exists_ p fs0 o' = Done (Ok false) fs0 o').
    { intros p o' Hp. unfold exists_. rewrite bool_decide_false; [done|]. rewrite Hp. by intros [? [=]]. }
    unfold rename_session, mbind at 1. rewrite (read_session_good _ From from _ _ eq_refl meta_stored meta_read).
    unfold mbind at 1. rewrite (Hx _ _ H1). unfold mbind at 1. rewrite (Hx _ _ H2).
    unfold mbind at 1. rewrite any_exists_none.
    2:{ rewrite copies_pairs. simpl. intros p. rewrite !elem_of_cons, elem_of_nil.
        intros [->|[->|[->|[]]]]; [apply (H3 A_claude)|apply (H3 A_settings)|apply (H3 A_scrollback)]. }
    unfold mbind at 1, try at 1, atomic_write, change. cbn [next hd tl]. unfold mbind at 1.
    edestruct (copy_good (copies from to)) as (created & fs1 & ->).
    unfold publish, mbind at 1, try at 1, write_session, atomic_write, change. cbn [next hd tl].
    unfold commit, mbind at 1, try at 1, remove_durable, change. cbn [next hd tl]. unfold mbind at 1, exists_.
    unfold mbind at 1. edestruct (garbage_good (map fst (copies from to))) as (fs2 & ->). by eexists. }
  destruct Hg as [fs Hg]. rewrite Hg in Ht |- *. destruct Ht as [[_ Hj _ _ _]|Hc].
  - rewrite key_delete, decide_True in Hj by done. done.
  - by rewrite (new_clean_same _ Hr Hc).
Qed.

Lemma source_kept_error fs : old fs \/ both fs -> source_kept fs.
Proof. intros [[[]|[]]|[]]; done. Qed.
End rename.

(** C2. A rename is all or nothing across crashes and failures.  Without faults the
    session moves.  With any, and after any number of recoveries that die or fail
    themselves, one recovery that is let through leaves the directory exactly as
    before the rename or exactly as after it: as after it when the rename had
    reported success; and an error leaves the source complete. *)
Theorem rename_crash_safe {J : StateJson} (from to : string) (meta : SessionMeta) (fs0 : FS) (mbytes : list byte)
    (Hapart : apart from to) (Hfrom : bad_name from = false) (Hto : bad_name to = false)
    (Hname : sm_name meta = from) (Hstored : fs0 !! session_path from = Some mbytes)
    (Hread : read_meta mbytes = Some meta) (Hready : ready from to fs0) :
  rename_session from to fs0 [] = Done (Ok tt) (moved from to meta fs0) []
  /\ forall (schedule : list fault) (later : list (list fault)),
       let out := rename_session from to fs0 schedule in
       let settled := recover_pending_rename (restarts (files out) later) [] in
       (settled = Done (Ok true) fs0 [] \/ settled = Done (Ok true) (moved from to meta fs0) [])
       /\ match out with
          | Done (Ok _) _ _ => settled = Done (Ok true) (moved from to meta fs0) []
          | Done (Err _) fs _ => source_kept from to fs0 mbytes fs
          | Crashed _ => True
          end.
Proof.
  split; [by eapply rename_good|]. intros schedule later out settled. unfold settled.
  pose proof (rename_triple from to meta fs0 Hapart Hfrom Hto Hname mbytes Hstored Hread Hready fs0 schedule eq_refl) as Ht. fold out in Ht.
  assert (Hcases : forall fs, anywhere from to meta fs0 mbytes fs ->
    recover_pending_rename (restarts fs later) [] = Done (Ok true) fs0 []
    \/ recover_pending_rename (restarts fs later) [] = Done (Ok true) (moved from to meta fs0) []).
  { intros fs [H|H]; [left|right].
    - eapply settle_old; try done. by eapply restarts_old.
    - eapply settle_new; try done. by eapply restarts_both. }
  destruct out as [[[]|e] fs o|fs]; simpl files.
  - assert (Hn : recover_pending_rename (restarts fs later) [] = Done (Ok true) (moved from to meta fs0) []).
    { eapply settle_new; try done. right. by eapply restarts_new. }
    auto.
  - split; [apply Hcases; destruct Ht as [H|H]; [by left|right; by left]|]. by eapply source_kept_error.
  - split; [by apply Hcases|done].
Qed.

Definition example_meta : SessionMeta := mk_meta "a" "/" Shell 5 None false false None 1.
Definition example_fs : FS :=
  {[session_path "a" := number_text example_meta; scrollback_path "a" := [7; 8]%Z; session_path "b" := [1%Z]]}.

(** A crash after the target is published, and a failed recovery: the session has
    moved. *)
Lemma rename_crash_safe_witness :
  let out := @rename_session numbered "a" "c" example_fs [F_ok; F_ok; F_ok; F_ok; F_ok; F_ok; F_crash_late] in
  (exists fs, out = Crashed fs)
  /\ @recover_pending_rename numbered (files (@recover_pending_rename numbered (files out) [F_ok; F_ok; F_ok; F_fail])) []
       = Done (Ok true) (@moved numbered "a" "c" example_meta example_fs) [].
Proof.
  split; [eexists; vm_compute; reflexivity|].
  destruct (@rename_crash_safe numbered "a" "c" example_meta example_fs (number_text example_meta)) as [_ H].
  - split; [done|]. split; discriminate.
  - reflexivity.
  - reflexivity.
  - reflexivity.
  - reflexivity.
  - apply (@read_meta_text numbered).
  - constructor; [reflexivity|reflexivity|by intros []].
  - destruct (H [F_ok; F_ok; F_ok; F_ok; F_ok; F_ok; F_crash_late] [[F_ok; F_ok; F_ok; F_fail]]) as [[Hs|Hs] _].
    + exfalso. apply (f_equal (fun out => files out !! session_path "a")) in Hs. vm_compute in Hs. discriminate Hs.
    + exact Hs.
Defined.
