(* ===== verification/Suspend.v ===== *)
(** * Parking and waking agents

    The suspension life cycle of a session: the flags of [PtySession]
    ([crates/amber/src/pty.rs]) and the operations of [SessionManager]
    ([crates/amber/src/manager.rs]) that suspend, resume, focus, type into and
    report on it.  Each runs under the session's transition lock, so each is one
    transformer of the session's flags and the foreground slot, with the supervisor
    signals and input it sends; what the store, the clock, [kill] and the pty answer
    are arguments. *)
From S2P Require Import Prelude Store.
From S2P Require Guardian.

Inductive SuspendOrigin := O_None | O_Manual | O_Pressure.

#[export] Instance SuspendOrigin_eq_dec : EqDecision SuspendOrigin.
Proof. solve_decision. Defined.

Inductive ResumeCause := Manual | Focus.
Inductive AutomaticSuspendRecency := Memory | Host.

(** ** State *)

(** A session's flags.  [lv_exited]: the child has a status. *)
Record Live := mk_live {
  lv_pid : option Z;
  lv_exited : bool;
  lv_run_state : option string;
  lv_run_state_seq : Z;
  lv_origin : SuspendOrigin;
  lv_last_user_ms : Z;
  lv_last_output_ms : Z;
  lv_started_ms : Z;
  lv_ready : bool;
  lv_pending_resume : bool;
}.

Definition is_alive (l : Live) : bool := negb (lv_exited l).

Definition set_run_state (s : option string) (l : Live) : Live :=
  mk_live (lv_pid l) (lv_exited l) s (lv_run_state_seq l) (lv_origin l) (lv_last_user_ms l)
    (lv_last_output_ms l) (lv_started_ms l) (lv_ready l) (lv_pending_resume l).
Definition set_run_state_seq (n : Z) (l : Live) : Live :=
  mk_live (lv_pid l) (lv_exited l) (lv_run_state l) n (lv_origin l) (lv_last_user_ms l)
    (lv_last_output_ms l) (lv_started_ms l) (lv_ready l) (lv_pending_resume l).
Definition set_origin (o : SuspendOrigin) (l : Live) : Live :=
  mk_live (lv_pid l) (lv_exited l) (lv_run_state l) (lv_run_state_seq l) o (lv_last_user_ms l)
    (lv_last_output_ms l) (lv_started_ms l) (lv_ready l) (lv_pending_resume l).
Definition set_last_user_ms (n : Z) (l : Live) : Live :=
  mk_live (lv_pid l) (lv_exited l) (lv_run_state l) (lv_run_state_seq l) (lv_origin l) n
    (lv_last_output_ms l) (lv_started_ms l) (lv_ready l) (lv_pending_resume l).
Definition set_last_output_ms (n : Z) (l : Live) : Live :=
  mk_live (lv_pid l) (lv_exited l) (lv_run_state l) (lv_run_state_seq l) (lv_origin l) (lv_last_user_ms l)
    n (lv_started_ms l) (lv_ready l) (lv_pending_resume l).
Definition set_memory_suspend_started_ms (n : Z) (l : Live) : Live :=
  mk_live (lv_pid l) (lv_exited l) (lv_run_state l) (lv_run_state_seq l) (lv_origin l) (lv_last_user_ms l)
    (lv_last_output_ms l) n (lv_ready l) (lv_pending_resume l).
Definition set_ready (b : bool) (l : Live) : Live :=
  mk_live (lv_pid l) (lv_exited l) (lv_run_state l) (lv_run_state_seq l) (lv_origin l) (lv_last_user_ms l)
    (lv_last_output_ms l) (lv_started_ms l) b (lv_pending_resume l).
Definition set_pending_resume (b : bool) (l : Live) : Live :=
  mk_live (lv_pid l) (lv_exited l) (lv_run_state l) (lv_run_state_seq l) (lv_origin l) (lv_last_user_ms l)
    (lv_last_output_ms l) (lv_started_ms l) (lv_ready l) b.
Definition set_exited (l : Live) : Live :=
  mk_live (lv_pid l) true (lv_run_state l) (lv_run_state_seq l) (lv_origin l) (lv_last_user_ms l)
    (lv_last_output_ms l) (lv_started_ms l) (lv_ready l) (lv_pending_resume l).

(** A fresh session, and one respawned parked. *)
Definition fresh (pid : option Z) (now_ms : Z) : Live :=
  mk_live pid false None 0 O_None (Z.max now_ms 1) 0 0 true false.

Definition restored_suspended (pid : option Z) (now_ms : Z) (origin : SuspendOrigin) (started : Z) : Live :=
  set_ready false (set_run_state (Some "suspended")
    (set_memory_suspend_started_ms started (set_origin origin (fresh pid now_ms)))).

(** [mark_user_activity] and the clocks. *)
Definition mark_user_activity (now_ms : Z) : Live -> Live := set_last_user_ms (Z.max now_ms 1).
Definition last_used_ms (l : Live) : Z := Z.max (lv_last_user_ms l) (lv_last_output_ms l).

(** The compare-and-swap loop of [claim_suspend] succeeds in its first turn, the
    origin being written under the transition lock only. *)
Definition claim_suspend (origin : SuspendOrigin) (l : Live) : result SuspendOrigin SuspendOrigin * Live :=
  let previous := lv_origin l in
  let allowed :=
    match origin with
    | O_Pressure => bool_decide (previous = O_None)
    | O_Manual => negb (bool_decide (previous = O_Manual))
    | O_None => false
    end in
  if allowed then (Ok previous, set_origin origin l) else (Err previous, l).

Definition restore_suspend_origin (expected previous : SuspendOrigin) (l : Live) : Live :=
  if decide (lv_origin l = expected) then set_origin previous l else l.

Definition clear_suspend_origin (l : Live) : Live := set_origin O_None l.

(** ** Operations under the lock *)

(** What reaches the supervisor and the child. *)
Inductive effect := Sigusr1 | Sigusr2 | Input (bytes : list byte).

(** The session, and the foreground slot all sessions share. *)
Record St := mk_st { st_live : Live; st_foreground : Z }.

Definition SM (A : Type) : Type := St -> result A string * St * list effect.

Definition sret {A} (a : A) : SM A := fun s => (Ok a, s, []).
Definition bail {A} (e : string) : SM A := fun s => (Err e, s, []).
Definition sbind {A B} (m : SM A) (k : A -> SM B) : SM B := fun s =>
  match m s with
  | (Ok a, s', out) => let '(r, s'', out') := k a s' in (r, s'', out ++ out')
  | (Err e, s', out) => (Err e, s', out)
  end.
Definition sattempt {A} (m : SM A) : SM (result A string) := fun s =>
  let '(r, s', out) := m s in (Ok r, s', out).
Definition live : SM Live := fun s => (Ok (st_live s), s, []).
Definition modify (f : Live -> Live) : SM unit := fun s => (Ok tt, mk_st (f (st_live s)) (st_foreground s), []).
Definition answer {A} (r : result A string) : SM A := fun s => (r, s, []).

Notation "x <-s m ; k" := (sbind m (fun x => k)) (at level 100, m at next level, right associativity) : amber_scope.
Notation "m ;; k" := (sbind m (fun _ => k)) (at level 100, right associativity) : amber_scope.

(** [kill] of the child's pid. *)
Definition signal_supervisor (delivered : bool) (signal : effect) : SM unit :=
  l <-s live;
  match lv_pid l with
  | None => bail "no child pid"
  | Some _ => if delivered then fun s => (Ok tt, s, [signal]) else bail "failed to signal"
  end.
Definition suspend_supervisor (delivered : bool) : SM unit := signal_supervisor delivered Sigusr1.
Definition resume_supervisor (delivered : bool) : SM unit := signal_supervisor delivered Sigusr2.

(** [current]: the session found before the lock was taken is still the one registered under its name. *)
Definition ensure_current_session (current : bool) : SM unit :=
  l <-s live; if current && is_alive l then sret tt else bail "no such session".

Definition vanished (m : option SessionMeta) : SM SessionMeta :=
  match m with Some meta => sret meta | None => bail "vanished from the store" end.

(** A recorded, non-empty resume id. *)
Definition has_resume_id (recorded : option ClaudeMeta) : bool :=
  match recorded with Some r => negb (cm_session_id r =? "")%string | None => false end.

Definition is_state (l : Live) (s : string) : bool := bool_decide (lv_run_state l = Some s).

(** [now1], [now2]: the two readings of the clock; [still_alive]: the second look at
    the child, which may exit at any time. *)
Definition suspend_for_automatic (recency : AutomaticSuspendRecency) (current : bool)
    (meta : result (option SessionMeta) string) (resume : result (option ClaudeMeta) string)
    (now1 now2 : Z) (still_alive delivered : bool) : SM Z :=
  ensure_current_session current ;;
  m <-s answer meta;
  meta <-s vanished m;
  if negb (is_agent (sm_kind meta)) then bail "not an agent" else
  l <-s live;
  if negb (is_state l "claude") then bail "no running agent" else
  recorded <-s answer resume;
  if negb (has_resume_id recorded) then bail "no recorded resume id" else
  if negb (bool_decide (lv_origin l = O_None)) then bail "already suspended" else
  s <-s (fun s => (Ok (st_foreground s), s, []));
  if match recency with Host => (sm_slot meta =? s)%Z | Memory => false end then bail "foreground" else
  let last_activity_ms := match recency with Memory => last_used_ms l | Host => lv_last_user_ms l end in
  let pending_started_ms := Z.max now1 1 in
  if (sat_sub64 pending_started_ms last_activity_ms <? Guardian.RECENT_USE_MS)%Z then bail "recent activity" else
  if negb still_alive then bail "no running agent" else
  match claim_suspend O_Pressure l with
  | (Err _, _) => bail "already suspended"
  | (Ok _, l') =>
      modify (fun _ => l') ;;
      let previous_started := lv_started_ms l in
      modify (set_memory_suspend_started_ms pending_started_ms) ;;
      r <-s sattempt (suspend_supervisor delivered);
      match r with
      | Err error =>
          modify (restore_suspend_origin O_Pressure O_None) ;;
          modify (set_memory_suspend_started_ms previous_started) ;;
          bail error
      | Ok _ => sret (Z.max now2 pending_started_ms)
      end
  end.

Definition suspend (origin : SuspendOrigin) (current : bool) (meta : result (option SessionMeta) string)
    (now_ms : Z) (delivered : bool) : SM unit :=
  if decide (origin = O_None) then bail "invalid suspend origin" else
  ensure_current_session current ;;
  m <-s answer meta;
  meta <-s vanished m;
  if negb (is_agent (sm_kind meta)) then bail "not an agent" else
  l <-s live;
  if is_state l "claude-retrying" || is_state l "shell-fallback" then bail "cannot suspend" else
  if negb (is_state l "claude" || is_state l "suspended") then bail "no running agent" else
  let cur := lv_origin l in
  if bool_decide (cur = O_Manual) && bool_decide (origin = O_Manual) then
    (if is_state l "suspended" then sret tt else suspend_supervisor delivered)
  else if negb (bool_decide (cur = O_None))
          && negb (bool_decide (cur = O_Pressure) && bool_decide (origin = O_Manual)) then bail "already suspended"
  else if bool_decide (cur = O_None) && negb (is_state l "claude") then bail "cannot newly suspend"
  else
  match claim_suspend origin l with
  | (Err _, _) => bail "already suspended"
  | (Ok previous, l') =>
      modify (fun _ => l') ;;
      let previous_started := lv_started_ms l in
      modify (set_memory_suspend_started_ms (match origin with O_Pressure => Z.max now_ms 1 | _ => 0 end)) ;;
      if bool_decide (previous = O_Pressure) && is_state l "suspended" then sret tt else
      r <-s sattempt (suspend_supervisor delivered);
      match r with
      | Err error =>
          modify (restore_suspend_origin origin previous) ;;
          modify (set_memory_suspend_started_ms previous_started) ;;
          bail error
      | Ok _ => sret tt
      end
  end.

Definition resume_locked (cause : ResumeCause) (meta : result (option SessionMeta) string) (delivered : bool) : SM bool :=
  l <-s live;
  let origin := lv_origin l in
  let eligible :=
    match cause with
    | Manual => negb (bool_decide (origin = O_None))
    | Focus => bool_decide (origin = O_Pressure)
    end in
  if negb eligible then sret false else
  m <-s answer meta;
  if negb (match m with Some meta => is_agent (sm_kind meta) | None => false end) then bail "not an agent" else
  if negb (lv_ready l) || negb (is_state l "suspended") then
    modify (set_pending_resume true) ;; sret true
  else
    resume_supervisor delivered ;;
    modify clear_suspend_origin ;;
    modify (set_memory_suspend_started_ms 0) ;;
    sret true.

#[global] Arguments resume_locked : simpl never.

Definition resume (cause : ResumeCause) (current : bool) (now_ms : Z) (meta : result (option SessionMeta) string)
    (delivered : bool) : SM bool :=
  ensure_current_session current ;;
  modify (mark_user_activity now_ms) ;;
  resume_locked cause meta delivered.

(** Answers whether the foreground changed. *)
Definition set_foreground_locked (meta : result (option SessionMeta) string) : SM bool :=
  m <-s answer meta;
  meta <-s vanished m;
  fun s => (Ok (negb (st_foreground s =? sm_slot meta)%Z), mk_st (st_live s) (sm_slot meta), []).

(** The store is asked twice. *)
Definition focus_session (current : bool) (now_ms : Z) (meta1 meta2 : result (option SessionMeta) string)
    (delivered : bool) : SM bool :=
  ensure_current_session current ;;
  _ <-s set_foreground_locked meta1;
  modify (mark_user_activity now_ms) ;;
  resume_locked Focus meta2 delivered.

Definition write (bytes : list byte) (current : bool) (now_ms : Z) (meta1 meta2 : result (option SessionMeta) string)
    (delivered : bool) (written : result unit string) : SM unit :=
  ensure_current_session current ;;
  _ <-s set_foreground_locked meta1;
  modify (mark_user_activity now_ms) ;;
  _ <-s resume_locked Focus meta2 delivered;
  l <-s live;
  if decide (lv_origin l = O_Manual) then bail "manually suspended" else
  fun s => (written, s, [Input bytes]).

Definition valid_report (state : string) : bool :=
  existsb (String.eqb state) ["claude"; "claude-retrying"; "shell-fallback"; "suspended"; "suspend-failed"]%string.

(** A report not newer than what is known. *)
Definition stale_report (l : Live) (seq : Z) : bool :=
  (((seq =? 0) && (0 <? lv_run_state_seq l)) || ((0 <? seq) && (seq <=? lv_run_state_seq l)))%Z.

#[global] Arguments valid_report : simpl never.
#[global] Arguments stale_report : simpl never.

Definition set_run_state_report (state : string) (seq : Z) (meta : result (option SessionMeta) string)
    (delivered : bool) : SM bool :=
  if negb (valid_report state) then bail "invalid run_state" else
  if negb (match meta with Ok (Some m) => is_agent (sm_kind m) | _ => false end) then bail "not an agent" else
  l <-s live;
  if stale_report l seq then sret false else
  let release_suspension := (state =? "suspend-failed")%string || ((state =? "shell-fallback")%string && negb (lv_ready l)) in
  modify (set_run_state (Some (if (state =? "suspend-failed")%string then "claude" else state))) ;;
  (if (0 <? seq)%Z then modify (set_run_state_seq seq) else sret tt) ;;
  (if (state =? "suspended")%string then
     modify (set_ready true) ;;
     l <-s live;
     (if decide (lv_origin l = O_None) then modify (fun l => snd (claim_suspend O_Manual l)) else sret tt) ;;
     if lv_pending_resume l then
       modify (set_pending_resume false) ;;
       r <-s sattempt (resume_supervisor delivered);
       match r with
       | Err error => modify (set_pending_resume true) ;; bail error
       | Ok _ => modify clear_suspend_origin ;; modify (set_memory_suspend_started_ms 0)
       end
     else sret tt
   else if release_suspension then
     modify (set_ready true) ;; modify (set_pending_resume false) ;; modify clear_suspend_origin ;;
     modify (set_memory_suspend_started_ms 0)
   else sret tt) ;;
  sret true.

(** ** Candidates

    What the guardian is told of one session. *)
Definition memory_candidate (name : string) (memory_kb : option Z) (l : Live)
    (meta : result (option SessionMeta) string) (resume : result (option ClaudeMeta) string) : option Guardian.Candidate :=
  match meta with
  | Ok (Some meta) =>
      Some (Guardian.mk_candidate name (default 0%Z memory_kb) (last_used_ms l) (is_agent (sm_kind meta))
              (is_alive l && is_state l "claude")
              (match resume with Ok recorded => has_resume_id recorded | Err _ => false end)
              (negb (bool_decide (lv_origin l = O_None))))
  | _ => None
  end.

Definition host_pressure_candidate (name : string) (memory_kb : option Z) (foreground now_ms : Z) (l : Live)
    (meta : result (option SessionMeta) string) (resume : result (option ClaudeMeta) string)
  : option Guardian.HostPressureCandidate :=
  match meta with
  | Ok (Some meta) =>
      if (sm_slot meta =? foreground)%Z || negb (is_agent (sm_kind meta)) || negb (is_alive l)
         || negb (is_state l "claude") || negb (bool_decide (lv_origin l = O_None))
         || (sat_sub64 now_ms (lv_last_user_ms l) <? Guardian.RECENT_USE_MS)%Z
      then None
      else if match resume with Ok recorded => has_resume_id recorded | Err _ => false end
           then Some (Guardian.mk_host_candidate name (default 0%Z memory_kb) (lv_last_user_ms l))
           else None
  | _ => None
  end.

Definition opt_min (a b : option Z) : option Z :=
  match a, b with
  | Some x, Some y => Some (Z.min x y)
  | None, _ => b
  | _, None => a
  end.

(** [filter().map().filter().min()] over the registered sessions *)
Definition pressure_suspend_pending_since (sessions : list Live) : option Z :=
  foldr (fun l m =>
    if bool_decide (lv_origin l = O_Pressure) && negb (is_state l "suspended") && negb (lv_started_ms l =? 0)%Z
    then opt_min (Some (lv_started_ms l)) m else m) None sessions.

(** The phase a client is shown. *)
Definition shown_run_state (l : Live) : option string :=
  match lv_run_state l with
  | Some s => if bool_decide (lv_origin l = O_Pressure) && (s =? "suspended")%string then Some "resource-suspended"%string else Some s
  | None => None
  end.

(** ** Runs

    The operations on one session in the order they take its lock, with any answers,
    and what else changes its state: output, the child's exit, and other sessions
    taking the foreground. *)
Inductive request :=
| R_automatic
| R_suspend (origin : SuspendOrigin)
| R_resume (cause : ResumeCause)
| R_focus
| R_write
| R_report (state : string) (seq : Z) (agent : bool)
| R_other.

Definition agent_answer (meta : result (option SessionMeta) string) : bool :=
  match meta with Ok (Some m) => is_agent (sm_kind m) | _ => false end.

Inductive step : St -> request -> list effect -> St -> Prop :=
| st_automatic s recency current meta resume now1 now2 alive delivered r s' out :
    suspend_for_automatic recency current meta resume now1 now2 alive delivered s = (r, s', out) ->
    step s R_automatic out s'
| st_suspend s origin current meta now delivered r s' out :
    suspend origin current meta now delivered s = (r, s', out) -> step s (R_suspend origin) out s'
| st_resume s cause current now meta delivered r s' out :
    resume cause current now meta delivered s = (r, s', out) -> step s (R_resume cause) out s'
| st_focus s current now meta1 meta2 delivered r s' out :
    focus_session current now meta1 meta2 delivered s = (r, s', out) -> step s R_focus out s'
| st_write s bytes current now meta1 meta2 delivered written r s' out :
    write bytes current now meta1 meta2 delivered written s = (r, s', out) -> step s R_write out s'
| st_report s state seq meta delivered r s' out :
    is_u64 seq -> set_run_state_report state seq meta delivered s = (r, s', out) ->
    step s (R_report state seq (agent_answer meta)) out s'
| st_output s now : step s R_other [] (mk_st (set_last_output_ms (Z.max now 1) (st_live s)) (st_foreground s))
| st_exit s : step s R_other [] (mk_st (set_exited (st_live s)) (st_foreground s))
| st_foreground_moved s slot : step s R_other [] (mk_st (st_live s) slot).

Inductive steps : St -> list request -> list effect -> St -> Prop :=
| steps_none s : steps s [] [] s
| steps_one s q out s' qs outs s'' : step s q out s' -> steps s' qs outs s'' -> steps s (q :: qs) (out ++ outs) s''.

(** ** Automatic suspension *)

(** All that must hold for the guardian to park a session. *)
Definition may_park (recency : AutomaticSuspendRecency) (current : bool)
    (meta : result (option SessionMeta) string) (resume : result (option ClaudeMeta) string)
    (now1 : Z) (still_alive : bool) (s : St) : bool :=
  let l := st_live s in
  current && is_alive l && still_alive
  && match meta, resume with
     | Ok (Some m), Ok recorded =>
         is_agent (sm_kind m) && has_resume_id recorded
         && match recency with Host => negb (sm_slot m =? st_foreground s)%Z | Memory => true end
     | _, _ => false
     end
  && is_state l "claude" && bool_decide (lv_origin l = O_None)
  && (Guardian.RECENT_USE_MS <=?
        sat_sub64 (Z.max now1 1) (match recency with Memory => last_used_ms l | Host => lv_last_user_ms l end))%Z.

#[local] Ltac refuse H Hfail := rewrite ?andb_false_r; cbn; by apply Hfail in H.

Lemma suspend_for_automatic_cases (recency : AutomaticSuspendRecency) (current : bool)
    (meta : result (option SessionMeta) string) (resume : result (option ClaudeMeta) string)
    (now1 now2 : Z) (still_alive delivered : bool) (s : St) :
  let '(r, s', out) := suspend_for_automatic recency current meta resume now1 now2 still_alive delivered s in
  let parked := may_park recency current meta resume now1 still_alive s && delivered
                && bool_decide (is_Some (lv_pid (st_live s))) in
  is_ok r = parked
  /\ if parked : bool then
       r = Ok (Z.max now2 (Z.max now1 1)) /\ out = [Sigusr1]
       /\ s' = mk_st (set_memory_suspend_started_ms (Z.max now1 1) (set_origin O_Pressure (st_live s))) (st_foreground s)
     else s' = s /\ out = [].
Proof.
  destruct (suspend_for_automatic recency current meta resume now1 now2 still_alive delivered s) as [[r s'] out] eqn:H.
  destruct s as [[pid exited rs seq o lu lo st rd pd] fg].
  unfold suspend_for_automatic, ensure_current_session, sbind, live, answer, modify, vanished, sret, bail, claim_suspend,
    suspend_supervisor, signal_supervisor, sattempt, restore_suspend_origin, sbind, live, sret, bail in H.
  unfold may_park, is_state, is_alive in *. cbn in H |- *.
  rewrite Z.leb_antisym.
  assert (Hfail : forall e, (Err e : result Z string, mk_st (mk_live pid exited rs seq o lu lo st rd pd) fg, []) = (r, s', out) ->
    is_ok r = false /\ s' = mk_st (mk_live pid exited rs seq o lu lo st rd pd) fg /\ out = []) by (by intros e [= <- <- <-]).
  destruct current, exited, still_alive; cbn in H |- *; try refuse H Hfail;
    (destruct meta as [[m|]|]; cbn in H |- *; try refuse H Hfail);
    (destruct (is_agent (sm_kind m)); cbn in H |- *; try (destruct resume; refuse H Hfail));
    (destruct (bool_decide (rs = Some "claude"%string)); cbn in H |- *; try (destruct resume; refuse H Hfail));
    (destruct resume as [rec|]; cbn in H |- *; try refuse H Hfail);
    (destruct (has_resume_id rec); cbn in H |- *; try refuse H Hfail);
    (destruct (bool_decide_reflect (o = O_None)) as [-> | _]; cbn in H |- *; try (destruct recency; refuse H Hfail));
    (destruct recency; cbn in H |- *);
    try (destruct (sm_slot m =? fg)%Z; cbn in H |- *; try refuse H Hfail);
    (destruct (_ <? Guardian.RECENT_USE_MS)%Z; cbn in H |- *; try refuse H Hfail);
    (destruct pid, delivered; cbn in H |- *; injection H as <- <- <-; done).
Qed.

(** The guardian parks a session exactly when it is registered, alive before and
    after the checks, an agent with a recorded resume id that is running, not
    suspended, not used for two minutes (and for host pressure not in the
    foreground), and the signal is delivered.  Then it is marked with the instant of
    the decision, and otherwise nothing has changed, a failed signal included. *)
Theorem automatic_suspend_spec (recency : AutomaticSuspendRecency) (current : bool)
    (meta : result (option SessionMeta) string) (resume : result (option ClaudeMeta) string)
    (now1 now2 : Z) (still_alive delivered : bool) (s : St) :
  let '(r, s', out) := suspend_for_automatic recency current meta resume now1 now2 still_alive delivered s in
  let parked := may_park recency current meta resume now1 still_alive s && delivered
                && bool_decide (is_Some (lv_pid (st_live s))) in
  is_ok r = parked
  /\ if parked : bool then
       r = Ok (Z.max now2 (Z.max now1 1)) /\ out = [Sigusr1]
       /\ s' = mk_st (set_memory_suspend_started_ms (Z.max now1 1) (set_origin O_Pressure (st_live s))) (st_foreground s)
     else s' = s /\ out = [].
Proof. apply suspend_for_automatic_cases. Qed.

Lemma recent_clamped now last :
  (0 <= now)%Z -> (0 <= last)%Z ->
  (Guardian.RECENT_USE_MS <=? sat_sub64 (Z.max now 1) last)%Z = (Guardian.RECENT_USE_MS <=? sat_sub64 now last)%Z.
Proof. intros Hn Hl. unfold Guardian.RECENT_USE_MS, sat_sub64. apply eq_true_iff_eq. rewrite !Z.leb_le. lia. Qed.

(** What the guardian may choose and what the manager will park agree: in one
    state of a session, with one answer of the store, it is an eligible memory
    candidate, or a host-pressure candidate, iff suspending it succeeds. *)
Theorem candidates_suspendable (name : string) (memory_kb : option Z) (s : St) (pid : Z)
    (meta : result (option SessionMeta) string) (resume : result (option ClaudeMeta) string) (now now2 : Z)
    (Hnow : (0 <= now)%Z) (Hused : (0 <= lv_last_user_ms (st_live s))%Z) (Hpid : lv_pid (st_live s) = Some pid) :
  ((exists c, memory_candidate name memory_kb (st_live s) meta resume = Some c /\ Guardian.eligible now c = true)
   <-> is_ok (suspend_for_automatic Memory true meta resume now now2 true true s).1.1 = true)
  /\ (is_Some (host_pressure_candidate name memory_kb (st_foreground s) now (st_live s) meta resume)
      <-> is_ok (suspend_for_automatic Host true meta resume now now2 true true s).1.1 = true).
Proof.
  pose proof (suspend_for_automatic_cases Memory true meta resume now now2 true true s) as Hm.
  pose proof (suspend_for_automatic_cases Host true meta resume now now2 true true s) as Hh.
  destruct (suspend_for_automatic Memory true meta resume now now2 true true s) as [[rm sm] om].
  destruct (suspend_for_automatic Host true meta resume now now2 true true s) as [[rh sh] oh].
  destruct Hm as [Hm _], Hh as [Hh _]. cbn [fst]. rewrite Hm, Hh. clear Hm Hh.
  rewrite Hpid, bool_decide_true, !andb_true_r by eauto. unfold may_park. rewrite !recent_clamped by (unfold last_used_ms; lia). simpl.
  split.
  - unfold memory_candidate, Guardian.eligible. destruct meta as [[m|]|]; [|split; [by intros (?&?&?)|by rewrite andb_false_r]..].
    split.
    + intros (c & [= <-] & H). cbn in H. destruct resume; [|by rewrite andb_false_r in H].
      rewrite negb_involutive in H. rewrite !andb_true_iff in *. tauto.
    + intros H. eexists. split; [done|]. cbn. destruct resume; [|by rewrite andb_false_r in H].
      rewrite negb_involutive. rewrite !andb_true_iff in *. tauto.
  - unfold host_pressure_candidate. destruct meta as [[m|]|]; [|split; [by intros [? ?]|by rewrite andb_false_r]..].
    rewrite Z.leb_antisym.
    destruct (sm_slot m =? st_foreground s)%Z, (is_agent (sm_kind m)), (is_alive (st_live s)), (is_state (st_live s) "claude"),
      (bool_decide (lv_origin (st_live s) = O_None)), (_ <? Guardian.RECENT_USE_MS)%Z, resume as [rec|]; simpl;
      rewrite ?andb_false_r, ?andb_true_r; try (split; [by intros [? ?]|done]).
    by destruct (has_resume_id rec).
Qed.

(** ** Invariants of runs *)

(** The parking clock runs exactly during an automatic suspension. *)
Definition clocked (l : Live) : Prop := lv_origin l = O_Pressure <-> lv_started_ms l <> 0%Z.

Lemma clocked_set_origin_started o n l :
  (o = O_Pressure <-> n <> 0%Z) -> clocked (set_memory_suspend_started_ms n (set_origin o l)).
Proof. done. Qed.

(** ** What each operation can do *)
Ltac open_op H :=
  unfold suspend, resume, focus_session, write, set_run_state_report, resume_locked, set_foreground_locked,
    ensure_current_session, suspend_supervisor, resume_supervisor, signal_supervisor, vanished, claim_suspend,
    restore_suspend_origin, clear_suspend_origin, mark_user_activity, is_state,
    sbind, sattempt, sret, bail, live, modify, answer in H; cbn in H.

(** Decides the next condition of the operation and closes the branches that end. *)
Ltac branch H c tac := destruct c; cbn in H; try (solve [injection H as <- <- <-; tac]).

#[local] Ltac stop := split; [by constructor|by left].

Lemma suspend_cases origin current meta now delivered s r s' out :
  suspend origin current meta now delivered s = (r, s', out) ->
  Forall (eq Sigusr1) out
  /\ (s' = s \/
      r = Ok tt /\ lv_origin (st_live s) <> O_Manual /\ origin <> O_None
      /\ s' = mk_st (set_memory_suspend_started_ms (match origin with O_Pressure => Z.max now 1 | _ => 0 end)
                       (set_origin origin (st_live s))) (st_foreground s)).
Proof.
  destruct s as [[pid ex rs seq o lu lo st rd pd] fg]. intros H.
  open_op H. branch H (decide (origin = O_None)) stop. branch H (current && is_alive (mk_live pid ex rs seq o lu lo st rd pd)) stop.
  destruct meta as [[m|]|]; cbn in H; try (solve [injection H as <- <- <-; stop]).
  branch H (is_agent (sm_kind m)) stop.
  destruct (bool_decide (rs = Some "claude-retrying"%string) || bool_decide (rs = Some "shell-fallback"%string)); cbn in H;
    [injection H as <- <- <-; stop|].
  destruct (bool_decide (rs = Some "claude"%string)), (bool_decide (rs = Some "suspended"%string)); cbn in H;
    try (solve [injection H as <- <- <-; stop]);
    destruct origin, o; try done; cbn in H; try (solve [injection H as <- <- <-; stop]);
    destruct pid, delivered; cbn in H; injection H as <- <- <-;
    (split; [by repeat constructor|]); first [by left|by right].
Qed.

Definition eligible_cause (cause : ResumeCause) (l : Live) : Prop :=
  match cause with Manual => lv_origin l <> O_None | Focus => lv_origin l = O_Pressure end.

(** Nothing, a queued resume, or a resume. *)
Definition resumed (cause : ResumeCause) (s s' : St) (out : list effect) : Prop :=
  (s' = s /\ out = [])
  \/ eligible_cause cause (st_live s)
     /\ (s' = mk_st (set_pending_resume true (st_live s)) (st_foreground s) /\ out = []
         \/ s' = mk_st (set_memory_suspend_started_ms 0 (set_origin O_None (st_live s))) (st_foreground s)
            /\ out = [Sigusr2]).

#[local] Ltac same := by left.

Lemma resume_locked_cases cause meta delivered s r s' out :
  resume_locked cause meta delivered s = (r, s', out) -> resumed cause s s' out.
Proof.
  destruct s as [[pid ex rs seq o lu lo st rd pd] fg]. intros H. unfold resumed.
  open_op H. destruct cause, o; cbn in H; try (solve [injection H as <- <- <-; same]).
  all: destruct meta as [[m|]|]; cbn in H; try (solve [injection H as <- <- <-; same]);
    branch H (is_agent (sm_kind m)) same;
    destruct rd, (bool_decide (rs = Some "suspended"%string)); cbn in H;
    try (injection H as <- <- <-; right; split; [done|]; by left);
    destruct pid, delivered; cbn in H; injection H as <- <- <-; try same; right; (split; [done|]); by right.
Qed.

(** What comes before it in [resume], [focus_session] and [write] moves the
    foreground and the user's clock only. *)
Definition touched (s s1 : St) : Prop :=
  exists n, st_live s1 = set_last_user_ms n (st_live s) \/ st_live s1 = st_live s.

Lemma resume_cases cause current now meta delivered s r s' out :
  resume cause current now meta delivered s = (r, s', out) -> exists s1, touched s s1 /\ resumed cause s1 s' out.
Proof.
  unfold resume, ensure_current_session, sbind, live, modify, sret, bail. intros H.
  destruct (current && is_alive (st_live s)).
  - destruct (resume_locked _ _ _ _) as [[r1 s1] out1] eqn:Hr. injection H as <- <- <-.
    eexists. split; [|exact (resume_locked_cases _ _ _ _ _ _ _ Hr)]. eexists; left; reflexivity.
  - injection H as <- <- <-. exists s. split; [exists 0%Z; by right|by left].
Qed.

Lemma focus_cases current now meta1 meta2 delivered s r s' out :
  focus_session current now meta1 meta2 delivered s = (r, s', out) -> exists s1, touched s s1 /\ resumed Focus s1 s' out.
Proof.
  assert (Hs : exists s1, touched s s1 /\ resumed Focus s1 s []) by (exists s; split; [exists 0%Z; by right|by left]).
  unfold focus_session, ensure_current_session, set_foreground_locked, vanished, answer, sbind, live, modify, sret, bail.
  intros H. destruct (current && is_alive (st_live s)); [|by injection H as <- <- <-].
  destruct meta1 as [[m|]|]; [|by injection H as <- <- <-..]. cbn in H.
  destruct (resume_locked _ _ _ _) as [[r1 s1] out1] eqn:Hr. injection H as <- <- <-.
  eexists. split; [|exact (resume_locked_cases _ _ _ _ _ _ _ Hr)]. eexists; left; reflexivity.
Qed.

(** Input reaches the child only past a resume, and never while parked by hand. *)
Lemma write_cases bytes current now meta1 meta2 delivered written s r s' out :
  write bytes current now meta1 meta2 delivered written s = (r, s', out) ->
  exists s1 out1, touched s s1 /\ resumed Focus s1 s' out1
    /\ (out = out1 \/ out = out1 ++ [Input bytes] /\ lv_origin (st_live s') <> O_Manual).
Proof.
  assert (Hs : exists s1 out1, touched s s1 /\ resumed Focus s1 s out1 /\ ([] = out1 \/ [] = out1 ++ [Input bytes] /\ lv_origin (st_live s) <> O_Manual)).
  { exists s, []. split; [exists 0%Z; by right|]. split; [by left|by left]. }
  unfold write, ensure_current_session, set_foreground_locked, vanished, answer, sbind, live, modify, sret, bail.
  intros H. destruct (current && is_alive (st_live s)); [|by injection H as <- <- <-].
  destruct meta1 as [[m|]|]; [|by injection H as <- <- <-..]. cbn in H.
  destruct (resume_locked _ _ _ _) as [[[a|e] s1] out1] eqn:Hr; apply resume_locked_cases in Hr.
  - destruct (decide (lv_origin (st_live s1) = O_Manual)) as [Hm|Hm]; injection H as <- <- <-; rewrite ?app_nil_r.
    + eexists _, out1. split; [|split; [exact Hr|by left]]. eexists; left; reflexivity.
    + eexists _, out1. split; [|split; [exact Hr|by right]]. eexists; left; reflexivity.
  - injection H as <- <- <-. eexists _, out1. split; [|split; [exact Hr|by left]]. eexists; left; reflexivity.
Qed.

Definition projected (state : string) : string := if (state =? "suspend-failed")%string then "claude" else state.

(** An accepted report records the phase and the number; the flags follow. *)
Lemma report_cases state seq meta delivered s r s' out :
  set_run_state_report state seq meta delivered s = (r, s', out) ->
  let l := st_live s in
  let l1 := set_run_state_seq (if (0 <? seq)%Z then seq else lv_run_state_seq l) (set_run_state (Some (projected state)) l) in
  let fg := st_foreground s in
  if valid_report state && agent_answer meta && negb (stale_report l seq) then
    let parked := set_origin (match lv_origin l with O_None => O_Manual | o => o end) (set_ready true l1) in
    if (state =? "suspended")%string then
      if lv_pending_resume l then
        s' = mk_st (set_pending_resume true parked) fg /\ out = [] \/
        s' = mk_st (set_memory_suspend_started_ms 0 (set_origin O_None (set_pending_resume false parked))) fg /\ out = [Sigusr2]
      else s' = mk_st parked fg /\ out = []
    else if (state =? "suspend-failed")%string || ((state =? "shell-fallback")%string && negb (lv_ready l)) then
      s' = mk_st (set_memory_suspend_started_ms 0 (set_origin O_None (set_pending_resume false (set_ready true l1)))) fg /\ out = []
    else s' = mk_st l1 fg /\ out = []
  else s' = s /\ out = [].
Proof.
  destruct s as [[pid ex rs sq o lu lo st rd pd] fg]. intros H. unfold agent_answer, projected. cbn zeta.
  open_op H.
  destruct (valid_report state); cbn in H |- *; [|by injection H as <- <- <-].
  destruct meta as [[m|]|]; cbn in H |- *; try (by injection H as <- <- <-).
  destruct (is_agent (sm_kind m)); cbn in H |- *; [|by injection H as <- <- <-].
  destruct (stale_report _ _); cbn in H |- *; [by injection H as <- <- <-|].
  destruct (0 <? seq)%Z; cbn in H |- *;
    (destruct (state =? "suspended")%string eqn:Hst; cbn in H |- *;
     [destruct o; cbn in H |- *; (destruct pd; cbn in H |- *; [destruct pid, delivered; cbn in H |- *|]);
        injection H as <- <- <-; first [by split|by left|by right]
     |destruct (state =? "suspend-failed")%string, (state =? "shell-fallback")%string, rd; cbn in H |- *;
        injection H as <- <- <-; done]).
Qed.

(** ** The clock of a suspension *)
Lemma touched_flags s s1 :
  touched s s1 -> lv_origin (st_live s1) = lv_origin (st_live s) /\ lv_started_ms (st_live s1) = lv_started_ms (st_live s)
  /\ lv_pending_resume (st_live s1) = lv_pending_resume (st_live s) /\ lv_run_state (st_live s1) = lv_run_state (st_live s)
  /\ lv_run_state_seq (st_live s1) = lv_run_state_seq (st_live s).
Proof. by intros (n & [-> | ->]). Qed.

Lemma touched_clocked s s1 : touched s s1 -> clocked (st_live s) -> clocked (st_live s1).
Proof. intros (H1 & H2 & _)%touched_flags. unfold clocked. by rewrite H1, H2. Qed.

Lemma resumed_clocked cause s s' out : resumed cause s s' out -> clocked (st_live s) -> clocked (st_live s').
Proof. intros [[-> _]|(_ & [[-> _]|[-> _]])] Hc; [done|done|]. by split. Qed.

Lemma step_clocked s q out s' : step s q out s' -> clocked (st_live s) -> clocked (st_live s').
Proof.
  intros Hs Hc. destruct Hs.
  - pose proof (suspend_for_automatic_cases recency current meta resume0 now1 now2 alive delivered s) as Ha.
    rewrite H in Ha. destruct Ha as [_ Ha]. destruct (_ && _).
    + destruct Ha as (_ & _ & ->). split; [cbn; lia|done].
    + by destruct Ha as [-> _].
  - destruct (suspend_cases _ _ _ _ _ _ _ _ _ H) as [_ [-> |(_ & _ & Hne & ->)]]; [done|].
    apply clocked_set_origin_started. destruct origin; [done|by split|]. split; [lia|done].
  - destruct (resume_cases _ _ _ _ _ _ _ _ _ H) as (s1 & H1 & H2). eapply resumed_clocked, touched_clocked; eauto.
  - destruct (focus_cases _ _ _ _ _ _ _ _ _ H) as (s1 & H1 & H2). eapply resumed_clocked, touched_clocked; eauto.
  - destruct (write_cases _ _ _ _ _ _ _ _ _ _ _ H) as (s1 & out1 & H1 & H2 & _).
    eapply resumed_clocked, touched_clocked; eauto.
  - pose proof (report_cases _ _ _ _ _ _ _ _ H0) as Hr. cbn zeta in Hr.
    unfold clocked in *. destruct (_ && _); [|by destruct Hr as [-> _]].
    destruct (state =? "suspended")%string.
    + assert (Hp : (match lv_origin (st_live s) with O_None => O_Manual | o => o end = O_Pressure) <-> lv_started_ms (st_live s) <> 0%Z).
      { destruct (lv_origin (st_live s)); try done. split; [done|]. intros ?%Hc. done. }
      destruct (lv_pending_resume (st_live s)); [destruct Hr as [[-> _]|[-> _]]|destruct Hr as [-> _]]; done.
    + destruct (_ || _); destruct Hr as [-> _]; [by split|done].
  - done.
  - done.
  - done.
Qed.

Lemma steps_clocked s qs outs s' : steps s qs outs s' -> clocked (st_live s) -> clocked (st_live s').
Proof. induction 1 as [|s q out s1 qs outs s2 H _ IH]; [done|]. intros Hc. eapply IH, step_clocked; eauto. Qed.

(** A session as the daemon starts it: fresh, or respawned with the suspension its
    predecessor had. *)
Inductive started : Live -> Prop :=
| started_fresh pid now : started (fresh pid now)
| started_suspended pid now origin n :
    origin <> O_None -> (origin = O_Pressure <-> n <> 0%Z) -> started (restored_suspended pid now origin n).

Lemma started_clocked l : started l -> clocked l.
Proof. by intros [pid now|pid now o n Ho Hn]. Qed.

Lemma opt_min_None a b : opt_min a b = None <-> a = None /\ b = None.
Proof. destruct a, b; simpl; naive_solver. Qed.

(** The guardian's view of suspensions in flight is exact.  After any operations,
    failed ones included, on sessions started fresh or respawned parked, a session
    has a parking time iff it is suspended automatically; so nothing is pending iff
    no session is automatically suspended without its supervisor having confirmed,
    and otherwise what is reported is the earliest of those times. *)
Theorem pending_since_exact (sessions : list Live)
    (Hruns : Forall (fun l => exists l0 fg0 qs outs fg, started l0 /\ steps (mk_st l0 fg0) qs outs (mk_st l fg)) sessions) :
  let pending l := lv_origin l = O_Pressure /\ lv_run_state l <> Some "suspended"%string in
  match pressure_suspend_pending_since sessions with
  | None => forall l, l ∈ sessions -> ~ pending l
  | Some t => (exists l, l ∈ sessions /\ pending l /\ lv_started_ms l = t)
              /\ forall l, l ∈ sessions -> pending l -> (t <= lv_started_ms l)%Z
  end.
Proof.
  assert (Hc : Forall clocked sessions).
  { eapply Forall_impl; [exact Hruns|]. intros l (l0 & fg0 & qs & outs & fg & H1 & H2).
    apply (steps_clocked _ _ _ _ H2), started_clocked, H1. }
  clear Hruns. intros pending. induction sessions as [|l sessions IH]; simpl; [by intros l Hl%not_elem_of_nil|].
  apply Forall_cons in Hc as [Hl Hc]. specialize (IH Hc).
  assert (Hp : bool_decide (lv_origin l = O_Pressure) && negb (is_state l "suspended") && negb (lv_started_ms l =? 0)%Z = true
               <-> pending l).
  { unfold is_state, pending. rewrite !andb_true_iff, bool_decide_eq_true, !negb_true_iff, bool_decide_eq_false, Z.eqb_neq.
    unfold clocked in Hl. tauto. }
  destruct (_ && _) eqn:Hb.
  - apply proj1 in Hp. specialize (Hp eq_refl). destruct (pressure_suspend_pending_since sessions) as [t|]; simpl.
    + destruct IH as [(l' & H1 & H2 & H3) H4]. split.
      * destruct (Z.min_spec (lv_started_ms l) t) as [[_ ->]|[_ ->]]; [exists l|exists l']; (split; [by (left || right)|done]).
      * intros k [->|Hk]%elem_of_cons Hkp; [lia|]. specialize (H4 k Hk Hkp). lia.
    + split; [exists l; split; [left|done]|]. intros k [->|Hk]%elem_of_cons Hkp; [lia|]. by apply IH in Hkp.
  - assert (Hn : ~ pending l) by (intros H; apply Hp in H; congruence).
    destruct (pressure_suspend_pending_since sessions) as [t|].
    + destruct IH as [(l' & H1 & H2 & H3) H4]. split; [exists l'; split; [by right|done]|].
      intros k [->|Hk]%elem_of_cons Hkp; [done|]. by apply H4.
    + intros k [->|Hk]%elem_of_cons; [done|]. by apply IH.
Qed.

(** ** A suspension by hand *)

(** Requests that may end one: a resume by hand, and the reports that the agent could
    not be parked or is gone. *)
Definition ends_manual (q : request) : bool :=
  match q with
  | R_resume Manual => true
  | R_report state _ _ => (state =? "suspend-failed")%string || (state =? "shell-fallback")%string
  | _ => false
  end.

Definition parked_by_hand (l : Live) : Prop := lv_origin l = O_Manual /\ lv_pending_resume l = false.

(** Neither a wake-up nor input. *)
Definition undisturbed (out : list effect) : Prop := Forall (eq Sigusr1) out.

Lemma resumed_manual cause s1 s' out :
  cause = Focus -> parked_by_hand (st_live s1) -> resumed cause s1 s' out -> s' = s1 /\ out = [].
Proof. intros -> [Ho _] [H|[He _]]; [done|]. simpl in He. congruence. Qed.

Lemma touched_parked s s1 : touched s s1 -> parked_by_hand (st_live s) -> parked_by_hand (st_live s1).
Proof. intros (H1 & _ & H2 & _)%touched_flags. unfold parked_by_hand. by rewrite H1, H2. Qed.

Lemma step_parked s q out s' :
  step s q out s' -> ends_manual q = false -> parked_by_hand (st_live s) -> parked_by_hand (st_live s') /\ undisturbed out.
Proof.
  intros Hs Hq Hp. assert (Hnil : undisturbed []) by constructor. destruct Hs.
  - pose proof (suspend_for_automatic_cases recency current meta resume0 now1 now2 alive delivered s) as Ha.
    rewrite H in Ha. destruct Ha as [_ Ha]. destruct (_ && _) eqn:Hb; [|by destruct Ha as [-> ->]].
    unfold may_park in Hb. rewrite !andb_true_iff, bool_decide_eq_true in Hb. assert (Ho : lv_origin (st_live s) = O_None) by tauto. destruct Hp as [Hm _]. congruence.
  - destruct (suspend_cases _ _ _ _ _ _ _ _ _ H) as [Hout [-> |(_ & Hne & _ & ->)]]; [done|]. by destruct Hp.
  - destruct cause; [done|]. destruct (resume_cases _ _ _ _ _ _ _ _ _ H) as (s1 & H1 & H2).
    apply resumed_manual in H2 as [-> ->]; [|done|by eapply touched_parked]. split; [by eapply touched_parked|done].
  - destruct (focus_cases _ _ _ _ _ _ _ _ _ H) as (s1 & H1 & H2).
    apply resumed_manual in H2 as [-> ->]; [|done|by eapply touched_parked]. split; [by eapply touched_parked|done].
  - destruct (write_cases _ _ _ _ _ _ _ _ _ _ _ H) as (s1 & out1 & H1 & H2 & H3).
    apply resumed_manual in H2 as [-> ->]; [|done|by eapply touched_parked].
    pose proof (touched_parked _ _ H1 Hp) as Hp1. split; [done|].
    destruct H3 as [-> |[_ Hn]]; [done|]. by destruct Hp1.
  - pose proof (report_cases _ _ _ _ _ _ _ _ H0) as Hr. cbn zeta in Hr. simpl in Hq.
    apply orb_false_iff in Hq as [Hq1 Hq2]. rewrite Hq1, Hq2 in Hr. simpl in Hr. destruct Hp as [Ho Hpd].
    destruct (_ && _); [|by destruct Hr as [-> ->]]. rewrite Hpd, Ho in Hr.
    destruct (state =? "suspended")%string; by destruct Hr as [-> ->].
  - done.
  - done.
  - done.
Qed.

(** C15. What is parked by hand stays parked.  From a manual suspension with no resume
    queued, whatever focus, input, automatic suspensions, reports, exits and
    failures follow, as long as nobody resumes by hand and the supervisor does not
    report failure, the session stays suspended by hand, is sent no wake-up and no
    input reaches it. *)
Theorem manual_suspension_holds (s : St) (qs : list request) (outs : list effect) (s' : St)
    (Hparked : parked_by_hand (st_live s)) (Hrun : steps s qs outs s')
    (Hnone : Forall (fun q => ends_manual q = false) qs) :
  parked_by_hand (st_live s') /\ undisturbed outs.
Proof.
  revert Hparked Hnone. induction Hrun as [s|s q out s1 qs outs s2 Hs _ IH]; intros Hp Hn; [split; [done|constructor]|].
  apply Forall_cons in Hn as [Hq Hn]. destruct (step_parked _ _ _ _ Hs Hq Hp) as [H1 H2].
  destruct (IH H1 Hn) as [H3 H4]. split; [done|]. by apply Forall_app.
Qed.

(** *** A queued resume outlives it *)
Definition agent_meta : SessionMeta := mk_meta "agent" "/" Claude 0 None false false None 1.

(** A focus that came while the agent was being parked automatically undoes a later
    suspension by hand.  The focus is queued; the user's suspend then succeeds; and
    when the supervisor confirms the parking, the queued resume fires: the agent is
    woken and no longer suspended, although suspending was the last request. *)
Theorem queued_focus_undoes_manual (l : Live) (fg pid now1 now2 seq : Z)
    (Hpid : lv_pid l = Some pid) (Halive : lv_exited l = false) (Hstate : lv_run_state l = Some "claude"%string)
    (Horigin : lv_origin l = O_Pressure) (Hseq : (lv_run_state_seq l < seq)%Z) (Hpos : (0 < seq)%Z) :
  let meta := Ok (Some agent_meta) in
  exists s1 s2 s3,
    focus_session true now1 meta meta true (mk_st l fg) = (Ok true, s1, [])
    /\ suspend O_Manual true meta now2 true s1 = (Ok tt, s2, [Sigusr1]) /\ lv_origin (st_live s2) = O_Manual
    /\ set_run_state_report "suspended" seq meta true s2 = (Ok true, s3, [Sigusr2])
    /\ lv_origin (st_live s3) = O_None.
Proof.
  destruct l as [pid' ex rs sq o lu lo st rd pd]. cbn in *. subst.
  exists (mk_st (mk_live (Some pid) false (Some "claude"%string) sq O_Pressure (Z.max now1 1) lo st rd true) 1),
    (mk_st (mk_live (Some pid) false (Some "claude"%string) sq O_Manual (Z.max now1 1) lo 0 rd true) 1),
    (mk_st (mk_live (Some pid) false (Some "suspended"%string) seq O_None (Z.max now1 1) lo 0 true false) 1).
  split; [|split; [|split; [|split]]].
  - unfold focus_session, ensure_current_session, set_foreground_locked, vanished, answer, sbind, live, modify, sret, bail,
      resume_locked, is_state, sbind, live, answer, modify, sret, bail. cbn. by rewrite orb_true_r.
  - unfold suspend, ensure_current_session, vanished, answer, sbind, live, modify, sret, bail, is_state, sattempt,
      suspend_supervisor, signal_supervisor, claim_suspend, sbind, live. reflexivity.
  - reflexivity.
  - unfold set_run_state_report, stale_report. cbn [lv_run_state_seq st_live].
    unfold sbind, live, modify, sret, bail, sattempt, resume_supervisor, signal_supervisor, sbind, live.
    change (valid_report "suspended") with true. cbn.
    rewrite (proj2 (Z.eqb_neq seq 0)), (proj2 (Z.ltb_lt 0 seq)), (proj2 (Z.leb_gt seq sq)) by lia. cbn. reflexivity.
  - reflexivity.
Qed.

Lemma queued_focus_undoes_manual_witness :
  exists l s1 s2 s3,
    focus_session true 5 (Ok (Some agent_meta)) (Ok (Some agent_meta)) true (mk_st l 0) = (Ok true, s1, [])
    /\ suspend O_Manual true (Ok (Some agent_meta)) 6 true s1 = (Ok tt, s2, [Sigusr1])
    /\ set_run_state_report "suspended" 2 (Ok (Some agent_meta)) true s2 = (Ok true, s3, [Sigusr2])
    /\ lv_origin (st_live s3) = O_None.
Proof.
  set (l := mk_live (Some 7%Z) false (Some "claude"%string) 1 O_Pressure 1 1 4 true false).
  destruct (queued_focus_undoes_manual l 0 7 5 6 2) as (s1 & s2 & s3 & H1 & H2 & _ & H3 & H4);
    [reflexivity|reflexivity|reflexivity|reflexivity|simpl; lia|lia|]. by exists l, s1, s2, s3.
Defined.

(** Input refused, focus ignored, a repeated suspension. *)
Lemma manual_suspension_holds_witness :
  exists s s' outs, parked_by_hand (st_live s) /\ steps s [R_focus; R_suspend O_Manual] outs s' /\ undisturbed outs /\ outs <> [].
Proof.
  set (l := mk_live (Some 7%Z) false (Some "claude"%string) 1 O_Manual 1 1 0 true false).
  assert (R : exists s' outs, steps (mk_st l 0) [R_focus; R_suspend O_Manual] outs s' /\ outs = [Sigusr1]).
  { eexists _, _. split.
    - eapply steps_one; [eapply (st_focus _ true 5 (Ok (Some agent_meta)) (Ok (Some agent_meta)) true); reflexivity|].
      eapply steps_one; [eapply (st_suspend _ O_Manual true (Ok (Some agent_meta)) 6 true); reflexivity|]. apply steps_none.
    - reflexivity. }
  destruct R as (s' & outs & Hrun & Houts). exists (mk_st l 0), s', outs.
  destruct (manual_suspension_holds (mk_st l 0) [R_focus; R_suspend O_Manual] outs s') as [_ H];
    [by split|exact Hrun|by apply Forall_cons; split; [|apply Forall_cons; split; [|constructor]]|]. subst outs. split; [by split|]. split; [exact Hrun|]. split; [exact H|discriminate].
Defined.

Lemma candidates_suspendable_witness :
  exists l, is_ok (suspend_for_automatic Memory true (Ok (Some agent_meta)) (Ok (Some (mk_claude "id" "/" 0 None None)))
                     200000 200001 true true (mk_st l 0)).1.1 = true.
Proof.
  set (l := mk_live (Some 7%Z) false (Some "claude"%string) 1 O_None 1 1 0 true false). exists l.
  refine (proj1 (proj1 (candidates_suspendable "agent" None (mk_st l 0) 7 (Ok (Some agent_meta))
    (Ok (Some (mk_claude "id" "/" 0 None None))) 200000 200001 _ _ _)) _); [lia|simpl; lia|reflexivity|]. eexists. split; [reflexivity|]. vm_compute. reflexivity.
Defined.

Lemma pending_since_exact_witness :
  exists l, lv_origin l = O_Pressure
    /\ exists t, pressure_suspend_pending_since [l] = Some t /\ exists l', l' ∈ [l] /\ lv_started_ms l' = t.
Proof.
  set (l := set_run_state (Some "claude"%string) (restored_suspended (Some 7%Z) 3 O_Pressure 9)).
  exists l. split; [reflexivity|]. exists 9%Z. split; [reflexivity|].
  pose proof (pending_since_exact [l]) as H. cbn zeta in H.
  assert (Hrun : exists l0 fg0 qs outs fg, started l0 /\ steps (mk_st l0 fg0) qs outs (mk_st l fg)).
  { exists (restored_suspended (Some 7%Z) 3 O_Pressure 9), 0%Z, [R_report "claude" 0 true], ([] ++ []), 0%Z. split.
    - constructor; [discriminate|by split].
    - eapply steps_one; [|apply steps_none].
      apply (st_report _ "claude" 0 (Ok (Some agent_meta)) true (Ok true) _ []); [by split|reflexivity]. }
  specialize (H (proj2 (Forall_cons _ _ _) (conj Hrun (Forall_nil_2 _)))).
  change (pressure_suspend_pending_since [l]) with (Some 9%Z) in H. destruct H as [(l' & H1 & _ & H2) _]. by exists l'.
Defined.

(** ** Reports *)

(** The phase and number the reports leave, in the order they arrive. *)
Fixpoint reported (known : option string * Z) (qs : list request) : option string * Z :=
  match qs with
  | [] => known
  | R_report state seq true :: qs' =>
      reported (if valid_report state && negb (((seq =? 0) && (0 <? known.2)) || ((0 <? seq) && (seq <=? known.2)))%Z
                then (Some (projected state), if (0 <? seq)%Z then seq else known.2) else known) qs'
  | _ :: qs' => reported known qs'
  end.

Definition phase (l : Live) : option string * Z := (lv_run_state l, lv_run_state_seq l).

Lemma resumed_phase cause s s' out : resumed cause s s' out -> phase (st_live s') = phase (st_live s).
Proof. by intros [[-> _]|(_ & [[-> _]|[-> _]])]. Qed.

Lemma touched_phase s s1 : touched s s1 -> phase (st_live s1) = phase (st_live s).
Proof. intros (_ & _ & _ & H1 & H2)%touched_flags. unfold phase. by rewrite H1, H2. Qed.

Lemma step_phase s q out s' : step s q out s' -> phase (st_live s') = reported (phase (st_live s)) [q].
Proof.
  intros Hs. destruct Hs; cbn [reported]; try done.
  - pose proof (suspend_for_automatic_cases recency current meta resume0 now1 now2 alive delivered s) as Ha.
    rewrite H in Ha. destruct Ha as [_ Ha]. destruct (_ && _); [by destruct Ha as (_ & _ & ->)|by destruct Ha as [-> _]].
  - destruct (suspend_cases _ _ _ _ _ _ _ _ _ H) as [_ [-> |(_ & _ & _ & ->)]]; done.
  - destruct (resume_cases _ _ _ _ _ _ _ _ _ H) as (s1 & H1 & H2). by rewrite (resumed_phase _ _ _ _ H2), (touched_phase _ _ H1).
  - destruct (focus_cases _ _ _ _ _ _ _ _ _ H) as (s1 & H1 & H2). by rewrite (resumed_phase _ _ _ _ H2), (touched_phase _ _ H1).
  - destruct (write_cases _ _ _ _ _ _ _ _ _ _ _ H) as (s1 & out1 & H1 & H2 & _).
    by rewrite (resumed_phase _ _ _ _ H2), (touched_phase _ _ H1).
  - pose proof (report_cases _ _ _ _ _ _ _ _ H0) as Hr. cbn zeta in Hr. unfold stale_report in Hr.
    destruct (agent_answer meta); [|rewrite andb_false_r in Hr; simpl in Hr; by destruct Hr as [-> _]].
    rewrite andb_true_r in Hr. cbn [phase fst snd]. destruct (_ && _); [|by destruct Hr as [-> _]].
    destruct (state =? "suspended")%string.
    + destruct (lv_pending_resume (st_live s)); [destruct Hr as [[-> _]|[-> _]]|destruct Hr as [-> _]]; done.
    + destruct (_ || _); destruct Hr as [-> _]; done.
Qed.

Lemma reported_app known qs qs' : reported known (qs ++ qs') = reported (reported known qs) qs'.
Proof. revert known. induction qs as [|[] qs IH]; intros known; simpl; try apply IH; [done|]. by destruct agent. Qed.

Lemma steps_phase s qs outs s' : steps s qs outs s' -> phase (st_live s') = reported (phase (st_live s)) qs.
Proof.
  induction 1 as [s|s q out s1 qs outs s2 H _ IH]; [done|].
  by rewrite IH, (step_phase _ _ _ _ H), (reported_app _ [q] qs : reported _ (q :: qs) = _).
Qed.

(** The versioned reports an agent's supervisor sent. *)
Definition versioned (q : request) : Prop :=
  match q with R_report state seq agent => agent = true /\ valid_report state = true /\ (0 < seq)%Z | _ => True end.

Definition below (n : Z) (q : request) : Prop := match q with R_report _ seq _ => (seq < n)%Z | _ => True end.

Lemma reported_below known qs n :
  Forall versioned qs -> Forall (below n) qs -> (known.2 < n)%Z -> ((reported known qs).2 < n)%Z.
Proof.
  revert known. induction qs as [|q qs IH]; intros known Hv Hb Hn; [done|].
  apply Forall_cons in Hv as [Hq Hv]. apply Forall_cons in Hb as [Hq' Hb].
  destruct q; simpl; try (by apply IH). destruct agent; [|by apply IH].
  apply IH; [done..|]. destruct (_ && _); [|done]. simpl in *. by destruct (0 <? seq)%Z.
Qed.

Lemma reported_settled known qs n :
  Forall versioned qs -> Forall (fun q => below n q \/ exists a s, q = R_report s n a /\ known.1 = Some (projected s)) qs ->
  known.2 = n -> reported known qs = known.
Proof.
  intros Hv Hb <-. induction qs as [|q qs IH]; [done|].
  apply Forall_cons in Hv as [Hq Hv]. apply Forall_cons in Hb as [Hq' Hb]. specialize (IH Hv Hb).
  destruct q; simpl; try done. destruct agent; [|done].
  assert (Hseq : (0 < seq <= known.2)%Z).
  { destruct Hq as (_ & _ & Hpos). destruct Hq' as [Hlt|(a & s' & [= _ <- _] & _)]; simpl in *; lia. }
  rewrite (proj2 (Z.ltb_lt 0 seq)), (proj2 (Z.leb_le seq known.2)) by lia. simpl. by rewrite orb_true_r, andb_false_r.
Qed.

(** The newest report wins, in whatever order reports arrive and whatever happens
    between them.  If a session's supervisor sends versioned reports, late and
    repeated ones included, the phase shown at the end is that of the report with
    the highest number. *)
Theorem newest_report_wins (s : St) (before after : list request) (state : string) (seq : Z) (outs : list effect) (s' : St)
    (Hrun : steps s (before ++ R_report state seq true :: after) outs s')
    (Hversioned : Forall versioned (before ++ R_report state seq true :: after))
    (Hbefore : Forall (below seq) before) (Hknown : (lv_run_state_seq (st_live s) < seq)%Z)
    (Hafter : Forall (fun q => below seq q \/ q = R_report state seq true) after) :
  lv_run_state (st_live s') = Some (projected state) /\ lv_run_state_seq (st_live s') = seq.
Proof.
  apply steps_phase in Hrun. rewrite reported_app in Hrun. cbn [reported] in Hrun.
  apply Forall_app in Hversioned as [Hv1 [(_ & Hvalid & Hpos) Hv2]%Forall_cons].
  pose proof (reported_below (phase (st_live s)) before seq Hv1 Hbefore Hknown) as Hlow.
  set (known := reported (phase (st_live s)) before) in *.
  rewrite Hvalid, (proj2 (Z.eqb_neq seq 0)), (proj2 (Z.leb_gt seq known.2)), andb_false_r in Hrun by lia. simpl in Hrun.
  rewrite (proj2 (Z.ltb_lt 0 seq)) in Hrun by lia.
  rewrite (reported_settled _ after seq) in Hrun; [|done| |done].
  - unfold phase in Hrun. by injection Hrun.
  - eapply Forall_impl; [exact Hafter|]. intros q [Hq| ->]; [by left|]. right. eauto.
Qed.

Lemma newest_report_wins_witness :
  exists s s' outs, steps s [R_report "suspended" 3 true; R_report "claude" 5 true; R_report "claude-retrying" 4 true] outs s'
    /\ lv_run_state (st_live s') = Some "claude"%string.
Proof.
  set (l := mk_live (Some 7%Z) false (Some "claude"%string) 1 O_None 1 1 0 true false).
  assert (R : exists s' outs, steps (mk_st l 0) [R_report "suspended" 3 true; R_report "claude" 5 true; R_report "claude-retrying" 4 true] outs s').
  { eexists _, _.
    eapply steps_one; [eapply (st_report _ "suspended" 3 (Ok (Some agent_meta)) true); [by split|reflexivity]|].
    eapply steps_one; [eapply (st_report _ "claude" 5 (Ok (Some agent_meta)) true); [by split|reflexivity]|].
    eapply steps_one; [eapply (st_report _ "claude-retrying" 4 (Ok (Some agent_meta)) true); [by split|reflexivity]|].
    apply steps_none. }
  destruct R as (s' & outs & Hrun). exists (mk_st l 0), s', outs. split; [exact Hrun|].
  apply (newest_report_wins (mk_st l 0) [R_report "suspended" 3 true] [R_report "claude-retrying" 4 true] "claude" 5 outs s');
    [exact Hrun|repeat (apply Forall_cons; split; [by split|]); constructor
    |apply Forall_cons; split; [done|constructor]|simpl; lia|apply Forall_cons; split; [by left|constructor]].
Defined.
