(* ===== verification/Agents.v ===== *)
(** * Agents

    The pure parts of the coding agents' modules ([crates/amber/src/claude.rs],
    [codex.rs], [opencode.rs], [hermes.rs], [grok.rs], [muse.rs], [pi.rs]): the
    recognizers of session ids, the argument vectors, and what a SessionStart hook
    records; with the supervisor's choice of how to start ([select_*] of
    [supervisor.rs]).  serde_json's reading of the hook's input is an argument. *)
From S2P Require Import Prelude Utf8 Store.

(** ** Bytes of ids *)

Definition is_hexdigit (b : byte) : bool :=
  is_digit b || ((65 <=? b) && (b <=? 70))%Z || ((97 <=? b) && (b <=? 102))%Z.
Definition hyphen : byte := 45%Z.
Definition slash : byte := 47%Z.
Definition dot : byte := 46%Z.

(** [bytes().enumerate().all] *)
Fixpoint all_enumerate (i : nat) (p : nat -> byte -> bool) (l : list byte) : bool :=
  match l with
  | [] => true
  | b :: l' => p i b && all_enumerate (S i) p l'
  end.

Module claude.
Definition is_claude_session_id (id : string) : bool :=
  if negb (String.length id =? 36) then false
  else all_enumerate 0 (fun index b =>
         match index with
         | 8 | 13 | 18 | 23 => (b =? hyphen)%Z
         | _ => is_hexdigit b
         end) (bytes_of_string id).

Inductive ClaudeStart := Resume (id : string) | Continue | Fresh.

Definition claude_argv (start : ClaudeStart) (settings_path : string) : list string :=
  ["--dangerously-skip-permissions"%string]
  ++ match start with
     | Resume id => ["--resume"%string; id]
     | Continue => ["--continue"%string]
     | Fresh => []
     end
  ++ ["--settings"%string; settings_path].
End claude.

Module codex.
Definition is_session_id (id : string) : bool := negb (bool_decide (trim (chars id) = [])).

Inductive CodexStart := Resume (id : string) | Fresh.

Definition codex_argv (start : CodexStart) : list string :=
  match start with Resume _ => ["resume"%string] | Fresh => [] end
  ++ ["--dangerously-bypass-approvals-and-sandbox"; "--dangerously-bypass-hook-trust"]%string
  ++ match start with Resume id => ["--"%string; id] | Fresh => [] end.
End codex.

Module opencode.
Definition is_session_id (id : string) : bool :=
  match bytes_of_string id with
  | 115%Z :: 101%Z :: 115%Z :: 95%Z :: rest => negb (bool_decide (rest = [])) && forallb is_ascii_alphanumeric rest
  | _ => false
  end.

Inductive OpenCodeStart := Resume (id : string) | Fresh.

Definition opencode_argv (start : OpenCodeStart) : list string :=
  ["--auto"%string] ++ match start with Resume id => ["-s"%string; id] | Fresh => [] end.
End opencode.

Module hermes.
Definition is_session_id (id : string) : bool :=
  let b := bytes_of_string id in
  match (match length b with 22 => Some 6 | 24 => Some 8 | _ => None end) with
  | None => false
  | Some suffix =>
      forallb is_digit (take 8 b) && bool_decide (b !! 8 = Some 95%Z)
      && forallb is_digit (take 6 (drop 9 b)) && bool_decide (b !! 15 = Some 95%Z)
      && forallb is_hexdigit (take suffix (drop 16 b))
  end.

Inductive HermesStart := Resume (id : string) | Fresh.

Definition hermes_argv (start : HermesStart) : list string :=
  ["--yolo"%string] ++ match start with Resume id => ["--resume"%string; id] | Fresh => [] end.
End hermes.

Module grok.
(** The loop over the expected group lengths. *)
Fixpoint groups_match (groups : list nat) (parts : list (list byte)) : bool :=
  match groups with
  | [] => match parts with [] => true | _ => false end
  | want :: groups' =>
      match parts with
      | p :: parts' => if (length p =? want) && forallb is_hexdigit p then groups_match groups' parts' else false
      | [] => false
      end
  end.

Definition is_session_id (id : string) : bool := groups_match [8; 4; 4; 4; 12] (split_on hyphen (bytes_of_string id)).

Inductive GrokStart := Resume (id : string) | Fresh (id : string).

Definition grok_argv (start : GrokStart) : list string :=
  ["--permission-mode"; "bypassPermissions"]%string
  ++ match start with Resume id => ["--resume"%string; id] | Fresh id => ["--session-id"%string; id] end.
End grok.

Module muse.
Definition is_session_id (id : string) : bool :=
  if negb (String.length id =? 36) then false
  else all_enumerate 0 (fun index b =>
         match index with
         | 8 | 13 | 18 | 23 => (b =? hyphen)%Z
         | _ => is_hexdigit b
         end) (bytes_of_string id).

Inductive MuseStart := Resume (id : string) | Fresh.

Definition muse_argv (start : MuseStart) : list string :=
  match start with Resume id => ["resume"%string; id; "--yolo"%string] | Fresh => ["--yolo"%string] end.
End muse.

Module pi.
(** [Path::components] of an absolute path, without its root: empty components and
    [.] are dropped. *)
Definition components (path : list byte) : list (list byte) :=
  List.filter (fun c => negb (bool_decide (c = [])) && negb (bool_decide (c = [dot]))) (split_on slash path).

(** [Path::extension]: of the last component, unless that is [..]; what follows its
    last dot, when something precedes that. *)
Definition extension (path : list byte) : option (list byte) :=
  match last (components path) with
  | None => None
  | Some name =>
      if bool_decide (name = [dot; dot]) then None
      else match reverse (split_on dot name) with
           | ext :: before => if bool_decide (before = [[]]) || bool_decide (before = []) then None else Some ext
           | [] => None
           end
  end.

Definition is_absolute (path : list byte) : bool := bool_decide (head path = Some slash).

Definition is_session_file (path : string) : bool :=
  let path := bytes_of_string path in
  is_absolute path && bool_decide (extension path = Some (bytes_of_string "jsonl"))
  && forallb (fun b => negb (b =? 0)%Z) path
  && forallb (fun c => negb (bool_decide (c = [dot; dot]))) (components path).

Definition is_session_id (id : string) : bool :=
  let b := bytes_of_string id in
  (8 <=? length b) && forallb (fun b => is_ascii_alphanumeric b || (b =? hyphen)%Z) b
  && match head b with Some x => is_ascii_alphanumeric x | None => false end
  && match last b with Some x => is_ascii_alphanumeric x | None => false end.

(** What the file system holds when a recording is checked: [is_dir]; a file that
    opens, whether it is a regular one, and its content up to a read error. *)
Record Disk := mk_disk {
  dk_is_dir : string -> bool;
  dk_open : string -> option (bool * result (list byte) string);
}.

Fixpoint read_line (l : list byte) : list byte :=
  match l with
  | [] => []
  | b :: l' => if (b =? 10)%Z then [b] else b :: read_line l'
  end.

(** [header_json]: serde_json's reading of the header, its [type] and [id] where they
    are strings. *)
Definition recording_defect (header_json : string -> option (option string * option string)) (disk : Disk)
    (recording : ClaudeMeta) : option string :=
  if negb (bool_decide (cm_agent_kind recording = Some Pi)) then Some "recording is not source-tagged for Pi"%string else
  match cm_session_file recording with
  | None => Some "recording has no session file"%string
  | Some path =>
      if negb (is_session_file path) then Some "session file is not a Pi session path"%string else
      if negb (is_absolute (bytes_of_string (cm_cwd recording))) then Some "recorded cwd is not absolute"%string else
      if negb (dk_is_dir disk (cm_cwd recording)) then Some "recorded cwd no longer exists"%string else
      match dk_open disk path with
      | None => Some "session file could not be opened"%string
      | Some (is_file, content) =>
          if negb is_file then Some "session file is not a regular file"%string else
          match (match content with Ok bytes => from_utf8 (read_line (take (16 * 1024) bytes)) | Err _ => None end) with
          | None => Some "session file header could not be read"%string
          | Some header =>
              match header_json header with
              | None => Some "session file header is not JSON"%string
              | Some (type, id) =>
                  if negb (bool_decide (type = Some "session"%string)) then Some "session file header is not a session record"%string else
                  if negb (bool_decide (id = Some (cm_session_id recording))) then Some "session file header does not match the recorded id"%string
                  else None
              end
          end
      end
  end.

Definition valid_recording (header_json : string -> option (option string * option string)) (disk : Disk)
    (recording : ClaudeMeta) : bool := bool_decide (recording_defect header_json disk recording = None).

Inductive PiStart := Resume (id : string) | Fresh.

Definition pi_argv (start : PiStart) : list string :=
  match start with Fresh => [] | Resume id => ["--session"%string; id] end.
End pi.

(** ** How to start *)

Definition GROK_RESUME_ATTEMPTS : Z := 2.

Definition select_start (session_id : option string) (escalation : Z) : claude.ClaudeStart :=
  match session_id with
  | Some id => if (escalation =? 0)%Z then claude.Resume id else claude.Fresh
  | None => claude.Fresh
  end.

Definition select_codex_start (session_id : option string) (escalation : Z) : codex.CodexStart :=
  match session_id with
  | Some id => if (escalation =? 0)%Z && codex.is_session_id id then codex.Resume id else codex.Fresh
  | None => codex.Fresh
  end.

Definition select_opencode_start (session_id : option string) (escalation : Z) : opencode.OpenCodeStart :=
  match session_id with
  | Some id => if (escalation =? 0)%Z && opencode.is_session_id id then opencode.Resume id else opencode.Fresh
  | None => opencode.Fresh
  end.

Definition select_hermes_start (session_id : option string) (escalation : Z) : hermes.HermesStart :=
  match session_id with
  | Some id => if (escalation =? 0)%Z && hermes.is_session_id id then hermes.Resume id else hermes.Fresh
  | None => hermes.Fresh
  end.

Definition select_muse_start (session_id : option string) (escalation : Z) : muse.MuseStart :=
  match session_id with
  | Some id => if (escalation =? 0)%Z && muse.is_session_id id then muse.Resume id else muse.Fresh
  | None => muse.Fresh
  end.

Definition select_pi_start (session_file : option string) (_escalation : Z) : pi.PiStart :=
  match session_file with
  | Some path => if pi.is_session_file path then pi.Resume path else pi.Fresh
  | None => pi.Fresh
  end.

(** [new_id] is the uuid a fresh start mints, [now] the clock; the recording to write
    comes with it. *)
Definition select_grok_start (cwd : string) (session_id : option string) (escalation : Z) (new_id : string) (now : Z)
  : grok.GrokStart * option ClaudeMeta :=
  let fresh := (grok.Fresh new_id, Some (mk_claude new_id cwd now None None)) in
  match session_id with
  | Some id => if (escalation <? GROK_RESUME_ATTEMPTS)%Z && grok.is_session_id id then (grok.Resume id, None) else fresh
  | None => fresh
  end.

(** ** Recording an id

    [record_session] of [claude.rs]: [agent_kind], [session_id] and [cwd] are the
    fields of the hook's input that are strings. *)
Definition refreshed_updated (previous : option Z) (current : Z) : Z :=
  match previous with Some updated => Z.max current (sat_add64 updated 1) | None => current end.

Definition record_session (agent_kind session_id cwd : option string) (current_dir : string)
    (meta : option SessionMeta) (previous : option ClaudeMeta) (now : Z) : result ClaudeMeta string :=
  if bool_decide (agent_kind = Some "pi"%string) then Err "Pi hooks must be recorded through the daemon"%string
  else match session_id with
       | None => Err "hook input missing session_id"%string
       | Some id =>
           let cwd := default current_dir cwd in
           if match meta with
              | Some m => (is_agent (sm_kind m) || sm_resume_as_claude m) && negb (bool_decide (cwd = sm_cwd m))
              | None => false
              end
           then Err "hook cwd does not match"%string
           else Ok (mk_claude id cwd (refreshed_updated (cm_updated <$> previous) now) None None)
       end.

(** ** Ids are recognized alike *)

Lemma split_on_app sep a r : sep ∉ a -> split_on sep (a ++ sep :: r) = a :: split_on sep r.
Proof.
  induction a as [|b a IH]; simpl; intros H.
  - by rewrite Z.eqb_refl.
  - apply not_elem_of_cons in H. destruct (Z.eqb_spec b sep) as [->|]; [tauto|]. by rewrite IH by tauto.
Qed.

Lemma split_on_last sep a : sep ∉ a -> split_on sep a = [a].
Proof.
  induction a as [|b a IH]; simpl; intros H; [done|]. rewrite not_elem_of_cons in H.
  destruct (Z.eqb_spec b sep) as [->|]; [tauto|]. by rewrite IH by tauto.
Qed.

(** Splitting loses nothing and leaves no separator. *)
Lemma split_on_inv sep l : exists p ps, (split_on sep l = p :: ps) /\ (sep ∉ p)
  /\ (match ps with [] => l = p | _ => exists r, l = p ++ sep :: r /\ split_on sep r = ps end).
Proof.
  induction l as [|b l (p & ps & E & Hp & Hl)]; simpl.
  - exists [], []. split_and!; try done. apply not_elem_of_nil.
  - destruct (Z.eqb_spec b sep) as [->|Hb].
    + exists [], (split_on sep l). split_and!; [done|apply not_elem_of_nil|]. rewrite E. by exists l.
    + rewrite E. exists (b :: p), ps. split_and!; [done|by apply not_elem_of_cons|].
      destruct ps; [by subst l|]. destruct Hl as (r & -> & Hr). by exists r.
Qed.

(** Five groups of hexadecimal digits. *)
Definition uuid_shaped (l : list byte) : Prop :=
  exists a b c d e, l = a ++ hyphen :: b ++ hyphen :: c ++ hyphen :: d ++ hyphen :: e
    /\ length a = 8 /\ length b = 4 /\ length c = 4 /\ length d = 4 /\ length e = 12
    /\ Forall (fun x => is_hexdigit x = true) (a ++ b ++ c ++ d ++ e).

Lemma hex_no_hyphen l : Forall (fun x => is_hexdigit x = true) l -> hyphen ∉ l.
Proof. rewrite Forall_forall. intros H Hin. by specialize (H _ Hin). Qed.

Lemma hex_group p : forallb is_hexdigit p = true <-> Forall (fun x => is_hexdigit x = true) p.
Proof. rewrite forallb_forall, Forall_forall. by setoid_rewrite list_elem_of_In. Qed.

Lemma grok_uuid l : grok.groups_match [8; 4; 4; 4; 12] (split_on hyphen l) = true <-> uuid_shaped l.
Proof.
  split.
  - assert (One : forall want groups l0, grok.groups_match (want :: groups) (split_on hyphen l0) = true -> groups <> [] ->
      exists p r, l0 = p ++ hyphen :: r /\ length p = want /\ Forall (fun x => is_hexdigit x = true) p
        /\ grok.groups_match groups (split_on hyphen r) = true).
    { intros want groups l0 H Hne. destruct (split_on_inv hyphen l0) as (p & ps & E & Hp & Hl). rewrite E in H. simpl in H.
      destruct ((length p =? want) && forallb is_hexdigit p) eqn:Hc; [|done]. apply andb_true_iff in Hc as [Hlen Hhex].
      apply Nat.eqb_eq in Hlen. destruct ps as [|p2 ps]; [by destruct groups|]. destruct Hl as (r & -> & Hr).
      exists p, r. split_and!; [done|done|by apply hex_group|by rewrite Hr]. }
    intros H. apply One in H as (a & r1 & -> & La & Ha & H); [|done]. apply One in H as (b & r2 & -> & Lb & Hb & H); [|done].
    apply One in H as (c & r3 & -> & Lc & Hc & H); [|done]. apply One in H as (d & r4 & -> & Ld & Hd & H); [|done].
    destruct (split_on_inv hyphen r4) as (e & ps & E & He & Hl). rewrite E in H. simpl in H.
    destruct ((length e =? 12) && forallb is_hexdigit e) eqn:Hc5; [|done]. apply andb_true_iff in Hc5 as [Hlen Hhex].
    apply Nat.eqb_eq in Hlen. destruct ps; [|done]. subst r4. exists a, b, c, d, e. apply hex_group in Hhex.
    split_and!; try done. rewrite !Forall_app. done.
  - intros (a & b & c & d & e & -> & La & Lb & Lc & Ld & Le & H). rewrite !Forall_app in H. destruct H as (Ha & Hb & Hc & Hd & He).
    rewrite !split_on_app, split_on_last by by apply hex_no_hyphen.
    simpl. rewrite La, Lb, Lc, Ld, Le. simpl. by rewrite !(proj2 (hex_group _)) by done.
Qed.

Definition uuid_position (index : nat) (b : byte) : bool :=
  match index with
  | 8 | 13 | 18 | 23 => (b =? hyphen)%Z
  | _ => is_hexdigit b
  end.

Lemma all_enumerate_app i p k l : all_enumerate i p (k ++ l) = all_enumerate i p k && all_enumerate (i + length k) p l.
Proof.
  revert i. induction k as [|b k IH]; intros i; simpl; [by rewrite Nat.add_0_r|].
  by rewrite IH, andb_assoc, Nat.add_succ_r.
Qed.

(** Between hyphens, the positional check is the digits' check. *)
Lemma all_enumerate_hex i l :
  (forall j, i <= j < i + length l -> j <> 8 /\ j <> 13 /\ j <> 18 /\ j <> 23) ->
  all_enumerate i uuid_position l = forallb is_hexdigit l.
Proof.
  revert i. induction l as [|b l IH]; intros i H; simpl; [done|]. rewrite IH.
  - f_equal. destruct (H i) as (? & ? & ? & ?); [simpl; lia|]. unfold uuid_position.
    do 24 (destruct i as [|i]; try done).
  - intros j Hj. apply H. simpl. lia.
Qed.

Lemma positions_uuid l : length l = 36 -> all_enumerate 0 uuid_position l = true <-> uuid_shaped l.
Proof.
  intros Hlen.
  assert (Shape : forall a h1 b h2 c h3 d h4 e, length a = 8 -> length b = 4 -> length c = 4 -> length d = 4 -> length e = 12 ->
    (all_enumerate 0 uuid_position (a ++ h1 :: b ++ h2 :: c ++ h3 :: d ++ h4 :: e) = true)
    <-> (h1 = hyphen /\ h2 = hyphen /\ h3 = hyphen /\ h4 = hyphen)
        /\ Forall (fun x => is_hexdigit x = true) (a ++ b ++ c ++ d ++ e)).
  { intros a h1 b h2 c h3 d h4 e La Lb Lc Ld Le. rewrite !Forall_app, <- !hex_group.
    repeat (rewrite all_enumerate_app || cbn [all_enumerate]). rewrite La, Lb, Lc, Ld. cbn [Nat.add].
    rewrite !all_enumerate_hex by lia. cbn [uuid_position]. rewrite !andb_true_iff, !Z.eqb_eq. tauto. }
  split.
  - intros H. rewrite <- (take_drop 8 l) in H |- *. set (a := take 8 l) in *. assert (La : length a = 8) by (unfold a; rewrite length_take; lia).
    assert (L1 : length (drop 8 l) = 28) by (rewrite length_drop; lia). destruct (drop 8 l) as [|h1 r1]; [done|]. simpl in L1.
    rewrite <- (take_drop 4 r1) in H |- *. set (b := take 4 r1) in *. assert (Lb : length b = 4) by (unfold b; rewrite length_take; lia).
    assert (L2 : length (drop 4 r1) = 23) by (rewrite length_drop; lia). destruct (drop 4 r1) as [|h2 r2]; [done|]. simpl in L2.
    rewrite <- (take_drop 4 r2) in H |- *. set (c := take 4 r2) in *. assert (Lc : length c = 4) by (unfold c; rewrite length_take; lia).
    assert (L3 : length (drop 4 r2) = 18) by (rewrite length_drop; lia). destruct (drop 4 r2) as [|h3 r3]; [done|]. simpl in L3.
    rewrite <- (take_drop 4 r3) in H |- *. set (d := take 4 r3) in *. assert (Ld : length d = 4) by (unfold d; rewrite length_take; lia).
    assert (L4 : length (drop 4 r3) = 13) by (rewrite length_drop; lia). destruct (drop 4 r3) as [|h4 e]; [done|]. simpl in L4.
    assert (Le : length e = 12) by lia. apply Shape in H as [(-> & -> & -> & ->) H]; try done. by exists a, b, c, d, e.
  - intros (a & b & c & d & e & -> & La & Lb & Lc & Ld & Le & H). by apply Shape.
Qed.

(** Grok's recognizer splits an id at its hyphens, those of Muse and Claude check
    it byte by byte: they accept exactly the same strings, five groups of 8, 4, 4, 4
    and 12 hexadecimal digits. *)
Theorem uuid_recognizers_agree (id : string) :
  grok.is_session_id id = muse.is_session_id id /\ claude.is_claude_session_id id = muse.is_session_id id
  /\ (muse.is_session_id id = true <-> uuid_shaped (bytes_of_string id)).
Proof.
  assert (H : muse.is_session_id id = true <-> uuid_shaped (bytes_of_string id)).
  { unfold muse.is_session_id. destruct (Nat.eqb_spec (String.length id) 36) as [E|E]; simpl.
    - apply (positions_uuid (bytes_of_string id)). by rewrite length_bytes_of_string.
    - split; [done|]. intros (a & b & c & d & e & El & La & Lb & Lc & Ld & Le & _). exfalso. apply E.
      rewrite <- length_bytes_of_string, El. do 4 (rewrite length_app; cbn [length]). by rewrite La, Lb, Lc, Ld, Le. }
  split; [|by split]. apply eq_true_iff_eq. rewrite H. apply (grok_uuid (bytes_of_string id)).
Qed.

(** *** An accepted id is never read as an option *)

Definition inert (arg : string) : Prop := exists b l, bytes_of_string arg = b :: l /\ b <> hyphen.

Lemma alphanumeric_inert b : is_ascii_alphanumeric b = true -> b <> hyphen.
Proof. by intros H ->. Qed.

Lemma hexdigit_alphanumeric b : is_hexdigit b = true -> is_ascii_alphanumeric b = true.
Proof.
  unfold is_hexdigit, is_digit, is_ascii_alphanumeric, between. rewrite !orb_true_iff, !andb_true_iff, !Z.leb_le.
  intros [[?|?]|?]; [left; by left|left; right; lia|right; lia].
Qed.

Lemma uuid_inert id : uuid_shaped (bytes_of_string id) -> inert id.
Proof.
  intros (a & b & c & d & e & E & La & _ & _ & _ & _ & H). destruct a as [|x a]; [done|]. unfold inert. rewrite E.
  apply Forall_cons in H as [Hx _]. eexists x, _. split; [done|]. by apply alphanumeric_inert, hexdigit_alphanumeric.
Qed.

Lemma opencode_inert id : opencode.is_session_id id = true -> inert id.
Proof.
  unfold opencode.is_session_id, inert. destruct (bytes_of_string id) as [|b l]; [done|]. intros H. exists b, l.
  split; [done|]. by intros ->.
Qed.

Lemma hermes_inert id : hermes.is_session_id id = true -> inert id.
Proof.
  unfold hermes.is_session_id, inert. destruct (bytes_of_string id) as [|b l]; [done|]. intros H. exists b, l.
  split; [done|]. intros ->. by destruct (match _ with 22 => _ | _ => _ end).
Qed.

Lemma pi_inert path : pi.is_session_file path = true -> inert path.
Proof.
  unfold pi.is_session_file, pi.is_absolute, inert. destruct (bytes_of_string path) as [|b l]; [done|]. intros H. exists b, l.
  split; [done|]. by intros ->.
Qed.
