(* ===== verification/Manager.v ===== *)
(** * The session manager

    [SessionManager] of [crates/amber/src/manager.rs]: the table of live sessions
    over the state directory, with the operations that create, rename, reap, remove,
    snapshot and restore sessions and record agent hooks.  The operations run under
    the maintenance lock, so each is one transformer of a world: the files with
    their schedule of faults ([Store]), the answers of the operating system to
    spawning, killing and preparing a control group, the manager's own tables, and
    the children it started. *)
From S2P Require Import Prelude Utf8.
From S2P Require Import Wire Store.
From S2P Require RingBuf Suspend Agents.
Import Suspend (SuspendOrigin(..)).

(** ** Pure decisions *)

Definition MAX_TITLE_BYTES : nat := 120.
Definition CLAUDE_ABSENT_THRESHOLD : Z := 2.

(** A periodic snapshot's view of a hand-started agent: the new flag and streak of
    absences. *)
Definition decide_resume (current detected : bool) (streak threshold : Z) : bool * Z :=
  if detected then (true, 0%Z)
  else if negb current then (false, 0%Z)
  else if (threshold <=? streak + 1)%Z then (false, 0%Z)
  else (true, (streak + 1)%Z).

(** [(1..).find(|n| !used.contains(n))]; among [length used + 1] candidates one is free. *)
Fixpoint first_free (fuel : nat) (n : Z) (used : list Z) : Z :=
  match fuel with
  | O => n
  | S fuel' => if bool_decide (n ∈ used) then first_free fuel' (n + 1) used else n
  end.

Definition alloc_slot (used : list Z) : Z := first_free (S (length used)) 1 used.

Definition used_slots (metas : list SessionMeta) : list Z :=
  List.filter (fun s => (1 <=? s)%Z) (map sm_slot metas).

(** The bytes of the characters from the [skip]th, [n] of them. *)
Definition slice_chars (skip n : nat) (l : list byte) : list byte :=
  take_chars n (drop (length (take_chars skip l)) l).

(** [trim_matches(char::is_whitespace)] *)
Definition trim_str (s : string) : string :=
  let cs := chars s in
  string_of_bytes (slice_chars (length cs - length (trim_start cs)) (length (trim cs)) (bytes_of_string s)).

Definition validate_title (title : option string) : result (option string) string :=
  match title with
  | None => Ok None
  | Some title =>
      let title := trim_str title in
      if (String.length title =? 0) then Ok None
      else if MAX_TITLE_BYTES <? String.length title then Err "title exceeds 120 UTF-8 bytes"
      else if existsb is_control (chars title) then Err "title contains a control character"
      else Ok (Some title)
  end.

#[global] Arguments validate_title : simpl never.

(** Record updates. *)
Definition with_kind (m : SessionMeta) (kind : SessionKind) : SessionMeta :=
  mk_meta (sm_name m) (sm_cwd m) kind (sm_updated m) (sm_title m) (sm_resume_as_claude m) (sm_resume_as_muse m)
    (sm_run_state m) (sm_slot m).
Definition with_cwd (m : SessionMeta) (cwd : string) : SessionMeta :=
  mk_meta (sm_name m) cwd (sm_kind m) (sm_updated m) (sm_title m) (sm_resume_as_claude m) (sm_resume_as_muse m)
    (sm_run_state m) (sm_slot m).
Definition with_updated (m : SessionMeta) (updated : Z) : SessionMeta :=
  mk_meta (sm_name m) (sm_cwd m) (sm_kind m) updated (sm_title m) (sm_resume_as_claude m) (sm_resume_as_muse m)
    (sm_run_state m) (sm_slot m).
Definition with_title (m : SessionMeta) (title : option string) : SessionMeta :=
  mk_meta (sm_name m) (sm_cwd m) (sm_kind m) (sm_updated m) title (sm_resume_as_claude m) (sm_resume_as_muse m)
    (sm_run_state m) (sm_slot m).
Definition with_resume (m : SessionMeta) (as_claude as_muse : bool) : SessionMeta :=
  mk_meta (sm_name m) (sm_cwd m) (sm_kind m) (sm_updated m) (sm_title m) as_claude as_muse
    (sm_run_state m) (sm_slot m).
Definition with_slot (m : SessionMeta) (slot : Z) : SessionMeta :=
  mk_meta (sm_name m) (sm_cwd m) (sm_kind m) (sm_updated m) (sm_title m) (sm_resume_as_claude m)
    (sm_resume_as_muse m) (sm_run_state m) slot.

(** ** Normalizing a restored record

    [recording]: what reading the agent's recording answered; [defect]: what makes a
    Pi recording unusable.  Each step answers the record, whether it changed and
    whether its kind may have. *)
Section normalize.
Context (defect : ClaudeMeta -> option string).

Definition promote_pi (recording : result (option ClaudeMeta) string) (m : SessionMeta) : SessionMeta * bool * bool :=
  if decide (sm_kind m = Shell) then
    match recording with
    | Ok (Some r) =>
        if decide (cm_agent_kind r = Some Pi) then
          let m := with_resume m false (sm_resume_as_muse m) in
          match defect r with
          | None => (with_cwd (with_kind m Pi) (cm_cwd r), true, true)
          | Some _ => (m, true, false)
          end
        else (m, false, false)
    | Ok None => (m, false, false)
    | Err _ => (with_resume m false (sm_resume_as_muse m), true, false)
    end
  else (m, false, false).

Definition promote_claude '((m, changed, kind_changed) : SessionMeta * bool * bool) : SessionMeta * bool * bool :=
  if sm_resume_as_claude m then
    let m := if decide (sm_kind m = Shell) then with_kind m Claude else m in
    (with_resume m false (sm_resume_as_muse m), true, true)
  else (m, changed, kind_changed).

Definition promote_muse '((m, changed, kind_changed) : SessionMeta * bool * bool) : SessionMeta * bool * bool :=
  if sm_resume_as_muse m then
    let m := if decide (sm_kind m = Shell) then with_kind m Muse else m in
    (with_resume m (sm_resume_as_claude m) false, true, true)
  else (m, changed, kind_changed).

Definition repair_title '((m, changed, kind_changed) : SessionMeta * bool * bool) : SessionMeta * bool * bool :=
  match sm_title m with
  | None => (m, changed, kind_changed)
  | Some title =>
      match validate_title (Some title) with
      | Ok normalized =>
          if decide (normalized = Some title) then (m, changed, kind_changed)
          else (with_title m normalized, true, kind_changed)
      | Err _ => (with_title m None, true, kind_changed)
      end
  end.

Definition normalized (recording : result (option ClaudeMeta) string) (m : SessionMeta) : SessionMeta * bool * bool :=
  repair_title (promote_muse (promote_claude (promote_pi recording m))).

(** The defect that is journalled as a warning. *)
Definition pi_warning (recording : result (option ClaudeMeta) string) (m : SessionMeta) : option string :=
  if decide (sm_kind m = Shell) then
    match recording with
    | Ok (Some r) => if decide (cm_agent_kind r = Some Pi) then defect r else None
    | _ => None
    end
  else None.
End normalize.

(** ** The world *)

(** A child of the manager: the control group it runs in, and the state of
    [PtySession] the manager uses. *)
Record Child := mk_child {
  ch_slot : Z;
  ch_alive : bool;
  ch_origin : SuspendOrigin;
  ch_started : Z;
  ch_ring : RingBuf.Ring;
}.

Record Manager := mk_manager {
  mg_sessions : gmap string nat;
  mg_foreground : Z;
  mg_deferred : gmap string (nat * SessionMeta);
  mg_claude_absent : gmap string Z;
  mg_muse_absent : gmap string Z;
  mg_persisted : gmap string Z;
}.

(** What reaches the operating system. *)
Inductive effect :=
| E_spawn (slot : Z) (name : string) (kind : SessionKind) (start_suspended : bool)
| E_kill_group (slot : Z).

(** [w_children]: every child ever started, by handle. *)
Record World := mk_world {
  w_fs : FS;
  w_faults : list fault;
  w_answers : list bool;
  w_manager : Manager;
  w_children : list Child;
  w_effects : list effect;
}.

Inductive run (A : Type) :=
| Returned (r : result A string) (w : World)
| Died (fs : FS).
Arguments Returned {A} r w.
Arguments Died {A} fs.

Definition MM (A : Type) : Type := World -> run A.

Definition mret {A} (a : A) : MM A := fun w => Returned (Ok a) w.
Definition mfail {A} (e : string) : MM A := fun w => Returned (Err e) w.
Definition mthen {A B} (m : MM A) (k : A -> MM B) : MM B := fun w =>
  match m w with
  | Returned (Ok a) w' => k a w'
  | Returned (Err e) w' => Returned (Err e) w'
  | Died fs => Died fs
  end.
Definition mtry {A} (m : MM A) : MM (result A string) := fun w =>
  match m w with
  | Returned r w' => Returned (Ok r) w'
  | Died fs => Died fs
  end.

Notation "x <-m m ; k" := (mthen m (fun x => k)) (at level 100, m at next level, right associativity) : amber_scope.
Notation "m ;;m k" := (mthen m (fun _ => k)) (at level 100, right associativity) : amber_scope.

Definition store {A} (m : M A) : MM A := fun w =>
  match m (w_fs w) (w_faults w) with
  | Done r fs o => Returned r (mk_world fs o (w_answers w) (w_manager w) (w_children w) (w_effects w))
  | Crashed fs => Died fs
  end.

(** An answer of the operating system. *)
Definition ask : MM bool := fun w =>
  Returned (Ok (hd true (w_answers w)))
    (mk_world (w_fs w) (w_faults w) (tl (w_answers w)) (w_manager w) (w_children w) (w_effects w)).

Definition require (e : string) : MM unit := ok <-m ask; if ok : bool then mret tt else mfail e.

Definition emit (e : effect) : MM unit := fun w =>
  Returned (Ok tt) (mk_world (w_fs w) (w_faults w) (w_answers w) (w_manager w) (w_children w) (w_effects w ++ [e])).

Definition manager : MM Manager := fun w => Returned (Ok (w_manager w)) w.
Definition update (f : Manager -> Manager) : MM unit := fun w =>
  Returned (Ok tt) (mk_world (w_fs w) (w_faults w) (w_answers w) (f (w_manager w)) (w_children w) (w_effects w)).

Definition child (h : nat) : MM (option Child) := fun w => Returned (Ok (w_children w !! h)) w.
Definition update_child (h : nat) (f : Child -> Child) : MM unit := fun w =>
  Returned (Ok tt) (mk_world (w_fs w) (w_faults w) (w_answers w) (w_manager w) (alter f h (w_children w)) (w_effects w)).

Definition set_sessions (f : gmap string nat -> gmap string nat) (g : Manager) : Manager :=
  mk_manager (f (mg_sessions g)) (mg_foreground g) (mg_deferred g) (mg_claude_absent g) (mg_muse_absent g) (mg_persisted g).
Definition set_deferred (f : gmap string (nat * SessionMeta) -> gmap string (nat * SessionMeta)) (g : Manager) : Manager :=
  mk_manager (mg_sessions g) (mg_foreground g) (f (mg_deferred g)) (mg_claude_absent g) (mg_muse_absent g) (mg_persisted g).
Definition set_claude_absent (f : gmap string Z -> gmap string Z) (g : Manager) : Manager :=
  mk_manager (mg_sessions g) (mg_foreground g) (mg_deferred g) (f (mg_claude_absent g)) (mg_muse_absent g) (mg_persisted g).
Definition set_muse_absent (f : gmap string Z -> gmap string Z) (g : Manager) : Manager :=
  mk_manager (mg_sessions g) (mg_foreground g) (mg_deferred g) (mg_claude_absent g) (f (mg_muse_absent g)) (mg_persisted g).
Definition set_persisted (f : gmap string Z -> gmap string Z) (g : Manager) : Manager :=
  mk_manager (mg_sessions g) (mg_foreground g) (mg_deferred g) (mg_claude_absent g) (mg_muse_absent g) (f (mg_persisted g)).

(** [compare_exchange(slot, 0)] *)
Definition clear_foreground_slot (slot : Z) (g : Manager) : Manager :=
  mk_manager (mg_sessions g) (if (mg_foreground g =? slot)%Z then 0%Z else mg_foreground g) (mg_deferred g)
    (mg_claude_absent g) (mg_muse_absent g) (mg_persisted g).

Definition with_ring (r : RingBuf.Ring) (c : Child) : Child :=
  mk_child (ch_slot c) (ch_alive c) (ch_origin c) (ch_started c) r.
Definition suspended_as (origin : SuspendOrigin) (started : Z) (c : Child) : Child :=
  mk_child (ch_slot c) (ch_alive c) origin started (ch_ring c).
Definition dead (c : Child) : Child := mk_child (ch_slot c) false (ch_origin c) (ch_started c) (ch_ring c).

(** The environment: whether control groups are used, the size of a ring, the epoch
    a new ring gets, which directories exist, the home directory, what makes a Pi
    recording unusable, and the text of a crash report. *)
Record Host := mk_host {
  hs_cgroups : bool;
  hs_scrollback : nat;
  hs_epoch : nat -> Z;
  hs_is_dir : string -> bool;
  hs_home : string;
  hs_defect : ClaudeMeta -> option string;
  hs_crash_report : list string -> list byte;
}.

Section manager.
Context {J : StateJson} (hs : Host).

Definition is_absolute (p : string) : bool := match p with String c _ => Ascii.eqb c "/"%char | EmptyString => false end.

Definition resolve_cwd (cwd : string) : string :=
  if is_absolute cwd && hs_is_dir hs cwd then cwd else hs_home hs.

(** Best effort: a failure is only printed. *)
Definition record_recovery_event (now : Z) (level event : string) (session : option string) (detail : string)
    (code : option Z) : MM unit :=
  _ <-m store (try (append_recovery_event (mk_recovery_event now 0 level event session detail code)));
  mret tt.

(** ** Metadata *)

(** Entries whose session is still the registered one. *)
Definition current_deferred (g : Manager) : gmap string (nat * SessionMeta) :=
  filter (fun p => mg_sessions g !! fst p = Some (fst (snd p))) (mg_deferred g).

Fixpoint write_all (metas : list SessionMeta) : MM unit :=
  match metas with
  | [] => mret tt
  | m :: rest => store (write_session m) ;;m write_all rest
  end.

Definition finish_pending_rename : MM unit :=
  complete <-m store recover_pending_rename;
  if negb complete then mfail "pending session rename cleanup is incomplete" else
  g <-m manager;
  update (set_deferred (fun _ => current_deferred g)) ;;m
  write_all (map (fun p => snd (snd p)) (map_to_list (current_deferred g))) ;;m
  update (set_deferred (fun _ => ∅)).

Definition deferred_meta_for (name : string) (h : nat) : MM (option SessionMeta) :=
  g <-m manager;
  match mg_deferred g !! name with
  | None => mret None
  | Some (h', m) =>
      if decide (h' = h) then mret (Some m)
      else update (set_deferred (delete name)) ;;m mret None
  end.

Definition effective_meta_for (name : string) (h : nat) : MM (option SessionMeta) :=
  d <-m deferred_meta_for name h;
  match d with
  | Some m => mret (Some m)
  | None => store (read_session name)
  end.

Definition session (name : string) : MM (option nat) := g <-m manager; mret (mg_sessions g !! name).

(** ** Children *)

Definition spawn (kind : SessionKind) (name cwd : string) (slot : Z) (start_suspended : bool) : MM nat :=
  require "spawn failed" ;;m
  emit (E_spawn slot name kind start_suspended) ;;m
  (fun w =>
    let h := length (w_children w) in
    let c := mk_child slot true O_None 0 (RingBuf.new (hs_scrollback hs) (hs_epoch hs h)) in
    Returned (Ok h) (mk_world (w_fs w) (w_faults w) (w_answers w) (w_manager w) (w_children w ++ [c]) (w_effects w))).

(** [preload]: a push on the ring, which never panics ([RingBuf]). *)
Definition preload (bytes : list byte) (c : Child) : Child :=
  match RingBuf.push (ch_ring c) bytes with Some r => with_ring r c | None => c end.

(** [kill_session(slot).unwrap_or(false)]: whether the group is empty now. *)
Definition kill_group (slot : Z) : MM bool := emit (E_kill_group slot) ;;m ask.

Definition stop_session_locked (slot : Z) (session : option nat) : MM unit :=
  empty <-m kill_group slot;
  (match session with
   | None => mret tt
   | Some h =>
       c <-m child h;
       (if match c with Some c => ch_alive c | None => false end then require "kill failed" else mret tt) ;;m
       require "session child did not exit after termination" ;;m
       update_child h dead
   end) ;;m
  empty <-m (if empty : bool then mret true else kill_group slot);
  if hs_cgroups hs && negb empty then mfail "session cgroup remained populated" else
  require "could not remove the session cgroup".

Definition prepare_session (slot : Z) : MM unit := require "could not prepare the session cgroup".

Definition restore_one (meta : SessionMeta) (suspension : option (SuspendOrigin * Z)) : MM nat :=
  scrollback <-m store (read_scrollback (sm_name meta));
  h <-m spawn (sm_kind meta) (sm_name meta) (resolve_cwd (sm_cwd meta)) (sm_slot meta)
          (match suspension with Some _ => true | None => false end);
  (match scrollback with Some bytes => update_child h (preload bytes) | None => mret tt end) ;;m
  (match suspension with Some (origin, started) => update_child h (suspended_as origin started) | None => mret tt end) ;;m
  mret h.

(** ** Operations *)

Definition create_with_title (name cwd : string) (kind : SessionKind) (title : option string) (now : Z) : MM nat :=
  match validate_session_name name, validate_title title with
  | Err e, _ | _, Err e => mfail e
  | Ok _, Ok title =>
      finish_pending_rename ;;m
      live <-m session name;
      if bool_decide (is_Some live) then mfail "session already exists" else
      stored <-m store list_sessions;
      if existsb (fun m => (sm_name m =? name)%string) stored then mfail "session already exists" else
      let slot := alloc_slot (used_slots stored) in
      prepare_session slot ;;m
      r <-m mtry (spawn kind name (resolve_cwd (resolve_cwd cwd)) slot false);
      match r with
      | Err error => _ <-m mtry (stop_session_locked slot None); mfail error
      | Ok h =>
          let meta := mk_meta name (resolve_cwd cwd) kind now title false false None slot in
          r <-m mtry (store (write_session meta));
          match r with
          | Err error => _ <-m mtry (stop_session_locked slot (Some h)); mfail error
          | Ok _ => update (set_sessions (insert name h)) ;;m mret h
          end
      end
  end.

(** The child of a handle, as [sess.suspend_origin()] and its like read it. *)
Definition suspension_of (h : nat) : MM (option (SuspendOrigin * Z)) :=
  c <-m child h;
  mret (match c with
        | Some c => match ch_origin c with O_None => None | origin => Some (origin, ch_started c) end
        | None => None
        end).

Definition rollback_agent_rename (from to : string) (old_meta : SessionMeta)
    (suspension : option (SuspendOrigin * Z)) (store_moved : bool) : MM unit :=
  _ <-m mtry (stop_session_locked (sm_slot old_meta) None);
  (if store_moved then finish_pending_rename ;;m store (rename_session to from) else mret tt) ;;m
  prepare_session (sm_slot old_meta) ;;m
  restored <-m restore_one old_meta suspension;
  update (set_sessions (insert from restored)).

(** [return Err(error)] after a rollback, whose own error is appended. *)
Definition rolled_back {A} (error : string) (rollback : MM unit) : MM A :=
  r <-m mtry rollback;
  match r with
  | Err e => mfail (error +:+ "; rename rollback failed: " +:+ e)
  | Ok _ => mfail error
  end.

Definition rename (from to : string) : MM SessionMeta :=
  match validate_session_name to with
  | Err e => mfail e
  | Ok _ =>
      finish_pending_rename ;;m
      taken <-m session to;
      if bool_decide (is_Some taken) then mfail "session already exists" else
      existing <-m store (read_session to);
      if bool_decide (is_Some existing) then mfail "session already exists" else
      s <-m session from;
      match s with
      | None => mfail "no such session"
      | Some h =>
          old <-m effective_meta_for from h;
          match old with
          | None => mfail "session vanished from the store"
          | Some old_meta =>
              let agent := is_agent (sm_kind old_meta) in
              suspension <-m suspension_of h;
              (if agent then stop_session_locked (sm_slot old_meta) (Some h) else mret tt) ;;m
              moved <-m mtry (store (rename_session from to));
              match moved with
              | Err error =>
                  if agent then rolled_back error (rollback_agent_rename from to old_meta suspension false)
                  else mfail error
              | Ok _ =>
                  let meta := with_name old_meta to in
                  respawned <-m (if agent then mtry (prepare_session (sm_slot meta) ;;m restore_one meta suspension)
                                 else mret (Ok h));
                  match respawned with
                  | Err error => rolled_back error (rollback_agent_rename from to old_meta suspension true)
                  | Ok h' =>
                      update (set_sessions (fun ss => <[to := h']> (delete from ss))) ;;m
                      update (set_claude_absent (delete from)) ;;m
                      mret meta
                  end
              end
          end
      end
  end.

Definition remove (name : string) : MM unit :=
  finish_pending_rename ;;m
  s <-m session name;
  meta <-m (match s with Some h => effective_meta_for name h | None => store (read_session name) end);
  (match meta, s with
   | Some m, _ => stop_session_locked (sm_slot m) s
   | None, Some h => require "kill failed" ;;m require "session child did not exit after termination" ;;m update_child h dead
   | None, None => mret tt
   end) ;;m
  store (remove_session name) ;;m
  update (set_sessions (delete name)) ;;m
  match meta with Some m => update (clear_foreground_slot (sm_slot m)) | None => mret tt end.

(** One turn of [reap]'s loop. *)
Definition reap_one (name : string) (h : nat) : MM unit :=
  meta <-m effective_meta_for name h;
  match meta with
  | None => mfail "dead session has no metadata"
  | Some m =>
      stop_session_locked (sm_slot m) (Some h) ;;m
      store (remove_session name) ;;m
      update (set_sessions (delete name)) ;;m
      update (clear_foreground_slot (sm_slot m))
  end.

Fixpoint reap_all (now : Z) (exit_code : nat -> option Z) (found : list (string * nat)) : MM (list string) :=
  match found with
  | [] => mret []
  | (name, h) :: rest =>
      r <-m mtry (reap_one name h);
      (match r with
       | Ok _ => record_recovery_event now "warning" "session.exited" (Some name) "session child exited and was reaped" (exit_code h)
       | Err _ => mret tt
       end) ;;m
      names <-m reap_all now exit_code rest;
      mret (match r with Ok _ => name :: names | Err _ => names end)
  end.

Definition is_dead (children : list Child) (h : nat) : bool :=
  match children !! h with Some c => negb (ch_alive c) | None => false end.

Definition reap (now : Z) (exit_code : nat -> option Z) : MM (list string) :=
  finish_pending_rename ;;m
  g <-m manager;
  found <-m (fun w => Returned (Ok (List.filter (fun p => is_dead (w_children w) (snd p)) (map_to_list (mg_sessions g)))) w);
  reap_all now exit_code found.

Definition set_title (name : string) (title : option string) : MM unit :=
  match validate_title title with
  | Err e => mfail e
  | Ok title =>
      finish_pending_rename ;;m
      s <-m session name;
      match s with
      | None => mfail "no such session"
      | Some h =>
          meta <-m effective_meta_for name h;
          match meta with
          | None => mfail "session vanished from the store"
          | Some m =>
              store (write_session (with_title m title)) ;;m
              infos <-m store list_sessions;
              if existsb (fun m => (sm_name m =? name)%string) infos then mret tt
              else mfail "session vanished after title update"
          end
      end
  end.

(** *** Snapshots *)

Definition persist_scrollback_if_changed (name : string) (h : nat) : MM unit :=
  c <-m child h;
  match c with
  | None => mret tt
  | Some c =>
      let written := RingBuf.written (ch_ring c) in
      g <-m manager;
      if bool_decide (mg_persisted g !! name = Some written) then mret tt else
      store (write_scrollback name (RingBuf.snapshot (ch_ring c))) ;;m
      update (set_persisted (insert name written))
  end.

(** What the process table and [/proc] say of a session at a snapshot. *)
Record Seen := mk_seen { se_cwd : option string; se_claude : bool; se_muse : bool }.

Definition set_streak (name : string) (next : Z) (streaks : gmap string Z) : gmap string Z :=
  if (next =? 0)%Z then delete name streaks else <[name := next]> streaks.

Definition live_cwd (seen : Seen) (m : SessionMeta) : string :=
  match se_cwd seen with Some d => if hs_is_dir hs d then d else sm_cwd m | None => sm_cwd m end.

(** Errors are dropped. *)
Definition persist_live_cwd (name : string) (is_final : bool) (seen : Seen) (now : Z) : MM unit :=
  r <-m store (try (read_session name));
  match r with
  | Ok (Some m) =>
      if negb (bool_decide (sm_kind m = Shell)) then mret tt else
      g <-m manager;
      let '(new_resume, next) :=
        decide_resume (sm_resume_as_claude m) (se_claude seen) (default 0%Z (mg_claude_absent g !! name)) CLAUDE_ABSENT_THRESHOLD in
      let '(new_resume_muse, next_muse) :=
        decide_resume (sm_resume_as_muse m) (se_muse seen) (default 0%Z (mg_muse_absent g !! name)) CLAUDE_ABSENT_THRESHOLD in
      flags <-m (if is_final then mret (sm_resume_as_claude m, sm_resume_as_muse m)
                 else update (set_claude_absent (set_streak name next)) ;;m
                      update (set_muse_absent (set_streak name next_muse)) ;;m
                      mret (new_resume, new_resume_muse));
      let new_cwd := live_cwd seen m in
      if negb (new_cwd =? sm_cwd m)%string || negb (Bool.eqb (fst flags) (sm_resume_as_claude m))
         || negb (Bool.eqb (snd flags) (sm_resume_as_muse m)) then
        _ <-m store (try (write_session (with_updated (with_resume (with_cwd m new_cwd) (fst flags) (snd flags)) now)));
        mret tt
      else mret tt
  | _ => mret tt
  end.

Fixpoint snapshot_each (is_final : bool) (seen : string -> Seen) (now : Z) (handles : list (string * nat)) : MM unit :=
  match handles with
  | [] => mret tt
  | (name, h) :: rest =>
      persist_scrollback_if_changed name h ;;m
      persist_live_cwd name is_final (seen name) now ;;m
      snapshot_each is_final seen now rest
  end.

(** [retain(|k, _| sessions.contains_key(k))] *)
Definition retain_live {V} (sessions : gmap string nat) (m : gmap string V) : gmap string V :=
  filter (fun p => is_Some (sessions !! fst p)) m.

Definition snapshot_inner (is_final : bool) (seen : string -> Seen) (now : Z) : MM unit :=
  finish_pending_rename ;;m
  g <-m manager;
  update (set_claude_absent (retain_live (mg_sessions g))) ;;m
  update (set_muse_absent (retain_live (mg_sessions g))) ;;m
  update (set_persisted (retain_live (mg_sessions g))) ;;m
  snapshot_each is_final seen now (map_to_list (mg_sessions g)).

(** *** Restoring *)

Definition normalize_restored_meta (m : SessionMeta) (persist : bool) (now : Z) : MM SessionMeta :=
  recording <-m (if decide (sm_kind m = Shell) then store (try (read_claude (sm_name m))) else mret (Ok None));
  let '(m', changed, kind_changed) := normalized (hs_defect hs) recording m in
  (match pi_warning (hs_defect hs) recording m with
   | Some defect =>
       record_recovery_event now "warning" "session.pi_recording_invalid" (Some (sm_name m))
         ("left a shell instead of promoting to Pi: " +:+ defect) None
   | None => mret tt
   end) ;;m
  if changed && persist then
    w <-m store (try (write_session m'));
    match w with
    | Err error => if kind_changed : bool then mfail error else mret m'
    | Ok _ => mret m'
    end
  else mret m'.

(** The slot a record gets, and the slots taken after it. *)
Definition repaired_slot (used : list Z) (m : SessionMeta) : SessionMeta * bool :=
  if (sm_slot m <? 1)%Z || bool_decide (sm_slot m ∈ used) then (with_slot m (alloc_slot used), true) else (m, false).

(** Phase A: the records to spawn and the names lost. *)
Fixpoint prepare_all (recovery_complete : bool) (now : Z) (used : list Z) (metas : list SessionMeta)
  : MM (list SessionMeta * list string) :=
  match metas with
  | [] => mret ([], [])
  | m :: rest =>
      match validate_session_name (sm_name m) with
      | Err _ =>
          r <-m prepare_all recovery_complete now used rest;
          mret (fst r, sm_name m :: snd r)
      | Ok _ =>
          let '(m1, repaired) := repaired_slot used m in
          let used := sm_slot m1 :: used in
          (if repaired && recovery_complete then _ <-m store (try (write_session m1)); mret tt else mret tt) ;;m
          n <-m mtry (normalize_restored_meta m1 recovery_complete now);
          prepared <-m (match n with
                        | Err e => mret (Err e)
                        | Ok m2 => p <-m mtry (prepare_session (sm_slot m2)); mret (match p with Ok _ => Ok m2 | Err e => Err e end)
                        end);
          match prepared with
          | Err error =>
              record_recovery_event now "error" "session.restore_failed" (Some (sm_name m)) error None ;;m
              r <-m prepare_all recovery_complete now used rest;
              mret (fst r, sm_name m :: snd r)
          | Ok m2 =>
              r <-m prepare_all recovery_complete now used rest;
              mret (m2 :: fst r, snd r)
          end
      end
  end.

(** Phase B.  The spawns run concurrently in the code, each on its own record. *)
Fixpoint spawn_all (ready : list SessionMeta) : MM (list (SessionMeta * result nat string)) :=
  match ready with
  | [] => mret []
  | m :: rest =>
      r <-m mtry (restore_one m None);
      outcomes <-m spawn_all rest;
      mret ((m, r) :: outcomes)
  end.

(** Phase C: the names lost, and how many sessions were restored. *)
Fixpoint commit_all (recovery_complete : bool) (now : Z) (outcomes : list (SessionMeta * result nat string))
  : MM (list string * nat) :=
  match outcomes with
  | [] => mret ([], 0)
  | (m, Ok h) :: rest =>
      (if recovery_complete then mret tt else update (set_deferred (insert (sm_name m) (h, m)))) ;;m
      update (set_sessions (insert (sm_name m) h)) ;;m
      r <-m commit_all recovery_complete now rest;
      mret (fst r, S (snd r))
  | (m, Err e) :: rest =>
      record_recovery_event now "error" "session.restore_failed" (Some (sm_name m)) e None ;;m
      _ <-m mtry (stop_session_locked (sm_slot m) None);
      r <-m commit_all recovery_complete now rest;
      mret (sm_name m :: fst r, snd r)
  end.

Definition clean_shutdown_path : path := ("", "clean-shutdown").
Definition crash_report_path : path := ("", "last-crash-report.json").

Definition number (n : nat) : string := string_of_bytes (dec (Z.of_nat n)).

Definition restore (now : Z) : MM unit :=
  recovery_complete <-m store recover_pending_rename;
  clean_shutdown <-m store (exists_ clean_shutdown_path);
  _ <-m store (try (remove_if_exists clean_shutdown_path));
  metas <-m store list_sessions;
  let metas := sort_by (fun a b => string_leb (sm_name a) (sm_name b)) metas in
  prepared <-m prepare_all recovery_complete now [] metas;
  outcomes <-m spawn_all (fst prepared);
  committed <-m commit_all recovery_complete now outcomes;
  let lost := snd prepared ++ fst committed in
  (if negb clean_shutdown && negb (bool_decide (lost = [])) then
     _ <-m store (try (atomic_write crash_report_path (hs_crash_report hs lost))); mret tt
   else mret tt) ;;m
  record_recovery_event now (if decide (lost = []) then "info" else "warning") "daemon.restore" None
    ("restored " +:+ number (snd committed) +:+ " of " +:+ number (length metas) +:+ " sessions; skipped " +:+ number (length lost)) None.

(** *** Agent hooks *)

Inductive PiEvent := Pi_start | Pi_quit | Pi_other.

(** [primary]: the process evidence checks out. *)
Definition record_pi_hook (name : string) (event : PiEvent) (session_id : string) (session_file : option string)
    (cwd : string) (primary : result unit string) (now : Z) : MM unit :=
  s <-m session name;
  match s with
  | None => mfail "session is not registered"
  | Some h =>
      match primary with
      | Err e => mfail e
      | Ok _ =>
          meta <-m store (read_session name);
          match meta with
          | None => mfail "session is not registered"
          | Some m =>
              if negb (bool_decide (sm_kind m = Shell) || bool_decide (sm_kind m = Pi)) then mfail "non-Pi session kind" else
              match session_file with
              | None => mfail "no exact session file"
              | Some path =>
                  if negb (Agents.pi.is_session_file path) then mfail "not an absolute JSONL path"
                  else if negb (is_absolute cwd) then mfail "cwd is not absolute"
                  else if negb (Agents.pi.is_session_id session_id) then mfail "session id is invalid"
                  else
                  match event with
                  | Pi_start =>
                      store (write_claude name (mk_claude session_id cwd now (Some path) (Some Pi))) ;;m
                      let m1 := if decide (sm_kind m = Shell) then with_resume (with_kind m Pi) false (sm_resume_as_muse m) else m in
                      let m2 := with_cwd m1 cwd in
                      if bool_decide (sm_kind m = Shell) || negb (sm_cwd m =? cwd)%string then store (write_session (with_updated m2 now))
                      else mret tt
                  | Pi_quit =>
                      c <-m store (read_claude name);
                      match c with
                      | None => mfail "no existing recording"
                      | Some c =>
                          if negb (bool_decide (cm_agent_kind c = Some Pi)) || negb (bool_decide (cm_session_file c = Some path))
                             || negb (cm_session_id c =? session_id)%string then mfail "does not match the current recording"
                          else
                            store (write_claude name (mk_claude (cm_session_id c) (cm_cwd c) now None None)) ;;m
                            if bool_decide (sm_kind m = Pi) || sm_resume_as_claude m then
                              store (write_session (with_updated (with_kind (with_resume m false (sm_resume_as_muse m)) Shell) now))
                            else mret tt
                      end
                  | Pi_other => mfail "unknown Pi hook event"
                  end
              end
          end
      end
  end.
End manager.

(** ** The flag of a hand-started agent *)

(** Periodic snapshots, oldest first. *)
Definition observe (threshold : Z) (s : bool * Z) (detected : bool) : bool * Z :=
  decide_resume (fst s) detected (snd s) threshold.

(** [n] snapshots in a row have missed the agent since it was last known. *)
Definition missed (current : bool) (seen : list bool) (n : Z) : Prop :=
  exists before after, seen = before ++ after /\ Forall (eq false) after /\ Z.of_nat (length after) = n
    /\ (last before = Some true \/ (before = [] /\ current = true)).

Lemma missed_snoc_true current seen n : missed current (seen ++ [true]) n <-> n = 0%Z.
Proof.
  split.
  - intros (before & after & He & Hf & <- & _). destruct after as [|x after _] using rev_ind; [done|]. exfalso.
    rewrite app_assoc in He. apply app_inj_tail in He as [_ <-]. apply Forall_app in Hf as [_ Hf]. by inversion Hf.
  - intros ->. exists (seen ++ [true]), []. rewrite app_nil_r, last_snoc. split_and!; [done|constructor|done|by left].
Qed.

Lemma missed_snoc_false current seen n :
  missed current (seen ++ [false]) n <-> exists k, missed current seen k /\ n = (k + 1)%Z.
Proof.
  split.
  - intros (before & after & He & Hf & <- & Hb). destruct after as [|x after _] using rev_ind.
    + exfalso. rewrite app_nil_r in He. subst before. rewrite last_snoc in Hb. destruct Hb as [[=]|[Hb _]]. by destruct seen.
    + rewrite app_assoc in He. apply app_inj_tail in He as [-> <-]. apply Forall_app in Hf as [Hf _].
      exists (Z.of_nat (length after)). split; [by exists before, after|]. rewrite length_app. simpl. lia.
  - intros (k & (before & after & -> & Hf & <- & Hb) & ->). exists before, (after ++ [false]).
    rewrite app_assoc. split_and!; [done| |rewrite length_app; simpl; lia|done]. apply Forall_app. split; [done|by repeat constructor].
Qed.

Lemma missed_fun current seen n k : missed current seen n -> missed current seen k -> n = k.
Proof.
  revert n k. induction seen as [|[] seen IH] using rev_ind; intros n k.
  - intros (b & a & E & _ & <- & _) (b' & a' & E' & _ & <- & _).
    symmetry in E, E'. apply app_eq_nil in E as [_ ->]. by apply app_eq_nil in E' as [_ ->].
  - rewrite !missed_snoc_true. congruence.
  - rewrite !missed_snoc_false. intros (i & Hi & ->) (j & Hj & ->). by rewrite (IH i j).
Qed.

(** A session stays marked as running an agent exactly as long as fewer than the
    threshold's number of snapshots in a row have missed the agent since it was last
    seen, or since the mark was read from disk; the streak kept is their number. *)
Theorem resume_flag_spec (threshold : Z) (current : bool) (seen : list bool) (Hthreshold : (1 <= threshold)%Z) :
  let '(flag, streak) := foldl (observe threshold) (current, 0%Z) seen in
  (flag = true <-> exists n, missed current seen n /\ (n < threshold)%Z)
  /\ (flag = true -> missed current seen streak) /\ (flag = false -> streak = 0%Z).
Proof.
  induction seen as [|d seen IH] using rev_ind.
  - simpl. split_and!; [|intros ->|done].
    + split.
      * intros ->. exists 0%Z. split; [|lia]. exists [], []. by split_and!; [|constructor| |right].
      * intros (n & (b & a & E & _ & _ & Hb) & _). symmetry in E. apply app_eq_nil in E as [-> _]. by destruct Hb as [[=]|[_ ?]].
    + exists [], []. by split_and!; [|constructor| |right].
  - rewrite foldl_app. simpl. destruct (foldl (observe threshold) (current, 0%Z) seen) as [flag streak].
    destruct IH as (IH1 & IH2 & IH3). unfold observe, decide_resume. cbn [fst snd]. destruct d.
    + split_and!; [|intros _; by apply missed_snoc_true|done]. split; [|done]. intros _. exists 0%Z.
      split; [by apply missed_snoc_true|lia].
    + destruct flag; cbn [negb].
      * specialize (IH2 eq_refl). destruct (Z.leb_spec threshold (streak + 1)).
        -- split_and!; [|done|done]. split; [done|]. intros (n & (k & Hk & ->)%missed_snoc_false & Hlt).
           rewrite (missed_fun _ _ _ _ Hk IH2) in Hlt. lia.
        -- split_and!; [|intros _; apply missed_snoc_false; by exists streak|done]. split; [|done]. intros _.
           exists (streak + 1)%Z. split; [apply missed_snoc_false; by exists streak|done].
      * split_and!; [|done|done]. split; [done|]. intros (n & (k & Hk & ->)%missed_snoc_false & Hlt).
        apply IH1. exists k. split; [done|lia].
Qed.

Lemma resume_flag_spec_witness :
  (1 <= CLAUDE_ABSENT_THRESHOLD)%Z
  /\ foldl (observe CLAUDE_ABSENT_THRESHOLD) (false, 0%Z) [true; false; true; false] = (true, 1%Z)
  /\ exists n, missed false [true; false; true; false] n /\ (n < CLAUDE_ABSENT_THRESHOLD)%Z.
Proof.
  split; [done|]. split; [reflexivity|].
  destruct (resume_flag_spec CLAUDE_ABSENT_THRESHOLD false [true; false; true; false]) as [H _]; [done|]. by apply H.
Defined.

(** ** What a record is restored as *)

(** Whatever recording is found, a restored record keeps its name and slot, has no
    flag left, and its kind is its own unless that is a shell; a shell becomes Pi
    exactly with a usable recording tagged Pi, Claude only when flagged and the
    recording is readable and not tagged Pi, Muse only when flagged and nothing else
    applies; and a record said to be unchanged is. *)
Theorem normalized_spec (defect : ClaudeMeta -> option string) (recording : result (option ClaudeMeta) string) (m : SessionMeta) :
  let '(m', changed, _) := normalized defect recording m in
  let tagged := match recording with Ok (Some r) => bool_decide (cm_agent_kind r = Some Pi) | _ => false end in
  let usable := match recording with Ok (Some r) => tagged && bool_decide (defect r = None) | _ => false end in
  let readable := match recording with Ok _ => true | Err _ => false end in
  sm_name m' = sm_name m /\ sm_slot m' = sm_slot m /\ sm_resume_as_claude m' = false /\ sm_resume_as_muse m' = false
  /\ sm_kind m' = (if bool_decide (sm_kind m = Shell) then
                     if usable then Pi
                     else if sm_resume_as_claude m && readable && negb tagged then Claude
                     else if sm_resume_as_muse m then Muse else Shell
                   else sm_kind m)
  /\ (changed = false -> m' = m).
Proof.
  assert (Hrepair : forall x, let '(m1, c1, k1) := x in let '(m2, c2, k2) := repair_title x in
    sm_name m2 = sm_name m1 /\ sm_slot m2 = sm_slot m1 /\ sm_resume_as_claude m2 = sm_resume_as_claude m1
    /\ sm_resume_as_muse m2 = sm_resume_as_muse m1 /\ sm_kind m2 = sm_kind m1 /\ (c2 = false -> m2 = m1 /\ c1 = false)).
  { intros [[m1 c1] k1]. unfold repair_title. destruct (sm_title m1) as [t|]; [|by split_and!].
    destruct (validate_title (Some t)) as [n|e]; [case_decide|]; by split_and!. }
  unfold normalized. specialize (Hrepair (promote_muse (promote_claude (promote_pi defect recording m)))).
  destruct (promote_muse _) as [[m1 c1] k1] eqn:E. destruct (repair_title _) as [[m2 c2] k2].
  destruct Hrepair as (-> & -> & -> & -> & -> & Hc).
  assert (H : sm_name m1 = sm_name m /\ sm_slot m1 = sm_slot m /\ sm_resume_as_claude m1 = false /\ sm_resume_as_muse m1 = false
    /\ sm_kind m1 = (if bool_decide (sm_kind m = Shell) then
                     if match recording with Ok (Some r) => bool_decide (cm_agent_kind r = Some Pi) && bool_decide (defect r = None) | _ => false end then Pi
                     else if sm_resume_as_claude m && match recording with Ok _ => true | Err _ => false end
                             && negb match recording with Ok (Some r) => bool_decide (cm_agent_kind r = Some Pi) | _ => false end then Claude
                     else if sm_resume_as_muse m then Muse else Shell
                   else sm_kind m)
    /\ (c1 = false -> m1 = m)).
  { destruct m as [n cw k up ti rc rm rs sl]. revert E. unfold promote_pi, promote_claude, promote_muse. cbn [sm_kind].
    destruct (decide (k = Shell)) as [->|Hk].
    - rewrite (bool_decide_true (Shell = Shell)) by done.
      destruct recording as [[r|]|e]; [destruct (decide (cm_agent_kind r = Some Pi)) as [Ht|Ht];
        [rewrite (bool_decide_true _ Ht); destruct (defect r)|rewrite (bool_decide_false _ Ht)]| |];
        destruct rc, rm; cbn; intros [= <- <- <-]; split_and!; done.
    - rewrite (bool_decide_false (k = Shell)) by done. destruct rc, rm; cbn; rewrite ?decide_False by done; cbn;
        rewrite ?decide_False by done; cbn; intros [= <- <- <-]; split_and!; done. }
  destruct H as (H1 & H2 & H3 & H4 & H5 & H6). split_and!; try done.
  - rewrite H5. by destruct recording as [[r|]|e].
  - intros Hf. destruct (Hc Hf) as [-> Hf1]. by apply H6.
Qed.
