(* ===== verification/Lifecycle.v ===== *)
(** * Sessions over their whole life

    What holds of the manager's operations together: weakest preconditions for its
    monad, the operations a stuck rename journal blocks, and the invariant that every
    live session owns its slot. *)
From S2P Require Import Prelude Utf8.
From S2P Require Import Wire Store Rename Manager.
From S2P Require RingBuf Suspend.

Implicit Types w : World.
Implicit Types fs : FS.

(** ** Weakest preconditions *)

Definition wp {A : Type} (m : MM A) (w : World) (Q : result A string -> World -> Prop) (D : FS -> Prop) : Prop :=
  match m w with Returned r w' => Q r w' | Died fs => D fs end.

Lemma wp_then {A B : Type} (m : MM A) (k : A -> MM B) w Q D :
  wp m w (fun r w' => match r with Ok a => wp (k a) w' Q D | Err e => Q (Err e) w' end) D -> wp (mthen m k) w Q D.
Proof. unfold wp, mthen. by destruct (m w) as [[a|e] w'|fs]. Qed.

Lemma wp_try {A : Type} (m : MM A) w (Q : result (result A string) string -> World -> Prop) D :
  wp m w (fun r => Q (Ok r)) D -> wp (mtry m) w Q D.
Proof. unfold wp, mtry. by destruct (m w) as [r w'|fs]. Qed.

Lemma wp_mono {A : Type} (m : MM A) w (Q Q' : result A string -> World -> Prop) (D D' : FS -> Prop) :
  wp m w Q D -> (forall r w', Q r w' -> Q' r w') -> (forall fs, D fs -> D' fs) -> wp m w Q' D'.
Proof. unfold wp. destruct (m w) as [r w'|fs]; eauto. Qed.

Lemma wp_store {A : Type} (m : M A) w (Q : result A string -> World -> Prop) (D : FS -> Prop) :
  match m (w_fs w) (w_faults w) with
  | Done r fs o => Q r (mk_world fs o (w_answers w) (w_manager w) (w_children w) (w_effects w))
  | Crashed fs => D fs
  end -> wp (store m) w Q D.
Proof. unfold wp, store. by destruct (m (w_fs w) (w_faults w)). Qed.

(** ** A stuck journal *)
Section stuck.
Context {J : StateJson} (hs : Host).

(** Recovery fails, whatever happens, and changes nothing. *)
Definition stuck (fs : FS) : Prop :=
  forall o, match recover_pending_rename fs o with
            | Done (Ok _) _ _ => False
            | Done (Err _) fs' _ => fs' = fs
            | Crashed fs' => fs' = fs
            end.

(** Metadata under the new name that is not what the journal says. *)
Lemma mismatch_stuck (fs : FS) b j b' m :
  fs !! rename_journal_path = Some b -> read_journal b = Some j -> fs !! session_path (jn_to j) = Some b' ->
  read_meta b' = Some m -> m <> with_name (jn_source j) (jn_to j) -> stuck fs.
Proof.
  intros Hj Hr Hto Hm Hne o. unfold recover_pending_rename.
  unfold mbind at 1. unfold read at 1. destruct (next o); try done. rewrite Hj, Hr.
  destruct (invalid_journal j); [done|]. unfold mbind at 1, read_session at 1, mbind at 1, read at 1.
  destruct (next (tl o)); try done.
  assert (Hrest : forall from o', match
      mbind (read_session (jn_to j)) (fun to =>
        if differs from (jn_source j) || differs to (with_name (jn_source j) (jn_to j)) then
          fail "pending rename metadata does not match its journal"
        else match from, to with
             | _, Some _ =>
                 mbind (try (remove_durable (session_path (jn_from j)))) (fun r =>
                 match r with
                 | Err error => mbind (read_session (jn_from j)) (fun left =>
                     match left with Some _ => fail error | None => cleanup_then_finish (jn_from j) end)
                 | Ok _ => cleanup_then_finish (jn_from j)
                 end)
             | Some _, None => cleanup_then_finish (jn_to j)
             | None, None => fail "pending rename has no session metadata"
             end) fs o'
      with Done (Ok _) _ _ => False | Done (Err _) fs' _ => fs' = fs | Crashed fs' => fs' = fs end).
  { intros from o'. unfold mbind at 1, read_session at 1, mbind at 1, read at 1.
    destruct (next o'); try done. rewrite Hto, Hm. unfold ret. cbn [differs].
    rewrite bool_decide_false, orb_true_r by done. done. }
  destruct (fs !! session_path (jn_from j)) as [bf|]; [destruct (read_meta bf) as [mf|]|]; try done; apply Hrest.
Qed.

(** Nothing but an error, or a crash, and the files as they were. *)
Definition refused {A : Type} (m : MM A) (w : World) : Prop :=
  wp m w (fun r w' => (exists e, r = Err e) /\ w_fs w' = w_fs w /\ w_manager w' = w_manager w /\ w_effects w' = w_effects w)
    (fun fs => fs = w_fs w).

Lemma refused_then {A B : Type} (m : MM A) (k : A -> MM B) w : refused m w -> refused (mthen m k) w.
Proof.
  intros H. apply wp_then. eapply wp_mono; [exact H| |done]. intros r w' ([e ->] & ?). eauto.
Qed.

Lemma refused_fail {A : Type} (e : string) w : refused (@mfail A e) w.
Proof. split; [by exists e|done]. Qed.

Lemma recover_refused w : stuck (w_fs w) -> refused (store recover_pending_rename) w.
Proof.
  intros H. apply wp_store. specialize (H (w_faults w)).
  destruct (recover_pending_rename (w_fs w) (w_faults w)) as [[b|e] fs o|fs]; [done| |done]. split; [by exists e|done].
Qed.

Lemma finish_refused w : stuck (w_fs w) -> refused finish_pending_rename w.
Proof. intros H. by apply refused_then, recover_refused. Qed.

(** The operations that keep the sessions: all that take the maintenance lock but
    the hook. *)
Inductive upkeep :=
| U_create (name cwd : string) (kind : SessionKind) (title : option string) (now : Z)
| U_rename (from to : string)
| U_remove (name : string)
| U_reap (now : Z) (exit_code : nat -> option Z)
| U_title (name : string) (title : option string)
| U_snapshot (is_final : bool) (seen : string -> Seen) (now : Z)
| U_restore (now : Z).

Definition perform (u : upkeep) : MM unit :=
  match u with
  | U_create name cwd kind title now => _ <-m create_with_title hs name cwd kind title now; mret tt
  | U_rename from to => _ <-m rename hs from to; mret tt
  | U_remove name => remove hs name
  | U_reap now exit_code => _ <-m reap hs now exit_code; mret tt
  | U_title name title => set_title name title
  | U_snapshot is_final seen now => snapshot_inner hs is_final seen now
  | U_restore now => restore hs now
  end.

Lemma stuck_refused u w : stuck (w_fs w) -> refused (perform u) w.
Proof.
  intros H. pose proof (finish_refused w H) as Hf. destruct u; cbn [perform].
  - apply refused_then. unfold create_with_title.
    destruct (validate_session_name name); [|apply refused_fail]. destruct (validate_title title); [|apply refused_fail].
    by apply refused_then.
  - apply refused_then. unfold rename. destruct (validate_session_name to); [|apply refused_fail]. by apply refused_then.
  - by apply refused_then.
  - by apply refused_then, refused_then.
  - unfold set_title. destruct (validate_title title); [|apply refused_fail]. by apply refused_then.
  - by apply refused_then.
  - by apply refused_then, recover_refused.
Qed.

Lemma write_session_path m fs o r fs' o' :
  write_session m fs o = Done (Ok r) fs' o' -> fs' = <[session_path (sm_name m) := meta_text m]> fs.
Proof. unfold write_session, atomic_write, change. destruct (next o); intros [=]; done. Qed.

(** The next file operation works, or the run is over. *)
Ltac next_fault :=
  lazymatch goal with |- context [next ?o] => destruct (next o) end; try done; cbn [w_fs w_faults w_manager].

(** A start hook that had something to change has changed the metadata. *)
Lemma hook_changes (w w' : World) name id file cwd now b (m : SessionMeta) :
  w_fs w !! session_path name = Some b -> read_meta b = Some m -> sm_name m = name ->
  (sm_kind m = Shell \/ sm_cwd m <> cwd) ->
  record_pi_hook name Pi_start id file cwd (Ok tt) now w = Returned (Ok tt) w' ->
  exists m', m' <> m /\ w_fs w' !! session_path name = Some (meta_text m')
    /\ forall p, p <> session_path name -> p <> claude_path name -> w_fs w' !! p = w_fs w !! p.
Proof.
  intros Hb Hm Hname Hch. unfold record_pi_hook, session, mthen, mret, manager, mfail, store. cbn [w_fs w_faults w_manager].
  destruct (mg_sessions (w_manager w) !! name) as [h|]; [|done].
  unfold read_session at 1, mbind at 1, read at 1. destruct (next (w_faults w)); try done. rewrite Hb, Hm. unfold ret.
  cbn [w_fs w_faults w_manager].
  destruct (negb _); [done|]. destruct file as [path|]; [|done]. destruct (negb (Agents.pi.is_session_file path)); [done|].
  destruct (negb (is_absolute cwd)); [done|]. destruct (negb (Agents.pi.is_session_id id)); [done|].
  unfold write_claude, atomic_write, change. next_fault.
  set (m1 := with_updated _ now).
  assert (Hm1 : m1 <> m).
  { intros E. unfold m1 in E. destruct Hch as [Hk|Hc].
    - apply (f_equal sm_kind) in E. rewrite Hk in E. simpl in E. discriminate E.
    - apply (f_equal sm_cwd) in E. simpl in E. congruence. }
  assert (Hn1 : sm_name m1 = name) by (unfold m1; case_decide; done).
  assert (Hcond : bool_decide (sm_kind m = Shell) || negb (sm_cwd m =? cwd)%string = true).
  { destruct Hch as [Hk|Hc]; [by rewrite bool_decide_true|]. by rewrite (proj2 (String.eqb_neq _ _) Hc), orb_true_r. }
  rewrite Hcond. lazymatch goal with |- context [write_session ?m ?f ?o] => destruct (write_session m f o) as [[[]|e] fs o'|fs] eqn:Hw end;
    [|done..].
  apply write_session_path in Hw as ->. rewrite Hn1. intros [= <-]. cbn [w_fs]. exists m1. split_and!; [done| |].
  - by rewrite lookup_insert_eq.
  - intros p H1 H2. by rewrite !lookup_insert_ne by done.
Qed.

(** While the cleanup of a rename is still to be finished, a start hook of the
    renamed session's agent that reports anything new succeeds and makes the rename
    journal unreadable for ever: from then on, on any files faults leave, creating,
    renaming, removing, reaping, titling and snapshotting sessions fail and so does
    every restart's restore, and none changes a file. *)
Theorem pi_hook_wedges (w w' : World) (b b' : list byte) (j : RenameJournal)
    (id : string) (file : option string) (cwd : string) (now : Z)
    (Hjournal : w_fs w !! rename_journal_path = Some b) (Hj : read_journal b = Some j)
    (Hrenamed : w_fs w !! session_path (jn_to j) = Some b')
    (Hmeta : read_meta b' = Some (with_name (jn_source j) (jn_to j)))
    (Hnews : sm_kind (jn_source j) = Shell \/ sm_cwd (jn_source j) <> cwd)
    (Hhook : record_pi_hook (jn_to j) Pi_start id file cwd (Ok tt) now w = Returned (Ok tt) w') :
  forall (u : upkeep) (later : World), w_fs later = w_fs w' ->
    match perform u later with
    | Returned (Ok _) _ => False
    | Returned (Err _) after => w_fs after = w_fs w' /\ w_effects after = w_effects later
    | Died fs => fs = w_fs w'
    end.
Proof.
  intros u later Hfs.
  destruct (hook_changes _ _ _ _ _ _ _ _ _ Hrenamed Hmeta eq_refl Hnews Hhook) as (m' & Hne & Hm' & Hrest).
  assert (Hst : stuck (w_fs later)).
  { rewrite Hfs. apply (mismatch_stuck _ b j (meta_text m') m'); [|done|done|apply read_meta_text|done].
    by rewrite Hrest. }
  pose proof (stuck_refused u later Hst) as H. unfold refused, wp in H.
  destruct (perform u later) as [[[]|e] after|fs]; [by destruct H as [[? [=]] _]|destruct H as (_ & H1 & _ & H2)|].
  - by rewrite H1, Hfs.
  - by rewrite H, Hfs.
Qed.
End stuck.

(** A host without control groups on which every directory exists. *)
Definition demo_host : Host :=
  mk_host false 64 (fun h => Z.of_nat (S h)) (fun _ => true) "/home" (fun _ => None) (fun _ => []).

Definition demo_child (slot : Z) : Child := mk_child slot true Suspend.O_None 0 (RingBuf.new 64 1).

Definition world_after {A : Type} (r : run A) : option World := match r with Returned _ w => Some w | Died _ => None end.

Definition demo_meta : SessionMeta := mk_meta "a" "/src" Shell 5 None false false None 1.
Definition demo_manager : Manager := mk_manager {["a" := 0]} 0 ∅ ∅ ∅ ∅.

(** The removal of the renamed session's old recording fails. *)
Definition demo_world : World :=
  mk_world {[session_path "a" := number_text demo_meta]} (repeat F_ok 10 ++ [F_fail]) [] demo_manager [demo_child 1] [].

Definition demo_renamed : World :=
  Eval vm_compute in default demo_world (world_after (@rename numbered demo_host "a" "b" demo_world)).
Definition demo_hooked : World :=
  Eval vm_compute in default demo_world (world_after
    (@record_pi_hook numbered "b" Pi_start "0123456789" (Some "/s.jsonl"%string) "/src" (Ok tt) 7 demo_renamed)).

Lemma pi_hook_wedges_witness :
  @rename numbered demo_host "a" "b" demo_world = Returned (Ok (with_name demo_meta "b")) demo_renamed
  /\ @record_pi_hook numbered "b" Pi_start "0123456789" (Some "/s.jsonl"%string) "/src" (Ok tt) 7 demo_renamed
       = Returned (Ok tt) demo_hooked
  /\ let boot := mk_world (w_fs demo_hooked) [] [] (mk_manager ∅ 0 ∅ ∅ ∅ ∅) [] [] in
     match @perform numbered demo_host (U_restore 9) boot with
     | Returned (Ok _) _ => False
     | Returned (Err _) after => w_fs after = w_fs demo_hooked /\ w_effects after = []
     | Died fs => fs = w_fs demo_hooked
     end.
Proof.
  split; [vm_compute; reflexivity|]. split; [vm_compute; reflexivity|]. cbv zeta.
  apply (@pi_hook_wedges numbered demo_host demo_renamed demo_hooked
           (@journal_text numbered (mk_journal "a" "b" demo_meta)) (number_text (with_name demo_meta "b"))
           (mk_journal "a" "b" demo_meta) "0123456789" (Some "/s.jsonl"%string) "/src" 7).
  - vm_compute. reflexivity.
  - vm_compute. reflexivity.
  - vm_compute. reflexivity.
  - vm_compute. reflexivity.
  - left. reflexivity.
  - vm_compute. reflexivity.
  - reflexivity.
Defined.
