(* ===== verification/Slotted.v ===== *)
(** * Every live session owns its slot

    The invariant of the manager's table over the state directory while the
    directory answers, however starting, stopping and preparing sessions fail: each
    registered session has its record under its own name with the slot its child
    runs in, and no two records share a slot. *)
From S2P Require Import Prelude Utf8.
From S2P Require Import Wire Store Rename Manager Lifecycle.
From S2P Require RingBuf Suspend.

Implicit Types w : World.
Implicit Types fs : FS.

(** ** Slot numbers *)

Lemma first_free_ge fuel n used : (n <= first_free fuel n used)%Z.
Proof. revert n. induction fuel as [|f IH]; intros n; simpl; [lia|]. case_bool_decide; [|lia]. specialize (IH (n + 1)%Z). lia. Qed.

Lemma first_free_below fuel n used k : (n <= k < first_free fuel n used)%Z -> k ∈ used.
Proof.
  revert n. induction fuel as [|f IH]; intros n; simpl; [lia|]. case_bool_decide as Hn; [|lia]. intros Hk.
  destruct (decide (k = n)) as [->|]; [done|]. apply (IH (n + 1)%Z). lia.
Qed.

Lemma first_free_stops fuel n used :
  first_free fuel n used ∈ used -> first_free fuel n used = (n + Z.of_nat fuel)%Z.
Proof.
  revert n. induction fuel as [|f IH]; intros n; simpl; [lia|]. case_bool_decide as Hn; [|done]. intros H.
  rewrite IH by done. lia.
Qed.

(** The least positive number not in use. *)
Lemma alloc_slot_spec used :
  (1 <= alloc_slot used)%Z /\ alloc_slot used ∉ used /\ forall k, (1 <= k < alloc_slot used)%Z -> k ∈ used.
Proof.
  unfold alloc_slot. set (fuel := S (length used)).
  split; [apply first_free_ge|]. split; [|intros k; apply first_free_below].
  intros Hin. pose proof (first_free_stops fuel 1 used Hin) as Hs.
  assert (Hall : forall k, k ∈ seqZ 1 (Z.of_nat fuel) -> k ∈ used).
  { intros k Hk. apply elem_of_seqZ in Hk. apply (first_free_below fuel 1). lia. }
  pose proof (submseteq_length _ _ (NoDup_submseteq _ _ (NoDup_seqZ 1 (Z.of_nat fuel)) Hall)) as Hl.
  rewrite length_seqZ in Hl. unfold fuel in Hl. lia.
Qed.

(** ** Names and paths *)

(** A valid name whose recording is nobody's settings file. *)
Definition plain (n : string) : Prop := validate_session_name n = Ok tt /\ forall x, n <> x +:+ ".settings".

Lemma plain_apart n n' : plain n -> plain n' -> n <> n' -> apart n n'.
Proof. intros [_ H] [_ H'] Hne. split_and!; [done|apply H|apply H']. Qed.

Lemma plain_good n : plain n -> bad_name n = false.
Proof. intros [H _]. by apply validate_good. Qed.

Lemma session_path_inj n n' : session_path n = session_path n' -> n = n'.
Proof. intros [= H]. by apply append_inj in H. Qed.

(** The branches of a conditional. *)
Ltac split_if := cbn beta iota; lazymatch goal with |- wp (if ?b then _ else _) _ _ _ => destruct b eqn:? end.

Section slotted.
Context {J : StateJson} (hs : Host).

(** ** Records on disk *)
Definition stored (fs : FS) (n : string) (m : SessionMeta) : Prop :=
  exists b, fs !! session_path n = Some b /\ read_meta b = Some m.

Lemma stored_fun fs n m m' : stored fs n m -> stored fs n m' -> m = m'.
Proof. intros (b & H1 & H2) (b' & H3 & H4). congruence. Qed.

(** Every record is readable and has its file's name. *)
Definition named (fs : FS) : Prop :=
  forall n b, fs !! session_path n = Some b -> plain n /\ exists m, read_meta b = Some m /\ sm_name m = n.

Definition distinct (fs : FS) : Prop :=
  (forall n m, stored fs n m -> (1 <= sm_slot m)%Z)
  /\ forall n n' m m', stored fs n m -> stored fs n' m' -> sm_slot m = sm_slot m' -> n = n'.

(** Two directories with the same records. *)
Definition same_sessions (fs fs' : FS) : Prop :=
  fs' !! rename_journal_path = fs !! rename_journal_path /\ forall n, fs' !! session_path n = fs !! session_path n.

Lemma same_stored fs fs' n m : same_sessions fs fs' -> stored fs' n m <-> stored fs n m.
Proof. intros [_ H]. unfold stored. by rewrite H. Qed.

Lemma same_named fs fs' : same_sessions fs fs' -> named fs -> named fs'.
Proof. intros [_ H] Hn n b Hb. apply Hn. by rewrite <- H. Qed.

Lemma same_distinct fs fs' : same_sessions fs fs' -> distinct fs -> distinct fs'.
Proof.
  intros H [H1 H2]. split.
  - intros n m Hm%(same_stored _ _ _ _ H). by eapply H1.
  - intros n n' m m' Hm%(same_stored _ _ _ _ H) Hm'%(same_stored _ _ _ _ H). by apply H2.
Qed.

Lemma same_refl fs : same_sessions fs fs.
Proof. done. Qed.

Lemma same_trans fs fs' fs'' : same_sessions fs fs' -> same_sessions fs' fs'' -> same_sessions fs fs''.
Proof. intros [H1 H2] [H3 H4]. split; [congruence|]. intros n. by rewrite H4. Qed.

(** A record written under its name. *)
Lemma stored_write fs m n m' :
  stored (<[session_path (sm_name m) := meta_text m]> fs) n m' <->
  (n = sm_name m /\ m' = m) \/ (n <> sm_name m /\ stored fs n m').
Proof.
  unfold stored. destruct (decide (n = sm_name m)) as [->|Hne].
  - rewrite lookup_insert_eq. split.
    + intros (b & [= <-] & Hb). rewrite read_meta_text in Hb. injection Hb as <-. by left.
    + intros [[_ ->]|[? _]]; [|done]. exists (meta_text m). by rewrite read_meta_text.
  - rewrite lookup_insert_ne by (intros ?%session_path_inj; done). naive_solver.
Qed.

Lemma named_write fs m : named fs -> plain (sm_name m) -> named (<[session_path (sm_name m) := meta_text m]> fs).
Proof.
  intros H Hp n b. destruct (decide (n = sm_name m)) as [->|Hne].
  - rewrite lookup_insert_eq. intros [= <-]. split; [done|]. exists m. by rewrite read_meta_text.
  - rewrite lookup_insert_ne by (intros ?%session_path_inj; done). apply H.
Qed.

(** ... with the slot the name had, or one no other has. *)
Lemma distinct_write fs m :
  distinct fs -> (1 <= sm_slot m)%Z -> (forall n m', stored fs n m' -> sm_slot m' = sm_slot m -> n = sm_name m) ->
  distinct (<[session_path (sm_name m) := meta_text m]> fs).
Proof.
  intros [H1 H2] Hpos Hfree. split.
  - intros n m' [[-> ->]|[_ H]]%stored_write; [done|by eapply H1].
  - intros n n' m1 m2 [[-> ->]|[Hn H]]%stored_write [[-> ->]|[Hn' H']]%stored_write He; [done| | |by eapply H2].
    + symmetry. by eapply Hfree.
    + by eapply Hfree.
Qed.

(** ** The listing *)

Lemma json_name (f : string) : has_json_extension f = true <-> exists n, f = n +:+ ".json" /\ n <> ""%string.
Proof.
  unfold has_json_extension. rewrite andb_true_iff, Nat.ltb_lt, bool_decide_eq_true. split.
  - intros [Hl Hd]. exists (string_of_bytes (take (length (bytes_of_string f) - 5) (bytes_of_string f))). split.
    + apply (inj bytes_of_string). rewrite bytes_of_string_app, <- Hd, bytes_of_string_of_bytes.
      * by rewrite take_drop.
      * apply Forall_take, bytes_of_string_ok.
    + intros E. apply (f_equal (fun s => length (bytes_of_string s))) in E.
      rewrite bytes_of_string_of_bytes in E by (apply Forall_take, bytes_of_string_ok).
      rewrite length_take in E. simpl in E. lia.
  - intros (n & -> & Hne). rewrite !bytes_of_string_app, !length_app. simpl length. split.
    + destruct n; [done|]. simpl. lia.
    + rewrite drop_app_length'; [done|lia].
Qed.

Lemma read_sessions_good paths fs :
  (forall p, p ∈ paths -> exists n b m, p = session_path n /\ fs !! p = Some b /\ read_meta b = Some m) ->
  exists metas, read_sessions paths fs [] = Done (Ok metas) fs []
    /\ Forall2 (fun p m => exists n, p = session_path n /\ stored fs n m) paths metas.
Proof.
  induction paths as [|p paths IH]; intros H; simpl; [by exists []|].
  destruct (H p) as (n & b & m & Hp & Hb & Hm); [by left|].
  destruct IH as (metas & Hr & HF); [intros q Hq; apply H; by right|].
  exists (m :: metas). unfold mbind at 1, try, read. cbn [next hd tl]. unfold mbind at 1. rewrite Hr, Hb, Hm.
  split; [done|]. constructor; [|done]. exists n. split; [done|]. exists b. by rewrite <- Hp.
Qed.

Lemma elem_session_files fs p :
  named fs -> p ∈ session_files fs <-> exists n, p = session_path n /\ is_Some (fs !! p).
Proof.
  intros Hn. unfold session_files. rewrite list_elem_of_In, filter_In, <- list_elem_of_In.
  rewrite list_elem_of_fmap, andb_true_iff, bool_decide_eq_true, json_name. split.
  - intros [([q b] & -> & Hb) [Hd (n & Hf & Hne)]]. apply elem_of_map_to_list in Hb. exists n. simpl in *.
    split; [destruct q as [d f]; simpl in *; by subst|by eexists].
  - intros (n & -> & b & Hb). split; [|split; [done|]].
    + exists (session_path n, b). split; [done|]. by apply elem_of_map_to_list.
    + exists n. split; [done|]. intros ->. by destruct (Hn _ _ Hb) as [[[=] _] _].
Qed.

Lemma session_files_NoDup fs : NoDup (session_files fs).
Proof. unfold session_files. apply NoDup_ListNoDup, List.NoDup_filter, NoDup_ListNoDup, NoDup_fst_map_to_list. Qed.

(** The records, each once. *)
Lemma list_sessions_good fs :
  named fs -> exists metas, list_sessions fs [] = Done (Ok metas) fs []
    /\ (forall m, m ∈ metas <-> stored fs (sm_name m) m) /\ NoDup (map sm_name metas).
Proof.
  intros Hn. destruct (read_sessions_good (session_files fs) fs) as (metas & Hr & HF).
  { intros p (n & -> & b & Hb)%elem_session_files; [|done]. destruct (Hn n b Hb) as (_ & m & Hm & _). by exists n, b, m. }
  exists metas. split; [exact Hr|].
  assert (Hname : forall n m, stored fs n m -> sm_name m = n).
  { intros n m (b & Hb & Hm). destruct (Hn n b Hb) as (_ & m' & Hm' & <-). congruence. }
  split.
  - intros m. split.
    + intros Hin. apply list_elem_of_lookup in Hin as [i Hi].
      destruct (Forall2_lookup_r _ _ _ _ _ HF Hi) as (p & Hp & n & -> & Hst). by rewrite (Hname n m Hst).
    + intros Hst. assert (Hp : session_path (sm_name m) ∈ session_files fs).
      { apply elem_session_files; [done|]. exists (sm_name m). split; [done|]. destruct Hst as (b & Hb & _). by exists b. }
      apply list_elem_of_lookup in Hp as [i Hi]. destruct (Forall2_lookup_l _ _ _ _ _ HF Hi) as (m' & Hm' & n & Hn' & Hst').
      apply session_path_inj in Hn' as <-. rewrite (stored_fun _ _ _ _ Hst Hst'). by eapply list_elem_of_lookup_2.
  - pose proof (session_files_NoDup fs) as Hnd. clear Hr. revert Hnd. induction HF as [|p m paths metas (n & -> & Hst) HF IH]; simpl.
    + intros _. apply NoDup_nil_2.
    + intros [Hni Hnd]%NoDup_cons. apply NoDup_cons. split; [|by apply IH]. intros Hin. apply Hni.
      apply list_elem_of_fmap in Hin as (m' & He & Hin). apply list_elem_of_lookup in Hin as [i Hi].
      destruct (Forall2_lookup_r _ _ _ _ _ HF Hi) as (q & Hq & n' & -> & Hst').
      rewrite (Hname _ _ Hst), (Hname _ _ Hst') in He. subst n'. by eapply list_elem_of_lookup_2.
Qed.

(** ** The directory answers *)

Lemma any_exists_spec fs o l :
  exists b, any_exists l fs o = Done (Ok b) fs o /\ (b = false -> forall p, p ∈ l -> fs !! p = None).
Proof.
  induction l as [|p l IH]; simpl.
  - exists false. split; [done|]. intros _ p Hp. by apply not_elem_of_nil in Hp.
  - unfold mbind at 1, exists_. case_bool_decide as Hp; [by exists true|].
    destruct IH as (b & Hb & Hnone). exists b. split; [done|]. intros Hf q [->|Hq]%elem_of_cons; [|by apply Hnone].
    destruct (fs !! p) eqn:E; [|done]. destruct Hp. eauto.
Qed.

Lemma bind_ok {A B : Type} (m : M A) (k : A -> M B) fs o a fs' o' :
  m fs o = Done (Ok a) fs' o' -> mbind m k fs o = k a fs' o'.
Proof. unfold mbind. by intros ->. Qed.

Lemma exists_at fs o p : exists_ p fs o = Done (Ok (bool_decide (is_Some (fs !! p)))) fs o.
Proof. done. Qed.

Lemma read_session_at fs n b m :
  fs !! session_path n = Some b -> read_meta b = Some m -> read_session n fs [] = Done (Ok (Some m)) fs [].
Proof. intros Hb Hm. unfold read_session, mbind, read. cbn [next hd tl]. by rewrite Hb, Hm. Qed.

Lemma read_session_none_at fs n : fs !! session_path n = None -> read_session n fs [] = Done (Ok None) fs [].
Proof. intros Hb. unfold read_session, mbind, read. cbn [next hd tl]. by rewrite Hb. Qed.

(** What a completed rename does to the records. *)
Definition renamed (fs fs' : FS) (from to : string) (m : SessionMeta) : Prop :=
  fs' !! rename_journal_path = None
  /\ (forall n b, fs' !! session_path n = Some b <->
        (n = to /\ b = meta_text (with_name m to)) \/ (n <> from /\ n <> to /\ fs !! session_path n = Some b)).

Lemma renamed_stored fs fs' from to m n m' :
  renamed fs fs' from to m ->
  stored fs' n m' <-> (n = to /\ m' = with_name m to) \/ (n <> from /\ n <> to /\ stored fs n m').
Proof.
  intros [_ H]. unfold stored. split.
  - intros (b & [[-> ->]|(H1 & H2 & H3)]%H & Hm); [|right; eauto].
    rewrite read_meta_text in Hm. injection Hm as <-. by left.
  - intros [[-> ->]|(H1 & H2 & b & H3 & H4)].
    + eexists. split; [apply H; by left|apply read_meta_text].
    + exists b. split; [|done]. apply H. by right.
Qed.

Lemma renamed_named fs fs' from to m : named fs -> plain to -> renamed fs fs' from to m -> named fs'.
Proof.
  intros Hn Hp [_ H] n b [[-> ->]|(H1 & H2 & H3)]%H; [|by apply Hn].
  split; [done|]. exists (with_name m to). by rewrite read_meta_text.
Qed.

(** Nothing under the new name: the rename goes through, and leaves nothing under the
    old one. *)
Lemma rename_session_ready fs from to m :
  named fs -> fs !! rename_journal_path = None -> plain from -> plain to -> from <> to ->
  stored fs from m -> fs !! session_path to = None -> (forall a, fs !! artifact_path a to = None) ->
  exists fs', Store.rename_session from to fs [] = Done (Ok tt) fs' [] /\ renamed fs fs' from to m
    /\ forall a, fs' !! artifact_path a from = None.
Proof.
  intros Hn Hj Hf Ht Hne (b & Hb & Hm) Hto Hbare. pose proof (plain_apart _ _ Hf Ht Hne) as Hap.
  assert (Hname : sm_name m = from) by (destruct (Hn from b Hb) as (_ & m' & Hm' & <-); congruence).
  assert (Hr : ready from to fs) by (constructor; done).
  exists (moved from to m fs). split; [by eapply rename_good; eauto using plain_good|].
  destruct (moved_clean from to m fs Hap Hr) as [H1 H2 H3 [H4 _] H5]. split; [split; [done|]|exact H5].
  intros n c. destruct (decide (n = to)) as [->|Hnt]; [|destruct (decide (n = from)) as [->|Hnf]].
  - change (session_path to) with (loc from to (K_meta To)). rewrite H4. unfold published. split.
    + intros [= <-]. by left.
    + intros [[_ ->]|(_ & ? & _)]; done.
  - change (session_path from) with (loc from to (K_meta From)). rewrite H3. split; [done|].
    intros [[? _]|(? & _ & _)]; done.
  - rewrite (H1 (session_path n)).
    + split; [intros H; by right|]. intros [[? _]|(_ & _ & ?)]; done.
    + intros [|[]|a k] E.
      * discriminate E.
      * by apply session_path_inj in E.
      * by apply session_path_inj in E.
      * apply (f_equal fst) in E. by destruct a.
Qed.

Lemma rename_session_good fs from to :
  named fs -> fs !! rename_journal_path = None -> plain from -> plain to -> from <> to ->
  (exists e, Store.rename_session from to fs [] = Done (Err e) fs [])
  \/ exists m fs', stored fs from m /\ fs !! session_path to = None
       /\ Store.rename_session from to fs [] = Done (Ok tt) fs' [] /\ renamed fs fs' from to m
       /\ forall a, fs' !! artifact_path a from = None.
Proof.
  intros Hn Hj Hf Ht Hne.
  destruct (fs !! session_path from) as [b|] eqn:Hb.
  2:{ left. unfold Store.rename_session. rewrite (bind_ok _ _ _ _ _ _ _ (read_session_none_at _ _ Hb)). by eexists. }
  destruct (Hn from b Hb) as (_ & m & Hm & Hname).
  assert (Hgo : Store.rename_session from to fs [] =
    (if bool_decide (is_Some (fs !! session_path to)) then fail "target session artifact already exists" else
     occupied <-! any_exists (map snd (copies from to));
     if occupied : bool then fail "target session artifact already exists" else
     r <-! try (atomic_write rename_journal_path (journal_text (mk_journal from to m)));
     match r with
     | Err error => created <-! if_exists rename_journal_path; rename_precommit_error error created
     | Ok _ => created <-! copy_artifacts (copies from to) [rename_journal_path]; publish m from to created
     end) fs []).
  { unfold Store.rename_session. rewrite (bind_ok _ _ _ _ _ _ _ (read_session_at _ _ _ _ Hb Hm)).
    rewrite (bind_ok _ _ _ _ _ _ _ (exists_at _ _ _)), Hj, bool_decide_false by (intros [? [=]]).
    by rewrite (bind_ok _ _ _ _ _ _ _ (exists_at _ _ _)). }
  destruct (fs !! session_path to) as [b'|] eqn:Hto.
  { left. rewrite Hgo, bool_decide_true by eauto. by eexists. }
  rewrite bool_decide_false in Hgo by (intros [? [=]]).
  destruct (any_exists_spec fs [] (map snd (copies from to))) as ([|] & Ha & Hnone).
  { left. rewrite Hgo, (bind_ok _ _ _ _ _ _ _ Ha). by eexists. }
  right. destruct (rename_session_ready fs from to m) as (fs' & H1 & H2 & H3); try done; [by exists b| |by exists m, fs'; split; [exists b|]].
  intros a. apply (Hnone eq_refl). destruct a; simpl; set_solver.
Qed.

Lemma remove_session_good fs n :
  exists fs', Store.remove_session n fs [] = Done (Ok tt) fs' [] /\ fs' !! rename_journal_path = fs !! rename_journal_path
    /\ forall k, fs' !! session_path k = if decide (k = n) then None else fs !! session_path k.
Proof.
  eexists. split; [reflexivity|]. split.
  - by rewrite !lookup_delete_ne by done.
  - intros k. case_decide as Hk; [subst; by rewrite lookup_delete_eq|].
    rewrite lookup_delete_ne by (intros ?%session_path_inj; done). by rewrite !lookup_delete_ne by done.
Qed.

Lemma removed_stored fs fs' n k m :
  (forall k, fs' !! session_path k = if decide (k = n) then None else fs !! session_path k) ->
  stored fs' k m <-> k <> n /\ stored fs k m.
Proof. intros H. unfold stored. rewrite H. case_decide; [subst; split; [by intros (? & ? & _)|by intros [? _]]|tauto]. Qed.

Lemma append_event_good fs e :
  exists r fs', append_recovery_event e fs [] = Done r fs' [] /\ same_sessions fs fs'.
Proof.
  unfold append_recovery_event, load_events, mbind, read. cbn [next hd tl].
  assert (Hw : forall es, same_sessions fs (<[recovery_events_path := events_text es]> fs)).
  { intros es. split; [by rewrite lookup_insert_ne|]. intros n. by rewrite lookup_insert_ne. }
  destruct (fs !! recovery_events_path) as [b|]; [destruct (read_events b) as [es|]|].
  - eexists _, _. split; [reflexivity|apply Hw].
  - by eexists _, _.
  - eexists _, _. split; [reflexivity|apply Hw].
Qed.

(** ** The invariant *)

Definition slot_of w (h : nat) : option Z := ch_slot <$> w_children w !! h.

Record inv w : Prop := mk_inv {
  iv_faults : w_faults w = [];
  iv_journal : w_fs w !! rename_journal_path = None;
  iv_deferred : mg_deferred (w_manager w) = ∅;
  iv_named : named (w_fs w);
  iv_distinct : distinct (w_fs w);
  iv_owned : forall n h, mg_sessions (w_manager w) !! n = Some h ->
             exists m, stored (w_fs w) n m /\ slot_of w h = Some (sm_slot m);
}.

(** A control group killed is that of one of the sessions acted on. *)
Definition spares (acted : list string) w : Prop :=
  forall s n h, E_kill_group s ∈ w_effects w -> mg_sessions (w_manager w) !! n = Some h -> slot_of w h = Some s -> n ∈ acted.

(** Only the operating system was busy. *)
Record os_step (K : Z -> Prop) w w' : Prop := mk_os_step {
  os_fs : w_fs w' = w_fs w;
  os_faults : w_faults w' = w_faults w;
  os_manager : w_manager w' = w_manager w;
  os_slots : forall h s, slot_of w h = Some s -> slot_of w' h = Some s;
  os_kills : forall s, E_kill_group s ∈ w_effects w' -> E_kill_group s ∈ w_effects w \/ K s;
}.

Lemma os_refl (K : Z -> Prop) w : os_step K w w.
Proof. constructor; auto. Qed.

Lemma os_trans (K : Z -> Prop) w w' w'' : os_step K w w' -> os_step K w' w'' -> os_step K w w''.
Proof.
  intros [A1 A2 A3 A4 A5] [B1 B2 B3 B4 B5]. constructor; [congruence..| |]; [auto|].
  intros s [H|H]%B5; [by apply A5|by right].
Qed.

Lemma os_weaken (K K' : Z -> Prop) w w' : os_step K w w' -> (forall s, K s -> K' s) -> os_step K' w w'.
Proof. intros [A1 A2 A3 A4 A5] H. constructor; auto. intros s [?|?]%A5; auto. Qed.

Lemma inv_os (K : Z -> Prop) w w' : inv w -> os_step K w w' -> inv w'.
Proof.
  intros [H1 H2 H3 H4 H5 H6] [A1 A2 A3 A4 A5]. constructor; rewrite ?A1, ?A2, ?A3; auto.
  intros n h Hn. destruct (H6 n h Hn) as (m & Hm & Hs). eauto.
Qed.

Lemma stored_name fs n m : named fs -> stored fs n m -> sm_name m = n /\ plain n.
Proof. intros Hn (b & Hb & Hm). destruct (Hn n b Hb) as (Hp & m' & Hm' & <-). split; [congruence|done]. Qed.

(** Registered under a slot, a session is the one whose record has it. *)
Lemma owner w n h n' m s :
  inv w -> mg_sessions (w_manager w) !! n = Some h -> slot_of w h = Some s -> stored (w_fs w) n' m -> sm_slot m = s -> n = n'.
Proof.
  intros Hi Hn Hs Hm <-. destruct (iv_owned w Hi n h Hn) as (m' & Hm' & Hs').
  destruct (iv_distinct w Hi) as [_ Hd]. apply (Hd n n' m' m); [done..|]. congruence.
Qed.

Lemma spares_os (acted : list string) (K : Z -> Prop) w w' :
  inv w -> spares acted w -> os_step K w w' ->
  (forall s, K s -> (exists n m, n ∈ acted /\ stored (w_fs w) n m /\ sm_slot m = s) \/ (forall n m, stored (w_fs w) n m -> sm_slot m <> s)) ->
  spares acted w'.
Proof.
  intros Hi Hsp Hos HK s n h Hk Hn Hs. pose proof (inv_os _ _ _ Hi Hos) as Hi'. destruct Hos as [A1 A2 A3 A4 A5].
  rewrite A3 in Hn. destruct (iv_owned w Hi n h Hn) as (m & Hm & Hs'). pose proof (A4 h _ Hs') as Hs''.
  assert (Heq : sm_slot m = s) by congruence.
  destruct (A5 s Hk) as [H|H].
  - apply (Hsp s n h); [done..|]. congruence.
  - destruct (HK s H) as [(n' & m' & Hin & Hm' & He)|Hno]; [|by destruct (Hno n m)].
    by rewrite (owner w n h n' m' s Hi Hn ltac:(congruence) Hm' He).
Qed.

Lemma spares_nil (acted : list string) w : w_effects w = [] -> spares acted w.
Proof. intros H s n h Hk. rewrite H in Hk. by apply not_elem_of_nil in Hk. Qed.

(** ** Steps of the monad *)

Lemma wp_seq {A B : Type} (m : MM A) (k : A -> MM B) w R Q D :
  wp m w R D -> (forall a w', R (Ok a) w' -> wp (k a) w' Q D) -> (forall e w', R (Err e) w' -> Q (Err e) w') ->
  wp (mthen m k) w Q D.
Proof. intros Hm Hk He. apply wp_then. eapply wp_mono; [exact Hm| |done]. intros [a|e] w' H; auto. Qed.

Lemma wp_attempt {A B : Type} (m : MM A) (k : result A string -> MM B) w R Q D :
  wp m w R D -> (forall r w', R r w' -> wp (k r) w' Q D) -> wp (mthen (mtry m) k) w Q D.
Proof. intros Hm Hk. apply wp_then, wp_try. eapply wp_mono; [exact Hm| |done]. auto. Qed.

Lemma wp_require (K : Z -> Prop) (e : string) w : wp (require e) w (fun _ => os_step K w) (fun _ => False).
Proof. unfold require, wp, mthen, ask, mret, mfail. destruct (hd true (w_answers w)); constructor; auto. Qed.

Lemma kill_group_step (K : Z -> Prop) (s : Z) w :
  K s -> wp (kill_group s) w (fun r => os_step K w) (fun _ => False).
Proof.
  intros HK. unfold kill_group, wp, mthen, ask, emit. constructor; auto. cbn [w_effects]. intros s'.
  rewrite elem_of_app, list_elem_of_singleton. intros [H|[= ->]]; auto.
Qed.

Lemma update_child_step (K : Z -> Prop) h f w :
  (forall c, ch_slot (f c) = ch_slot c) -> os_step K w (mk_world (w_fs w) (w_faults w) (w_answers w) (w_manager w) (alter f h (w_children w)) (w_effects w)).
Proof.
  intros Hf. constructor; auto. intros k s. unfold slot_of. cbn [w_children].
  destruct (decide (h = k)) as [->|Hne]; [rewrite list_lookup_alter_eq|by rewrite list_lookup_alter_ne].
  destruct (w_children w !! k); [|done]. simpl. by rewrite Hf.
Qed.

Lemma wp_after {A : Type} (K : Z -> Prop) (m : MM A) w w1 D :
  os_step K w w1 -> wp m w1 (fun _ => os_step K w1) D -> wp m w1 (fun _ => os_step K w) D.
Proof. intros H Hm. eapply wp_mono; [exact Hm| |done]. intros r w2 H2. exact (os_trans _ _ _ _ H H2). Qed.

Lemma wp_stop (K : Z -> Prop) slot s w :
  K slot -> wp (stop_session_locked hs slot s) w (fun _ => os_step K w) (fun _ => False).
Proof.
  intros HK. unfold stop_session_locked.
  apply (wp_seq _ _ _ (fun _ => os_step K w)); [by apply kill_group_step| |auto]. intros empty w1 H1.
  apply (wp_seq _ _ _ (fun _ => os_step K w)).
  { destruct s as [h|]; [|exact H1]. apply wp_then. cbn beta. unfold child. cbn [wp].
    apply (wp_seq _ _ _ (fun _ => os_step K w)).
    - destruct (match w_children w1 !! h with Some c => ch_alive c | None => false end); [|exact H1].
      apply (wp_after K _ _ _ _ H1), wp_require.
    - intros _ w2 H2. apply (wp_seq _ _ _ (fun _ => os_step K w)); [|intros _ w3 H3|auto].
      + apply (wp_after K _ _ _ _ H2), wp_require.
      + unfold update_child, wp. eapply os_trans; [exact H3|]. by apply update_child_step.
    - auto. }
  2:{ auto. }
  intros _ w2 H2. apply (wp_seq _ _ _ (fun _ => os_step K w)).
  { destruct empty; [exact H2|]. by apply (wp_after K _ _ _ _ H2), kill_group_step. }
  2:{ auto. }
  intros b w3 H3. destruct (hs_cgroups hs && negb b); [exact H3|].
  apply (wp_after K _ _ _ _ H3), wp_require.
Qed.

Lemma wp_spawn (K : Z -> Prop) kind name cwd slot susp w :
  wp (spawn hs kind name cwd slot susp) w
    (fun r w' => os_step K w w' /\ match r with Ok h => slot_of w' h = Some slot | Err _ => True end) (fun _ => False).
Proof.
  unfold spawn. apply (wp_seq _ _ _ (fun _ => os_step K w)); [apply wp_require| |auto]. intros _ w1 H1. unfold wp, mthen, emit.
  cbn [w_children w_fs w_faults w_answers w_manager w_effects]. split.
  - eapply os_trans; [exact H1|]. constructor; auto; cbn [w_children w_effects].
    + intros h s. unfold slot_of. cbn [w_children]. destruct (w_children w1 !! h) eqn:E; [|done].
      by rewrite (lookup_app_l_Some _ _ _ _ E).
    + intros s. rewrite elem_of_app, list_elem_of_singleton. intros [H|[=]]. by left.
  - unfold slot_of. cbn [w_children]. by rewrite lookup_app_r, Nat.sub_diag by lia.
Qed.

Lemma preload_slot bytes c : ch_slot (preload bytes c) = ch_slot c.
Proof. unfold preload. by destruct (RingBuf.push _ _). Qed.

Lemma wp_restore_one (K : Z -> Prop) m susp w :
  w_faults w = [] ->
  wp (restore_one hs m susp) w
    (fun r w' => os_step K w w' /\ match r with Ok h => slot_of w' h = Some (sm_slot m) | Err _ => True end) (fun _ => False).
Proof.
  intros Hf. unfold restore_one. apply wp_then, wp_store. rewrite Hf. cbn [read_scrollback read next hd tl].
  set (w0 := mk_world _ _ _ _ _ _). assert (H0 : os_step K w w0) by (constructor; auto).
  eapply wp_seq; [apply (wp_spawn K)| |].
  2:{ intros e w' [H _]. split; [exact (os_trans _ _ _ _ H0 H)|done]. }
  intros h w1 [H1 Hs]. pose proof (os_trans _ _ _ _ H0 H1) as H01.
  apply (wp_seq _ _ _ (fun _ w' => os_step K w w' /\ slot_of w' h = Some (sm_slot m))).
  { destruct (w_fs w !! scrollback_path (sm_name m)) as [bytes|]; [|done]. unfold update_child, wp.
    pose proof (update_child_step K h (preload bytes) w1 (preload_slot bytes)) as H2.
    split; [exact (os_trans _ _ _ _ H01 H2)|]. by apply (os_slots _ _ _ H2). }
  2:{ intros e w' [? _]. done. }
  intros _ w2 [H2 Hs2]. apply (wp_seq _ _ _ (fun _ w' => os_step K w w' /\ slot_of w' h = Some (sm_slot m))).
  { destruct susp as [[o st]|]; [|done]. unfold update_child, wp.
    pose proof (update_child_step K h (suspended_as o st) w2 ltac:(done)) as H3.
    split; [exact (os_trans _ _ _ _ H2 H3)|]. by apply (os_slots _ _ _ H3). }
  2:{ intros e w' [? _]. done. }
  intros _ w3 H3. exact H3.
Qed.

(** ** Changes of the invariant's parts *)

Definition at_fs (fs : FS) w : World :=
  mk_world fs (w_faults w) (w_answers w) (w_manager w) (w_children w) (w_effects w).
Definition at_manager (g : Manager) w : World :=
  mk_world (w_fs w) (w_faults w) (w_answers w) g (w_children w) (w_effects w).

Lemma at_fs_id w : at_fs (w_fs w) w = w.
Proof. by destruct w. Qed.

Lemma os_at_fs (K : Z -> Prop) fs w w' : os_step K w w' -> os_step K (at_fs fs w) (at_fs fs w').
Proof. intros [A1 A2 A3 A4 A5]. by constructor. Qed.

Lemma inv_at_fs fs w :
  inv w -> fs !! rename_journal_path = None -> named fs -> distinct fs ->
  (forall n h m, mg_sessions (w_manager w) !! n = Some h -> stored (w_fs w) n m ->
     exists m', stored fs n m' /\ sm_slot m' = sm_slot m) ->
  inv (at_fs fs w).
Proof.
  intros [H1 H2 H3 H4 H5 H6] Hj Hn Hd Hs. constructor; try done. intros n h Hh.
  destruct (H6 n h Hh) as (m & Hm & Hsl). destruct (Hs n h m Hh Hm) as (m' & Hm' & He). exists m'. split; [done|].
  rewrite He. exact Hsl.
Qed.

Lemma inv_same fs w : inv w -> same_sessions (w_fs w) fs -> inv (at_fs fs w).
Proof.
  intros Hi Hs. apply inv_at_fs; [done| | | |].
  - destruct Hs as [-> _]. apply (iv_journal _ Hi).
  - eapply same_named; [exact Hs|apply (iv_named _ Hi)].
  - eapply same_distinct; [exact Hs|apply (iv_distinct _ Hi)].
  - intros n h m _ Hm. exists m. split; [by apply (same_stored (w_fs w))|done].
Qed.

(** A record rewritten with its name and slot. *)
Lemma inv_rewrite n m m' w :
  inv w -> stored (w_fs w) n m -> sm_name m' = n -> sm_slot m' = sm_slot m ->
  inv (at_fs (<[session_path (sm_name m') := meta_text m']> (w_fs w)) w).
Proof.
  intros Hi Hm Hn Hs. destruct (stored_name _ _ _ (iv_named _ Hi) Hm) as [Hnm Hp]. apply inv_at_fs; [done| | | |].
  - rewrite lookup_insert_ne by done. apply (iv_journal _ Hi).
  - apply named_write; [apply (iv_named _ Hi)|by rewrite Hn].
  - destruct (iv_distinct _ Hi) as [D1 D2]. apply distinct_write; [by split|rewrite Hs; by eapply D1|].
    intros k mk Hk He. rewrite Hn. apply (D2 k n mk m); [done..|congruence].
  - intros k h mk _ Hk. destruct (decide (k = sm_name m')) as [->|Hne].
    + exists m'. split; [apply stored_write; by left|]. rewrite Hn in Hk. rewrite (stored_fun _ _ _ _ Hk Hm). done.
    + exists mk. split; [apply stored_write; by right|done].
Qed.

Lemma inv_manager (g : Manager) w :
  inv w -> mg_sessions g = mg_sessions (w_manager w) -> mg_deferred g = ∅ -> inv (at_manager g w).
Proof. intros [H1 H2 H3 H4 H5 H6] Hs Hd. constructor; try done. intros n h. cbn. rewrite Hs. apply H6. Qed.

Lemma spares_same (acted : list string) w w' :
  spares acted w -> w_effects w' = w_effects w -> w_children w' = w_children w ->
  (forall n h, mg_sessions (w_manager w') !! n = Some h -> mg_sessions (w_manager w) !! n = Some h) -> spares acted w'.
Proof.
  intros H He Hc Hs s n h. rewrite He. intros Hk Hn Hsl. apply (H s n h); [done|by apply Hs|].
  unfold slot_of in *. by rewrite <- Hc.
Qed.

(** What every operation leaves. *)
Definition fine (acted : list string) w : Prop := inv w /\ spares acted w.

Lemma finish_quiet w :
  w_faults w = [] -> w_fs w !! rename_journal_path = None -> mg_deferred (w_manager w) = ∅ ->
  finish_pending_rename w = Returned (Ok tt) w.
Proof.
  destruct w as [fs o ans g ch ef]. cbn [w_faults w_fs w_manager]. intros -> Hj Hd.
  unfold finish_pending_rename, mthen, store. cbn [w_faults w_fs w_manager w_answers w_children w_effects].
  unfold recover_pending_rename. rewrite (bind_ok _ _ _ _ None fs []); [|unfold read; cbn [next hd tl]; by rewrite Hj].
  cbn [ret negb manager update w_faults w_fs w_manager w_answers w_children w_effects].
  assert (Hc : current_deferred g = ∅).
  { unfold current_deferred. rewrite Hd. apply map_filter_empty. }
  rewrite Hc, map_to_list_empty. cbn. destruct g. cbn in *. by subst.
Qed.

Lemma store_at {A : Type} (m : M A) r w :
  w_faults w = [] -> m (w_fs w) [] = Done r (w_fs w) [] -> store m w = Returned r w.
Proof. destruct w. cbn. intros -> H. unfold store. cbn. by rewrite H. Qed.

Lemma store_to {A : Type} (m : M A) r fs w :
  w_faults w = [] -> m (w_fs w) [] = Done r fs [] -> store m w = Returned r (at_fs fs w).
Proof. destruct w. cbn. intros -> H. unfold store. cbn. by rewrite H. Qed.

Lemma read_session_inv n w :
  inv w -> store (read_session n) w = Returned (Ok None) w /\ w_fs w !! session_path n = None
           \/ exists m, store (read_session n) w = Returned (Ok (Some m)) w /\ stored (w_fs w) n m.
Proof.
  intros Hi. destruct (w_fs w !! session_path n) as [b|] eqn:Hb.
  - right. destruct (iv_named _ Hi n b Hb) as (_ & m & Hm & _). exists m. split; [|by exists b].
    apply store_at; [apply (iv_faults _ Hi)|]. by apply (read_session_at _ _ b).
  - left. split; [|done]. apply store_at; [apply (iv_faults _ Hi)|]. by apply read_session_none_at.
Qed.

Lemma effective_inv n h w : inv w -> effective_meta_for n h w = store (read_session n) w.
Proof.
  intros Hi. unfold effective_meta_for, deferred_meta_for, mthen, manager. rewrite (iv_deferred _ Hi), lookup_empty. done.
Qed.

(** A registered session's record. *)
Lemma effective_live n h w :
  inv w -> mg_sessions (w_manager w) !! n = Some h ->
  exists m, effective_meta_for n h w = Returned (Ok (Some m)) w /\ stored (w_fs w) n m /\ slot_of w h = Some (sm_slot m).
Proof.
  intros Hi Hn. rewrite effective_inv by done. destruct (iv_owned _ Hi n h Hn) as (m & Hm & Hs).
  destruct (read_session_inv n w Hi) as [[_ Hno]|(m' & Hr & Hm')].
  - destruct Hm as (b & Hb & _). congruence.
  - exists m'. rewrite (stored_fun _ _ _ _ Hm' Hm) in *. done.
Qed.

Lemma wp_eq {A : Type} (m : MM A) w r w' Q D : m w = Returned r w' -> Q r w' -> wp m w Q D.
Proof. unfold wp. by intros ->. Qed.

Lemma wp_then_eq {A B : Type} (m : MM A) (k : A -> MM B) w a w' Q D :
  m w = Returned (Ok a) w' -> wp (k a) w' Q D -> wp (mthen m k) w Q D.
Proof. unfold wp, mthen. by intros ->. Qed.

Lemma mtry_eq {A : Type} (m : MM A) r w w' : m w = Returned r w' -> mtry m w = Returned (Ok r) w'.
Proof. unfold mtry. by intros ->. Qed.

(** ** The operations *)

(** A slot that may be killed: that of a session acted on, or nobody's. *)
Definition may_kill (acted : list string) (fs : FS) (s : Z) : Prop :=
  (exists n m, n ∈ acted /\ stored fs n m /\ sm_slot m = s) \/ (forall n m, stored fs n m -> sm_slot m <> s).

Lemma fine_os (acted : list string) (K : Z -> Prop) w w' :
  fine acted w -> os_step K w w' -> (forall s, K s -> may_kill acted (w_fs w) s) -> fine acted w'.
Proof. intros [Hi Hs] Ho HK. split; [by eapply inv_os|by eapply spares_os]. Qed.

Lemma fine_busy (acted : list string) w w' : fine acted w -> os_step (fun _ => False) w w' -> fine acted w'.
Proof. intros H Ho. by apply (fine_os acted _ w w' H Ho). Qed.

Lemma inv_start (acted : list string) w : inv w -> w_effects w = [] -> fine acted w.
Proof. intros Hi He. split; [done|by apply spares_nil]. Qed.

(** A new session registered with its record. *)
Lemma inv_register m h w :
  inv w -> plain (sm_name m) -> (1 <= sm_slot m)%Z -> (forall n m', stored (w_fs w) n m' -> sm_slot m' <> sm_slot m) ->
  slot_of w h = Some (sm_slot m) ->
  inv (at_manager (set_sessions (insert (sm_name m) h) (w_manager w))
        (at_fs (<[session_path (sm_name m) := meta_text m]> (w_fs w)) w)).
Proof.
  intros [H1 H2 H3 H4 H5 H6] Hp Hpos Hfree Hs. constructor; cbn [at_manager at_fs w_faults w_fs w_manager].
  - done.
  - by rewrite lookup_insert_ne.
  - done.
  - by apply named_write.
  - apply distinct_write; [done..|]. intros n m' Hm' He. by destruct (Hfree n m').
  - intros n k. cbn [set_sessions mg_sessions]. destruct (decide (n = sm_name m)) as [->|Hne].
    + rewrite lookup_insert_eq. intros [= <-]. exists m. split; [|done]. apply stored_write. by left.
    + rewrite lookup_insert_ne by done. intros Hk. destruct (H6 n k Hk) as (m' & Hm' & Hs').
      exists m'. split; [|done]. apply stored_write. by right.
Qed.

Lemma spares_quiet (acted : list string) w : (forall s, E_kill_group s ∉ w_effects w) -> spares acted w.
Proof. intros H s n h Hk. by destruct (H s). Qed.

Lemma used_slots_spec metas s : s ∈ used_slots metas <-> (1 <= s)%Z /\ exists m, m ∈ metas /\ sm_slot m = s.
Proof.
  unfold used_slots. rewrite list_elem_of_In, filter_In, Z.leb_le, <- list_elem_of_In, list_elem_of_fmap. naive_solver.
Qed.

Lemma create_fine name cwd kind title now w :
  inv w -> w_effects w = [] -> (forall x, name <> x +:+ ".settings") ->
  wp (create_with_title hs name cwd kind title now) w (fun _ => fine []) (fun _ => False).
Proof.
  intros Hi He Hplain. pose proof (inv_start [] w Hi He) as Hf. unfold create_with_title.
  destruct (validate_session_name name) as [[]|e] eqn:Hv; [|exact Hf]. destruct (validate_title title) as [t|e]; [|exact Hf].
  apply (wp_then_eq _ _ _ tt w); [by apply finish_quiet; destruct Hi|].
  apply (wp_then_eq _ _ _ (mg_sessions (w_manager w) !! name) w); [done|].
  case_bool_decide as Hlive; [exact Hf|].
  destruct (list_sessions_good (w_fs w) (iv_named _ Hi)) as (metas & Hl & Hin & _).
  apply (wp_then_eq _ _ _ metas w); [apply store_at; [apply (iv_faults _ Hi)|done]|].
  destruct (existsb _ metas) eqn:Hex; [exact Hf|]. set (slot := alloc_slot (used_slots metas)).
  destruct (alloc_slot_spec (used_slots metas)) as (Hpos & Hfree & _). fold slot in Hpos, Hfree.
  assert (Hno : forall n m, stored (w_fs w) n m -> sm_slot m <> slot).
  { intros n m Hm E. apply Hfree, used_slots_spec. rewrite <- E. destruct (iv_distinct _ Hi) as [D _].
    split; [by eapply D|]. exists m. split; [|done]. apply Hin.
    by destruct (stored_name _ _ _ (iv_named _ Hi) Hm) as [-> _]. }
  apply (wp_seq _ _ _ (fun _ => os_step (fun _ => False) w)); [apply wp_require| |intros e w' H; by eapply fine_busy].
  intros _ w1 H1. apply wp_then, wp_try. eapply wp_mono; [apply (wp_spawn (fun _ => False))| |done].
  intros [h|e] w2 [H2 Hs]; cbn beta iota; pose proof (os_trans _ _ _ _ H1 H2) as H12; pose proof (fine_busy _ _ _ Hf H12) as Hf2.
  - set (meta := mk_meta _ _ _ _ _ _ _ _ _). pose proof Hf2 as [Hi2 _].
    eapply wp_then_eq; [apply mtry_eq, (store_to _ (Ok tt) (<[session_path name := meta_text meta]> (w_fs w2))); [apply (iv_faults _ Hi2)|done]|].
    eapply wp_then_eq; [reflexivity|]. split.
    + apply (inv_register meta h w2); [done|done|done| |done]. intros n m. rewrite (os_fs _ _ _ H12). apply Hno.
    + apply spares_quiet. intros s [Hk|[]]%(os_kills _ _ _ H12). rewrite He in Hk. by apply not_elem_of_nil in Hk.
  - apply wp_then, wp_try. eapply wp_mono; [apply (wp_stop (eq slot)); done| |done]. intros r w3 H3. cbn beta iota.
    eapply fine_os; [exact Hf2|exact H3|]. intros s <-. right. intros n m. rewrite (os_fs _ _ _ H12). apply Hno.
Qed.

(** A record known by its reading. *)
Lemma stop_fine (acted : list string) n m s w :
  fine acted w -> n ∈ acted -> stored (w_fs w) n m ->
  wp (stop_session_locked hs (sm_slot m) s) w (fun _ w' => os_step (eq (sm_slot m)) w w' /\ fine acted w') (fun _ => False).
Proof.
  intros Hf Hn Hm. eapply wp_mono; [apply (wp_stop (eq (sm_slot m))); done| |done]. intros r w' Ho. split; [exact Ho|].
  eapply fine_os; [exact Hf|exact Ho|]. intros k <-. left. eauto.
Qed.

Lemma remove_files n w :
  inv w -> exists fs,
    store (remove_session n) w = Returned (Ok tt) (at_fs fs w)
    /\ inv (at_manager (set_sessions (delete n) (w_manager w)) (at_fs fs w)).
Proof.
  intros Hi. destruct (remove_session_good (w_fs w) n) as (fs & Hr & Hj & Hk). exists fs.
  split; [apply store_to; [apply (iv_faults _ Hi)|done]|]. destruct Hi as [H1 H2 H3 H4 H5 H6].
  pose proof (fun k m => removed_stored (w_fs w) fs n k m Hk) as Hst.
  constructor; cbn [at_manager at_fs w_faults w_fs w_manager]; try done.
  - by rewrite Hj.
  - intros k b. rewrite Hk. case_decide; [done|]. apply H4.
  - destruct H5 as [D1 D2]. split.
    + intros k m [_ Hm]%Hst. by eapply D1.
    + intros k k' m m' [_ Hm]%Hst [_ Hm']%Hst. by apply D2.
  - intros k h. cbn [set_sessions mg_sessions]. intros [Hne Hh]%lookup_delete_Some.
    destruct (H6 k h Hh) as (m & Hm & Hs). exists m. split; [apply Hst; by split|done].
Qed.

Lemma delete_subset (n k : string) (h : nat) (ss : gmap string nat) : delete n ss !! k = Some h -> ss !! k = Some h.
Proof. by intros [_ ?]%lookup_delete_Some. Qed.

(** Removal of a stopped session. *)
Lemma forget_fine (acted : list string) n (f : Manager -> Manager) w :
  fine acted w -> (forall g, mg_sessions (f g) = mg_sessions g /\ mg_deferred (f g) = mg_deferred g) ->
  wp (store (remove_session n) ;;m update (set_sessions (delete n)) ;;m update f) w (fun _ => fine acted) (fun _ => False).
Proof.
  intros [Hi Hs] Hf. destruct (remove_files n w Hi) as (fs & Hr & Hi').
  eapply wp_then_eq; [exact Hr|]. eapply wp_then_eq; [reflexivity|]. unfold wp, update.
  destruct (Hf (set_sessions (delete n) (w_manager w))) as [F1 F2].
  split.
  - apply (inv_manager _ _ Hi'); [exact F1|]. cbn [w_manager at_fs] in *. rewrite F2. apply (iv_deferred _ Hi').
  - eapply spares_same; [exact Hs|done|done|]. intros k h. cbn [w_manager at_fs]. rewrite F1. apply delete_subset.
Qed.

Lemma keeps_clear slot g :
  mg_sessions (clear_foreground_slot slot g) = mg_sessions g /\ mg_deferred (clear_foreground_slot slot g) = mg_deferred g.
Proof. done. Qed.

Lemma finish_inv w : inv w -> finish_pending_rename w = Returned (Ok tt) w.
Proof. intros []. by apply finish_quiet. Qed.

Lemma remove_fine name w :
  inv w -> w_effects w = [] -> wp (remove hs name) w (fun _ => fine [name]) (fun _ => False).
Proof.
  intros Hi He. pose proof (inv_start [name] w Hi He) as Hf. unfold remove.
  eapply wp_then_eq; [by apply finish_inv|].
  apply (wp_then_eq _ _ _ (mg_sessions (w_manager w) !! name) w); [done|].
  assert (Hstop : forall m s, stored (w_fs w) name m ->
    wp (stop_session_locked hs (sm_slot m) s ;;m store (remove_session name) ;;m update (set_sessions (delete name)) ;;m
        update (clear_foreground_slot (sm_slot m))) w (fun _ => fine [name]) (fun _ => False)).
  { intros m s Hm. eapply wp_seq; [apply (stop_fine [name] name); [done|by left|done]| |].
    - intros a w1 [_ H1]. apply forget_fine; [done|]. apply keeps_clear.
    - by intros e w1 [_ H1]. }
  destruct (mg_sessions (w_manager w) !! name) as [h|] eqn:Hn.
  - destruct (effective_live name h w Hi Hn) as (m & Hr & Hm & _).
    eapply wp_then_eq; [exact Hr|]. by apply Hstop.
  - destruct (read_session_inv name w Hi) as [[Hr _]|(m & Hr & Hm)]; (eapply wp_then_eq; [exact Hr|]); [|by apply Hstop].
    eapply wp_then_eq; [reflexivity|]. by apply (forget_fine [name] name (fun g => g)).
Qed.

Lemma record_event_eq now level event sess detail code w :
  w_faults w = [] -> exists fs, same_sessions (w_fs w) fs
    /\ record_recovery_event now level event sess detail code w = Returned (Ok tt) (at_fs fs w).
Proof.
  intros Hf. destruct (append_event_good (w_fs w) (mk_recovery_event now 0 level event sess detail code)) as (r & fs & Hr & Hs).
  exists fs. split; [done|]. unfold record_recovery_event, mthen.
  rewrite (store_to _ (Ok r) fs w Hf); [done|]. unfold try. by rewrite Hr.
Qed.

Lemma fine_same (acted : list string) fs w : fine acted w -> same_sessions (w_fs w) fs -> fine acted (at_fs fs w).
Proof. intros [Hi Hs] H. split; [by apply inv_same|]. by eapply spares_same. Qed.

Lemma record_event_fine (acted : list string) now level event sess detail code w :
  fine acted w -> wp (record_recovery_event now level event sess detail code) w (fun _ => fine acted) (fun _ => False).
Proof.
  intros Hf. destruct (record_event_eq now level event sess detail code w) as (fs & Hs & Hr); [apply Hf|].
  eapply wp_eq; [exact Hr|]. by apply fine_same.
Qed.

Lemma wp_rw {A : Type} (m m' : MM A) w Q D : m w = m' w -> wp m' w Q D -> wp m w Q D.
Proof. unfold wp. by intros ->. Qed.

Lemma reap_one_fine (acted : list string) name h w :
  fine acted w -> name ∈ acted -> wp (reap_one hs name h) w (fun _ => fine acted) (fun _ => False).
Proof.
  intros Hf Hin. unfold reap_one. apply wp_then. eapply wp_rw; [apply effective_inv, Hf|].
  destruct (read_session_inv name w (proj1 Hf)) as [[Hr _]|(m & Hr & Hm)]; (eapply wp_eq; [exact Hr|]); [exact Hf|].
  eapply wp_seq; [by apply (stop_fine acted name)| |].
  - intros a w1 [_ H1]. apply forget_fine; [done|]. apply keeps_clear.
  - by intros e w1 [_ H1].
Qed.

Lemma reap_all_fine (acted : list string) now exit_code found w :
  fine acted w -> (forall n, n ∈ map fst found -> n ∈ acted) ->
  wp (reap_all hs now exit_code found) w (fun _ => fine acted) (fun _ => False).
Proof.
  revert w. induction found as [|[n h] found IH]; intros w Hf Hin; [exact Hf|]. cbn [reap_all].
  apply (wp_seq _ _ _ (fun _ => fine acted)); [|intros r w1 H1|auto].
  { apply wp_try. apply reap_one_fine; [done|]. apply Hin. by left. }
  apply (wp_seq _ _ _ (fun _ => fine acted)); [|intros [] w2 H2|auto].
  { destruct r; [by apply record_event_fine|exact H1]. }
  apply (wp_seq _ _ _ (fun _ => fine acted)); [|intros ns w3 H3|auto].
  { apply IH; [done|]. intros k Hk. apply Hin. by right. }
  destruct r; exact H3.
Qed.

(** The sessions found dead. *)
Definition found_dead w : list string :=
  map fst (List.filter (fun p => is_dead (w_children w) (snd p)) (map_to_list (mg_sessions (w_manager w)))).

Lemma reap_fine now exit_code w :
  inv w -> w_effects w = [] -> wp (reap hs now exit_code) w (fun _ => fine (found_dead w)) (fun _ => False).
Proof.
  intros Hi He. unfold reap. eapply wp_then_eq; [by apply finish_inv|]. eapply wp_then_eq; [reflexivity|].
  eapply wp_then_eq; [reflexivity|]. apply reap_all_fine; [by apply inv_start|]. done.
Qed.

(** A registered session's record rewritten, its slot kept. *)
Lemma rewrite_fine (acted : list string) n m m' w :
  fine acted w -> stored (w_fs w) n m -> sm_name m' = sm_name m -> sm_slot m' = sm_slot m ->
  exists fs, store (write_session m') w = Returned (Ok tt) (at_fs fs w)
    /\ store (try (write_session m')) w = Returned (Ok (Ok tt)) (at_fs fs w) /\ fine acted (at_fs fs w).
Proof.
  intros [Hi Hs] Hm Hn Hsl. destruct (stored_name _ _ _ (iv_named _ Hi) Hm) as [Hnm _].
  exists (<[session_path (sm_name m') := meta_text m']> (w_fs w)). split; [apply store_to; [apply (iv_faults _ Hi)|done]|].
  split; [apply store_to; [apply (iv_faults _ Hi)|done]|]. split; [by apply (inv_rewrite n m); [..|congruence|]|]. by eapply spares_same.
Qed.

Lemma set_title_fine name title w :
  inv w -> w_effects w = [] -> wp (set_title name title) w (fun _ => fine []) (fun _ => False).
Proof.
  intros Hi He. pose proof (inv_start [] w Hi He) as Hf. unfold set_title. destruct (validate_title title) as [t|e]; [|exact Hf].
  eapply wp_then_eq; [by apply finish_inv|]. eapply wp_then_eq; [reflexivity|].
  destruct (mg_sessions (w_manager w) !! name) as [h|] eqn:Hn; [|exact Hf].
  destruct (effective_live name h w Hi Hn) as (m & Hr & Hm & _). eapply wp_then_eq; [exact Hr|].
  destruct (rewrite_fine [] name m (with_title m t) w Hf Hm eq_refl eq_refl) as (fs & Hw & _ & Hf').
  eapply wp_then_eq; [exact Hw|].
  destruct (list_sessions_good fs (iv_named _ (proj1 Hf'))) as (metas & Hl & _ & _).
  eapply wp_then_eq; [apply store_at; [apply Hf'|exact Hl]|]. by destruct (existsb _ metas).
Qed.

Lemma fine_manager (acted : list string) (g : Manager) w :
  fine acted w -> mg_sessions g = mg_sessions (w_manager w) -> mg_deferred g = mg_deferred (w_manager w) -> fine acted (at_manager g w).
Proof.
  intros [Hi Hs] Hg Hd. split; [apply inv_manager; [done|done|by rewrite Hd; apply (iv_deferred _ Hi)]|].
  eapply spares_same; [exact Hs|done|done|]. intros n h. cbn [w_manager at_manager]. by rewrite Hg.
Qed.

Lemma persist_scrollback_fine (acted : list string) name h w :
  fine acted w -> wp (persist_scrollback_if_changed name h) w (fun _ => fine acted) (fun _ => False).
Proof.
  intros Hf. unfold persist_scrollback_if_changed. eapply wp_then_eq; [reflexivity|].
  destruct (w_children w !! h) as [c|]; [|exact Hf]. eapply wp_then_eq; [reflexivity|].
  case_bool_decide; [exact Hf|].
  eapply wp_then_eq; [apply (store_to _ (Ok tt) (<[scrollback_path name := RingBuf.snapshot (ch_ring c)]> (w_fs w))); [apply Hf|done]|].
  apply (fine_manager acted _ (at_fs _ w)); [|done|done]. apply fine_same; [done|].
  split; [by rewrite lookup_insert_ne|]. intros n. by rewrite lookup_insert_ne.
Qed.

Lemma persist_cwd_fine (acted : list string) name is_final seen now w :
  fine acted w -> wp (persist_live_cwd hs name is_final seen now) w (fun _ => fine acted) (fun _ => False).
Proof.
  intros Hf. unfold persist_live_cwd. apply wp_then.
  assert (Hread : store (try (read_session name)) w = mtry (store (read_session name)) w).
  { unfold store, try, mtry. by destruct (read_session name _ _). }
  eapply wp_rw; [exact Hread|].
  destruct (read_session_inv name w (proj1 Hf)) as [[Hr _]|(m & Hr & Hm)]; (eapply wp_eq; [by apply mtry_eq|]); [exact Hf|].
  split_if; [exact Hf|]. eapply wp_then_eq; [reflexivity|].
  do 2 lazymatch goal with |- context [decide_resume ?a ?b ?c ?d] => destruct (decide_resume a b c d) end.
  apply (wp_seq _ _ _ (fun _ w' => fine acted w' /\ stored (w_fs w') name m)); [|intros flags w1 [H1 Hm1]|by intros e w1 [H1 _]].
  { destruct is_final; [done|]. eapply wp_then_eq; [reflexivity|]. eapply wp_then_eq; [reflexivity|]. split; [|exact Hm].
    apply (fine_manager acted _ (at_manager _ w)); [|done|done]. by apply fine_manager. }
  split_if; [|exact H1].
  destruct (rewrite_fine acted name m (with_updated (with_resume (with_cwd m (live_cwd hs seen m)) (fst flags) (snd flags)) now)
              w1 H1 Hm1 eq_refl eq_refl) as (fs & _ & Hw & Hf').
  eapply wp_then_eq; [exact Hw|exact Hf'].
Qed.

Lemma snapshot_each_fine (acted : list string) is_final seen now handles w :
  fine acted w -> wp (snapshot_each hs is_final seen now handles) w (fun _ => fine acted) (fun _ => False).
Proof.
  revert w. induction handles as [|[n h] handles IH]; intros w Hf; [exact Hf|]. cbn [snapshot_each].
  apply (wp_seq _ _ _ (fun _ => fine acted)); [by apply persist_scrollback_fine|intros [] w1 H1|auto].
  apply (wp_seq _ _ _ (fun _ => fine acted)); [by apply persist_cwd_fine|intros [] w2 H2|auto]. by apply IH.
Qed.

Lemma snapshot_fine is_final seen now w :
  inv w -> w_effects w = [] -> wp (snapshot_inner hs is_final seen now) w (fun _ => fine []) (fun _ => False).
Proof.
  intros Hi He. pose proof (inv_start [] w Hi He) as Hf. unfold snapshot_inner. eapply wp_then_eq; [by apply finish_inv|].
  do 4 (eapply wp_then_eq; [reflexivity|]). apply snapshot_each_fine.
  set (live := mg_sessions (w_manager w)).
  by apply (fine_manager [] (set_persisted (retain_live live) (set_muse_absent (retain_live live)
    (set_claude_absent (retain_live live) (w_manager w)))) w).
Qed.

Lemma write_claude_fine (acted : list string) n c w :
  fine acted w -> exists fs, same_sessions (w_fs w) fs /\ store (write_claude n c) w = Returned (Ok tt) (at_fs fs w)
    /\ fine acted (at_fs fs w).
Proof.
  intros Hf. assert (Hs : same_sessions (w_fs w) (<[claude_path n := claude_text c]> (w_fs w))).
  { split; [by rewrite lookup_insert_ne|]. intros k. by rewrite lookup_insert_ne. }
  exists (<[claude_path n := claude_text c]> (w_fs w)). split; [exact Hs|].
  split; [apply store_to; [apply Hf|done]|by apply fine_same].
Qed.

Lemma read_claude_at n w : w_faults w = [] -> exists r, store (read_claude n) w = Returned r w /\ store (try (read_claude n)) w = Returned (Ok r) w.
Proof.
  intros Hf. assert (Hr : exists r, read_claude n (w_fs w) [] = Done r (w_fs w) []).
  { unfold read_claude, mbind, read. cbn [next hd tl]. destruct (w_fs w !! claude_path n) as [b|]; [|by eexists].
    destruct (read_claude_meta b); by eexists. }
  destruct Hr as [r Hr]. exists r. split; apply store_at; try done. unfold try. by rewrite Hr.
Qed.

Lemma hook_fine name event id file cwd primary now w :
  inv w -> w_effects w = [] ->
  wp (record_pi_hook name event id file cwd primary now) w (fun _ => fine []) (fun _ => False).
Proof.
  intros Hi He. pose proof (inv_start [] w Hi He) as Hf. unfold record_pi_hook. eapply wp_then_eq; [reflexivity|].
  destruct (mg_sessions (w_manager w) !! name) as [h|]; [|exact Hf]. destruct primary as [|]; [|exact Hf].
  destruct (read_session_inv name w Hi) as [[Hr _]|(m & Hr & Hm)]; (eapply wp_then_eq; [exact Hr|]); [exact Hf|].
  split_if; [exact Hf|]. destruct file as [path|]; [|exact Hf]. do 3 (split_if; [exact Hf|]).
  destruct event; [| |exact Hf].
  - destruct (write_claude_fine [] name (mk_claude id cwd now (Some path) (Some Pi)) w Hf) as (fs & Hs & Hw & Hf').
    eapply wp_then_eq; [exact Hw|]. split_if; [|exact Hf'].
    set (m' := with_updated _ now).
    assert (Hm' : stored (w_fs (at_fs fs w)) name m) by (by apply (same_stored (w_fs w))).
    destruct (rewrite_fine [] name m m' (at_fs fs w) Hf' Hm') as (fs' & Hw' & _ & Hf''); [unfold m'; by case_decide..|].
    eapply wp_eq; [exact Hw'|exact Hf''].
  - destruct (read_claude_at name w (iv_faults _ Hi)) as ([[c|]|e] & Hc & _);
      [eapply wp_then_eq; [exact Hc|]|eapply wp_then_eq; [exact Hc|exact Hf]|apply wp_then; eapply wp_eq; [exact Hc|exact Hf]].
    split_if; [exact Hf|].
    destruct (write_claude_fine [] name (mk_claude (cm_session_id c) (cm_cwd c) now None None) w Hf) as (fs & Hs & Hw & Hf').
    eapply wp_then_eq; [exact Hw|]. split_if; [|exact Hf'].
    set (m' := with_updated _ now).
    assert (Hm' : stored (w_fs (at_fs fs w)) name m) by (by apply (same_stored (w_fs w))).
    destruct (rewrite_fine [] name m m' (at_fs fs w) Hf' Hm') as (fs' & Hw' & _ & Hf''); [done..|].
    eapply wp_eq; [exact Hw'|exact Hf''].
Qed.

(** ** Renaming

    Between the rename of the files and its registration the table is right for the
    files as they were; [fs0]. *)
Lemma with_name_twice m to : with_name (with_name m to) (sm_name m) = m.
Proof. by destruct m. Qed.

(** Registered under the new name, or respawned under the old one. *)
Lemma inv_moved fs0 from to m h w :
  inv (at_fs fs0 w) -> renamed fs0 (w_fs w) from to m -> stored fs0 from m -> plain to -> from <> to ->
  slot_of w h = Some (sm_slot m) ->
  inv (at_manager (set_sessions (fun ss => <[to := h]> (delete from ss)) (w_manager w)) w).
Proof.
  intros [H1 H2 H3 H4 [D1 D2] H6] Hr Hm Hp Hne Hs. cbn [at_fs w_faults w_fs w_manager] in *.
  pose proof (fun n k => renamed_stored _ _ _ _ _ n k Hr) as Hst.
  constructor; cbn [at_manager w_faults w_fs w_manager]; try done.
  - apply Hr.
  - by eapply renamed_named.
  - split.
    + intros n k [[-> ->]|(_ & _ & Hk)]%Hst; [exact (D1 from m Hm)|by eapply D1].
    + intros n n' k k' [[-> ->]|(N1 & N2 & Hk)]%Hst [[-> ->]|(N1' & N2' & Hk')]%Hst He; [done| | |by eapply D2].
      * destruct N1'. symmetry. by apply (D2 from n' m k').
      * destruct N1. by apply (D2 n from k m).
  - intros n k. cbn [set_sessions mg_sessions]. destruct (decide (n = to)) as [->|Hnt].
    + rewrite lookup_insert_eq. intros [= <-]. exists (with_name m to). split; [apply Hst; by left|done].
    + rewrite lookup_insert_ne by done. intros [Hnf Hk]%lookup_delete_Some.
      destruct (H6 n k Hk) as (mk & Hmk & Hsk). exists mk. split; [apply Hst; by right|exact Hsk].
Qed.

Lemma inv_respawn from m h w :
  inv w -> stored (w_fs w) from m -> slot_of w h = Some (sm_slot m) ->
  inv (at_manager (set_sessions (insert from h) (w_manager w)) w).
Proof.
  intros [H1 H2 H3 H4 H5 H6] Hm Hs. constructor; try done. intros n k. cbn [at_manager w_manager w_fs set_sessions mg_sessions].
  destruct (decide (n = from)) as [->|Hne].
  - rewrite lookup_insert_eq. intros [= <-]. by exists m.
  - rewrite lookup_insert_ne by done. apply H6.
Qed.

Lemma spares_insert (acted : list string) n (f : gmap string nat -> gmap string nat) w :
  spares acted w -> n ∈ acted -> (forall k i ss, f ss !! k = Some i -> k = n \/ ss !! k = Some i) ->
  spares acted (at_manager (set_sessions f (w_manager w)) w).
Proof.
  intros Hs Hin Hf s k i Hk Hn Hsl. cbn [at_manager w_manager w_effects set_sessions mg_sessions] in *.
  destruct (Hf k i _ Hn) as [->|Ho]; [done|]. by apply (Hs s k i).
Qed.

(** The end of a rollback: the control group prepared, the old session respawned. *)
Lemma respawn_fine (acted : list string) from m susp w :
  fine acted w -> stored (w_fs w) from m -> from ∈ acted ->
  wp (prepare_session (sm_slot m) ;;m restored <-m restore_one hs m susp; update (set_sessions (insert from restored)))
    w (fun _ => fine acted) (fun _ => False).
Proof.
  intros Hf Hm Hin. apply (wp_seq _ _ _ (fun _ => os_step (fun _ => False) w)); [apply wp_require| |intros e w' H; by eapply fine_busy].
  intros [] w1 H1. pose proof (fine_busy _ _ _ Hf H1) as Hf1.
  eapply wp_seq; [apply (wp_restore_one (fun _ => False)); apply Hf1| |intros e w' [H _]; by eapply fine_busy].
  intros h w2 [H2 Hs]. pose proof (fine_busy _ _ _ Hf1 H2) as [Hi2 Hsp]. unfold wp, update. split.
  - apply (inv_respawn from m h w2); [done| |done]. by rewrite (os_fs _ _ _ H2), (os_fs _ _ _ H1).
  - apply (spares_insert acted from (insert from h) w2); [done|done|]. intros k i ss.
    destruct (decide (k = from)); [by left|]. rewrite lookup_insert_ne by done. by right.
Qed.

Lemma rolled_back_fine {A : Type} (acted : list string) (e : string) (m : MM unit) w :
  wp m w (fun _ => fine acted) (fun _ => False) -> wp (@rolled_back A e m) w (fun _ => fine acted) (fun _ => False).
Proof.
  intros H. unfold rolled_back. apply (wp_seq _ _ _ (fun _ => fine acted)); [by apply wp_try| |auto].
  intros [|] w' H'; exact H'.
Qed.

Lemma rollback_unmoved (acted : list string) from to m susp w :
  fine acted w -> stored (w_fs w) from m -> from ∈ acted ->
  wp (rollback_agent_rename hs from to m susp false) w (fun _ => fine acted) (fun _ => False).
Proof.
  intros Hf Hm Hin. unfold rollback_agent_rename. eapply wp_attempt; [by apply (stop_fine acted from)|].
  intros r w1 [H1 Hf1]. eapply wp_then_eq; [reflexivity|]. apply respawn_fine; [done| |done]. by rewrite (os_fs _ _ _ H1).
Qed.

(** Renamed back, the records are the old ones. *)
Lemma renamed_back fs0 fs1 fs2 from to m :
  named fs0 -> stored fs0 from m -> from <> to -> fs0 !! session_path to = None ->
  renamed fs0 fs1 from to m -> renamed fs1 fs2 to from (with_name m to) ->
  fs2 !! rename_journal_path = None /\ forall n k, stored fs2 n k <-> stored fs0 n k.
Proof.
  intros Hn Hm Hne Hto Hr1 Hr2. split; [apply Hr2|]. intros n k.
  rewrite (renamed_stored _ _ _ _ _ n k Hr2), (renamed_stored _ _ _ _ _ n k Hr1).
  assert (Hback : with_name (with_name m to) from = m).
  { destruct (stored_name _ _ _ Hn Hm) as [<- _]. apply with_name_twice. }
  rewrite Hback. split.
  - intros [[-> ->]|(H1 & H2 & [[-> _]|(_ & _ & H)])]; done.
  - intros H. destruct (decide (n = from)) as [->|Hnf]; [left; split; [done|by eapply stored_fun]|]. right.
    assert (n <> to) by (intros ->; destruct H as (b & Hb & _); congruence).
    split; [done|]. split; [done|]. by right.
Qed.

Lemma rollback_moved (acted : list string) fs0 from to m susp w :
  fine acted (at_fs fs0 w) -> renamed fs0 (w_fs w) from to m -> stored fs0 from m -> plain from -> plain to -> from <> to ->
  fs0 !! session_path to = None -> (forall a, w_fs w !! artifact_path a from = None) -> from ∈ acted ->
  wp (rollback_agent_rename hs from to m susp true) w (fun _ => fine acted) (fun _ => False).
Proof.
  intros Hf Hr Hm Hpf Hpt Hne Hto Hbare Hin. unfold rollback_agent_rename.
  eapply wp_attempt; [apply (wp_stop (eq (sm_slot m))); done|]. intros r w1 H1.
  pose proof (os_at_fs _ fs0 _ _ H1) as H1'.
  assert (Hf1 : fine acted (at_fs fs0 w1)).
  { eapply fine_os; [exact Hf|exact H1'|]. intros s <-. left. by exists from, m. }
  assert (Hn1 : named (w_fs w1)).
  { rewrite (os_fs _ _ _ H1). eapply renamed_named; [apply (iv_named _ (proj1 Hf))|exact Hpt|exact Hr]. }
  rewrite <- (os_fs _ _ _ H1) in Hr, Hbare.
  assert (Hf2 : exists fs, Store.rename_session to from (w_fs w1) [] = Done (Ok tt) fs [] /\ renamed (w_fs w1) fs to from (with_name m to)).
  { destruct (rename_session_ready (w_fs w1) to from (with_name m to)) as (fs & R1 & R2 & _); try done; [apply Hr| | |by exists fs].
    - apply (renamed_stored _ _ _ _ _ _ _ Hr). by left.
    - destruct (w_fs w1 !! session_path from) as [b|] eqn:E; [|done]. apply Hr in E as [[? _]|[? _]]; done. }
  destruct Hf2 as (fs & R1 & R2).
  destruct (renamed_back fs0 (w_fs w1) fs from to m (iv_named _ (proj1 Hf)) Hm Hne Hto Hr R2) as [Hj Hst].
  assert (Hfin : fine acted (at_fs fs w1)).
  { destruct Hf1 as [Hi1 Hs1]. split; [|eapply spares_same; [exact Hs1|done..]]. change (inv (at_fs fs (at_fs fs0 w1))).
    apply inv_at_fs; [exact Hi1|exact Hj|exact (renamed_named (w_fs w1) fs to from _ Hn1 Hpf R2)| |].
    - destruct (iv_distinct _ Hi1) as [D1 D2]. split; [intros n k Hk%Hst; by eapply D1|].
      intros n n' k k' Hk%Hst Hk'%Hst. by apply D2.
    - intros n h k _ Hk. exists k. split; [by apply Hst|done]. }
  apply (wp_seq _ _ _ (fun r w2 => r = Ok tt /\ w2 = at_fs fs w1)); [|intros a w2 [_ ->]|by intros e w2 [[=] _]].
  { eapply wp_then_eq; [apply finish_quiet; [apply (iv_faults _ (proj1 Hf1))|apply Hr|apply (iv_deferred _ (proj1 Hf1))]|].
    eapply wp_eq; [apply store_to; [apply (iv_faults _ (proj1 Hf1))|exact R1]|done]. }
  apply respawn_fine; [exact Hfin|by apply Hst|done].
Qed.

Lemma rename_fine from to w :
  inv w -> w_effects w = [] -> (forall x, to <> x +:+ ".settings") ->
  wp (rename hs from to) w (fun _ => fine [from; to]) (fun _ => False).
Proof.
  intros Hi He Hplain. pose proof (inv_start [from; to] w Hi He) as Hf. unfold rename.
  destruct (validate_session_name to) as [[]|e] eqn:Hv; [|exact Hf].
  eapply wp_then_eq; [by apply finish_inv|]. eapply wp_then_eq; [reflexivity|]. split_if; [exact Hf|].
  destruct (read_session_inv to w Hi) as [[Hr Hto]|(mt & Hr & _)]; (eapply wp_then_eq; [exact Hr|]); [|exact Hf].
  split_if; [exact Hf|]. eapply wp_then_eq; [reflexivity|].
  destruct (mg_sessions (w_manager w) !! from) as [h|] eqn:Hn; [|exact Hf].
  destruct (effective_live from h w Hi Hn) as (m & Hr' & Hm & Hsl). eapply wp_then_eq; [exact Hr'|]. cbn beta iota.
  destruct (stored_name _ _ _ (iv_named _ Hi) Hm) as [Hnm Hpf].
  assert (Hpt : plain to) by done.
  assert (Hne : from <> to) by (intros ->; destruct Hm as (b & Hb & _); congruence).
  eapply wp_then_eq; [reflexivity|]. set (susp := match _ with Some _ => _ | None => _ end). clearbody susp.
  assert (Hfrom : from ∈ [from; to]) by by left.
  apply (wp_seq _ _ _ (fun _ w' => os_step (eq (sm_slot m)) w w' /\ fine [from; to] w')); [|intros [] w1 [H1 Hf1]|by intros e w1 [_ ?]].
  { destruct (is_agent (sm_kind m)); [by apply (stop_fine [from; to] from)|]. split; [apply os_refl|done]. }
  pose proof (proj1 Hf1) as Hi1. rewrite <- (os_fs _ _ _ H1) in Hm, Hto. apply (os_slots _ _ _ H1) in Hsl.
  destruct (rename_session_good (w_fs w1) from to (iv_named _ Hi1) (iv_journal _ Hi1) Hpf Hpt Hne)
    as [[e Hre]|(m' & fs & Hm' & _ & Hre & Hrd & Hbare)].
  { eapply wp_then_eq; [apply mtry_eq, store_at; [apply (iv_faults _ Hi1)|exact Hre]|]. split_if; [|exact Hf1].
    by apply rolled_back_fine, rollback_unmoved. }
  rewrite (stored_fun _ _ _ _ Hm' Hm) in Hrd. clear m' Hm'.
  eapply wp_then_eq; [apply mtry_eq, (store_to _ (Ok tt) fs); [apply (iv_faults _ Hi1)|exact Hre]|]. cbn beta iota.
  assert (Hback : fine [from; to] (at_fs (w_fs w1) (at_fs fs w1))).
  { change (fine [from; to] (at_fs (w_fs w1) w1)). by rewrite at_fs_id. }
  apply (wp_seq _ _ _ (fun r w' => os_step (fun _ => False) (at_fs fs w1) w'
           /\ match r with Ok (Ok k) => slot_of w' k = Some (sm_slot m) | Ok (Err _) => True | Err _ => False end));
    [|intros r w2 [H2 Hk]|by intros e w2 [_ ?]].
  { destruct (is_agent (sm_kind m)); [|split; [apply os_refl|exact Hsl]]. apply wp_try.
    apply (wp_seq _ _ _ (fun _ => os_step (fun _ => False) (at_fs fs w1))); [apply wp_require| |by intros].
    intros [] w2 H2. eapply wp_mono; [apply (wp_restore_one (fun _ => False))| |done].
    - rewrite (os_faults _ _ _ H2). apply (iv_faults _ Hi1).
    - intros r w3 [H3 Hk]. split; [exact (os_trans _ _ _ _ H2 H3)|]. by destruct r. }
  assert (Hf2 : fine [from; to] (at_fs (w_fs w1) w2)).
  { eapply fine_busy; [exact Hback|]. by apply os_at_fs. }
  assert (Hfs2 : w_fs w2 = fs) by apply H2.
  destruct r as [k|e].
  - eapply wp_then_eq; [reflexivity|]. eapply wp_then_eq; [reflexivity|]. unfold wp, mret.
    set (f := fun ss : gmap string nat => <[to := k]> (delete from ss)).
    assert (Hmv : fine [from; to] (at_manager (set_sessions f (w_manager w2)) w2)).
    { split.
      - apply (inv_moved (w_fs w1) from to m k w2); [apply Hf2|by rewrite Hfs2|done..].
      - apply spares_insert with (n := to).
        + eapply spares_same; [apply Hf2|done..].
        + right. by left.
        + intros i j ss. unfold f. destruct (decide (i = to)) as [->|]; [by left|].
          rewrite lookup_insert_ne by done. intros [_ ?]%lookup_delete_Some. by right. }
    by apply (fine_manager [from; to] (set_claude_absent (delete from) (set_sessions f (w_manager w2))) _ Hmv).
  - apply rolled_back_fine, (rollback_moved _ (w_fs w1)); rewrite ?Hfs2; done.
Qed.
End slotted.
