(* ===== verification/Boot.v ===== *)
(** * Restoring sessions, and their life after

    The three phases of [SessionManager::restore] establish the invariant of
    [Slotted] from any directory of records, whatever slots they carry; every
    operation keeps it; and so each live session owns its slot, and no operation
    kills the control group of a session it does not act on. *)
From S2P Require Import Prelude Utf8.
From S2P Require Import Wire Store Rename Manager Lifecycle Slotted.
From S2P Require RingBuf Suspend.

Implicit Types w : World.
Implicit Types fs : FS.

(** ** Normalizing keeps the identity *)

(** The name and slot stay, and unchanged means unchanged. *)
Definition faithful (m : SessionMeta) (x : SessionMeta * bool * bool) : Prop :=
  sm_name (fst (fst x)) = sm_name m /\ sm_slot (fst (fst x)) = sm_slot m /\ (snd (fst x) = false -> fst (fst x) = m).

Lemma normalized_faithful (defect : ClaudeMeta -> option string) (r : result (option ClaudeMeta) string) m :
  faithful m (normalized defect r m).
Proof.
  assert (H1 : faithful m (promote_pi defect r m)).
  { unfold promote_pi. destruct (decide (sm_kind m = Shell)); [|done]. destruct r as [[c|]|err]; [|done..].
    destruct (decide (cm_agent_kind c = Some Pi)); [|done]. by destruct (defect c). }
  assert (H2 : faithful m (promote_claude (promote_pi defect r m))).
  { destruct (promote_pi defect r m) as [[m1 c1] k1]. unfold promote_claude. destruct H1 as (A & B & C). cbn in *.
    destruct (sm_resume_as_claude m1); [|done]. by destruct (decide (sm_kind m1 = Shell)). }
  assert (H3 : faithful m (promote_muse (promote_claude (promote_pi defect r m)))).
  { destruct (promote_claude (promote_pi defect r m)) as [[m1 c1] k1]. unfold promote_muse. destruct H2 as (A & B & C). cbn in *.
    destruct (sm_resume_as_muse m1); [|done]. by destruct (decide (sm_kind m1 = Shell)). }
  unfold normalized. destruct (promote_muse _) as [[m1 c1] k1]. destruct H3 as (A & B & C). cbn in *.
  unfold repair_title. destruct (sm_title m1) as [t|]; [|done]. destruct (validate_title (Some t)) as [n|e]; [|done].
  by destruct (decide (n = Some t)).
Qed.

Section boot.
Context {J : StateJson} (hs : Host).

(** ** One record put *)
Definition puts (fs fs' : FS) (m : SessionMeta) : Prop :=
  fs' !! rename_journal_path = fs !! rename_journal_path /\ named fs'
  /\ forall n k, stored fs' n k <-> (n = sm_name m /\ k = m) \/ (n <> sm_name m /\ stored fs n k).

Lemma puts_id fs m : named fs -> stored fs (sm_name m) m -> puts fs fs m.
Proof.
  intros Hn Hm. split; [done|]. split; [done|]. intros n k. split.
  - intros Hk. destruct (decide (n = sm_name m)) as [->|]; [left; split; [done|by eapply stored_fun]|by right].
  - by intros [[-> ->]|[_ ?]].
Qed.

Lemma puts_write fs m : named fs -> plain (sm_name m) -> puts fs (<[session_path (sm_name m) := meta_text m]> fs) m.
Proof.
  intros Hn Hp. split; [by rewrite lookup_insert_ne|]. split; [by apply named_write|]. intros n k. apply stored_write.
Qed.

Lemma puts_trans fs fs1 fs2 m1 m2 : puts fs fs1 m1 -> puts fs1 fs2 m2 -> sm_name m2 = sm_name m1 -> puts fs fs2 m2.
Proof.
  intros (A1 & A2 & A3) (B1 & B2 & B3) He. split; [congruence|]. split; [done|]. intros n k. rewrite B3, A3, He. naive_solver.
Qed.

Lemma puts_same fs fs1 fs2 m : puts fs fs1 m -> same_sessions fs1 fs2 -> puts fs fs2 m.
Proof.
  intros (A1 & A2 & A3) Hs. split; [destruct Hs as [-> _]; done|]. split; [by eapply same_named|].
  intros n k. by rewrite (same_stored fs1).
Qed.

(** Event or not, the records stay. *)
Lemma maybe_event (x : option string) (k : string -> MM unit) w :
  w_faults w = [] ->
  (forall d w, w_faults w = [] -> exists fs, same_sessions (w_fs w) fs /\ k d w = Returned (Ok tt) (at_fs fs w)) ->
  exists fs, same_sessions (w_fs w) fs
    /\ (match x with Some d => k d | None => mret tt end) w = Returned (Ok tt) (at_fs fs w).
Proof.
  intros Hf Hk. destruct x as [d|]; [by apply Hk|]. exists (w_fs w). split; [apply same_refl|]. by rewrite at_fs_id.
Qed.

Lemma then_ok {A B : Type} (m : MM A) (k : A -> MM B) w a w' : m w = Returned (Ok a) w' -> mthen m k w = k a w'.
Proof. unfold mthen. by intros ->. Qed.

Lemma normalize_good m now w :
  w_faults w = [] -> named (w_fs w) -> stored (w_fs w) (sm_name m) m ->
  exists fs m', normalize_restored_meta hs m true now w = Returned (Ok m') (at_fs fs w)
    /\ puts (w_fs w) fs m' /\ sm_name m' = sm_name m /\ sm_slot m' = sm_slot m.
Proof.
  intros Hf Hn Hm. unfold normalize_restored_meta.
  assert (Hr : exists r, (if decide (sm_kind m = Shell) then store (try (read_claude (sm_name m))) else mret (Ok None)) w
                = Returned (Ok r) w).
  { case_decide; [|by eexists]. destruct (read_claude_at (sm_name m) w Hf) as (r & _ & Hr). by exists r. }
  destruct Hr as [r Hr]. rewrite (then_ok _ _ _ _ _ Hr).
  pose proof (normalized_faithful (hs_defect hs) r m) as (F1 & F2 & F3).
  destruct (normalized (hs_defect hs) r m) as [[m' changed] kind_changed]. cbn [fst snd] in *.
  destruct (maybe_event (pi_warning (hs_defect hs) r m)
    (fun d => record_recovery_event now "warning" "session.pi_recording_invalid" (Some (sm_name m))
                ("left a shell instead of promoting to Pi: " +:+ d) None) w Hf) as (fs1 & Hs1 & He).
  { intros d w1 Hf1. apply record_event_eq, Hf1. }
  rewrite (then_ok _ _ _ _ _ He). clear He.
  assert (Hm1 : stored fs1 (sm_name m) m) by (by apply (same_stored (w_fs w))).
  assert (Hn1 : named fs1) by (by eapply same_named).
  assert (Hput : puts (w_fs w) fs1 m) by (eapply puts_same; [by apply puts_id|done]).
  destruct changed; cbn [andb].
  - destruct (stored_name _ _ _ Hn1 Hm1) as [_ Hp].
    rewrite (then_ok _ _ _ (Ok tt) (at_fs (<[session_path (sm_name m') := meta_text m']> fs1) w));
      [|by apply (store_to _ (Ok (Ok tt)) _ (at_fs fs1 w))].
    eexists _, m'. split; [reflexivity|]. split; [|done].
    eapply puts_trans; [exact Hput|apply puts_write; [done|by rewrite F1]|done].
  - rewrite (F3 eq_refl) in *. by exists fs1, m.
Qed.

(** ** Phase A *)
Record preparing (used : list Z) (todo : list SessionMeta) (fs : FS) : Prop := mk_preparing {
  pr_journal : fs !! rename_journal_path = None;
  pr_named : named fs;
  pr_nodup : NoDup (map sm_name todo);
  pr_todo : forall m, m ∈ todo -> stored fs (sm_name m) m;
  pr_slots : forall n m, stored fs n m -> n ∉ map sm_name todo -> (1 <= sm_slot m)%Z /\ sm_slot m ∈ used;
  pr_distinct : forall n n' m m', stored fs n m -> stored fs n' m' -> n ∉ map sm_name todo -> n' ∉ map sm_name todo ->
                sm_slot m = sm_slot m' -> n = n';
}.

Lemma repaired_slot_spec used m :
  sm_name (fst (repaired_slot used m)) = sm_name m
  /\ (1 <= sm_slot (fst (repaired_slot used m)))%Z /\ sm_slot (fst (repaired_slot used m)) ∉ used
  /\ (snd (repaired_slot used m) = false -> fst (repaired_slot used m) = m).
Proof.
  unfold repaired_slot. destruct (alloc_slot_spec used) as (H1 & H2 & _).
  destruct ((sm_slot m <? 1)%Z) eqn:E; [done|]. apply Z.ltb_ge in E. simpl.
  case_bool_decide as Hin; [done|]. done.
Qed.

(** One more record has its slot. *)
Lemma preparing_next used m todo m2 fs fs' :
  preparing used (m :: todo) fs -> puts fs fs' m2 -> sm_name m2 = sm_name m -> (1 <= sm_slot m2)%Z -> sm_slot m2 ∉ used ->
  preparing (sm_slot m2 :: used) todo fs'.
Proof.
  intros [P1 P2 P3 P4 P5 P6] (A1 & A2 & A3) Hn Hpos Hfree. apply NoDup_cons in P3 as [Hni Hnd]. cbn [map] in *.
  constructor; [by rewrite A1|done|done| | |].
  - intros k Hk. apply A3. right. split; [|apply P4; by right]. rewrite Hn. intros E. apply Hni. rewrite <- E.
    by apply list_elem_of_fmap_2.
  - intros n k [[-> ->]|[Hne Hk]]%A3 Hout; [split; [done|by left]|]. rewrite Hn in Hne.
    destruct (P5 n k Hk) as [? ?]; [by intros [?|?]%elem_of_cons|]. split; [done|by right].
  - assert (Hold : forall n k, n <> sm_name m2 -> stored fs n k -> n ∉ map sm_name todo -> sm_slot k ∈ used).
    { intros n k Hne Hk Hout. apply (P5 n k Hk). rewrite Hn in Hne. by intros [?|?]%elem_of_cons. }
    intros n n' k k' [[-> ->]|[Hne Hk]]%A3 [[-> ->]|[Hne' Hk']]%A3 Hout Hout' He; [done| | |].
    + destruct Hfree. rewrite He. by apply (Hold n').
    + destruct Hfree. rewrite <- He. by apply (Hold n).
    + rewrite Hn in Hne, Hne'. apply (P6 n n' k k'); try done; by intros [?|?]%elem_of_cons.
Qed.

(** What phase A answers: records in the store, and the store only changed where it
    had something to do. *)
Definition prepared (todo : list SessionMeta) (fs : FS) (ready : list SessionMeta) (fs' : FS) : Prop :=
  fs' !! rename_journal_path = None /\ named fs' /\ distinct fs'
  /\ (forall m, m ∈ ready -> stored fs' (sm_name m) m) /\ NoDup (map sm_name ready)
  /\ (forall n, n ∈ map sm_name ready -> n ∈ map sm_name todo)
  /\ forall n k, n ∉ map sm_name todo -> stored fs n k -> stored fs' n k.

Lemma prepare_all_good now used todo w :
  w_faults w = [] -> preparing used todo (w_fs w) ->
  exists ready lost fs w', prepare_all hs true now used todo w = Returned (Ok (ready, lost)) w'
    /\ w_fs w' = fs /\ w_faults w' = [] /\ w_manager w' = w_manager w /\ w_children w' = w_children w /\ w_effects w' = w_effects w
    /\ prepared todo (w_fs w) ready fs.
Proof.
  revert used w. induction todo as [|m todo IH]; intros used w Hf Hp.
  { exists [], [], (w_fs w), w. split; [reflexivity|]. split_and!; try done. destruct Hp as [P1 P2 P3 P4 P5 P6].
    split; [done|]. split; [done|]. split; [|split; [by intros m ?%not_elem_of_nil|split; [apply NoDup_nil_2|done]]]. split.
    - intros n k Hk. apply (P5 n k Hk), not_elem_of_nil.
    - intros n n' k k' Hk Hk'. apply (P6 n n' k k' Hk Hk'); apply not_elem_of_nil. }
  cbn [prepare_all]. pose proof (pr_todo _ _ _ Hp m ltac:(by left)) as Hm.
  destruct (stored_name _ _ _ (pr_named _ _ _ Hp) Hm) as [_ Hpl]. rewrite (proj1 Hpl).
  destruct (repaired_slot_spec used m) as (R1 & R2 & R3 & R4). destruct (repaired_slot used m) as [m1 repaired]. cbn [fst snd] in *.
  (* the slot written *)
  assert (Hslot : exists fs1, (if repaired && true then _ <-m store (try (write_session m1)); mret tt else mret tt) w
            = Returned (Ok tt) (at_fs fs1 w) /\ puts (w_fs w) fs1 m1).
  { destruct repaired; cbn [andb].
    - exists (<[session_path (sm_name m1) := meta_text m1]> (w_fs w)). split.
      + rewrite (then_ok _ _ _ (Ok tt) (at_fs (<[session_path (sm_name m1) := meta_text m1]> (w_fs w)) w)); [done|by apply store_to].
      + apply puts_write; [apply Hp|by rewrite R1].
    - rewrite (R4 eq_refl). exists (w_fs w). split; [by rewrite at_fs_id|]. apply puts_id; [apply Hp|done]. }
  destruct Hslot as (fs1 & Hs1 & Hput1). rewrite (then_ok _ _ _ _ _ Hs1). clear Hs1.
  assert (Hst1 : stored fs1 (sm_name m1) m1) by (apply Hput1; by left).
  destruct (normalize_good m1 now (at_fs fs1 w) Hf (proj1 (proj2 Hput1)) Hst1) as (fs2 & m2 & Hn & Hput2 & N1 & N2).
  rewrite (then_ok _ _ _ (Ok m2) (at_fs fs2 w)); [|by apply mtry_eq].
  pose proof (puts_trans _ _ _ _ _ Hput1 Hput2 N1) as Hput.
  assert (Hnext : preparing (sm_slot m1 :: used) todo fs2).
  { rewrite <- N2. eapply preparing_next; [exact Hp|exact Hput|congruence|lia|by rewrite N2]. }
  (* the control group prepared *)
  set (answered := mk_world fs2 (w_faults w) (tl (w_answers w)) (w_manager w) (w_children w) (w_effects w)).
  rewrite (then_ok _ _ _ (if hd true (w_answers w) then Ok m2 else Err "could not prepare the session cgroup"%string) answered).
  2:{ unfold prepare_session, require, mthen, mtry, ask, mret, mfail. cbn. by destruct (hd true (w_answers w)). }
  assert (Hnotin : sm_name m ∉ map sm_name todo).
  { pose proof (pr_nodup _ _ _ Hp) as Hnd. by apply NoDup_cons in Hnd as [? _]. }
  destruct (hd true (w_answers w)).
  - destruct (IH (sm_slot m1 :: used) answered Hf Hnext) as (ready & lost & fs3 & w' & Hr & E1 & E2 & E3 & E4 & E5 & G1 & G2 & G3 & G4 & G5 & G6 & G7).
    rewrite (then_ok _ _ _ _ _ Hr). exists (m2 :: ready), lost, fs3, w'. split; [reflexivity|]. split_and!; try done.
    assert (Hn2 : sm_name m2 = sm_name m) by congruence. split_and!; try done; cbn [map].
    + intros k [->|Hk]%elem_of_cons; [|by apply G4]. apply G7; [by rewrite Hn2|]. apply Hput. by left.
    + apply NoDup_cons. split; [|done]. rewrite Hn2. intros Hin. by apply Hnotin, G6.
    + intros n [->|Hin]%elem_of_cons; [rewrite Hn2; by left|right; by apply G6].
    + intros n k Hout Hk. apply G7; [intros ?; apply Hout; by right|]. apply Hput. right. split; [|done].
      rewrite Hn2. intros ->. apply Hout. by left.
  - destruct (record_event_eq now "error" "session.restore_failed" (Some (sm_name m)) "could not prepare the session cgroup" None answered Hf)
      as (fs3 & Hs3 & He). rewrite (then_ok _ _ _ _ _ He).
    assert (Hnext3 : preparing (sm_slot m1 :: used) todo fs3).
    { destruct Hnext as [P1 P2 P3 P4 P5 P6]. constructor; [by destruct Hs3 as [-> _]|by eapply same_named|done|..].
      - intros k Hk. apply (same_stored fs2); [done|by apply P4].
      - intros n k Hk%(same_stored fs2); [by apply P5|done].
      - intros n n' k k' Hk%(same_stored fs2) Hk'%(same_stored fs2); [by apply P6|done..]. }
    destruct (IH (sm_slot m1 :: used) (at_fs fs3 answered) Hf Hnext3) as (ready & lost & fs4 & w' & Hr & E1 & E2 & E3 & E4 & E5 & G1 & G2 & G3 & G4 & G5 & G6 & G7).
    rewrite (then_ok _ _ _ _ _ Hr). exists ready, (sm_name m :: lost), fs4, w'. split; [reflexivity|]. split_and!; try done.
    split_and!; try done; cbn [map].
    + intros n Hin. right. by apply G6.
    + intros n k Hout Hk. apply G7; [intros ?; apply Hout; by right|]. cbn [w_fs at_fs]. apply (same_stored fs2); [done|].
      apply Hput. right. split; [|done]. rewrite N1, R1. intros ->. apply Hout. by left.
Qed.

(** ** Phases B and C *)

(** A spawned child runs in its record's slot. *)
Definition spawned w (x : SessionMeta * result nat string) : Prop :=
  match snd x with Ok h => slot_of w h = Some (sm_slot (fst x)) | Err _ => True end.

Lemma spawned_os (K : Z -> Prop) w w' x : os_step K w w' -> spawned w x -> spawned w' x.
Proof. unfold spawned. destruct x as [m [h|e]]; [|done]. intros H. apply (os_slots _ _ _ H). Qed.

Lemma spawn_all_good ready w :
  w_faults w = [] ->
  wp (spawn_all hs ready) w
    (fun r w' => exists outcomes, r = Ok outcomes /\ os_step (fun _ => False) w w' /\ map fst outcomes = ready
       /\ Forall (spawned w') outcomes) (fun _ => False).
Proof.
  revert w. induction ready as [|m ready IH]; intros w Hf; cbn [spawn_all].
  { exists []. split_and!; [done|apply os_refl|done|constructor]. }
  eapply wp_attempt; [by apply (wp_restore_one hs (fun _ => False))|]. intros r w1 [H1 Hs].
  eapply wp_seq; [apply IH; by rewrite (os_faults _ _ _ H1)| |].
  2:{ intros e w2 (outcomes & [=] & _). }
  intros outcomes w2 (outcomes' & [= ->] & H2 & Hm & Hall). exists ((m, r) :: outcomes').
  split; [done|]. split; [exact (os_trans _ _ _ _ H1 H2)|]. split; [cbn; by rewrite Hm|]. constructor; [|done].
  apply (spawned_os _ w1 w2 _ H2). unfold spawned. cbn [fst snd]. by destruct r.
Qed.

(** While sessions are registered: what was killed is not, and will not be. *)
Record committing (todo : list (SessionMeta * result nat string)) w : Prop := mk_committing {
  co_inv : inv w;
  co_records : forall m r, (m, r) ∈ todo -> stored (w_fs w) (sm_name m) m;
  co_nodup : NoDup (map (fun x => sm_name (fst x)) todo);
  co_spawned : Forall (spawned w) todo;
  co_new : forall x, x ∈ todo -> mg_sessions (w_manager w) !! sm_name (fst x) = None;
  co_killed : forall s, E_kill_group s ∈ w_effects w ->
    exists m, stored (w_fs w) (sm_name m) m /\ sm_slot m = s /\ mg_sessions (w_manager w) !! sm_name m = None
      /\ sm_name m ∉ map (fun x => sm_name (fst x)) todo;
}.

Lemma committing_same todo fs w : committing todo w -> same_sessions (w_fs w) fs -> committing todo (at_fs fs w).
Proof.
  intros [C1 C2 C3 C4 C5 C6] Hs. constructor; cbn [at_fs w_fs w_manager w_effects].
  - by apply inv_same.
  - intros m r Hin. apply (same_stored (w_fs w)); [done|by eapply C2].
  - done.
  - eapply Forall_impl; [exact C4|]. intros [m [h|e]]; done.
  - done.
  - intros s Hk. destruct (C6 s Hk) as (m & Hm & H). exists m. split; [by apply (same_stored (w_fs w))|done].
Qed.

Lemma committing_ok m h todo w :
  committing ((m, Ok h) :: todo) w -> committing todo (at_manager (set_sessions (insert (sm_name m) h) (w_manager w)) w).
Proof.
  intros [C1 C2 C3 C4 C5 C6]. cbn [map fst] in C3. apply NoDup_cons in C3 as [Hni Hnd].
  apply Forall_cons in C4 as [Hsp Hall].
  constructor; cbn [at_manager w_fs w_manager w_effects set_sessions mg_sessions].
  - apply inv_respawn with (m := m); [done| |exact Hsp]. apply (C2 m (Ok h)). by left.
  - intros m' r Hin. apply (C2 m' r). by right.
  - done.
  - eapply Forall_impl; [exact Hall|]. intros [m' [h'|e]]; done.
  - intros x Hx. rewrite lookup_insert_ne; [apply C5; by right|]. intros E. apply Hni. rewrite E.
    apply list_elem_of_fmap. by exists x.
  - intros s Hk. destruct (C6 s Hk) as (m' & Hm' & He & Hno & Hout). exists m'. split; [done|]. split; [done|].
    cbn [map] in Hout. split; [|intros ?; apply Hout; by right]. rewrite lookup_insert_ne; [done|].
    intros E. apply Hout. cbn [fst]. rewrite E. by left.
Qed.

Lemma committing_err m e todo w w' :
  committing ((m, Err e) :: todo) w -> os_step (eq (sm_slot m)) w w' -> committing todo w'.
Proof.
  intros [C1 C2 C3 C4 C5 C6] Ho. cbn [map fst] in C3. apply NoDup_cons in C3 as [Hni Hnd].
  apply Forall_cons in C4 as [_ Hall]. pose proof Ho as [A1 A2 A3 A4 A5].
  constructor; rewrite ?A1, ?A3.
  - by eapply inv_os.
  - intros m' r Hin. apply (C2 m' r). by right.
  - done.
  - eapply Forall_impl; [exact Hall|]. intros x. by apply (spawned_os (eq (sm_slot m))).
  - intros x Hx. apply C5. by right.
  - intros s Hk. destruct (A5 s Hk) as [Hk'|<-].
    + destruct (C6 s Hk') as (m' & Hm' & He & Hno & Hout). exists m'. split_and!; try done. intros ?. apply Hout. cbn [map]. by right.
    + exists m. split; [apply (C2 m (Err e)); by left|]. split; [done|]. split; [apply (C5 (m, Err e)); by left|done].
Qed.

Lemma commit_all_good now todo w :
  committing todo w -> wp (commit_all hs true now todo) w (fun r => committing []) (fun _ => False).
Proof.
  revert w. induction todo as [|[m [h|e]] todo IH]; intros w Hc; cbn [commit_all]; [exact Hc| |].
  - eapply wp_then_eq; [reflexivity|]. eapply wp_then_eq; [reflexivity|].
    apply (wp_seq _ _ _ (fun _ => committing [])); [apply IH; by apply committing_ok|by intros|auto].
  - destruct (record_event_eq now "error" "session.restore_failed" (Some (sm_name m)) e None w) as (fs & Hs & He); [apply Hc|].
    eapply wp_then_eq; [exact He|]. eapply wp_attempt; [by apply (wp_stop hs (eq (sm_slot m)))|]. intros r w1 H1.
    apply (wp_seq _ _ _ (fun _ => committing [])); [|by intros|auto].
    apply IH. eapply committing_err; [by apply committing_same|exact H1].
Qed.

Lemma committed_fine w : committing [] w -> fine [] w.
Proof.
  intros [C1 C2 C3 C4 C5 C6]. split; [done|]. intros s n h Hk Hn Hs. exfalso.
  destruct (C6 s Hk) as (m & Hm & He & Hno & _).
  rewrite (owner w n h (sm_name m) m s C1 Hn Hs Hm He) in Hn. congruence.
Qed.

(** ** Restoring *)

Definition booted (fs : FS) (answers : list bool) : World := mk_world fs [] answers (mk_manager ∅ 0 ∅ ∅ ∅ ∅) [] [].

Lemma restore_fine now fs answers :
  named fs -> fs !! rename_journal_path = None ->
  wp (restore hs now) (booted fs answers) (fun _ => fine []) (fun _ => False).
Proof.
  intros Hn Hj. set (w := booted fs answers). unfold restore.
  eapply wp_then_eq; [apply (store_at recover_pending_rename (Ok true) w); [done|]|].
  { unfold recover_pending_rename. rewrite (bind_ok _ _ _ _ None fs []); [done|]. unfold read. cbn [next hd tl w booted w_fs]. by rewrite Hj. }
  eapply wp_then_eq; [apply store_at; [done|apply exists_at]|].
  set (fs1 := delete clean_shutdown_path fs).
  assert (Hs1 : same_sessions fs fs1).
  { split; [by apply lookup_delete_ne|]. intros n. by apply lookup_delete_ne. }
  eapply wp_then_eq; [apply (store_to _ (Ok (Ok tt)) fs1 w); done|].
  assert (Hn1 : named fs1) by (by eapply same_named).
  destruct (list_sessions_good fs1 Hn1) as (metas & Hl & Hin & Hnd).
  eapply wp_then_eq; [apply store_at; [done|exact Hl]|]. set (sorted := sort_by _ metas).
  assert (Hperm : sorted ≡ₚ metas) by apply sort_by_perm.
  assert (Hprep : preparing [] sorted fs1).
  { constructor; [by destruct Hs1 as [-> _]|done| | | |].
    - eapply NoDup_Permutation_proper; [apply fmap_Permutation, Hperm|exact Hnd].
    - intros m Hm. apply Hin. by rewrite <- Hperm.
    - intros n m Hm Hout. destruct Hout. destruct (stored_name _ _ _ Hn1 Hm) as [<- _].
      apply list_elem_of_fmap_2. rewrite Hperm. by apply Hin.
    - intros n n' m m' Hm _ Hout. destruct Hout. destruct (stored_name _ _ _ Hn1 Hm) as [<- _].
      apply list_elem_of_fmap_2. rewrite Hperm. by apply Hin. }
  destruct (prepare_all_good now [] sorted (at_fs fs1 w) eq_refl Hprep)
    as (ready & lost & fs2 & w2 & Hr & E1 & E2 & E3 & E4 & E5 & G1 & G2 & G3 & G4 & G5 & _ & _).
  eapply wp_then_eq; [exact Hr|]. cbn [fst snd].
  eapply wp_seq; [by apply spawn_all_good| |by intros e w3 (? & [=] & _)].
  intros outcomes w3 (outcomes' & [= ->] & H3 & Hm3 & Hall).
  assert (Hc : committing outcomes' w3).
  { assert (Hi2 : inv w2).
    { constructor; rewrite ?E1, ?E2, ?E3; try done. }
    assert (Hmap : map (fun x => sm_name (fst x)) outcomes' = map sm_name ready).
    { rewrite <- Hm3, map_map. done. }
    constructor.
    - by eapply inv_os.
    - intros m r Hmr. rewrite (os_fs _ _ _ H3), E1. apply G4. rewrite <- Hm3. by apply (list_elem_of_fmap_2 fst _ (m, r)).
    - by rewrite Hmap.
    - done.
    - intros x _. rewrite (os_manager _ _ _ H3), E3. done.
    - intros s [Hk|[]]%(os_kills _ _ _ H3). rewrite E5 in Hk. by apply not_elem_of_nil in Hk. }
  apply (wp_seq _ _ _ (fun _ => fine [])); [eapply wp_mono; [by apply commit_all_good| |done]; intros r w4; apply committed_fine| |auto].
  intros committed w4 Hf4.
  apply (wp_seq _ _ _ (fun _ => fine [])); [|intros [] w5 Hf5; by apply record_event_fine|auto].
  split_if; [|exact Hf4].
  eapply wp_then_eq; [apply (store_to _ (Ok (Ok tt)) (<[crash_report_path := hs_crash_report hs (lost ++ fst committed)]> (w_fs w4)) w4);
                      [apply Hf4|done]|].
  apply fine_same; [exact Hf4|]. split; [by rewrite lookup_insert_ne|]. intros n. by rewrite lookup_insert_ne.
Qed.

(** ** The life of the daemon *)

(** Names whose recording is no other session's settings file
    ([Store.remove_takes_neighbour]). *)
Definition proper (name : string) : Prop := forall x, name <> x +:+ ".settings".

Definition proper_request (u : upkeep) : Prop :=
  match u with
  | U_create name _ _ _ _ => proper name
  | U_rename _ to => proper to
  | U_restore _ => False
  | _ => True
  end.

(** The sessions an operation is about. *)
Definition acted w (u : upkeep) : list string :=
  match u with
  | U_create _ _ _ _ _ => []
  | U_rename from to => [from; to]
  | U_remove name => [name]
  | U_reap _ _ => found_dead w
  | _ => []
  end.

(** The operating system's answers to the next operation; its effects are counted anew. *)
Definition asked (answers : list bool) w : World := mk_world (w_fs w) (w_faults w) answers (w_manager w) (w_children w) [].

Definition with_child (h : nat) (f : Child -> Child) w : World :=
  mk_world (w_fs w) (w_faults w) (w_answers w) (w_manager w) (alter f h (w_children w)) [].

(** One operation, an agent's hook, or a child that prints, exits, is parked or woken. *)
Inductive life_step : World -> list string -> World -> Prop :=
| ls_upkeep w u answers r w' :
    proper_request u -> perform hs u (asked answers w) = Returned r w' -> life_step w (acted w u) w'
| ls_hook w name event id file cwd primary now answers r w' :
    record_pi_hook name event id file cwd primary now (asked answers w) = Returned r w' -> life_step w [] w'
| ls_child w h f : (forall c, ch_slot (f c) = ch_slot c) -> life_step w [] (with_child h f w).

Inductive lives (fs : FS) : World -> Prop :=
| li_boot now answers r w : restore hs now (booted fs answers) = Returned r w -> lives fs w
| li_step w names w' : lives fs w -> life_step w names w' -> lives fs w'.

Lemma wp_run {A : Type} (m : MM A) w r w' (P : World -> Prop) : wp m w (fun _ => P) (fun _ => False) -> m w = Returned r w' -> P w'.
Proof. unfold wp. intros H E. by rewrite E in H. Qed.

Lemma wp_unit {A : Type} (m : MM A) w (P : World -> Prop) :
  wp m w (fun _ => P) (fun _ => False) -> wp (_ <-m m; mret tt) w (fun _ => P) (fun _ => False).
Proof. intros H. by eapply wp_seq; [exact H|..]. Qed.

Lemma inv_asked answers w : inv w -> inv (asked answers w).
Proof. by intros []. Qed.

Lemma perform_fine u answers w :
  proper_request u -> inv w -> wp (perform hs u) (asked answers w) (fun _ => fine (acted w u)) (fun _ => False).
Proof.
  intros Hp Hi. pose proof (inv_asked answers w Hi) as Hi'. destruct u; cbn [perform acted proper_request] in *.
  - by apply wp_unit, create_fine.
  - by apply wp_unit, rename_fine.
  - by apply remove_fine.
  - apply wp_unit. by apply (reap_fine hs now exit_code (asked answers w)).
  - by apply set_title_fine.
  - by apply snapshot_fine.
  - done.
Qed.

Lemma life_step_fine w names w' : inv w -> life_step w names w' -> fine names w'.
Proof.
  intros Hi Hs. destruct Hs as [w u answers r w' Hp Hr|w name event id file cwd primary now answers r w' Hr|w h f Hf].
  - eapply wp_run; [by apply perform_fine|exact Hr].
  - eapply wp_run; [by apply hook_fine; [apply inv_asked|]|exact Hr].
  - assert (Ho : os_step (fun _ => False) (asked (w_answers w) w) (with_child h f w)).
    { apply (update_child_step (fun _ => False) h f (asked (w_answers w) w) Hf). }
    eapply fine_busy; [|exact Ho]. by apply inv_start; [apply inv_asked|].
Qed.

Lemma lives_inv fs w : named fs -> fs !! rename_journal_path = None -> lives fs w -> inv w.
Proof.
  intros Hn Hj. induction 1 as [now answers r w Hr|w names w' _ IH Hs].
  - eapply (wp_run _ _ _ _ (fine [])); [by apply restore_fine|exact Hr].
  - by eapply life_step_fine.
Qed.
End boot.


(** Two records with one slot, and one with none. *)
Definition old_meta (name : string) (slot : Z) : SessionMeta := mk_meta name "/src" Shell 5 None false false None slot.
Definition old_records : FS :=
  {[session_path "a" := number_text (old_meta "a" 2); session_path "b" := number_text (old_meta "b" 2);
    session_path "c" := number_text (old_meta "c" 0)]}.

Definition restored_world : World :=
  Eval vm_compute in default demo_world (world_after (@restore numbered demo_host 9 (booted old_records []))).

Lemma old_records_named : @named numbered old_records.
Proof.
  intros n b. unfold old_records. rewrite !lookup_insert_Some, lookup_singleton_Some.
  assert (Hp : forall x, x ∈ ["a"; "b"; "c"]%string -> plain x).
  { intros x Hx. split; [|intros y E; apply (f_equal (fun s => length (bytes_of_string s))) in E;
      rewrite bytes_of_string_app, length_app in E].
    all: repeat (apply elem_of_cons in Hx as [->|Hx]; [first [reflexivity|simpl in E; lia]|]); by apply not_elem_of_nil in Hx. }
  intros H. decompose [and or] H; subst; repeat match goal with
    | E : session_path _ = session_path _ |- _ => apply session_path_inj in E; subst end;
    (split; [apply Hp; set_solver|eexists; split; [apply (@read_meta_text numbered)|reflexivity]]).
Qed.


(** ** When the repaired slot cannot be written *)
Definition then_run {A B : Type} (r : run A) (k : A -> World -> option B) : option B :=
  match r with Returned (Ok a) w => k a w | _ => None end.

(** The boot repairs the slot of [b] but cannot write it; [c] is created and removed. *)
Definition unwritten_repair : option (World * World) :=
  let fs := {[session_path "a" := number_text (old_meta "a" 1); session_path "b" := number_text (old_meta "b" 0)]} in
  then_run (@restore numbered demo_host 9 (mk_world fs (repeat F_ok 6 ++ [F_fail]) [] (mk_manager ∅ 0 ∅ ∅ ∅ ∅) [] [])) (fun _ w1 =>
  then_run (@create_with_title numbered demo_host "c" "/src" Shell None 10 (asked [] w1)) (fun _ w2 =>
  then_run (@remove numbered demo_host "c" (asked [] w2)) (fun _ w3 => Some (w2, w3)))).

Definition unwritten_worlds : World * World := Eval vm_compute in default (demo_world, demo_world) unwritten_repair.

Definition live_slot w (n : string) : option Z := h ← mg_sessions (w_manager w) !! n; slot_of w h.

(** A slot repaired at restore whose write fails is live only in the child: the
    next session created gets the same slot, both run in one control group, and
    removing the new session kills the old one's group. *)
Theorem unwritten_repair_shares :
  exists w w', unwritten_repair = Some (w, w')
    /\ live_slot w "b" = Some 2%Z /\ live_slot w "c" = Some 2%Z
    /\ live_slot w' "b" = Some 2%Z /\ live_slot w' "c" = None /\ E_kill_group 2 ∈ w_effects w'.
Proof.
  exists (fst unwritten_worlds), (snd unwritten_worlds). split; [vm_compute; reflexivity|].
  split; [vm_compute; reflexivity|]. split; [vm_compute; reflexivity|]. split; [vm_compute; reflexivity|].
  split; [vm_compute; reflexivity|]. apply list_elem_of_In. vm_compute. auto.
Qed.

(** ** When a name is used again *)
Definition prints (bytes : list byte) (n : string) w : World :=
  match mg_sessions (w_manager w) !! n with Some h => with_child h (preload bytes) w | None => w end.

Definition nothing_seen : string -> Seen := fun _ => mk_seen None false false.

(** [a] prints and is saved; removed and created again it prints as much. *)
Definition reused_name : option World :=
  then_run (@create_with_title numbered demo_host "a" "/src" Shell None 1 (booted ∅ [])) (fun _ w1 =>
  then_run (@snapshot_inner numbered demo_host false nothing_seen 2 (prints [1; 2; 3]%Z "a" w1)) (fun _ w2 =>
  then_run (@remove numbered demo_host "a" w2) (fun _ w3 =>
  then_run (@create_with_title numbered demo_host "a" "/src" Shell None 3 w3) (fun _ w4 =>
  then_run (@snapshot_inner numbered demo_host true nothing_seen 4 (prints [4; 5; 6]%Z "a" w4)) (fun _ w5 => Some w5))))).

Definition reused_world : World := Eval vm_compute in default demo_world reused_name.

(** The counter of what was saved of a removed session outlives it until the next
    snapshot: a session created again under its name that has printed as many bytes
    is taken for saved, and even the final snapshot leaves it without a scrollback. *)
Theorem reused_name_unsaved :
  exists w c, reused_name = Some w /\ w_faults w = []
    /\ (h ← mg_sessions (w_manager w) !! "a"%string; w_children w !! h) = Some c
    /\ RingBuf.snapshot (ch_ring c) = [4; 5; 6]%Z /\ w_fs w !! scrollback_path "a" = None.
Proof.
  exists reused_world. eexists. split; [vm_compute; reflexivity|]. split; [vm_compute; reflexivity|].
  split; [vm_compute; reflexivity|]. split; vm_compute; reflexivity.
Qed.
