(* ===== verification/Watchers.v ===== *)
(** * Watchers

    [crates/amber/src/watchers.rs]: connections that asked to be told of session,
    pressure or Pi events.  The registry's operations are functions on its list and
    the watchers' bounded queues; each watcher's forwarder thread is a phase
    ([Forwarder]) that [step] moves, interleaved with the daemon's threads
    (registering, broadcasting, building a snapshot, writing replies on the same
    socket) and with connections that come and go.  A writer is an [Arc] at an
    address; the registry knows it by that address only. *)
From S2P Require Import Prelude Wire Framing.

Definition WATCHER_QUEUE_DEPTH : nat := 32.
#[global] Arguments WATCHER_QUEUE_DEPTH : simpl never.

(** [e_id] also names the entry's sender [tx]. *)
Record Entry := mk_entry {
  e_id : nat;
  e_writer_key : nat;
  e_session_events : bool;
  e_pressure_version : Z;
  e_pi_version : Z;
}.

#[export] Instance Entry_eq_dec : EqDecision Entry.
Proof. solve_decision. Defined.

(** The receiver of an [Initial] is the number of its snapshot. *)
Inductive QueuedFrame :=
| QF_Frame (frame : list byte)
| QF_Initial (frame : nat).

(** The one-place channel a snapshot comes through. *)
Inductive Snapshot := Building | Ready (frame : list byte) | Dropped.

(** Where a forwarder is: at [rx.recv()], at [initial.recv()], in [write_frame], in
    [shutdown_writer], at the final [retain], returning, gone. *)
Inductive Forwarder :=
| Receiving
| Awaiting (initial : nat)
| Writing (frame : list byte)
| Severing
| Deregistering
| Returning
| Exited.

(** The shared write half of a connection: whether anyone still owns it, whether its
    socket is open, the frames written whole, each with the forwarder that wrote it
    ([None]: another thread), and the beginning of a frame cut short. *)
Record Writer := mk_writer {
  wr_addr : nat;
  wr_alive : bool;
  wr_open : bool;
  wr_frames : list (option nat * list byte);
  wr_partial : list byte;
}.

(** [entries] and [next_id] are the registry's; the rest belongs to the threads. A
    forwarder holds a [Weak] to the writer it is listed with. *)
Record State := mk_state {
  entries : list Entry;
  next_id : nat;
  queues : gmap nat (list QueuedFrame);
  forwarders : gmap nat (nat * Forwarder);
  snapshots : gmap nat Snapshot;
  next_snapshot : nat;
  writers : gmap nat Writer;
}.

Definition new : State := mk_state [] 0 ∅ ∅ ∅ 0 ∅.

Definition with_entries (s : State) (es : list Entry) : State :=
  mk_state es (next_id s) (queues s) (forwarders s) (snapshots s) (next_snapshot s) (writers s).
Definition with_queue (s : State) (id : nat) (q : list QueuedFrame) : State :=
  mk_state (entries s) (next_id s) (<[id := q]> (queues s)) (forwarders s) (snapshots s) (next_snapshot s) (writers s).
Definition with_forwarder (s : State) (id w : nat) (f : Forwarder) : State :=
  mk_state (entries s) (next_id s) (queues s) (<[id := (w, f)]> (forwarders s)) (snapshots s) (next_snapshot s) (writers s).
Definition with_snapshot (s : State) (r : nat) (x : Snapshot) : State :=
  mk_state (entries s) (next_id s) (queues s) (forwarders s) (<[r := x]> (snapshots s)) (next_snapshot s) (writers s).
Definition with_writer (s : State) (w : nat) (x : Writer) : State :=
  mk_state (entries s) (next_id s) (queues s) (forwarders s) (snapshots s) (next_snapshot s) (<[w := x]> (writers s)).

(** ** Operations *)

Inductive try_send_error := Full | Disconnected.

(** The receiver is dropped when the forwarder has returned. *)
Definition try_send (s : State) (id : nat) (q : QueuedFrame) : result State try_send_error :=
  match forwarders s !! id, queues s !! id with
  | Some (_, Exited), _ | None, _ | _, None => Err Disconnected
  | Some _, Some queue =>
      if length queue <? WATCHER_QUEUE_DEPTH then Ok (with_queue s id (queue ++ [q])) else Err Full
  end.

(** A new entry with its channel; the forwarder is spawned with it. *)
Definition push_entry (s : State) (w : nat) (e : Entry) (queue : list QueuedFrame) : State :=
  mk_state (entries s ++ [e]) (next_id s + 1) (<[e_id e := queue]> (queues s))
    (<[e_id e := (w, Receiving)]> (forwarders s)) (snapshots s) (next_snapshot s) (writers s).

Definition has_key (key : nat) (e : Entry) : bool := e_writer_key e =? key.

(** [version.max(v)] when a version was given. *)
Definition raise (version : Z) (v : option Z) : Z :=
  match v with Some v => Z.max version v | None => version end.

Definition merge (session_events : bool) (pressure_version pi_version : option Z) (e : Entry) : Entry :=
  mk_entry (e_id e) (e_writer_key e) (e_session_events e || session_events)
    (raise (e_pressure_version e) pressure_version) (raise (e_pi_version e) pi_version).

(** [iter_mut().find]: the first entry that satisfies [p], changed. *)
Fixpoint update_first (p : Entry -> bool) (f : Entry -> Entry) (es : list Entry) : list Entry :=
  match es with
  | [] => []
  | e :: es' => if p e then f e :: es' else e :: update_first p f es'
  end.

Definition key_of (s : State) (w : nat) : nat :=
  match writers s !! w with Some x => wr_addr x | None => 0 end.

Definition register_capability (s : State) (w : nat) (session_events : bool)
  (pressure_version pi_version : option Z) : State :=
  let writer_key := key_of s w in
  match List.find (has_key writer_key) (entries s) with
  | Some _ =>
      with_entries s (update_first (has_key writer_key)
                        (merge session_events pressure_version pi_version) (entries s))
  | None =>
      push_entry s w (mk_entry (next_id s) writer_key session_events
                        (default 0%Z pressure_version) (default 0%Z pi_version)) []
  end.

Definition register (s : State) (w : nat) : State := register_capability s w true None None.
Definition register_pressure (s : State) (w : nat) (version : Z) : State :=
  register_capability s w false (Some version) None.
Definition register_pi (s : State) (w : nat) (version : Z) : State :=
  register_capability s w false None (Some version).

(** [register_sessions] up to the release of the lock, and the number of the snapshot
    it goes on to build; [finish_snapshot] is the rest. *)
Definition register_sessions (s : State) (w : nat) : State * nat :=
  let writer_key := key_of s w in
  let r := next_snapshot s in
  let s1 := mk_state (entries s) (next_id s) (queues s) (forwarders s) (<[r := Building]> (snapshots s))
              (r + 1) (writers s) in
  (match List.find (has_key writer_key) (entries s) with
   | Some e =>
       match try_send s1 (e_id e) (QF_Initial r) with
       | Err _ => with_entries s1 (List.filter (fun x => negb (e_id x =? e_id e)) (entries s))
       | Ok s2 =>
           with_entries s2 (update_first (has_key writer_key) (merge true None None) (entries s))
       end
   | None => push_entry s1 w (mk_entry (next_id s) writer_key true 0%Z 0%Z) [QF_Initial r]
   end, r).

Definition finish_snapshot (s : State) (r : nat) (frame : list byte) : State :=
  with_snapshot s r (Ready frame).

(** [retain] with a [try_send] to each included entry. *)
Fixpoint broadcast_loop (s : State) (frame : list byte) (include : Entry -> bool) (es : list Entry)
  : State * list Entry :=
  match es with
  | [] => (s, [])
  | e :: es' =>
      if include e then
        match try_send s (e_id e) (QF_Frame frame) with
        | Ok s' => let '(s2, kept) := broadcast_loop s' frame include es' in (s2, e :: kept)
        | Err _ => broadcast_loop s frame include es'
        end
      else let '(s2, kept) := broadcast_loop s frame include es' in (s2, e :: kept)
  end.

Definition broadcast_frame (s : State) (frame : list byte) (include : Entry -> bool) : State :=
  let '(s', kept) := broadcast_loop s frame include (entries s) in with_entries s' kept.

Section messages.
Context {Value : Type} `{J : Json Value}.
Implicit Types msg : ControlMsg Value.

Definition broadcast_where (s : State) msg (include : Entry -> bool) : State :=
  broadcast_frame s (encode (F_Control msg)) include.

Definition broadcast (s : State) msg : State := broadcast_where s msg e_session_events.
Definition broadcast_pressure (s : State) msg : State :=
  broadcast_where s msg (fun e => 1 <=? e_pressure_version e)%Z.
Definition broadcast_resource_pressure (s : State) msg : State :=
  broadcast_where s msg (fun e => 2 <=? e_pressure_version e)%Z.
Definition broadcast_pi (s : State) msg : State :=
  broadcast_where s msg (fun e => 1 <=? e_pi_version e)%Z.
End messages.

Definition watcher_count (s : State) : nat := length (entries s).

(** ** The forwarder's writes *)

Definition written (x : Writer) (by_ : option nat) (frame : list byte) : Writer :=
  mk_writer (wr_addr x) (wr_alive x) (wr_open x) (wr_frames x ++ [(by_, frame)]) (wr_partial x).

(** A timed-out or failed write leaves part of the frame and a closed socket. *)
Definition cut (x : Writer) (part : list byte) : Writer :=
  mk_writer (wr_addr x) (wr_alive x) false (wr_frames x) (wr_partial x ++ part).

Definition shutdown (x : Writer) : Writer := cut x [].

Definition dropped (x : Writer) : Writer :=
  mk_writer (wr_addr x) false (wr_open x) (wr_frames x) (wr_partial x).

(** What [write_frame] leads to; [sent] is [None] when the peer took the whole frame,
    and the part it took otherwise. *)
Definition write_frame (x : Writer) (by_ : option nat) (frame : list byte) (sent : option (list byte))
  : Writer * bool :=
  if negb (wr_alive x) then (x, false)
  else if negb (wr_open x) then (shutdown x, false)
  else match sent with
       | None => (written x by_ frame, true)
       | Some part => (cut x part, false)
       end.

Definition shutdown_writer (x : Writer) : Writer := if wr_alive x then shutdown x else x.

Definition registered (s : State) (id : nat) : bool := existsb (fun e => e_id e =? id) (entries s).

(** A forwarder runs to its next blocking point; [None] while it is blocked, and once
    it is gone.  [sent] is the network's answer to a write. *)
Definition forward (s : State) (id : nat) (sent : option (list byte)) : option State :=
  '(w, f) ← forwarders s !! id;
  q ← queues s !! id;
  x ← writers s !! w;
  match f with
  | Receiving =>
      match q with
      | QF_Frame frame :: q' => Some (with_forwarder (with_queue s id q') id w (Writing frame))
      | QF_Initial r :: q' => Some (with_forwarder (with_queue s id q') id w (Awaiting r))
      | [] => if registered s id then None else Some (with_forwarder s id w Severing)
      end
  | Awaiting r =>
      match snapshots s !! r with
      | Some (Ready frame) => Some (with_forwarder s id w (Writing frame))
      | Some Building => None
      | _ => Some (with_forwarder s id w Severing)
      end
  | Writing frame =>
      let '(x', sent_all) := write_frame x (Some id) frame sent in
      Some (with_forwarder (with_writer s w x') id w (if sent_all then Receiving else Deregistering))
  | Severing => Some (with_forwarder (with_writer s w (shutdown_writer x)) id w Deregistering)
  | Deregistering =>
      Some (with_forwarder (with_entries s (List.filter (fun e => negb (e_id e =? id)) (entries s))) id w Returning)
  | Returning => Some (with_forwarder s id w Exited)
  | Exited => None
  end.

(** ** Steps *)

Inductive kind := K_Sessions | K_Pressure | K_Resource | K_Pi.

(** What a run shows: who asked for what, and what was broadcast. *)
Inductive label :=
| Quiet
| Forwarded (id : nat)
| Asked (w : nat) (session_events : bool) (pressure_version pi_version : option Z)
| Asked_sessions (w initial : nat)
| Broadcast (k : kind) (frame : list byte).

(** A writer's memory is in use while anyone owns it or a forwarder has its [Weak]. *)
Definition allocated (s : State) (w : nat) : Prop :=
  exists x, writers s !! w = Some x
    /\ (wr_alive x = true \/ exists id f, forwarders s !! id = Some (w, f) /\ f <> Exited).

Definition alive (s : State) (w : nat) : Prop := exists x, writers s !! w = Some x /\ wr_alive x = true.

Section steps.
Context {Value : Type} `{J : Json Value}.
Implicit Types msg : ControlMsg Value.

Definition broadcast_kind (k : kind) (s : State) msg : State :=
  match k with
  | K_Sessions => broadcast s msg
  | K_Pressure => broadcast_pressure s msg
  | K_Resource => broadcast_resource_pressure s msg
  | K_Pi => broadcast_pi s msg
  end.

Inductive step : State -> label -> State -> Prop :=
| st_connect s w addr :
    writers s !! w = None -> (forall w' x, allocated s w' -> writers s !! w' = Some x -> wr_addr x <> addr) ->
    step s Quiet (with_writer s w (mk_writer addr true true [] []))
| st_disconnect s w x :
    writers s !! w = Some x -> step s Quiet (with_writer s w (dropped x))
| st_hangup s w x part :
    writers s !! w = Some x -> (part = [] \/ wr_alive x = true /\ wr_open x = true) -> step s Quiet (with_writer s w (cut x part))
| st_reply s w x frame :
    writers s !! w = Some x -> wr_alive x = true -> wr_open x = true ->
    step s Quiet (with_writer s w (written x None frame))
| st_register s w se pv pi :
    alive s w -> (0 <= default 0 pv <= u16_max)%Z -> (0 <= default 0 pi <= u16_max)%Z ->
    step s (Asked w se pv pi) (register_capability s w se pv pi)
| st_sessions s w s' r :
    alive s w -> register_sessions s w = (s', r) -> step s (Asked_sessions w r) s'
| st_snapshot s r sessions :
    snapshots s !! r = Some Building ->
    step s Quiet (finish_snapshot s r (encode (F_Control (M_Sessions Value sessions))))
| st_snapshot_lost s r :
    snapshots s !! r = Some Building -> step s Quiet (with_snapshot s r Dropped)
| st_broadcast s k msg :
    step s (Broadcast k (encode (F_Control msg))) (broadcast_kind k s msg)
| st_forward s id sent s' :
    forward s id sent = Some s' -> step s (Forwarded id) s'.

(** ** The contract

    What each connection asked for, and what it is owed since: the frames of the kinds
    it asked for, in the order they were broadcast, and at the places where it asked
    for the sessions, their snapshot. *)
Record Watch := mk_watch {
  wt_session_events : bool;
  wt_pressure_version : Z;
  wt_pi_version : Z;
  wt_owed : list QueuedFrame;
}.

Definition unasked : Watch := mk_watch false 0 0 [].

Definition ask (se : bool) (pv pi : option Z) (x : Watch) : Watch :=
  mk_watch (wt_session_events x || se) (raise (wt_pressure_version x) pv) (raise (wt_pi_version x) pi) (wt_owed x).

Definition wants (k : kind) (x : Watch) : bool :=
  match k with
  | K_Sessions => wt_session_events x
  | K_Pressure => (1 <=? wt_pressure_version x)%Z
  | K_Resource => (2 <=? wt_pressure_version x)%Z
  | K_Pi => (1 <=? wt_pi_version x)%Z
  end.

Definition owe (q : QueuedFrame) (x : Watch) : Watch :=
  mk_watch (wt_session_events x) (wt_pressure_version x) (wt_pi_version x) (wt_owed x ++ [q]).

Definition observe (lg : gmap nat Watch) (l : label) : gmap nat Watch :=
  match l with
  | Quiet | Forwarded _ => lg
  | Asked w se pv pi => <[w := ask se pv pi (default unasked (lg !! w))]> lg
  | Asked_sessions w r => <[w := owe (QF_Initial r) (ask true None None (default unasked (lg !! w)))]> lg
  | Broadcast k frame => (fun x => if wants k x then owe (QF_Frame frame) x else x) <$> lg
  end.

Inductive run : State -> gmap nat Watch -> Prop :=
| run_new : run new ∅
| run_step s lg l s' : run s lg -> step s l s' -> run s' (observe lg l).

Definition closed (x : Writer) : Prop := wr_alive x = false \/ wr_open x = false.

(** A connection that carries no more frames of watchers after those under way: its
    socket is closed, its writer is gone, or a forwarder is about to close it. *)
Definition doomed (s : State) (w : nat) : Prop :=
  exists x, writers s !! w = Some x
    /\ (closed x
        \/ exists id f, forwarders s !! id = Some (w, f) /\ (registered s id = false \/ f = Severing)).

(** The frames of watchers on a connection. *)
Definition watched (x : Writer) : list (list byte) :=
  flat_map (fun '(by_, frame) => match by_ with Some _ => [frame] | None => [] end) (wr_frames x).

(** What a queued item became. *)
Definition resolves (s : State) (q : QueuedFrame) (frame : list byte) : Prop :=
  match q with
  | QF_Frame f => frame = f
  | QF_Initial r => snapshots s !! r = Some (Ready frame)
  end.

(** The item a forwarder has in its hands. *)
Definition holds (s : State) (f : Forwarder) (items : list QueuedFrame) : Prop :=
  match f with
  | Awaiting r => items = [QF_Initial r]
  | Writing frame => exists q, items = [q] /\ resolves s q frame
  | _ => items = []
  end.

(** ** The registry's own invariant *)

Definition late (f : Forwarder) : Prop := f = Deregistering \/ f = Returning \/ f = Exited.
Definition returned (f : Forwarder) : Prop := f = Returning \/ f = Exited.

Record wf (s : State) : Prop := mk_wf {
  wf_ids : forall id, is_Some (forwarders s !! id) -> id < next_id s;
  wf_queues : forall id, is_Some (forwarders s !! id) -> is_Some (queues s !! id);
  wf_nodup : NoDup (map e_id (entries s));
  wf_keys : NoDup (map e_writer_key (entries s));
  wf_entries : forall e, e ∈ entries s -> exists w x f, forwarders s !! e_id e = Some (w, f)
    /\ writers s !! w = Some x /\ wr_addr x = e_writer_key e /\ ~ returned f;
  wf_addr : forall w w' x x', allocated s w -> allocated s w' -> writers s !! w = Some x ->
    writers s !! w' = Some x' -> wr_addr x = wr_addr x' -> w = w';
  wf_fw : forall id w f, forwarders s !! id = Some (w, f) ->
    exists x, writers s !! w = Some x /\ (late f -> closed x);
  wf_wire : forall w x id frame, writers s !! w = Some x -> (Some id, frame) ∈ wr_frames x ->
    exists f, forwarders s !! id = Some (w, f);
  wf_snap : forall r, is_Some (snapshots s !! r) -> r < next_snapshot s;
  wf_bound : forall id q, queues s !! id = Some q -> length q <= WATCHER_QUEUE_DEPTH;
  wf_partial : forall w x, writers s !! w = Some x -> wr_partial x <> [] -> wr_open x = false;
}.

Lemma wf_new : wf new.
Proof.
  split; simpl; try constructor; intros *; rewrite ?lookup_empty; try (by intros []); try done.
  by intros ?%elem_of_nil.
Qed.

Lemma registered_spec s id : registered s id = true <-> exists e, e ∈ entries s /\ e_id e = id.
Proof.
  unfold registered. rewrite existsb_exists. setoid_rewrite Nat.eqb_eq.
  by setoid_rewrite <- list_elem_of_In.
Qed.

Lemma registered_false s id : registered s id = false <-> forall e, e ∈ entries s -> e_id e <> id.
Proof.
  rewrite <- not_true_iff_false, registered_spec. split; [intros H e He E; apply H; eauto|intros H (e & He & E); by apply (H e)].
Qed.

(** A writer changes: it only closes, and new frames are of its own forwarders. *)
Lemma wf_with_writer s w x x' :
  wf s -> writers s !! w = Some x -> wr_addr x' = wr_addr x ->
  (wr_alive x' = true -> wr_alive x = true) -> (wr_open x' = true -> wr_open x = true) ->
  (forall id frame, (Some id, frame) ∈ wr_frames x' -> (Some id, frame) ∈ wr_frames x \/ exists f, forwarders s !! id = Some (w, f)) ->
  (wr_partial x' <> [] -> wr_open x' = false) -> wf (with_writer s w x').
Proof.
  intros W Hx Ha Hal Ho Hf Hp. destruct W. split; simpl; try done.
  - intros e He. destruct (wf_entries0 e He) as (w0 & x0 & f & ? & Hw0 & ? & ?).
    destruct (decide (w0 = w)) as [->|]; [|exists w0, x0, f; by rewrite lookup_insert_ne].
    exists w, x', f. rewrite lookup_insert_eq. simplify_eq. split_and!; congruence.
  - assert (H : forall v y, allocated (with_writer s w x') v -> <[w := x']> (writers s) !! v = Some y ->
      exists y0, allocated s v /\ writers s !! v = Some y0 /\ wr_addr y0 = wr_addr y).
    { intros v y (y1 & H1 & H2) H3. simpl in *. destruct (decide (v = w)) as [->|].
      - rewrite lookup_insert_eq in *. rewrite H1 in H3. injection H3 as <-. injection H1 as <-.
        exists x. split; [|done]. exists x. destruct H2; auto.
      - rewrite lookup_insert_ne in * by done. rewrite H1 in H3. injection H3 as <-.
        exists y1. split; [|done]. exists y1. auto. }
    intros w1 w2 x1 x2 A1 A2 H1 H2 E. destruct (H _ _ A1 H1) as (? & ? & ? & ?), (H _ _ A2 H2) as (? & ? & ? & ?).
    eapply wf_addr0; eauto. congruence.
  - intros id v f Hf'. destruct (wf_fw0 id v f Hf') as (y & Hy & Hl). destruct (decide (v = w)) as [->|].
    + exists x'. rewrite lookup_insert_eq. split; [done|]. intros L. specialize (Hl L). simplify_eq.
      destruct Hl as [Hl|Hl]; [left|right]; apply not_true_iff_false; rewrite <- not_true_iff_false in Hl; auto.
    + exists y. by rewrite lookup_insert_ne.
  - intros v y id frame Hy Hin. destruct (decide (v = w)) as [->|].
    + rewrite lookup_insert_eq in Hy. simplify_eq. destruct (Hf _ _ Hin); eauto.
    + rewrite lookup_insert_ne in Hy by done. eauto.
  - intros v y Hy. destruct (decide (v = w)) as [->|].
    + rewrite lookup_insert_eq in Hy. by simplify_eq.
    + rewrite lookup_insert_ne in Hy by done. eauto.
Qed.

Lemma allocated_forwarder s id w f f' v :
  forwarders s !! id = Some (w, f) -> (f' <> Exited -> f <> Exited) ->
  allocated (with_forwarder s id w f') v -> allocated s v.
Proof.
  intros Hf Hx (x & Hx1 & [H|(i & g & Hg & Hne)]); simpl in *; exists x; [auto|]. split; [done|]. right.
  destruct (decide (i = id)) as [->|].
  - rewrite lookup_insert_eq in Hg. simplify_eq. eauto.
  - rewrite lookup_insert_ne in Hg by done. eauto.
Qed.

(** A forwarder goes on: when it turns late its writer is closed, and when it returns
    it has no entry. *)
Lemma wf_with_forwarder s id w f f' :
  wf s -> forwarders s !! id = Some (w, f) -> f <> Exited ->
  (late f' -> exists x, writers s !! w = Some x /\ closed x) -> (returned f' -> registered s id = false) ->
  wf (with_forwarder s id w f').
Proof.
  intros W Hf Hne Hl Hr. destruct W. split; simpl; try done.
  - intros i Hi. destruct (decide (i = id)) as [->|]; [by apply wf_ids0|]. rewrite lookup_insert_ne in Hi; auto.
  - intros i Hi. destruct (decide (i = id)) as [->|]; [by apply wf_queues0|]. rewrite lookup_insert_ne in Hi; auto.
  - intros e He. destruct (wf_entries0 e He) as (w0 & x0 & g & Hg & ? & ? & Hng).
    destruct (decide (e_id e = id)) as [E|]; [|exists w0, x0, g; by rewrite lookup_insert_ne].
    rewrite E in *. rewrite lookup_insert_eq. exists w, x0, f'. simplify_eq. split_and!; try done.
    intros R. apply Hr in R. rewrite registered_false in R. by apply (R e).
  - intros w1 w2 x1 x2 A1 A2. apply (allocated_forwarder _ _ _ _ _ _ Hf) in A1, A2; [|done..]. by apply wf_addr0.
  - intros i v g Hg. destruct (decide (i = id)) as [->|].
    + rewrite lookup_insert_eq in Hg. simplify_eq. destruct (wf_fw0 id v f Hf) as (x & Hx & _). exists x.
      split; [done|]. intros L. destruct (Hl L) as (? & ? & ?). by simplify_eq.
    + rewrite lookup_insert_ne in Hg by done. eauto.
  - intros v y i frame Hy Hin. destruct (wf_wire0 v y i frame Hy Hin) as [g Hg].
    destruct (decide (i = id)) as [->|]; [|rewrite lookup_insert_ne by done; eauto].
    rewrite lookup_insert_eq. simplify_eq. eauto.
Qed.

Lemma wf_with_queue s id q :
  wf s -> is_Some (forwarders s !! id) -> length q <= WATCHER_QUEUE_DEPTH -> wf (with_queue s id q).
Proof.
  intros W Hf Hq. destruct W. split; simpl; try done.
  - intros i Hi. destruct (decide (i = id)) as [->|]; [rewrite lookup_insert_eq; eauto|].
    rewrite lookup_insert_ne by done. auto.
  - intros i q0 Hi. destruct (decide (i = id)) as [->|].
    + rewrite lookup_insert_eq in Hi. by simplify_eq.
    + rewrite lookup_insert_ne in Hi by done. eauto.
Qed.

(** Entries leave, or change what they ask for. *)
Lemma wf_with_entries s es :
  wf s -> map (fun e => (e_id e, e_writer_key e)) es `sublist_of` map (fun e => (e_id e, e_writer_key e)) (entries s) ->
  wf (with_entries s es).
Proof.
  intros W Hs. destruct W. split; simpl; try done.
  - eapply sublist_NoDup; [exact wf_nodup0|]. apply (fmap_sublist fst) in Hs.
    change (map ?f ?l) with (f <$> l) in *. by rewrite <- !list_fmap_compose in Hs.
  - eapply sublist_NoDup; [exact wf_keys0|]. apply (fmap_sublist snd) in Hs.
    change (map ?f ?l) with (f <$> l) in *. by rewrite <- !list_fmap_compose in Hs.
  - intros e He. assert (H : (e_id e, e_writer_key e) ∈ map (fun e => (e_id e, e_writer_key e)) es).
    { change (map ?f ?l) with (f <$> l). apply list_elem_of_fmap. eauto. }
    apply sublist_submseteq in Hs. apply (elem_of_submseteq _ _ _ H) in Hs. change (map ?f ?l) with (f <$> l) in Hs.
    apply list_elem_of_fmap in Hs as (e0 & E & He0). simplify_eq. destruct (wf_entries0 e0 He0) as (w0 & x0 & f & ?).
    exists w0, x0, f. congruence.
Qed.

Lemma wf_snapshots s m n :
  wf s -> (forall r, is_Some (m !! r) -> r < n) ->
  wf (mk_state (entries s) (next_id s) (queues s) (forwarders s) m n (writers s)).
Proof. intros [] H. split; simpl; done. Qed.

Lemma filter_sublist_of {A} (p : A -> bool) (l : list A) : List.filter p l `sublist_of` l.
Proof. induction l as [|a l IH]; simpl; [constructor|]. destruct (p a); by constructor. Qed.

Lemma map_update_first {B} (g : Entry -> B) p f es :
  (forall e, g (f e) = g e) -> map g (update_first p f es) = map g es.
Proof. intros H. induction es as [|e es IH]; simpl; [done|]. destruct (p e); simpl; by rewrite ?H, ?IH. Qed.

Lemma key_of_alive s w : alive s w -> exists x, writers s !! w = Some x /\ key_of s w = wr_addr x /\ wr_alive x = true.
Proof. intros (x & Hx & Ha). exists x. unfold key_of. by rewrite Hx. Qed.

Lemma wf_push_entry s w e q :
  wf s -> alive s w -> e_id e = next_id s -> e_writer_key e = key_of s w ->
  List.find (has_key (key_of s w)) (entries s) = None -> length q <= WATCHER_QUEUE_DEPTH ->
  wf (push_entry s w e q).
Proof.
  intros W A Hid Hkey Hnone Hq. destruct (key_of_alive s w A) as (x & Hx & Hk & Hal). destruct W.
  assert (Hfresh : forwarders s !! e_id e = None).
  { apply eq_None_not_Some. intros H. apply wf_ids0 in H. lia. }
  split; simpl.
  - intros i Hi. destruct (decide (i = e_id e)); [lia|]. rewrite lookup_insert_ne in Hi by done. apply wf_ids0 in Hi. lia.
  - intros i Hi. destruct (decide (i = e_id e)) as [->|]; [rewrite lookup_insert_eq; eauto|].
    rewrite lookup_insert_ne in Hi by done. rewrite lookup_insert_ne by done. auto.
  - rewrite map_app. apply NoDup_app. split_and!; [done| |apply NoDup_singleton].
    intros i Hi Hi'%list_elem_of_singleton. subst i. apply list_elem_of_fmap in Hi as (e0 & E & He0).
    destruct (wf_entries0 e0 He0) as (w0 & x0 & f & H & _). rewrite <- E in H. congruence.
  - rewrite map_app. apply NoDup_app. split_and!; [done| |apply NoDup_singleton].
    intros i Hi Hi'%list_elem_of_singleton. subst i. apply list_elem_of_fmap in Hi as (e0 & E & He0).
    apply list_elem_of_In in He0. eapply find_none in Hnone; [|exact He0]. unfold has_key in Hnone.
    apply Nat.eqb_neq in Hnone. congruence.
  - intros e0 [He0| ->%list_elem_of_singleton]%elem_of_app.
    + destruct (wf_entries0 e0 He0) as (w0 & x0 & f & H & ?). exists w0, x0, f.
      rewrite lookup_insert_ne by congruence. done.
    + exists w, x, Receiving. rewrite lookup_insert_eq. split_and!; try done; [congruence|]. by intros [|].
  - assert (H : forall v, allocated (push_entry s w e q) v -> allocated s v).
    { intros v (y & Hy & [H|(i & g & Hg & Hne)]); simpl in *; exists y; [auto|]. split; [done|].
      destruct (decide (i = e_id e)) as [->|].
      - rewrite lookup_insert_eq in Hg. simplify_eq. auto.
      - rewrite lookup_insert_ne in Hg by done. eauto. }
    intros w1 w2 x1 x2 A1%H A2%H. by apply wf_addr0.
  - intros i v g Hg. destruct (decide (i = e_id e)) as [->|].
    + rewrite lookup_insert_eq in Hg. simplify_eq. exists x. split; [done|]. by intros [|[|]].
    + rewrite lookup_insert_ne in Hg by done. eauto.
  - intros v y i frame Hy Hin. destruct (wf_wire0 v y i frame Hy Hin) as [g Hg].
    exists g. rewrite lookup_insert_ne; [done|congruence].
  - done.
  - intros i q0 Hi. destruct (decide (i = e_id e)) as [->|].
    + rewrite lookup_insert_eq in Hi. by simplify_eq.
    + rewrite lookup_insert_ne in Hi by done. eauto.
  - done.
Qed.

Lemma wf_with_snapshot s r x : wf s -> r < next_snapshot s -> wf (with_snapshot s r x).
Proof.
  intros W H. apply (wf_snapshots s _ _ W). intros i Hi. destruct (decide (i = r)) as [->|]; [done|].
  rewrite lookup_insert_ne in Hi by done. by apply wf_snap in Hi.
Qed.

Lemma wf_merge s key se pv pi :
  wf s -> wf (with_entries s (update_first (has_key key) (merge se pv pi) (entries s))).
Proof. intros W. apply wf_with_entries; [done|]. rewrite map_update_first by done. done. Qed.

Lemma wf_filter s p : wf s -> wf (with_entries s (List.filter p (entries s))).
Proof. intros W. apply wf_with_entries; [done|]. apply (fmap_sublist _), filter_sublist_of. Qed.

Lemma try_send_ok s id q s' :
  try_send s id q = Ok s' <->
  exists w f queue, forwarders s !! id = Some (w, f) /\ f <> Exited /\ queues s !! id = Some queue
    /\ length queue < WATCHER_QUEUE_DEPTH /\ s' = with_queue s id (queue ++ [q]).
Proof.
  unfold try_send. split.
  - intros H. destruct (forwarders s !! id) as [[w f]|]; [|done].
    destruct f; try done; (destruct (queues s !! id) as [queue|]; [|done]);
      (destruct (length queue <? WATCHER_QUEUE_DEPTH) eqn:E; [|done]);
      apply Nat.ltb_lt in E; injection H as <-; repeat eexists; eauto.
  - intros (w & f & queue & -> & Hne & -> & Hlt%Nat.ltb_lt & ->). rewrite Hlt. by destruct f.
Qed.

Lemma try_send_wf s id q s' : wf s -> try_send s id q = Ok s' -> wf s'.
Proof.
  intros W (w & f & queue & Hf & _ & _ & Hlt & ->)%try_send_ok. apply wf_with_queue; [done|eauto|].
  rewrite length_app. simpl. lia.
Qed.

(** Only the queues of the entries kept change. *)
Definition same_but_queues (s s' : State) : Prop :=
  entries s' = entries s /\ next_id s' = next_id s /\ forwarders s' = forwarders s
  /\ snapshots s' = snapshots s /\ next_snapshot s' = next_snapshot s /\ writers s' = writers s.

Lemma broadcast_loop_spec frame include es : forall s s' kept,
  wf s -> NoDup (map e_id es) -> broadcast_loop s frame include es = (s', kept) ->
  wf s' /\ kept `sublist_of` es /\ same_but_queues s s'
  /\ (forall id, (forall e, e ∈ es -> e_id e <> id) -> queues s' !! id = queues s !! id)
  /\ (forall e, e ∈ kept -> queues s' !! e_id e =
        if include e then (fun q => q ++ [QF_Frame frame]) <$> queues s !! e_id e else queues s !! e_id e).
Proof.
  induction es as [|e es IH]; intros s s' kept W N H; simpl in *.
  { injection H as <- <-. split_and!; try done. intros e He. by apply elem_of_nil in He. }
  apply NoDup_cons in N as [Nin N].
  assert (Hne : forall e0, e0 ∈ es -> e_id e0 <> e_id e).
  { intros e0 He0 E. apply Nin. rewrite <- E. by apply (list_elem_of_fmap_2 e_id). }
  assert (Skip : forall s2 k2, broadcast_loop s frame include es = (s2, k2) ->
    wf s2 /\ k2 `sublist_of` es /\ same_but_queues s s2
    /\ (forall id, (forall e0, e0 ∈ e :: es -> e_id e0 <> id) -> queues s2 !! id = queues s !! id)
    /\ queues s2 !! e_id e = queues s !! e_id e
    /\ (forall e0, e0 ∈ k2 -> queues s2 !! e_id e0 =
        if include e0 then (fun q => q ++ [QF_Frame frame]) <$> queues s !! e_id e0 else queues s !! e_id e0)).
  { intros s2 k2 E. destruct (IH s s2 k2 W N E) as (? & ? & ? & Ho & Hk). split_and!; try done; [|by apply Ho].
    intros id Hid. apply Ho. intros e0 He0. apply Hid. by right. }
  destruct (include e) eqn:Ei; [destruct (try_send s (e_id e) (QF_Frame frame)) as [s1|] eqn:Et|].
  - destruct (broadcast_loop s1 frame include es) as [s2 k2] eqn:E. injection H as <- <-.
    pose proof (try_send_wf _ _ _ _ W Et) as W1. apply try_send_ok in Et as (w & f & q & Hf & Hx & Hq & Hl & ->).
    destruct (IH _ s2 k2 W1 N E) as (? & ? & (?&?&?&?&?&?) & Ho & Hk). split_and!; try done.
    + by constructor.
    + intros id Hid. rewrite Ho; [|intros e0 He0; apply Hid; by right]. simpl. rewrite lookup_insert_ne; [done|].
      apply Hid. by left.
    + intros e0 [->|He0]%elem_of_cons.
      * rewrite Ei, Hq, (Ho _ Hne). simpl. by rewrite lookup_insert_eq.
      * rewrite (Hk e0 He0). simpl. assert (e0 ∈ es) by (eapply elem_of_submseteq; [|by apply sublist_submseteq]; done).
        rewrite lookup_insert_ne; [done|]. intros X. symmetry in X. by apply (Hne e0).
  - destruct (Skip _ _ H) as (? & ? & ? & ? & ? & ?). split_and!; try done. by constructor.
  - destruct (broadcast_loop s frame include es) as [s2 k2] eqn:E. injection H as <- <-.
    destruct (Skip _ _ eq_refl) as (? & ? & ? & ? & ? & Hk). split_and!; try done; [by constructor|].
    intros e0 [->|He0]%elem_of_cons; [by rewrite Ei|by apply Hk].
Qed.

Lemma broadcast_frame_wf s frame include : wf s -> wf (broadcast_frame s frame include).
Proof.
  intros W. unfold broadcast_frame. destruct (broadcast_loop s frame include (entries s)) as [s' kept] eqn:E.
  apply broadcast_loop_spec in E as (W' & Hk & (He & _) & _); [|done|apply wf_nodup, W].
  apply wf_with_entries; [done|]. rewrite He. by apply (fmap_sublist _).
Qed.

Lemma register_capability_wf s w se pv pi : wf s -> alive s w -> wf (register_capability s w se pv pi).
Proof.
  intros W A. unfold register_capability. destruct (List.find _ _) eqn:E; [by apply wf_merge|].
  apply wf_push_entry; try done. simpl. lia.
Qed.

Lemma register_sessions_wf s w s' r : wf s -> alive s w -> register_sessions s w = (s', r) -> wf s'.
Proof.
  intros W A [= <- <-]. unfold register_sessions.
  set (s1 := mk_state _ _ _ _ _ _ _). assert (W1 : wf s1).
  { apply wf_snapshots; [done|]. intros i Hi. destruct (decide (i = next_snapshot s)); [lia|].
    rewrite lookup_insert_ne in Hi by done. apply (wf_snap _ W) in Hi. lia. }
  destruct (List.find _ _) as [e|] eqn:E.
  - destruct (try_send s1 (e_id e) _) as [s2|] eqn:Et.
    + pose proof (try_send_wf _ _ _ _ W1 Et) as W2. apply try_send_ok in Et as (? & ? & ? & ? & ? & ? & ? & ->).
      by apply (wf_merge _ _ _ _ _ W2).
    + by apply (wf_filter s1).
  - apply wf_push_entry; try done. simpl. unfold WATCHER_QUEUE_DEPTH. lia.
Qed.

Lemma write_frame_closes x by_ frame sent x' :
  write_frame x by_ frame sent = (x', false) -> closed x'.
Proof.
  unfold write_frame, closed. destruct (wr_alive x) eqn:?; simpl; [|intros [= <-]; auto].
  destruct (wr_open x); simpl; [|intros [= <-]; auto]. destruct sent; intros [=]; subst; auto.
Qed.

Lemma shutdown_writer_closes x : closed (shutdown_writer x).
Proof. unfold shutdown_writer, closed. destruct (wr_alive x) eqn:E; [by right|by left]. Qed.

(** What a write may do to a writer. *)
Lemma write_frame_spec s id w x f frame sent x' b :
  wf s -> writers s !! w = Some x -> forwarders s !! id = Some (w, f) ->
  write_frame x (Some id) frame sent = (x', b) -> wf (with_writer s w x').
Proof.
  intros W Hx Hf H. unfold write_frame in H.
  destruct (wr_alive x) eqn:Ea; simpl in H; [destruct (wr_open x) eqn:Eo; simpl in H; [destruct sent|]|];
    injection H as <- <-; apply (wf_with_writer _ _ x); simpl; try done; try congruence; try (left; done).
  - intros i fr [?|[= -> ->]%list_elem_of_singleton]%elem_of_app; eauto.
  - intros Hp. rewrite (wf_partial _ W _ _ Hx) in Eo; done.
  - by intros Hp%(wf_partial _ W _ _ Hx).
Qed.

Lemma shutdown_writer_wf s w x :
  wf s -> writers s !! w = Some x -> wf (with_writer s w (shutdown_writer x)).
Proof.
  intros W Hx. unfold shutdown_writer. destruct (wr_alive x) eqn:Ea;
    apply (wf_with_writer _ _ x); simpl; try done; try (left; done).
  by intros Hp%(wf_partial _ W _ _ Hx).
Qed.

Lemma registered_filter s id :
  existsb (fun e => e_id e =? id) (List.filter (fun e => negb (e_id e =? id)) (entries s)) = false.
Proof.
  apply not_true_iff_false. rewrite existsb_exists. setoid_rewrite filter_In.
  intros (e & [_ H] & E). by rewrite E in H.
Qed.

Lemma forward_wf s id sent s' : wf s -> forward s id sent = Some s' -> wf s'.
Proof.
  intros W H. unfold forward in H.
  destruct (forwarders s !! id) as [[w f]|] eqn:Ef; [|done]. simpl in H.
  destruct (queues s !! id) as [q|] eqn:Eq; [|done]. simpl in H.
  destruct (writers s !! w) as [x|] eqn:Ex; [|done]. simpl in H.
  pose proof (wf_bound _ W _ _ Eq) as Hb. destruct f as [| r | frame | | | |].
  - destruct q as [|[frame|r] q]; [destruct (registered s id); [done|]|..]; injection H as <-.
    1: eapply wf_with_forwarder; [done|exact Ef|done|by intros [|[|]]|by intros [|]].
    all: eapply wf_with_forwarder; [apply wf_with_queue; [done|eauto|simpl in Hb; lia]|done|done| |];
      [by intros [|[|]]|by intros [|]].
  - destruct (snapshots s !! r) as [[]|]; try done; injection H as <-;
      (eapply wf_with_forwarder; [done|exact Ef|done|by intros [|[|]]|by intros [|]]).
  - destruct (write_frame x (Some id) frame sent) as [x' b] eqn:E. injection H as <-.
    eapply (wf_with_forwarder _ _ _ (Writing frame)); [by eapply write_frame_spec|done|done| |].
    + destruct b; [by intros [|[|]]|]. intros _. exists x'. simpl. rewrite lookup_insert_eq.
      split; [done|]. by eapply write_frame_closes.
    + by destruct b; intros [|].
  - injection H as <-. eapply (wf_with_forwarder _ _ _ Severing); [by apply shutdown_writer_wf|done|done| |by intros [|]].
    intros _. exists (shutdown_writer x). simpl. rewrite lookup_insert_eq. split; [done|]. apply shutdown_writer_closes.
  - injection H as <-. eapply (wf_with_forwarder _ _ _ Deregistering); [by apply wf_filter|done|done| |].
    + intros _. destruct (wf_fw _ W _ _ _ Ef) as (y & Hy & Hc). exists y. split; [done|]. apply Hc. by left.
    + intros _. apply registered_filter.
  - injection H as <-. eapply wf_with_forwarder; [done|exact Ef|done| |].
    + intros _. destruct (wf_fw _ W _ _ _ Ef) as (y & Hy & Hc). exists y. split; [done|]. apply Hc. by right; left.
    + intros _. apply registered_false. intros e He E. destruct (wf_entries _ W _ He) as (v & y & g & Hg & _ & _ & Hn).
      rewrite E in Hg. simplify_eq. apply Hn. by left.
  - done.
Qed.

(** The predicate a kind of broadcast selects entries by. *)
Definition includes (k : kind) (e : Entry) : bool :=
  match k with
  | K_Sessions => e_session_events e
  | K_Pressure => (1 <=? e_pressure_version e)%Z
  | K_Resource => (2 <=? e_pressure_version e)%Z
  | K_Pi => (1 <=? e_pi_version e)%Z
  end.

Lemma broadcast_kind_frame k s msg :
  broadcast_kind k s msg = broadcast_frame s (encode (F_Control msg)) (includes k).
Proof. by destruct k. Qed.

Lemma connect_wf s w addr :
  wf s -> writers s !! w = None ->
  (forall w' x, allocated s w' -> writers s !! w' = Some x -> wr_addr x <> addr) ->
  wf (with_writer s w (mk_writer addr true true [] [])).
Proof.
  intros W Hw Ha. assert (Hne : forall v x, writers s !! v = Some x -> v <> w) by congruence. destruct W. split; simpl; try done.
  - intros e He. destruct (wf_entries0 e He) as (v & x & f & ? & ? & ?). exists v, x, f.
    rewrite lookup_insert_ne by (intros <-; congruence). done.
  - assert (H : forall v y, v <> w -> allocated (with_writer s w (mk_writer addr true true [] [])) v ->
      <[w := mk_writer addr true true [] []]> (writers s) !! v = Some y -> allocated s v /\ writers s !! v = Some y).
    { intros v y Hv (y0 & H1 & H2) H3. simpl in *. rewrite lookup_insert_ne in H1, H3 by done.
      split; [|done]. exists y0. done. }
    intros w1 w2 x1 x2 A1 A2 H1 H2 E. destruct (decide (w1 = w)) as [->|N1], (decide (w2 = w)) as [->|N2]; [done|..].
    + rewrite lookup_insert_eq in H1. injection H1 as <-. destruct (H _ _ N2 A2 H2) as [B2 G2]. by destruct (Ha _ _ B2 G2).
    + rewrite lookup_insert_eq in H2. injection H2 as <-. destruct (H _ _ N1 A1 H1) as [B1 G1]. by destruct (Ha _ _ B1 G1).
    + destruct (H _ _ N1 A1 H1), (H _ _ N2 A2 H2). eauto.
  - intros id v f Hf. destruct (wf_fw0 id v f Hf) as (x & Hx & Hc). exists x. rewrite lookup_insert_ne; [done|].
    intros <-. congruence.
  - intros v x id frame Hx Hin. destruct (decide (v = w)) as [->|].
    + rewrite lookup_insert_eq in Hx. injection Hx as <-. by apply elem_of_nil in Hin.
    + rewrite lookup_insert_ne in Hx by done. eauto.
  - intros v x Hx. destruct (decide (v = w)) as [->|].
    + rewrite lookup_insert_eq in Hx. by injection Hx as <-.
    + rewrite lookup_insert_ne in Hx by done. eauto.
Qed.

Lemma step_wf s l s' : wf s -> step s l s' -> wf s'.
Proof.
  intros W H. destruct H as [s w addr Hw Ha | s w x Hx | s w x part Hx Hp | s w x frame Hx Hal Ho | s w se pv pi A ? ?
    | s w s1 r A E | s r sessions Hr | s r Hr | s k msg | s id sent s1 Hf].
  - by apply connect_wf.
  - apply (wf_with_writer _ _ x); simpl; try done; [by left|]. by apply (wf_partial _ W _ _ Hx).
  - apply (wf_with_writer _ _ x); simpl; try done. by left.
  - apply (wf_with_writer _ _ x); simpl; try done; [|by apply (wf_partial _ W _ _ Hx)].
    intros i fr [?|H]%elem_of_app; [by left|]. by apply list_elem_of_singleton in H.
  - by apply register_capability_wf.
  - by eapply register_sessions_wf.
  - apply wf_with_snapshot; [done|]. apply (wf_snap _ W). eauto.
  - apply wf_with_snapshot; [done|]. apply (wf_snap _ W). eauto.
  - rewrite broadcast_kind_frame. by apply broadcast_frame_wf.
  - by eapply forward_wf.
Qed.

(** ** Every watcher gets what it is owed *)

Inductive served (s : State) (w : nat) (c : Watch) : Prop :=
| served_intro x e f q items sent :
    writers s !! w = Some x -> e ∈ entries s -> forwarders s !! e_id e = Some (w, f) -> queues s !! e_id e = Some q ->
    e_session_events e = wt_session_events c -> e_pressure_version e = wt_pressure_version c ->
    e_pi_version e = wt_pi_version c -> holds s f items -> wt_owed c = sent ++ items ++ q ->
    Forall2 (resolves s) sent (watched x) -> served s w c.

Definition snap_mono (s s' : State) : Prop :=
  forall r frame, snapshots s !! r = Some (Ready frame) -> snapshots s' !! r = Some (Ready frame).

Lemma snap_mono_same s s' : snapshots s' = snapshots s -> snap_mono s s'.
Proof. intros E r frame. by rewrite E. Qed.

Lemma resolves_mono s s' q frame : snap_mono s s' -> resolves s q frame -> resolves s' q frame.
Proof. destruct q; simpl; auto. Qed.

Lemma holds_mono s s' f items : snap_mono s s' -> holds s f items -> holds s' f items.
Proof. intros M. destruct f; simpl; try done. intros (q & ? & ?). exists q. split; [done|]. by eapply resolves_mono. Qed.

Lemma served_frame s s' w c :
  served s w c ->
  (forall x, writers s !! w = Some x -> exists x', writers s' !! w = Some x' /\ watched x' = watched x) ->
  (forall e f, e ∈ entries s -> forwarders s !! e_id e = Some (w, f) ->
    e ∈ entries s' /\ forwarders s' !! e_id e = Some (w, f) /\ queues s' !! e_id e = queues s !! e_id e) ->
  snap_mono s s' -> served s' w c.
Proof.
  intros [x e f q items sent Hx He Hf Hq ? ? ? Hh Ho Hr] HX HE M.
  destruct (HX x Hx) as (x' & Hx' & Ew), (HE e f He Hf) as (He' & Hf' & Hq').
  eapply (served_intro _ _ _ x' e f q items sent); try done; [congruence|by eapply holds_mono|].
  rewrite Ew. eapply Forall2_impl; [done|]. intros. by eapply resolves_mono.
Qed.

Lemma doomed_frame s s' w :
  doomed s w ->
  (forall x, writers s !! w = Some x -> exists x', writers s' !! w = Some x' /\ (closed x -> closed x')) ->
  (forall id f, forwarders s !! id = Some (w, f) -> registered s id = false \/ f = Severing ->
    (exists f', forwarders s' !! id = Some (w, f') /\ (registered s' id = false \/ f' = Severing))
    \/ exists x', writers s' !! w = Some x' /\ closed x') ->
  doomed s' w.
Proof.
  intros (x & Hx & D) HX HF. destruct (HX x Hx) as (x' & Hx' & Hc). exists x'. split; [done|].
  destruct D as [D|(id & f & Hf & D)]; [by left; apply Hc|].
  destruct (HF id f Hf D) as [(f' & Hf' & D')|(x2 & Hx2 & D')]; [right; eauto|]. left. congruence.
Qed.

(** Ids are not used twice, so what is not registered stays so. *)
Lemma registered_incl s s' id :
  (forall e, e ∈ entries s' -> e_id e = id -> exists e0, e0 ∈ entries s /\ e_id e0 = id) ->
  registered s id = false -> registered s' id = false.
Proof.
  intros H. rewrite !registered_false. intros Hn e He E. destruct (H e He E) as (e0 & He0 & E0). by apply (Hn e0).
Qed.

Lemma update_first_elem_of p f es e :
  e ∈ update_first p f es -> e ∈ es \/ exists e0, e0 ∈ es /\ e = f e0.
Proof.
  induction es as [|a es IH]; simpl; [by left|]. destruct (p a).
  - intros [->|?]%elem_of_cons; [right; exists a; split; [by left|done]|left; by right].
  - intros [->|H]%elem_of_cons; [left; by left|]. destruct (IH H) as [?|(e0 & ? & ?)]; [left; by right|].
    right. exists e0. split; [by right|done].
Qed.

Lemma elem_of_update_first p f es e : e ∈ es -> p e = false -> e ∈ update_first p f es.
Proof.
  intros He Hp. induction He as [es|e a es He IH]; simpl; [rewrite Hp; by left|].
  destruct (p a); right; auto.
Qed.

Lemma find_update_first p f es e : List.find p es = Some e -> f e ∈ update_first p f es.
Proof.
  induction es as [|a es IH]; simpl; [done|]. destruct (p a); [intros [= ->]; by left|]. intros H. right. auto.
Qed.

Lemma registered_update_first s p f id :
  (forall e, e_id (f e) = e_id e) ->
  registered s id = false -> existsb (fun e => e_id e =? id) (update_first p f (entries s)) = false.
Proof.
  intros Hf H. apply (registered_incl s (with_entries s (update_first p f (entries s)))); [|done]. simpl.
  intros e [He|(e0 & He & ->)]%update_first_elem_of E; [eauto|]. exists e0. by rewrite Hf in E.
Qed.

(** The entry found by a live writer's key is that writer's, and the only one. *)
Lemma find_key s w e :
  wf s -> alive s w -> List.find (has_key (key_of s w)) (entries s) = Some e ->
  e ∈ entries s /\ e_writer_key e = key_of s w /\ exists f, forwarders s !! e_id e = Some (w, f).
Proof.
  intros W A [Hin Hk]%find_some. apply list_elem_of_In in Hin. apply Nat.eqb_eq in Hk. split_and!; [done..|].
  destruct (wf_entries _ W e Hin) as (v & y & f & Hf & Hy & Ha & Hr). destruct A as (x & Hx & Hal).
  unfold key_of in Hk. rewrite Hx in Hk.
  assert (v = w) as ->; [|eauto]. eapply (wf_addr _ W v w y x); try done; [|by exists x; auto|congruence].
  exists y. split; [done|]. right. exists (e_id e), f. split; [done|]. intros ->. apply Hr. by right.
Qed.

Lemma own_key s w e f x :
  wf s -> e ∈ entries s -> forwarders s !! e_id e = Some (w, f) -> writers s !! w = Some x -> e_writer_key e = wr_addr x.
Proof. intros W He Hf Hx. destruct (wf_entries _ W e He) as (v & y & g & Hg & Hy & Ha & _). congruence. Qed.

Lemma same_key s e e' : wf s -> e ∈ entries s -> e' ∈ entries s -> e_writer_key e = e_writer_key e' -> e = e'.
Proof.
  intros W He He' E. pose proof (wf_keys _ W) as N. apply (list_elem_of_lookup_1) in He as [i Hi], He' as [j Hj].
  assert (i = j); [|congruence]. eapply (NoDup_lookup _ _ _ (e_writer_key e) N); change (map ?f ?l) with (f <$> l);
    rewrite list_lookup_fmap, ?Hi, ?Hj; simpl; congruence.
Qed.

Lemma same_id s e e' : wf s -> e ∈ entries s -> e' ∈ entries s -> e_id e = e_id e' -> e = e'.
Proof.
  intros W He He' E. pose proof (wf_nodup _ W) as N. apply (list_elem_of_lookup_1) in He as [i Hi], He' as [j Hj].
  assert (i = j); [|congruence]. eapply (NoDup_lookup _ _ _ (e_id e) N); change (map ?f ?l) with (f <$> l);
    rewrite list_lookup_fmap, ?Hi, ?Hj; simpl; congruence.
Qed.

Definition log_ok (s : State) (lg : gmap nat Watch) : Prop :=
  (forall id w f, forwarders s !! id = Some (w, f) -> is_Some (lg !! w))
  /\ forall w c, lg !! w = Some c -> doomed s w \/ served s w c.

Lemma log_writer s lg w c : log_ok s lg -> lg !! w = Some c -> exists x, writers s !! w = Some x.
Proof. intros [_ L] H. destruct (L w c H) as [(x & ? & _)|[x]]; eauto. Qed.

(** A step that touches no queue, forwarder or entry of [w], and may close it. *)
Lemma untouched s s' w c :
  (forall x, writers s !! w = Some x -> exists x', writers s' !! w = Some x' /\ (closed x -> closed x')
     /\ (closed x' \/ watched x' = watched x)) ->
  (forall e f, e ∈ entries s -> forwarders s !! e_id e = Some (w, f) ->
    e ∈ entries s' /\ queues s' !! e_id e = queues s !! e_id e) ->
  (forall id f, forwarders s !! id = Some (w, f) -> forwarders s' !! id = Some (w, f)) ->
  (forall id f, forwarders s !! id = Some (w, f) -> registered s id = false -> registered s' id = false) ->
  snap_mono s s' -> doomed s w \/ served s w c -> doomed s' w \/ served s' w c.
Proof.
  intros HX HE HF HR M [D|S].
  - left. apply (doomed_frame s); [done| |].
    + intros x Hx. destruct (HX x Hx) as (x' & ? & ? & _). eauto.
    + intros id f Hf D'. left. exists f. split; [auto|]. destruct D'; [left; eauto|by right].
  - assert (H : exists x, writers s !! w = Some x) by (destruct S; eauto). destruct H as (x & Hx).
    destruct (HX x Hx) as (x' & Hx' & _ & [C|Ew]); [left; exists x'; by auto|]. right.
    apply (served_frame s); try done.
    + intros y Hy. exists x'. by simplify_eq.
    + intros e f He Hf. destruct (HE e f He Hf). auto.
Qed.

Lemma log_connect s lg w addr :
  writers s !! w = None -> log_ok s lg -> log_ok (with_writer s w (mk_writer addr true true [] [])) lg.
Proof.
  intros Hw L. split; [apply L|]. intros v c Hc. destruct (log_writer s lg v c L Hc) as (x & Hx).
  eapply (untouched s); simpl; [|auto..|by apply snap_mono_same|by apply L]. intros y Hy. exists y.
  rewrite lookup_insert_ne by congruence. by auto.
Qed.

Lemma log_with_writer s lg w x x' :
  writers s !! w = Some x -> (closed x -> closed x') -> closed x' \/ watched x' = watched x ->
  log_ok s lg -> log_ok (with_writer s w x') lg.
Proof.
  intros Hx Hc Hw L. split; [apply L|]. intros v c Hv. eapply (untouched s); simpl; [|auto..|by apply snap_mono_same|by apply L].
  intros y Hy. destruct (decide (v = w)) as [->|].
  - exists x'. rewrite lookup_insert_eq. simplify_eq. auto.
  - exists y. rewrite lookup_insert_ne by done. auto.
Qed.

Lemma log_snapshot s lg r v :
  snapshots s !! r = Some Building -> log_ok s lg -> log_ok (with_snapshot s r v) lg.
Proof.
  intros Hr L. split; [apply L|]. intros w c Hw. eapply (untouched s); simpl; [eauto|auto..| |by apply L].
  intros i frame Hi. simpl. rewrite lookup_insert_ne; [done|congruence].
Qed.

(** What asking changes in the log. *)
Lemma log_ask (s' : State) lg w c' :
  (forall id v f, forwarders s' !! id = Some (v, f) -> v = w \/ is_Some (lg !! v)) ->
  (forall v c, v <> w -> lg !! v = Some c -> doomed s' v \/ served s' v c) ->
  doomed s' w \/ served s' w c' -> log_ok s' (<[w := c']> lg).
Proof.
  intros HF HO HW. split.
  - intros id v f Hf. destruct (decide (v = w)) as [->|]; [rewrite lookup_insert_eq; eauto|].
    rewrite lookup_insert_ne by done. destruct (HF id v f Hf); [done|auto].
  - intros v c Hc. destruct (decide (v = w)) as [->|].
    + rewrite lookup_insert_eq in Hc. by injection Hc as <-.
    + rewrite lookup_insert_ne in Hc by done. eauto.
Qed.

Lemma doomed_untouched s s' w :
  writers s' = writers s ->
  (forall id f, forwarders s !! id = Some (w, f) -> forwarders s' !! id = Some (w, f)) ->
  (forall id f, forwarders s !! id = Some (w, f) -> registered s id = false -> registered s' id = false) ->
  doomed s w -> doomed s' w.
Proof.
  intros Ew HF HR D. apply (doomed_frame s); [done|intros x Hx; rewrite Ew; exists x; auto|].
  intros id f Hf D'. left. exists f. split; [auto|]. destruct D'; [left; eauto|by right].
Qed.

(** A found entry that changes what it asks for. *)
Lemma log_merge s lg w e se pv pi :
  wf s -> alive s w -> List.find (has_key (key_of s w)) (entries s) = Some e ->
  log_ok s lg ->
  log_ok (with_entries s (update_first (has_key (key_of s w)) (merge se pv pi) (entries s)))
    (<[w := ask se pv pi (default unasked (lg !! w))]> lg).
Proof.
  intros W A E L. destruct (find_key s w e W A E) as (He & Hk & f & Hf).
  assert (HR : forall id, registered s id = false ->
    existsb (fun e => e_id e =? id) (update_first (has_key (key_of s w)) (merge se pv pi) (entries s)) = false).
  { intros id. by apply registered_update_first. }
  apply log_ask.
  - intros id v g Hg. right. by eapply L.
  - intros v c Hne Hc. eapply (untouched s); simpl; [eauto| |done| |by apply snap_mono_same|by apply L].
    + intros e' g He' Hg. split; [|done]. apply elem_of_update_first; [done|].
      apply Nat.eqb_neq. intros X. assert (e' = e) as -> by (eapply same_key; eauto; congruence).
      rewrite Hf in Hg. congruence.
    + intros id g _. apply HR.
  - destruct (proj1 L _ _ _ Hf) as (c & Hc). rewrite Hc. simpl. destruct (proj2 L w c Hc) as [D|S].
    + left. apply (doomed_untouched s); try done. intros id g _. apply HR.
    + right. destruct S as [x e' f' q items sent Hx He' Hf' Hq ? ? ? Hh Ho Hr].
      assert (e' = e) as ->.
      { eapply same_key; eauto. rewrite (own_key s w e' f' x), (own_key s w e f x); done. }
      eapply (served_intro _ _ _ x (merge se pv pi e) f' q items sent); simpl; try done; [|congruence..].
      by apply find_update_first.
Qed.

Lemma log_snapshots s lg m n :
  (forall r frame, snapshots s !! r = Some (Ready frame) -> m !! r = Some (Ready frame)) -> log_ok s lg ->
  log_ok (mk_state (entries s) (next_id s) (queues s) (forwarders s) m n (writers s)) lg.
Proof.
  intros H L. split; [apply L|]. intros w c Hw. eapply (untouched s); simpl; [eauto|auto..|exact H|by apply L].
Qed.

Lemma log_push s lg w e q c' :
  wf s -> alive s w -> e_id e = next_id s -> List.find (has_key (key_of s w)) (entries s) = None ->
  (lg !! w = None -> e_session_events e = wt_session_events c' /\ e_pressure_version e = wt_pressure_version c'
     /\ e_pi_version e = wt_pi_version c' /\ wt_owed c' = q) ->
  log_ok s lg -> log_ok (push_entry s w e q) (<[w := c']> lg).
Proof.
  intros W A Hid E Hc L. pose proof A as (x & Hx & Hal).
  assert (Hold : forall id v f, forwarders s !! id = Some (v, f) -> id <> e_id e).
  { intros id v f Hf ->. assert (e_id e < next_id s) by (apply (wf_ids _ W); eauto). lia. }
  assert (Hreg : forall id v f, forwarders s !! id = Some (v, f) -> registered s id = false ->
    existsb (fun e0 => e_id e0 =? id) (entries s ++ [e]) = false).
  { intros id v f Hf Hr. rewrite existsb_app. unfold registered in Hr. rewrite Hr. simpl. apply orb_false_iff.
    split; [|done]. apply Nat.eqb_neq. intros X. by apply (Hold _ _ _ Hf). }
  apply log_ask.
  - intros id v f Hf. simpl in Hf. destruct (decide (id = e_id e)) as [->|].
    + rewrite lookup_insert_eq in Hf. simplify_eq. by left.
    + rewrite lookup_insert_ne in Hf by done. right. by eapply L.
  - intros v c Hne Hv. eapply (untouched s); simpl; [eauto| | | |by apply snap_mono_same|by apply L].
    + intros e' f He' Hf. split; [apply elem_of_app; by left|]. by rewrite lookup_insert_ne by (by apply not_eq_sym, (Hold _ v f)).
    + intros id f Hf. by rewrite lookup_insert_ne by (by apply not_eq_sym, (Hold _ v f)).
    + intros id f Hf Hr. by apply (Hreg id v f).
  - destruct (lg !! w) as [c|] eqn:Hw.
    + left. destruct (proj2 L w c Hw) as [D|S].
      * apply (doomed_untouched s); simpl; try done.
        -- intros id f Hf. by rewrite lookup_insert_ne by (by apply not_eq_sym, (Hold _ w f)).
        -- intros id f Hf. by apply (Hreg id w f).
      * destruct S as [y e' f' ? ? ? Hy He' Hf']. apply list_elem_of_In in He' as He2.
        eapply find_none in E; [|exact He2]. unfold has_key in E. apply Nat.eqb_neq in E. destruct E.
        rewrite (own_key s w e' f' y); try done. unfold key_of. by rewrite Hy.
    + right. destruct (Hc eq_refl) as (? & ? & ? & ?).
      eapply (served_intro _ _ _ x e Receiving q [] []); simpl; try done.
      * apply elem_of_app. right. by apply list_elem_of_singleton.
      * by rewrite lookup_insert_eq.
      * by rewrite lookup_insert_eq.
      * assert (watched x = []) as ->; [|constructor]. unfold watched.
        assert (Hn : forall id frame, (Some id, frame) ∉ wr_frames x).
        { intros id frame Hin. destruct (wf_wire _ W _ _ _ _ Hx Hin) as [f Hf]. apply (proj1 L) in Hf.
          rewrite Hw in Hf. by destruct Hf. }
        induction (wr_frames x) as [|[[i|] frame] fs IH]; simpl; [done| |].
        -- destruct (Hn i frame). by left.
        -- apply IH. intros i fr Hin. apply (Hn i fr). by right.
Qed.

Lemma log_register s lg w se pv pi :
  wf s -> alive s w -> (0 <= default 0 pv <= u16_max)%Z -> (0 <= default 0 pi <= u16_max)%Z -> log_ok s lg ->
  log_ok (register_capability s w se pv pi) (<[w := ask se pv pi (default unasked (lg !! w))]> lg).
Proof.
  intros W A Hpv Hpi L. unfold register_capability. destruct (List.find _ _) as [e|] eqn:E.
  - by apply (log_merge s lg w e).
  - apply log_push; try done. intros ->. simpl. split_and!; try done.
    + destruct pv; simpl in *; [lia|done].
    + destruct pi; simpl in *; [lia|done].
Qed.

(** One more item for the entry of [w]. *)
Lemma log_send s lg w e f q item :
  wf s -> e ∈ entries s -> forwarders s !! e_id e = Some (w, f) -> queues s !! e_id e = Some q -> log_ok s lg ->
  log_ok (with_queue s (e_id e) (q ++ [item])) (<[w := owe item (default unasked (lg !! w))]> lg).
Proof.
  intros W He Hf Hq L. apply log_ask.
  - intros id v g Hg. right. by eapply L.
  - intros v c Hne Hc. eapply (untouched s); simpl; [eauto| |auto|auto|by apply snap_mono_same|by apply L].
    intros e' g He' Hg. split; [done|]. rewrite lookup_insert_ne; [done|]. intros X. rewrite <- X in Hg. congruence.
  - destruct (proj1 L _ _ _ Hf) as (c & Hc). rewrite Hc. simpl. destruct (proj2 L w c Hc) as [D|S].
    + left. by apply (doomed_untouched s).
    + right. destruct S as [x e' f' q' items sent Hx He' Hf' Hq' ? ? ? Hh Ho Hr].
      assert (e' = e) as -> by (eapply same_key; eauto; rewrite (own_key s w e' f' x), (own_key s w e f x); done).
      eapply (served_intro _ _ _ x e f' (q ++ [item]) items sent); simpl; try done.
      * by rewrite lookup_insert_eq.
      * rewrite Ho. simplify_eq. by rewrite <- !app_assoc.
Qed.

Lemma log_sessions s lg w s' r :
  wf s -> alive s w -> register_sessions s w = (s', r) -> log_ok s lg ->
  log_ok s' (<[w := owe (QF_Initial r) (ask true None None (default unasked (lg !! w)))]> lg).
Proof.
  intros W A [= <- <-] L. unfold register_sessions.
  set (s1 := mk_state _ _ _ _ _ _ _).
  assert (Hnew : snapshots s !! next_snapshot s = None).
  { apply eq_None_not_Some. intros H. apply (wf_snap _ W) in H. lia. }
  assert (W1 : wf s1).
  { apply wf_snapshots; [done|]. intros i Hi. destruct (decide (i = next_snapshot s)); [lia|].
    rewrite lookup_insert_ne in Hi by done. apply (wf_snap _ W) in Hi. lia. }
  assert (L1 : log_ok s1 lg).
  { apply log_snapshots; [|done]. intros r frame Hr. rewrite lookup_insert_ne; [done|congruence]. }
  destruct (List.find _ _) as [e|] eqn:E.
  - destruct (find_key s w e W A E) as (He & Hk & f & Hf). destruct (proj1 L _ _ _ Hf) as (c & Hc).
    destruct (try_send s1 (e_id e) _) as [s2|] eqn:Et.
    + pose proof (try_send_wf _ _ _ _ W1 Et) as W2. apply try_send_ok in Et as (v & g & q & Hg & _ & Hq & _ & ->).
      pose proof (log_send s1 lg w e f q (QF_Initial (next_snapshot s)) W1 He Hf Hq L1) as L2.
      eapply (log_merge _ _ w e true None None W2 A E) in L2.
      rewrite lookup_insert_eq, insert_insert_eq in L2. exact L2.
    + apply log_ask; simpl.
      * intros id v g Hg. right. by eapply L.
      * intros v d Hne Hd. eapply (untouched s1); simpl; [eauto| |auto| |by apply snap_mono_same|by apply L1].
        -- intros e' g He' Hg. split; [|done]. apply list_elem_of_In, filter_In. split; [by apply list_elem_of_In|].
           apply negb_true_iff, Nat.eqb_neq. intros X. rewrite X in Hg. congruence.
        -- intros id g _. apply (registered_incl s1 (with_entries s1 _)).
           intros e' He' X. apply list_elem_of_In, filter_In in He' as [He' _]. exists e'. by rewrite list_elem_of_In.
      * left. destruct A as (x & Hx & _). exists x. split; [done|]. right. exists (e_id e), f. split; [done|]. left.
        apply registered_filter.
  - apply log_push; try done. by intros ->.
Qed.

Lemma log_broadcast s lg frame k :
  wf s -> log_ok s lg ->
  log_ok (broadcast_frame s frame (includes k)) ((fun x => if wants k x then owe (QF_Frame frame) x else x) <$> lg).
Proof.
  intros W L. unfold broadcast_frame. destruct (broadcast_loop _ _ _ _) as [s1 kept] eqn:E.
  apply broadcast_loop_spec in E as (W1 & Hk & (Ee & _ & Ef & Es & _ & Ew) & _ & Hq); [|done|apply W].
  assert (Hin : forall e, e ∈ kept -> e ∈ entries s).
  { intros e He. eapply elem_of_submseteq; [done|by apply sublist_submseteq]. }
  assert (HR : forall id, registered s id = false -> existsb (fun e => e_id e =? id) kept = false).
  { intros id. apply (registered_incl s (with_entries s1 kept)). intros e He X. eauto. }
  split.
  - intros id w f Hf. simpl in Hf. rewrite Ef in Hf. rewrite lookup_fmap. by apply fmap_is_Some, (proj1 L _ _ _ Hf).
  - intros w c'. rewrite lookup_fmap. intros (c & Hc & ->)%fmap_Some.
    destruct (proj2 L w c Hc) as [D|S].
    { left. apply (doomed_untouched s); simpl; try done; [by rewrite Ef|]. intros id f _. apply HR. }
    destruct S as [x e f q items sent Hx He Hf Hq0 ? ? ? Hh Ho Hr].
    destruct (decide (e ∈ kept)) as [Hkept|Hnk].
    + right. specialize (Hq e Hkept). rewrite Hq0 in Hq. simpl in Hq.
      assert (Hw : includes k e = wants k c) by (destruct k; simpl; congruence). rewrite Hw in Hq.
      assert (Hh' : holds (with_entries s1 kept) f items) by (eapply holds_mono; [by apply snap_mono_same|done]).
      assert (Hr' : Forall2 (resolves (with_entries s1 kept)) sent (watched x)).
      { eapply Forall2_impl; [done|]. intros ? ?. eapply resolves_mono. by apply snap_mono_same. }
      destruct (wants k c); eapply (served_intro _ _ _ x e f _ items sent); simpl; try done;
        try (by rewrite Ew); try (by rewrite Ef). rewrite Ho. by rewrite <- !app_assoc.
    + left. exists x. simpl. rewrite Ew. split; [done|]. right. exists (e_id e), f. rewrite Ef. split; [done|]. left.
      apply not_true_iff_false. unfold registered. simpl. rewrite existsb_exists. intros (e' & He' & X%Nat.eqb_eq).
      apply list_elem_of_In in He'. by rewrite (same_id s e' e W (Hin _ He') He X) in He'.
Qed.

Lemma write_frame_closed x by_ frame sent x' b : write_frame x by_ frame sent = (x', b) -> closed x -> closed x' /\ b = false.
Proof.
  unfold write_frame, closed. destruct (wr_alive x) eqn:?, (wr_open x) eqn:?; simpl; intros H [|]; try done;
    injection H as <- <-; auto.
Qed.

Lemma shutdown_writer_closed x : closed (shutdown_writer x).
Proof. unfold shutdown_writer. destruct (wr_alive x) eqn:?; [by right|by left]. Qed.

#[local] Ltac effects :=
  simpl; split_and!; eauto; try (eexists; split; [reflexivity|done]);
  try (intros; rewrite lookup_insert_ne by done; done).

(** What a forwarder's step leaves alone, for the writer [v] of another forwarder
    [id'] or for its own. *)
Lemma forward_effects s id w f sent s' :
  forwarders s !! id = Some (w, f) -> forward s id sent = Some s' ->
  (exists f', forwarders s' = <[id := (w, f')]> (forwarders s)
     /\ (f = Severing -> exists x', writers s' !! w = Some x' /\ closed x'))
  /\ (forall v x, writers s !! v = Some x -> exists x', writers s' !! v = Some x' /\ (closed x -> closed x') /\ (v <> w -> x' = x))
  /\ (forall id', id' <> id -> queues s' !! id' = queues s !! id')
  /\ (forall e, e ∈ entries s -> e_id e <> id -> e ∈ entries s')
  /\ (forall e, e ∈ entries s' -> e ∈ entries s) /\ snapshots s' = snapshots s.
Proof.
  intros Ef H. unfold forward in H. rewrite Ef in H. simpl in H.
  destruct (queues s !! id) as [q|]; [|done]. simpl in H. destruct (writers s !! w) as [x|] eqn:Ex; [|done]. simpl in H.
  assert (HW : forall x', (closed x -> closed x') -> forall v y, writers s !! v = Some y ->
    exists y', <[w := x']> (writers s) !! v = Some y' /\ (closed y -> closed y') /\ (v <> w -> y' = y)).
  { intros x' Hc v y Hy. destruct (decide (v = w)) as [->|].
    - rewrite lookup_insert_eq. simplify_eq. exists x'. by split_and!.
    - rewrite lookup_insert_ne by done. eauto. }
  destruct f as [| r | frame | | | |].
  - destruct q as [|[frame|r] q]; [destruct (registered s id); [done|]|..]; injection H as <-; effects.
  - destruct (snapshots s !! r) as [[]|]; try done; injection H as <-; effects.
  - destruct (write_frame _ _ _ _) as [x' b] eqn:E. injection H as <-. effects.
    apply HW. intros Hc. by eapply write_frame_closed.
  - injection H as <-. effects; [|apply HW; intros _; apply shutdown_writer_closed].
    exists Deregistering. split; [done|]. intros _. exists (shutdown_writer x). rewrite lookup_insert_eq.
    split; [done|apply shutdown_writer_closed].
  - injection H as <-. effects.
    + intros e He Hne. apply list_elem_of_In, filter_In. split; [by apply list_elem_of_In|]. by apply negb_true_iff, Nat.eqb_neq.
    + intros e [He _]%list_elem_of_In%filter_In. by apply list_elem_of_In.
  - injection H as <-. effects.
  - done.
Qed.

Lemma forward_doomed s id w f sent s' v :
  forwarders s !! id = Some (w, f) -> forward s id sent = Some s' -> doomed s v -> doomed s' v.
Proof.
  intros Hf H D. destruct (forward_effects s id w f sent s' Hf H) as ((f' & Ef & Hsev) & HW & _ & _ & HE & _).
  apply (doomed_frame s); [done| |].
  - intros x Hx. destruct (HW v x Hx) as (x' & ? & ? & _). eauto.
  - intros i g Hg Hd. assert (Hreg : registered s i = false -> registered s' i = false).
    { apply registered_incl. eauto. }
    destruct (decide (i = id)) as [->|].
    + simplify_eq. destruct Hd as [Hd|Hd]; [|by right; apply Hsev]. left. exists f'. rewrite Ef, lookup_insert_eq. auto.
    + left. exists g. rewrite Ef, lookup_insert_ne by done. split; [done|]. destruct Hd; auto.
Qed.

Lemma watched_app x id frame : watched (written x (Some id) frame) = watched x ++ [frame].
Proof. unfold watched. simpl. by rewrite flat_map_app. Qed.

Lemma forward_served s w e f sent s' c x q items done_ :
  wf s -> forward s (e_id e) sent = Some s' ->
  writers s !! w = Some x -> e ∈ entries s -> forwarders s !! e_id e = Some (w, f) -> queues s !! e_id e = Some q ->
  e_session_events e = wt_session_events c -> e_pressure_version e = wt_pressure_version c ->
  e_pi_version e = wt_pi_version c -> holds s f items -> wt_owed c = done_ ++ items ++ q ->
  Forall2 (resolves s) done_ (watched x) -> doomed s' w \/ served s' w c.
Proof.
  intros W H Hx He Hf Hq ? ? ? Hh Ho Hr. pose proof H as Hstep. unfold forward in H. rewrite Hf in H. simpl in H.
  rewrite Hq in H. simpl in H. rewrite Hx in H. simpl in H.
  assert (R : registered s (e_id e) = true) by (apply registered_spec; eauto).
  assert (Late : late f -> doomed s' w).
  { intros Hl. apply (forward_doomed s (e_id e) w f sent); [done..|]. exists x. split; [done|]. left.
    destruct (wf_fw _ W _ _ _ Hf) as (y & Hy & Hc). simplify_eq. auto. }
  assert (Live : forall s2 x2 f2 q2 items2 done2, s' = s2 -> writers s2 !! w = Some x2 -> entries s2 = entries s ->
    forwarders s2 !! e_id e = Some (w, f2) -> queues s2 !! e_id e = Some q2 -> holds s2 f2 items2 ->
    wt_owed c = done2 ++ items2 ++ q2 -> Forall2 (resolves s2) done2 (watched x2) -> served s' w c).
  { intros s2 x2 f2 q2 items2 done2 -> ? Ee. intros. eapply (served_intro _ _ _ x2 e f2 q2 items2 done2); try done. by rewrite Ee. }
  destruct f as [| r | frame | | | |].
  - simpl in Hh. subst items. rewrite R in H.
    destruct q as [|[frame|r] q]; [done|..]; injection H as <-; right.
    + eapply (Live _ x (Writing frame) q [QF_Frame frame] done_); simpl; try done; try apply lookup_insert_eq.
      by exists (QF_Frame frame).
    + eapply (Live _ x (Awaiting r) q [QF_Initial r] done_); simpl; try done; apply lookup_insert_eq.
  - simpl in Hh. subst items. destruct (snapshots s !! r) as [[|frame|]|] eqn:Er; try done; injection H as <-.
    + right. eapply (Live _ x (Writing frame) q [QF_Initial r] done_); simpl; try done; [apply lookup_insert_eq|].
      by exists (QF_Initial r).
    + left. exists x. split; [done|]. right. exists (e_id e), Severing. simpl. rewrite lookup_insert_eq. auto.
    + left. exists x. split; [done|]. right. exists (e_id e), Severing. simpl. rewrite lookup_insert_eq. auto.
  - simpl in Hh. destruct Hh as (item & -> & Hi). destruct (write_frame x _ frame sent) as [x' [|]] eqn:E.
    + assert (x' = written x (Some (e_id e)) frame) as ->.
      { unfold write_frame in E. destruct (wr_alive x), (wr_open x); simpl in E; try done. destruct sent; by inversion E. }
      injection H as <-. right. eapply (Live _ (written x (Some (e_id e)) frame) Receiving q [] (done_ ++ [item])); simpl; try done;
        [apply lookup_insert_eq|apply lookup_insert_eq| |].
      * by rewrite <- app_assoc.
      * rewrite watched_app. apply Forall2_app; [done|]. by constructor.
    + injection H as <-. left. exists x'. simpl. rewrite lookup_insert_eq. split; [done|]. left. by eapply write_frame_closes.
  - injection H as <-. left. exists (shutdown_writer x). simpl. rewrite lookup_insert_eq. split; [done|]. left.
    apply shutdown_writer_closed.
  - left. apply Late. by left.
  - left. apply Late. by right; left.
  - done.
Qed.

Lemma log_forward s lg id sent s' : wf s -> forward s id sent = Some s' -> log_ok s lg -> log_ok s' lg.
Proof.
  intros W H L. assert (Hid : exists w f, forwarders s !! id = Some (w, f)).
  { unfold forward in H. destruct (forwarders s !! id) as [[w f]|]; [eauto|done]. }
  destruct Hid as (w & f & Hf). destruct (forward_effects s id w f sent s' Hf H) as ((f' & Ef & _) & HW & HQ & HE & HE' & Hs).
  split.
  - intros i v g Hg. rewrite Ef in Hg. destruct (decide (i = id)) as [->|].
    + rewrite lookup_insert_eq in Hg. simplify_eq. by eapply L.
    + rewrite lookup_insert_ne in Hg by done. by eapply L.
  - intros v c Hc. destruct (proj2 L v c Hc) as [D|S]; [left; by apply (forward_doomed s id w f sent s' v Hf H)|].
    destruct (decide (v = w)) as [->|Hne].
    + destruct S as [x e g q items done_ Hx He Hg Hq ? ? ? Hh Ho Hr].
      destruct (decide (e_id e = id)) as [<-|Hi]; [simplify_eq; by eapply (forward_served s w e f sent s' c x q items done_)|].
      left. apply (forward_doomed s id w f sent s' w Hf H). exists x. split; [done|]. right. exists id, f. split; [done|]. left.
      apply registered_false. intros e' He' <-. apply Hi. f_equal. eapply same_key; eauto.
      by rewrite (own_key s w e g x), (own_key s w e' f x).
    + right. apply (served_frame s); [done| | |by apply snap_mono_same].
      * intros x Hx. destruct (HW v x Hx) as (x' & ? & _ & E). exists x'. by rewrite <- (E Hne).
      * intros e g He Hg. assert (e_id e <> id) by (intros X; rewrite X in Hg; congruence).
        split_and!; [auto|by rewrite Ef, lookup_insert_ne|auto].
Qed.

Lemma step_log s lg l s' : wf s -> log_ok s lg -> step s l s' -> log_ok s' (observe lg l).
Proof.
  intros W L H. destruct H as [s w addr Hw Ha | s w x Hx | s w x part Hx Hp | s w x frame Hx Hal Ho | s w se pv pi A ? ?
    | s w s1 r A E | s r sessions Hr | s r Hr | s k msg | s id sent s1 Hf]; simpl.
  - by apply log_connect.
  - apply (log_with_writer _ _ _ x); try done; [intros _|]; by repeat left.
  - apply (log_with_writer _ _ _ x); try done; [intros _|left]; by right.
  - apply (log_with_writer _ _ _ x); try done. right. unfold watched. simpl. by rewrite flat_map_app, app_nil_r.
  - by apply log_register.
  - by eapply log_sessions.
  - by apply log_snapshot.
  - by apply log_snapshot.
  - rewrite broadcast_kind_frame. by apply log_broadcast.
  - by eapply log_forward.
Qed.

Lemma run_ok s lg : run s lg -> wf s /\ log_ok s lg.
Proof.
  induction 1 as [|s lg l s' _ [W L] Hs]; [split; [apply wf_new|split; by intros *; rewrite lookup_empty]|].
  split; [by eapply step_wf|by eapply step_log].
Qed.

(** C37. However registrations, broadcasts, snapshots, writes, failures and disconnections
    interleave, a connection that asked for events is in one of two cases.  Either it
    is about to be closed; or it is registered with exactly the capabilities it asked
    for, and what its forwarder has written, the item in its hands and its queue are
    together exactly what it is owed: every frame of those kinds broadcast since it
    asked, in order, with a full snapshot where it asked for sessions.  An open socket
    carries only whole frames and no queue exceeds its bound. *)
Theorem watcher_stream s lg w c :
  run s lg -> lg !! w = Some c ->
  (doomed s w \/ served s w c)
  /\ (forall x, writers s !! w = Some x -> wr_open x = true -> wr_partial x = [])
  /\ (forall id q, queues s !! id = Some q -> length q <= WATCHER_QUEUE_DEPTH).
Proof.
  intros R Hc. destruct (run_ok s lg R) as [W L]. split_and!; [by apply L| |apply (wf_bound _ W)].
  intros x Hx Ho. destruct (decide (wr_partial x = [])) as [|Hp]; [done|]. by rewrite (wf_partial _ W w x Hx Hp) in Ho.
Qed.

(** ** A watcher that fell behind is cut off *)

Definition cost (s : State) (id : nat) : nat :=
  match forwarders s !! id, queues s !! id with
  | Some (_, f), Some q =>
      match f with
      | Receiving => 3 * length q + 4
      | Awaiting _ => 3 * length q + 6
      | Writing _ => 3 * length q + 5
      | Severing => 3
      | Deregistering => 2
      | Returning => 1
      | Exited => 0
      end
  | _, _ => 0
  end.

(** What an unregistered forwarder has left to do is its own. *)
Lemma step_unregistered s l s' id w f :
  wf s -> step s l s' -> registered s id = false -> forwarders s !! id = Some (w, f) -> l <> Forwarded id ->
  registered s' id = false /\ forwarders s' !! id = Some (w, f) /\ queues s' !! id = queues s !! id.
Proof.
  intros W H R Hf Hl.
  assert (Hlt : id < next_id s) by (apply (wf_ids _ W); eauto).
  assert (Hpush : forall s1 v e q, entries s1 = entries s -> forwarders s1 = forwarders s -> queues s1 = queues s ->
    e_id e = next_id s -> registered (push_entry s1 v e q) id = false
    /\ forwarders (push_entry s1 v e q) !! id = Some (w, f) /\ queues (push_entry s1 v e q) !! id = queues s !! id).
  { intros s1 v e q E1 E2 E3 E. unfold registered. simpl. rewrite E1, E2, E3, existsb_app, !lookup_insert_ne by lia.
    unfold registered in R. rewrite R. simpl. split_and!; try done. apply orb_false_iff. split; [|done]. apply Nat.eqb_neq. lia. }
  destruct H as [| | | | s v se pv pi A ? ? | s v s1 r A E | | | s k msg | s i sent s1 Hf1]; try done.
  - unfold register_capability. destruct (List.find _ _) eqn:E; [|by apply Hpush].
    split_and!; try done. by apply registered_update_first.
  - unfold register_sessions in E. injection E as <- <-. set (s2 := mk_state _ _ _ _ _ _ _).
    destruct (List.find _ _) as [e|] eqn:E; [|by apply Hpush].
    destruct (find_key s v e W A E) as (He & _ & _).
    assert (Hne : e_id e <> id) by (rewrite registered_false in R; auto).
    destruct (try_send s2 (e_id e) _) as [s3|] eqn:Et; simpl.
    + apply try_send_ok in Et as (? & ? & ? & ? & ? & ? & ? & ->). simpl. split_and!; [by apply registered_update_first|done|].
      by rewrite lookup_insert_ne.
    + split_and!; try done. apply (registered_incl s (with_entries s2 _)); [|done].
      intros e' [He' _]%list_elem_of_In%filter_In X. exists e'. by rewrite list_elem_of_In.
  - rewrite broadcast_kind_frame. unfold broadcast_frame. destruct (broadcast_loop _ _ _ _) as [s1 kept] eqn:E.
    apply broadcast_loop_spec in E as (_ & Hk & (_ & _ & Ef & _) & Ho & _); [|done|apply W]. simpl. rewrite Ef.
    split_and!; [|done|].
    + apply (registered_incl s (with_entries s1 kept)); [|done]. intros e He X. exists e. split; [|done].
      eapply elem_of_submseteq; [done|by apply sublist_submseteq].
    + apply Ho. by apply registered_false.
  - assert (Hi : i <> id) by congruence.
    assert (Hg : exists v g, forwarders s !! i = Some (v, g)).
    { unfold forward in Hf1. destruct (forwarders s !! i) as [[v g]|]; [eauto|done]. }
    destruct Hg as (v & g & Hg). destruct (forward_effects s i v g sent s1 Hg Hf1) as ((f' & Ef & _) & _ & HQ & _ & HE & _).
    split_and!; [|by rewrite Ef, lookup_insert_ne|by apply HQ]. apply (registered_incl s); [|done]. eauto.
Qed.

(** Its own steps use it up. *)
Lemma forward_cost s id sent s' :
  wf s -> registered s id = false -> forward s id sent = Some s' ->
  cost s' id < cost s id /\ registered s' id = false /\ exists w f, forwarders s' !! id = Some (w, f).
Proof.
  intros W R H. pose proof H as H0. unfold forward in H. unfold cost.
  destruct (forwarders s !! id) as [[w f]|] eqn:Hf; [|done]. simpl in H.
  destruct (forward_effects s id w f sent s' Hf H0) as ((f' & Ef & _) & _ & _ & _ & HE & _).
  split; [|split; [apply (registered_incl s); [eauto|done]|rewrite Ef, lookup_insert_eq; eauto]].
  destruct (queues s !! id) as [q|] eqn:Hq; [|done]. simpl in H. destruct (writers s !! w) as [x|] eqn:Hx; [|done]. simpl in H.
  destruct f as [| r | frame | | | |].
  - destruct q as [|[frame|r] q]; [rewrite R in H|..]; injection H as <-; simpl; rewrite ?lookup_insert_eq, ?Hq; simpl; lia.
  - destruct (snapshots s !! r) as [[]|]; try done; injection H as <-; simpl; rewrite ?lookup_insert_eq, ?Hq; lia.
  - destruct (write_frame _ _ _ _) as [x' b]. injection H as <-. simpl. rewrite lookup_insert_eq, Hq. destruct b; lia.
  - injection H as <-. simpl. rewrite lookup_insert_eq, Hq. lia.
  - injection H as <-. simpl. rewrite lookup_insert_eq, Hq. lia.
  - injection H as <-. simpl. rewrite lookup_insert_eq, Hq. lia.
  - done.
Qed.

Lemma cost_bound s id : wf s -> cost s id <= 102.
Proof.
  intros W. unfold cost. destruct (forwarders s !! id) as [[w f]|]; [|lia].
  destruct (queues s !! id) as [q|] eqn:Hq; [|lia]. pose proof (wf_bound _ W _ _ Hq) as Hb.
  unfold WATCHER_QUEUE_DEPTH in Hb. destruct f; lia.
Qed.

(** Executions from a state, with what they show. *)
Inductive trace : State -> list label -> State -> Prop :=
| trace_nil s : trace s [] s
| trace_cons s l s1 ls s2 : step s l s1 -> trace s1 ls s2 -> trace s (l :: ls) s2.

Definition is_own (id : nat) (l : label) : bool := match l with Forwarded i => i =? id | _ => false end.
Definition own_steps (id : nat) (ls : list label) : nat := length (List.filter (is_own id) ls).

Lemma trace_cost s ls s' : trace s ls s' -> forall id w f,
  wf s -> registered s id = false -> forwarders s !! id = Some (w, f) ->
  wf s' /\ registered s' id = false /\ (exists w' f', forwarders s' !! id = Some (w', f')) /\ own_steps id ls + cost s' id <= cost s id.
Proof.
  induction 1 as [s|s l s1 ls s2 Hs _ IH]; intros id w f W R Hf; [split_and!; eauto|].
  pose proof (step_wf _ _ _ W Hs) as W1. destruct (is_own id l) eqn:El.
  - destruct l as [|i| | |]; try done. simpl in El. apply Nat.eqb_eq in El. subst i.
    assert (H : exists sent, forward s id sent = Some s1) by (inversion Hs; eauto). destruct H as [sent H].
    destruct (forward_cost s id sent s1 W R H) as (Hc & R1 & w1 & f1 & Hf1).
    destruct (IH id w1 f1 W1 R1 Hf1) as (? & ? & ? & ?). split_and!; try done.
    unfold own_steps in *. simpl. rewrite Nat.eqb_refl. simpl. lia.
  - destruct (step_unregistered s l s1 id w f W Hs R Hf) as (R1 & Hf1 & Hq1).
    { intros ->. simpl in El. by rewrite Nat.eqb_refl in El. }
    destruct (IH id w f W1 R1 Hf1) as (? & ? & ? & Hc). split_and!; try done.
    unfold own_steps in *. simpl. rewrite El.
    assert (cost s1 id = cost s id) as <-; [|done]. unfold cost. by rewrite Hf, Hf1, Hq1.
Qed.

(** Once a watcher's entry is gone (it fell a queue behind, or its second snapshot had
    no room), its forwarder takes at most 102 more steps whatever the others do, and
    while it has a step left it can take it unless it waits for a snapshot another
    thread is building; when it is gone the connection it served is closed. *)
Theorem eviction_severs s lg id w f ls s' :
  run s lg -> registered s id = false -> forwarders s !! id = Some (w, f) -> trace s ls s' ->
  own_steps id ls <= 102 /\ registered s' id = false
  /\ exists w' f' x, forwarders s' !! id = Some (w', f') /\ writers s' !! w' = Some x
     /\ (f' = Exited -> closed x)
     /\ (f' <> Exited -> (exists r, f' = Awaiting r /\ snapshots s' !! r = Some Building) \/ forall sent, is_Some (forward s' id sent)).
Proof.
  intros Hr R Hf T. destruct (run_ok s lg Hr) as [W _].
  destruct (trace_cost s ls s' T id w f W R Hf) as (W' & R' & (w' & f' & Hf') & Hc).
  pose proof (cost_bound s id W). split_and!; [lia|done|].
  destruct (wf_fw _ W' _ _ _ Hf') as (x & Hx & Hl). exists w', f', x. split_and!; try done.
  { intros ->. apply Hl. by right; right. }
  intros Hne. destruct (wf_queues _ W' id) as [q Hq]; [eauto|].
  unfold forward. rewrite Hf'. simpl. rewrite Hq. simpl. rewrite Hx. simpl. destruct f' as [| r | | | | |]; eauto.
  - right. intros _. destruct q as [|[]]; rewrite ?R'; eauto.
  - destruct (snapshots s' !! r) as [[]|] eqn:Er; eauto.
  - right. intros sent. destruct (write_frame _ _ _ _). eauto.
  - done.
Qed.

(** A forwarder run on its own while its writes succeed. *)
Fixpoint forward_n (n : nat) (s : State) (id : nat) : option State :=
  match n with
  | 0 => Some s
  | S n => s1 ← forward s id None; forward_n n s1 id
  end.

Lemma forward_n_trace n : forall s id s', forward_n n s id = Some s' -> trace s (replicate n (Forwarded id)) s'.
Proof.
  induction n as [|n IH]; intros s id s' H; simpl in H; [injection H as <-; constructor|].
  destruct (forward s id None) as [s1|] eqn:E; [|done]. econstructor; [by eapply st_forward|]. by apply IH.
Qed.

Lemma run_trace s ls s' : trace s ls s' -> forall lg, run s lg -> run s' (fold_left observe ls lg).
Proof. induction 1 as [|? ? ? ? ? ? _ IH]; intros lg R; simpl; [done|]. apply IH. by econstructor. Qed.

Lemma broadcasts_trace k msg n : forall s,
  trace s (replicate n (Broadcast k (encode (F_Control msg)))) (Nat.iter n (fun s => broadcast_kind k s msg) s).
Proof.
  induction n as [|n IH]; intros s; [constructor|]. rewrite Nat.iter_succ_r. simpl. econstructor; [constructor|apply IH].
Qed.
End steps.

(** ** A watcher that reads and one that does not *)
Section examples.
#[local] Existing Instance Framing.toy_json.
Let msg : ControlMsg string := M_Hello _.

Lemma run_one : run (with_writer new 0 (mk_writer 4096 true true [] [])) ∅.
Proof.
  change ∅ with (observe ∅ Quiet). eapply run_step; [constructor|]. apply st_connect; [done|].
  intros w' x (? & H & _). done.
Qed.

Lemma watcher_stream_witness :
  exists s c x, run s {[0 := c]} /\ wt_owed c = [QF_Initial 0; QF_Frame (encode (F_Control msg))]
    /\ writers s !! 0 = Some x /\ length (watched x) = 1 /\ queues s !! 0 = Some [QF_Frame (encode (F_Control msg))]
    /\ (doomed s 0 \/ served s 0 c).
Proof.
  set (s0 := with_writer new 0 (mk_writer 4096 true true [] [])).
  set (s1 := fst (register_sessions s0 0)).
  set (s2 := finish_snapshot (broadcast_kind K_Sessions s1 msg) 0 (encode (F_Control (M_Sessions string [])))).
  destruct (forward_n 3 s2 0) as [s3|] eqn:E; [|vm_compute in E; discriminate].
  set (c := mk_watch true 0 0 [QF_Initial 0; QF_Frame (encode (F_Control msg))]).
  assert (R : run s3 {[0 := c]}).
  { pose proof (forward_n_trace 3 s2 0 s3 E) as T. pose proof (run_trace _ _ _ T {[0 := c]}) as R.
    simpl in R. apply R. clear R T E.
    assert (X : observe (observe (observe ∅ (Asked_sessions 0 0)) (Broadcast K_Sessions (encode (F_Control msg)))) Quiet
                = {[0 := c]}) by (vm_compute; reflexivity).
    rewrite <- X. eapply run_step; [eapply run_step; [eapply run_step; [exact run_one|]|]|].
    - eapply st_sessions; [exists (mk_writer 4096 true true [] []); by split|reflexivity].
    - apply (st_broadcast _ K_Sessions msg).
    - apply st_snapshot. reflexivity. }
  vm_compute in E. injection E as <-. eexists _, c, _. split; [exact R|]. split; [reflexivity|].
  split; [reflexivity|]. split; [reflexivity|]. split; [reflexivity|].
  exact (proj1 (watcher_stream _ {[0 := c]} 0 c R eq_refl)).
Defined.

Lemma eviction_severs_witness :
  exists s lg s' x, run s lg /\ registered s 0 = false /\ trace s (replicate 68 (Forwarded 0)) s'
    /\ forwarders s' !! 0 = Some (0, Exited) /\ writers s' !! 0 = Some x /\ closed x /\ own_steps 0 (replicate 68 (Forwarded 0)) <= 102.
Proof.
  set (s0 := with_writer new 0 (mk_writer 4096 true true [] [])).
  set (s1 := register_pressure s0 0 1).
  set (s2 := Nat.iter 33 (fun s => broadcast_kind K_Pressure s msg) s1).
  destruct (forward_n 68 s2 0) as [s3|] eqn:E; [|vm_compute in E; discriminate].
  pose proof (forward_n_trace 68 s2 0 s3 E) as T.
  assert (R : exists lg, run s2 lg).
  { eexists. apply (run_trace _ _ _ (broadcasts_trace K_Pressure msg 33 s1)).
    eapply run_step; [exact run_one|]. apply st_register; [|vm_compute; by split..].
    exists (mk_writer 4096 true true [] []). by split. }
  destruct R as [lg R].
  assert (Hreg : registered s2 0 = false) by (vm_compute; reflexivity).
  assert (Hf : forwarders s2 !! 0 = Some (0, Receiving)) by (vm_compute; reflexivity).
  destruct (eviction_severs s2 lg 0 0 Receiving _ s3 R Hreg Hf T) as (Hown & _ & w' & f' & x & Hf' & Hx & Hc & _).
  assert (Hs3 : forwarders s3 !! 0 = Some (0, Exited)) by (vm_compute in E; injection E as <-; reflexivity).
  rewrite Hs3 in Hf'. injection Hf' as <- <-. exists s2, lg, s3, x. split_and!; auto.
Defined.
End examples.
