(* ===== verification/DaemonAttach.v ===== *)
(** * Attaching a client

    The [Attach] and [Detach] handlers of [crates/amber/src/daemon.rs] and the
    forwarder threads they spawn, for the subscriptions one connection holds to one
    session.  The session is [Session], stepped by its own threads and by other
    clients; [step] adds the connection's read thread, one lock at a time ([Phase]),
    and its forwarders ([Forwarder]).  What the connection is sent for the session is
    a list of [event]s, each with the subscription it was written for. *)
From S2P Require Import Prelude.
From S2P Require RingBuf Modes.
From S2P Require Import Session.

(** What the client asked for, with what [suppress_backlog] said of it. *)
Record Request := mk_request {
  rq_resume : option (Z * Z);
  rq_skip_backlog : bool;
}.

Definition suppress_backlog (raw_client : bool) (agent : option bool) : bool :=
  raw_client && default false agent.

(** Control and data frames that name the session. *)
Inductive event :=
| Ev_AttachBacklog (epoch end_offset : Z) (full : bool)
| Ev_Data (bytes : list byte)
| Ev_Exit (status : result Z string).

(** A forwarder: before its replay, in [rx.recv()], with a chunk to write, waiting for
    the exit code, gone. *)
Inductive Forwarder :=
| Replaying
| Streaming
| Holding (chunk : list byte)
| Lingering
| Gone.

(** The read thread in the handler: after the old subscriptions were dropped, after
    [subscribe_from], after the announcement. *)
Inductive Phase :=
| Idle
| Released (rq : Request)
| Subscribed (rq : Request) (id : nat) (sub : Subscription)
| Announced (rq : Request) (id : nat) (sub : Subscription).

Record Conn := mk_conn {
  c_subscriptions : list nat;
  c_phase : Phase;
  c_forwarders : gmap nat (Request * Subscription * Forwarder);
  c_wire : list (nat * event);
  c_open : bool;
}.

Definition connected : Conn := mk_conn [] Idle ∅ [] true.

Definition with_phase (c : Conn) (p : Phase) : Conn :=
  mk_conn (c_subscriptions c) p (c_forwarders c) (c_wire c) (c_open c).
Definition with_subscriptions (c : Conn) (l : list nat) : Conn :=
  mk_conn l (c_phase c) (c_forwarders c) (c_wire c) (c_open c).
Definition with_forwarder (c : Conn) (id : nat) (f : Request * Subscription * Forwarder) : Conn :=
  mk_conn (c_subscriptions c) (c_phase c) (<[id := f]> (c_forwarders c)) (c_wire c) (c_open c).

(** [write_frame]: the network takes the frame whole or the socket is shut down. *)
Definition write_event (c : Conn) (id : nat) (e : event) (sent : bool) : Conn * bool :=
  if c_open c && sent
  then (mk_conn (c_subscriptions c) (c_phase c) (c_forwarders c) (c_wire c ++ [(id, e)]) true, true)
  else (mk_conn (c_subscriptions c) (c_phase c) (c_forwarders c) (c_wire c) false, false).

Definition unsubscribe_all (s : Session) (ids : list nat) : Session := fold_left unsubscribe ids s.

(** A subscription's receiver is dropped. *)
Definition hang_up (s : Session) (id : nat) : Session :=
  match s_chans s !! id with
  | Some ch => with_chans s (<[id := mk_channel (ch_queue ch) false (ch_taken ch)]> (s_chans s)) (s_batcher s)
  | None => s
  end.

(** ** The read thread *)

(** The connection's earlier subscriptions to the session are dropped. *)
Definition attach_release (s : Session) (c : Conn) (rq : Request) : Session * Conn :=
  (unsubscribe_all s (c_subscriptions c), with_phase (with_subscriptions c []) (Released rq)).

Definition attach_subscribe (s : Session) (c : Conn) (rq : Request) : nat * Subscription * (Session * Conn) :=
  let '(epoch, offset) := default (0, 0)%Z (rq_resume rq) in
  let '(id, sub, s') := subscribe_from s epoch offset in
  (id, sub, (s', with_phase (with_subscriptions c (c_subscriptions c ++ [id])) (Subscribed rq id sub))).

Definition announces (rq : Request) : bool := bool_decide (is_Some (rq_resume rq)) && negb (rq_skip_backlog rq).

Definition attach_announce (s : Session) (c : Conn) (rq : Request) (id : nat) (sub : Subscription) (sent : bool)
  : Session * Conn :=
  if announces rq then
    let '(c', ok) := write_event c id (Ev_AttachBacklog (RingBuf.epoch (s_ring s)) (sb_end_offset sub) (sb_full sub)) sent in
    if ok : bool then (s, with_phase c' (Announced rq id sub))
    else (hang_up (unsubscribe s id) id, with_phase c' Idle)
  else (s, with_phase c (Announced rq id sub)).

Definition attach_spawn (c : Conn) (rq : Request) (id : nat) (sub : Subscription) : Conn :=
  with_phase (with_forwarder c id (rq, sub, Replaying)) Idle.

Definition detach (s : Session) (c : Conn) : Session * Conn :=
  (unsubscribe_all s (c_subscriptions c), with_subscriptions c []).

(** ** A forwarder *)

Definition replay (sub : Subscription) : list byte :=
  match sb_preamble sub with [] => sb_backlog sub | _ => sb_preamble sub ++ sb_backlog sub end.

Definition replays (rq : Request) (sub : Subscription) : bool :=
  negb (rq_skip_backlog rq) && (bool_decide (is_Some (rq_resume rq)) || negb (bool_decide (replay sub = []))).

Definition set_forwarder (c : Conn) (id : nat) (rq : Request) (sub : Subscription) (f : Forwarder) : Conn :=
  with_forwarder c id (rq, sub, f).

(** To its next blocking point; [None] while it is blocked, and once it is gone.
    [sent]: the network's answer to a write; [late]: the two seconds are over. *)
Definition forward (s : Session) (c : Conn) (id : nat) (sent late : bool) : option (Session * Conn) :=
  '(rq, sub, f) ← c_forwarders c !! id;
  ch ← s_chans s !! id;
  match f with
  | Replaying =>
      if replays rq sub then
        let '(c', ok) := write_event c id (Ev_Data (replay sub)) sent in
        if ok : bool then Some (s, set_forwarder c' id rq sub Streaming)
        else Some (hang_up (unsubscribe s id) id, set_forwarder c' id rq sub Gone)
      else Some (s, set_forwarder c id rq sub Streaming)
  | Streaming =>
      match ch_queue ch with
      | chunk :: q =>
          Some (with_chans s (<[id := mk_channel q (ch_alive ch) (ch_taken ch ++ [chunk])]> (s_chans s)) (s_batcher s),
                set_forwarder c id rq sub (Holding chunk))
      | [] =>
          if bool_decide (id ∈ s_subs s) || bool_decide (in_delivery (s_batcher s) id) then None
          else Some (s, set_forwarder c id rq sub Lingering)
      end
  | Holding chunk =>
      let '(c', ok) := write_event c id (Ev_Data chunk) sent in
      if ok : bool then Some (s, set_forwarder c' id rq sub Streaming)
      else Some (hang_up s id, set_forwarder c' id rq sub Gone)
  | Lingering =>
      match s_exit s with
      | Some status =>
          let '(c', _) := write_event c id (Ev_Exit status) sent in
          Some (hang_up s id, set_forwarder c' id rq sub Gone)
      | None => if late then Some (hang_up s id, set_forwarder c id rq sub Gone) else None
      end
  | Gone => None
  end.

(** ** Steps *)

Definition owns (c : Conn) (id : nat) : Prop :=
  is_Some (c_forwarders c !! id)
  \/ exists rq sub, c_phase c = Subscribed rq id sub \/ c_phase c = Announced rq id sub.

(** Others do not receive from the connection's channels. *)
Definition untouched (c : Conn) (s s' : Session) : Prop :=
  forall id ch, owns c id -> s_chans s !! id = Some ch ->
    exists ch', s_chans s' !! id = Some ch' /\ ch_taken ch' = ch_taken ch /\ ch_alive ch' = ch_alive ch.

Inductive step : Session * Conn -> label -> Session * Conn -> Prop :=
| da_session s c l s' : Session.step s l s' -> untouched c s s' -> step (s, c) l (s', c)
| da_release s c rq : c_phase c = Idle -> step (s, c) Quiet (attach_release s c rq)
| da_subscribe s c rq id sub r epoch offset :
    c_phase c = Released rq -> default (0, 0)%Z (rq_resume rq) = (epoch, offset) -> is_u64 epoch -> is_u64 offset ->
    attach_subscribe s c rq = (id, sub, r) -> step (s, c) (Session.Subscribed id epoch offset sub) r
| da_announce s c rq id sub sent r :
    c_phase c = Subscribed rq id sub -> attach_announce s c rq id sub sent = r -> step (s, c) Quiet r
| da_spawn s c rq id sub : c_phase c = Announced rq id sub -> step (s, c) Quiet (s, attach_spawn c rq id sub)
| da_detach s c : c_phase c = Idle -> step (s, c) Quiet (detach s c)
| da_forward s c id sent late r : forward s c id sent late = Some r -> step (s, c) Quiet r
| da_cut s c : step (s, c) Quiet (s, mk_conn (c_subscriptions c) (c_phase c) (c_forwarders c) (c_wire c) false).

(** A connection opened at some moment of a session's run. *)
Inductive run (cap : nat) (epoch : Z) (history : list byte) : Session -> Log -> Conn -> Prop :=
| run_open s lg : Session.run cap epoch history s lg -> run cap epoch history s lg connected
| run_next s lg c l s' c' :
    run cap epoch history s lg c -> step (s, c) l (s', c') -> run cap epoch history s' (observe lg l) c'.

(** ** What a client makes of it

    The announcement's contract: the next data frame is the replay, which replaces
    ([full]) or continues what the client has, and later ones are live. *)
Record View := mk_view {
  v_text : list byte;
  v_epoch : Z;
  v_offset : Z;
  v_pending : option bool;
}.

Definition view_event (v : View) (e : event) : View :=
  match e with
  | Ev_AttachBacklog epoch end_offset full => mk_view (v_text v) epoch end_offset (Some full)
  | Ev_Data bytes =>
      match v_pending v with
      | Some true => mk_view bytes (v_epoch v) (v_offset v) None
      | Some false => mk_view (v_text v ++ bytes) (v_epoch v) (v_offset v) None
      | None => mk_view (v_text v ++ bytes) (v_epoch v) (v_offset v + Z.of_nat (length bytes))%Z None
      end
  | Ev_Exit _ => v
  end.

Definition view (v : View) (es : list event) : View := fold_left view_event es v.

(** The client shows the session's output without a gap up to its watermark, perhaps
    after the mode preamble of some moment. *)
Definition shows (v : View) (stream : list byte) : Prop :=
  exists (p : list byte) (from upto : nat),
    (p = [] \/ exists n, p = Modes.replay_preamble (Modes.feed Modes.new (take n stream)))
    /\ from <= upto <= length stream /\ v_offset v = Z.of_nat upto
    /\ v_text v = p ++ drop from (take upto stream).

Definition sent_to (id : nat) (wire : list (nat * event)) : list event :=
  map snd (List.filter (fun e => fst e =? id) wire).

(** What a subscription's client is to be sent, given the chunks its channel gave. *)
Definition announcement (epoch : Z) (rq : Request) (sub : Subscription) : list event :=
  if announces rq then [Ev_AttachBacklog epoch (sb_end_offset sub) (sb_full sub)] else [].
Definition replayed (rq : Request) (sub : Subscription) : list event :=
  if replays rq sub then [Ev_Data (replay sub)] else [].
Definition script (epoch : Z) (rq : Request) (sub : Subscription) (taken : list (list byte)) : list event :=
  announcement epoch rq sub ++ replayed rq sub ++ map Ev_Data taken.

(** ** What a subscription's client is sent *)

Section attach.
Context (cap : nat) (epoch : Z) (history : list byte).
Hypothesis cap_pos : 0 < cap.
Hypothesis cap_u64 : (Z.of_nat cap <= u64_max)%Z.

Definition progress (rq : Request) (sub : Subscription) (f : Forwarder) (taken : list (list byte)) (es : list event) : Prop :=
  match f with
  | Replaying => taken = [] /\ es = announcement epoch rq sub
  | Streaming | Lingering => es = script epoch rq sub taken
  | Holding chunk => exists t, taken = t ++ [chunk] /\ es = script epoch rq sub t
  | Gone => exists ending, (ending = [] \/ exists status, ending = [Ev_Exit status])
              /\ es `prefix_of` script epoch rq sub taken ++ ending
  end.

Definition known (lg : Log) (id : nat) (rq : Request) (sub : Subscription) : Prop :=
  exists en, en ∈ lg_entries lg /\ en_id en = id /\ en_sub en = sub
    /\ (en_epoch en, en_offset en) = default (0, 0)%Z (rq_resume rq).

Record conn_ok (s : Session) (lg : Log) (c : Conn) : Prop := mk_conn_ok {
  co_forwarders : forall id rq sub f, c_forwarders c !! id = Some (rq, sub, f) ->
    known lg id rq sub /\ exists ch, s_chans s !! id = Some ch /\ (f <> Gone -> ch_alive ch = true)
      /\ progress rq sub f (ch_taken ch) (sent_to id (c_wire c));
  co_phase : forall id rq sub, c_phase c = Subscribed rq id sub \/ c_phase c = Announced rq id sub ->
    known lg id rq sub /\ c_forwarders c !! id = None
    /\ exists ch, s_chans s !! id = Some ch /\ ch_alive ch = true /\ ch_taken ch = [];
  co_subscribed : forall id rq sub, c_phase c = Subscribed rq id sub -> sent_to id (c_wire c) = [];
  co_announced : forall id rq sub, c_phase c = Announced rq id sub -> sent_to id (c_wire c) = announcement epoch rq sub;
  co_wire : forall id e, (id, e) ∈ c_wire c -> id < s_next_sub_id s;
  co_ids : forall id, is_Some (c_forwarders c !! id) -> id < s_next_sub_id s;
}.

Lemma sent_to_app id wire i e :
  sent_to id (wire ++ [(i, e)]) = sent_to id wire ++ (if i =? id then [e] else []).
Proof. unfold sent_to. rewrite List.filter_app, map_app. simpl. by destruct (i =? id). Qed.

Lemma sent_to_fresh n wire : (forall id e, (id, e) ∈ wire -> id < n) -> sent_to n wire = [].
Proof.
  intros H. unfold sent_to. induction wire as [|[i e] wire IH]; [done|]. simpl.
  assert (i < n) by (apply (H i e); by left). destruct (i =? n) eqn:E; [apply Nat.eqb_eq in E; lia|].
  apply IH. intros id e' He. apply (H id e'). by right.
Qed.

Lemma known_observe lg l id rq sub : known lg id rq sub -> known (observe lg l) id rq sub.
Proof.
  intros (en & Hen & H). destruct l as [|f|i e o x]; simpl; [by exists en| |].
  - eexists. split; [apply list_elem_of_fmap_2; exact Hen|]. done.
  - exists en. split; [by apply elem_of_app; left|done].
Qed.

Lemma session_next s l s' : Session.step s l s' -> s_next_sub_id s <= s_next_sub_id s'.
Proof.
  destruct 1; try done.
  - unfold publish in *. destruct (RingBuf.push _ _); naive_solver.
  - unfold publish in *. destruct (RingBuf.push _ _); naive_solver.
  - unfold subscribe_from in *. destruct (if _ : bool then _ else _) as [? ?]. simplify_eq. simpl. lia.
Qed.

Lemma unsubscribe_all_same s ids :
  s_chans (unsubscribe_all s ids) = s_chans s /\ s_next_sub_id (unsubscribe_all s ids) = s_next_sub_id s.
Proof. revert s. induction ids as [|id ids IH]; intros s; [done|]. simpl. apply (IH (unsubscribe s id)). Qed.

Lemma run_unsubscribe_all s lg ids :
  Session.run cap epoch history s lg -> Session.run cap epoch history (unsubscribe_all s ids) lg.
Proof.
  revert s. induction ids as [|id ids IH]; intros s R; [done|]. simpl. apply IH.
  by apply (run_step _ _ _ s lg Quiet _ R), st_unsubscribe.
Qed.

Lemma run_hang_up s lg id :
  Session.run cap epoch history s lg -> Session.run cap epoch history (hang_up s id) lg.
Proof.
  intros R. unfold hang_up. destruct (s_chans s !! id) as [ch|] eqn:E; [|done].
  by apply (run_step _ _ _ s lg Quiet _ R), st_drop.
Qed.

Lemma hang_up_same s id : s_next_sub_id (hang_up s id) = s_next_sub_id s
  /\ forall i ch, s_chans s !! i = Some ch -> exists ch', s_chans (hang_up s id) !! i = Some ch' /\ ch_taken ch' = ch_taken ch
       /\ (i <> id -> ch' = ch).
Proof.
  unfold hang_up. destruct (s_chans s !! id) as [ch0|] eqn:E; [|by eauto]. simpl. split; [done|]. intros i ch Hi.
  destruct (decide (i = id)) as [->|]; [rewrite lookup_insert_eq|rewrite lookup_insert_ne by done; by eauto].
  simplify_eq. by eexists.
Qed.

(** *** The session moves *)
Lemma ok_session s s' lg lg' c :
  conn_ok s lg c -> untouched c s s' -> s_next_sub_id s <= s_next_sub_id s' ->
  (forall id rq sub, known lg id rq sub -> known lg' id rq sub) -> conn_ok s' lg' c.
Proof.
  intros [H1 H2 H3 H4 H5 H6] U Hn K. split; try done.
  - intros id rq sub f Hf. destruct (H1 id rq sub f Hf) as (Hk & ch & Hch & Ha & Hp). split; [auto|].
    destruct (U id ch) as (ch' & Hch' & Et & Ea); [left; eauto|done|]. exists ch'. by rewrite Et, Ea.
  - intros id rq sub Hp. destruct (H2 id rq sub Hp) as (Hk & Hf & ch & Hch & Ha & Ht). split; [auto|]. split; [done|].
    destruct (U id ch) as (ch' & Hch' & Et & Ea); [right; eauto|done|]. exists ch'. by rewrite Et, Ea.
  - intros id e He. specialize (H5 id e He). lia.
  - intros id Hid. specialize (H6 id Hid). lia.
Qed.

Lemma untouched_chans c s s' : s_chans s' = s_chans s -> untouched c s s'.
Proof. intros E id ch _ Hch. rewrite E. by exists ch. Qed.

(** *** The connection moves *)
Lemma ok_conn s lg c c' :
  conn_ok s lg c -> c_forwarders c' = c_forwarders c -> c_wire c' = c_wire c -> c_phase c' = c_phase c -> conn_ok s lg c'.
Proof. intros [H1 H2 H3 H4 H5 H6] E1 E2 E3. split; rewrite ?E1, ?E2, ?E3; done. Qed.

Lemma ok_idle s lg c c' :
  conn_ok s lg c -> c_forwarders c' = c_forwarders c -> c_wire c' = c_wire c ->
  (c_phase c' = Idle \/ exists rq, c_phase c' = Released rq) -> conn_ok s lg c'.
Proof.
  intros [H1 H2 H3 H4 H5 H6] E1 E2 E3.
  split; rewrite ?E1, ?E2; try done; destruct E3 as [-> |[rq0 ->]]; try (by intros ? ? ? [|]); by intros.
Qed.

(** One forwarder moves, perhaps writing an event for its subscription. *)
Lemma ok_forward s s' lg c id rq sub f f' es :
  conn_ok s lg c -> c_forwarders c !! id = Some (rq, sub, f) -> s_next_sub_id s' = s_next_sub_id s ->
  (forall i ch, i <> id -> s_chans s !! i = Some ch -> s_chans s' !! i = Some ch) ->
  (forall ch, s_chans s !! id = Some ch -> progress rq sub f (ch_taken ch) (sent_to id (c_wire c)) -> (f <> Gone -> ch_alive ch = true) ->
     exists ch', s_chans s' !! id = Some ch' /\ (f' <> Gone -> ch_alive ch' = true)
       /\ progress rq sub f' (ch_taken ch') (sent_to id (c_wire c) ++ es)) ->
  forall open_, conn_ok s' lg (mk_conn (c_subscriptions c) (c_phase c) (<[id := (rq, sub, f')]> (c_forwarders c))
    (c_wire c ++ map (pair id) es) open_).
Proof.
  intros [H1 H2 H3 H4 H5 H6] Hf Hn Ho Hp open_.
  assert (Hwire : forall i, sent_to i (c_wire c ++ map (pair id) es) = sent_to i (c_wire c) ++ (if i =? id then es else [])).
  { intros i. clear. revert c. intros c. generalize (c_wire c). induction es as [|e es IH]; intros w; simpl.
    - rewrite app_nil_r. destruct (i =? id); by rewrite app_nil_r.
    - rewrite cons_middle, app_assoc, IH, sent_to_app, Nat.eqb_sym. destruct (i =? id); by rewrite <- ?app_assoc. }
  assert (Hne : forall i rq0 sub0, c_phase c = Subscribed rq0 i sub0 \/ c_phase c = Announced rq0 i sub0 -> i <> id).
  { intros i rq0 sub0 Hph ->. destruct (H2 _ _ _ Hph) as (_ & Hnone & _). congruence. }
  split; simpl.
  - intros i rq0 sub0 f0 Hi. destruct (decide (i = id)) as [->|Hd].
    + rewrite lookup_insert_eq in Hi. injection Hi as <- <- <-. destruct (H1 id rq sub f Hf) as (Hk & ch & Hch & Ha & Hpr).
      split; [done|]. rewrite Hwire, Nat.eqb_refl. by apply (Hp ch).
    + rewrite lookup_insert_ne in Hi by done. destruct (H1 i rq0 sub0 f0 Hi) as (Hk & ch & Hch & Ha & Hpr).
      split; [done|]. exists ch. rewrite Hwire. rewrite (proj2 (Nat.eqb_neq _ _) Hd), app_nil_r. split_and!; auto.
  - intros i rq0 sub0 Hph. pose proof (Hne _ _ _ Hph) as Hd. destruct (H2 i rq0 sub0 Hph) as (Hk & Hnone & ch & Hch & ?).
    split; [done|]. rewrite lookup_insert_ne by done. split; [done|]. exists ch. split; [by apply Ho|done].
  - intros i rq0 sub0 Hph. rewrite Hwire. assert (Hd : i <> id) by (eapply Hne; eauto). apply Nat.eqb_neq in Hd as ->.
    rewrite app_nil_r. eauto.
  - intros i rq0 sub0 Hph. rewrite Hwire. assert (Hd : i <> id) by (eapply Hne; eauto). apply Nat.eqb_neq in Hd as ->.
    rewrite app_nil_r. eauto.
  - intros i e [He|He]%elem_of_app; rewrite Hn; [eauto|]. apply list_elem_of_fmap in He as (e0 & [= -> ->] & _). apply H6. eauto.
  - intros i Hi. rewrite Hn. destruct (decide (i = id)) as [->|]; [eauto|]. rewrite lookup_insert_ne in Hi by done. auto.
Qed.

Lemma ok_forward_quiet s s' lg c id rq sub f f' :
  conn_ok s lg c -> c_forwarders c !! id = Some (rq, sub, f) -> s_next_sub_id s' = s_next_sub_id s ->
  (forall i ch, i <> id -> s_chans s !! i = Some ch -> s_chans s' !! i = Some ch) ->
  (forall ch, s_chans s !! id = Some ch -> progress rq sub f (ch_taken ch) (sent_to id (c_wire c)) -> (f <> Gone -> ch_alive ch = true) ->
     exists ch', s_chans s' !! id = Some ch' /\ (f' <> Gone -> ch_alive ch' = true)
       /\ progress rq sub f' (ch_taken ch') (sent_to id (c_wire c))) ->
  forall open_, conn_ok s' lg (mk_conn (c_subscriptions c) (c_phase c) (<[id := (rq, sub, f')]> (c_forwarders c)) (c_wire c) open_).
Proof.
  intros O Hf Hn Ho Hp open_. pose proof (ok_forward s s' lg c id rq sub f f' [] O Hf Hn Ho) as H.
  simpl in H. rewrite !app_nil_r in H. by apply H.
Qed.

Lemma write_event_cases c id e sent :
  (exists c', write_event c id e sent = (c', true) /\ c' = mk_conn (c_subscriptions c) (c_phase c) (c_forwarders c) (c_wire c ++ [(id, e)]) true)
  \/ write_event c id e sent = (mk_conn (c_subscriptions c) (c_phase c) (c_forwarders c) (c_wire c) false, false).
Proof. unfold write_event. destruct (c_open c && sent); [left; eauto|by right]. Qed.

(** A receiver dropped: the channels of others and what was taken stay. *)
Lemma hung_up s id i ch : i <> id -> s_chans s !! i = Some ch -> s_chans (hang_up s id) !! i = Some ch.
Proof. intros Hne Hi. destruct (proj2 (hang_up_same s id) i ch Hi) as (ch' & H & _ & E). by rewrite (E Hne) in H. Qed.

(** A forwarder that ends has sent a beginning of its script. *)
Lemma ok_gone s s1 lg c id rq sub f es :
  conn_ok s lg c -> c_forwarders c !! id = Some (rq, sub, f) -> s_chans s1 = s_chans s -> s_next_sub_id s1 = s_next_sub_id s ->
  (forall ch, s_chans s !! id = Some ch -> exists ending, (ending = [] \/ exists status, ending = [Ev_Exit status])
     /\ (sent_to id (c_wire c) ++ es) `prefix_of` script epoch rq sub (ch_taken ch) ++ ending) ->
  forall open_, conn_ok (hang_up s1 id) lg (mk_conn (c_subscriptions c) (c_phase c) (<[id := (rq, sub, Gone)]> (c_forwarders c))
    (c_wire c ++ map (pair id) es) open_).
Proof.
  intros O Hf Ec En He open_. destruct (hang_up_same s1 id) as [Hn Hs]. apply (ok_forward s (hang_up s1 id) lg c id rq sub f Gone es); try done.
  - by rewrite Hn.
  - intros i ch Hne Hi. apply hung_up; [done|]. by rewrite Ec.
  - intros ch Hch _ _. destruct (Hs id ch) as (ch' & Hch' & Et & _); [by rewrite Ec|]. exists ch'. rewrite Et. split_and!; [done|done|].
    by apply He.
Qed.

Lemma ok_gone_quiet s s1 lg c id rq sub f :
  conn_ok s lg c -> c_forwarders c !! id = Some (rq, sub, f) -> s_chans s1 = s_chans s -> s_next_sub_id s1 = s_next_sub_id s ->
  (forall ch, s_chans s !! id = Some ch -> sent_to id (c_wire c) `prefix_of` script epoch rq sub (ch_taken ch)) ->
  forall open_, conn_ok (hang_up s1 id) lg (mk_conn (c_subscriptions c) (c_phase c) (<[id := (rq, sub, Gone)]> (c_forwarders c)) (c_wire c) open_).
Proof.
  intros O Hf Ec En He open_. pose proof (ok_gone s s1 lg c id rq sub f [] O Hf Ec En) as H. simpl in H. rewrite !app_nil_r in H.
  apply H. intros ch Hch. exists []. rewrite app_nil_r. split; [by left|auto].
Qed.

Lemma script_snoc rq sub taken chunk : script epoch rq sub (taken ++ [chunk]) = script epoch rq sub taken ++ [Ev_Data chunk].
Proof. unfold script. rewrite map_app. simpl. by rewrite <- !app_assoc. Qed.

Lemma script_nil rq sub : script epoch rq sub [] = announcement epoch rq sub ++ replayed rq sub.
Proof. unfold script. simpl. by rewrite app_nil_r. Qed.

Lemma forward_ok s lg c id sent late s' c' :
  Session.run cap epoch history s lg -> conn_ok s lg c -> forward s c id sent late = Some (s', c') ->
  Session.run cap epoch history s' lg /\ conn_ok s' lg c'.
Proof.
  intros R O H. unfold forward in H.
  destruct (c_forwarders c !! id) as [[[rq sub] f]|] eqn:Hf; [|done]. simpl in H.
  destruct (s_chans s !! id) as [ch|] eqn:Hch; [|done]. simpl in H.
  destruct (co_forwarders _ _ _ O id rq sub f Hf) as (_ & ch0 & Hch0 & Halive & Hp). rewrite Hch in Hch0. injection Hch0 as <-.
  destruct f as [| |chunk| |]; simpl in Hp.
  - destruct Hp as [Ht Hp]. unfold replays in H. fold (replays rq sub) in H. destruct (replays rq sub) eqn:Hr.
    + destruct (write_event_cases c id (Ev_Data (replay sub)) sent) as [(c1 & E & ->)|E]; rewrite E in H; injection H as <- <-.
      * split; [done|]. apply (ok_forward s s lg c id rq sub Replaying Streaming [Ev_Data (replay sub)]); try done.
        intros ch1 Hch1 _ _. exists ch. split; [done|]. split; [auto|]. simpl. rewrite Ht, Hp, script_nil.
        unfold replayed. by rewrite Hr.
      * split; [by apply run_hang_up, (run_step _ _ _ s lg Quiet _ R), st_unsubscribe|].
        apply (ok_gone_quiet s (unsubscribe s id) lg c id rq sub Replaying); try done.
        intros ch1 Hch1. rewrite Hch in Hch1. injection Hch1 as <-. rewrite Ht, Hp, script_nil. by apply prefix_app_r.
    + injection H as <- <-. split; [done|]. apply (ok_forward_quiet s s lg c id rq sub Replaying Streaming); try done.
      intros ch1 Hch1 _ _. exists ch. split; [done|]. split; [auto|]. simpl. rewrite Ht, Hp, script_nil.
      unfold replayed. by rewrite Hr, app_nil_r.
  - destruct (ch_queue ch) as [|chunk q] eqn:Hq.
    + destruct (_ || _); [done|]. injection H as <- <-. split; [done|].
      apply (ok_forward_quiet s s lg c id rq sub Streaming Lingering); try done.
      intros ch1 Hch1 _ _. exists ch. by split_and!; auto.
    + injection H as <- <-. assert (Ha : ch_alive ch = true) by (by apply Halive). rewrite Ha. split.
      * apply (run_step _ _ _ s lg Quiet _ R). by apply (st_take s id ch chunk q).
      * apply (ok_forward_quiet s _ lg c id rq sub Streaming (Holding chunk)); try done.
        -- intros i ch1 Hne Hi. simpl. by rewrite lookup_insert_ne.
        -- intros ch1 Hch1 _ _. eexists. simpl. split; [apply lookup_insert_eq|]. split; [done|]. simpl. exists (ch_taken ch). done.
  - destruct Hp as (t & Ht & Hp).
    destruct (write_event_cases c id (Ev_Data chunk) sent) as [(c1 & E & ->)|E]; rewrite E in H; injection H as <- <-.
    + split; [done|]. apply (ok_forward s s lg c id rq sub (Holding chunk) Streaming [Ev_Data chunk]); try done.
      intros ch1 Hch1 _ _. exists ch. split; [done|]. split; [auto|]. simpl. by rewrite Ht, Hp, script_snoc.
    + split; [by apply run_hang_up|]. apply (ok_gone_quiet s s lg c id rq sub (Holding chunk)); try done.
      intros ch1 Hch1. rewrite Hch in Hch1. injection Hch1 as <-. rewrite Ht, Hp, script_snoc. by apply prefix_app_r.
  - assert (Hall : forall ch1, s_chans s !! id = Some ch1 -> sent_to id (c_wire c) `prefix_of` script epoch rq sub (ch_taken ch1)).
    { intros ch1 Hch1. rewrite Hch in Hch1. injection Hch1 as <-. by rewrite Hp. }
    destruct (s_exit s) as [status|].
    + destruct (write_event_cases c id (Ev_Exit status) sent) as [(c1 & E & ->)|E]; rewrite E in H; injection H as <- <-;
        (split; [by apply run_hang_up|]); [|by apply (ok_gone_quiet s s lg c id rq sub Lingering)].
      apply (ok_gone s s lg c id rq sub Lingering [Ev_Exit status]); try done.
      intros ch1 Hch1. rewrite Hch in Hch1. injection Hch1 as <-. exists [Ev_Exit status]. split; [by eauto|]. by rewrite Hp.
    + destruct late; [|done]. injection H as <- <-. split; [by apply run_hang_up|]. by apply (ok_gone_quiet s s lg c id rq sub Lingering).
  - done.
Qed.

Lemma subscribe_spec s e o id sub s' :
  subscribe_from s e o = (id, sub, s') ->
  id = s_next_sub_id s /\ s_next_sub_id s' = s_next_sub_id s + 1 /\ s_chans s' = <[id := mk_channel [] true []]> (s_chans s).
Proof. unfold subscribe_from. destruct (if _ : bool then _ else _) as [? ?]. by intros [= <- <- <-]. Qed.

Lemma subscribe_ok s lg c rq id sub s' c' e o :
  Session.run cap epoch history s lg -> conn_ok s lg c -> c_phase c = Released rq ->
  default (0, 0)%Z (rq_resume rq) = (e, o) -> is_u64 e -> is_u64 o -> attach_subscribe s c rq = (id, sub, (s', c')) ->
  Session.run cap epoch history s' (observe lg (Session.Subscribed id e o sub)) /\ conn_ok s' (observe lg (Session.Subscribed id e o sub)) c'.
Proof.
  intros R O Hp Hd He Ho H. unfold attach_subscribe in H. rewrite Hd in H.
  destruct (subscribe_from s e o) as [[id0 sub0] s0] eqn:E. injection H as <- <- <- <-.
  destruct (subscribe_spec _ _ _ _ _ _ E) as (Hid & Hn & Hc).
  split; [by apply (run_step _ _ _ _ _ _ _ R), st_subscribe|].
  assert (U : untouched c s s0).
  { intros i ch [Hi|(rq1 & sub1 & [Hi|Hi])] Hch; [|congruence..]. exists ch. rewrite Hc, lookup_insert_ne; [done|].
    apply (co_ids _ _ _ O) in Hi. lia. }
  assert (O' : conn_ok s0 (observe lg (Session.Subscribed id0 e o sub0)) c).
  { apply (ok_session s s0 lg); try done; [lia|]. intros. by apply known_observe. }
  destruct O' as [H1 H2 H3 H4 H5 H6]. split; simpl; try done.
  - intros i rq1 sub1 [[= -> -> ->]|[=]]. split_and!.
    + eexists. split; [apply elem_of_app; right; by left|]. simpl. by rewrite Hd.
    + apply eq_None_not_Some. intros Hi. apply (co_ids _ _ _ O) in Hi. lia.
    + eexists. rewrite Hc. by rewrite lookup_insert_eq.
  - intros i rq1 sub1 [= -> -> ->]. rewrite Hid. apply sent_to_fresh. intros j e0 Hin. by apply (co_wire _ _ _ O j e0).
Qed.

Lemma announce_ok s lg c rq id sub sent s' c' :
  Session.run cap epoch history s lg -> RingBuf.epoch (s_ring s) = epoch -> conn_ok s lg c -> c_phase c = Subscribed rq id sub ->
  attach_announce s c rq id sub sent = (s', c') -> Session.run cap epoch history s' lg /\ conn_ok s' lg c'.
Proof.
  intros R Hring O Hp H. unfold attach_announce in H. pose proof (co_subscribed _ _ _ O id rq sub Hp) as Hnil.
  destruct (co_phase _ _ _ O id rq sub (or_introl Hp)) as (Hk & Hnone & ch & Hch & Ha & Ht).
  assert (Hlt : id < s_next_sub_id s).
  { pose proof (session_run_inv cap epoch history cap_pos cap_u64 s lg R) as I. apply (iv_ids _ _ _ _ I). eauto. }
  assert (Hph : forall w, sent_to id w = announcement epoch rq sub ->
    (forall i e, (i, e) ∈ w -> i < s_next_sub_id s) -> (forall i, i <> id -> sent_to i w = sent_to i (c_wire c)) -> forall o,
    conn_ok s lg (mk_conn (c_subscriptions c) (Announced rq id sub) (c_forwarders c) w o)).
  { intros w Hw Hin Hoth o. destruct O as [H1 H2 H3 H4 H5 H6]. split; simpl; try done.
    - intros i rq1 sub1 f Hf. destruct (H1 i rq1 sub1 f Hf) as (? & ch1 & ? & ? & ?). split; [done|]. exists ch1.
      rewrite Hoth by congruence. done.
    - intros i rq1 sub1 [[=]|[= -> -> ->]]. eauto.
    - intros i rq1 sub1 [= -> -> ->]. done. }
  destruct (announces rq) eqn:Han.
  - destruct (write_event_cases c id (Ev_AttachBacklog (RingBuf.epoch (s_ring s)) (sb_end_offset sub) (sb_full sub)) sent)
      as [(c1 & E & ->)|E]; rewrite E in H; injection H as <- <-.
    + split; [done|]. apply Hph; simpl.
      * rewrite sent_to_app, Hnil, Nat.eqb_refl, Hring. unfold announcement. by rewrite Han.
      * intros i e [Hi|[= -> ->]%list_elem_of_singleton]%elem_of_app; [by apply (co_wire _ _ _ O i e)|done].
      * intros i Hne. rewrite sent_to_app. rewrite Nat.eqb_sym, (proj2 (Nat.eqb_neq _ _) Hne). by rewrite app_nil_r.
    + split; [by apply run_hang_up, (run_step _ _ _ _ _ Quiet _ R), st_unsubscribe|].
      apply (ok_session s _ lg); try done; [apply (ok_idle s lg c); try done; by left| |].
      * intros i ch1 [Hi|(rq1 & sub1 & [Hi|Hi])] Hch1; [|done..]. exists ch1. split_and!; try done. apply hung_up; [|done].
        intros ->. simpl in Hi. rewrite Hnone in Hi. by destruct Hi.
      * by rewrite (proj1 (hang_up_same (unsubscribe s id) id)).
  - injection H as <- <-. split; [done|]. apply Hph; [|apply (co_wire _ _ _ O)|done].
    rewrite Hnil. unfold announcement. by rewrite Han.
Qed.

Lemma conn_step_ok s lg c l s' c' :
  Session.run cap epoch history s lg -> conn_ok s lg c -> step (s, c) l (s', c') ->
  Session.run cap epoch history s' (observe lg l) /\ conn_ok s' (observe lg l) c'.
Proof.
  intros R O H. inversion H as [s0 c0 l0 s1 Hs U|s0 c0 rq Hp|s0 c0 rq id sub r e o Hp Hd He Ho E|s0 c0 rq id sub sent r Hp E
    |s0 c0 rq id sub Hp|s0 c0 Hp|s0 c0 id sent late r Hf|s0 c0]; subst; simpl.
  - split; [by apply (run_step _ _ _ _ _ _ _ R)|]. apply (ok_session s s' lg); try done; [by eapply session_next|].
    intros. by apply known_observe.
  - destruct (unsubscribe_all_same s (c_subscriptions c)) as [Ec En]. split; [by apply run_unsubscribe_all|].
    apply (ok_session s _ lg); try done; [|by apply untouched_chans|lia]. apply (ok_idle s lg c); try done. right. by eexists.
  - by eapply subscribe_ok.
  - eapply announce_ok; try done.
    pose proof (session_run_inv cap epoch history cap_pos cap_u64 s lg R) as I.
    apply (ro_epoch _ _ _ _ (iv_ring _ _ _ _ I)).
  - split; [done|]. destruct (co_phase _ _ _ O id rq sub (or_intror Hp)) as (Hk & Hnone & ch & Hch & Ha & Ht).
    assert (Hlt : id < s_next_sub_id s').
    { pose proof (session_run_inv cap epoch history cap_pos cap_u64 s' lg R) as I. apply (iv_ids _ _ _ _ I). eauto. }
    pose proof (co_announced _ _ _ O id rq sub Hp) as Hw. destruct O as [H1 H2 H3 H4 H5 H6]. split; simpl; try done.
    + intros i rq1 sub1 f Hf. destruct (decide (i = id)) as [->|].
      * rewrite lookup_insert_eq in Hf. injection Hf as <- <- <-. split; [done|]. exists ch. by split_and!.
      * rewrite lookup_insert_ne in Hf by done. eauto.
    + by intros i rq1 sub1 [|].
    + intros i Hi. destruct (decide (i = id)) as [->|]; [done|]. rewrite lookup_insert_ne in Hi by done. auto.
  - destruct (unsubscribe_all_same s (c_subscriptions c)) as [Ec En]. split; [by apply run_unsubscribe_all|].
    apply (ok_session s _ lg); try done; [|by apply untouched_chans|lia]. by apply (ok_conn s lg c).
  - by eapply forward_ok.
  - split; [done|]. by apply (ok_conn s' lg c).
Qed.

Lemma conn_run_ok s lg c : run cap epoch history s lg c -> Session.run cap epoch history s lg /\ conn_ok s lg c.
Proof.
  induction 1 as [s lg R|s lg c l s' c' _ [R O] Hs]; [|by eapply conn_step_ok]. split; [done|].
  split; simpl; intros *; rewrite ?lookup_empty; try (by intros [|]); try done.
  all: try (by intros ?%elem_of_nil); by intros [].

Qed.

Lemma view_live t : forall v, v_pending v = None ->
  view v (map Ev_Data t)
  = mk_view (v_text v ++ concat t) (v_epoch v) (v_offset v + Z.of_nat (length (concat t)))%Z None.
Proof.
  induction t as [|b t IH]; intros [x e o p] Hp; simpl in *; subst p.
  - by rewrite app_nil_r, Z.add_0_r.
  - rewrite IH by done. simpl. by rewrite length_app, <- app_assoc, Nat2Z.inj_add, Z.add_assoc.
Qed.

(** What a prefix of a script shows once the replay came. *)
Lemma view_script rq sub taken ending es v e o :
  rq_resume rq = Some (e, o) -> rq_skip_backlog rq = false -> (ending = [] \/ exists status, ending = [Ev_Exit status]) ->
  es `prefix_of` script epoch rq sub taken ++ ending -> es <> [] -> v_pending (view v es) = None ->
  exists t, t `prefix_of` taken
    /\ view v es = mk_view ((if sb_full sub then replay sub else v_text v ++ replay sub) ++ concat t) epoch
         (sb_end_offset sub + Z.of_nat (length (concat t)))%Z None
    /\ (es = script epoch rq sub taken -> t = taken).
Proof.
  intros Hr Hs He Hp Hne Hpend. unfold script, announcement, replayed, announces, replays in *. rewrite Hr, Hs in *. simpl in *.
  destruct es as [|e1 es]; [done|]. apply prefix_cons_inv_2 in Hp as Hp1. apply prefix_cons_inv_1 in Hp as ->.
  destruct es as [|e2 es]; [done|]. apply prefix_cons_inv_2 in Hp1 as Hp2. apply prefix_cons_inv_1 in Hp1 as ->.
  assert (H : exists t, t `prefix_of` taken /\ (es = map Ev_Data t \/ exists status, es = map Ev_Data t ++ [Ev_Exit status])
    /\ (es = map Ev_Data taken -> t = taken)).
  { clear Hpend Hne. revert es Hp2. induction taken as [|b taken IH]; intros es H; simpl in H.
    - exists []. split; [done|]. split; [|done]. destruct He as [-> |[status ->]].
      + apply prefix_nil_inv in H as ->. by left.
      + destruct es as [|e3 es]; [by left|]. apply prefix_cons_inv_2 in H as H1. apply prefix_cons_inv_1 in H as ->.
        apply prefix_nil_inv in H1 as ->. right. by eexists.
    - destruct es as [|e3 es]; [exists []; split; [apply prefix_nil|]; split; [by left|done]|].
      apply prefix_cons_inv_2 in H as H1. apply prefix_cons_inv_1 in H as ->. destruct (IH es H1) as (t & Ht & Hes & Heq).
      exists (b :: t). split; [by apply prefix_cons|]. split.
      + destruct Hes as [-> |[status ->]]; [by left|right; by eexists].
      + intros [= E]. by rewrite (Heq E). }
  destruct H as (t & Ht & Hes & Heq). exists t. split; [done|]. split; [|intros [= E]; auto].
  change (view v (Ev_AttachBacklog epoch (sb_end_offset sub) (sb_full sub) :: Ev_Data (replay sub) :: es))
    with (view (view_event (view_event v (Ev_AttachBacklog epoch (sb_end_offset sub) (sb_full sub))) (Ev_Data (replay sub))) es).
  assert (Hl : forall v0, v_pending v0 = None -> view v0 es = view v0 (map Ev_Data t)).
  { intros v0 _. destruct Hes as [-> |[status ->]]; [done|]. unfold view. by rewrite fold_left_app. }
  rewrite Hl by (simpl; by destruct (sb_full sub)). rewrite view_live by (simpl; by destruct (sb_full sub)).
  simpl. by destruct (sb_full sub).
Qed.
End attach.

Lemma replay_app sub : replay sub = sb_preamble sub ++ sb_backlog sub.
Proof. unfold replay. by destruct (sb_preamble sub). Qed.

Lemma progress_prefix epoch rq sub f taken es :
  progress epoch rq sub f taken es ->
  exists ending, (ending = [] \/ exists status, ending = [Ev_Exit status]) /\ es `prefix_of` script epoch rq sub taken ++ ending.
Proof.
  destruct f as [| |chunk| |]; simpl; [intros [-> ->]|intros ->|intros (t & -> & ->)|intros ->|done];
    (exists []; split; [by left|]); rewrite app_nil_r; try done.
  - unfold script. by apply prefix_app_r.
  - rewrite script_snoc. by apply prefix_app_r.
Qed.

Lemma sent_to_only id wire : (forall i ev, (i, ev) ∈ wire -> i = id) -> sent_to id wire = map snd wire.
Proof.
  intros H. unfold sent_to. induction wire as [|[i ev] wire IH]; [done|]. simpl.
  rewrite (H i ev) by (by left). rewrite Nat.eqb_refl. simpl. f_equal. apply IH. intros j e Hj. apply (H j e). by right.
Qed.

Lemma stitch {A} (l : list A) from off : from <= off -> off <= length l -> drop from (take off l) ++ drop off l = drop from l.
Proof.
  intros H1 H2. rewrite <- (take_drop off l) at 3. rewrite drop_app_le; [done|]. rewrite length_take. lia.
Qed.

Lemma prefix_take {A} (l k : list A) : l `prefix_of` k -> take (length l) k = l.
Proof. intros [m ->]. by rewrite take_app_length. Qed.

(** The text after a replay continues the stream. *)
Lemma shows_replay cap epoch en v t stream e o :
  backlog_ok cap epoch en -> (en_before en ++ concat t) `prefix_of` stream -> (en_epoch en, en_offset en) = (e, o) ->
  (e = epoch -> v_offset v = o /\ shows v stream) ->
  shows (mk_view ((if sb_full (en_sub en) then replay (en_sub en) else v_text v ++ replay (en_sub en)) ++ concat t) epoch
           (sb_end_offset (en_sub en) + Z.of_nat (length (concat t)))%Z None) stream.
Proof.
  intros [Hend Hb] Hp [= <- <-] Hv. rewrite replay_app. destruct (sb_full (en_sub en)).
  - destruct Hb as [-> ->].
    exists (Modes.replay_preamble (Modes.feed Modes.new (en_before en))), (length (en_before en) - cap), (length (en_before en ++ concat t)).
    split_and!; simpl.
    + right. exists (length (en_before en)). do 2 f_equal. symmetry. apply prefix_take. etrans; [|exact Hp]. by apply prefix_app_r.
    + rewrite length_app. lia.
    + by apply prefix_length.
    + rewrite Hend, length_app. lia.
    + rewrite (prefix_take _ _ Hp), drop_app_le by lia. unfold lastn. by rewrite <- app_assoc.
  - destruct Hb as (He & -> & off & Hoff & Hle & ->). destruct (Hv He) as [Hvo (p & from & upto & Hpre & [Hfu Hul] & Hu & Ht)].
    assert (upto = off) as -> by lia. exists p, from, (length (en_before en ++ concat t)). split_and!; simpl; [done| | | |].
    + rewrite length_app. lia.
    + by apply prefix_length.
    + rewrite Hend, length_app. lia.
    + rewrite (prefix_take _ _ Hp), Ht, <- !app_assoc. f_equal.
      assert (take off stream = take off (en_before en)) as ->.
      { destruct Hp as [k ->]. by rewrite <- app_assoc, take_app_le by lia. }
      rewrite drop_app_le by lia. rewrite app_assoc. f_equal. by apply stitch.
Qed.


(** ** Runs of one session and one connection *)

(** The batcher takes nothing out of a channel. *)
Lemma deliver_untouched chunk chans d chans' p :
  deliver_step chunk chans d = (chans', p) -> forall id ch, chans !! id = Some ch ->
  exists ch', chans' !! id = Some ch' /\ ch_taken ch' = ch_taken ch /\ ch_alive ch' = ch_alive ch.
Proof.
  unfold deliver_step. intros H id ch Hch.
  assert (Same : chans' = chans -> exists ch', chans' !! id = Some ch' /\ ch_taken ch' = ch_taken ch /\ ch_alive ch' = ch_alive ch).
  { intros ->. by exists ch. }
  destruct (dl_todo d) as [|i todo].
  - destruct (dl_pending d); [by inversion H; subst; apply Same|].
    destruct (dl_delivered_any d); [destruct (_ <=? _)|]; inversion H; subst; by apply Same.
  - destruct (chans !! i) as [ci|] eqn:Hi; [|by inversion H; subst; apply Same].
    unfold try_send in H. destruct (ch_alive ci) eqn:Ha; simpl in H; [|by inversion H; subst; apply Same].
    destruct (length (ch_queue ci) <? SUBSCRIBER_QUEUE_DEPTH); [|by inversion H; subst; apply Same].
    injection H as <- <-. destruct (decide (id = i)) as [->|]; [|exists ch; by rewrite lookup_insert_ne].
    rewrite lookup_insert_eq. simplify_eq. eexists. split; [done|]. by simpl.
Qed.

Lemma session_deliver s c chunk d eof chans d' :
  s_batcher s = Delivering chunk d eof -> deliver_step chunk (s_chans s) d = (chans, Going d') ->
  step (s, c) Quiet (with_chans s chans (Delivering chunk d' eof), c).
Proof. intros Hb Hd. apply da_session; [by eapply st_deliver|]. intros id ch _. by apply (deliver_untouched _ _ _ _ _ Hd). Qed.

Lemma session_delivered s c chunk d eof chans dead :
  s_batcher s = Delivering chunk d eof -> deliver_step chunk (s_chans s) d = (chans, Delivered dead) ->
  step (s, c) Quiet (with_chans s chans (Pruning dead eof), c).
Proof. intros Hb Hd. apply da_session; [by eapply st_delivered|]. intros id ch _. by apply (deliver_untouched _ _ _ _ _ Hd). Qed.

Lemma session_same s c l s' : Session.step s l s' -> s_chans s' = s_chans s -> step (s, c) l (s', c).
Proof. intros Hs E. apply da_session; [done|]. by apply untouched_chans. Qed.

#[local] Tactic Notation "goes" hyp(R) "by" tactic3(st) := eapply run_next in R; [|st]; vm_compute in R.

Definition resume_first : Request := mk_request (Some (0, 0)%Z) false.

(** A client attaches to an idle session, which then prints three bytes; they wait in
    the subscription's channel. *)
Lemma example_attached :
  exists s lg c sub ch, run 4 9 [] s lg c /\ lg_stream lg = [1; 2; 3]%Z /\ s_batcher s = Receiving /\ s_subs s = [0]
    /\ s_chans s = {[0 := ch]} /\ ch_queue ch = [[1; 2; 3]]%Z /\ c_subscriptions c = [0] /\ c_phase c = Idle /\ c_open c = true
    /\ c_forwarders c = {[0 := (resume_first, sub, Streaming)]} /\ c_wire c = [(0, Ev_AttachBacklog 9 0 true); (0, Ev_Data [])].
Proof.
  pose proof (run_open 4 9 [] _ _ (run_start 4 9 [] _ eq_refl)) as R. vm_compute in R.
  goes R by (apply (da_release _ _ resume_first); reflexivity).
  goes R by (eapply (da_subscribe _ _ resume_first); [reflexivity|reflexivity|by split|by split|reflexivity]).
  goes R by (eapply (da_announce _ _ _ _ _ true); [reflexivity|reflexivity]).
  goes R by (eapply da_spawn; reflexivity).
  goes R by (eapply (da_forward _ _ 0 true false); reflexivity).
  goes R by (eapply session_same; [eapply (st_read _ [1; 2; 3]%Z); [reflexivity|apply Nat.ltb_lt; reflexivity| split; [apply Z.ltb_lt|apply Z.leb_le]; reflexivity]|reflexivity]).
  goes R by (eapply session_same; [eapply st_recv; reflexivity|reflexivity]).
  goes R by (eapply session_same; [eapply st_publish; reflexivity|reflexivity]).
  goes R by (eapply session_deliver; reflexivity).
  goes R by (eapply session_delivered; reflexivity).
  goes R by (eapply session_same; [eapply st_prune; reflexivity|reflexivity]).
  eexists _, _, _, _, _. split; [exact R|]. by split_and!.
Qed.


(** Attaching again on the same connection can show output twice.  The earlier
    subscription is dropped, but its forwarder goes on to drain its channel, and its
    frames may come between the new subscription's announcement and its replay: the
    next data frame after an announcement is then not the replay.  Here the session
    printed three bytes; the client ends up with six and a watermark past the end. *)
Theorem reattach_shows_twice :
  exists s lg c v, run 4 9 [] s lg c /\ lg_stream lg = [1; 2; 3]%Z /\ c_subscriptions c = [1]
    /\ v = view (mk_view [] 0 0 None) (map snd (c_wire c))
    /\ v_text v = [1; 2; 3; 1; 2; 3]%Z /\ v_epoch v = 9%Z /\ v_offset v = 6%Z /\ ~ shows v (lg_stream lg).
Proof.
  pose proof (run_open 4 9 [] _ _ (run_start 4 9 [] _ eq_refl)) as R. vm_compute in R.
  goes R by (apply (da_release _ _ resume_first); reflexivity).
  goes R by (eapply (da_subscribe _ _ resume_first); [reflexivity|reflexivity|by split|by split|reflexivity]).
  goes R by (eapply (da_announce _ _ _ _ _ true); [reflexivity|reflexivity]).
  goes R by (eapply da_spawn; reflexivity).
  goes R by (eapply (da_forward _ _ 0 true false); reflexivity).
  goes R by (eapply session_same; [eapply (st_read _ [1; 2; 3]%Z); [reflexivity|apply Nat.ltb_lt; reflexivity| split; [apply Z.ltb_lt|apply Z.leb_le]; reflexivity]|reflexivity]).
  goes R by (eapply session_same; [eapply st_recv; reflexivity|reflexivity]).
  goes R by (eapply session_same; [eapply st_publish; reflexivity|reflexivity]).
  goes R by (eapply session_deliver; reflexivity).
  goes R by (apply (da_release _ _ resume_first); reflexivity).
  goes R by (eapply (da_subscribe _ _ resume_first); [reflexivity|reflexivity|by split|by split|reflexivity]).
  goes R by (eapply (da_announce _ _ _ _ _ true); [reflexivity|reflexivity]).
  goes R by (eapply (da_forward _ _ 0 true false); reflexivity).
  goes R by (eapply (da_forward _ _ 0 true false); reflexivity).
  goes R by (eapply da_spawn; reflexivity).
  goes R by (eapply (da_forward _ _ 1 true false); reflexivity).
  eexists _, _, _, _. split; [exact R|]. split; [reflexivity|]. split; [reflexivity|]. split; [reflexivity|].
  split; [reflexivity|]. split; [reflexivity|]. split; [reflexivity|].
  intros (p & from & upto & _ & [_ Hle] & Hoff & _). simpl in Hoff, Hle. lia.
Qed.
