(* ===== verification/Supervisor.v ===== *)
(** * The agent's supervisor

    [crates/amber/src/supervisor.rs]: [amber run] keeps one agent of a session
    running.  [supervise_agent] is the state [Sup] moved by [advance] from one
    blocking point to the next; what the store, the operating system and the clock
    answer is its [Input], and signals set the flags of [SupervisorControl] at any
    time.  What it does outside is logged, newest first. *)
From S2P Require Import Prelude Store Agents.

(** ** Requests *)

Inductive SupervisorCommand := C_Suspend | C_Resume.

Record SupervisorControl := mk_control { ctl_suspend : bool; ctl_resume : bool }.

Definition apply (c : SupervisorControl) (command : SupervisorCommand) : SupervisorControl :=
  match command with
  | C_Suspend => mk_control true (ctl_resume c)
  | C_Resume => mk_control (ctl_suspend c) true
  end.

(** [apply_supervisor_control_frame]: the command of the link on Windows. *)
Definition apply_supervisor_control_frame (c : SupervisorControl) (expected_name name command : string) : SupervisorControl :=
  if negb (bool_decide (name = expected_name)) then c
  else if bool_decide (command = "suspend"%string) then apply c C_Suspend
  else if bool_decide (command = "resume"%string) then apply c C_Resume
  else c.

(** ** How a run ended *)

Inductive ExitStatus := Exited (code : Z) | Signalled (signal : Z).

Inductive RunClass := Success | UserInterrupt | Nonzero | Signaled | LaunchFailed.

Definition SIGINT : Z := 2.

Definition success (s : ExitStatus) : bool := match s with Exited code => (code =? 0)%Z | Signalled _ => false end.

Definition classify_run (outcome : result ExitStatus string) : RunClass :=
  match outcome with
  | Ok status =>
      if success status then Success
      else match status with
           | Signalled sig => if (sig =? SIGINT)%Z then UserInterrupt else Signaled
           | Exited code => if (code =? 130)%Z then UserInterrupt else Nonzero
           end
  | Err _ => LaunchFailed
  end.

Definition is_user_quit (c : RunClass) : bool :=
  match c with Success | UserInterrupt => true | _ => false end.

(** Milliseconds; [None]: the shift or the product overflows. *)
Definition backoff_delay (attempts : Z) : option Z :=
  if (0 <=? attempts - 1)%Z && (attempts - 1 <? 64)%Z && (200 * 2 ^ (attempts - 1) <=? u64_max)%Z
  then Some (200 * Z.shiftl 1 (attempts - 1))%Z else None.

(** The outer [None]: no more retries. *)
Definition retry_decision (attempts max_attempts : Z) : option (option Z) :=
  if (max_attempts <=? attempts)%Z then None else Some (backoff_delay attempts).

(** ** Parking *)

(** What [kill_workload] answered. *)
Inductive KillAnswer := Emptied | StillPopulated | NotDelegated | Transient | Hard (error : string).

Inductive Reclaim := Retrying | Reclaimed | Unproven.

(** One turn of [reclaim_workload_with]; without a slot, and once the workload is
    empty or not delegated, the child is killed and waited for. *)
Definition reclaim_turn (slot : option Z) (answer : KillAnswer) : Reclaim :=
  match slot with
  | None => Reclaimed
  | Some _ =>
      match answer with
      | Emptied | NotDelegated => Reclaimed
      | StillPopulated | Transient => Retrying
      | Hard _ => Unproven
      end
  end.

(** ** The choice of a start *)

Inductive Agent := A_Claude (settings : string) | A_Grok | A_Codex | A_OpenCode | A_Hermes | A_Pi | A_Muse.

Definition is_pi (a : Agent) : bool := match a with A_Pi => true | _ => false end.

(** [recording_key] *)
Definition Key : Type := option (string * (Z * option string * string)).

Definition recording_key (a : Agent) (recording : option ClaudeMeta) : Key :=
  (fun meta => (cm_session_id meta,
     match a with
     | A_Codex | A_Pi => (cm_updated meta, cm_session_file meta, cm_cwd meta)
     | _ => (0%Z, None, ""%string)
     end)) <$> recording.

(** The argument vector, what it resumes, and the recording a fresh start writes. *)
Record Start := mk_start { sr_argv : list string; sr_resumes : option string; sr_record : option ClaudeMeta }.

Definition select (a : Agent) (cwd : string) (recording : option ClaudeMeta) (escalation : Z) (new_id : string) (now : Z) : Start :=
  let session_id := cm_session_id <$> recording in
  match a with
  | A_Claude settings =>
      let s := select_start session_id escalation in
      mk_start (claude.claude_argv s settings) (match s with claude.Resume id => Some id | _ => None end) None
  | A_Grok =>
      let '(s, r) := select_grok_start cwd session_id escalation new_id now in
      mk_start (grok.grok_argv s) (match s with grok.Resume id => Some id | _ => None end) r
  | A_Codex =>
      let s := select_codex_start session_id escalation in
      mk_start (codex.codex_argv s) (match s with codex.Resume id => Some id | _ => None end) None
  | A_OpenCode =>
      let s := select_opencode_start session_id escalation in
      mk_start (opencode.opencode_argv s) (match s with opencode.Resume id => Some id | _ => None end) None
  | A_Hermes =>
      let s := select_hermes_start session_id escalation in
      mk_start (hermes.hermes_argv s) (match s with hermes.Resume id => Some id | _ => None end) None
  | A_Muse =>
      let s := select_muse_start session_id escalation in
      mk_start (muse.muse_argv s) (match s with muse.Resume id => Some id | _ => None end) None
  | A_Pi =>
      let s := select_pi_start (recording ≫= cm_session_file) escalation in
      mk_start (pi.pi_argv s) (match s with pi.Resume path => Some path | _ => None end) None
  end.

Definition PI_RECORDING_RETRIES : nat := 5.

(** The re-reads of [pi_recording_defect], each with the disk of its moment.
    [header_json] is serde_json's reading of a session file's header. *)
Section defect.
Context (header_json : string -> option (option string * option string)).

Fixpoint defect_loop (defect : string) (rereads : list (result (option ClaudeMeta) string * pi.Disk)) : option string :=
  match rereads with
  | [] => Some defect
  | (Ok (Some meta), disk) :: rest =>
      match pi.recording_defect header_json disk meta with
      | Some d => defect_loop d rest
      | None => None
      end
  | (Ok None, _) :: _ => None
  | (Err _, _) :: rest => defect_loop defect rest
  end.

Definition pi_recording_defect (first : option ClaudeMeta) (disk : pi.Disk)
    (rereads : list (result (option ClaudeMeta) string * pi.Disk)) : option string :=
  meta ← first;
  defect ← pi.recording_defect header_json disk meta;
  defect_loop defect (take PI_RECORDING_RETRIES rereads).
End defect.

(** ** The loop *)

Inductive SuperviseOutcome := CleanExit | Exhausted.

(** Where the loop blocks: at its top, parked, waiting for the child, reclaiming it,
    sleeping before a retry. *)
Inductive Phase :=
| Top
| Parked
| Running
| Reclaiming
| Backoff (delay : Z)
| Returned (o : SuperviseOutcome)
| Failed (error : string).

(** [Launch]: an attempt with the recording it read; [Crash], [Quit]: how it ended. *)
Inductive Event :=
| Report (state : string)
| Launch (recording : option ClaudeMeta) (start : Start)
| Wrote (recording : ClaudeMeta)
| Crash (class : RunClass)
| Quit
| Kill
| Defect (why : string).

Record Sup := mk_sup {
  sp_ctl : SupervisorControl;
  sp_attempts : Z;
  sp_escalation : Z;
  sp_prev_recording : Key;
  sp_phase : Phase;
  sp_log : list Event;
}.

(** [in_disk], [in_rereads]: what a Pi recording's first check and the re-reads find. *)
Record Input := mk_input {
  in_recording : result (option ClaudeMeta) string;
  in_disk : pi.Disk;
  in_rereads : list (result (option ClaudeMeta) string * pi.Disk);
  in_new_id : string;
  in_now : Z;
  in_write : result unit string;
  in_spawn : result unit string;
  in_status : result (option ExitStatus) string;
  in_kill : KillAnswer;
}.

Section supervise.
Context (header_json : string -> option (option string * option string)).
Context (agent : Agent) (cwd : string) (max_attempts : Z) (slot : option Z).

Definition log (e : Event) (s : Sup) : Sup :=
  mk_sup (sp_ctl s) (sp_attempts s) (sp_escalation s) (sp_prev_recording s) (sp_phase s) (e :: sp_log s).
Definition go (p : Phase) (s : Sup) : Sup :=
  mk_sup (sp_ctl s) (sp_attempts s) (sp_escalation s) (sp_prev_recording s) p (sp_log s).
Definition set_ctl (c : SupervisorControl) (s : Sup) : Sup :=
  mk_sup c (sp_attempts s) (sp_escalation s) (sp_prev_recording s) (sp_phase s) (sp_log s).
Definition set_ladder (escalation : Z) (prev : Key) (s : Sup) : Sup :=
  mk_sup (sp_ctl s) (sp_attempts s) escalation prev (sp_phase s) (sp_log s).

(** [take_suspend], [take_resume] and the stores are these. *)
Definition clear_suspend (s : Sup) : Sup := set_ctl (mk_control false (ctl_resume (sp_ctl s))) s.
Definition clear_resume (s : Sup) : Sup := set_ctl (mk_control (ctl_suspend (sp_ctl s)) false) s.

(** The end of a run, up to the sleep before a retry. *)
Definition ended (outcome : result ExitStatus string) (s : Sup) : Sup :=
  let class := classify_run outcome in
  if is_user_quit class then go (Returned CleanExit) (log Quit s)
  else
    let s := mk_sup (sp_ctl s) (sp_attempts s + 1) (sp_escalation s + 1) (sp_prev_recording s) (sp_phase s)
               (Crash class :: sp_log s) in
    match retry_decision (sp_attempts s) max_attempts with
    | None => go (Returned Exhausted) s
    | Some None => go (Failed "attempt to shift left with overflow") s
    | Some (Some delay) => go (Backoff delay) (log (Report "claude-retrying") s)
    end.

(** A recording other than the one of the last attempt starts its own ladder. *)
Definition climb (k : Key) (s : Sup) : Sup := if bool_decide (k = sp_prev_recording s) then s else set_ladder 0 k s.

(** From the read of the recording to the spawn. *)
Definition launch (i : Input) (s : Sup) : Sup :=
  match in_recording i with
  | Err error => go (Failed error) s
  | Ok recording =>
      match (if is_pi agent then pi_recording_defect header_json recording (in_disk i) (in_rereads i) else None) with
      | Some defect => go (Returned Exhausted) (log (Defect defect) s)
      | None =>
          let s := climb (recording_key agent recording) s in
          let start := select agent cwd recording (sp_escalation s) (in_new_id i) (in_now i) in
          let spawn (s : Sup) :=
            match in_spawn i with
            | Err error => ended (Err error) (log (Launch recording start) s)
            | Ok _ => go Running (log (Report "claude") (log (Launch recording start) s))
            end in
          match sr_record start with
          | None => spawn s
          | Some r => match in_write i with Err error => go (Failed error) s | Ok _ => spawn (log (Wrote r) s) end
          end
      end
  end.

Definition advance (i : Input) (s : Sup) : Sup :=
  match sp_phase s with
  | Top =>
      if ctl_suspend (sp_ctl s) then go Parked (log (Report "suspended") (clear_suspend s)) else launch i s
  | Parked =>
      if ctl_resume (sp_ctl s) then go Top (set_ladder 0 None (clear_suspend (clear_resume s)))
      else clear_suspend s
  | Running =>
      match in_status i with
      | Ok (Some status) => ended (Ok status) s
      | Err error => ended (Err error) s
      | Ok None => if ctl_suspend (sp_ctl s) then go Reclaiming (clear_suspend s) else s
      end
  | Reclaiming =>
      match reclaim_turn slot (in_kill i) with
      | Retrying => s
      | Unproven => go Running (log (Report "suspend-failed") s)
      | Reclaimed => go Parked (log (Report "suspended") (clear_suspend (log Kill s)))
      end
  | Backoff _ => go Top s
  | Returned _ | Failed _ => s
  end.

(** A signal or a message of the link sets a flag at any moment. *)
Inductive step : Sup -> Sup -> Prop :=
| su_signal s c : step s (set_ctl (apply (sp_ctl s) c) s)
| su_advance s i : step s (advance i s).

Inductive run : Sup -> Prop :=
| run_start ctl : run (mk_sup ctl 0 0 None Top [])
| run_step s s' : run s -> step s s' -> run s'.

(** ** What the log tells *)

Definition is_crash (e : Event) : bool := match e with Crash _ => true | _ => false end.
Definition is_launch (e : Event) : bool := match e with Launch _ _ => true | _ => false end.
Definition is_kill (e : Event) : bool := match e with Kill => true | _ => false end.
Definition count (p : Event -> bool) (l : list Event) : Z := Z.of_nat (length (List.filter p l)).

(** Whether an agent runs, if there never were two and none ended twice. *)
Fixpoint agent_runs (l : list Event) : option bool :=
  match l with
  | [] => Some false
  | Launch _ _ :: l' => if decide (agent_runs l' = Some false) then Some true else None
  | (Crash _ | Quit | Kill) :: l' => if decide (agent_runs l' = Some true) then Some false else None
  | _ :: l' => agent_runs l'
  end.

Fixpoint last_report (l : list Event) : option string :=
  match l with
  | [] => None
  | Report state :: _ => Some state
  | _ :: l' => last_report l'
  end.

Definition truthful (p : Phase) (reported : option string) : Prop :=
  match p with
  | Running | Reclaiming => reported = Some "claude"%string \/ reported = Some "suspend-failed"%string
  | Parked => reported = Some "suspended"%string
  | Backoff _ => reported = Some "claude-retrying"%string
  | Top => reported = None \/ reported = Some "suspended"%string \/ reported = Some "claude-retrying"%string
  | Returned _ | Failed _ => True
  end.

(** How many attempts in a row were made on a recording, since the last parking. *)
Fixpoint streak (k : Key) (l : list Event) : Z :=
  match l with
  | [] => 0
  | Launch recording _ :: l' => if decide (recording_key agent recording = k) then streak k l' + 1 else 0
  | Report state :: l' => if decide (state = "suspended"%string) then 0 else streak k l'
  | _ :: l' => streak k l'
  end.

(** How often a recorded conversation is resumed before it is given up. *)
Definition resumes_after (a : Agent) (streak : Z) : bool :=
  match a with
  | A_Pi => true
  | A_Grok => (streak <? GROK_RESUME_ATTEMPTS)%Z
  | _ => (streak =? 0)%Z
  end.

(** The recorded conversation, when its id is one the agent's command line may get. *)
Definition resumable (a : Agent) (recording : option ClaudeMeta) : option string :=
  meta ← recording;
  let id := cm_session_id meta in
  match a with
  | A_Claude _ => Some id
  | A_Grok => if grok.is_session_id id then Some id else None
  | A_Codex => if codex.is_session_id id then Some id else None
  | A_OpenCode => if opencode.is_session_id id then Some id else None
  | A_Hermes => if hermes.is_session_id id then Some id else None
  | A_Muse => if muse.is_session_id id then Some id else None
  | A_Pi => path ← cm_session_file meta; if pi.is_session_file path then Some path else None
  end.

Definition runs_in (p : Phase) : bool := match p with Running | Reclaiming => true | _ => false end.

Record sup_ok (s : Sup) : Prop := mk_sup_ok {
  so_attempts : sp_attempts s = count is_crash (sp_log s);
  so_agent : agent_runs (sp_log s) = Some (runs_in (sp_phase s));
  so_report : truthful (sp_phase s) (last_report (sp_log s));
  so_budget : match sp_phase s with
    | Returned Exhausted => (max_attempts <= sp_attempts s)%Z \/ exists why, head (sp_log s) = Some (Defect why)
    | Returned CleanExit => head (sp_log s) = Some Quit
    | Backoff delay => (0 < sp_attempts s < max_attempts)%Z /\ backoff_delay (sp_attempts s) = Some delay
    | Failed _ => True
    | _ => (sp_attempts s = 0 \/ sp_attempts s < max_attempts)%Z
    end;
  so_bound : (sp_attempts s <= Z.max 1 max_attempts)%Z;
}.

(** Every launch in the log was chosen from the recording it read and the attempts
    already made on it; a fresh start's recording was written first. *)
Fixpoint laddered (l : list Event) : Prop :=
  match l with
  | [] => True
  | Launch recording start :: l' =>
      (exists id now, start = select agent cwd recording (streak (recording_key agent recording) l') id now)
      /\ (forall r, sr_record start = Some r -> head l' = Some (Wrote r))
      /\ laddered l'
  | _ :: l' => laddered l'
  end.

(** The ladder the loop keeps is the streak of the log. *)
Definition streaks (s : Sup) : Prop :=
  match sp_phase s with
  | Top | Backoff _ => forall k, streak k (sp_log s) = if decide (k = sp_prev_recording s) then sp_escalation s else 0%Z
  | Running | Reclaiming =>
      forall k, streak k (sp_log s) = if decide (k = sp_prev_recording s) then (sp_escalation s + 1)%Z else 0%Z
  | Parked => forall k, streak k (sp_log s) = 0%Z
  | Returned _ | Failed _ => True
  end.

Lemma count_cons p e l : count p (e :: l) = ((if p e then 1 else 0) + count p l)%Z.
Proof. unfold count. simpl. destruct (p e); simpl length; lia. Qed.

(** *** The end of a run *)

Lemma ended_ok outcome s :
  sp_attempts s = count is_crash (sp_log s) -> (sp_attempts s = 0 \/ sp_attempts s < max_attempts)%Z ->
  agent_runs (sp_log s) = Some true -> sup_ok (ended outcome s).
Proof.
  intros Ha Hb Hr. assert (Hpos : (0 <= sp_attempts s)%Z) by (rewrite Ha; unfold count; lia).
  unfold ended. destruct (is_user_quit _).
  - constructor; simpl; rewrite ?Hr, ?count_cons; simpl; try done; lia.
  - unfold retry_decision. cbn [sp_attempts]. destruct (Z.leb_spec max_attempts (sp_attempts s + 1)) as [Hm|Hm].
    + constructor; simpl; rewrite ?Hr, ?count_cons; simpl; [lia|done|done|by left|lia].
    + destruct (backoff_delay _) as [d|] eqn:Hd;
        (constructor; simpl; rewrite ?Hr, ?count_cons; simpl; [lia|done|done| |lia]); [|done]. split; [lia|exact Hd].
Qed.

Lemma ended_streaks outcome s :
  (forall k, streak k (sp_log s) = if decide (k = sp_prev_recording s) then (sp_escalation s + 1)%Z else 0%Z) ->
  streaks (ended outcome s).
Proof.
  intros H. unfold ended. destruct (is_user_quit _); [done|]. destruct (retry_decision _ _) as [[d|]|]; [|done|done].
  intros k. simpl. apply H.
Qed.

Lemma ended_laddered outcome s : laddered (sp_log s) -> laddered (sp_log (ended outcome s)).
Proof. intros H. unfold ended. destruct (is_user_quit _); [done|]. by destruct (retry_decision _ _) as [[d|]|]. Qed.

(** *** A launch *)

Lemma climb_same k s :
  sp_log (climb k s) = sp_log s /\ sp_attempts (climb k s) = sp_attempts s /\ sp_phase (climb k s) = sp_phase s
  /\ sp_ctl (climb k s) = sp_ctl s /\ sp_prev_recording (climb k s) = k.
Proof. unfold climb. case_bool_decide; [by subst|done]. Qed.

Lemma climb_streak k s :
  (forall k', streak k' (sp_log s) = if decide (k' = sp_prev_recording s) then sp_escalation s else 0%Z) ->
  sp_escalation (climb k s) = streak k (sp_log s).
Proof. intros H. unfold climb. case_bool_decide as E; simpl; rewrite H; [by rewrite decide_True|by rewrite decide_False]. Qed.

Definition launched (i : Input) (recording : option ClaudeMeta) (s : Sup) : Sup :=
  let s1 := climb (recording_key agent recording) s in
  let start := select agent cwd recording (sp_escalation s1) (in_new_id i) (in_now i) in
  log (Launch recording start) (match sr_record start with Some r => log (Wrote r) s1 | None => s1 end).

(** What a launch comes to. *)
Lemma launch_cases i s :
  (exists e k, launch i s = go (Failed e) s \/ launch i s = go (Failed e) (climb k s))
  \/ (exists why, launch i s = go (Returned Exhausted) (log (Defect why) s))
  \/ exists recording, in_recording i = Ok recording
      /\ (is_pi agent = true -> pi_recording_defect header_json recording (in_disk i) (in_rereads i) = None)
      /\ launch i s = match in_spawn i with
                      | Err error => ended (Err error) (launched i recording s)
                      | Ok _ => go Running (log (Report "claude") (launched i recording s))
                      end.
Proof.
  unfold launch, launched. destruct (in_recording i) as [recording|e]; [|left; exists e, None; by left].
  destruct (if is_pi agent then _ else None) as [why|] eqn:Hd; [right; left; by exists why|].
  destruct (sr_record _) as [r|] eqn:Hr.
  - destruct (in_write i) as [[]|e]; [|left; exists e, (recording_key agent recording); by right].
    right. right. exists recording. split; [done|]. split; [intros E; by rewrite E in Hd|]. rewrite Hr. by destruct (in_spawn i).
  - right. right. exists recording. split; [done|]. split; [intros E; by rewrite E in Hd|]. rewrite Hr. by destruct (in_spawn i).
Qed.

Lemma launched_same i recording s :
  sp_attempts (launched i recording s) = sp_attempts s
  /\ count is_crash (sp_log (launched i recording s)) = count is_crash (sp_log s)
  /\ (agent_runs (sp_log s) = Some false -> agent_runs (sp_log (launched i recording s)) = Some true).
Proof.
  destruct (climb_same (recording_key agent recording) s) as (El & Ea & _). unfold launched.
  destruct (sr_record _) as [r|]; simpl; rewrite ?count_cons, El; simpl; (split; [done|]; split; [lia|]); intros ->; reflexivity.
Qed.

Lemma launched_streaks i recording s :
  (forall k, streak k (sp_log s) = if decide (k = sp_prev_recording s) then sp_escalation s else 0%Z) ->
  forall k, streak k (sp_log (launched i recording s))
    = if decide (k = sp_prev_recording (launched i recording s)) then (sp_escalation (launched i recording s) + 1)%Z else 0%Z.
Proof.
  intros H k. pose proof (climb_streak (recording_key agent recording) s H) as He.
  destruct (climb_same (recording_key agent recording) s) as (El & _ & _ & _ & Ep). unfold launched.
  destruct (sr_record _) as [r|]; simpl; rewrite El, Ep, He; (destruct (decide (k = _)) as [->|]; [by rewrite decide_True|by rewrite decide_False]).
Qed.

Lemma launched_laddered i recording s :
  (forall k, streak k (sp_log s) = if decide (k = sp_prev_recording s) then sp_escalation s else 0%Z) ->
  laddered (sp_log s) -> laddered (sp_log (launched i recording s)).
Proof.
  intros H L. pose proof (climb_streak (recording_key agent recording) s H) as He.
  destruct (climb_same (recording_key agent recording) s) as (El & _). unfold launched. rewrite He.
  destruct (sr_record _) as [r|] eqn:Hr; simpl; rewrite El; (split; [by exists (in_new_id i), (in_now i)|]);
    (split; [|done]); rewrite Hr; by intros ? [= ->].
Qed.

Lemma launch_ok i s : sup_ok s -> sp_phase s = Top -> sup_ok (launch i s).
Proof.
  intros [Ha Hr Ht Hb Hn] Hp. rewrite Hp in Hr, Ht, Hb. simpl in Hr, Hb.
  destruct (launch_cases i s) as [(e & k & [-> | ->])|[(why & ->)|(recording & _ & _ & ->)]].
  - by constructor.
  - destruct (climb_same k s) as (El & Ea & _). constructor; simpl; rewrite ?El, ?Ea; done.
  - constructor; simpl; rewrite ?count_cons; simpl; try done. right. by exists why.
  - destruct (launched_same i recording s) as (Ea & Ec & Er). specialize (Er Hr).
    generalize dependent (launched i recording s). intros s1 Ea Ec Er. destruct (in_spawn i) as [[]|error].
    + constructor; simpl; rewrite ?count_cons, ?Er, ?Ea, ?Ec; simpl; [lia|done|by left|exact Hb|exact Hn].
    + apply ended_ok; [by rewrite Ea, Ec|by rewrite Ea|done].
Qed.

Lemma advance_ok i s : sup_ok s -> sup_ok (advance i s).
Proof.
  intros Hok. unfold advance. destruct (sp_phase s) eqn:Hp; try done.
  - destruct (ctl_suspend _); [|by apply launch_ok].
    destruct Hok as [Ha Hr Ht Hb Hn]. rewrite Hp in Hr, Ht, Hb.
    constructor; simpl; rewrite ?count_cons; simpl; try done; lia.
  - destruct Hok as [Ha Hr Ht Hb Hn]. destruct (ctl_resume _).
    + rewrite Hp in Hr, Ht, Hb. constructor; simpl; try done. right. by left.
    + constructor; simpl; rewrite ?Hp; try done; by rewrite Hp in Hr, Ht, Hb.
  - assert (He : forall outcome, sup_ok (ended outcome s)).
    { intros outcome. destruct Hok as [Ha Hr Ht Hb Hn]. rewrite Hp in Hr, Ht, Hb. by apply ended_ok. }
    destruct (in_status i) as [[status|]|e]; [apply He| |apply He]. destruct (ctl_suspend _); [|done].
    destruct Hok as [Ha Hr Ht Hb Hn]. rewrite Hp in Hr, Ht, Hb. by constructor.
  - destruct (reclaim_turn _ _); [done| |];
      destruct Hok as [Ha Hr Ht Hb Hn]; rewrite Hp in Hr, Ht, Hb;
      (constructor; simpl; rewrite ?count_cons, ?Hr; simpl; first [done|lia|by right]).
  - destruct Hok as [Ha Hr Ht Hb Hn]. rewrite Hp in Hr, Ht, Hb. destruct Hb as [Hb _].
    constructor; simpl; try done; [right; by right|right; lia].
Qed.

Lemma launch_ladder i s :
  (forall k, streak k (sp_log s) = if decide (k = sp_prev_recording s) then sp_escalation s else 0%Z) ->
  laddered (sp_log s) -> streaks (launch i s) /\ laddered (sp_log (launch i s)).
Proof.
  intros Hs Hl. destruct (launch_cases i s) as [(e & k & [-> | ->])|[(why & ->)|(recording & _ & _ & ->)]]; [done| |done|].
  - split; [done|]. simpl. by rewrite (proj1 (climb_same k s)).
  - pose proof (launched_streaks i recording s Hs) as Hs1. pose proof (launched_laddered i recording s Hs Hl) as Hl1.
    generalize dependent (launched i recording s). intros s1 Hs1 Hl1. destruct (in_spawn i) as [[]|error].
    + split; [|exact Hl1]. intros k. simpl. apply Hs1.
    + split; [by apply ended_streaks|by apply ended_laddered].
Qed.

Lemma advance_ladder i s : streaks s -> laddered (sp_log s) -> streaks (advance i s) /\ laddered (sp_log (advance i s)).
Proof.
  intros Hs Hl. unfold advance. unfold streaks in Hs. destruct (sp_phase s) eqn:Hp.
  - destruct (ctl_suspend _); [by split|]. by apply launch_ladder.
  - destruct (ctl_resume _); (split; [|exact Hl]); unfold streaks; simpl; rewrite ?Hp; [|exact Hs].
    intros k. rewrite Hs. by destruct (decide _).
  - assert (He : forall outcome, streaks (ended outcome s) /\ laddered (sp_log (ended outcome s))).
    { intros outcome. split; [by apply ended_streaks|by apply ended_laddered]. }
    destruct (in_status i) as [[status|]|e]; [apply He| |apply He].
    destruct (ctl_suspend _); (split; [|exact Hl]); unfold streaks; simpl; rewrite ?Hp; exact Hs.
  - destruct (reclaim_turn _ _); (split; [|exact Hl]); unfold streaks; simpl; rewrite ?Hp; [exact Hs|done|exact Hs].
  - split; [|exact Hl]. exact Hs.
  - split; [|exact Hl]. unfold streaks. by rewrite Hp.
  - split; [|exact Hl]. unfold streaks. by rewrite Hp.
Qed.

(** Signals come at any time. *)
Lemma signal_ok c s : sup_ok s -> sup_ok (set_ctl c s).
Proof. by intros []. Qed.

Lemma sup_run_ok s : run s -> sup_ok s.
Proof.
  induction 1 as [ctl|s s' _ IH H].
  - constructor; simpl; try done; [by left|by left|lia].
  - destruct H; [by apply signal_ok|by apply advance_ok].
Qed.

Lemma run_ladder s : run s -> streaks s /\ laddered (sp_log s).
Proof.
  induction 1 as [ctl|s s' _ [Hs Hl] H].
  - split; [|done]. intros k. simpl. by destruct (decide _).
  - destruct H as [s c|s i]; [by split|by apply advance_ladder].
Qed.

(** *** What a launch resumes *)

Lemma laddered_at post recording start pre :
  laddered (post ++ Launch recording start :: pre) ->
  (exists id now, start = select agent cwd recording (streak (recording_key agent recording) pre) id now)
  /\ (forall r, sr_record start = Some r -> head pre = Some (Wrote r)).
Proof. induction post as [|e post IH]; simpl; [tauto|]. destruct e; tauto. Qed.

Lemma select_resumes a recording streak id now :
  sr_resumes (select a cwd recording streak id now) = if resumes_after a streak then resumable a recording else None.
Proof.
  destruct recording as [meta|]; [|destruct a; simpl; by repeat case_match].
  destruct a; unfold select, select_grok_start, select_pi_start; simpl; repeat case_match; simpl in *; simplify_eq; try done;
    by repeat case_match; simplify_eq.
Qed.

(** A resumed conversation is named on the command line, and only a resumed one. *)
Lemma select_argv a recording streak id now :
  match sr_resumes (select a cwd recording streak id now) with
  | Some target => target ∈ sr_argv (select a cwd recording streak id now)
      /\ sr_record (select a cwd recording streak id now) = None
  | None => match a with
      | A_Grok => sr_record (select a cwd recording streak id now) = Some (mk_claude id cwd now None None)
          /\ id ∈ sr_argv (select a cwd recording streak id now)
      | _ => sr_record (select a cwd recording streak id now) = None
      end
  end.
Proof.
  destruct recording as [meta|], a; unfold select, select_grok_start, select_pi_start; simpl; repeat case_match; simpl in *; simplify_eq;
    first [done|split; [|done]|split; [done|]]; repeat first [by left|right].
Qed.


Lemma backoff_delay_exact n d : backoff_delay n = Some d -> d = (200 * 2 ^ (n - 1))%Z.
Proof.
  unfold backoff_delay. destruct (0 <=? n - 1)%Z eqn:H; [|done]. apply Z.leb_le in H. intros E. simpl in E.
  rewrite Z.shiftl_mul_pow2, Z.mul_1_l in E by done. by destruct (_ && _); simplify_eq.
Qed.

(** The wait never overflows. *)
Lemma ended_total outcome s e :
  (0 <= sp_attempts s)%Z -> (max_attempts <= 57)%Z -> sp_phase (ended outcome s) <> Failed e.
Proof.
  intros Hs Hm. unfold ended. destruct (is_user_quit _); [done|]. unfold retry_decision. cbn [sp_attempts].
  destruct (Z.leb_spec max_attempts (sp_attempts s + 1)) as [?|Hlt]; [done|]. unfold backoff_delay.
  assert (H : (200 * 2 ^ (sp_attempts s + 1 - 1) <= u64_max)%Z).
  { transitivity (200 * 2 ^ 56)%Z; [|done]. apply Z.mul_le_mono_nonneg_l; [done|]. apply Z.pow_le_mono_r; lia. }
  apply Z.leb_le in H. rewrite H, (proj2 (Z.leb_le 0 _)), (proj2 (Z.ltb_lt _ 64)) by lia. done.
Qed.

(** Whatever signals come and however the agent, the store and the system behave,
    [amber run] as it is configured (three attempts) never runs two agents, nor tells
    the daemon of a phase that is not the one it is in.  It gives up exactly when the
    agent has crashed three times since the pane was opened, parkings and other
    conversations in between not resetting the count, or when a Pi recording is
    defective; before that it waits 200 ms after the first crash and 400 ms after the
    second. *)
Theorem supervision_ok (s : Sup) (R : run s) (Hmax : max_attempts = 3%Z) :
  agent_runs (sp_log s) = Some (runs_in (sp_phase s))
  /\ truthful (sp_phase s) (last_report (sp_log s))
  /\ match sp_phase s with
     | Returned Exhausted => count is_crash (sp_log s) = 3%Z \/ exists why, head (sp_log s) = Some (Defect why)
     | Returned CleanExit => head (sp_log s) = Some Quit
     | Backoff delay => count is_crash (sp_log s) = 1%Z /\ delay = 200%Z \/ count is_crash (sp_log s) = 2%Z /\ delay = 400%Z
     | Failed _ => True
     | _ => (count is_crash (sp_log s) < 3)%Z
     end.
Proof.
  apply sup_run_ok in R as [Ha Hr Ht Hb Hn]. split; [done|]. split; [done|]. rewrite <- Ha.
  destruct (sp_phase s) as [| | | |delay|[]|]; try lia; [|done|destruct Hb as [?|?]; [left; lia|by right]].
  destruct Hb as [H Hd]. apply backoff_delay_exact in Hd. assert (sp_attempts s = 1 \/ sp_attempts s = 2)%Z as [E|E] by lia;
    rewrite E in Hd; [left|right]; by split.
Qed.

(** *** Pi *)

Lemma valid_recording_resumable disk meta :
  pi.recording_defect header_json disk meta = None ->
  exists path, cm_session_file meta = Some path /\ resumable A_Pi (Some meta) = Some path.
Proof.
  unfold pi.recording_defect. destruct (negb _); [done|]. destruct (cm_session_file meta) as [path|] eqn:E; [|done].
  intros H. exists path. split; [done|]. simpl. rewrite E. simpl. by destruct (pi.is_session_file path).
Qed.

(** The recording that was found sound is not the one Pi is started with.  When the
    first read of a Pi recording shows one without a session file and a re-read shows a
    sound one, the supervisor reports no defect and starts Pi afresh, without
    [--session], in the directory of the first: the recorded conversation is left. *)
Theorem reread_recording_ignored (s : Sup) (i : Input) (stale sound : ClaudeMeta) (disk : pi.Disk)
    (rereads : list (result (option ClaudeMeta) string * pi.Disk))
    (Hagent : agent = A_Pi) (Hphase : sp_phase s = Top) (Hctl : ctl_suspend (sp_ctl s) = false)
    (Hread : in_recording i = Ok (Some stale)) (Hstale : cm_session_file stale = None)
    (Hreread : in_rereads i = (Ok (Some sound), disk) :: rereads)
    (Hsound : pi.recording_defect header_json disk sound = None) (Hspawn : in_spawn i = Ok tt) :
  is_Some (resumable agent (Some sound))
  /\ sp_log (advance i s) = Report "claude" :: Launch (Some stale) (mk_start [] None None) :: sp_log s.
Proof.
  rewrite Hagent. split; [destruct (valid_recording_resumable disk sound Hsound) as (path & _ & ->); by eexists|].
  unfold advance. rewrite Hphase, Hctl. unfold launch, climb, recording_key, select. rewrite Hagent, Hread. cbn [is_pi].
  assert (D : exists d, pi.recording_defect header_json (in_disk i) stale = Some d).
  { unfold pi.recording_defect. rewrite Hstale. destruct (negb _); by eexists. }
  destruct D as [d D]. unfold pi_recording_defect. cbn. rewrite D, Hreread. cbn. rewrite Hsound. unfold select_pi_start.
  rewrite Hstale. cbn. rewrite Hspawn. cbn. by case_bool_decide.
Qed.

End supervise.

(** ** A supervised Claude that crashes once *)

Definition no_json : string -> option (option string * option string) := fun _ => None.
Definition no_disk : pi.Disk := pi.mk_disk (fun _ => false) (fun _ => None).
Definition recorded : ClaudeMeta := mk_claude "0b7e" "/src" 7 None None.
Definition demo_input (status : result (option ExitStatus) string) : Input :=
  mk_input (Ok (Some recorded)) no_disk [] "1c5d" 8 (Ok tt) (Ok tt) status Emptied.
Definition demo_start : Sup := mk_sup (mk_control false false) 0 0 None Top [].
Definition demo_advance (status : result (option ExitStatus) string) : Sup -> Sup :=
  advance no_json (A_Claude "s.json") "/src" 3 (Some 4%Z) (demo_input status).
Definition demo_crashed : Sup :=
  demo_advance (Ok None) (demo_advance (Ok None) (demo_advance (Ok (Some (Exited 1))) (demo_advance (Ok None) demo_start))).

Lemma demo_run : run no_json (A_Claude "s.json") "/src" 3 (Some 4%Z) demo_crashed.
Proof.
  unfold demo_crashed. repeat (eapply run_step; [|apply su_advance]). apply run_start.
Qed.

Definition demo_resumed : Start := mk_start ["--dangerously-skip-permissions"; "--resume"; "0b7e"; "--settings"; "s.json"]%string (Some "0b7e"%string) None.
Definition demo_fresh : Start := mk_start ["--dangerously-skip-permissions"; "--settings"; "s.json"]%string None None.

Example demo_log : sp_log demo_crashed =
  [Report "claude"; Launch (Some recorded) demo_fresh; Report "claude-retrying"; Crash Nonzero; Report "claude";
   Launch (Some recorded) demo_resumed].
Proof. reflexivity. Qed.


Lemma supervision_ok_witness :
  run no_json (A_Claude "s.json") "/src" 3 (Some 4%Z) demo_crashed
  /\ agent_runs (sp_log demo_crashed) = Some true /\ count is_crash (sp_log demo_crashed) = 1%Z.
Proof.
  split; [exact demo_run|]. split; [|reflexivity].
  exact (proj1 (supervision_ok no_json (A_Claude "s.json") "/src" 3 (Some 4%Z) demo_crashed demo_run eq_refl)).
Defined.

(** A Pi pane whose recording is completed while it is checked. *)
Definition pi_json : string -> option (option string * option string) := fun _ => Some (Some "session"%string, Some "0b7e0001"%string).
Definition pi_disk : pi.Disk := pi.mk_disk (fun _ => true) (fun _ => Some (true, Ok (bytes_of_string "{}"))).
Definition pi_stale : ClaudeMeta := mk_claude "0b7e0001" "/src" 7 None None.
Definition pi_sound : ClaudeMeta := mk_claude "0b7e0001" "/src" 8 (Some "/pi/a.jsonl"%string) (Some Pi).

Lemma reread_recording_ignored_witness :
  exists i, sp_log (advance pi_json A_Pi "/src" 3 None i demo_start) = [Report "claude"; Launch (Some pi_stale) (mk_start [] None None)].
Proof.
  exists (mk_input (Ok (Some pi_stale)) pi_disk [(Ok (Some pi_sound), pi_disk)] "" 8 (Ok tt) (Ok tt) (Ok None) Emptied).
  refine (proj2 (reread_recording_ignored pi_json A_Pi "/src" 3 None demo_start _ pi_stale pi_sound pi_disk [] _ _ _ _ _ _ _ _));
    reflexivity.
Defined.
