(* ===== verification/Reporter.v ===== *)
(** * Phase reports

    How the daemon learns what a supervisor does: [RunStateReporter] and
    [run_session] of [crates/amber/src/supervisor.rs], the [ReportRunState] arm of
    [crates/amber/src/daemon.rs].  [Link] puts a supervisor ([Supervisor]), its
    reporter thread, the connections between them and the daemon's session
    ([Suspend]) together; [step] lets each move at any time, and lets attempts be lost,
    be handled late and out of order, and their acknowledgements be lost. *)
From S2P Require Import Prelude Store.
From S2P Require Suspend.
From S2P Require Import Supervisor.

(** ** The reporter

    The channel, the report being sent until acknowledged, its number. *)
Record Reporter := mk_reporter {
  rp_queue : list string;
  rp_current : option string;
  rp_seq : Z;
}.

Definition new_reporter : Reporter := mk_reporter [] None 1.

Definition report (r : Reporter) (state : string) : Reporter :=
  mk_reporter (rp_queue r ++ [state]) (rp_current r) (rp_seq r).

(** [rx.recv()] *)
Definition receive (r : Reporter) : option Reporter :=
  match rp_current r, rp_queue r with
  | None, state :: queue => Some (mk_reporter queue (Some state) (rp_seq r))
  | _, _ => None
  end.

(** [try_report_run_state] sends one frame, then reads frames until the
    acknowledgement of this number. *)
Definition attempt (r : Reporter) : option (string * Z) := state ← rp_current r; Some (state, rp_seq r).

Definition acknowledge (r : Reporter) (ack_seq : Z) : option Reporter :=
  match rp_current r with
  | Some _ => if (ack_seq =? rp_seq r)%Z then Some (mk_reporter (rp_queue r) None (sat_add64 (rp_seq r) 1)) else None
  | None => None
  end.

(** The daemon's arm: every valid number is acknowledged, stale ones too. *)
Definition handle_report (state : string) (seq : Z) (meta : result (option SessionMeta) string) (delivered : bool)
    (d : Suspend.St) : option Z * Suspend.St :=
  let '(r, d', _) := Suspend.set_run_state_report state seq meta delivered d in
  (match r with Ok _ => Some seq | Err _ => None end, d').

(** ** The pane

    [run_session] reports ["shell-fallback"] when supervision ends, waits a moment for
    the acknowledgement and becomes the shell; on an error it exits.  Either way its
    reporter thread is gone. *)
Inductive Stage := Supervising | Falling | Gone (fell : bool).

Record Link := mk_link {
  ln_sup : Sup;
  ln_stage : Stage;
  ln_reporter : Reporter;
  ln_network : list (string * Z);
  ln_acks : list Z;
  ln_daemon : Suspend.St;
  ln_applied : list string;
}.

Definition with_reporter (w : Link) (r : Reporter) : Link :=
  mk_link (ln_sup w) (ln_stage w) r (ln_network w) (ln_acks w) (ln_daemon w) (ln_applied w).

Definition gone (s : Stage) : bool := match s with Gone _ => true | _ => false end.

(** The reports of a log, oldest first. *)
Fixpoint reports (l : list Event) : list string :=
  match l with
  | [] => []
  | Report state :: l' => reports l' ++ [state]
  | _ :: l' => reports l'
  end.

(** Whether a report changes what the daemon knows. *)
Definition applies (d : Suspend.St) (state : string) (seq : Z) (meta : result (option SessionMeta) string) : bool :=
  Suspend.valid_report state && Suspend.agent_answer meta && negb (Suspend.stale_report (Suspend.st_live d) seq).

Section link.
Context (header_json : string -> option (option string * option string)).
Context (agent : Agent) (cwd : string) (slot : option Z).

Inductive step : Link -> Link -> Prop :=
| ln_supervise w s' new :
    ln_stage w = Supervising -> Supervisor.step header_json agent cwd 3 slot (ln_sup w) s' -> sp_log s' = new ++ sp_log (ln_sup w) ->
    step w (mk_link s' Supervising (fold_left report (reports new) (ln_reporter w)) (ln_network w) (ln_acks w) (ln_daemon w) (ln_applied w))
| ln_fallback w o :
    ln_stage w = Supervising -> sp_phase (ln_sup w) = Returned o ->
    step w (mk_link (ln_sup w) Falling (report (ln_reporter w) "shell-fallback") (ln_network w) (ln_acks w) (ln_daemon w) (ln_applied w))
| ln_exec w : ln_stage w = Falling ->
    step w (mk_link (ln_sup w) (Gone true) (ln_reporter w) (ln_network w) (ln_acks w) (ln_daemon w) (ln_applied w))
| ln_exit w e : ln_stage w = Supervising -> sp_phase (ln_sup w) = Failed e ->
    step w (mk_link (ln_sup w) (Gone false) (ln_reporter w) (ln_network w) (ln_acks w) (ln_daemon w) (ln_applied w))
| ln_receive w r : gone (ln_stage w) = false -> receive (ln_reporter w) = Some r -> step w (with_reporter w r)
| ln_attempt w frame : gone (ln_stage w) = false -> attempt (ln_reporter w) = Some frame ->
    step w (mk_link (ln_sup w) (ln_stage w) (ln_reporter w) (ln_network w ++ [frame]) (ln_acks w) (ln_daemon w) (ln_applied w))
| ln_lost w a frame b : ln_network w = a ++ frame :: b ->
    step w (mk_link (ln_sup w) (ln_stage w) (ln_reporter w) (a ++ b) (ln_acks w) (ln_daemon w) (ln_applied w))
| ln_handle w a state seq b meta delivered ack d' :
    ln_network w = a ++ (state, seq) :: b -> handle_report state seq meta delivered (ln_daemon w) = (ack, d') ->
    step w (mk_link (ln_sup w) (ln_stage w) (ln_reporter w) (a ++ b) (match ack with Some n => n :: ln_acks w | None => ln_acks w end)
              d' (ln_applied w ++ (if applies (ln_daemon w) state seq meta then [state] else [])))
| ln_acknowledge w n r : gone (ln_stage w) = false -> n ∈ ln_acks w -> acknowledge (ln_reporter w) n = Some r ->
    step w (with_reporter w r)
| ln_daemon_moves w q out d' :
    Suspend.step (ln_daemon w) q out d' -> (forall state seq a, q <> Suspend.R_report state seq a) ->
    step w (mk_link (ln_sup w) (ln_stage w) (ln_reporter w) (ln_network w) (ln_acks w) d' (ln_applied w)).

(** The daemon has just spawned the pane. *)
Inductive run : Link -> Prop :=
| run_start ctl d : Suspend.lv_run_state_seq (Suspend.st_live d) = 0%Z ->
    run (mk_link (mk_sup ctl 0 0 None Top []) Supervising new_reporter [] [] d [])
| run_step w w' : run w -> step w w' -> run w'.

(** All reports made, in order. *)
Definition sent (w : Link) : list string :=
  reports (sp_log (ln_sup w))
  ++ match ln_stage w with Falling | Gone true => ["shell-fallback"%string] | _ => [] end.

Definition known (w : Link) : option string * Z := Suspend.phase (Suspend.st_live (ln_daemon w)).

Definition option_list (o : option string) : list string := match o with Some x => [x] | None => [] end.

(** The highest number used. *)
Definition top (w : Link) : Z := (rp_seq (ln_reporter w) - 1 + Z.of_nat (length (option_list (rp_current (ln_reporter w)))))%Z.

Record link_ok (w : Link) : Prop := mk_link_ok {
  lo_run : Supervisor.run header_json agent cwd 3 slot (ln_sup w);
  lo_sent : exists past, sent w = past ++ option_list (rp_current (ln_reporter w)) ++ rp_queue (ln_reporter w)
    /\ Z.of_nat (length past) = (rp_seq (ln_reporter w) - 1)%Z;
  lo_network : forall x n, (x, n) ∈ ln_network w -> (1 <= n <= top w)%Z /\ sent w !! Z.to_nat (n - 1) = Some x;
  lo_known : (rp_seq (ln_reporter w) - 1 <= (known w).2 <= top w)%Z;
  lo_applied : ln_applied w = take (Z.to_nat (known w).2) (sent w);
  lo_acks : forall n, n ∈ ln_acks w -> (n <= (known w).2)%Z;
  lo_state : forall x, last (ln_applied w) = Some x -> (known w).1 = Some (Suspend.projected x);
}.

Lemma reports_app new l : reports (new ++ l) = reports l ++ reports new.
Proof. induction new as [|e new IH]; simpl; [by rewrite app_nil_r|]. destruct e; rewrite ?IH, ?app_assoc; done. Qed.

Lemma fold_report r l : fold_left report l r = mk_reporter (rp_queue r ++ l) (rp_current r) (rp_seq r).
Proof.
  revert r. induction l as [|x l IH]; intros r; simpl; [rewrite app_nil_r; by destruct r|]. rewrite IH. simpl. by rewrite <- app_assoc.
Qed.
Lemma handle_known state seq meta delivered d ack d' :
  handle_report state seq meta delivered d = (ack, d') -> (0 < seq <= u64_max)%Z ->
  let before := Suspend.phase (Suspend.st_live d) in
  let after := Suspend.phase (Suspend.st_live d') in
  (if applies d state seq meta then (before.2 < seq)%Z /\ after = (Some (Suspend.projected state), seq) else after = before)
  /\ (forall n, ack = Some n -> n = seq /\ (seq <= after.2)%Z).
Proof.
  unfold handle_report. destruct (Suspend.set_run_state_report state seq meta delivered d) as [[r d1] out] eqn:H.
  intros E Hseq. injection E as <- <-. set (before := Suspend.phase _). set (after := Suspend.phase (Suspend.st_live d1)).
  assert (Hr : forall b, r = Ok b -> Suspend.valid_report state && Suspend.agent_answer meta = true).
  { intros b ->. unfold Suspend.set_run_state_report in H. unfold Suspend.agent_answer.
    destruct (Suspend.valid_report state); [|done]. destruct (match meta with Ok _ => _ | Err _ => _ end); [done|]. done. }
  assert (Hp : after = Suspend.reported before [Suspend.R_report state seq (Suspend.agent_answer meta)]).
  { eapply Suspend.step_phase, Suspend.st_report; [split; lia|exact H]. }
  unfold applies, Suspend.stale_report. cbn [Suspend.reported] in Hp. subst before. unfold Suspend.phase at 1 in Hp. cbn [fst snd] in Hp.
  rewrite (proj2 (Z.eqb_neq seq 0)), (proj2 (Z.ltb_lt 0 seq)) in Hp |- * by lia. cbn [andb orb] in Hp |- *.
  destruct (Suspend.agent_answer meta) eqn:Ha; cycle 1.
  { rewrite andb_false_r in Hr |- *. cbn [andb]. split; [exact Hp|]. intros n. destruct r as [b|]; [|done]. by specialize (Hr b eq_refl). }
  rewrite andb_true_r in Hr |- *. destruct (Suspend.valid_report state); cbn [andb] in Hp, Hr |- *; cycle 1.
  { split; [exact Hp|]. intros n. destruct r as [b|]; [|done]. by specialize (Hr b eq_refl). }
  change (Suspend.phase (Suspend.st_live d)).2 with (Suspend.lv_run_state_seq (Suspend.st_live d)) in Hp.
  destruct (Z.leb_spec seq (Suspend.lv_run_state_seq (Suspend.st_live d))) as [Hle|Hlt]; cbn [negb] in Hp |- *.
  - split; [exact Hp|]. intros n. destruct r; [|done]. intros [= <-]. split; [done|]. rewrite Hp. exact Hle.
  - split; [split; [exact Hlt|exact Hp]|]. intros n. destruct r; [|done]. intros [= <-]. split; [done|]. by rewrite Hp.
Qed.

(** More reports do not disturb the earlier ones. *)
Lemma lookup_grows (l k : list string) i x : l !! i = Some x -> (l ++ k) !! i = Some x.
Proof. intros H. by apply lookup_app_l_Some. Qed.

Definition settles (w w' : Link) : Prop :=
  ln_network w' = ln_network w /\ ln_acks w' = ln_acks w /\ ln_daemon w' = ln_daemon w /\ ln_applied w' = ln_applied w.

Lemma top_bound w : link_ok w -> (top w <= Z.of_nat (length (sent w)))%Z.
Proof.
  intros [_ (past & E & Hl) _ _ _ _ _]. rewrite E, !length_app. unfold top. lia.
Qed.

(** What is queued is sent later. *)
Lemma enqueue_ok w w' new :
  link_ok w -> settles w w' -> Supervisor.run header_json agent cwd 3 slot (ln_sup w') ->
  ln_reporter w' = mk_reporter (rp_queue (ln_reporter w) ++ new) (rp_current (ln_reporter w)) (rp_seq (ln_reporter w)) ->
  sent w' = sent w ++ new -> link_ok w'.
Proof.
  intros Hok (En & Ea & Ed & Ep) R Er Es. pose proof (top_bound w Hok) as Ht.
  destruct Hok as [_ (past & E & Hl) Hn Hk Hp Ha Hs].
  assert (Et : top w' = top w) by (unfold top; by rewrite Er). assert (Eknown : known w' = known w) by (unfold known; by rewrite Ed).
  constructor; rewrite ?Er, ?Es, ?En, ?Ea, ?Ep, ?Et, ?Eknown; try done.
  - exists past. rewrite E, <- !app_assoc. done.
  - intros x n Hin. destruct (Hn x n Hin) as [? ?]. split; [done|]. by apply lookup_grows.
  - rewrite Hp, take_app_le; [done|]. lia.
Qed.

(** The reporter moves on. *)
Lemma reporter_ok w r :
  link_ok w -> (exists past, sent w = past ++ option_list (rp_current r) ++ rp_queue r /\ Z.of_nat (length past) = (rp_seq r - 1)%Z) ->
  (rp_seq r - 1 <= (known w).2)%Z -> (top w <= top (with_reporter w r))%Z -> link_ok (with_reporter w r).
Proof.
  intros [R _ Hn Hk Hp Ha Hs] He Hb Ht. constructor; try done.
  - intros x n Hin. destruct (Hn x n Hin) as [? ?]. split; [lia|done].
  - change (known (with_reporter w r)) with (known w). change (ln_reporter (with_reporter w r)) with r. lia.
Qed.

Lemma handled_ok w a state seq b meta delivered ack d' :
  link_ok w -> (Z.of_nat (length (sent w)) < u64_max)%Z ->
  ln_network w = a ++ (state, seq) :: b -> handle_report state seq meta delivered (ln_daemon w) = (ack, d') ->
  link_ok (mk_link (ln_sup w) (ln_stage w) (ln_reporter w) (a ++ b) (match ack with Some n => n :: ln_acks w | None => ln_acks w end)
             d' (ln_applied w ++ (if applies (ln_daemon w) state seq meta then [state] else []))).
Proof.
  intros Hok Hlen Enet Hh. pose proof (top_bound w Hok) as Ht. destruct Hok as [R He Hn Hk Hp Ha Hs].
  destruct (Hn state seq) as [Hrange Hat]; [rewrite Enet; by apply elem_of_app; right; left|].
  apply handle_known in Hh as [Happ Hack]; [|lia].
  assert (Hnet : forall x n, (x, n) ∈ a ++ b -> (x, n) ∈ ln_network w).
  { intros x n. rewrite Enet, !elem_of_app, elem_of_cons. tauto. }
  set (w' := mk_link _ _ _ _ _ _ _). change (Suspend.phase (Suspend.st_live d')) with (known w') in Happ, Hack.
  change (Suspend.phase (Suspend.st_live (ln_daemon w))) with (known w) in Happ.
  assert (Hmono : ((known w).2 <= (known w').2 <= top w)%Z).
  { destruct (applies _ _ _ _); [destruct Happ as [? ->]; cbn [snd]; lia|rewrite Happ; lia]. }
  constructor; try done; change (sent w') with (sent w); change (top w') with (top w); change (ln_reporter w') with (ln_reporter w).
  - intros x n Hin. apply Hn, Hnet, Hin.
  - lia.
  - change (ln_applied w') with (ln_applied w ++ (if applies (ln_daemon w) state seq meta then [state] else [])).
    destruct (applies _ _ _ _); [|by rewrite Happ, app_nil_r]. destruct Happ as [Hlt ->]. cbn [snd]. rewrite Hp. assert (E : seq = ((known w).2 + 1)%Z).
    { unfold top in *. destruct (rp_current _); simpl in *; lia. }
    replace (Z.to_nat seq) with (S (Z.to_nat (known w).2)) by (destruct He as (past & _ & He); lia).
    rewrite (take_S_r _ _ state); [done|]. rewrite <- Hat. f_equal. lia.
  - intros n. change (ln_acks w') with (match ack with Some n => n :: ln_acks w | None => ln_acks w end). destruct ack as [m|]; [|intros Hin; specialize (Ha n Hin); lia].
    rewrite elem_of_cons. intros [-> |Hin]; [by destruct (Hack m eq_refl) as [-> ?]|]. specialize (Ha n Hin). lia.
  - intros x. change (ln_applied w') with (ln_applied w ++ (if applies (ln_daemon w) state seq meta then [state] else [])).
    destruct (applies _ _ _ _).
    + rewrite last_snoc. intros [= <-]. by destruct Happ as [_ ->].
    + rewrite app_nil_r, Happ. apply Hs.
Qed.

Lemma sent_grows w w' : step w w' -> length (sent w) <= length (sent w').
Proof.
  destruct 1 as [w s' new Hst _ Hl|w o Hst _|w Hst|w e Hst _|w r _ _|w f _ _|w a f b _|w a st sq b m dl ack d' _ _|w n r _ _ _|w q out d' _ _];
    unfold sent; simpl; try done.
  - rewrite Hst, Hl, reports_app, !length_app. lia.
  - rewrite Hst, !length_app. simpl. lia.
  - by rewrite Hst.
  - by rewrite Hst.
Qed.

Lemma receive_ok w r : link_ok w -> receive (ln_reporter w) = Some r -> link_ok (with_reporter w r).
Proof.
  intros Hok Hr. unfold receive in Hr. destruct (rp_current _) eqn:Ec; [done|]. destruct (rp_queue _) as [|x q] eqn:Eq; [done|].
  injection Hr as <-. pose proof Hok as [_ (past & E & Hl) _ Hk _ _ _]. rewrite Ec, Eq in E.
  apply reporter_ok; [done|by exists past|exact (proj1 Hk)|]. unfold top. rewrite Ec. simpl. lia.
Qed.

Lemma acknowledge_ok w n r :
  link_ok w -> (Z.of_nat (length (sent w)) < u64_max)%Z -> n ∈ ln_acks w -> acknowledge (ln_reporter w) n = Some r ->
  link_ok (with_reporter w r).
Proof.
  intros Hok Hlen Hin Hr. unfold acknowledge in Hr. destruct (rp_current _) as [x|] eqn:Ec; [|done].
  destruct (Z.eqb_spec n (rp_seq (ln_reporter w))) as [->|]; [|done]. injection Hr as <-.
  pose proof (top_bound w Hok) as Ht. unfold top in Ht. rewrite Ec in Ht. simpl in Ht.
  pose proof Hok as [_ (past & E & Hl) _ Hk _ Ha _]. specialize (Ha _ Hin). rewrite Ec in E. unfold sat_add64.
  apply reporter_ok; [done| | |].
  - exists (past ++ [x]). simpl. rewrite E, <- !app_assoc. split; [done|]. rewrite length_app. simpl. lia.
  - simpl. change (Suspend.lv_run_state_seq (Suspend.st_live (ln_daemon w))) with (known w).2. lia.
  - unfold top. rewrite Ec. simpl. lia.
Qed.

Lemma link_step_ok w w' : link_ok w -> (Z.of_nat (length (sent w')) < u64_max)%Z -> step w w' -> link_ok w'.
Proof.
  intros Hok Hlen H. pose proof (sent_grows w w' H) as Hg. assert (Hlen0 : (Z.of_nat (length (sent w)) < u64_max)%Z) by lia.
  destruct H as [w s' new Hst Hs El|w o Hst _|w Hst|w e Hst _|w r Hst Hr|w f Hst Hf|w a f b En|w a st sq b m dl ack d' En Hh|w n r Hst Hin Hr|w q out d' Hs Hq].
  - apply (enqueue_ok w _ (reports new)); [done|done| | |].
    + eapply Supervisor.run_step; [apply (lo_run w Hok)|exact Hs].
    + apply fold_report.
    + unfold sent. simpl. by rewrite Hst, El, reports_app, !app_nil_r.
  - apply (enqueue_ok w _ ["shell-fallback"%string]); [done|done|apply (lo_run w Hok)|done|]. unfold sent. simpl. by rewrite Hst, app_nil_r.
  - assert (E : sent (mk_link (ln_sup w) (Gone true) (ln_reporter w) (ln_network w) (ln_acks w) (ln_daemon w) (ln_applied w)) = sent w)
      by (unfold sent; by rewrite Hst).
    destruct Hok. by constructor; rewrite ?E.
  - assert (E : sent (mk_link (ln_sup w) (Gone false) (ln_reporter w) (ln_network w) (ln_acks w) (ln_daemon w) (ln_applied w)) = sent w)
      by (unfold sent; by rewrite Hst).
    destruct Hok. by constructor; rewrite ?E.
  - by apply receive_ok.
  - unfold attempt in Hf. destruct (rp_current (ln_reporter w)) as [x|] eqn:Ec; [|done]. injection Hf as <-.
    pose proof (top_bound w Hok) as Ht. destruct Hok as [R He Hn Hk Hp Ha Hs]. constructor; try done.
    intros y n. simpl. rewrite elem_of_app, list_elem_of_singleton. intros [Hin|[= -> ->]]; [by apply Hn|].
    destruct He as (past & E & Hl). rewrite Ec in E. unfold sent in E. unfold sent, top. simpl. rewrite Ec, E. simpl.
    split; [lia|]. replace (Z.to_nat (rp_seq (ln_reporter w) - 1)) with (length past) by lia. by apply list_lookup_middle.
  - destruct Hok as [R He Hn Hk Hp Ha Hs]. constructor; try done. intros x n Hin. apply Hn. rewrite En.
    simpl in Hin. rewrite elem_of_app, elem_of_cons in *. tauto.
  - by eapply handled_ok.
  - by eapply acknowledge_ok.
  - set (w' := mk_link _ _ _ _ _ _ _) in *. assert (E : known w' = known w).
    { unfold known at 1. simpl. rewrite (Suspend.step_phase _ _ _ _ Hs). destruct q; try done. by exfalso; eapply Hq. }
    destruct Hok as [R He Hn Hk Hp Ha Hst]. constructor; rewrite ?E; done.
Qed.

Lemma run_link_ok w : run w -> (Z.of_nat (length (sent w)) < u64_max)%Z -> link_ok w.
Proof.
  induction 1 as [ctl d Hd|w w' R IH H]; intros Hlen.
  - constructor; simpl; try done.
    + apply Supervisor.run_start.
    + by exists [].
    + intros x n Hin. by apply elem_of_nil in Hin.
    + unfold top. simpl. rewrite Hd. lia.
    + by rewrite Hd.
    + intros n Hin. by apply elem_of_nil in Hin.
  - apply (link_step_ok w); [|done|done]. apply IH. pose proof (sent_grows w w' H). lia.
Qed.

Lemma last_reports l : last (reports l) = last_report l.
Proof. induction l as [|e l IH]; [done|]. destruct e; simpl; rewrite ?last_snoc; done. Qed.

(** What the daemon knows when it knows the supervisor's last word. *)
Definition shown (w : Link) : Prop :=
  match ln_stage w with
  | Supervising =>
      match sp_phase (ln_sup w) with
      | Running | Reclaiming => (known w).1 = Some "claude"%string
      | Parked => (known w).1 = Some "suspended"%string
      | Backoff _ => (known w).1 = Some "claude-retrying"%string
      | _ => True
      end
  | Falling | Gone true => (known w).1 = Some "shell-fallback"%string
  | Gone false => True
  end.

Definition settled (w : Link) : Prop := rp_queue (ln_reporter w) = [] /\ rp_current (ln_reporter w) = None.

Lemma last_shown w x : link_ok w -> last (sent w) = Some x -> (known w).1 = Some (Suspend.projected x) -> shown w.
Proof.
  intros Hok Hx Hk. unfold shown. rewrite Hk. pose proof (lo_run w Hok) as R. apply Supervisor.sup_run_ok in R as [_ _ Ht _ _].
  unfold sent in Hx. destruct (ln_stage w) as [| |[]]; [|by rewrite last_snoc in Hx; injection Hx as <-..|done].
  rewrite app_nil_r, last_reports in Hx. rewrite Hx in Ht. destruct (sp_phase (ln_sup w)); simpl in Ht; try done.
  - by injection Ht as ->.
  - by destruct Ht as [[= ->]|[= ->]].
  - by destruct Ht as [[= ->]|[= ->]].
  - by injection Ht as ->.
Qed.

(** C34. However attempts are lost, repeated, delayed and overtaken, and whatever else
    happens to the session meanwhile, the daemon takes a supervisor's reports exactly
    once and in the order they were made: those it has taken are the first of those
    sent, and its phase is that of the last of them.  When nothing is left to
    acknowledge it has taken all, and shows a running agent as running, a parked one
    as suspended, a crashed one as retrying and a pane that fell back as a shell. *)
Theorem daemon_follows (w : Link) (R : run w) (Hlen : (Z.of_nat (length (sent w)) < u64_max)%Z) :
  ln_applied w = take (Z.to_nat (known w).2) (sent w)
  /\ (forall x, last (ln_applied w) = Some x -> (known w).1 = Some (Suspend.projected x))
  /\ (settled w -> ln_applied w = sent w /\ (sent w <> [] -> shown w)).
Proof.
  apply run_link_ok in R as Hok; [|done]. pose proof Hok as [_ (past & E & Hl) _ Hk Hp _ Hs].
  split; [done|]. split; [done|]. intros [Hq Hc].
  assert (Hall : ln_applied w = sent w).
  { rewrite Hc, Hq, !app_nil_r in E. rewrite Hp, E. apply take_ge. lia. }
  split; [done|]. intros Hne. destruct (last (sent w)) as [x|] eqn:Hx; [|by apply last_None in Hx].
  apply (last_shown w x Hok Hx). apply Hs. by rewrite Hall.
Qed.

End link.

(** ** A pane that starts, whose report is sent twice, and is acknowledged *)

Definition demo_live : Suspend.Live := Suspend.fresh (Some 7%Z) 1.
Definition demo_meta : SessionMeta := mk_meta "a" "/src" Claude 0 None false false None 1.
Definition demo_link (r : Reporter) (network : list (string * Z)) (acks : list Z) (d : Suspend.St) (applied : list string) : Link :=
  mk_link (demo_advance (Ok None) demo_start) Supervising r network acks d applied.
Definition demo_daemon : Suspend.St := Suspend.mk_st demo_live 0.
Definition demo_told : Suspend.St :=
  Suspend.mk_st (Suspend.set_run_state_seq 1 (Suspend.set_run_state (Some "claude"%string) demo_live)) 0.
Definition demo_end : Link := demo_link (mk_reporter [] None 2) [("claude"%string, 1%Z)] [1%Z] demo_told ["claude"%string].

Lemma demo_reaches : run no_json (A_Claude "s.json") "/src" (Some 4%Z) demo_end.
Proof.
  set (w0 := mk_link demo_start Supervising new_reporter [] [] demo_daemon []).
  set (w1 := (demo_link (mk_reporter ["claude"%string] None 1) [] [] demo_daemon [])).
  set (w2 := (demo_link (mk_reporter [] (Some "claude"%string) 1) [] [] demo_daemon [])).
  set (w3 := (demo_link (mk_reporter [] (Some "claude"%string) 1) [("claude"%string, 1%Z)] [] demo_daemon [])).
  set (w4 := (demo_link (mk_reporter [] (Some "claude"%string) 1) [("claude"%string, 1%Z); ("claude"%string, 1%Z)] [] demo_daemon [])).
  set (w5 := (demo_link (mk_reporter [] (Some "claude"%string) 1) [("claude"%string, 1%Z)] [1%Z] demo_told ["claude"%string])).
  apply run_step with w5; [|exact (ln_acknowledge _ _ _ _ w5 1 (mk_reporter [] None 2) eq_refl (list_elem_of_here _ _) eq_refl)].
  apply run_step with w4;
    [|exact (ln_handle _ _ _ _ w4 [] "claude" 1 [("claude"%string, 1%Z)] (Ok (Some demo_meta)) true (Some 1%Z) demo_told eq_refl eq_refl)].
  apply run_step with w3; [|exact (ln_attempt _ _ _ _ w3 ("claude"%string, 1%Z) eq_refl eq_refl)].
  apply run_step with w2; [|exact (ln_attempt _ _ _ _ w2 ("claude"%string, 1%Z) eq_refl eq_refl)].
  apply run_step with w1; [|exact (ln_receive _ _ _ _ w1 (mk_reporter [] (Some "claude"%string) 1) eq_refl eq_refl)].
  apply run_step with w0; [by apply run_start|].
  exact (ln_supervise _ _ _ _ w0 (demo_advance (Ok None) demo_start) [Report "claude"; Launch (Some recorded) demo_resumed]
    eq_refl (su_advance _ _ _ _ _ _ _) eq_refl).
Qed.

Lemma daemon_follows_witness :
  run no_json (A_Claude "s.json") "/src" (Some 4%Z) demo_end /\ ln_applied demo_end = sent demo_end /\ shown demo_end.
Proof.
  split; [exact demo_reaches|].
  destruct (proj2 (proj2 (daemon_follows no_json (A_Claude "s.json") "/src" (Some 4%Z) demo_end demo_reaches eq_refl)) (conj eq_refl eq_refl)) as [H1 H2].
  split; [exact H1|by apply H2].
Defined.
