(* ===== verification/Search.v ===== *)
(** * Scrollback search

    [crates/amber/src/search.rs], with its callers in [manager.rs]
    ([search_scrollback_cancellable]) and [daemon.rs] (the [SearchScrollback] arm).
    Text is a list of characters; [to_lowercase], whose tables are Unicode's, is an
    argument, and so are the answers of [cancelled], one per call. *)
From S2P Require Import Prelude Utf8.
From S2P Require Import Wire.

Definition DEFAULT_LIMIT : nat := 100.
Definition MAX_LIMIT : nat := 200.
Definition MAX_QUERY_CHARS : nat := 256.
Definition MAX_PREVIEW_CHARS : nat := 240.

(** ** Text of a scrollback *)

Inductive StripState := Text | Escape | Csi | ControlString (escape : bool).

Definition is_text (b : byte) : bool := between 32 126 b || between 128 255 b.

(** One byte: the state after it and what it adds. *)
Definition strip_byte (state : StripState) (b : byte) : StripState * list byte :=
  match state with
  | Text =>
      if (b =? 27)%Z then (Escape, [])
      else if (b =? 10)%Z then (Text, [b])
      else if (b =? 9)%Z then (Text, [32%Z])
      else if is_text b then (Text, [b])
      else (Text, [])
  | Escape =>
      if (b =? 91)%Z then (Csi, [])
      else if existsb (Z.eqb b) [93; 80; 95; 94; 88]%Z then (ControlString false, [])
      else (Text, [])
  | Csi => if between 64 126 b then (Text, []) else (Csi, [])
  | ControlString escape =>
      if (b =? 7)%Z || (escape && (b =? 92)%Z) then (Text, []) else (ControlString (b =? 27)%Z, [])
  end.

Fixpoint strip (state : StripState) (l : list byte) : list byte :=
  match l with
  | [] => []
  | b :: l' => let '(state', out) := strip_byte state b in out ++ strip state' l'
  end.

(** [String::from_utf8_lossy]: a maximal invalid prefix becomes one U+FFFD. *)
Definition invalid_prefix (l : list byte) : nat :=
  match l with
  | b0 :: b1 :: r =>
      if between 224 239 b0 then (if second_ok b0 b1 then 2 else 1)
      else if between 240 244 b0 then
        if second_ok b0 b1 then match r with b2 :: _ => if is_cont b2 then 3 else 2 | [] => 2 end else 1
      else 1
  | _ => 1
  end.

Fixpoint lossy (fuel : nat) (l : list byte) : list Z :=
  match l, fuel with
  | [], _ | _, 0 => []
  | _, S fuel' =>
      match decode_char l with
      | Some (c, r) => c :: lossy fuel' r
      | None => 65533%Z :: lossy fuel' (drop (invalid_prefix l) l)
      end
  end.

(** Every character consumes a byte. *)
Definition from_utf8_lossy (l : list byte) : list Z := lossy (length l) l.

Definition sanitize_scrollback (bytes : list byte) : list Z := from_utf8_lossy (strip Text bytes).

(** [char::encode_utf8], for building a [String] of characters. *)
Definition encode_char (c : Z) : list byte :=
  (if c <? 128 then [c]
   else if c <? 2048 then [192 + c / 64; 128 + c mod 64]
   else if c <? 65536 then [224 + c / 4096; 128 + (c / 64) mod 64; 128 + c mod 64]
   else [240 + c / 262144; 128 + (c / 4096) mod 64; 128 + (c / 64) mod 64; 128 + c mod 64])%Z.

Definition string_of_chars (l : list Z) : string := string_of_bytes (mjoin (map encode_char l)).

(** ** Lines and previews *)

(** [str::lines] *)
Definition strip_cr (line : list Z) : list Z :=
  match reverse line with 13%Z :: r => reverse r | _ => line end.

Fixpoint lines_from (current : list Z) (l : list Z) : list (list Z) :=
  match l with
  | [] => match current with [] => [] | _ => [reverse current] end
  | c :: l' => if (c =? 10)%Z then strip_cr (reverse current) :: lines_from [] l' else lines_from (c :: current) l'
  end.
Definition lines (l : list Z) : list (list Z) := lines_from [] l.

(** [str::split_whitespace] *)
Fixpoint words_from (current : list Z) (l : list Z) : list (list Z) :=
  let flush := match current with [] => [] | _ => [reverse current] end in
  match l with
  | [] => flush
  | c :: l' => if is_whitespace c then flush ++ words_from [] l' else words_from (c :: current) l'
  end.
Definition split_whitespace (l : list Z) : list (list Z) := words_from [] l.

Fixpoint join (sep : list Z) (l : list (list Z)) : list Z :=
  match l with
  | [] => []
  | [w] => w
  | w :: l' => w ++ sep ++ join sep l'
  end.

Definition preview (line : list Z) : list Z := take MAX_PREVIEW_CHARS (join [32%Z] (split_whitespace line)).

(** [str::contains] *)
Fixpoint starts_with (l needle : list Z) : bool :=
  match needle, l with
  | [], _ => true
  | n :: needle', c :: l' => (n =? c)%Z && starts_with l' needle'
  | _ :: _, [] => false
  end.
Fixpoint contains (l needle : list Z) : bool :=
  starts_with l needle || match l with [] => false | _ :: l' => contains l' needle end.

Definition validate_query (query : list Z) : result (list Z) string :=
  let query := trim query in
  if length query =? 0 then Err "search query is empty"%string
  else if MAX_QUERY_CHARS <? length query then Err "search query exceeds 256 characters"%string
  else Ok query.

(** ** The search *)

Inductive Progress :=
| Cancelled
| Full (results : list SearchResult)
| Continue (checks : nat) (results : list SearchResult).

Section search.
Context (to_lowercase : list Z -> list Z).
Context (cancelled : nat -> bool).

(** [Full]: the loop over sessions is left. *)
Fixpoint scan_lines (needle : list Z) (limit : nat) (name : string) (index : nat) (ls : list (list Z))
    (checks : nat) (results : list SearchResult) : Progress :=
  match ls with
  | [] => Continue checks results
  | line :: ls' =>
      if cancelled checks then Cancelled
      else if contains (to_lowercase line) needle then
        let results := results ++ [mk_search_result name (Z.min u32_max (Z.of_nat index + 1)) (string_of_chars (preview line))] in
        if length results =? limit then Full results
        else scan_lines needle limit name (S index) ls' (S checks) results
      else scan_lines needle limit name (S index) ls' (S checks) results
  end.

Definition wants (names : list string) (name : string) : bool :=
  bool_decide (names = []) || bool_decide (name ∈ names).

Fixpoint scan_sessions (needle : list Z) (limit : nat) (names : list string) (ordered : list (string * list byte))
    (checks : nat) (results : list SearchResult) : option (list SearchResult) :=
  match ordered with
  | [] => Some results
  | (name, bytes) :: rest =>
      if cancelled checks then None
      else if negb (wants names name) then scan_sessions needle limit names rest (S checks) results
      else match scan_lines needle limit name 0 (lines (sanitize_scrollback bytes)) (S checks) results with
           | Cancelled => None
           | Full results => Some results
           | Continue checks results => scan_sessions needle limit names rest checks results
           end
  end.

Definition effective_limit (limit : Z) : nat :=
  if (limit =? 0)%Z then DEFAULT_LIMIT else Z.to_nat limit `min` MAX_LIMIT.

(** [checks]: how often [cancelled] was already called. *)
Definition search_snapshots_cancellable (query : list Z) (sessions : list (string * list byte)) (names : list string)
    (limit : Z) (checks : nat) : result (option (list SearchResult)) string :=
  match validate_query query with
  | Err e => Err e
  | Ok query =>
      Ok (scan_sessions (to_lowercase query) (effective_limit limit) names
            (sort_by (fun a b => string_leb a.1 b.1) sessions) checks [])
  end.

(** Copying the rings of the wanted sessions, in the order of the table. *)
Fixpoint copy_snapshots (handles : list (string * list byte)) (checks : nat) : option (nat * list (string * list byte)) :=
  match handles with
  | [] => Some (checks, [])
  | h :: rest =>
      if cancelled checks then None
      else '(checks', snaps) ← copy_snapshots rest (S checks); Some (checks', h :: snaps)
  end.

(** [table]: the live sessions with their scrollback, in the order the map iterates. *)
Definition search_scrollback_cancellable (query : list Z) (table : list (string * list byte)) (names : list string)
    (limit : Z) : result (option (list SearchResult)) string :=
  match validate_query query with
  | Err e => Err e
  | Ok _ =>
      match copy_snapshots (List.filter (fun s => wants names s.1) table) 0 with
      | None => Ok None
      | Some (checks, snapshots) => search_snapshots_cancellable query snapshots names limit checks
      end
  end.

(** The daemon's arm: the reply, if there is one. *)
Definition handle_search {Json : Type} (request_id : Z) (query : string) (names : list string) (limit : Z)
    (table : list (string * list byte)) : option (ControlMsg Json) :=
  if match validate_query (chars query) with Err _ => true | Ok _ => false end
     || (1000 <? length names) || existsb (fun name => 512 <? String.length name) names
  then Some (M_Error Json "invalid scrollback search request")
  else match search_scrollback_cancellable (chars query) table names limit with
       | Ok (Some results) => Some (M_SearchResults Json request_id query results)
       | Ok None => None
       | Err error => Some (M_Error Json error)
       end.

(** ** What a search finds *)

Definition hit (name : string) (index : nat) (line : list Z) : SearchResult :=
  mk_search_result name (Z.min u32_max (Z.of_nat index + 1)) (string_of_chars (preview line)).

Fixpoint line_hits (needle : list Z) (name : string) (index : nat) (ls : list (list Z)) : list SearchResult :=
  match ls with
  | [] => []
  | line :: ls' =>
      (if contains (to_lowercase line) needle then [hit name index line] else []) ++ line_hits needle name (S index) ls'
  end.

(** Every matching line of every wanted session, by name and then by line. *)
Definition all_hits (needle : list Z) (names : list string) (table : list (string * list byte)) : list SearchResult :=
  mjoin (map (fun s => line_hits needle s.1 0 (lines (sanitize_scrollback s.2)))
    (sort_by (fun a b => string_leb a.1 b.1) (List.filter (fun s => wants names s.1) table))).

Lemma scan_lines_spec needle limit name ls index checks results :
  length results < limit ->
  match scan_lines needle limit name index ls checks results with
  | Cancelled => exists n, cancelled n = true
  | Full r => length r = limit /\ exists more, results ++ line_hits needle name index ls = r ++ more
  | Continue _ r => length r < limit /\ r = results ++ line_hits needle name index ls
  end.
Proof.
  revert index checks results. induction ls as [|line ls IH]; intros index checks results Hlen; simpl.
  { split; [done|]. by rewrite app_nil_r. }
  destruct (cancelled checks) eqn:Hc; [by exists checks|]. destruct (contains _ _); [|by apply IH].
  fold (hit name index line). destruct (Nat.eqb_spec (length (results ++ [hit name index line])) limit) as [E|E].
  - split; [done|]. exists (line_hits needle name (S index) ls). by rewrite <- app_assoc.
  - rewrite length_app in E. simpl in E. specialize (IH (S index) (S checks) (results ++ [hit name index line])).
    rewrite <- app_assoc in IH. apply IH. rewrite length_app. simpl. lia.
Qed.

Definition hits_of (needle : list Z) (names : list string) (ordered : list (string * list byte)) : list SearchResult :=
  mjoin (map (fun s => line_hits needle s.1 0 (lines (sanitize_scrollback s.2))) (List.filter (fun s => wants names s.1) ordered)).

Lemma scan_sessions_spec needle limit names ordered checks results :
  length results < limit ->
  match scan_sessions needle limit names ordered checks results with
  | None => exists n, cancelled n = true
  | Some r => r = take limit (results ++ hits_of needle names ordered)
  end.
Proof.
  revert checks results. induction ordered as [|[name bytes] ordered IH]; intros checks results Hlen; simpl.
  { unfold hits_of. simpl. rewrite app_nil_r, take_ge by lia. done. }
  destruct (cancelled checks) eqn:Hc; [by exists checks|]. unfold hits_of. simpl.
  destruct (wants names name) eqn:Hw; simpl; [|by apply IH].
  pose proof (scan_lines_spec needle limit name (lines (sanitize_scrollback bytes)) 0 (S checks) results Hlen) as Hl.
  destruct (scan_lines _ _ _ _ _ _ _) as [|r|n r]; [done| |].
  - destruct Hl as [Hr (more & E)]. rewrite app_assoc, E, <- app_assoc, take_app_length'; done.
  - destruct Hl as [Hr ->]. specialize (IH n _ Hr). rewrite <- app_assoc in IH. exact IH.
Qed.

Lemma effective_limit_bounds limit : (0 <= limit)%Z -> 0 < effective_limit limit <= MAX_LIMIT.
Proof.
  intros Hl. unfold effective_limit, DEFAULT_LIMIT, MAX_LIMIT. destruct (Z.eqb_spec limit 0); lia.
Qed.

Lemma filter_all {A} (f : A -> bool) (l : list A) : (forall x, x ∈ l -> f x = true) -> List.filter f l = l.
Proof.
  induction l as [|x l IH]; intros H; [done|]. simpl. rewrite H by by left. f_equal. apply IH. intros y Hy. apply H. by right.
Qed.

Lemma hits_of_wanted needle names table :
  hits_of needle names (sort_by (fun a b => string_leb a.1 b.1) (List.filter (fun s => wants names s.1) table))
  = all_hits needle names table.
Proof.
  unfold hits_of. rewrite filter_all; [done|]. intros x Hx. rewrite elem_of_sort_by in Hx.
  apply list_elem_of_In, filter_In in Hx. apply Hx.
Qed.

Lemma copy_snapshots_spec handles checks :
  match copy_snapshots handles checks with
  | None => exists n, cancelled n = true
  | Some (_, snaps) => snaps = handles
  end.
Proof.
  revert checks. induction handles as [|h hs IH]; intros checks; simpl; [done|].
  destruct (cancelled checks) eqn:Hc; [by exists checks|]. specialize (IH (S checks)).
  destruct (copy_snapshots hs (S checks)) as [[n snaps]|]; simpl; [by rewrite IH|done].
Qed.

(** A line is found if and only if it is a line of a wanted session and matches. *)
Lemma elem_of_line_hits needle name index ls h :
  h ∈ line_hits needle name index ls <->
  exists i line, ls !! i = Some line /\ contains (to_lowercase line) needle = true /\ h = hit name (index + i) line.
Proof.
  revert index. induction ls as [|line ls IH]; intros index; simpl.
  - rewrite elem_of_nil. split; [done|]. by intros (i & line & ? & _).
  - rewrite elem_of_app, IH. split.
    + intros [H|(i & l & ? & ? & ->)].
      * destruct (contains _ _) eqn:E; [|by apply elem_of_nil in H]. apply list_elem_of_singleton in H as ->.
        exists 0, line. by rewrite Nat.add_0_r.
      * exists (S i), l. by rewrite Nat.add_succ_r.
    + intros ([|i] & l & Hi & Hc & ->).
      * left. simpl in Hi. injection Hi as <-. rewrite Hc, Nat.add_0_r. by apply list_elem_of_singleton.
      * right. exists i, l. by rewrite Nat.add_succ_r.
Qed.

Lemma elem_of_all_hits needle names table h :
  h ∈ all_hits needle names table <->
  exists name bytes i line, (name, bytes) ∈ table /\ wants names name = true
    /\ lines (sanitize_scrollback bytes) !! i = Some line /\ contains (to_lowercase line) needle = true /\ h = hit name i line.
Proof.
  unfold all_hits. rewrite list_elem_of_join. setoid_rewrite list_elem_of_fmap. split.
  - intros (l & Hh & ([name bytes] & -> & Hs)). simpl in Hh. rewrite elem_of_sort_by in Hs.
    apply list_elem_of_In, filter_In in Hs as [Hs Hw]. apply list_elem_of_In in Hs. apply elem_of_line_hits in Hh as (i & line & ? & ? & ->).
    by exists name, bytes, i, line.
  - intros (name & bytes & i & line & Hs & Hw & Hi & Hc & ->). eexists. split; [|exists (name, bytes); split; [done|]].
    + apply elem_of_line_hits. by exists i, line.
    + rewrite elem_of_sort_by. apply list_elem_of_In, filter_In. split; [by apply list_elem_of_In|done].
Qed.

Lemma string_leb_total x y : string_leb x y = false -> string_leb y x = true.
Proof. unfold string_leb. rewrite (String.compare_antisym y x). by destruct (String.compare x y). Qed.

Lemma string_leb_trans x y z : string_leb x y = true -> string_leb y z = true -> string_leb x z = true.
Proof.
  unfold string_leb. intros H1 H2. pose proof (cmp_trans (c := String.compare) x y z) as H.
  destruct (String.compare x z); try done. exfalso. apply H; [by intros E; rewrite E in H1|by intros E; rewrite E in H2|done].
Qed.

Lemma string_leb_antisym x y : string_leb x y = true -> string_leb y x = true -> x = y.
Proof.
  unfold string_leb. rewrite (String.compare_antisym y x). intros H1 H2. apply String.compare_eq_iff. by destruct (String.compare x y).
Qed.

Lemma filter_perm {A} (f : A -> bool) (l k : list A) : l ≡ₚ k -> List.filter f l ≡ₚ List.filter f k.
Proof.
  induction 1 as [|x l k _ IH|x y l|l k m _ IH1 _ IH2]; simpl; [done| | |by rewrite IH1].
  - destruct (f x); by rewrite IH.
  - destruct (f x), (f y); try done. by apply Permutation_swap.
Qed.

Lemma filter_NoDup_fst {A B} (f : A * B -> bool) (l : list (A * B)) : NoDup (map fst l) -> NoDup (map fst (List.filter f l)).
Proof.
  induction l as [|x l IH]; simpl; [done|]. rewrite NoDup_cons. intros [Hx Hl]. destruct (f x); simpl; [|by apply IH].
  apply NoDup_cons. split; [|by apply IH]. intros Hin. apply Hx. apply list_elem_of_fmap in Hin as (y & -> & Hy).
  apply list_elem_of_fmap. exists y. split; [done|]. apply list_elem_of_In, filter_In in Hy as [Hy _]. by apply list_elem_of_In.
Qed.

(** Sessions have one name each, so the order the table iterates in does not matter. *)
Lemma sort_unique (l k : list (string * list byte)) :
  l ≡ₚ k -> NoDup (map fst l) -> sort_by (fun a b => string_leb a.1 b.1) l = sort_by (fun a b => string_leb a.1 b.1) k.
Proof.
  intros Hp Hnd. assert (Hs : forall m, ordered (fun a b : string * list byte => string_leb a.1 b.1) (sort_by (fun a b => string_leb a.1 b.1) m)).
  { intros m. apply sort_by_ordered; [intros x y; apply string_leb_total|intros x y z; apply string_leb_trans]. }
  eapply StronglySorted_unique_strong; [|apply Hs|apply Hs|exact (Permutation_trans (sort_by_perm _ l) (Permutation_trans Hp (Permutation_sym (sort_by_perm _ k))))].
  intros [n1 b1] [n2 b2] H1 H2 L1 L2. rewrite elem_of_sort_by in H1, H2. rewrite <- Hp in H2. simpl in *.
  assert (n1 = n2) as -> by by apply string_leb_antisym. f_equal. clear -Hnd H1 H2.
  induction l as [|[n b] l IH]; [by apply elem_of_nil in H1|]. simpl in Hnd. apply NoDup_cons in Hnd as [Hn Hnd].
  apply elem_of_cons in H1 as [E1|H1]; apply elem_of_cons in H2 as [E2|H2]; simplify_eq; [done| | |by apply IH].
  - exfalso. apply Hn. apply list_elem_of_fmap. by exists (n, b2).
  - exfalso. apply Hn. apply list_elem_of_fmap. by exists (n, b1).
Qed.

(** A search fails exactly on a query that is blank or longer than 256 characters.
    Otherwise it is abandoned only because it was cancelled, and then answers nothing;
    or it answers the matching lines of the wanted sessions, ordered by session name
    and then by line, cut off at the limit and never more than 200, whatever order the
    session table iterates in. *)
Theorem search_spec (query : list Z) (table table' : list (string * list byte)) (names : list string) (limit : Z)
    (Hlimit : (0 <= limit)%Z) (Hperm : table' ≡ₚ table) (Hnames : NoDup (map fst table)) :
  match validate_query query with
  | Err e => search_scrollback_cancellable query table' names limit = Err e
      /\ (trim query = [] \/ 256 < length (trim query))
  | Ok q => q = trim query /\ 0 < length q <= 256
      /\ ((search_scrollback_cancellable query table' names limit = Ok None /\ exists n, cancelled n = true)
          \/ exists r, search_scrollback_cancellable query table' names limit = Ok (Some r)
             /\ r = take (effective_limit limit) (all_hits (to_lowercase q) names table) /\ length r <= 200)
  end.
Proof.
  unfold search_scrollback_cancellable, search_snapshots_cancellable.
  destruct (validate_query query) as [q|e] eqn:Hv; unfold validate_query, MAX_QUERY_CHARS in Hv.
  - destruct (Nat.eqb_spec (length (trim query)) 0); [done|]. destruct (Nat.ltb_spec 256 (length (trim query))); [done|].
    injection Hv as <-. split; [done|]. split; [lia|]. pose proof (effective_limit_bounds limit Hlimit) as Hb.
    pose proof (copy_snapshots_spec (List.filter (fun s => wants names s.1) table') 0) as Hc.
    destruct (copy_snapshots _ 0) as [[checks snaps]|]; [subst snaps|left; by split].
    pose proof (scan_sessions_spec (to_lowercase (trim query)) (effective_limit limit) names
      (sort_by (fun a b => string_leb a.1 b.1) (List.filter (fun s => wants names s.1) table')) checks [] (proj1 Hb)) as Hs.
    destruct (scan_sessions _ _ _ _ _ _) as [r|]; [right|left; by split]. exists r. split; [done|].
    simpl in Hs. rewrite hits_of_wanted in Hs. assert (E : all_hits (to_lowercase (trim query)) names table' = all_hits (to_lowercase (trim query)) names table).
    { unfold all_hits. f_equal. f_equal. apply sort_unique; [by apply filter_perm|].
      apply filter_NoDup_fst. by rewrite Hperm. }
    rewrite <- E. split; [done|]. rewrite Hs, length_take. unfold MAX_LIMIT in Hb. lia.
  - split; [done|]. destruct (Nat.eqb_spec (length (trim query)) 0) as [E|]; [left; by apply nil_length_inv|right].
    destruct (Nat.ltb_spec 256 (length (trim query))); [done|discriminate Hv].
Qed.
End search.

(** ** What is stripped

    A grammar of terminal output: text and line ends are kept, a tab is a space, other
    control characters and whole escape sequences vanish, and so does a sequence the
    end of the scrollback cuts. *)
Definition final (b : byte) : bool := between 64 126 b.
Definition introducer (b : byte) : bool := existsb (Z.eqb b) [93; 80; 95; 94; 88]%Z.

(** The body of a control string, before its BEL or ESC-backslash. *)
Definition unterminated (l : list byte) : Prop := (7%Z ∉ l) /\ (forall a b, l <> a ++ ([27; 92]%Z ++ b)).

Inductive sequence : list byte -> Prop :=
| sq_short b : b <> 91%Z -> introducer b = false -> sequence [27; b]%Z
| sq_csi params b : Forall (fun x => final x = false) params -> final b = true -> sequence (27 :: 91 :: params ++ [b])%Z
| sq_bell i body : introducer i = true -> unterminated body -> sequence (27 :: i :: body ++ [7])%Z
| sq_st i body : introducer i = true -> unterminated body -> sequence (27 :: i :: body ++ [27; 92])%Z.

Inductive cut : list byte -> Prop :=
| ct_escape : cut [27]%Z
| ct_csi params : Forall (fun x => final x = false) params -> cut (27 :: 91 :: params)%Z
| ct_string i body : introducer i = true -> unterminated body -> cut (27 :: i :: body)%Z.

Inductive strips : list byte -> list byte -> Prop :=
| sp_nil : strips [] []
| sp_kept b l out : is_text b = true \/ b = 10%Z -> strips l out -> strips (b :: l) (b :: out)
| sp_tab l out : strips l out -> strips (9 :: l)%Z (32 :: out)%Z
| sp_control b l out : b ∉ [9; 10; 27]%Z -> is_text b = false -> strips l out -> strips (b :: l) out
| sp_sequence s l out : sequence s -> strips l out -> strips (s ++ l) out
| sp_cut s : cut s -> strips s [].

Lemma strip_csi params rest : Forall (fun x => final x = false) params -> strip Csi (params ++ rest) = strip Csi rest.
Proof. induction 1 as [|b params Hb _ IH]; [done|]. simpl. unfold final in Hb. by rewrite Hb. Qed.

Lemma unterminated_cons b l : unterminated (b :: l) <-> b <> 7%Z /\ unterminated l /\ (b = 27%Z -> head l <> Some 92%Z).
Proof.
  unfold unterminated. rewrite not_elem_of_cons. split.
  - intros [[H1 H2] H3]. split; [done|]. split; [split; [done|]|].
    + intros a c ->. by apply (H3 (b :: a) c).
    + intros -> Hl. destruct l as [|x l]; [done|]. injection Hl as ->. by apply (H3 [] l).
  - intros (H1 & [H2 H3] & H4). split; [done|]. intros a c E. destruct a as [|x a]; simplify_eq/=; [by apply H4|by apply (H3 a c)].
Qed.

Lemma strip_string body e rest :
  unterminated body -> (e = true -> head body <> Some 92%Z) ->
  strip (ControlString e) (body ++ rest) = strip (ControlString (match last body with Some b => (b =? 27)%Z | None => e end)) rest.
Proof.
  revert e. induction body as [|b body IH]; intros e Hu He; [done|]. apply unterminated_cons in Hu as (H7 & Hu & H27). simpl.
  rewrite (proj2 (Z.eqb_neq b 7)) by done. replace (e && (b =? 92)%Z) with false; simpl.
  - rewrite IH; [|done|intros E%Z.eqb_eq; by apply H27]. destruct body as [|x body]; [done|].
    rewrite last_cons_cons. destruct (last (x :: body)) eqn:E; [done|by apply last_None in E].
  - destruct e; [|done]. simpl. symmetry. apply Z.eqb_neq. intros ->. by apply He.
Qed.

Lemma strip_escape b rest : strip Text (27 :: b :: rest)%Z = strip (if (b =? 91)%Z then Csi else if introducer b then ControlString false else Text) rest.
Proof.
  change (strip Text (27 :: b :: rest)%Z) with (strip Escape (b :: rest)). unfold introducer. cbn [strip]. unfold strip_byte.
  destruct (b =? 91)%Z; [done|]. by destruct (existsb (Z.eqb b) _).
Qed.

Lemma introducer_not_csi i : introducer i = true -> (i =? 91)%Z = false.
Proof. intros H. apply Z.eqb_neq. by intros ->. Qed.

Lemma strip_sequence s rest : sequence s -> strip Text (s ++ rest) = strip Text rest.
Proof.
  destruct 1 as [b Hb Hi|params b Hp Hb|i body Hi Hu|i body Hi Hu]; cbn [app]; rewrite <- ?app_assoc, strip_escape.
  - by rewrite (proj2 (Z.eqb_neq b 91)), Hi.
  - rewrite Z.eqb_refl, strip_csi by done. simpl. unfold final in Hb. by rewrite Hb.
  - rewrite introducer_not_csi, Hi, strip_string by done. done.
  - rewrite introducer_not_csi, Hi, strip_string by done. simpl. by rewrite andb_false_r.
Qed.

Lemma strip_cut s : cut s -> strip Text s = [].
Proof.
  destruct 1 as [|params Hp|i body Hi Hu]; [done| |]; rewrite strip_escape.
  - rewrite <- (app_nil_r params), Z.eqb_refl, strip_csi by done. done.
  - rewrite <- (app_nil_r body), introducer_not_csi, Hi, strip_string by done. done.
Qed.

Lemma strips_sound l out : strips l out -> strip Text l = out.
Proof.
  induction 1 as [|b l out Hb _ IH|l out _ IH|b l out Hb Ht _ IH|s l out Hs _ IH|s Hs]; [done| | | | |by apply strip_cut].
  - destruct Hb as [Hb| ->]; [|simpl; by rewrite IH]. simpl.
    assert (E : (b =? 27)%Z = false /\ (b =? 10)%Z = false /\ (b =? 9)%Z = false).
    { split_and!; apply Z.eqb_neq; by intros ->. }
    destruct E as (-> & -> & ->). rewrite Hb. simpl. by rewrite IH.
  - simpl. by rewrite IH.
  - rewrite !not_elem_of_cons in Hb. destruct Hb as (H9 & H10 & H27 & _). simpl.
    rewrite !(proj2 (Z.eqb_neq _ _)), Ht by done. done.
  - by rewrite strip_sequence.
Qed.

Lemma csi_split l :
  Forall (fun x => final x = false) l \/ exists params b rest, l = params ++ b :: rest /\ Forall (fun x => final x = false) params /\ final b = true.
Proof.
  induction l as [|b l IH]; [by left|]. destruct (final b) eqn:Hb; [right; by exists [], b, l|].
  destruct IH as [IH|(params & c & rest & -> & Hp & Hc)]; [left; by constructor|right]. exists (b :: params), c, rest. split_and!; [done|by constructor|done].
Qed.

Lemma unterminated_nil : unterminated [].
Proof. split; [apply not_elem_of_nil|]. intros a b. by destruct a. Qed.

Lemma string_split l :
  unterminated l \/ exists body rest, unterminated body /\ (l = body ++ 7%Z :: rest \/ l = body ++ 27%Z :: (92%Z :: rest)).
Proof.
  induction l as [|b l IH]; [left; apply unterminated_nil|].
  destruct (decide (b = 7%Z)) as [->|H7]; [right; exists [], l; split; [apply unterminated_nil|by left]|].
  destruct (decide (b = 27%Z /\ head l = Some 92%Z)) as [[-> Hl]|H27].
  { right. destruct l as [|x l]; [done|]. injection Hl as ->. exists [], l. split; [apply unterminated_nil|by right]. }
  destruct IH as [IH|(body & rest & Hu & E)].
  - left. apply unterminated_cons. split_and!; [done|done|]. intros -> Hl. by apply H27.
  - right. exists (b :: body), rest. split.
    + apply unterminated_cons. split_and!; [done|done|]. intros -> Hl. apply H27. split; [done|].
      destruct body; [done|]. by destruct E as [-> | ->].
    + destruct E as [-> | ->]; [by left|by right].
Qed.

(** Every scrollback is output of the grammar. *)
Lemma strips_total n l : length l <= n -> exists out, strips l out.
Proof.
  revert l. induction n as [|n IH]; intros l Hl; [destruct l; [exists []; constructor|simpl in Hl; lia]|].
  destruct l as [|b l]; [exists []; constructor|]. simpl in Hl.
  assert (Next : forall l', length l' <= length l -> exists out, strips l' out) by (intros l' ?; apply IH; lia).
  destruct (decide (b = 27%Z)) as [->|H27].
  - destruct l as [|i l]; [exists []; apply sp_cut; constructor|]. destruct (decide (i = 91%Z)) as [->|H91].
    { destruct (csi_split l) as [Hp|(params & c & rest & -> & Hp & Hc)]; [exists []; by apply sp_cut; constructor|].
      destruct (Next rest) as [out Hout]; [simpl; rewrite length_app; simpl; lia|]. exists out.
      replace (27%Z :: 91%Z :: params ++ c :: rest) with ((27 :: 91 :: params ++ [c])%Z ++ rest) by by simpl; rewrite <- app_assoc.
      apply sp_sequence; [by constructor|done]. }
    destruct (introducer i) eqn:Hi.
    + destruct (string_split l) as [Hu|(body & rest & Hu & E)]; [exists []; by apply sp_cut; constructor|].
      destruct (Next rest) as [out Hout]; [destruct E as [-> | ->]; simpl; rewrite length_app; simpl; lia|]. exists out.
      destruct E as [-> | ->].
      * replace (27%Z :: i :: body ++ 7%Z :: rest) with ((27%Z :: i :: body ++ [7%Z]) ++ rest) by by simpl; rewrite <- app_assoc.
        apply sp_sequence; [by constructor|done].
      * replace (27%Z :: i :: body ++ 27%Z :: (92%Z :: rest)) with ((27%Z :: i :: body ++ [27; 92]%Z) ++ rest) by by simpl; rewrite <- app_assoc.
        apply sp_sequence; [by constructor|done].
    + destruct (Next l) as [out Hout]; [simpl; lia|]. exists out. apply (sp_sequence [27%Z; i]); [by constructor|done].
  - destruct (Next l) as [out Hout]; [done|]. destruct (is_text b) eqn:Ht; [exists (b :: out); apply sp_kept; [by left|done]|].
    destruct (decide (b = 10%Z)) as [->|H10]; [exists (10%Z :: out); apply sp_kept; [by right|done]|].
    destruct (decide (b = 9%Z)) as [->|H9]; [exists (32%Z :: out); by apply sp_tab|].
    exists out. apply sp_control; [|done|done]. rewrite !not_elem_of_cons. split_and!; try done. apply not_elem_of_nil.
Qed.

Lemma strips_clean l out : strips l out -> Forall (fun b => is_text b = true \/ b = 10%Z) out.
Proof. induction 1; try done; constructor; try done. by left. Qed.

Lemma clean_kept l : Forall (fun b => is_text b = true \/ b = 10%Z) l -> strips l l.
Proof. induction 1; [constructor|by apply sp_kept]. Qed.

(** What a search sees of a scrollback is what the grammar of terminal output says:
    the byte-by-byte automaton strips exactly the control characters and the escape
    sequences, whole or cut off at the end, and nothing else; its result has only text
    and line ends, and stripping it again changes nothing. *)
Theorem strip_grammar (l out : list byte) :
  (strip Text l = out <-> strips l out)
  /\ Forall (fun b => is_text b = true \/ b = 10%Z) (strip Text l)
  /\ strip Text (strip Text l) = strip Text l.
Proof.
  destruct (strips_total (length l) l) as [out' H]; [done|]. pose proof (strips_sound l out' H) as E.
  pose proof (strips_clean l out' H) as Hc. split; [|split].
  - split; [intros <-; by rewrite E|apply strips_sound].
  - by rewrite E.
  - rewrite E. by apply strips_sound, clean_kept.
Qed.

(** ** Witness: two sessions, one wanted line each, limit two *)

Definition ascii_lowercase : list Z -> list Z := map (fun c => if between 65 90 c then c + 32 else c)%Z.
Definition demo_table : list (string * list byte) :=
  [("z"%string, bytes_of_string "Needle z
"); ("a"%string, ([27; 91; 51; 49; 109]%Z ++ bytes_of_string "one
NEEDLE a
needle b
"))].

Example demo_search :
  search_scrollback_cancellable ascii_lowercase (fun _ => false) (chars " needle ") demo_table [] 2
  = Ok (Some [mk_search_result "a" 2 "NEEDLE a"; mk_search_result "a" 3 "needle b"]).
Proof. vm_compute. reflexivity. Qed.

Lemma search_spec_witness :
  exists r, search_scrollback_cancellable ascii_lowercase (fun _ => false) (chars " needle ") demo_table [] 2 = Ok (Some r)
    /\ r = take 2 (all_hits ascii_lowercase (chars "needle") [] demo_table).
Proof.
  pose proof (search_spec ascii_lowercase (fun _ => false) (chars " needle ") demo_table demo_table [] 2) as H.
  destruct H as (_ & _ & [[H _]|(r & H & E & _)]).
  - lia.
  - done.
  - apply NoDup_cons. split; [by rewrite list_elem_of_singleton|apply NoDup_singleton].
  - vm_compute in H. discriminate H.
  - exists r. split; [exact H|exact E].
Defined.
