(* ===== verification/Attach.v ===== *)
(** * The attach client

    [crates/amber/src/attach.rs]: how a command names the session it means, the detach
    key, the status bar, and the client of [amber attach], whose event loop
    ([run_client]) copies keys to the daemon and output to the terminal. *)
From S2P Require Import Prelude Utf8.
From S2P Require Modes.
From S2P Require Import Wire Framing.

(** ** The detach key *)

Definition DEFAULT_PREFIX : byte := 2%Z.

Record PrefixResolution := mk_prefix_resolution {
  pr_prefix : option byte;
  pr_warning : option string;
}.

Definition ascii_lower (c : Z) : Z := if between 65 90 c then (c + 32)%Z else c.

(** [Err ()] is the outer [None]. *)
Definition parse_prefix_env (raw : list Z) : option (option byte) :=
  let s := trim raw in
  let lower := map ascii_lower s in
  if bool_decide (s = []) || bool_decide (lower = [110; 111; 110; 101]%Z) then Some None
  else match lower with
       | [99; 45; letter]%Z => if between 97 122 letter then Some (Some (letter - 97 + 1)%Z) else None
       | _ => None
       end.

(** [debug]: the value as [{:?}] prints it. *)
Definition resolve_prefix (no_prefix : bool) (env : option string) (debug : string -> string) : PrefixResolution :=
  if no_prefix then mk_prefix_resolution None None
  else match env with
       | None => mk_prefix_resolution (Some DEFAULT_PREFIX) None
       | Some raw =>
           match parse_prefix_env (chars raw) with
           | Some prefix => mk_prefix_resolution prefix None
           | None => mk_prefix_resolution (Some DEFAULT_PREFIX)
                       (Some ("ignoring invalid AMBER_PREFIX " +:+ debug raw +:+ "; using Ctrl-b"))
           end
       end.

Record ScanResult := mk_scan {
  sc_forward : list byte;
  sc_armed : bool;
  sc_detach : bool;
}.

Definition key_d : byte := 100%Z.

(** The loop, with what is forwarded so far. *)
Fixpoint scan_loop (chunk : list byte) (prefix : byte) (out : ScanResult) : ScanResult :=
  match chunk with
  | [] => out
  | b :: chunk' =>
      if sc_armed out then
        if (b =? key_d)%Z then mk_scan (sc_forward out) false true
        else if (b =? prefix)%Z then scan_loop chunk' prefix (mk_scan (sc_forward out ++ [prefix]) false (sc_detach out))
        else scan_loop chunk' prefix (mk_scan (sc_forward out) false (sc_detach out))
      else if (b =? prefix)%Z then scan_loop chunk' prefix (mk_scan (sc_forward out) true (sc_detach out))
      else scan_loop chunk' prefix (mk_scan (sc_forward out ++ [b]) (sc_armed out) (sc_detach out))
  end.

Definition scan_prefix (chunk : list byte) (prefix : byte) (armed : bool) : ScanResult :=
  scan_loop chunk prefix (mk_scan [] armed false).

(** A byte that is typed as itself: the prefix twice. *)
Definition escape (prefix : byte) (keys : list byte) : list byte :=
  mjoin (map (fun b => if (b =? prefix)%Z then [prefix; prefix] else [b]) keys).

(** ** Naming a session *)

(** [max_by]: the last of the greatest. *)
Definition newer (a b : SessionInfo) : comparison :=
  then_with (by_key si_updated Z.compare) (by_key si_name String.compare) a b.

Definition pick_newest (sessions : list SessionInfo) : option SessionInfo :=
  foldl (fun best s => match best with
         | None => Some s
         | Some b => match newer b s with Gt => Some b | _ => Some s end
         end) None (List.filter si_alive sessions).

Definition pick_by_slot (sessions : list SessionInfo) (slot : Z) : option SessionInfo :=
  if (slot =? 0)%Z then None else find_first (fun s => (si_slot s =? slot)%Z) sessions.

Definition resolve_name_or_slot (arg : string) (sessions : list SessionInfo) : result string string :=
  match parse_uint u32_max (bytes_of_string arg) with
  | Some slot =>
      match pick_by_slot sessions slot with
      | Some s => Ok (si_name s)
      | None => Err ("no session with slot " +:+ string_of_bytes (dec slot) +:+ " (see `amber ls`)")
      end
  | None =>
      if existsb (fun s => bool_decide (si_name s = arg)) sessions then Ok arg
      else Err ("no such session: " +:+ arg)
  end.

(** [(1..).map(..).find(..)]; among [length existing + 1] candidates one is free. *)
Fixpoint free_name (fuel : nat) (n : Z) (existing : list string) : string :=
  let candidate := "s" +:+ string_of_bytes (dec n) in
  match fuel with
  | 0 => candidate
  | S fuel' => if bool_decide (candidate ∈ existing) then free_name fuel' (n + 1)%Z existing else candidate
  end.

Definition next_session_name (existing : list string) : string := free_name (length existing) 1 existing.

Definition nest_refusal (amber_session : option string) (force : bool) : option string :=
  match amber_session with
  | Some s => if negb force then Some ("already inside amber session '" +:+ s +:+ "'; refusing to nest (use --force or AMBER_ALLOW_NEST=1 to override)")
              else None
  | None => None
  end.

(** ** The status bar *)

Record StatusUi := mk_ui {
  ui_title : bool;
  ui_bar : bool;
  ui_hint : option string;
}.

Definition bytes_text : string -> list byte := bytes_of_string.
Definition ESC : byte := 27%Z.

Definition hex_digit (n : Z) : byte := (if n <? 10 then 48 + n else 87 + n)%Z.

Definition prefix_key_name (prefix : byte) : string :=
  if between 1 26 prefix then string_of_bytes (bytes_text "Ctrl-" ++ [(prefix - 1 + 97)%Z])
  else string_of_bytes (bytes_text "0x" ++ [hex_digit (prefix / 16); hex_digit (prefix mod 16)])%Z.

Definition title_set (name : string) : list byte :=
  ESC :: bytes_text "[22;2t" ++ ESC :: bytes_text "]2;amber: " ++ bytes_text name ++ [7%Z].
Definition TITLE_POP : list byte := ESC :: bytes_text "[23;2t".
Definition set_scroll_region (bottom : Z) : list byte := ESC :: bytes_text "[1;" ++ dec bottom ++ bytes_text "r".
Definition SCROLL_RESET : list byte := ESC :: bytes_text "[r".
Definition draw_bar (row : Z) (line : list byte) : list byte :=
  ESC :: bytes_text "7" ++ ESC :: bytes_text "[" ++ dec row ++ bytes_text ";1H" ++ ESC :: bytes_text "[7m" ++ line
  ++ ESC :: bytes_text "[0m" ++ ESC :: bytes_text "8".
Definition clear_row (row : Z) : list byte :=
  ESC :: bytes_text "7" ++ ESC :: bytes_text "[" ++ dec row ++ bytes_text ";1H" ++ ESC :: bytes_text "[2K" ++ ESC :: bytes_text "8".

(** The text of the bar, in characters; 183 is the middle dot. *)
Definition render_status_line (name : string) (cols : Z) (hint : option string) : list Z :=
  let s := chars "amber: " ++ chars name
           ++ match hint with Some h => [32; 183; 32]%Z ++ chars h ++ chars " d detach" | None => [] end in
  if (cols <? Z.of_nat (length s))%Z then take (Z.to_nat cols) s
  else s ++ repeat 32%Z (Z.to_nat cols - length s).

Definition TERM_RESET : list byte :=
  ESC :: bytes_text "[!p" ++ ESC :: bytes_text "[?1049l" ++ ESC :: bytes_text "[?25h".
Definition TERM_RESTORE : list byte :=
  ESC :: bytes_text "[?1000l" ++ ESC :: bytes_text "[?1002l" ++ ESC :: bytes_text "[?1003l" ++ ESC :: bytes_text "[?1006l"
  ++ ESC :: bytes_text "[?1015l" ++ ESC :: bytes_text "[?2004l" ++ ESC :: bytes_text "[!p" ++ ESC :: bytes_text "[?1049l"
  ++ ESC :: bytes_text "[?25h".

Definition restore_bytes (ui : StatusUi) (rows : Z) : list byte :=
  if negb (ui_title ui || ui_bar ui) then []
  else (if ui_bar ui && (2 <=? rows)%Z then SCROLL_RESET ++ clear_row rows else [])
       ++ (if ui_title ui then TITLE_POP else []) ++ TERM_RESTORE.

(** ** The alternate screen *)

Inductive AltState := A_Normal | A_Esc | A_Csi | A_Priv (params : list byte).

Record AltScreenTracker := mk_tracker { at_alt : bool; at_state : AltState }.

Definition new_tracker : AltScreenTracker := mk_tracker false A_Normal.

Definition alt_param (p : list byte) : bool :=
  existsb (fun q => bool_decide (p = bytes_of_string q)) ["47"; "1047"; "1049"]%string.

Definition feed_alt (t : AltScreenTracker) (b : byte) : AltScreenTracker :=
  let alt := at_alt t in
  match at_state t with
  | A_Normal => if (b =? ESC)%Z then mk_tracker alt A_Esc else mk_tracker alt A_Normal
  | A_Esc =>
      if (b =? 91)%Z then mk_tracker alt A_Csi
      else if (b =? ESC)%Z then mk_tracker alt A_Esc
      else mk_tracker alt A_Normal
  | A_Csi =>
      if (b =? 63)%Z then mk_tracker alt (A_Priv [])
      else if (b =? ESC)%Z then mk_tracker alt A_Esc
      else mk_tracker alt A_Normal
  | A_Priv params =>
      if ((b =? 104) || (b =? 108))%Z then
        mk_tracker (if existsb alt_param (split_on Modes.semicolon params) then (b =? 104)%Z else alt) A_Normal
      else if is_digit b || (b =? Modes.semicolon)%Z then mk_tracker alt (A_Priv (params ++ [b]))
      else if (b =? ESC)%Z then mk_tracker alt A_Esc
      else mk_tracker alt A_Normal
  end.

Definition feed_tracker (t : AltScreenTracker) (bytes : list byte) : AltScreenTracker := foldl feed_alt t bytes.

(** ** The event loop *)

Inductive ClientEnd :=
| StdinEof
| SocketClosed
| SessionExit (code : Z)
| Detached
| Rejected (msg : string)
| Failed.

(** A write to the terminal: the client's own, or output of the session. *)
Inductive output := Own (bytes : list byte) | Child (bytes : list byte).

Section client.
Context {Value : Type} `{J : Json Value}.
Context (name : string) (prefix : option byte) (ui : StatusUi).

Definition bar_at (rows : Z) : bool := ui_bar ui && (2 <=? rows)%Z.
Definition child_rows (rows : Z) : Z := if bar_at rows then (rows - 1)%Z else rows.
Definition bar_line (cols : Z) : list byte :=
  mjoin (map (fun c => if (c =? 183)%Z then [194; 183]%Z else [c]) (render_status_line name cols (ui_hint ui))).

Record Client := mk_client {
  cl_cols : Z;
  cl_rows : Z;
  cl_prefix_armed : bool;
  cl_alt : AltScreenTracker;
  cl_decoder : list byte;
  cl_sent : list (Frame Value);
  cl_stdout : list output;
}.

Definition send (frame : Frame Value) (c : Client) : Client :=
  mk_client (cl_cols c) (cl_rows c) (cl_prefix_armed c) (cl_alt c) (cl_decoder c) (cl_sent c ++ [frame]) (cl_stdout c).
Definition send_control (msg : ControlMsg Value) : Client -> Client := send (F_Control msg).
Definition write_out (o : output) (c : Client) : Client :=
  mk_client (cl_cols c) (cl_rows c) (cl_prefix_armed c) (cl_alt c) (cl_decoder c) (cl_sent c) (cl_stdout c ++ [o]).
Definition draw (c : Client) : Client :=
  write_out (Own (draw_bar (cl_rows c) (bar_line (cl_cols c)))) (write_out (Own (set_scroll_region (cl_rows c - 1))) c).

(** Up to the loop, on a terminal of this size. *)
Definition start (cols rows : Z) : Client :=
  let c := mk_client cols rows false new_tracker [] [] [] in
  let c := send_control (M_Resize _ name cols (child_rows rows))
             (send_control (M_Attach _ name true false None) (send_control (M_Focus _ name) c)) in
  let c := write_out (Own TERM_RESET) c in
  let c := if ui_title ui then write_out (Own (title_set name)) c else c in
  if bar_at rows then draw c else c.

(** The terminal was resized. *)
Definition on_winch (cols rows : Z) (c : Client) : Client :=
  let c := mk_client cols rows (cl_prefix_armed c) (cl_alt c) (cl_decoder c) (cl_sent c) (cl_stdout c) in
  let c := send_control (M_Resize _ name cols (child_rows rows)) c in
  if bar_at rows && negb (at_alt (cl_alt c)) then draw c else c.

Definition show (bytes : list byte) (c : Client) : Client :=
  mk_client (cl_cols c) (cl_rows c) (cl_prefix_armed c) (feed_tracker (cl_alt c) bytes) (cl_decoder c) (cl_sent c)
    (cl_stdout c ++ [Child bytes]).

(** One frame; the end it brings. *)
Definition on_frame (frame : Frame Value) (c : Client) : Client * option ClientEnd :=
  match frame with
  | F_Data _ bytes => (show bytes c, None)
  | F_Control (M_Exit _ ended code) => if bool_decide (ended = name) then (c, Some (SessionExit code)) else (c, None)
  | F_Control (M_Error _ msg) => (c, Some (Rejected msg))
  | _ => (c, None)
  end.

Definition with_decoder (buf : list byte) (c : Client) : Client :=
  mk_client (cl_cols c) (cl_rows c) (cl_prefix_armed c) (cl_alt c) buf (cl_sent c) (cl_stdout c).

(** [while let Some(frame) = decoder.next_frame()?] *)
Fixpoint read_frames (fuel : nat) (c : Client) : Client * option ClientEnd :=
  match fuel with
  | 0 => (c, None)
  | S fuel' =>
      match next_frame (cl_decoder c) with
      | (buf, Ok (Some frame)) =>
          match on_frame frame (with_decoder buf c) with
          | (c, None) => read_frames fuel' c
          | (c, Some e) => (c, Some e)
          end
      | (buf, Ok None) => (with_decoder buf c, None)
      | (buf, Err _) => (with_decoder buf c, Some Failed)
      end
  end.

(** Every frame takes at least a byte. *)
Definition on_socket (chunk : list byte) (c : Client) : Client * option ClientEnd :=
  match chunk with
  | [] => (c, Some SocketClosed)
  | _ =>
      let was_alt := at_alt (cl_alt c) in
      let c := with_decoder (feed (cl_decoder c) chunk) c in
      match read_frames (S (length (cl_decoder c))) c with
      | (c, Some Failed) => (c, Some Failed)
      | (c, e) => (if bar_at (cl_rows c) && was_alt && negb (at_alt (cl_alt c)) then draw c else c, e)
      end
  end.

Definition on_stdin (chunk : list byte) (c : Client) : Client * option ClientEnd :=
  match chunk with
  | [] => (c, Some StdinEof)
  | _ =>
      let '(to_send, armed, detach) :=
        match prefix with
        | None => (chunk, cl_prefix_armed c, false)
        | Some p => let res := scan_prefix chunk p (cl_prefix_armed c) in (sc_forward res, sc_armed res, sc_detach res)
        end in
      let c := mk_client (cl_cols c) (cl_rows c) armed (cl_alt c) (cl_decoder c) (cl_sent c) (cl_stdout c) in
      let c := match to_send with [] => c | _ => send (F_Data name to_send) c end in
      if detach : bool then (send_control (M_Detach _ name) c, Some Detached) else (c, None)
  end.

(** What [poll] finds: the three checks of an iteration are events of their own. *)
Inductive event :=
| Winch (cols rows : Z)
| Socket (chunk : list byte)
| Stdin (chunk : list byte)
| Broken.

Definition on_event (e : event) (c : Client) : Client * option ClientEnd :=
  match e with
  | Winch cols rows => (on_winch cols rows c, None)
  | Socket chunk => on_socket chunk c
  | Stdin chunk => on_stdin chunk c
  | Broken => (c, Some Failed)
  end.

(** The client after these events, unless it ended before the last. *)
Fixpoint run_client (es : list event) (c : Client) : option (Client * option ClientEnd) :=
  match es with
  | [] => Some (c, None)
  | e :: es' =>
      match on_event e c with
      | (c, None) => run_client es' c
      | (c, Some ended) => match es' with [] => Some (c, Some ended) | _ => None end
      end
  end.

(** ** What was typed, read, sent and shown *)

Definition typed (es : list event) : list byte := mjoin (map (fun e => match e with Stdin chunk => chunk | _ => [] end) es).
Definition received (es : list event) : list byte := mjoin (map (fun e => match e with Socket chunk => chunk | _ => [] end) es).
Definition input_sent (fs : list (Frame Value)) : list byte :=
  mjoin (map (fun f => match f with F_Data _ bytes => bytes | _ => [] end) fs).
Definition child_output (os : list output) : list byte := mjoin (map (fun o => match o with Child b => b | Own _ => [] end) os).

(** The keys as the scanner reads them, all at once. *)
Definition scanned (keys : list byte) : ScanResult :=
  match prefix with None => mk_scan keys false false | Some p => scan_prefix keys p false end.

(** The frames that end the client. *)
Definition ending (frame : Frame Value) : option ClientEnd :=
  match frame with
  | F_Control (M_Exit _ ended code) => if bool_decide (ended = name) then Some (SessionExit code) else None
  | F_Control (M_Error _ msg) => Some (Rejected msg)
  | _ => None
  end.
Definition shown_by (fs : list (Frame Value)) : list byte :=
  mjoin (map (fun f => match f with F_Data _ bytes => bytes | _ => [] end) fs).
End client.

(** ** Scanning keys *)

Lemma scan_loop_forward l p f armed :
  scan_loop l p (mk_scan f armed false)
  = mk_scan (f ++ sc_forward (scan_prefix l p armed)) (sc_armed (scan_prefix l p armed)) (sc_detach (scan_prefix l p armed)).
Proof.
  unfold scan_prefix. revert f armed. induction l as [|b l IH]; intros f armed; simpl; [by rewrite app_nil_r|].
  destruct armed; [destruct (b =? key_d)%Z; [simpl; by rewrite app_nil_r|]|]; destruct (b =? p)%Z; simpl; rewrite IH; try done;
    rewrite (IH [_]); simpl; by rewrite <- app_assoc.
Qed.

(** Where the keys are cut does not matter. *)
Lemma scan_prefix_app a b p armed :
  let r := scan_prefix a p armed in
  let r' := scan_prefix b p (sc_armed r) in
  scan_prefix (a ++ b) p armed
  = if sc_detach r then r else mk_scan (sc_forward r ++ sc_forward r') (sc_armed r') (sc_detach r').
Proof.
  revert armed. induction a as [|k a IH]; intros armed; [simpl; by destruct (scan_prefix b p armed)|].
  unfold scan_prefix in *. simpl.
  destruct armed; [destruct (k =? key_d)%Z; [done|]|]; destruct (k =? p)%Z; simpl in *; try (apply IH);
    rewrite !(scan_loop_forward _ p [_]); unfold scan_prefix; simpl; rewrite IH; (destruct (sc_detach (scan_loop a p _)) eqn:Ed; cbn [sc_forward sc_armed sc_detach]; [rewrite ?Ed; reflexivity|reflexivity]).
Qed.

Lemma scan_escape keys p rest : p <> key_d ->
  scan_prefix (escape p keys ++ rest) p false
  = mk_scan (keys ++ sc_forward (scan_prefix rest p false)) (sc_armed (scan_prefix rest p false)) (sc_detach (scan_prefix rest p false)).
Proof.
  intros Hp. induction keys as [|b keys IH]; [simpl; by destruct (scan_prefix rest p false)|].
  change (escape p (b :: keys)) with ((if (b =? p)%Z then [p; p] else [b]) ++ escape p keys). rewrite <- app_assoc, scan_prefix_app.
  assert (E : scan_prefix (if (b =? p)%Z then [p; p] else [b]) p false = mk_scan [b] false false).
  { unfold scan_prefix. destruct (Z.eqb_spec b p) as [->|]; simpl.
    - rewrite Z.eqb_refl. simpl. by rewrite (proj2 (Z.eqb_neq p key_d)).
    - by rewrite (proj2 (Z.eqb_neq b p)). }
  rewrite E. simpl. by rewrite IH.
Qed.

(** A client that reads another chunk. *)
Definition scan_more (p : byte) (r : ScanResult) (chunk : list byte) : ScanResult :=
  if sc_detach r then r
  else let r' := scan_prefix chunk p (sc_armed r) in mk_scan (sc_forward r ++ sc_forward r') (sc_armed r') (sc_detach r').

Lemma scan_chunks p keys chunks :
  foldl (scan_more p) (scan_prefix keys p false) chunks = scan_prefix (keys ++ mjoin chunks) p false.
Proof.
  revert keys. induction chunks as [|c cs IH]; intros keys; simpl; [by rewrite app_nil_r|].
  rewrite app_assoc, <- IH. f_equal. symmetry. apply scan_prefix_app.
Qed.

(** Nothing typed is lost or invented: typing a text with the prefix doubled sends
    exactly the text, in whatever pieces the keys are read, and then the prefix and
    [d] detach and drop what follows. *)
Theorem keys_roundtrip (keys rest : list byte) (p : byte) (chunks : list (list byte)) (Hp : p <> key_d)
    (Hchunks : mjoin chunks = escape p keys ++ [p; key_d] ++ rest) :
  foldl (scan_more p) (mk_scan [] false false) chunks = mk_scan keys false true.
Proof.
  change (mk_scan [] false false) with (scan_prefix [] p false). rewrite scan_chunks. cbn [app]. rewrite Hchunks, scan_escape by done.
  unfold scan_prefix. simpl. rewrite Z.eqb_refl. simpl. by rewrite app_nil_r.
Qed.

Lemma keys_roundtrip_witness :
  escape 2 [1; 2; 3]%Z = [1; 2; 2; 3]%Z
  /\ foldl (scan_more 2) (mk_scan [] false false) [[1; 2]; [2; 3; 2]; [100; 9]]%Z = mk_scan [1; 2; 3]%Z false true.
Proof. split; [reflexivity|]. by apply (keys_roundtrip [1; 2; 3]%Z [9%Z] 2). Defined.

(** ** The event loop's two directions *)

Section loop.
Context {Value : Type} `{J : Json Value}.
Context (name : string) (prefix : option byte) (ui : StatusUi).

Abbreviation Client := (Client (Value := Value)) (only parsing).
Abbreviation run := (run_client name prefix ui) (only parsing).

(** Writing to the terminal and reading frames leave the other direction alone. *)
Definition same_input (c c' : Client) : Prop :=
  cl_sent c' = cl_sent c /\ cl_prefix_armed c' = cl_prefix_armed c.

Lemma on_frame_input f c c' e : on_frame name f c = (c', e) -> same_input c c' /\ e <> Some Detached.
Proof. intros H. destruct f as [m| |]; simpl in H; [destruct m; simpl in H|..]; repeat case_match; by simplify_eq. Qed.

Lemma read_frames_input fuel c c' e : read_frames name fuel c = (c', e) -> same_input c c' /\ e <> Some Detached.
Proof.
  revert c. induction fuel as [|fuel IH]; intros c H; simpl in H; [by simplify_eq|].
  destruct (next_frame _) as [buf [[f|]|err]]; [|by simplify_eq..].
  destruct (on_frame name f _) as [c1 [e1|]] eqn:Hf; apply on_frame_input in Hf as [[E1 E2] E5]; [by simplify_eq|].
  apply IH in H as [[E3 E4] E6]. simpl in E1, E2. split; [split; congruence|done].
Qed.

Lemma draw_input c : same_input c (draw name ui c).
Proof. done. Qed.

(** What the scanner made of the keys so far. *)
Definition input_ok (keys : list byte) (c : Client) : Prop :=
  cl_prefix_armed c = sc_armed (scanned prefix keys) /\ sc_detach (scanned prefix keys) = false
  /\ input_sent (cl_sent c) = sc_forward (scanned prefix keys).

Lemma input_sent_app fs gs : input_sent (fs ++ gs) = input_sent fs ++ input_sent (Value := Value) gs.
Proof. unfold input_sent. by rewrite map_app, join_app. Qed.

Lemma same_input_ok keys c c' : same_input c c' -> input_ok keys c -> input_ok keys c'.
Proof. intros [H1 H2] (? & ? & ?). unfold input_ok. by rewrite H1, H2. Qed.

Lemma scanned_app keys chunk :
  sc_detach (scanned prefix keys) = false ->
  scanned prefix (keys ++ chunk)
  = match prefix with
    | None => mk_scan (keys ++ chunk) false false
    | Some p => let r := scan_prefix chunk p (sc_armed (scanned prefix keys)) in
                mk_scan (sc_forward (scanned prefix keys) ++ sc_forward r) (sc_armed r) (sc_detach r)
    end.
Proof. unfold scanned. destruct prefix as [p|]; [|done]. intros H. by rewrite scan_prefix_app, H. Qed.

Lemma on_stdin_ok keys chunk c c' e :
  input_ok keys c -> on_stdin name prefix chunk c = (c', e) -> chunk <> [] ->
  input_sent (cl_sent c') = sc_forward (scanned prefix (keys ++ chunk))
  /\ match e with
     | None => input_ok (keys ++ chunk) c'
     | Some ended => ended = Detached /\ sc_detach (scanned prefix (keys ++ chunk)) = true
         /\ last (cl_sent c') = Some (F_Control (M_Detach Value name))
     end.
Proof.
  intros (Ha & Hd & Hf) H Hne. pose proof (scanned_app keys chunk Hd) as E. unfold input_ok. rewrite E. clear E.
  unfold on_stdin in H. destruct chunk as [|b chunk]; [done|]. remember (b :: chunk) as keys' eqn:Hk. clear Hk Hne.
  rewrite Ha in H. unfold scanned in *. destruct prefix as [p|]; simpl in *.
  - destruct (scan_prefix keys' p _) as [fw ar de]; simpl in *. destruct fw as [|x fw], de; simplify_eq/=;
      rewrite ?input_sent_app, ?Hf, ?last_snoc; unfold input_sent; simpl; rewrite ?app_nil_r; by split_and?.
  - destruct keys' as [|x keys']; simplify_eq/=; rewrite ?input_sent_app, ?Hf; unfold input_sent; simpl; rewrite ?app_nil_r; by split_and?.
Qed.

Lemma on_event_input keys ev c c' e :
  input_ok keys c -> on_event name prefix ui ev c = (c', e) ->
  input_sent (cl_sent c') = sc_forward (scanned prefix (keys ++ typed [ev]))
  /\ match e with
     | Some Detached => sc_detach (scanned prefix (keys ++ typed [ev])) = true
         /\ last (cl_sent c') = Some (F_Control (M_Detach Value name))
     | _ => input_ok (keys ++ typed [ev]) c'
     end.
Proof.
  intros Hok H. assert (Same : forall c1, same_input c c1 -> input_sent (cl_sent c1) = sc_forward (scanned prefix (keys ++ []))
    /\ input_ok (keys ++ []) c1).
  { intros c1 Hs. rewrite app_nil_r. apply (same_input_ok keys _ _ Hs) in Hok. by split; [apply Hok|]. }
  destruct ev as [cols rows|chunk|chunk|]; simpl in H; unfold typed; simpl.
  - simplify_eq. unfold on_winch. destruct (bar_at ui rows && _); simpl; rewrite app_nil_r; destruct Hok as (? & ? & Hf);
      (split; [|split; [done|split; [done|]]]); simpl; rewrite input_sent_app, Hf; unfold input_sent; simpl; by rewrite !app_nil_r.
  - unfold on_socket in H. destruct chunk as [|b chunk]; [by simplify_eq; apply Same|].
    destruct (read_frames name _ _) as [c1 e1] eqn:Hr. apply read_frames_input in Hr as [Hr Hnd].
    assert (Hs : same_input c c1) by (destruct Hr; split; simpl in *; congruence).
    destruct e1 as [[]|]; simplify_eq; try done; apply Same; by try case_match.
  - rewrite app_nil_r. destruct chunk as [|b chunk]; [simplify_eq/=; by rewrite app_nil_r in *; apply Same|].
    destruct (on_stdin_ok keys (b :: chunk) c c' e Hok H) as [Hi He]; [done|]. split; [done|].
    destruct e as [[]|]; destruct He as (? & ? & ?); done.
  - simplify_eq. by apply Same.
Qed.

Lemma typed_cons ev es : typed (ev :: es) = typed [ev] ++ typed es.
Proof. unfold typed. simpl. by rewrite app_nil_r. Qed.

Lemma run_input keys es c c' e :
  input_ok keys c -> run_client name prefix ui es c = Some (c', e) ->
  input_sent (cl_sent c') = sc_forward (scanned prefix (keys ++ typed es))
  /\ (e = Some Detached <-> sc_detach (scanned prefix (keys ++ typed es)) = true)
  /\ (e = Some Detached -> last (cl_sent c') = Some (F_Control (M_Detach Value name))).
Proof.
  revert keys c. induction es as [|ev es IH]; intros keys c Hok H; simpl in H.
  - simplify_eq. unfold typed. simpl. rewrite app_nil_r. destruct Hok as (? & Hd & ?). rewrite Hd. by split_and?.
  - destruct (on_event name prefix ui ev c) as [c1 e1] eqn:He. apply (on_event_input keys) in He as [Hi He]; [|done].
    rewrite typed_cons, app_assoc. destruct e1 as [e1|]; [|by apply (IH _ c1)].
    destruct es as [|? es]; [|done]. simplify_eq. change (typed []) with (@nil byte). rewrite app_nil_r. split; [done|].
    destruct e1; try (destruct He as (_ & Hd & _); by rewrite Hd). by destruct He as [-> ?].
Qed.

(** *** Output *)

Lemma child_output_app os ps : child_output (os ++ ps) = child_output os ++ child_output ps.
Proof. unfold child_output. by rewrite map_app, join_app. Qed.

Lemma shown_by_app fs gs : shown_by (fs ++ gs) = shown_by fs ++ shown_by (Value := Value) gs.
Proof. unfold shown_by. by rewrite map_app, join_app. Qed.

(** Nothing of the client's own is written while the session is on the alternate
    screen, as far as its output so far tells. *)
Definition undisturbed (os : list output) : Prop :=
  forall pre b post, os = pre ++ Own b :: post -> at_alt (feed_tracker new_tracker (child_output pre)) = false.

Definition output_ok (c : Client) : Prop :=
  cl_alt c = feed_tracker new_tracker (child_output (cl_stdout c)) /\ undisturbed (cl_stdout c).

Lemma undisturbed_child os b : undisturbed os -> undisturbed (os ++ [Child b]).
Proof.
  intros H pre b' post E. destruct post as [|x post] using rev_ind; [by apply app_inj_tail in E as [_ ?]|].
  rewrite app_comm_cons, app_assoc in E. apply app_inj_tail in E as [-> _]. by apply (H pre b' post).
Qed.

Lemma undisturbed_own os b :
  undisturbed os -> at_alt (feed_tracker new_tracker (child_output os)) = false -> undisturbed (os ++ [Own b]).
Proof.
  intros H Ha pre b' post E. destruct post as [|x post] using rev_ind; [by apply app_inj_tail in E as [<- _]|].
  rewrite app_comm_cons, app_assoc in E. apply app_inj_tail in E as [-> _]. by apply (H pre b' post).
Qed.

Lemma own_ok c b : output_ok c -> at_alt (cl_alt c) = false -> output_ok (write_out (Own b) c).
Proof.
  intros [H1 H2] Ha. split; simpl; [|apply undisturbed_own; [done|by rewrite <- H1]].
  rewrite child_output_app. unfold child_output at 2. simpl. by rewrite app_nil_r.
Qed.

Lemma draw_ok c : output_ok c -> at_alt (cl_alt c) = false -> output_ok (draw name ui c).
Proof. intros H Ha. apply own_ok; [by apply own_ok|done]. Qed.

Lemma draw_child (c : Client) : child_output (cl_stdout (draw name ui c)) = child_output (cl_stdout c).
Proof. unfold draw. simpl. rewrite !child_output_app. unfold child_output. simpl. by rewrite !app_nil_r. Qed.

Lemma show_ok bytes c : output_ok c -> output_ok (show bytes c).
Proof.
  intros [H1 H2]. split; simpl; [|by apply undisturbed_child].
  rewrite child_output_app, H1. unfold child_output at 3. simpl. rewrite app_nil_r. unfold feed_tracker. by rewrite foldl_app.
Qed.

Lemma on_frame_output f c c' e :
  on_frame name f c = (c', e) -> output_ok c ->
  output_ok c' /\ e = ending name f /\ cl_decoder c' = cl_decoder c
  /\ child_output (cl_stdout c') = child_output (cl_stdout c) ++ shown_by [f].
Proof.
  intros H Hok. assert (Same : shown_by [f] = [] -> c' = c -> e = ending name f ->
    output_ok c' /\ e = ending name f /\ cl_decoder c' = cl_decoder c
    /\ child_output (cl_stdout c') = child_output (cl_stdout c) ++ shown_by [f]).
  { intros E -> ->. rewrite E, app_nil_r. done. }
  destruct f as [m| |]; simpl in H; [|simplify_eq|by simplify_eq; apply Same].
  - apply Same; [done|..]; destruct m; simpl in *; repeat case_match; by simplify_eq.
  - split; [by apply show_ok|]. split; [done|]. split; [done|]. simpl. rewrite child_output_app. by unfold child_output at 2.
Qed.

(** A buffer against the frames to come: the next one is whole, or is waited for. *)
Lemma next_frame_stream buf later todo :
  Forall frame_ok todo -> buf ++ later = mjoin (map encode todo) ->
  (exists f todo' rest, todo = f :: todo' /\ buf = encode f ++ rest /\ rest ++ later = mjoin (map encode todo')
     /\ next_frame buf = (rest, Ok (Some f)))
  \/ (next_frame buf = (buf, Ok None) /\ (later = [] -> todo = [])).
Proof.
  intros Hok E. destruct todo as [|f todo].
  { right. apply app_eq_nil in E as [-> ->]. done. }
  apply Forall_cons in Hok as [Hf _]. change (mjoin (map encode (f :: todo))) with (encode f ++ mjoin (map encode todo)) in E.
  destruct (decide (length (encode f) <= length buf)) as [Hle|Hgt].
  - left. apply app_eq_inv in E as [(k & Eb & Ek)|(k & Eb & Ek)].
    + exists f, todo, k. split_and!; try done. unfold next_frame. by rewrite Eb, next_decoded_encode.
    + assert (k = []) as -> by (apply (f_equal length) in Eb; rewrite length_app in Eb; apply nil_length_inv; lia).
      rewrite app_nil_r in Eb. exists f, todo, []. simpl in *. split_and!; [done|by rewrite app_nil_r|done|].
      unfold next_frame. by rewrite <- (app_nil_r buf), <- Eb, next_decoded_encode.
  - right. split.
    + unfold next_frame, encode in *. rewrite (next_decoded_partial (body_of f)); [done|apply Hf| |lia].
      apply app_eq_inv in E as [(k & Eb & Ek)|(k & Eb & Ek)].
      * apply (f_equal length) in Eb. rewrite length_app in Eb. lia.
      * by exists k.
    + intros ->. apply (f_equal length) in E. rewrite app_nil_r, length_app in E. lia.
Qed.

Definition endless (fs : list (Frame Value)) : Prop := Forall (fun f => ending name f = None) fs.

Lemma read_frames_output fuel c later todo c' e :
  read_frames name fuel c = (c', e) -> length (cl_decoder c) < fuel -> output_ok c ->
  Forall frame_ok todo -> cl_decoder c ++ later = mjoin (map encode todo) ->
  exists mid rest, todo = mid ++ rest /\ output_ok c'
    /\ child_output (cl_stdout c') = child_output (cl_stdout c) ++ shown_by mid
    /\ match e with
       | None => endless mid /\ cl_decoder c' ++ later = mjoin (map encode rest) /\ (later = [] -> rest = [])
       | Some ended => exists before f, mid = before ++ [f] /\ endless before /\ ending name f = Some ended
       end.
Proof.
  revert c todo. induction fuel as [|fuel IH]; intros c todo H Hfuel Hok Hfs E; [lia|]. simpl in H.
  destruct (next_frame_stream _ _ _ Hfs E) as [(f & todo' & buf & -> & Eb & Er & Hn)|[Hn Hl]]; rewrite Hn in H.
  - destruct (on_frame name f (with_decoder buf c)) as [c1 e1] eqn:Hf. apply on_frame_output in Hf as (Hok1 & -> & Ed & Eo); [|done].
    simpl in Ed, Eo. apply Forall_cons in Hfs as [_ Hfs]. destruct (ending name f) as [e1|] eqn:Hend.
    + simplify_eq. exists [f], todo'. split_and!; [done|done|done|]. exists [], f. split_and!; [done|by constructor|done].
    + apply (IH c1 todo') in H as (mid & rest & -> & Hok' & Eo' & He); [|rewrite Ed|done|done|by rewrite Ed].
      * exists (f :: mid), rest. split_and!; [done|done| |].
        { rewrite Eo', Eo, <- app_assoc. by rewrite <- shown_by_app. }
        destruct e as [ended|].
        { destruct He as (before & g & -> & Hb & Hg). exists (f :: before), g. split_and!; [done|by constructor|done]. }
        destruct He as (Hm & ? & ?). split_and!; [by constructor|done|done].
      * rewrite Eb, length_app in Hfuel. pose proof (length_encode f). lia.
  - simplify_eq. exists [], todo. split_and!; [done|done|by rewrite app_nil_r|by constructor|done|done].
Qed.

Lemma ending_cases (f : Frame Value) e : ending name f = Some e -> (exists code, e = SessionExit code) \/ exists msg, e = Rejected msg.
Proof.
  destruct f as [m| |]; simpl; [|done..]. destruct m; try done; [case_bool_decide; [|done]|]; intros [= <-]; eauto.
Qed.

(** The bar is drawn, or not, over a session that is not on the alternate screen. *)
Lemma draw_output (b : bool) (c : Client) :
  output_ok c -> (b = true -> at_alt (cl_alt c) = false) ->
  let c' := if b then draw name ui c else c in
  output_ok c' /\ child_output (cl_stdout c') = child_output (cl_stdout c) /\ cl_decoder c' = cl_decoder c.
Proof. intros Hok Hb. destruct b; [|done]. split; [apply draw_ok; auto|]. by split; [apply draw_child|]. Qed.

Lemma on_winch_output cols rows (c : Client) :
  output_ok c ->
  output_ok (on_winch name ui cols rows c)
  /\ child_output (cl_stdout (on_winch name ui cols rows c)) = child_output (cl_stdout c)
  /\ cl_decoder (on_winch name ui cols rows c) = cl_decoder c.
Proof.
  intros Hok. unfold on_winch. set (c1 := send_control _ _).
  apply (draw_output _ c1); [exact Hok|]. by intros [_ ?%negb_true_iff]%andb_true_iff.
Qed.

Lemma on_event_output ev c later todo c' e :
  on_event name prefix ui ev c = (c', e) -> output_ok c -> Forall frame_ok todo ->
  cl_decoder c ++ received [ev] ++ later = mjoin (map encode todo) ->
  exists mid rest, todo = mid ++ rest /\ output_ok c'
    /\ child_output (cl_stdout c') = child_output (cl_stdout c) ++ shown_by mid
    /\ match e with
       | None => endless mid /\ cl_decoder c' ++ later = mjoin (map encode rest)
       | Some (SessionExit _ as ended) | Some (Rejected _ as ended) =>
           exists before f, mid = before ++ [f] /\ endless before /\ ending name f = Some ended
       | Some _ => endless mid
       end.
Proof.
  intros H Hok Hfs E. unfold received in E. simpl in E.
  destruct ev as [cols rows|chunk|chunk|]; simpl in H, E.
  - simplify_eq. exists [], todo. destruct (on_winch_output cols rows c Hok) as (Hw1 & -> & ->).
    split_and!; [done|done|by rewrite app_nil_r|by constructor|done].
  - unfold on_socket in H. rewrite app_nil_r, app_assoc in E. destruct chunk as [|b chunk].
    { simplify_eq. exists [], todo. split_and!; [done|done|by rewrite app_nil_r|by constructor]. }
    destruct (read_frames name _ _) as [c1 e1] eqn:Hr.
    destruct (read_frames_output _ _ later todo _ _ Hr) as (mid & rest & Em & Hok1 & Eo & He); [simpl; lia|done|done|done|].
    simpl in Eo. exists mid, rest. set (c2 := if _ && negb (at_alt (cl_alt c1)) then draw name ui c1 else c1) in H.
    assert (Hc2 : output_ok c2 /\ child_output (cl_stdout c2) = child_output (cl_stdout c1) /\ cl_decoder c2 = cl_decoder c1).
    { apply draw_output; [done|]. by intros [_ ?%negb_true_iff]%andb_true_iff. }
    destruct Hc2 as (Hok2 & Eo2 & Ed2). destruct e1 as [e1|].
    + destruct He as (before & f & -> & Hb & Hf). destruct (ending_cases f e1 Hf) as [[code ->]|[msg ->]]; simplify_eq;
        (split_and!; [done|done|by rewrite Eo2, Eo|by exists before, f]).
    + simplify_eq. destruct He as (? & ? & _). split_and!; [done|done|by rewrite Eo2, Eo|done|by rewrite Ed2].
  - unfold on_stdin in H.
    assert (Hin : output_ok c' /\ child_output (cl_stdout c') = child_output (cl_stdout c) /\ cl_decoder c' = cl_decoder c
      /\ match e with Some (SessionExit _) | Some (Rejected _) => False | _ => True end).
    { destruct chunk; [by simplify_eq|]. repeat case_match; by simplify_eq. }
    destruct Hin as (Hok' & Eo & Ed & He). exists [], todo. split_and!; [done|done|by rewrite Eo, app_nil_r|].
    destruct e as [[]|]; first [done|by constructor|rewrite Ed; split; [by constructor|done]].
  - simplify_eq. exists [], todo. split_and!; [done|done|by rewrite app_nil_r|by constructor].
Qed.

Lemma received_cons ev es : received (ev :: es) = received [ev] ++ received es.
Proof. unfold received. simpl. by rewrite app_nil_r. Qed.

Lemma run_output es c later todo c' e :
  run_client name prefix ui es c = Some (c', e) -> output_ok c -> Forall frame_ok todo ->
  cl_decoder c ++ received es ++ later = mjoin (map encode todo) ->
  exists mid rest, todo = mid ++ rest /\ output_ok c'
    /\ child_output (cl_stdout c') = child_output (cl_stdout c) ++ shown_by mid
    /\ match e with
       | None => endless mid /\ cl_decoder c' ++ later = mjoin (map encode rest)
       | Some (SessionExit _ as ended) | Some (Rejected _ as ended) =>
           exists before f, mid = before ++ [f] /\ endless before /\ ending name f = Some ended
       | Some _ => endless mid
       end.
Proof.
  revert c todo. induction es as [|ev es IH]; intros c todo H Hok Hfs E; simpl in H.
  - simplify_eq. exists [], todo. split_and!; [done|done|by rewrite app_nil_r|by constructor|exact E].
  - destruct (on_event name prefix ui ev c) as [c1 e1] eqn:He. rewrite received_cons, <- app_assoc in E.
    destruct (on_event_output ev c (received es ++ later) todo c1 e1 He Hok Hfs E) as (mid & rest & -> & Hok1 & Eo & Hend).
    destruct e1 as [e1|].
    + destruct es as [|? es]; [|done]. simplify_eq. by exists mid, rest.
    + destruct Hend as [Hm Ed]. apply Forall_app in Hfs as [_ Hfs].
      destruct (IH c1 rest H Hok1 Hfs Ed) as (mid2 & rest2 & -> & Hok2 & Eo2 & He2).
      exists (mid ++ mid2), rest2. split_and!; [by rewrite app_assoc|done|by rewrite Eo2, Eo, shown_by_app, app_assoc|].
      destruct e as [[]|]; first
        [ destruct He2 as (before & f & -> & Hb & Hf); exists (mid ++ before), f; split_and!; [by rewrite app_assoc|by apply Forall_app|done]
        | by apply Forall_app
        | destruct He2 as [Hb Hd]; split; [by apply Forall_app|done] ].
Qed.

Abbreviation started := (start (Value := Value) name ui) (only parsing).

Lemma start_ok cols rows : output_ok (started cols rows) /\ input_ok [] (started cols rows)
  /\ child_output (cl_stdout (started cols rows)) = [] /\ cl_decoder (started cols rows) = [].
Proof.
  assert (Hu : forall os, (forall o, o ∈ os -> exists b, o = Own b) -> undisturbed os /\ child_output os = []).
  { intros os H. assert (E : forall k, (forall o, o ∈ k -> exists b, o = Own b) -> child_output k = []).
    { clear. induction k as [|o k IH]; intros H; [done|]. destruct (H o) as [b ->]; [by left|]. unfold child_output in *. simpl.
      apply IH. intros o' Ho. apply H. by right. }
    split; [|by apply E]. intros pre b post ->. rewrite E; [done|]. intros o Ho. apply H. apply elem_of_app. by left. }
  assert (Hs : exists os, cl_stdout (started cols rows) = os /\ forall o, o ∈ os -> exists b, o = Own b).
  { eexists. split; [reflexivity|]. unfold start. destruct (ui_title ui), (bar_at ui rows); simpl; intros o Ho;
      repeat (apply elem_of_cons in Ho as [->|Ho]; [by eexists|]); by apply elem_of_nil in Ho. }
  destruct Hs as (os & Eos & Hos). destruct (Hu os Hos) as [H1 H2].
  assert (Hd : cl_alt (started cols rows) = new_tracker /\ cl_decoder (started cols rows) = []
    /\ cl_prefix_armed (started cols rows) = false /\ input_sent (cl_sent (started cols rows)) = []).
  { unfold start. by destruct (ui_title ui), (bar_at ui rows). }
  destruct Hd as (Ha & Hb & Hc & Hd). unfold output_ok, input_ok. rewrite Eos, Ha, Hb, Hc, Hd, H2.
  split_and!; try done; unfold scanned; by destruct prefix.
Qed.

End loop.

(** *** Witness: a client that is sent two bytes, types one and detaches *)

#[local] Instance mute_json : Json unit := {
  from_slice _ := None;
  from_value _ := None;
  to_vec _ := [];
  as_string _ := None;
  object_keys _ := None;
}.

Definition demo_ui : StatusUi := mk_ui true true (Some "Ctrl-b"%string).
Definition demo_frames : list (Frame unit) := [F_Data "s" [104; 105]%Z].
Definition demo_events : list event :=
  let wire := mjoin (map encode demo_frames) in
  [Socket (take 3 wire); Stdin [97; 2]%Z; Socket (drop 3 wire); Stdin [100]%Z].


(** ** Leaving the terminal *)

(** Modes the restoring bytes do not reset. *)
Definition LEFT_SET : Z :=
  foldr Z.lor 0%Z [Modes.BIT_ALT_47; Modes.BIT_ALT_1047; Modes.BIT_FOCUS_1004; Modes.BIT_MOUSE_1016].

(** From any state of the recognizer an escape starts afresh. *)
Lemma feed_escape m : Modes.feed_byte m ESC = Modes.mk_modes (Modes.m_enabled m) Modes.Esc.
Proof. destruct m as [e []]; reflexivity. Qed.

Lemma feed_restore e st : Modes.feed (Modes.mk_modes e st) TERM_RESTORE = Modes.mk_modes (Modes.m_enabled (Modes.feed (Modes.mk_modes e Modes.Normal) TERM_RESTORE)) Modes.Normal.
Proof.
  unfold TERM_RESTORE. cbn [app]. rewrite !Modes.feed_cons, !feed_escape. reflexivity.
Qed.

(** Without a question mark no mode is set. *)
Lemma feed_plain l m :
  Forall (fun b => b <> 63%Z) l -> (forall ps, Modes.m_state m <> Modes.Priv ps) ->
  Modes.m_enabled (Modes.feed m l) = Modes.m_enabled m /\ forall ps, Modes.m_state (Modes.feed m l) <> Modes.Priv ps.
Proof.
  intros H. revert m. induction H as [|b l Hb _ IH]; intros m Hm; [done|]. rewrite Modes.feed_cons.
  assert (E : Modes.m_enabled (Modes.feed_byte m b) = Modes.m_enabled m /\ forall ps, Modes.m_state (Modes.feed_byte m b) <> Modes.Priv ps).
  { unfold Modes.feed_byte. destruct (Modes.m_state m) as [| | |ps] eqn:Hs; [..|by destruct (Hm ps)];
      rewrite ?(proj2 (Z.eqb_neq b 63)) by done; repeat case_match; (split; [done|by intros ps]). }
  destruct E as [E1 E2]. destruct (IH _ E2) as [E3 E4]. by rewrite E3.
Qed.

Lemma bytes_text_plain s : forallb (fun b => negb (b =? 63)%Z) (bytes_text s) = true -> Forall (fun b => b <> 63%Z) (bytes_text s).
Proof. intros H. apply Forall_forall. intros b Hb. rewrite forallb_forall in H. apply list_elem_of_In, H in Hb. by intros ->. Qed.

Lemma dec_plain n : (0 <= n)%Z -> Forall (fun b => b <> 63%Z) (dec n).
Proof. intros H. eapply Forall_impl; [by apply dec_aux_digits|]. by intros b Hb ->. Qed.

Lemma clear_row_plain rows : (0 <= rows)%Z -> Forall (fun b => b <> 63%Z) (SCROLL_RESET ++ clear_row rows).
Proof.
  intros H. pose proof (dec_plain rows H) as Hd. unfold SCROLL_RESET, clear_row.
  repeat first [exact Hd | by apply bytes_text_plain | apply Forall_app; split | apply Forall_cons; split; [done|]].
Qed.

Lemma restored_modes :
  forallb (fun e => Modes.m_enabled (Modes.feed (Modes.mk_modes e Modes.Normal) TERM_RESTORE) =? Z.land e LEFT_SET)%Z
    (map Z.of_nat (seq 0 4096)) = true.
Proof. vm_compute. reflexivity. Qed.

(** Detaching does not leave the terminal as it was: whatever the session put on
    it, the restoring bytes turn off every mode the daemon tracks but four, focus
    reports (1004), pixel mouse reports (1016) and the older alternate screens (47 and
    1047), which stay exactly as the session left them. *)
Theorem restore_leaves (ui : StatusUi) (rows : Z) (output : list byte)
    (Htty : ui_title ui || ui_bar ui = true) (Hrows : (0 <= rows)%Z) :
  let m := Modes.feed Modes.new output in
  Modes.m_enabled (Modes.feed m (restore_bytes ui rows)) = Z.land (Modes.m_enabled m) LEFT_SET.
Proof.
  intros m. pose proof (Modes.feed_wf Modes.new output Modes.modes_new_wf) as [Hr _]. fold m in Hr.
  assert (Pre : exists pre, restore_bytes ui rows = pre ++ TERM_RESTORE /\ (pre = [] \/ head pre = Some ESC) /\ Forall (fun b => b <> 63%Z) pre).
  { unfold restore_bytes. rewrite Htty. cbn [negb]. rewrite app_assoc. eexists. split; [reflexivity|].
    pose proof (clear_row_plain rows Hrows) as Hc. assert (Ht : Forall (fun b => b <> 63%Z) TITLE_POP) by (apply Forall_cons; split; [done|by apply bytes_text_plain]).
    destruct (ui_bar ui && _), (ui_title ui); (split; [first [by left|by right]|]); first [by apply Forall_app|by rewrite app_nil_r|done]. }
  destruct Pre as (pre & -> & Hhead & Hplain). rewrite Modes.feed_app.
  assert (E : Modes.m_enabled (Modes.feed m pre) = Modes.m_enabled m).
  { destruct pre as [|b pre]; [done|]. destruct Hhead as [?|[= ->]]; [done|]. rewrite Modes.feed_cons, feed_escape.
    apply Forall_cons in Hplain as [_ Hplain]. by apply (feed_plain pre (Modes.mk_modes (Modes.m_enabled m) Modes.Esc)). }
  destruct (Modes.feed m pre) as [e st]. simpl in E. subst e. rewrite feed_restore. simpl.
  pose proof restored_modes as H. rewrite forallb_forall in H. apply Z.eqb_eq, H, in_map_iff.
  exists (Z.to_nat (Modes.m_enabled m)). split; [lia|]. apply in_seq. change (2 ^ 12)%Z with 4096%Z in Hr. lia.
Qed.

Lemma restore_leaves_witness :
  Modes.m_enabled (Modes.feed (Modes.feed Modes.new (ESC :: bytes_text "[?1004h")) (restore_bytes demo_ui 24)) = Modes.BIT_FOCUS_1004.
Proof. rewrite (restore_leaves demo_ui 24 (ESC :: bytes_text "[?1004h") eq_refl ltac:(lia)). reflexivity. Defined.

(** ** Names that are numbers

    [validate_session_name] accepts them; a command then means the slot. *)
Definition demo_session (name : string) (slot : Z) : SessionInfo :=
  mk_session_info name "/" "shell" true None None 0 None None 80 24 slot.

Example numeric_name_misdirected :
  resolve_name_or_slot "3" [demo_session "3" 1; demo_session "build" 3] = Ok "build"%string.
Proof. reflexivity. Qed.

(** The bar fills its row exactly. *)
Lemma render_status_line_width name cols hint :
  (0 <= cols)%Z -> length (render_status_line name cols hint) = Z.to_nat cols.
Proof.
  intros H. unfold render_status_line. set (s := _ ++ _). destruct (Z.ltb_spec cols (Z.of_nat (length s))).
  - rewrite length_take. lia.
  - rewrite length_app, repeat_length. lia.
Qed.

Definition numbered (n : Z) : string := "s" +:+ string_of_bytes (dec n).

Lemma dec_ok n : (0 <= n)%Z -> bytes_ok (dec n).
Proof.
  intros H. eapply Forall_impl; [by apply dec_aux_digits|]. intros b Hb. unfold is_digit in Hb.
  apply andb_true_iff in Hb as [?%Z.leb_le ?%Z.leb_le]. split; lia.
Qed.

Lemma numbered_inj m n : (0 <= m <= u64_max)%Z -> (0 <= n <= u64_max)%Z -> numbered m = numbered n -> m = n.
Proof.
  intros Hm Hn E. apply (f_equal bytes_of_string) in E. unfold numbered in E. rewrite !bytes_of_string_app in E. apply app_inv_head in E.
  rewrite !bytes_of_string_of_bytes in E by by apply dec_ok; lia.
  pose proof (parse_uint_dec u64_max m Hm ltac:(lia)) as H1. rewrite E, parse_uint_dec in H1 by lia. by injection H1.
Qed.

Lemma free_name_spec fuel n existing :
  free_name fuel n existing ∉ existing \/ forall k, k <= fuel -> numbered (n + Z.of_nat k) ∈ existing.
Proof.
  revert n. induction fuel as [|fuel IH]; intros n; simpl; fold (numbered n).
  - destruct (decide (numbered n ∈ existing)) as [H|H]; [right|by left]. intros k Hk. replace k with 0 by lia. by rewrite Z.add_0_r.
  - case_bool_decide as H; [|by left]. destruct (IH (n + 1)%Z) as [IH'|IH']; [by left|right]. intros [|k] Hk; [by rewrite Z.add_0_r|].
    replace (n + Z.of_nat (S k))%Z with (n + 1 + Z.of_nat k)%Z by lia. apply IH'. lia.
Qed.

(** The name a new session gets is free. *)
Lemma next_session_name_free existing :
  (Z.of_nat (length existing) < u64_max)%Z -> next_session_name existing ∉ existing.
Proof.
  intros Hlen. destruct (free_name_spec (length existing) 1 existing) as [H|H]; [exact H|exfalso].
  set (names := map (fun k => numbered (1 + Z.of_nat k)) (seq 0 (S (length existing)))).
  assert (Hnd : NoDup names).
  { apply NoDup_fmap_2_strong; [|apply NoDup_seq]. intros x y Hx Hy E. apply elem_of_seq in Hx, Hy. apply numbered_inj in E; lia. }
  assert (Hin : names ⊆ existing).
  { intros x Hx. apply list_elem_of_fmap in Hx as (k & -> & Hk). apply elem_of_seq in Hk. apply H. lia. }
  pose proof (submseteq_length _ _ (NoDup_submseteq _ _ Hnd Hin)) as Hl. unfold names in Hl. rewrite length_map, length_seq in Hl. lia.
Qed.
