(* ===== verification/Http.v ===== *)
(** * Requests of the web server

    The HTTP half of [crates/amber/src/web.rs]: reading a request off a connection
    ([parse_head], [parse_request], the two read loops of [handle_conn]) and what is
    read out of its headers.  A [&str] is the list of its characters; a [usize] has
    64 bits. *)
From S2P Require Import Prelude Utf8 Search.

(** ** Text *)

(** A [&str]; literals are ASCII, so their bytes are their characters. *)
Abbreviation text := (list Z).
Definition lit (s : string) : text := bytes_of_string s.

(** [str::as_bytes] *)
Definition as_bytes (t : text) : list byte := mjoin (map encode_char t).

(** [char::to_ascii_lowercase], on a whole string. *)
Definition lower (c : Z) : Z := if between 65 90 c then (c + 32)%Z else c.
Definition to_ascii_lowercase (t : text) : text := map lower t.

(** [str::split_once] with a character. *)
Fixpoint split_once (sep : Z) (t : text) : option (text * text) :=
  match t with
  | [] => None
  | c :: t' =>
      if (c =? sep)%Z then Some ([], t')
      else match split_once sep t' with Some (a, b) => Some (c :: a, b) | None => None end
  end.

(** [str::split("\r\n")] *)
Fixpoint split_crlf (t : text) : list text :=
  match t with
  | [] => [[]]
  | c :: t' =>
      match c, t' with
      | 13%Z, 10%Z :: t'' => [] :: split_crlf t''
      | _, _ => match split_crlf t' with [] => [[c]] | p :: ps => (c :: p) :: ps end
      end
  end.

(** [Iterator::find_map] over the pieces. *)
Fixpoint find_map {A B} (f : A -> option B) (l : list A) : option B :=
  match l with
  | [] => None
  | a :: l' => match f a with Some b => Some b | None => find_map f l' end
  end.

(** ** Parsing *)

Definition Headers : Type := list (text * text).

Record Head := mk_head {
  hd_method : text; hd_path : text; hd_headers : Headers; hd_body_start : nat }.

Record Request := mk_request {
  rq_method : text; rq_path : text; rq_headers : Headers; rq_body : list byte }.

Inductive HttpError :=
| HeadExceeds
| RequestExceeds
| Utf8Error
| MalformedRequestLine (start : text)
| MalformedHeaderLine (line : text)
| ParseIntError.

Definition MAX_REQUEST_LEN : nat := 32 * 1024.
Definition MAX_HEAD_LEN : nat := 16 * 1024.

Definition header_of (headers : Headers) (name : text) : option text :=
  snd <$> find_first (fun kv => bool_decide (kv.1 = name)) headers.
Definition header (r : Request) (name : string) : option text := header_of (rq_headers r) (lit name).

(** [buf.windows(4).position(|w| w == b"\r\n\r\n")] *)
Fixpoint head_end (buf : list byte) : option nat :=
  match buf with
  | [] => None
  | b :: buf' =>
      if bool_decide (take 4 buf = [13; 10; 13; 10]%Z) then Some 0
      else S <$> head_end buf'
  end.

Definition parse_header (line : text) : result (text * text) HttpError :=
  match split_once 58 line with
  | None => Err (MalformedHeaderLine line)
  | Some (k, v) => Ok (to_ascii_lowercase (trim k), trim v)
  end.

Fixpoint parse_headers (lines : list text) : result Headers HttpError :=
  match lines with
  | [] => Ok []
  | line :: lines' => h <-? parse_header line; hs <-? parse_headers lines'; Ok (h :: hs)
  end.

Definition parse_start (start : text) : result (text * text) HttpError :=
  match split_on 32 start with
  | method :: path :: version :: _ =>
      if starts_with version (lit "HTTP/") then Ok (method, path) else Err (MalformedRequestLine start)
  | _ => Err (MalformedRequestLine start)
  end.

Definition parse_head (buf : list byte) : result (option Head) HttpError :=
  match head_end buf with
  | None => if MAX_HEAD_LEN <? length buf then Err HeadExceeds else Ok None
  | Some e =>
      if MAX_HEAD_LEN <? e + 4 then Err HeadExceeds
      else match chars_of (take e buf) with
      | None => Err Utf8Error
      | Some head =>
          mp <-? parse_start (default [] (hd_error (split_crlf head)));
          headers <-? parse_headers (tail (split_crlf head));
          Ok (Some (mk_head mp.1 mp.2 headers (e + 4)))
      end
  end.

(** [usize] addition: with overflow checks it panics, without it wraps. *)
Definition add_usize (checks : bool) (a b : Z) : option Z :=
  if (a + b <=? u64_max)%Z then Some (a + b)%Z
  else if checks then None else Some (a + b - 2 ^ 64)%Z.

(** [&buf[a..b]], which panics out of range. *)
Definition slice (buf : list byte) (a b : Z) : option (list byte) :=
  if ((a <=? b) && (b <=? Z.of_nat (length buf)))%Z
  then Some (take (Z.to_nat (b - a)) (drop (Z.to_nat a) buf)) else None.

Definition content_length (headers : Headers) : option Z :=
  match header_of headers (lit "content-length") with
  | None => Some 0%Z
  | Some v => parse_uint u64_max v
  end.

(** [None] is a panic. *)
Definition parse_request (checks : bool) (buf : list byte) : option (result (option Request) HttpError) :=
  if MAX_REQUEST_LEN <? length buf then Some (Err RequestExceeds)
  else match parse_head buf with
  | Err e => Some (Err e)
  | Ok None => Some (Ok None)
  | Ok (Some h) =>
      match content_length (hd_headers h) with
      | None => Some (Err ParseIntError)
      | Some len =>
          stop ← add_usize checks (Z.of_nat (hd_body_start h)) len;
          if (Z.of_nat (length buf) <? stop)%Z then Some (Ok None)
          else
            stop' ← add_usize checks (Z.of_nat (hd_body_start h)) len;
            body ← slice buf (Z.of_nat (hd_body_start h)) stop';
            Some (Ok (Some (mk_request (hd_method h) (hd_path h) (hd_headers h) body)))
      end
  end.

(** ** Reading a connection *)

(** What a [read] answers: bytes ([Chunk []] at the end of the stream) or an error. *)
Inductive Read := Chunk (l : list byte) | ReadError.

Inductive Reception :=
| Waiting                                               (** blocked in [read] *)
| Closed
| Unreadable
| Malformed (e : HttpError)
| Panicked
| Upload (h : Head) (prefix : list byte) (rest : list Read)
| Received (r : Request).

Definition path_of (path : text) : text :=
  match split_once 63 path with Some (p, _) => p | None => path end.
Definition query_of (path : text) : text :=
  match split_once 63 path with Some (_, q) => q | None => [] end.

Definition is_upload (h : Head) : bool :=
  bool_decide (hd_method h = lit "POST") && bool_decide (path_of (hd_path h) = lit "/api/clipboard-image").

Fixpoint read_request (checks : bool) (buf : list byte) (reads : list Read) : Reception :=
  match parse_request checks buf with
  | None => Panicked
  | Some (Err e) => Malformed e
  | Some (Ok (Some r)) => Received r
  | Some (Ok None) =>
      match reads with
      | [] => Waiting
      | ReadError :: _ => Unreadable
      | Chunk [] :: _ => Closed
      | Chunk l :: reads' => read_request checks (buf ++ l) reads'
      end
  end.

Fixpoint read_head (checks : bool) (buf : list byte) (reads : list Read) : Reception :=
  match parse_head buf with
  | Err e => Malformed e
  | Ok (Some h) =>
      if is_upload h then Upload h (drop (hd_body_start h) buf) reads
      else read_request checks buf reads
  | Ok None =>
      match reads with
      | [] => Waiting
      | ReadError :: _ => Unreadable
      | Chunk [] :: _ => Closed
      | Chunk l :: reads' => read_head checks (buf ++ l) reads'
      end
  end.

(** [handle_conn] up to the request it serves. *)
Definition receive (checks : bool) (reads : list Read) : Reception := read_head checks [] reads.

(** ** What is read out of headers *)

Definition cookie_value (h : text) (name : text) : option text :=
  find_map (fun pair =>
    match split_once 61 pair with
    | Some (k, v) => if bool_decide (trim k = name) then Some (trim v) else None
    | None => None
    end) (split_on 59 h).

(** [router_ops::query_param] *)
Definition query_param (query key : text) : option text :=
  find_map (fun pair =>
    match split_once 61 pair with
    | Some (k, v) => if bool_decide (k = key) then Some v else None
    | None => None
    end) (split_on 38 query).

(** [origin.split_once("://")] *)
Fixpoint after_scheme (t : text) : option text :=
  match t with
  | [] => None
  | c :: t' => if starts_with t (lit "://") then Some (drop 3 t) else after_scheme t'
  end.

Definition eq_ignore_ascii_case (a b : text) : bool :=
  bool_decide (to_ascii_lowercase a = to_ascii_lowercase b).

Definition origin_ok (origin host fwd_host : option text) : bool :=
  match origin with
  | None => true
  | Some origin =>
      let authority := default origin (after_scheme origin) in
      existsb (eq_ignore_ascii_case authority) (option_list host ++ option_list fwd_host)
  end.

Definition image_ext_for_magic (bytes : list byte) : option string :=
  if bool_decide (take 8 bytes = [137; 80; 78; 71; 13; 10; 26; 10]%Z) then Some "png"
  else if bool_decide (take 3 bytes = [255; 216; 255]%Z) then Some "jpg"
  else if bool_decide (take 6 bytes = lit "GIF87a") || bool_decide (take 6 bytes = lit "GIF89a") then Some "gif"
  else if bool_decide (take 4 bytes = lit "RIFF") && bool_decide (take 4 (drop 8 bytes) = lit "WEBP") then Some "webp"
  else None.

(** [rsplit_once] with a character. *)
Definition rsplit_once (sep : Z) (t : text) : option (text * text) :=
  match split_once sep (reverse t) with
  | Some (b, a) => Some (reverse a, reverse b)
  | None => None
  end.

Definition ends_with (t suffix : text) : bool := starts_with (reverse t) (reverse suffix).

(** [str::trim_end_matches('.')] *)
Fixpoint drop_dots (t : text) : text :=
  match t with 46%Z :: t' => drop_dots t' | _ => t end.
Definition trim_end_dots (t : text) : text := reverse (drop_dots (reverse t)).

Definition ts_net_host (host : option text) : bool :=
  match host with
  | None => false
  | Some raw =>
      let first := trim (default [] (hd_error (split_on 44 (trim raw)))) in
      let host := match first with
                  | 91%Z :: s => match split_once 93 s with Some (h, _) => h | None => first end
                  | _ => first
                  end in
      let host := match rsplit_once 58 host with
                  | Some (h, port) => if forallb is_digit port then h else host
                  | None => host
                  end in
      let host := to_ascii_lowercase (trim_end_dots host) in
      if (length (as_bytes host) <=? 7) || existsb (fun c => (c =? 47) || (c =? 92) || (c =? 32))%Z host then false
      else ends_with host (lit ".ts.net") && negb (starts_with host (lit "."))
  end.

(** ** Facts of text *)

(** A Unicode scalar value, what a Rust [char] is. *)
Definition is_char (c : Z) : Prop := (0 <= c < 55296 \/ 57344 <= c < 1114112)%Z.

Ltac bool_cases :=
  repeat match goal with
  | |- context [(?a <? ?b)%Z] => destruct (Z.ltb_spec a b); try (exfalso; zdivmod)
  | |- context [(?a <=? ?b)%Z] => destruct (Z.leb_spec a b); try (exfalso; zdivmod)
  | |- context [(?a =? ?b)%Z] => destruct (Z.eqb_spec a b); try (exfalso; zdivmod)
  end; simpl.

Lemma decode_encode_char c l : is_char c -> decode_char (encode_char c ++ l) = Some (c, l).
Proof.
  intros Hc. unfold is_char in Hc. unfold encode_char.
  destruct (Z.ltb_spec c 128).
  { simpl. unfold decode_char. by destruct (Z.ltb_spec c 128); [|lia]. }
  destruct (Z.ltb_spec c 2048); [|destruct (Z.ltb_spec c 65536)].
  all: simpl app; unfold decode_char, second_ok, is_cont, between; bool_cases; do 2 f_equal; zdivmod.
Qed.

Lemma encode_char_bytes c : is_char c ->
  exists b l, encode_char c = b :: l /\ (l <> [] -> Forall (fun x => 128 <= x)%Z (b :: l)) /\ (l = [] -> b = c).
Proof.
  intros Hc. unfold is_char in Hc. unfold encode_char.
  destruct (c <? 128)%Z eqn:H1; [|destruct (c <? 2048)%Z eqn:H2; [|destruct (c <? 65536)%Z eqn:H3]].
  all: do 2 eexists; split; [done|]; split; intros; simplify_eq/=; try done.
  all: repeat constructor; zdivmod.
Qed.

Lemma chars_of_encode c : is_char c -> chars_of (encode_char c) = Some [c].
Proof.
  intros Hc. pose proof (decode_encode_char c [] Hc) as Hd. rewrite app_nil_r in Hd.
  destruct (encode_char_bytes c Hc) as (b & l & E & _). unfold chars_of. rewrite E in *. simpl. rewrite Hd. by destruct (length l).
Qed.

Lemma chars_of_as_bytes t : Forall is_char t -> chars_of (as_bytes t) = Some t.
Proof.
  induction 1 as [|c t Hc _ IH]; [done|].
  change (as_bytes (c :: t)) with (encode_char c ++ as_bytes t).
  by apply (chars_of_app _ _ [c]); [apply chars_of_encode|].
Qed.

Lemma as_bytes_app t u : as_bytes (t ++ u) = as_bytes t ++ as_bytes u.
Proof. unfold as_bytes. by rewrite map_app, join_app. Qed.

(** An ASCII character stands for itself and is a byte of no other. *)
Lemma as_bytes_no x t : (0 <= x < 128)%Z -> Forall is_char t -> x ∉ t -> x ∉ as_bytes t.
Proof.
  intros Hx. induction 1 as [|c t Hc _ IH]; [set_solver|]. intros Hn.
  change (as_bytes (c :: t)) with (encode_char c ++ as_bytes t).
  apply not_elem_of_cons in Hn as [Hxc Hn]. rewrite elem_of_app. intros [Hin|]; [|by apply IH].
  destruct (encode_char_bytes c Hc) as (b & l & E & Hl & Hb). rewrite E in Hin.
  destruct l as [|b' l]; [rewrite Hb in Hin by done; apply list_elem_of_singleton in Hin; done|].
  specialize (Hl ltac:(done)). rewrite Forall_forall in Hl. apply Hl in Hin. lia.
Qed.

Lemma as_bytes_ascii t : Forall (fun c => 0 <= c < 128)%Z t -> as_bytes t = t.
Proof.
  induction 1 as [|c t Hc _ IH]; [done|]. change (as_bytes (c :: t)) with (encode_char c ++ as_bytes t).
  rewrite IH. unfold encode_char. by rewrite (proj2 (Z.ltb_lt c 128)) by lia.
Qed.

(** ** The end of the head *)

Definition CRLF : list byte := [13; 10]%Z.

Lemma head_end_cons b l :
  head_end (b :: l) = if bool_decide (take 4 (b :: l) = [13; 10; 13; 10]%Z) then Some 0 else S <$> head_end l.
Proof. done. Qed.

Lemma head_end_app p q e : head_end p = Some e -> head_end (p ++ q) = Some e /\ e + 4 <= length p.
Proof.
  revert e. induction p as [|b p IH]; intros e; [done|].
  rewrite head_end_cons. change ((b :: p) ++ q) with (b :: p ++ q). rewrite head_end_cons.
  change (b :: p ++ q) with ((b :: p) ++ q).
  case_bool_decide as H4.
  - intros [= <-]. assert (Hlen : 4 <= length (b :: p)) by (apply (f_equal length) in H4; rewrite length_take in H4; change (length [13; 10; 13; 10]%Z) with 4 in H4; lia).
    split; [|lia]. rewrite take_app_le by done. by rewrite bool_decide_true.
  - destruct (head_end p) as [e'|] eqn:E; [|done]. intros [= <-]. destruct (IH e' eq_refl) as [-> Hlen].
    split; [|simpl; lia]. case_bool_decide as H5; [|done]. exfalso. apply H4.
    rewrite take_app_le in H5; [done|]. simpl. lia.
Qed.

Lemma head_end_skip l rest : 13%Z ∉ l -> head_end (l ++ rest) = (fun e => length l + e) <$> head_end rest.
Proof.
  induction l as [|b l IH]; intros Hn; [simpl; by destruct (head_end rest)|].
  apply not_elem_of_cons in Hn as [Hb Hn]. simpl app.
  rewrite head_end_cons, bool_decide_false by (simpl; congruence). rewrite IH by done. by destruct (head_end rest).
Qed.

(** A line break before a line that is not empty does not end the head. *)
Lemma head_end_line b rest : (b <> 13)%Z -> head_end (13 :: 10 :: b :: rest)%Z = (fun e => 2 + e) <$> head_end (b :: rest).
Proof.
  intros Hb. rewrite (head_end_cons 13), (head_end_cons 10), !bool_decide_false by (simpl; congruence).
  by destruct (head_end (b :: rest)).
Qed.

Fixpoint join_lines (ls : list (list byte)) : list byte :=
  match ls with [] => [] | l :: ls' => CRLF ++ l ++ join_lines ls' end.

Lemma head_end_lines l ls rest :
  Forall (fun l => 13%Z ∉ l) (l :: ls) -> Forall (fun l => l <> []) ls ->
  head_end (l ++ join_lines ls ++ CRLF ++ CRLF ++ rest) = Some (length (l ++ join_lines ls)).
Proof.
  revert l. induction ls as [|m ls IH]; intros l Hn Hne; apply Forall_cons in Hn as [Hl Hn]; rewrite head_end_skip by done.
  { cbn [join_lines app CRLF]. rewrite head_end_cons, bool_decide_true by done. simpl. f_equal. rewrite app_nil_r. lia. }
  apply Forall_cons in Hne as [Hm Hne]. simpl join_lines.
  destruct m as [|b m]; [done|].
  cbn [app]. rewrite head_end_line.
  2: { apply Forall_inv in Hn. by apply not_elem_of_cons in Hn as [? _]. }
  specialize (IH (b :: m) Hn Hne). cbn [app] in IH. rewrite <- app_assoc, IH. simpl. f_equal.
  rewrite !length_app. simpl. rewrite length_app. lia.
Qed.

(** ** A printed request *)

Lemma split_crlf_cons c t :
  split_crlf (c :: t) =
    match c, t with
    | 13%Z, 10%Z :: t' => [] :: split_crlf t'
    | _, _ => match split_crlf t with [] => [[c]] | p :: ps => (c :: p) :: ps end
    end.
Proof. done. Qed.

Lemma split_crlf_lines l ls : Forall (fun l => 13%Z ∉ l) (l :: ls) -> split_crlf (l ++ join_lines ls) = l :: ls.
Proof.
  revert l. induction ls as [|m ls IH]; intros l Hn; apply Forall_cons in Hn as [Hl Hn].
  all: induction l as [|c l IHl]; [|apply not_elem_of_cons in Hl as [Hc Hl]; specialize (IHl Hl)].
  all: try (cbn [app]; rewrite split_crlf_cons, IHl; by repeat case_match).
  - done.
  - change ([] ++ join_lines (m :: ls)) with (13%Z :: 10%Z :: m ++ join_lines ls). rewrite split_crlf_cons. by rewrite IH.
Qed.

Lemma split_once_cons sep a b : sep ∉ a -> split_once sep (a ++ sep :: b) = Some (a, b).
Proof.
  induction a as [|c a IH]; intros Hn; simpl; [by rewrite Z.eqb_refl|].
  apply not_elem_of_cons in Hn as [Hc Hn]. rewrite (proj2 (Z.eqb_neq c sep)) by done. by rewrite IH.
Qed.

Lemma not_elem_Forall (x : Z) t : x ∉ t -> Forall (fun c => c <> x) t.
Proof. rewrite Forall_forall. intros Hn c Hc ->. done. Qed.

Definition print_start (method path : text) : text := method ++ lit " " ++ path ++ lit " HTTP/1.1".
Definition print_header (kv : text * text) : text := kv.1 ++ lit ": " ++ kv.2.
Definition head_text (r : Request) : text :=
  print_start (rq_method r) (rq_path r) ++ join_lines (map print_header (rq_headers r)).

(** A request as a client writes it. *)
Definition print_request (r : Request) : list byte :=
  as_bytes (head_text r) ++ CRLF ++ CRLF ++ rq_body r.

Definition word (t : text) : Prop := Forall is_char t /\ (13%Z ∉ t) /\ (32%Z ∉ t).

Record wf_header (kv : text * text) : Prop := mk_wf_header {
  wh_chars : Forall is_char (kv.1 ++ kv.2);
  wh_line : 13%Z ∉ kv.1 ++ kv.2;
  wh_name : 58%Z ∉ kv.1;
  wh_lower : to_ascii_lowercase (trim kv.1) = kv.1;
  wh_value : trim kv.2 = kv.2 }.

Record wf_request (r : Request) : Prop := mk_wf_request {
  wr_method : word (rq_method r);
  wr_path : word (rq_path r);
  wr_headers : Forall wf_header (rq_headers r);
  wr_length : content_length (rq_headers r) = Some (Z.of_nat (length (rq_body r)));
  wr_head_fits : length (as_bytes (head_text r)) + 4 <= MAX_HEAD_LEN;
  wr_fits : length (print_request r) <= MAX_REQUEST_LEN }.

Lemma parse_start_print m p : word m -> word p -> parse_start (print_start m p) = Ok (m, p).
Proof.
  intros (_ & _ & Hm) (_ & _ & Hp). unfold parse_start, print_start.
  change (lit " " ++ p ++ lit " HTTP/1.1") with (32%Z :: p ++ 32%Z :: lit "HTTP/1.1").
  rewrite split_on_cons by (by apply not_elem_Forall). by rewrite split_on_cons by (by apply not_elem_Forall).
Qed.

Lemma parse_header_print kv : wf_header kv -> parse_header (print_header kv) = Ok kv.
Proof.
  intros [_ _ Hn Hk Hv]. destruct kv as [k v]. cbn [fst snd] in *. unfold parse_header, print_header. cbn [fst snd].
  change (lit ": " ++ v) with (58%Z :: 32%Z :: v). rewrite split_once_cons by done.
  change (trim (32%Z :: v)) with (trim v). by rewrite Hk, Hv.
Qed.

Lemma parse_headers_print hs : Forall wf_header hs -> parse_headers (map print_header hs) = Ok hs.
Proof. induction 1 as [|h hs Hh _ IH]; [done|]. simpl. rewrite parse_header_print by done. simpl. by rewrite IH. Qed.

(** The lines of a head have neither a line break inside nor, but for the first, nothing at all. *)
Lemma head_lines r : wf_request r ->
  let ls := print_start (rq_method r) (rq_path r) :: map print_header (rq_headers r) in
  Forall (Forall is_char) ls /\ Forall (fun l => 13%Z ∉ l) ls /\ Forall (fun l => l <> []) ls.
Proof.
  intros [(Hm & Hm13 & _) (Hp & Hp13 & _) Hh _ _ _]. simpl. unfold print_start, print_header.
  assert (Hlit : forall s, Forall (fun c => 0 <= c < 128)%Z (lit s) -> Forall is_char (lit s)).
  { intros s Hs. eapply Forall_impl; [exact Hs|]. intros c Hc; cbv beta in Hc; left; lia. }
  split_and!; constructor.
  - rewrite !Forall_app; split_and!; try done; apply Hlit; by apply (bool_decide_unpack _).
  - apply Forall_map. eapply Forall_impl; [exact Hh|]. intros kv [Hc _ _ _ _]. apply Forall_app in Hc as [Hk Hv].
    rewrite !Forall_app; split_and!; try done; apply Hlit; by apply (bool_decide_unpack _).
  - rewrite !not_elem_of_app. split_and!; try done; by apply (bool_decide_unpack _).
  - apply Forall_map. eapply Forall_impl; [exact Hh|]. intros kv [_ Hl _ _ _].
    rewrite not_elem_of_app in Hl. rewrite !not_elem_of_app. split_and!; try apply Hl; by apply (bool_decide_unpack _).
  - by destruct (rq_method r).
  - apply Forall_map. eapply Forall_impl; [exact Hh|]. intros [[|] v] _; done.
Qed.

Lemma as_bytes_join ls : as_bytes (join_lines ls) = join_lines (map as_bytes ls).
Proof. induction ls as [|l ls IH]; [done|]. cbn [join_lines map]. by rewrite !as_bytes_app, IH. Qed.

Lemma head_end_print r body : wf_request r ->
  head_end (as_bytes (head_text r) ++ CRLF ++ CRLF ++ body) = Some (length (as_bytes (head_text r))).
Proof.
  intros Hr. destruct (head_lines r Hr) as (Hc & Hn & Hne). unfold head_text.
  rewrite as_bytes_app, as_bytes_join, <- app_assoc. apply head_end_lines.
  - change (Forall (fun l => 13%Z ∉ l) (map as_bytes (print_start (rq_method r) (rq_path r) :: map print_header (rq_headers r)))).
    apply Forall_map. rewrite Forall_forall in *. intros l Hl. apply as_bytes_no; [lia|by apply Hc|by apply Hn].
  - apply Forall_map. apply Forall_cons in Hc as [_ Hc]. apply Forall_cons in Hne as [_ Hne].
    rewrite Forall_forall in *. intros [|c l] Hl; [by apply Hne in Hl|].
    apply Hc in Hl. apply Forall_cons in Hl as [Hx _]. destruct (encode_char_bytes c Hx) as (b & k & E & _).
    change (as_bytes (c :: l)) with (encode_char c ++ as_bytes l). simpl. by rewrite E.
Qed.

Section Printed.
Context (r : Request) (Hr : wf_request r).

Definition body_start : nat := length (as_bytes (head_text r)) + 4.
Definition head_of : Head := mk_head (rq_method r) (rq_path r) (rq_headers r) body_start.

Lemma print_split p q : print_request r = p ++ q ->
  (head_end p = None /\ length p < body_start) \/
  (head_end p = Some (length (as_bytes (head_text r))) /\ body_start <= length p).
Proof.
  intros E. pose proof (head_end_print r (rq_body r) Hr) as He. fold (print_request r) in He. unfold body_start. destruct (head_end p) as [e|] eqn:Hp.
  - right. apply (head_end_app _ q) in Hp as [Hp Hle]. rewrite <- E, He in Hp. injection Hp as <-. split; [done|lia].
  - left. split; [done|]. destruct (decide (length p < length (as_bytes (head_text r)) + 4)); [done|exfalso].
    enough (head_end p = Some (length (as_bytes (head_text r)))) by congruence.
    assert (Ep : p = as_bytes (head_text r) ++ CRLF ++ CRLF ++ take (length p - (length (as_bytes (head_text r)) + 4)) (rq_body r)).
    { assert (Et : take (length p) (print_request r) = p) by (by rewrite E, take_app_length).
      rewrite <- Et at 1. unfold print_request. rewrite take_app_ge by lia. f_equal.
      replace (length p - length (as_bytes (head_text r))) with (4 + (length p - (length (as_bytes (head_text r)) + 4))) by lia.
      done. }
    rewrite Ep. by apply head_end_print.
Qed.

Lemma take_head p q : print_request r = p ++ q -> body_start <= length p ->
  take (length (as_bytes (head_text r))) p = as_bytes (head_text r).
Proof.
  unfold body_start. intros E Hle. rewrite <- (take_app_le p q) by lia. rewrite <- E.
  unfold print_request. by rewrite take_app_length.
Qed.

(** Every part of the request is read as nothing yet, or as its head. *)
Lemma parse_head_print p q : print_request r = p ++ q ->
  parse_head p = if length p <? body_start then Ok None else Ok (Some head_of).
Proof.
  intros E. pose proof (wr_head_fits _ Hr) as Hfits. fold body_start in Hfits. unfold parse_head.
  destruct (print_split p q E) as [[-> Hlt]|[-> Hle]].
  - rewrite (proj2 (Nat.ltb_ge MAX_HEAD_LEN (length p))) by lia. by rewrite (proj2 (Nat.ltb_lt _ _)).
  - fold body_start. rewrite (proj2 (Nat.ltb_ge MAX_HEAD_LEN body_start)), (proj2 (Nat.ltb_ge _ _)) by lia.
    rewrite (take_head p q) by done. destruct (head_lines r Hr) as (Hc & Hn & _). unfold head_text.
    rewrite chars_of_as_bytes, split_crlf_lines.
    + simpl. rewrite parse_start_print by apply Hr. simpl. by rewrite parse_headers_print by apply Hr.
    + exact Hn.
    + clear -Hc. apply Forall_cons in Hc as [H0 Hc]. apply Forall_app. split; [done|].
      induction Hc as [|l ls Hl _ IH]; cbn [join_lines]; [done|]. rewrite !Forall_app. split_and!; [|done..].
      repeat constructor; lia.
Qed.

Lemma length_print : length (print_request r) = body_start + length (rq_body r).
Proof. unfold print_request, body_start. rewrite !length_app. simpl. lia. Qed.

Lemma parse_request_print checks p q : print_request r = p ++ q ->
  parse_request checks p = Some (Ok (if length p <? length (print_request r) then None else Some r)).
Proof.
  intros E. pose proof (wr_fits _ Hr) as Hfits. pose proof (wr_length _ Hr) as Hlen. pose proof length_print as Hl.
  assert (Hp : length p <= length (print_request r)) by (rewrite E, length_app; lia).
  unfold parse_request. rewrite (proj2 (Nat.ltb_ge MAX_REQUEST_LEN (length p))) by lia. rewrite (parse_head_print p q E).
  destruct (length p <? body_start) eqn:Hb.
  { apply Nat.ltb_lt in Hb. by rewrite (proj2 (Nat.ltb_lt (length p) (length (print_request r)))) by lia. }
  apply Nat.ltb_ge in Hb. cbn [hd_headers hd_body_start head_of]. rewrite Hlen.
  assert (Hsum : add_usize checks (Z.of_nat body_start) (Z.of_nat (length (rq_body r)))
                 = Some (Z.of_nat (length (print_request r)))).
  { unfold add_usize. rewrite (proj2 (Z.leb_le _ _)); [by rewrite Hl, Nat2Z.inj_add|].
    unfold MAX_REQUEST_LEN, u64_max in *. lia. }
  rewrite !Hsum. simpl. destruct (length p <? length (print_request r)) eqn:Hs.
  { apply Nat.ltb_lt in Hs. by rewrite (proj2 (Z.ltb_lt _ _)) by lia. }
  apply Nat.ltb_ge in Hs. rewrite (proj2 (Z.ltb_ge _ _)) by lia.
  assert (q = []) as ->. { destruct q; [done|]. rewrite E, length_app in Hs. simpl in Hs. lia. }
  rewrite app_nil_r in E. subst p. unfold slice.
  rewrite (proj2 (Z.leb_le _ _)), (proj2 (Z.leb_le _ _)) by lia. cbn [andb option_bind].
  rewrite Nat2Z.id. replace (Z.to_nat _) with (length (rq_body r)) by lia.
  replace (drop body_start (print_request r)) with (rq_body r); [by rewrite firstn_all; destruct r|].
  unfold body_start, print_request. by rewrite app_assoc, app_assoc, drop_app_length' by (rewrite !length_app; simpl; lia).
Qed.

Lemma read_request_print checks chunks : forall buf more q,
  print_request r = buf ++ concat chunks ++ q -> Forall (fun c => c <> []) chunks ->
  length buf < length (print_request r) -> (q = [] \/ more = []) ->
  read_request checks buf (map Chunk chunks ++ more) = match q with [] => Received r | _ => Waiting end.
Proof.
  induction chunks as [|c chunks IH]; intros buf more q E Hne Hlt Hq.
  - simpl in *. assert (q <> []) as Hq'. { intros ->. rewrite app_nil_r in E. subst. lia. }
    destruct Hq as [?| ->]; [done|]. simpl. rewrite (parse_request_print checks buf q E), (proj2 (Nat.ltb_lt _ _)) by done.
    by destruct q.
  - apply Forall_cons in Hne as [Hc Hne]. simpl in E. rewrite <- app_assoc in E. cbn [map app read_request].
    rewrite (parse_request_print checks buf _ E), (proj2 (Nat.ltb_lt _ _)) by done.
    destruct c as [|b c]; [done|]. destruct (decide (length (buf ++ b :: c) < length (print_request r))) as [Hs|Hs].
    { apply IH; [by rewrite <- app_assoc|done..]. }
    assert (concat chunks ++ q = []) as En.
    { destruct (concat chunks ++ q) as [|x k]; [done|]. exfalso. apply Hs. rewrite E, !length_app. simpl. lia. }
    apply app_nil in En as [En ->]. rewrite En, !app_nil_r in E.
    destruct (map Chunk chunks ++ more) as [|x reads].
    all: cbn [read_request]; rewrite (parse_request_print checks (buf ++ b :: c) []) by (by rewrite app_nil_r).
    all: by rewrite (proj2 (Nat.ltb_ge _ _)) by lia.
Qed.

Lemma read_head_print checks chunks : is_upload head_of = false -> forall buf more q,
  print_request r = buf ++ concat chunks ++ q -> Forall (fun c => c <> []) chunks ->
  length buf < length (print_request r) -> (q = [] \/ more = []) ->
  read_head checks buf (map Chunk chunks ++ more) = match q with [] => Received r | _ => Waiting end.
Proof.
  intros Hup. induction chunks as [|c chunks IH]; intros buf more q E Hne Hlt Hq.
  all: destruct (decide (length buf < body_start)) as [Hb|Hb].
  2,4: rewrite <- (read_request_print checks _ buf more q E Hne Hlt Hq); destruct (map Chunk _ ++ more);
    cbn [read_head]; by rewrite (parse_head_print buf _ E), (proj2 (Nat.ltb_ge _ _)), Hup by lia.
  - simpl in *. assert (q <> []) as Hq'. { intros ->. rewrite app_nil_r in E. subst. lia. }
    destruct Hq as [?| ->]; [done|]. simpl. rewrite (parse_head_print buf q E), (proj2 (Nat.ltb_lt _ _)) by done.
    by destruct q.
  - apply Forall_cons in Hne as [Hc Hne]. simpl in E. rewrite <- app_assoc in E. cbn [map app read_head].
    rewrite (parse_head_print buf _ E), (proj2 (Nat.ltb_lt _ _)) by done.
    destruct c as [|b c]; [done|]. destruct (decide (length (buf ++ b :: c) < length (print_request r))) as [Hs|Hs].
    { apply IH; [by rewrite <- app_assoc|done..]. }
    assert (concat chunks ++ q = []) as En.
    { destruct (concat chunks ++ q) as [|x k]; [done|]. exfalso. apply Hs. rewrite E, !length_app. simpl. lia. }
    apply app_nil in En as [En ->]. rewrite En, !app_nil_r in E.
    assert (Hfull : forall reads, read_request checks (buf ++ b :: c) reads = Received r).
    { intros [|x reads]; cbn [read_request]; rewrite (parse_request_print checks (buf ++ b :: c) []) by (by rewrite app_nil_r).
      all: by rewrite (proj2 (Nat.ltb_ge _ _)) by lia. }
    pose proof length_print. rewrite <- (Hfull (map Chunk chunks ++ more)). destruct (map Chunk chunks ++ more).
    all: cbn [read_head]; rewrite (parse_head_print (buf ++ b :: c) []) by (by rewrite app_nil_r).
    all: by rewrite (proj2 (Nat.ltb_ge _ _)), Hup by lia.
Qed.
End Printed.

(** C31. A request that fits arrives whole, whatever parts the network delivers it in:
    with its last byte the server has exactly the request that was written, whatever
    comes later, and before that it goes on waiting.  (Uploads, whose body is read
    elsewhere, apart.) *)
Theorem request_received checks r chunks q :
  wf_request r -> is_upload (head_of r) = false -> Forall (fun c => c <> []) chunks ->
  print_request r = concat chunks ++ q ->
  (q = [] -> forall more, receive checks (map Chunk chunks ++ more) = Received r) /\
  (q <> [] -> receive checks (map Chunk chunks) = Waiting).
Proof.
  intros Hr Hup Hne E. unfold receive.
  assert (H0 : length (@nil byte) < length (print_request r)) by (rewrite (length_print r); unfold body_start; simpl; lia).
  split.
  - intros -> more. by apply (read_head_print r Hr checks chunks Hup [] more []); [..|left].
  - intros Hq. rewrite <- (app_nil_r (map Chunk chunks)).
    rewrite (read_head_print r Hr checks chunks Hup [] [] q); [by destruct q|done..|by right].
Qed.

Definition example_request : Request :=
  mk_request (lit "POST") (lit "/api/auth") [(lit "host", lit "h:1"); (lit "content-length", lit "2")] (lit "ab").

Lemma example_request_wf : wf_request example_request.
Proof.
  assert (Hc : forall t : text, forallb (fun c => (0 <=? c) && (c <? 128))%Z t = true -> Forall is_char t).
  { intros t Ht. apply Forall_forall. intros c Hin. rewrite forallb_forall in Ht.
    specialize (Ht c (proj1 (list_elem_of_In _ _) Hin)). unfold is_char. lia. }
  split; try (split_and!; [by apply Hc|by apply (bool_decide_unpack _)..]).
  - repeat constructor; simpl; try (by apply Hc); by apply (bool_decide_unpack _).
  - by vm_compute.
  - apply Nat.leb_le. by vm_compute.
  - apply Nat.leb_le. by vm_compute.
Qed.

Lemma request_received_witness :
  receive true [Chunk (lit "POST /api/au"); Chunk (drop 12 (print_request example_request)); ReadError] = Received example_request.
Proof.
  apply (request_received true example_request [lit "POST /api/au"; drop 12 (print_request example_request)] []
           example_request_wf eq_refl); [repeat constructor; discriminate|vm_compute; reflexivity|reflexivity].
Defined.

Lemma parse_head_start buf h : parse_head buf = Ok (Some h) -> hd_body_start h <= length buf.
Proof.
  unfold parse_head. destruct (head_end buf) as [e|] eqn:He; [|by case_match]. case_match; [done|].
  apply (head_end_app _ []) in He as [_ He]. case_match; [|done].
  intros (? & _ & (? & _ & [= <-])%rbind_ok)%rbind_ok. exact He.
Qed.

(** A request may name a body that, after its head, would end beyond the address
    space: the sum of the two overflows, and the thread that serves the connection
    panics, with overflow checks and, in a release build, without them.  No token is
    needed; any other length is refused, waited for or served. *)
Theorem content_length_panics checks buf h len :
  length buf <= MAX_REQUEST_LEN -> parse_head buf = Ok (Some h) -> content_length (hd_headers h) = Some len ->
  (0 <= len <= u64_max)%Z ->
  parse_request checks buf = None <-> (u64_max < Z.of_nat (hd_body_start h) + len)%Z.
Proof.
  intros Hbuf Hh Hlen Hmax. apply parse_head_start in Hh as Hstart.
  unfold parse_request. rewrite (proj2 (Nat.ltb_ge _ _)), Hh, Hlen by done. unfold add_usize.
  destruct (Z.leb_spec (Z.of_nat (hd_body_start h) + len) u64_max) as [Hle|Hgt]; simpl.
  - split; [|lia]. destruct (Z.ltb_spec (Z.of_nat (length buf)) (Z.of_nat (hd_body_start h) + len)); [done|].
    unfold slice. by rewrite (proj2 (Z.leb_le _ _)), (proj2 (Z.leb_le _ _)) by lia.
  - split; [done|]. intros _. destruct checks; [done|]. simpl. unfold u64_max in *.
    rewrite (proj2 (Z.ltb_ge _ _)) by lia. unfold slice. by rewrite (proj2 (Z.leb_gt _ _)) by lia.
Qed.

Definition hostile_request : list byte :=
  lit "POST /api/auth HTTP/1.1" ++ CRLF ++ lit "content-length: 18446744073709551615" ++ CRLF ++ CRLF.

Lemma content_length_panics_witness : parse_request false hostile_request = None.
Proof.
  apply (content_length_panics false hostile_request
           (mk_head (lit "POST") (lit "/api/auth") [(lit "content-length", lit "18446744073709551615")] 65) u64_max);
    [apply Nat.leb_le; vm_compute; reflexivity|vm_compute; reflexivity..|unfold u64_max; simpl; lia|vm_compute; reflexivity].
Defined.

(** The tests of the source. *)
Example parse_request_waits : parse_request true (lit "POST /api/auth HTTP/1.1" ++ CRLF ++ lit "Content-Length: 5" ++ CRLF ++ CRLF ++ lit "ab") = Some (Ok None).
Proof. vm_compute. reflexivity. Qed.
Example parse_request_garbage : parse_request true (lit "GARBAGE" ++ CRLF ++ CRLF) = Some (Err (MalformedRequestLine (lit "GARBAGE"))).
Proof. vm_compute. reflexivity. Qed.
Example ts_net_hosts :
  map (fun s => ts_net_host (Some (lit s))) ["pc.tail1.ts.net"; "pc.tail1.ts.net:443"; "PC.Tail1.TS.NET."; ".ts.net"; "evil.com"; "a/b.ts.net"]
  = [true; true; true; false; false; false].
Proof. vm_compute. reflexivity. Qed.
Example cookies : cookie_value (lit "x=1; amber_web=abc ;y=2") (lit "amber_web") = Some (lit "abc").
Proof. vm_compute. reflexivity. Qed.
