(* ===== verification/Web.v ===== *)
(** * What a browser may reach

    The server of [crates/amber/src/web.rs] behind [Http]: the token and the sessions
    it is exchanged for ([Auth]), the identity Tailscale's proxy vouches for, and the
    routes of [handle_conn] with the calls of [router_ops.rs] behind them.  What the
    daemon link, the layout file, the router and the file system answer is a record
    of answers; what a request does there is a list of [Action]s.  [step] interleaves
    the connections' threads. *)
From S2P Require Import Prelude Utf8 Search Http.

(** ** Secrets *)

Definition ct_eq (a b : list byte) : bool :=
  if negb (length a =? length b) then false
  else (foldl (fun diff xy => Z.lor diff (Z.lxor xy.1 xy.2)) 0 (zip a b) =? 0)%Z.

Definition ALPHABET : list byte := lit "ABCDEFGHIJKLMNOPQRSTUVWXYZabcdefghijklmnopqrstuvwxyz0123456789-_".

Definition encode_chunk (chunk : list byte) : list byte :=
  let at_ i := default 0%Z (chunk !! i) in
  let n := Z.lor (Z.lor (Z.shiftl (at_ 0) 16) (Z.shiftl (at_ 1) 8)) (at_ 2) in
  let idx := map (fun s => Z.land (Z.shiftr n s) 63) [18; 12; 6; 0]%Z in
  map (fun j => default 0%Z (ALPHABET !! Z.to_nat j)) (take (length chunk + 1) idx).

(** [bytes.chunks(3)]: three bytes a turn, the length is fuel enough. *)
Fixpoint base64url_chunks (fuel : nat) (bytes : list byte) : list byte :=
  match fuel, bytes with
  | S fuel', _ :: _ => encode_chunk (take 3 bytes) ++ base64url_chunks fuel' (drop 3 bytes)
  | _, _ => []
  end.
Definition base64url (bytes : list byte) : list byte := base64url_chunks (length bytes) bytes.

(** [random_token], of what the system's random source answers. *)
Definition random_token (random : option (list byte)) : option text := base64url <$> random.

(** ** Sessions and failures *)

Inductive IpAddr := V4 (a : Z) | V6 (a : Z).

#[export] Instance IpAddr_eq_dec : EqDecision IpAddr.
Proof. solve_decision. Defined.
#[export] Instance IpAddr_countable : Countable IpAddr.
Proof.
  refine (inj_countable' (fun ip => match ip with V4 a => inl a | V6 a => inr a end)
            (fun s => match s with inl a => V4 a | inr a => V6 a end) _).
  by intros [].
Defined.

Definition is_loopback (ip : IpAddr) : bool :=
  match ip with V4 a => (a / 2 ^ 24 =? 127)%Z | V6 a => (a =? 1)%Z end.

Definition COOKIE_NAME : text := lit "amber_web".
Definition AUTH_MAX_FAILS : Z := 8.
Definition AUTH_WINDOW : Z := 60 * 10 ^ 9.

Record Auth := mk_auth {
  au_token : text;
  au_sessions : list text;
  au_fails : gmap IpAddr (Z * Z) }.

Definition new_auth (token : text) : Auth := mk_auth token [] ∅.

(** Instants are nanoseconds of a monotonic clock. *)
Definition elapsed (since now : Z) : Z := Z.max 0 (now - since).

Definition throttled (auth : Auth) (now : Z) (ip : IpAddr) : bool * Auth :=
  match au_fails auth !! ip with
  | Some (n, at_) =>
      if (AUTH_MAX_FAILS <=? n)%Z then
        if (elapsed at_ now <? AUTH_WINDOW)%Z then (true, auth)
        else (false, mk_auth (au_token auth) (au_sessions auth) (delete ip (au_fails auth)))
      else (false, auth)
  | None => (false, auth)
  end.

Definition presented (body : list byte) : text := trim (default [] (chars_of body)).

Definition count_failure (auth : Auth) (now : Z) (ip : IpAddr) : Auth :=
  let '(n, at_) := default (0, now)%Z (au_fails auth !! ip) in
  let '(n, at_) := if (AUTH_WINDOW <=? elapsed at_ now)%Z then (0, now)%Z else (n, at_) in
  mk_auth (au_token auth) (au_sessions auth) (<[ip := (wrap32 (n + 1), at_)]> (au_fails auth)).

Definition authenticate (auth : Auth) (now : Z) (random : option (list byte)) (ip : IpAddr) (body : list byte)
  : option text * Auth :=
  if ct_eq (as_bytes (presented body)) (as_bytes (au_token auth)) then
    match random_token random with
    | None => (None, auth)
    | Some id => (Some id, mk_auth (au_token auth) (au_sessions auth ++ [id]) (delete ip (au_fails auth)))
    end
  else (None, count_failure auth now ip).

Definition valid_cookie (auth : Auth) (req : Request) : bool :=
  match h ← header req "cookie"; cookie_value h COOKIE_NAME with
  | None => false
  | Some value => foldl (fun ok s => ct_eq (as_bytes s) (as_bytes value) || ok) false (au_sessions auth)
  end.

Definition serve_identity_ok (peer : IpAddr) (req : Request) : bool :=
  if negb (is_loopback peer) then false
  else match trim (default [] (header req "tailscale-user-login")) with
  | [] => false
  | _ =>
      if bool_decide (header req "x-forwarded-proto" <> Some (lit "https")) then false
      else ts_net_host (match header req "x-forwarded-host" with Some h => Some h | None => header req "host" end)
  end.

Definition authorized (auth : Auth) (peer : IpAddr) (req : Request) : bool :=
  valid_cookie auth req || serve_identity_ok peer req.

(** ** What a request does *)

Inductive Action :=
| A_Sessions | A_GetUsage | A_RefreshUsage | A_Usage | A_Status (port : Z)
| A_Home | A_LoadLayout | A_SaveLayout (t : text) (version : option text)
| A_RouterStatus | A_RouterRequest (method : string) (path : text) (body : option text)
| A_InstallPi | A_RouterAction (action : text) | A_RouterLog
| A_ImageTarget (name : text) | A_SweepImages | A_WriteImage (ext : string) (bytes : list byte) | A_RemoveImage
| A_OpenSocket (key : text)
| A_Asset (path : text).

Inductive Field := F_Bool (b : bool) | F_Text (t : option text).
Inductive Body := B_Json (fields : list (string * Field)) | B_Bytes (bytes : list byte) | B_Embedded (path : text).

Record Reply := mk_reply {
  rp_status : string; rp_type : string; rp_extra : list text; rp_body : Body }.

Definition respond (status : string) : Reply := mk_reply status "" [] (B_Bytes []).
Definition CT_JSON : string := "application/json".
Definition json (status : string) (fields : list (string * Field)) : Reply := mk_reply status CT_JSON [] (B_Json fields).
Definition ok_body (ctype : string) (body : list byte) : Reply := mk_reply "200 OK" ctype [] (B_Bytes body).

Record OpsError := mk_ops_error { oe_status : Z; oe_message : text }.

(** [layout_cas::SaveResult] *)
Inductive SaveResult :=
| Save_Ok (version : text)
| Save_Conflict (t version : option text)
| Save_Error (e : text).

(** What the rest of the system answers while a request is served. *)
Record Answers := mk_answers {
  an_sessions : list byte;
  an_usage : list byte;
  an_status : list byte;
  an_home : option text;
  an_layout : option text * option text;
  an_save : SaveResult;
  an_router_status : list byte;
  an_router_token : option text;
  an_router : result (Z * text) OpsError;
  an_pi_configured : bool;
  an_action : result unit OpsError;
  an_log : list byte;
  an_targets : list (text * bool);
  an_images : nat;
  an_write : result (option text) text;
  an_read : text -> option (list byte) }.

(** [an_router] is [router_request]'s answer, [an_write] that of writing an image: its
    path, if that is text, or the error. *)

Definition digit_reply : list (Z * string) :=
  [(400, "400 Bad Request"); (404, "404 Not Found"); (501, "501 Not Implemented");
   (502, "502 Bad Gateway"); (503, "503 Service Unavailable")]%Z.

Definition router_err (err : OpsError) : Reply :=
  let status :=
    match find_first (fun e => (e.1 =? oe_status err)%Z) digit_reply with
    | Some (_, s) => s
    | None => if (500 <=? oe_status err)%Z then "500 Internal Server Error" else "400 Bad Request"
    end in
  json status [("ok", F_Bool false); ("error", F_Text (Some (oe_message err)))].

Definition ACTIONS : list text :=
  map lit ["start"; "stop"; "restart"; "enable"; "disable"; "rotate-token"; "install-pi-provider"].

Definition valid_slot_name (name : text) : bool :=
  negb (bool_decide (name = [])) && (length (as_bytes name) <=? 64)
  && forallb (fun c => is_ascii_alphanumeric c || (c =? 45) || (c =? 95))%Z name.

Definition asset (path : text) : option string :=
  snd <$> find_first (fun e => bool_decide (lit e.1 = path))
    [("/", "text/html; charset=utf-8"); ("/index.html", "text/html; charset=utf-8");
     ("/app.js", "text/javascript; charset=utf-8"); ("/style.css", "text/css; charset=utf-8");
     ("/xterm.js", "text/javascript; charset=utf-8");
     ("/xterm-unicode-graphemes.js", "text/javascript; charset=utf-8");
     ("/xterm.css", "text/css; charset=utf-8")].

Fixpoint drop_slashes (t : text) : text :=
  match t with 47%Z :: t' => drop_slashes t' | _ => t end.

Definition CLIPBOARD_IMAGE_MAX_FILES : nat := 128.
Definition MAX_CLIPBOARD_IMAGE_BYTES : Z := 16 * 1024 * 1024.

Section Routes.
Context {Value : Type} (from_slice : list byte -> option Value)
        (get : Value -> string -> option Value) (as_str : Value -> option text) (json_error : list byte -> text).

Definition get_str (v : Value) (key : string) : option text := v' ← get v key; as_str v'.

(** ** [router_ops.rs] *)

Definition extract_error (body : text) : option text :=
  v ← from_slice (as_bytes body); e ← get v "error"; m ← get e "message"; as_str m.

Definition router_token (an : Answers) : result text OpsError :=
  match an_router_token an with
  | Some t => Ok t
  | None => Err (mk_ops_error 503 (chars "no router token yet — start the router once (`amber ctl router start`)"))
  end.

(** A request to the router, and its body when the status is 200. *)
Definition router_call (an : Answers) (method : string) (path : text) (body : option text)
  : list Action * result text OpsError :=
  match router_token an with
  | Err e => ([], Err e)
  | Ok _ =>
      ([A_RouterRequest method path body],
       match an_router an with
       | Err e => Err e
       | Ok (status, resp) =>
           if (status =? 200)%Z then Ok resp else Err (mk_ops_error status (default resp (extract_error resp)))
       end)
  end.

Definition slots_json (an : Answers) : list Action * result text OpsError :=
  router_call an "GET" (lit "/admin/slots") None.

Definition set_slots (an : Answers) (body : text) : list Action * result text OpsError :=
  match from_slice (as_bytes body) with
  | None => ([], Err (mk_ops_error 400 (lit "stdin is not valid JSON: " ++ json_error (as_bytes body))))
  | Some _ =>
      let '(actions, r) := router_call an "PUT" (lit "/admin/slots") (Some body) in
      match r with
      | Err e => (actions, Err e)
      | Ok resp => (actions ++ (if an_pi_configured an then [A_InstallPi] else []), Ok resp)
      end
  end.

Definition reveal_key (an : Answers) (name : text) : list Action * result text OpsError :=
  if negb (valid_slot_name name) then ([], Err (mk_ops_error 400 (lit "invalid slot name")))
  else
    let '(actions, r) := router_call an "GET" (lit "/admin/slots/" ++ name ++ lit "/key") None in
    (actions, body <-? r; Ok (default [] (v ← from_slice (as_bytes body); get_str v "api_key"))).

Definition run_action (an : Answers) (action : text) : list Action * result unit OpsError :=
  if bool_decide (action ∈ ACTIONS) then ([A_RouterAction action], an_action an)
  else ([], Err (mk_ops_error 400 (lit "unknown action " ++ action))).

(** ** Files of the web bundle *)

Definition web_asset (an : Answers) (rel : text) : list Action * option (list byte * string) :=
  if contains rel (lit "..") then ([], None)
  else
    let rel := drop_slashes rel in
    let ctype := if ends_with rel (lit ".js") then "text/javascript; charset=utf-8"
                 else if ends_with rel (lit ".css") then "text/css; charset=utf-8"
                 else "text/html; charset=utf-8" in
    ([A_Asset rel], (fun b => (b, ctype)) <$> an_read an rel).

Definition asset_reply (ctype : option string) (missing : string) (a : list Action * option (list byte * string))
  : list Action * Reply :=
  (a.1, match a.2 with
        | Some (body, c) => ok_body (default c ctype) body
        | None => mk_reply "404 Not Found" "" [] (B_Bytes (lit missing))
        end).

Definition text_reply (r : result text OpsError) : Reply :=
  match r with Ok body => ok_body CT_JSON (as_bytes body) | Err e => router_err e end.

(** ** The routes *)

(** [handle_clipboard_image]'s reading of the body; [None] is a failed read. *)
Fixpoint read_upload (len : Z) (body : list byte) (reads : list Read) : option (option (list byte)) :=
  if (Z.of_nat (length body) <? len)%Z then
    match reads with
    | [] | ReadError :: _ => None
    | Chunk [] :: _ => Some None
    | Chunk l :: reads' => read_upload len (body ++ take (Z.to_nat len - length body) l) reads'
    end
  else Some (Some body).

Definition err (status : string) (msg : text) : Reply :=
  json status [("ok", F_Bool false); ("error", F_Text (Some msg))].

Definition store_image (an : Answers) (body : list byte) : list Action * Reply :=
  match image_ext_for_magic body with
  | None => ([], err "400 Bad Request" (lit "unsupported image type; use PNG, JPEG, GIF or WebP"))
  | Some ext =>
      if CLIPBOARD_IMAGE_MAX_FILES <=? an_images an then
        ([A_SweepImages], err "429 Too Many Requests" (lit "too many pending clipboard images; try again later"))
      else match an_write an with
      | Err e => ([A_SweepImages; A_WriteImage ext body],
                  err "500 Internal Server Error" (lit "could not store the image: " ++ e))
      | Ok None => ([A_SweepImages; A_WriteImage ext body; A_RemoveImage],
                    err "500 Internal Server Error" (lit "could not store the image"))
      | Ok (Some path) => ([A_SweepImages; A_WriteImage ext body],
                           json "200 OK" [("ok", F_Bool true); ("path", F_Text (Some path))])
      end
  end.

Definition image_paste_target (an : Answers) (name : text) : bool :=
  if bool_decide (name = []) then false
  else existsb (fun s => bool_decide (s.1 = name) && s.2) (an_targets an).

Definition declared_length (req : Request) : option Z :=
  v ← header req "content-length"; n ← parse_uint u64_max v; if (1 <=? n)%Z then Some n else None.

(** The reply is [None] when the connection fails first. *)
Definition handle_clipboard_image (an : Answers) (auth : Auth) (peer : IpAddr) (h : Head) (prefix : list byte)
    (reads : list Read) : list Action * option Reply :=
  let probe := mk_request (hd_method h) (hd_path h) (hd_headers h) [] in
  if negb (authorized auth peer probe) then ([], Some (respond "401 Unauthorized"))
  else if negb (origin_ok (header probe "origin") (header probe "host") (header probe "x-forwarded-host"))
  then ([], Some (respond "403 Forbidden"))
  else
    let name := default [] (query_param (query_of (rq_path probe)) (lit "name")) in
    if negb (image_paste_target an name)
    then ([A_ImageTarget name], Some (err "404 Not Found" (lit "no such image-paste session")))
    else match declared_length probe with
    | None => ([A_ImageTarget name], Some (err "400 Bad Request" (lit "missing or invalid Content-Length")))
    | Some len =>
        if (MAX_CLIPBOARD_IMAGE_BYTES <? len)%Z
        then ([A_ImageTarget name], Some (err "413 Payload Too Large" (lit "image exceeds the 16 MiB limit")))
        else match read_upload len (take (Z.to_nat len) prefix) reads with
        | None => ([A_ImageTarget name], None)
        | Some None =>
            ([A_ImageTarget name], Some (err "400 Bad Request" (lit "connection closed before the image arrived")))
        | Some (Some body) =>
            let '(actions, reply) := store_image an body in (A_ImageTarget name :: actions, Some reply)
        end
    end.

Definition save_layout (an : Answers) (body : list byte) : list Action * Reply :=
  match from_slice body with
  | None => ([], respond "400 Bad Request")
  | Some v =>
      match get_str v "text" with
      | None => ([], respond "400 Bad Request")
      | Some t =>
          ([A_SaveLayout t (get_str v "version")],
           match an_save an with
           | Save_Ok version => json "200 OK" [("ok", F_Bool true); ("version", F_Text (Some version))]
           | Save_Conflict t version =>
               json "409 Conflict" [("conflict", F_Bool true); ("text", F_Text t); ("version", F_Text version)]
           | Save_Error e => json "500 Internal Server Error" [("error", F_Text (Some e))]
           end)
      end
  end.

(** Arms behind [authorized]; [None] when the method and path are none of theirs. *)
Definition private_route (an : Answers) (port : Z) (req : Request) : option (list Action * Reply) :=
  let is_ m p := bool_decide (rq_method req = lit m) && bool_decide (path_of (rq_path req) = lit p) in
  let same_origin := origin_ok (header req "origin") (header req "host") (header req "x-forwarded-host") in
  if is_ "GET" "/api/sessions" then Some ([A_Sessions], ok_body CT_JSON (an_sessions an))
  else if is_ "GET" "/api/usage" || is_ "POST" "/api/usage" then
    Some (if negb same_origin then ([], respond "403 Forbidden")
          else ([if bool_decide (rq_method req = lit "POST") then A_RefreshUsage else A_GetUsage; A_Usage],
                ok_body CT_JSON (an_usage an)))
  else if is_ "GET" "/api/status" then Some ([A_Status port], ok_body CT_JSON (an_status an))
  else if is_ "GET" "/api/bootstrap" then
    let home := match an_home an with Some (c :: t) => c :: t | _ => lit "/" end in
    Some ([A_Home], json "200 OK" [("home", F_Text (Some home))])
  else if is_ "GET" "/api/layout" then
    Some ([A_LoadLayout], json "200 OK" [("text", F_Text (an_layout an).1); ("version", F_Text (an_layout an).2)])
  else if is_ "POST" "/api/layout" then Some (save_layout an (rq_body req))
  else if is_ "GET" "/api/router/status" then Some ([A_RouterStatus], ok_body CT_JSON (an_router_status an))
  else if is_ "GET" "/api/router/slots" then let '(a, r) := slots_json an in Some (a, text_reply r)
  else if is_ "PUT" "/api/router/slots" then
    let '(a, r) := set_slots an (default [] (chars_of (rq_body req))) in Some (a, text_reply r)
  else if is_ "GET" "/api/router/key" then
    let '(a, r) := reveal_key an (default [] (query_param (query_of (rq_path req)) (lit "name"))) in
    Some (a, match r with Ok key => json "200 OK" [("api_key", F_Text (Some key))] | Err e => router_err e end)
  else if is_ "GET" "/api/router/log" then Some ([A_RouterLog], ok_body "text/plain; charset=utf-8" (an_log an))
  else if is_ "POST" "/api/router/action" then
    let '(a, r) := run_action an (default [] (v ← from_slice (rq_body req); get_str v "action")) in
    Some (a, match r with Ok tt => json "200 OK" [("ok", F_Bool true)] | Err e => router_err e end)
  else if is_ "GET" "/ws" then
    Some (if negb same_origin then ([], respond "403 Forbidden")
          else match header req "sec-websocket-key" with
          | None => ([], respond "400 Bad Request")
          | Some key => ([A_OpenSocket key], respond "101 Switching Protocols")
          end)
  else None.

(** The arms after them, open to anyone. *)
Definition public_route (an : Answers) (req : Request) : list Action * Reply :=
  let path := path_of (rq_path req) in
  if negb (bool_decide (rq_method req = lit "GET")) then ([], respond "405 Method Not Allowed")
  else if bool_decide (path = lit "/app") || bool_decide (path = lit "/app/") then
    asset_reply None "web bundle not built - run `npm run build:web` in app/" (web_asset an (lit "index.html"))
  else if starts_with path (lit "/assets/") then asset_reply None "" (web_asset an path)
  else if bool_decide (path = lit "/manifest.webmanifest") then
    asset_reply (Some "application/manifest+json") "" (web_asset an (lit "manifest.webmanifest"))
  else if bool_decide (path = lit "/icon.png") then asset_reply (Some "image/png") "" (web_asset an (lit "icon.png"))
  else match asset path with
  | Some ctype => ([], mk_reply "200 OK" ctype [] (B_Embedded path))
  | None => ([], respond "404 Not Found")
  end.

(** The [match] of [handle_conn], its first arm apart. *)
Definition route (an : Answers) (port : Z) (auth : Auth) (peer : IpAddr) (req : Request) : list Action * Reply :=
  match private_route an port req with
  | Some answer => if negb (authorized auth peer req) then ([], respond "401 Unauthorized") else answer
  | None => public_route an req
  end.

Definition is_auth_route (req : Request) : bool :=
  bool_decide (rq_method req = lit "POST") && bool_decide (path_of (rq_path req) = lit "/api/auth").

(** What the arm for [/api/auth] answers after [authenticate]. *)
Definition auth_reply (req : Request) (id : option text) : Reply :=
  match id with
  | Some id =>
      let secure := bool_decide (header req "x-forwarded-proto" = Some (lit "https")) in
      mk_reply "204 No Content" ""
        [lit "Set-Cookie: " ++ COOKIE_NAME ++ lit "=" ++ id ++ lit "; HttpOnly; SameSite=Strict; Path=/"
         ++ (if secure then lit "; Secure" else [])] (B_Bytes [])
  | None => respond "401 Unauthorized"
  end.
End Routes.

(** ** Connections

    Each connection has a thread.  Between [throttled] and [authenticate], which take
    the locks of [Auth] one at a time, others run; a session once minted stays, so
    that an authorization that held when it was looked up still holds when its arm
    acts. *)

Inductive Conn :=
| Reading (peer : IpAddr)
| Guessing (peer : IpAddr) (req : Request)
| Ended (reply : option Reply).

(** What happened, for the record. *)
Inductive Event :=
| Minted (ip : IpAddr) (body : list byte) (id : text)
| Failed (ip : IpAddr)
| Did (peer : IpAddr) (req : Request) (actions : list Action).

Record State := mk_state {
  st_now : Z; st_auth : Auth; st_conns : gmap nat Conn; st_log : list Event }.

Definition initial (token : text) (now : Z) : State := mk_state now (new_auth token) ∅ [].

(** What the thread of [peer] does with a request: its first look. *)
Definition after_check (s : State) (peer : IpAddr) (req : Request) : Conn * Auth :=
  let '(stop, auth) := throttled (st_auth s) (st_now s) peer in
  (if stop then Ended (Some (respond "429 Too Many Requests")) else Guessing peer req, auth).

Definition guess_events (ip : IpAddr) (body : list byte) (token : text) (id : option text) : list Event :=
  match id with
  | Some id => [Minted ip body id]
  | None => if ct_eq (as_bytes (presented body)) (as_bytes token) then [] else [Failed ip]
  end.

Section Server.
Context {Value : Type} (from_slice : list byte -> option Value)
        (get : Value -> string -> option Value) (as_str : Value -> option text) (json_error : list byte -> text)
        (checks : bool) (port : Z).

Inductive step : State -> State -> Prop :=
| step_time s now' :
    (st_now s <= now')%Z -> step s (mk_state now' (st_auth s) (st_conns s) (st_log s))
| step_accept s c peer :
    st_conns s !! c = None ->
    step s (mk_state (st_now s) (st_auth s) (<[c := Reading peer]> (st_conns s)) (st_log s))
| step_lost s c peer :
    st_conns s !! c = Some (Reading peer) ->
    step s (mk_state (st_now s) (st_auth s) (<[c := Ended None]> (st_conns s)) (st_log s))
| step_upload s c peer reads h pre rest an actions reply :
    st_conns s !! c = Some (Reading peer) -> receive checks reads = Upload h pre rest ->
    handle_clipboard_image an (st_auth s) peer h pre rest = (actions, reply) ->
    step s (mk_state (st_now s) (st_auth s) (<[c := Ended reply]> (st_conns s))
              (Did peer (mk_request (hd_method h) (hd_path h) (hd_headers h) []) actions :: st_log s))
| step_check s c peer reads req conn auth :
    st_conns s !! c = Some (Reading peer) -> receive checks reads = Received req -> is_auth_route req = true ->
    after_check s peer req = (conn, auth) ->
    step s (mk_state (st_now s) auth (<[c := conn]> (st_conns s)) (st_log s))
| step_guess s c peer req random id auth :
    st_conns s !! c = Some (Guessing peer req) ->
    authenticate (st_auth s) (st_now s) random peer (rq_body req) = (id, auth) ->
    step s (mk_state (st_now s) auth (<[c := Ended (Some (auth_reply req id))]> (st_conns s))
              (guess_events peer (rq_body req) (au_token (st_auth s)) id ++ st_log s))
| step_route s c peer reads req an actions reply :
    st_conns s !! c = Some (Reading peer) -> receive checks reads = Received req -> is_auth_route req = false ->
    route from_slice get as_str json_error an port (st_auth s) peer req = (actions, reply) ->
    step s (mk_state (st_now s) (st_auth s) (<[c := Ended (Some reply)]> (st_conns s))
              (Did peer req actions :: st_log s)).

(** Runs whose states all satisfy [P]. *)
Inductive run (P : State -> Prop) : State -> State -> Prop :=
| run_nil s : P s -> run P s s
| run_snoc s s' s'' : run P s s' -> step s' s'' -> P s'' -> run P s s''.

(** ** Facts *)

Lemma fold_lor_zero l d : foldl (fun diff xy => Z.lor diff (Z.lxor xy.1 xy.2)) d l = 0%Z <->
  d = 0%Z /\ Forall (fun xy : Z * Z => xy.1 = xy.2) l.
Proof.
  revert d. induction l as [|[x y] l IH]; intros d; simpl.
  - split; [intros ->; by split|by intros [-> _]].
  - rewrite IH, Z.lor_eq_0_iff, Z.lxor_eq_0_iff, Forall_cons. simpl. tauto.
Qed.

Lemma ct_eq_spec a b : ct_eq a b = true <-> a = b.
Proof.
  unfold ct_eq. destruct (Nat.eqb_spec (length a) (length b)) as [Hl|Hl]; simpl.
  - rewrite Z.eqb_eq, fold_lor_zero. split; [intros [_ H]|intros ->; split; [done|]].
    + revert b Hl H. induction a as [|x a IH]; intros [|y b] Hl H; simpl in *; try done.
      apply Forall_cons in H as [Hxy H]. simpl in Hxy. rewrite Hxy. f_equal. apply IH; [lia|done].
    + clear. induction b; simpl; constructor; done.
  - split; [done|]. by intros ->.
Qed.

Definition cookie_of (req : Request) : option text := h ← header req "cookie"; cookie_value h COOKIE_NAME.

Lemma valid_cookie_spec auth req :
  valid_cookie auth req = true <->
  exists value id, cookie_of req = Some value /\ id ∈ au_sessions auth /\ as_bytes id = as_bytes value.
Proof.
  unfold valid_cookie, cookie_of. destruct (_ ≫= _) as [value|]; [|split; [done|by intros (? & ? & ? & _)]].
  assert (Hf : forall l ok, foldl (fun ok s => ct_eq (as_bytes s) (as_bytes value) || ok) ok l = true <->
                 ok = true \/ exists id, id ∈ l /\ as_bytes id = as_bytes value).
  { induction l as [|s l IH]; intros ok; simpl.
    - split; [by left|]. intros [?|(? & ?%elem_of_nil & _)]; done.
    - rewrite IH, orb_true_iff, ct_eq_spec. split.
      + intros [[H|H]|(id & Hin & H)]; [right; exists s|by left|right; exists id]; split; try done; by constructor.
      + intros [H|(id & [->|Hin]%elem_of_cons & H)]; [by left; right|by left; left|right; by exists id]. }
  rewrite Hf. split.
  - intros [?|(id & ? & ?)]; [done|]. by exists value, id.
  - intros (? & id & [= <-] & ? & ?). right. by exists id.
Qed.

(** *** Nothing without authority *)

Definition private (a : Action) : bool := match a with A_Asset _ => false | _ => true end.

(** Actions that no page of another origin may cause. *)
Definition guarded (a : Action) : bool :=
  match a with
  | A_GetUsage | A_RefreshUsage | A_Usage | A_OpenSocket _
  | A_ImageTarget _ | A_SweepImages | A_WriteImage _ _ | A_RemoveImage => true
  | _ => false
  end.

Definition same_origin (req : Request) : bool :=
  origin_ok (header req "origin") (header req "host") (header req "x-forwarded-host").

Lemma web_asset_public an rel : Forall (fun a => private a = false) (web_asset an rel).1.
Proof. unfold web_asset. destruct (contains _ _); repeat constructor. Qed.

Lemma public_route_public an req : Forall (fun a => private a = false) (public_route an req).1.
Proof. unfold public_route, asset_reply. repeat case_match; first [apply web_asset_public|constructor]. Qed.

Definition guard_holds (req : Request) (a : Action) : Prop := guarded a = true -> same_origin req = true.

Lemma router_call_guarded req an method path body :
  Forall (guard_holds req) (router_call from_slice get as_str an method path body).1.
Proof. unfold router_call. case_match; repeat constructor. done. Qed.

Lemma router_ops_guarded req an t :
  Forall (guard_holds req) (slots_json from_slice get as_str an).1
  /\ Forall (guard_holds req) (set_slots from_slice get as_str json_error an t).1
  /\ Forall (guard_holds req) (reveal_key from_slice get as_str an t).1
  /\ Forall (guard_holds req) (run_action an t).1.
Proof.
  split_and!.
  - apply router_call_guarded.
  - unfold set_slots. case_match; [|by constructor].
    pose proof (router_call_guarded req an "PUT" (lit "/admin/slots") (Some t)) as Hc.
    destruct (router_call _ _ _ _ _ _ _) as [actions [resp|e]]; [|done]. simpl in *.
    apply Forall_app. split; [done|]. case_match; repeat constructor. done.
  - unfold reveal_key. case_match; [by constructor|].
    pose proof (router_call_guarded req an "GET" (lit "/admin/slots/" ++ t ++ lit "/key") None) as Hc.
    by destruct (router_call _ _ _ _ _ _ _).
  - unfold run_action. case_match; repeat constructor. done.
Qed.

Lemma op_guarded {A} req (p : list Action * A) (f : A -> Reply) answer :
  (let '(a, r) := p in Some (a, f r)) = Some answer -> Forall (guard_holds req) p.1 -> Forall (guard_holds req) answer.1.
Proof. destruct p. by intros [= <-]. Qed.

Lemma save_layout_guarded req an body : Forall (guard_holds req) (save_layout from_slice get as_str an body).1.
Proof. unfold save_layout. repeat case_match; repeat constructor; done. Qed.

Lemma private_route_guarded an req answer :
  private_route from_slice get as_str json_error an port req = Some answer -> Forall (guard_holds req) answer.1.
Proof.
  unfold private_route. fold (same_origin req). intros Hroute.
  repeat match type of Hroute with context [if ?b then _ else _] =>
    let E := fresh "Hb" in destruct b eqn:E; simplify_eq end.
  all: try (repeat constructor; done).
  2: apply save_layout_guarded.
  2: eapply op_guarded; [exact Hroute|]; apply (router_ops_guarded req an []).
  2-4: eapply op_guarded; [exact Hroute|]; apply router_ops_guarded.
  all: destruct (same_origin req) eqn:Ho; simpl; repeat case_match; repeat constructor; by unfold guard_holds.
Qed.

Lemma store_image_guarded req an body : same_origin req = true -> Forall (guard_holds req) (store_image an body).1.
Proof. intros Ho. unfold store_image, guard_holds. repeat case_match; repeat constructor; done. Qed.

(** What a request does, it does with authority, and when its arm asks for it, from
    the server's own origin. *)
Definition entitled (auth : Auth) (peer : IpAddr) (req : Request) (actions : list Action) : Prop :=
  Forall (fun a => private a = true -> authorized auth peer req = true) actions
  /\ Forall (guard_holds req) actions.

Lemma entitled_authorized auth peer req actions :
  authorized auth peer req = true -> Forall (guard_holds req) actions -> entitled auth peer req actions.
Proof. intros Ha Hg. split; [|done]. by apply Forall_forall. Qed.

Lemma route_entitled auth peer req an :
  entitled auth peer req (route from_slice get as_str json_error an port auth peer req).1.
Proof.
  unfold route. destruct (private_route _ _ _ _ an port req) as [answer|] eqn:Hr.
  - destruct (authorized auth peer req) eqn:Ha; simpl; [|by repeat constructor].
    apply entitled_authorized; [done|]. by eapply private_route_guarded.
  - pose proof (public_route_public an req) as Hp. split; eapply Forall_impl; try exact Hp; intros [] Ha; done.
Qed.

Lemma upload_entitled auth peer h prefix reads an :
  entitled auth peer (mk_request (hd_method h) (hd_path h) (hd_headers h) [])
    (handle_clipboard_image an auth peer h prefix reads).1.
Proof.
  unfold handle_clipboard_image. set (req := mk_request _ _ _ _). fold (same_origin req).
  destruct (authorized auth peer req) eqn:Ha; [|by repeat constructor].
  destruct (same_origin req) eqn:Ho; [|by repeat constructor]. simpl.
  apply entitled_authorized; [done|].
  repeat case_match; simplify_eq/=; repeat constructor; try by unfold guard_holds.
  match goal with E : store_image an ?b = _ |- _ => pose proof (store_image_guarded req an b Ho) as Hs; by rewrite E in Hs end.
Qed.

(** What entitles a request to an action, by the events before it: Tailscale's proxy
    on this machine names its user, or its cookie is a session that was exchanged for
    the token. *)
Definition bears_token (token : text) (before : list Event) (req : Request) : Prop :=
  exists ip body id value, Minted ip body id ∈ before /\ as_bytes (presented body) = as_bytes token
    /\ cookie_of req = Some value /\ as_bytes id = as_bytes value.

Definition justified (token : text) (before : list Event) (peer : IpAddr) (req : Request) (a : Action) : Prop :=
  (private a = true -> serve_identity_ok peer req = true \/ bears_token token before req)
  /\ guard_holds req a.

Definition event_ok (token : text) (before : list Event) (e : Event) : Prop :=
  match e with
  | Minted _ body _ => as_bytes (presented body) = as_bytes token
  | Failed _ => True
  | Did peer req actions => Forall (justified token before peer req) actions
  end.

Fixpoint log_ok (token : text) (l : list Event) : Prop :=
  match l with [] => True | e :: l' => event_ok token l' e /\ log_ok token l' end.

Lemma log_ok_app token l1 e l2 : log_ok token (l1 ++ e :: l2) -> event_ok token l2 e.
Proof. induction l1 as [|e' l1 IH]; simpl; tauto. Qed.

Record auth_inv (token : text) (s : State) : Prop := mk_auth_inv {
  ai_token : au_token (st_auth s) = token;
  ai_log : log_ok token (st_log s);
  ai_sessions : forall id, id ∈ au_sessions (st_auth s) -> exists ip body, Minted ip body id ∈ st_log s }.

Lemma log_ok_minted token l ip body id : log_ok token l -> Minted ip body id ∈ l -> as_bytes (presented body) = as_bytes token.
Proof. intros Hl (l1 & l2 & ->)%list_elem_of_split. by apply log_ok_app in Hl. Qed.

Lemma entitled_justified token s peer req actions :
  auth_inv token s -> entitled (st_auth s) peer req actions -> Forall (justified token (st_log s) peer req) actions.
Proof.
  intros [Ht Hl Hs] [Ha Hg]. rewrite Forall_forall in *. intros a Hin. split; [|by apply Hg]. intros Hp.
  specialize (Ha a Hin Hp). unfold authorized in Ha. apply orb_true_iff in Ha as [Ha|Ha]; [right|by left].
  apply valid_cookie_spec in Ha as (value & id & Hc & Hid & E). destruct (Hs id Hid) as (ip & body & Hm).
  exists ip, body, id, value. split_and!; try done. by eapply log_ok_minted.
Qed.

Lemma throttled_sessions auth now ip :
  au_sessions (throttled auth now ip).2 = au_sessions auth /\ au_token (throttled auth now ip).2 = au_token auth.
Proof. unfold throttled. by repeat case_match. Qed.

Lemma step_auth_inv token s s' : auth_inv token s -> step s s' -> auth_inv token s'.
Proof.
  intros Hinv Hstep. pose proof Hinv as [Ht Hl Hs]. destruct Hstep; try by constructor.
  - match goal with E : handle_clipboard_image _ _ _ _ _ _ = _ |- _ =>
      pose proof (upload_entitled (st_auth s) peer h pre rest an) as He; rewrite E in He end.
    constructor; simpl; [done| |].
    + split; [by apply entitled_justified|done].
    + intros id Hid. destruct (Hs id Hid) as (ip & body & ?). exists ip, body. by constructor.
  - match goal with E : after_check _ _ _ = _ |- _ => unfold after_check in E end.
    pose proof (throttled_sessions (st_auth s) (st_now s) peer) as [Hts Htt].
    destruct (throttled _ _ _) as [stop auth']; simplify_eq/=. constructor; simpl; [congruence|done|].
    intros id. rewrite Hts. apply Hs.
  - match goal with E : authenticate _ _ _ _ _ = _ |- _ => unfold authenticate in E end.
    unfold guess_events. destruct (ct_eq _ _) eqn:Hct.
    + apply ct_eq_spec in Hct. destruct (random_token random) as [new|]; simplify_eq/=; [|by constructor].
      constructor; simpl; [done|by split; [congruence|]|]. intros id' [Hid| ->%list_elem_of_singleton]%elem_of_app.
      * destruct (Hs id' Hid) as (ip & body & ?). exists ip, body. by constructor.
      * exists peer, (rq_body req). by constructor.
    + simplify_eq. unfold count_failure. destruct (default _ _) as [n at_]. case_match. constructor; simpl; [done|by split|].
      intros id Hid. destruct (Hs id Hid) as (ip & body & ?). exists ip, body. by constructor.
  - match goal with E : route _ _ _ _ _ _ _ _ _ = _ |- _ =>
      pose proof (route_entitled (st_auth s) peer req an) as He; rewrite E in He end.
    constructor; simpl; [done| |].
    + split; [by apply entitled_justified|done].
    + intros id Hid. destruct (Hs id Hid) as (ip & body & ?). exists ip, body. by constructor.
Qed.

Lemma run_auth_inv P token now s : run P (initial token now) s -> auth_inv token s.
Proof.
  remember (initial token now) as s0 eqn:E. induction 1 as [s0|s0 s' s'' _ IH Hstep]; subst.
  - constructor; simpl; [done..|]. by intros id ?%elem_of_nil.
  - eapply step_auth_inv; [by apply IH|done].
Qed.

(** C3. Whatever clients connect and however their threads interleave, a request that
    reads or changes anything but the public bundle came with authority: Tailscale's
    proxy on the same machine vouched for its user, or it carries a session that
    somebody earlier exchanged for the token; and no terminal socket, usage refresh or
    image upload was asked for by a page of another origin. *)
Theorem authority P token now s l1 peer req actions l2 :
  run P (initial token now) s -> st_log s = l1 ++ Did peer req actions :: l2 ->
  Forall (justified token l2 peer req) actions.
Proof. intros Hr E. pose proof (ai_log _ _ (run_auth_inv _ _ _ _ Hr)) as Hl. rewrite E in Hl. by apply log_ok_app in Hl. Qed.

(** *** Guessing the token *)

Definition is_guess (ip : IpAddr) (c : Conn) : bool :=
  match c with Guessing peer _ => bool_decide (peer = ip) | _ => false end.

(** Connections of [ip] that passed [throttled] and are yet to compare. *)
Definition guessing (ip : IpAddr) (conns : gmap nat Conn) : nat := size (filter (fun e => is_guess ip e.2 = true) conns).
Definition in_flight (ip : IpAddr) (s : State) : nat := guessing ip (st_conns s).

Definition is_failure (ip : IpAddr) (e : Event) : bool :=
  match e with Failed peer => bool_decide (peer = ip) | _ => false end.

(** Wrong tokens compared for [ip]. *)
Definition failures (ip : IpAddr) (s : State) : nat := length (List.filter (is_failure ip) (st_log s)).

Definition no_login (ip : IpAddr) (s : State) : Prop := forall body id, Minted ip body id ∉ st_log s.

Lemma guessing_fresh ip (m : gmap nat Conn) c new :
  m !! c = None -> guessing ip (<[c := new]> m) = guessing ip m + (if is_guess ip new then 1 else 0).
Proof.
  intros Hc. unfold guessing. rewrite map_filter_insert. destruct (is_guess ip new) eqn:E; simpl.
  - rewrite decide_True, map_size_insert_None; [lia|by apply map_lookup_filter_None; left|done].
  - rewrite decide_False by (simpl; congruence). rewrite delete_id by done. lia.
Qed.

Lemma guessing_insert ip (m : gmap nat Conn) c old new :
  m !! c = Some old ->
  guessing ip (<[c := new]> m) + (if is_guess ip old then 1 else 0) = guessing ip m + (if is_guess ip new then 1 else 0).
Proof.
  intros Hc. pose proof (guessing_fresh ip (delete c m) c new (lookup_delete_eq _ _)) as Hn.
  pose proof (guessing_fresh ip (delete c m) c old (lookup_delete_eq _ _)) as Ho.
  rewrite insert_delete_eq in Hn, Ho. rewrite (insert_id m c old Hc) in Ho. lia.
Qed.

(** A client of [ip] with [k] connections at a time. *)
Definition attacker (ip : IpAddr) (k : nat) (s : State) : Prop := in_flight ip s <= k /\ no_login ip s.

(** [m] windows are over, and in the open one, if there is one, [n] failures count. *)
Definition rate_inv (ip : IpAddr) (k : nat) (t0 : Z) (s : State) : Prop :=
  exists m, (0 <= m)%Z /\ (t0 <= st_now s)%Z /\
    match au_fails (st_auth s) !! ip with
    | Some (n, at_) =>
        (0 <= n /\ n + Z.of_nat (in_flight ip s) <= 7 + Z.of_nat k /\ t0 + m * AUTH_WINDOW <= at_ <= st_now s
        /\ Z.of_nat (failures ip s) <= (7 + Z.of_nat k) * m + n)%Z
    | None =>
        (t0 + m * AUTH_WINDOW <= st_now s /\ Z.of_nat (in_flight ip s) <= Z.of_nat k
         /\ Z.of_nat (failures ip s) <= (7 + Z.of_nat k) * m)%Z
    end.

(** A step that neither fails a guess, nor forgets one, nor starts one. *)
Lemma rate_inv_same ip k t0 s s' :
  rate_inv ip k t0 s -> (st_now s <= st_now s')%Z -> au_fails (st_auth s') !! ip = au_fails (st_auth s) !! ip ->
  failures ip s' = failures ip s -> in_flight ip s' <= in_flight ip s -> rate_inv ip k t0 s'.
Proof.
  intros (m & Hm & Ht & H) Hnow Hf Hl Hi. exists m. split; [done|]. split; [lia|]. rewrite Hf, Hl.
  destruct (au_fails (st_auth s) !! ip) as [[n at_]|]; lia.
Qed.

Lemma rate_inv_check ip k t0 s peer req conn auth conns c :
  rate_inv ip k t0 s -> after_check s peer req = (conn, auth) ->
  st_conns s !! c = Some (Reading peer) -> conns = <[c := conn]> (st_conns s) ->
  guessing ip conns <= k -> rate_inv ip k t0 (mk_state (st_now s) auth conns (st_log s)).
Proof.
  intros Hinv Hc Hlook -> Hk. pose proof (guessing_insert ip (st_conns s) c _ conn Hlook) as Hg. cbn [is_guess] in Hg.
  unfold after_check, throttled in Hc. destruct (decide (peer = ip)) as [->|Hne].
  - destruct Hinv as (m & Hm & Ht & H). unfold rate_inv, in_flight, failures in *. simpl.
    destruct (au_fails (st_auth s) !! ip) as [[n at_]|] eqn:Hf.
    + unfold AUTH_MAX_FAILS in Hc. destruct (Z.leb_spec 8 n) as [Hn|Hn]; [|injection Hc as <- <-].
      * destruct (Z.ltb_spec (elapsed at_ (st_now s)) AUTH_WINDOW) as [Hw|Hw]; injection Hc as <- <-; simpl in *.
        -- exists m. rewrite Hf. split_and!; try done; lia.
        -- exists (m + 1)%Z. rewrite lookup_delete_eq. unfold elapsed, AUTH_WINDOW in *. split_and!; lia.
      * exists m. rewrite Hf. simpl. split_and!; try done; lia.
    + injection Hc as <- <-. exists m. rewrite Hf. split_and!; try done; lia.
  - eapply rate_inv_same; [done|simpl; lia|..]; simpl; try done.
    + repeat case_match; simplify_eq/=; first [done|by apply lookup_delete_ne].
    + assert (is_guess ip conn = false) as Hcf
        by (clear Hg Hk; repeat case_match; simplify_eq/=; first [done|by apply bool_decide_eq_false]).
      rewrite Hcf in Hg. unfold in_flight. simpl. lia.
Qed.

Lemma rate_inv_guess ip k t0 s c req :
  rate_inv ip k t0 s -> (8 + Z.of_nat k < 2 ^ 32)%Z -> st_conns s !! c = Some (Guessing ip req) -> forall reply,
  rate_inv ip k t0 (mk_state (st_now s) (count_failure (st_auth s) (st_now s) ip)
                      (<[c := Ended reply]> (st_conns s)) (Failed ip :: st_log s)).
Proof.
  intros (m & Hm & Ht & H) Hbig Hlook reply. pose proof (guessing_insert ip (st_conns s) c _ (Ended reply) Hlook) as Hg.
  cbn [is_guess] in Hg. rewrite bool_decide_true in Hg by done.
  unfold rate_inv, in_flight, failures, count_failure in *. simpl. rewrite bool_decide_true by done. simpl.
  destruct (au_fails (st_auth s) !! ip) as [[n at_]|] eqn:Hf; simpl.
  - destruct (Z.leb_spec AUTH_WINDOW (elapsed at_ (st_now s))) as [Hw|Hw]; simpl; rewrite lookup_insert_eq.
    + exists (m + 1)%Z. unfold elapsed, AUTH_WINDOW, wrap32 in *. change ((0 + 1) mod 2 ^ 32)%Z with 1%Z. split_and!; lia.
    + exists m. unfold wrap32. rewrite Z.mod_small by lia. split_and!; lia.
  - assert (elapsed (st_now s) (st_now s) = 0)%Z as -> by (unfold elapsed; lia).
    simpl. rewrite lookup_insert_eq. exists m. unfold wrap32. change ((0 + 1) mod 2 ^ 32)%Z with 1%Z. split_and!; lia.
Qed.

Lemma step_rate_inv ip k t0 s s' :
  (8 + Z.of_nat k < 2 ^ 32)%Z -> rate_inv ip k t0 s -> step s s' -> attacker ip k s' -> rate_inv ip k t0 s'.
Proof.
  intros Hbig Hinv Hstep [Hk Hlog]. destruct Hstep.
  - by apply (rate_inv_same ip k t0 s).
  - apply (rate_inv_same ip k t0 s); simpl; try done. unfold in_flight. simpl. rewrite guessing_fresh by done. simpl. lia.
  - apply (rate_inv_same ip k t0 s); simpl; try done. unfold in_flight. simpl.
    match goal with E : _ !! c = Some _ |- context [<[c := ?new]> _] =>
      pose proof (guessing_insert ip (st_conns s) c _ new E) as Hg; simpl in Hg; lia end.
  - apply (rate_inv_same ip k t0 s); simpl; try done. unfold in_flight. simpl.
    match goal with E : _ !! c = Some _ |- context [<[c := ?new]> _] =>
      pose proof (guessing_insert ip (st_conns s) c _ new E) as Hg; simpl in Hg; lia end.
  - by eapply rate_inv_check.
  - match goal with E : _ !! c = Some _ |- _ => rename E into Hlook end.
    match goal with E : authenticate _ _ _ _ _ = _ |- _ => unfold authenticate in E; rename E into Ha end.
    pose proof (guessing_insert ip (st_conns s) c _ (Ended (Some (auth_reply req id))) Hlook) as Hg. simpl in Hg.
    assert (Hle : guessing ip (<[c := Ended (Some (auth_reply req id))]> (st_conns s)) <= guessing ip (st_conns s))
      by (destruct (bool_decide (peer = ip)); lia).
    unfold guess_events in *. destruct (ct_eq _ _).
    + destruct (random_token random) as [new|]; simplify_eq/=.
      * destruct (decide (peer = ip)) as [->|Hne].
        { exfalso. by apply (Hlog (rq_body req) new); constructor. }
        apply (rate_inv_same ip k t0 s); simpl; try done. by apply lookup_delete_ne.
      * by apply (rate_inv_same ip k t0 s).
    + simplify_eq/=. destruct (decide (peer = ip)) as [->|Hne]; [by eapply rate_inv_guess|].
      apply (rate_inv_same ip k t0 s); simpl; try done.
      * unfold count_failure. destruct (default _ _) as [n at_]. destruct (_ <=? _)%Z; simpl; by apply lookup_insert_ne.
      * unfold failures. simpl. by rewrite bool_decide_false.
  - apply (rate_inv_same ip k t0 s); simpl; try done. unfold in_flight. simpl.
    match goal with E : _ !! c = Some _ |- context [<[c := ?new]> _] =>
      pose proof (guessing_insert ip (st_conns s) c _ new E) as Hg; simpl in Hg; lia end.
Qed.


(** *** Forged requests *)

(** Behind Tailscale's proxy the origin of a request is what keeps a page of another
    site from acting for the user, as no cookie is asked for: such a page's requests
    for usage, for the terminal socket and for image uploads are refused.  But it can
    replace the layout, and start and stop the router or change its token: those arms
    do not look at the origin. *)
Theorem forged_layout_write auth peer req an v t action :
  serve_identity_ok peer req = true -> same_origin req = false -> rq_method req = lit "POST" ->
  from_slice (rq_body req) = Some v ->
  let acts := (route from_slice get as_str json_error an port auth peer req).1 in
  (path_of (rq_path req) = lit "/api/layout" -> get_str get as_str v "text" = Some t ->
   acts = [A_SaveLayout t (get_str get as_str v "version")])
  /\ (path_of (rq_path req) = lit "/api/router/action" -> get_str get as_str v "action" = Some action ->
      action ∈ ACTIONS -> acts = [A_RouterAction action])
  /\ (path_of (rq_path req) = lit "/api/usage" -> acts = []).
Proof.
  intros Hs Ho Hm Hv acts. unfold acts, route, private_route. fold (same_origin req).
  rewrite Hm, Ho. unfold authorized. rewrite Hs, orb_true_r.
  split_and!; intros Hp; rewrite Hp; simpl.
  - intros Ht. unfold save_layout. by rewrite Hv, Ht.
  - intros Ha Hin. unfold run_action. rewrite Hv. simpl. rewrite Ha. simpl. by rewrite bool_decide_true.
  - done.
Qed.
End Server.

(** ** Examples *)

Definition crlf_text (lines : list string) : list byte := mjoin (map (fun l => lit l ++ CRLF) lines).

Definition local_peer : IpAddr := V4 (127 * 2 ^ 24 + 1).
Definition login_bytes : list byte := crlf_text ["POST /api/auth HTTP/1.1"; "Content-Length: 6"; ""] ++ lit "secret".
Definition wrong_bytes : list byte := crlf_text ["POST /api/auth HTTP/1.1"; "Content-Length: 6"; ""] ++ lit "guess!".
Definition sessions_bytes : list byte :=
  crlf_text ["GET /api/sessions HTTP/1.1"; "Cookie: theme=dark; amber_web=AQID"; ""].

Definition request_in (bytes : list byte) : Request :=
  match receive true [Chunk bytes] with Received r => r | _ => mk_request [] [] [] [] end.

Definition no_answers : Answers :=
  mk_answers [] [] [] None (None, None) (Save_Error []) [] None (Err (mk_ops_error 502 [])) false (Ok tt) [] [] 0
    (Ok None) (fun _ => None).

(** A JSON library for which a body is one string under every key. *)
Definition text_value (l : list byte) : option text := Some l.
Definition text_get (v : text) (key : string) : option text := Some v.
Definition text_str (v : text) : option text := Some v.

Definition demo_step := step text_value text_get text_str (fun _ => []) true 7717.
Definition demo_run := run text_value text_get text_str (fun _ => []) true 7717.

Lemma demo_snoc (P : State -> Prop) s s' s'' : demo_run P s s' -> demo_step s' s'' -> P s'' -> demo_run P s s''.
Proof. apply run_snoc. Qed.

Lemma login_received : receive true [Chunk login_bytes] = Received (request_in login_bytes).
Proof. vm_compute. reflexivity. Qed.
Lemma wrong_received : receive true [Chunk wrong_bytes] = Received (request_in wrong_bytes).
Proof. vm_compute. reflexivity. Qed.
Lemma sessions_received : receive true [Chunk sessions_bytes] = Received (request_in sessions_bytes).
Proof. vm_compute. reflexivity. Qed.

(** One client exchanges the token, and another connection of its browser uses the session. *)
Lemma demo_login : exists s,
  demo_run (fun _ => True) (initial (lit "secret") 0) s
  /\ st_log s = [] ++ Did local_peer (request_in sessions_bytes) [A_Sessions]
                   :: [Minted local_peer (lit "secret") (lit "AQID")].
Proof.
  eexists. split.
  - eapply demo_snoc.
    { eapply demo_snoc.
      { eapply demo_snoc.
        { eapply demo_snoc.
          { eapply demo_snoc; [by apply run_nil|by apply (step_accept _ _ _ _ _ _ _ 0 local_peer)|exact I]. }
          { eapply (step_check _ _ _ _ _ _ _ 0 local_peer); [done|apply login_received|done|apply surjective_pairing]. }
          exact I. }
        { eapply (step_guess _ _ _ _ _ _ _ 0 local_peer (request_in login_bytes) (Some [1; 2; 3]%Z));
            [done|apply surjective_pairing]. }
        exact I. }
      { by apply (step_accept _ _ _ _ _ _ _ 1 local_peer). }
      exact I. }
    { eapply (step_route _ _ _ _ _ _ _ 1 local_peer _ _ no_answers);
        [done|apply sessions_received|done|apply surjective_pairing]. }
    exact I.
  - vm_compute. reflexivity.
Qed.

Lemma authority_witness : exists s,
  Forall (justified (lit "secret") [Minted local_peer (lit "secret") (lit "AQID")] local_peer (request_in sessions_bytes)) [A_Sessions]
  /\ demo_run (fun _ => True) (initial (lit "secret") 0) s.
Proof.
  destruct demo_login as (s & Hr & Hl). exists s. split; [|exact Hr].
  exact (authority _ _ _ _ _ _ _ _ _ s [] _ _ _ _ Hr Hl).
Defined.

Lemma attacker_dec ip k s :
  (in_flight ip s <=? k) && forallb (fun e => match e with Minted _ _ _ => false | _ => true end) (st_log s) = true ->
  attacker ip k s.
Proof.
  intros [Hk Hl]%andb_true_iff. split; [by apply Nat.leb_le|]. intros body id Hin.
  rewrite forallb_forall in Hl. by specialize (Hl _ (proj1 (list_elem_of_In _ _) Hin)).
Qed.

Ltac attacker_ok := apply attacker_dec; vm_compute; reflexivity.

(** One wrong guess. *)
Lemma demo_guess : exists s,
  demo_run (attacker local_peer 1) (initial (lit "secret") 0) s /\ failures local_peer s = 1 /\ st_now s = 0%Z.
Proof.
  eexists. split; [|split].
  - eapply demo_snoc.
    { eapply demo_snoc.
      { eapply demo_snoc; [apply run_nil; attacker_ok|by apply (step_accept _ _ _ _ _ _ _ 0 local_peer)|attacker_ok]. }
      { eapply (step_check _ _ _ _ _ _ _ 0 local_peer); [done|apply wrong_received|done|apply surjective_pairing]. }
      attacker_ok. }
    { eapply (step_guess _ _ _ _ _ _ _ 0 local_peer (request_in wrong_bytes) None); [done|apply surjective_pairing]. }
    attacker_ok.
  - vm_compute. reflexivity.
  - reflexivity.
Qed.


Definition forged_bytes : list byte :=
  crlf_text ["POST /api/layout HTTP/1.1"; "Host: pc.tail1.ts.net"; "X-Forwarded-Proto: https";
             "Tailscale-User-Login: me@example.com"; "Origin: https://evil.example"; "Content-Length: 2"; ""] ++ lit "{}".

Lemma forged_layout_write_witness :
  (route text_value text_get text_str (fun _ => []) no_answers 7717 (new_auth (lit "secret")) local_peer
     (request_in forged_bytes)).1 = [A_SaveLayout (lit "{}") (Some (lit "{}"))].
Proof.
  refine (proj1 (forged_layout_write text_value text_get text_str (fun _ => []) 7717 (new_auth (lit "secret")) local_peer
           (request_in forged_bytes) no_answers (lit "{}") (lit "{}") [] _ _ _ _) _ _); vm_compute; reflexivity.
Defined.

(** Values of the source's tests. *)
Example base64url_tests :
  map (fun s => string_of_bytes (base64url (lit s))) [""; "f"; "fo"; "foo"; "foob"; "foobar"] = [""; "Zg"; "Zm8"; "Zm9v"; "Zm9vYg"; "Zm9vYmFy"]
  /\ base64url [251; 255; 254]%Z = lit "-__-".
Proof. vm_compute. by split. Qed.
