(* ===== verification/Browser.v ===== *)
(** * What a browser may ask of the daemon

    [parse_browser_msg] and [map_browser_msg] of [crates/amber/src/web.rs]: the
    messages of a browser's socket, and the control messages each becomes against
    the hub's picture of the sessions.  serde_json is the class [JsonValue]; whether
    a directory exists is an argument. *)
From S2P Require Import Prelude Utf8 Wire PiCommand Mosaic.

(** What is used of [serde_json::Value]. *)
Class JsonValue (Value : Type) := {
  from_str : string -> option Value;
  get : Value -> string -> option Value;
  as_str : Value -> option string;
  as_u64 : Value -> option Z;
  as_array : Value -> option (list Value);
  is_null : Value -> bool }.

Inductive BrowserMsg :=
| B_Open (name : string)
| B_Close (name : string)
| B_Focus (name : string)
| B_Create (name cwd kind : string) (title : option string)
| B_SetTitle (name : string) (title : option string)
| B_Kill (name : string)
| B_Move (from to : string)
| B_Suspend (name : string)
| B_Resume (name : string)
| B_DumpBacklog (name : string)
| B_Resize (name : string) (cols rows : Z)
| B_PiOpen (name : string)
| B_PiClose (name : string)
| B_PiPrompt (name message : string) (delivery : PiDelivery)
| B_PiPromptWithAttachments (name request_id message : string) (delivery : PiDelivery) (attachments : list string)
| B_PiUploadBegin (name request_id filename mime_type : string) (size : Z)
| B_PiUploadChunk (name request_id attachment_id : string) (offset : Z) (data : string)
| B_PiUploadFinish (name request_id attachment_id : string)
| B_PiUploadCancel (name request_id attachment_id : string)
| B_PiSubagentStatus (name request_id : string)
| B_PiSubagentTranscript (name request_id run_id : string) (index : option Z)
| B_PiSubagentControl (name request_id : string) (action : PiSubagentAction) (run_id : string)
    (child_id : option string) (index : option Z) (message : option string)
| B_PiAbort (name : string)
| B_PiThinking (name level : string)
| B_Release.

Section Parse.
Context {Value : Type} `{JsonValue Value}.

Definition field (v : Value) (k : string) : option string := x ← get v k; as_str x.

(** A field that may be missing or null; [None] is neither and not text. *)
Definition optional_text (v : Value) (k : string) : option (option string) :=
  match get v k with
  | None => Some None
  | Some x => if is_null x then Some None else Some <$> as_str x
  end.

Definition text_array (v : Value) (k : string) : option (list string) :=
  x ← get v k; l ← as_array x; mapM as_str l.

Definition number (v : Value) (k : string) : option Z := x ← get v k; as_u64 x.

(** [u16::try_from] and [u32::try_from] *)
Definition try_from (max n : Z) : option Z := if (n <=? max)%Z then Some n else None.

Definition parse_delivery (s : string) : option PiDelivery :=
  if bool_decide (s = "now") then Some D_Now
  else if bool_decide (s = "steer") then Some D_Steer
  else if bool_decide (s = "follow_up") then Some D_FollowUp
  else None.

Definition parse_action (s : string) : option PiSubagentAction :=
  if bool_decide (s = "stop") then Some A_Stop
  else if bool_decide (s = "steer") then Some A_Steer
  else if bool_decide (s = "interrupt") then Some A_Interrupt
  else if bool_decide (s = "resume") then Some A_Resume
  else None.

Definition parse_transcript_index (v : Value) : option (option Z) :=
  match get v "index" with
  | None => Some None
  | Some x => n ← as_u64 x; i ← try_from u32_max n; Some (Some i)
  end.

Definition parse_subagent_control (v : Value) : option BrowserMsg :=
  if match get v "childId" with Some x => negb (is_null x) | None => false end
     || match get v "index" with Some _ => true | None => false end
  then None
  else
    name ← field v "name"; request_id ← field v "requestId";
    action ← (field v "action" ≫= parse_action);
    run_id ← field v "runId";
    message ← optional_text v "message";
    Some (B_PiSubagentControl name request_id action run_id None None message).

Definition parse_kind (v : Value) (t : string) : option BrowserMsg :=
  let is_ s := bool_decide (t = s) in
  if is_ "open" then B_Open <$> field v "name"
  else if is_ "close" then B_Close <$> field v "name"
  else if is_ "focus" then B_Focus <$> field v "name"
  else if is_ "create" then
    name ← field v "name"; cwd ← field v "cwd"; kind ← field v "kind"; title ← optional_text v "title";
    Some (B_Create name cwd kind title)
  else if is_ "set-title" then
    name ← field v "name"; title ← optional_text v "title"; Some (B_SetTitle name title)
  else if is_ "kill" then B_Kill <$> field v "name"
  else if is_ "move" then from ← field v "from"; to ← field v "to"; Some (B_Move from to)
  else if is_ "suspend" then B_Suspend <$> field v "name"
  else if is_ "resume" then B_Resume <$> field v "name"
  else if is_ "dumpBacklog" then B_DumpBacklog <$> field v "name"
  else if is_ "piOpen" then B_PiOpen <$> field v "name"
  else if is_ "piClose" then B_PiClose <$> field v "name"
  else if is_ "piPrompt" then
    name ← field v "name"; message ← field v "message"; delivery ← (field v "delivery" ≫= parse_delivery);
    Some (B_PiPrompt name message delivery)
  else if is_ "piPromptWithAttachments" then
    name ← field v "name"; request_id ← field v "requestId"; message ← field v "message";
    delivery ← (field v "delivery" ≫= parse_delivery); attachments ← text_array v "attachments";
    Some (B_PiPromptWithAttachments name request_id message delivery attachments)
  else if is_ "piUploadBegin" then
    name ← field v "name"; request_id ← field v "requestId"; filename ← field v "filename";
    mime_type ← field v "mimeType"; size ← number v "size";
    Some (B_PiUploadBegin name request_id filename mime_type size)
  else if is_ "piUploadChunk" then
    name ← field v "name"; request_id ← field v "requestId"; attachment_id ← field v "attachmentId";
    offset ← number v "offset"; data ← field v "data";
    Some (B_PiUploadChunk name request_id attachment_id offset data)
  else if is_ "piUploadFinish" then
    name ← field v "name"; request_id ← field v "requestId"; attachment_id ← field v "attachmentId";
    Some (B_PiUploadFinish name request_id attachment_id)
  else if is_ "piUploadCancel" then
    name ← field v "name"; request_id ← field v "requestId"; attachment_id ← field v "attachmentId";
    Some (B_PiUploadCancel name request_id attachment_id)
  else if is_ "piSubagentStatus" then
    name ← field v "name"; request_id ← field v "requestId"; Some (B_PiSubagentStatus name request_id)
  else if is_ "piSubagentTranscript" then
    name ← field v "name"; request_id ← field v "requestId"; run_id ← field v "runId";
    index ← parse_transcript_index v;
    Some (B_PiSubagentTranscript name request_id run_id index)
  else if is_ "piSubagentControl" then parse_subagent_control v
  else if is_ "piAbort" then B_PiAbort <$> field v "name"
  else if is_ "piThinking" then name ← field v "name"; level ← field v "level"; Some (B_PiThinking name level)
  else if is_ "release" then Some B_Release
  else if is_ "resize" then
    name ← field v "name"; cols ← (number v "cols" ≫= try_from u16_max); rows ← (number v "rows" ≫= try_from u16_max);
    Some (B_Resize name cols rows)
  else None.

Definition parse_browser_msg (t : string) : option BrowserMsg :=
  v ← from_str t; k ← field v "t"; parse_kind v k.

(** ** Mapping *)

Definition RESIZE_MIN_COLS : Z := 10.
Definition RESIZE_MAX_COLS : Z := 1000.
Definition RESIZE_MIN_ROWS : Z := 4.
Definition RESIZE_MAX_ROWS : Z := 300.

Definition CREATE_KINDS : list string :=
  ["shell"; "claude"; "grok"; "codex"; "opencode"; "hermes"; "pi"; "muse"].
Definition AGENT_KINDS : list string := ["claude"; "grok"; "codex"; "opencode"; "hermes"; "pi"; "muse"].

Context (is_dir : string -> bool).

Definition live (sessions : list SessionInfo) (n : string) : bool :=
  existsb (fun s => bool_decide (si_name s = n)) sessions.
Definition is_pi (sessions : list SessionInfo) (n : string) : bool :=
  existsb (fun s => bool_decide (si_name s = n) && bool_decide (si_kind s = "pi")) sessions.
Definition is_agent (sessions : list SessionInfo) (n : string) : bool :=
  existsb (fun s => bool_decide (si_name s = n) && bool_decide (si_kind s ∈ AGENT_KINDS)) sessions.

Definition pane_name (n : string) : bool := match parse_pane_name n with Some _ => true | None => false end.

(** The arms that check a Pi command as the daemon will. *)
Definition pi_command (sessions : list SessionInfo) (name : string) (command : PiCommand) : list (ControlMsg Value) :=
  if is_pi sessions name && is_ok (validate_pi_command command) then [M_PiBridgeCommand _ name command] else [].

Definition map_browser_msg (msg : BrowserMsg) (open : option string) (sessions : list SessionInfo)
  : list (ControlMsg Value) :=
  let live := live sessions in
  let is_pi := is_pi sessions in
  let is_agent := is_agent sessions in
  let pi_command := pi_command sessions in
  match msg with
  | B_Open name =>
      if negb (live name) then []
      else match open with
           | Some prev => if bool_decide (prev <> name) then [M_Detach _ prev] else []
           | None => []
           end ++ [M_Attach _ name false false None]
  | B_Close name => if negb (live name) then [] else [M_Detach _ name]
  | B_Focus name => if negb (live name) then [] else [M_Focus _ name]
  | B_Create name cwd kind title =>
      if negb (pane_name name) || live name || negb (bool_decide (kind ∈ CREATE_KINDS)) || negb (is_dir cwd) then []
      else [M_Create _ name cwd kind title]
  | B_SetTitle name title => if negb (live name) then [] else [M_SetTitle _ name title]
  | B_Kill name => if negb (live name) then [] else [M_Kill _ name]
  | B_Move from to => if negb (live from) || negb (pane_name to) || live to then [] else [M_Rename _ from to]
  | B_Suspend name => if negb (is_agent name) then [] else [M_Suspend _ name]
  | B_Resume name => if negb (is_agent name) then [] else [M_Resume _ name]
  | B_DumpBacklog name => if negb (live name) then [] else [M_DumpBacklog _ name]
  | B_PiOpen name =>
      if negb (is_pi name) then []
      else match open with Some previous => [M_Detach _ previous] | None => [] end
           ++ [M_WatchPiEvents _ 1; M_PiBridgeCommand _ name Pi_Snapshot]
  | B_PiClose _ => []
  | B_PiPrompt name message delivery =>
      if negb (is_pi name) || blank message || (PI_PROMPT_MAX_BYTES <? Z.of_nat (String.length message))%Z then []
      else [M_PiBridgeCommand _ name (Pi_Prompt message delivery)]
  | B_PiPromptWithAttachments name request_id message delivery attachments =>
      pi_command name (Pi_PromptWithAttachments request_id message delivery attachments)
  | B_PiUploadBegin name request_id filename mime_type size =>
      pi_command name (Pi_UploadBegin request_id filename mime_type size)
  | B_PiUploadChunk name request_id attachment_id offset data =>
      pi_command name (Pi_UploadChunk request_id attachment_id offset data)
  | B_PiUploadFinish name request_id attachment_id => pi_command name (Pi_UploadFinish request_id attachment_id)
  | B_PiUploadCancel name request_id attachment_id => pi_command name (Pi_UploadCancel request_id attachment_id)
  | B_PiSubagentStatus name request_id => pi_command name (Pi_SubagentStatus request_id)
  | B_PiSubagentTranscript name request_id run_id index =>
      pi_command name (Pi_SubagentTranscript request_id run_id index)
  | B_PiSubagentControl name request_id action run_id child_id index message =>
      pi_command name (Pi_SubagentControl request_id action run_id child_id index message)
  | B_PiAbort name => if negb (is_pi name) then [] else [M_PiBridgeCommand _ name Pi_Abort]
  | B_PiThinking name level =>
      if negb (is_pi name) || negb (bool_decide (level ∈ ["off"; "minimal"; "low"; "medium"; "high"; "xhigh"; "max"])) then []
      else [M_PiBridgeCommand _ name (Pi_SetThinkingLevel level)]
  | B_Release => []
  | B_Resize name cols rows =>
      if negb (live name)
         || negb ((RESIZE_MIN_COLS <=? cols) && (cols <=? RESIZE_MAX_COLS))%Z
         || negb ((RESIZE_MIN_ROWS <=? rows) && (rows <=? RESIZE_MAX_ROWS))%Z then []
      else [M_Resize _ name cols rows]
  end.

(** ** What gets through *)

Definition is_live (sessions : list SessionInfo) (n : string) : Prop := exists s, s ∈ sessions /\ si_name s = n.
Definition is_kind (kinds : list string) (sessions : list SessionInfo) (n : string) : Prop :=
  exists s, s ∈ sessions /\ si_name s = n /\ si_kind s ∈ kinds.

(** A control message fit to be sent, the sessions being [sessions] and the asking
    browser having [open] open. *)
Definition admissible (sessions : list SessionInfo) (open : option string) (m : ControlMsg Value) : Prop :=
  match m with
  | M_Attach _ n raw preview resume => is_live sessions n /\ raw = false /\ preview = false /\ resume = None
  | M_Detach _ n => is_live sessions n \/ open = Some n
  | M_Focus _ n | M_SetTitle _ n _ | M_Kill _ n | M_DumpBacklog _ n => is_live sessions n
  | M_Create _ n cwd kind _ =>
      is_Some (parse_pane_name n) /\ ~ is_live sessions n /\ kind ∈ CREATE_KINDS /\ is_dir cwd = true
  | M_Rename _ from to => is_live sessions from /\ is_Some (parse_pane_name to) /\ ~ is_live sessions to
  | M_Suspend _ n | M_Resume _ n => is_kind AGENT_KINDS sessions n
  | M_Resize _ n cols rows => is_live sessions n /\ (10 <= cols <= 1000 /\ 4 <= rows <= 300)%Z
  | M_WatchPiEvents _ version => version = 1%Z
  | M_PiBridgeCommand _ n command => is_kind ["pi"] sessions n /\ validate_pi_command command = Ok tt
  | _ => False
  end.

Lemma live_spec sessions n : live sessions n = true <-> is_live sessions n.
Proof.
  unfold live, is_live. rewrite existsb_exists. setoid_rewrite <- list_elem_of_In.
  split; intros (s & Hs & Hn); exists s; split; try done; [by apply bool_decide_eq_true in Hn|by apply bool_decide_eq_true].
Qed.

Lemma is_kind_spec kinds sessions n :
  existsb (fun s => bool_decide (si_name s = n) && bool_decide (si_kind s ∈ kinds)) sessions = true <-> is_kind kinds sessions n.
Proof.
  unfold is_kind. rewrite existsb_exists. setoid_rewrite <- list_elem_of_In. setoid_rewrite andb_true_iff.
  split; intros (s & Hs & Hn); exists s; rewrite ?bool_decide_eq_true in *; tauto.
Qed.

Lemma is_pi_spec sessions n : is_pi sessions n = true <-> is_kind ["pi"] sessions n.
Proof.
  unfold is_pi, is_kind. rewrite existsb_exists. setoid_rewrite <- list_elem_of_In.
  setoid_rewrite andb_true_iff. setoid_rewrite list_elem_of_singleton.
  split; intros (s & Hs & Hn); exists s; rewrite ?bool_decide_eq_true in *; tauto.
Qed.

Lemma pane_name_spec n : pane_name n = true <-> is_Some (parse_pane_name n).
Proof. unfold pane_name, is_Some. destruct (parse_pane_name n) as [p|]; split; try done; [by exists p|by intros [? ?]]. Qed.

Lemma pi_command_admissible sessions open name command :
  Forall (admissible sessions open) (pi_command sessions name command).
Proof.
  unfold pi_command. destruct (is_pi sessions name) eqn:Hp; [|by constructor].
  destruct (validate_pi_command command) as [[]|] eqn:Hv; simpl; repeat constructor; [by apply is_pi_spec|done].
Qed.

Lemma not_live sessions n : live sessions n = false -> ~ is_live sessions n.
Proof. intros Hl Hn. apply live_spec in Hn. congruence. Qed.

(** Whatever a browser sends, what is made of it for the daemon names live sessions,
    creates and renames only pane names that are free, resizes within bounds, suspends
    only agents and commands only Pi sessions, with commands the daemon accepts. *)
Lemma map_admissible msg open sessions : Forall (admissible sessions open) (map_browser_msg msg open sessions).
Proof.
  destruct msg; unfold map_browser_msg; try apply pi_command_admissible; try apply Forall_nil_2.
  all: try (destruct (live sessions name) eqn:Hl; simpl; [|by constructor]; apply live_spec in Hl).
  all: try (destruct (is_pi sessions name) eqn:Hp; simpl; [|by constructor]; apply is_pi_spec in Hp).
  all: try (destruct (is_agent sessions name) eqn:Ha; simpl; [|by constructor]; apply is_kind_spec in Ha).
  all: try (by repeat constructor).
  - apply Forall_app. split; [|by repeat constructor].
    destruct open as [prev|]; [case_bool_decide|]; [constructor; [by right|]|..]; by constructor.
  - destruct (pane_name name) eqn:Hn, (live sessions name) eqn:Hl, (is_dir cwd) eqn:Hd; simpl; try by constructor.
    all: rewrite ?orb_true_r; try by constructor. case_bool_decide; simpl; [|by constructor].
    apply Forall_singleton. split_and!; try done; [by apply pane_name_spec|by apply not_live].
  - destruct (live sessions from) eqn:Hf, (pane_name to) eqn:Hn, (live sessions to) eqn:Hl; simpl; try by constructor.
    apply Forall_singleton. split_and!; [by apply live_spec|by apply pane_name_spec|by apply not_live].
  - unfold RESIZE_MIN_COLS, RESIZE_MAX_COLS, RESIZE_MIN_ROWS, RESIZE_MAX_ROWS.
    split_ifs; [by constructor|]. apply Forall_singleton. split; [done|lia].
  - apply Forall_app. split; [|by repeat constructor]. destruct open; [constructor; [by right|]|]; by constructor.
  - destruct (blank message) eqn:Hb; [by constructor|]. destruct (_ <? _)%Z eqn:Hm; [by constructor|].
    apply Forall_singleton. split; [done|]. simpl. rewrite Hb. simpl. unfold PiCommand.len. by rewrite Hm.
  - case_bool_decide as Hlv; simpl; [|by constructor]. apply Forall_singleton. split; [done|].
    change (ensure (existsb (String.eqb level) THINKING_LEVELS) Pi_UnsupportedLevel = Ok tt).
    assert (existsb (String.eqb level) THINKING_LEVELS = true) as ->; [|done]. apply existsb_exists.
    exists level. split; [by apply list_elem_of_In|apply String.eqb_refl].
Qed.
End Parse.
