(* ===== verification/Hub.v ===== *)
(** * The hub between browsers and the daemon

    [Hub] of [crates/amber/src/web.rs]: every browser's WebSocket shares one connection
    to the daemon.  All state is behind one lock, so each method is a transformer of
    [HubInner]; a write to the daemon succeeds or fails as a schedule says; a
    browser's writer thread takes what its bounded queue holds at any time ([step]).
    Reading the layout file and its JSON form are arguments. *)
From S2P Require Import Prelude Utf8 Wire PiCommand Mosaic Manager Browser.

(** ** State *)

(** The JSON texts pushed to browsers, by their ["t"]. *)
Inductive Push (Value : Type) :=
| P_Sessions (sessions : list SessionInfo) (layout : string)
| P_Error (msg : string)
| P_Backlog (name : string)
| P_BacklogReply (name : string)
| P_Created (name : string)
| P_TitleSet (name : string) (title : option string)
| P_Exit (name : string) (code : Z)
| P_PiEvent (name : string) (seq : Z) (event : Value)
| P_PiStatus (name : string) (available : bool)
| P_Activity (name : string)
| P_Memory (name : string) (rss_kb : Z) (growing : bool)
| P_MemoryPressure (level : string) (current_kb budget_kb : Z) (blocked : bool)
| P_ResourcePressure (level : ResourcePressureLevel) (causes : list ResourcePressureCause) (blocked : bool).

Inductive Out (Value : Type) := Out_Text (p : Push Value) | Out_Binary (bytes : list byte).
Arguments Out_Text {Value} p.
Arguments Out_Binary {Value} bytes.

Record PendingTitle := mk_pending_title { pt_client : Z; pt_created : bool; pt_since : Z }.

Record Borrow := mk_borrow { bw_client : Z; bw_prior : Z * Z; bw_set : option (Z * Z) }.

Definition CLIENT_QUEUE_DEPTH : nat := 512.
Definition TITLE_ACK_TIMEOUT : Z := 5 * 10 ^ 9.

#[export] Instance SessionInfo_eq_dec : EqDecision SessionInfo.
Proof. solve_decision. Defined.

Section Hub.
Context {Value : Type} `{JsonValue Value} (is_dir : string -> bool) (to_string : Rendered -> string).

Abbreviation Push := (Push Value).
Abbreviation Out := (Out Value).
Abbreviation Frame := (Frame Value).

(** [cl_queue] is the channel, [cl_taken] what the writer thread has taken from it,
    [cl_gone] whether that thread has ended. *)
Record Client := mk_client {
  cl_id : Z; cl_open : option string; cl_pi : option string;
  cl_queue : list Out; cl_taken : list Out; cl_gone : bool }.

(** The daemon connection, with what was written on it, newest first; [ln_oks] says how
    the next writes end, and none fails after them. *)
Record Link := mk_link { ln_up : bool; ln_sent : list Frame; ln_oks : list bool }.

Record HubInner := mk_hub {
  hb_link : Link;
  hb_sessions : list SessionInfo;
  hb_file : LayoutFile;
  hb_layout : string;
  hb_dirty : bool;
  hb_clients : list Client;
  hb_pending : gset string;
  hb_dumps : gmap string (list Z);
  hb_titles : gmap (string * option string) (list PendingTitle);
  hb_usage : option (list ProviderUsage);
  hb_borrows : gmap string Borrow;
  hb_next : Z }.

Definition set_link (h : HubInner) (l : Link) : HubInner :=
  mk_hub l (hb_sessions h) (hb_file h) (hb_layout h) (hb_dirty h) (hb_clients h) (hb_pending h) (hb_dumps h)
    (hb_titles h) (hb_usage h) (hb_borrows h) (hb_next h).
Definition set_view (h : HubInner) (sessions : list SessionInfo) (file : LayoutFile) (layout : string) (dirty : bool) : HubInner :=
  mk_hub (hb_link h) sessions file layout dirty (hb_clients h) (hb_pending h) (hb_dumps h)
    (hb_titles h) (hb_usage h) (hb_borrows h) (hb_next h).
Definition set_clients (h : HubInner) (cs : list Client) : HubInner :=
  mk_hub (hb_link h) (hb_sessions h) (hb_file h) (hb_layout h) (hb_dirty h) cs (hb_pending h) (hb_dumps h)
    (hb_titles h) (hb_usage h) (hb_borrows h) (hb_next h).
Definition set_pending (h : HubInner) (p : gset string) : HubInner :=
  mk_hub (hb_link h) (hb_sessions h) (hb_file h) (hb_layout h) (hb_dirty h) (hb_clients h) p (hb_dumps h)
    (hb_titles h) (hb_usage h) (hb_borrows h) (hb_next h).
Definition set_dumps (h : HubInner) (d : gmap string (list Z)) : HubInner :=
  mk_hub (hb_link h) (hb_sessions h) (hb_file h) (hb_layout h) (hb_dirty h) (hb_clients h) (hb_pending h) d
    (hb_titles h) (hb_usage h) (hb_borrows h) (hb_next h).
Definition set_titles (h : HubInner) (t : gmap (string * option string) (list PendingTitle)) : HubInner :=
  mk_hub (hb_link h) (hb_sessions h) (hb_file h) (hb_layout h) (hb_dirty h) (hb_clients h) (hb_pending h) (hb_dumps h)
    t (hb_usage h) (hb_borrows h) (hb_next h).
Definition set_usage (h : HubInner) (u : option (list ProviderUsage)) : HubInner :=
  mk_hub (hb_link h) (hb_sessions h) (hb_file h) (hb_layout h) (hb_dirty h) (hb_clients h) (hb_pending h) (hb_dumps h)
    (hb_titles h) u (hb_borrows h) (hb_next h).
Definition set_borrows (h : HubInner) (b : gmap string Borrow) : HubInner :=
  mk_hub (hb_link h) (hb_sessions h) (hb_file h) (hb_layout h) (hb_dirty h) (hb_clients h) (hb_pending h) (hb_dumps h)
    (hb_titles h) (hb_usage h) b (hb_next h).
Definition set_next (h : HubInner) (n : Z) : HubInner :=
  mk_hub (hb_link h) (hb_sessions h) (hb_file h) (hb_layout h) (hb_dirty h) (hb_clients h) (hb_pending h) (hb_dumps h)
    (hb_titles h) (hb_usage h) (hb_borrows h) n.

(** [Hub::new] *)
Definition new_hub (file : LayoutFile) (oks : list bool) : HubInner :=
  mk_hub (mk_link false [] oks) [] file "" false [] ∅ ∅ ∅ None ∅ 0.

(** ** Writing to the daemon *)

Definition write_daemon (h : HubInner) (frame : Frame) : HubInner :=
  let l := hb_link h in
  if negb (ln_up l) then h
  else match ln_oks l with
  | false :: oks => set_link h (mk_link false (ln_sent l) oks)
  | oks => set_link h (mk_link true (frame :: ln_sent l) (tail oks))
  end.

Definition write_daemon_tracking (h : HubInner) (frame : Frame) : HubInner :=
  match frame with
  | F_Control (M_Attach _ name _ _ _) => write_daemon (set_pending h ({[name]} ∪ hb_pending h)) frame
  | _ => write_daemon h frame
  end.

Definition is_open (h : HubInner) (name : string) : bool :=
  existsb (fun c => bool_decide (cl_open c = Some name)) (hb_clients h).

Definition detach_if_unwanted (h : HubInner) (name : option string) : HubInner :=
  match name with
  | None => h
  | Some name => if is_open h name then h else write_daemon h (F_Control (M_Detach _ name))
  end.

(** ** Queues *)

(** [c.tx.try_send(msg)] *)
Definition try_send (c : Client) (msg : Out) : option Client :=
  if cl_gone c || (CLIENT_QUEUE_DEPTH <=? length (cl_queue c)) then None
  else Some (mk_client (cl_id c) (cl_open c) (cl_pi c) (cl_queue c ++ [msg]) (cl_taken c) (cl_gone c)).

(** [clients.retain]: who stays, and what the evicted had open. *)
Fixpoint retain (want : Client -> bool) (msg : Out) (cs : list Client) : list Client * list (option string) :=
  match cs with
  | [] => ([], [])
  | c :: cs' =>
      let '(kept, evicted) := retain want msg cs' in
      if negb (want c) then (c :: kept, evicted)
      else match try_send c msg with
      | Some c' => (c' :: kept, evicted)
      | None => (kept, cl_open c :: evicted)
      end
  end.

Definition queue (h : HubInner) (want : Client -> bool) (msg : Out) : HubInner :=
  let '(kept, evicted) := retain want msg (hb_clients h) in
  foldl detach_if_unwanted (set_clients h kept) evicted.

Definition viewing (name : string) (c : Client) : bool := bool_decide (cl_open c = Some name).
Definition watching_pi (name : string) (c : Client) : bool := bool_decide (cl_pi c = Some name).
Definition has_id (id : Z) (c : Client) : bool := (cl_id c =? id)%Z.
Definition everyone (c : Client) : bool := true.

Definition sessions_msg (sessions : list SessionInfo) (layout : string) : Out := Out_Text (P_Sessions _ sessions layout).
Definition error_msg (msg : string) : Out := Out_Text (P_Error _ msg).

Definition render_layout (file : LayoutFile) (sessions : list SessionInfo) : string := to_string (Mosaic.render file sessions).

(** ** Titles awaiting an answer *)

(** [retain] over the map, dropping the keys left with nothing. *)
Definition retain_titles (keep : PendingTitle -> bool) (t : gmap (string * option string) (list PendingTitle))
  : gmap (string * option string) (list PendingTitle) :=
  omap (fun rs => match List.filter keep rs with [] => None | rs' => Some rs' end) t.

Definition prune_title_pending (now : Z) (h : HubInner) : HubInner :=
  set_titles h (retain_titles (fun r => (Z.max 0 (now - pt_since r) <? TITLE_ACK_TIMEOUT)%Z) (hb_titles h)).

Definition track_title_pending (now : Z) (h : HubInner) (client : Z) (name : string) (title : option string)
    (requires_created : bool) : HubInner :=
  match validate_title title with
  | Err _ => h
  | Ok normalized =>
      let h := prune_title_pending now h in
      let requests := default [] (hb_titles h !! (name, normalized)) in
      let requests :=
        if existsb (fun r => (pt_client r =? client)%Z) requests then requests
        else requests ++ [mk_pending_title client (negb requires_created) now] in
      set_titles h (<[(name, normalized) := requests]> (hb_titles h))
  end.

Definition forget_title_client (h : HubInner) (client : Z) : HubInner :=
  set_titles h (retain_titles (fun r => negb (pt_client r =? client)%Z) (hb_titles h)).

Definition send_each (h : HubInner) (ids : list Z) (out : Out) : HubInner :=
  foldl (fun h id => queue h (has_id id) out) h ids.

Definition title_created_ack (now : Z) (h : HubInner) (name : string) : HubInner :=
  let h := prune_title_pending now h in
  let waiting := mjoin (map (fun e => if bool_decide (e.1.1 = name)
                                      then map pt_client (List.filter (fun r => negb (pt_created r)) e.2) else [])
                            (map_to_list (hb_titles h))) in
  let titles := map_imap (fun k rs => Some (if bool_decide (k.1 = name)
                                            then map (fun r => mk_pending_title (pt_client r) true (pt_since r)) rs else rs))
                         (hb_titles h) in
  send_each (set_titles h titles) (sort_ids waiting) (Out_Text (P_Created _ name)).

Definition title_set_ack (now : Z) (h : HubInner) (name : string) (title : option string) : HubInner :=
  let h := prune_title_pending now h in
  match hb_titles h !! (name, title) with
  | None => h
  | Some requests =>
      let remaining := List.filter (fun r => negb (pt_created r)) requests in
      let clients := map pt_client (List.filter pt_created requests) in
      let titles := delete (name, title) (hb_titles h) in
      let titles := match remaining with [] => titles | _ => <[(name, title) := remaining]> titles end in
      send_each (set_titles h titles) (sort_ids clients) (Out_Text (P_TitleSet _ name title))
  end.

(** ** Borrowed grids *)

Definition session (h : HubInner) (name : string) : option SessionInfo :=
  find_first (fun s => bool_decide (si_name s = name)) (hb_sessions h).

Definition note_open (h : HubInner) (id : Z) (name : string) : HubInner :=
  match hb_borrows h !! name with
  | Some _ => h
  | None =>
      match session h name with
      | None => h
      | Some info =>
          if (si_cols info =? 0)%Z || (si_rows info =? 0)%Z then h
          else set_borrows h (<[name := mk_borrow id (si_cols info, si_rows info) None]> (hb_borrows h))
      end
  end.

Definition note_resize (h : HubInner) (id : Z) (name : string) (cols rows : Z) : HubInner :=
  match hb_borrows h !! name with
  | Some b =>
      if (bw_client b =? id)%Z
      then set_borrows h (<[name := mk_borrow id (bw_prior b) (Some (cols, rows))]> (hb_borrows h)) else h
  | None => h
  end.

Definition release_borrow (h : HubInner) (id : Z) (name : string) : HubInner :=
  match hb_borrows h !! name with
  | None => h
  | Some b =>
      if negb (bw_client b =? id)%Z then h
      else
        let h := set_borrows h (delete name (hb_borrows h)) in
        match bw_set b, session h name with
        | Some set_, Some info =>
            if bool_decide ((si_cols info, si_rows info) <> set_) then h
            else if bool_decide ((si_cols info, si_rows info) = bw_prior b) then h
            else write_daemon h (F_Control (M_Resize _ name (bw_prior b).1 (bw_prior b).2))
        | _, _ => h
        end
  end.

Definition release_all (h : HubInner) (id : Z) : HubInner :=
  let names := map fst (List.filter (fun e => (bw_client e.2 =? id)%Z) (map_to_list (hb_borrows h))) in
  foldl (fun h n => release_borrow h id n) h names.

(** ** Clients come and go *)

Definition add_client (h : HubInner) : HubInner * Z :=
  let id := hb_next h in
  let h := set_next h (id + 1) in
  let first := sessions_msg (hb_sessions h) (hb_layout h) in
  let greeting := if ln_up (hb_link h) then [first] else [first; error_msg "daemon unreachable"] in
  (set_clients h (hb_clients h ++ [mk_client id None None greeting [] false]), id).

Definition position_of (h : HubInner) (id : Z) : option nat := position (has_id id) (hb_clients h).

Definition remove_client (h : HubInner) (id : Z) : HubInner :=
  match position_of h id with
  | None => h
  | Some pos =>
      let h := forget_title_client (release_all h id) id in
      let open := c ← hb_clients h !! pos; cl_open c in
      detach_if_unwanted (set_clients h (delete pos (hb_clients h))) open
  end.

(** ** A browser's message *)

Definition command_name (msg : BrowserMsg) : option string :=
  match msg with
  | B_PiPrompt name _ _ | B_PiPromptWithAttachments name _ _ _ _ | B_PiUploadBegin name _ _ _ _
  | B_PiUploadChunk name _ _ _ _ | B_PiUploadFinish name _ _ | B_PiUploadCancel name _ _
  | B_PiSubagentStatus name _ | B_PiSubagentTranscript name _ _ _ | B_PiSubagentControl name _ _ _ _ _ _
  | B_PiAbort name | B_PiThinking name _ => Some name
  | _ => None
  end.

Definition next_pi (msg : BrowserMsg) (pi : option string) : option string :=
  match msg with
  | B_PiOpen name => Some name
  | B_PiClose name => if bool_decide (pi = Some name) then None else pi
  | _ => pi
  end.

Definition next_open (msg : BrowserMsg) (previous : option string) : option string :=
  match msg with
  | B_Open name => Some name
  | B_Close _ | B_PiOpen _ => None
  | _ => previous
  end.

Definition note_titles (now : Z) (h : HubInner) (id : Z) (msg : BrowserMsg) : HubInner :=
  match msg with
  | B_Create name _ _ (Some title) => track_title_pending now h id name (Some title) true
  | B_SetTitle name title => track_title_pending now h id name title false
  | _ => h
  end.

Definition note_borrows (h : HubInner) (id : Z) (previous : option string) (msg : BrowserMsg) : HubInner :=
  match msg with
  | B_Open name =>
      let h := if bool_decide (previous <> Some name) then release_all h id else h in
      note_open h id name
  | B_Close name => release_borrow h id name
  | B_Release => release_all h id
  | B_Resize name cols rows => note_resize h id name cols rows
  | _ => h
  end.

(** The loop over the control messages. *)
Definition send_control (id : Z) (h : HubInner) (control : ControlMsg Value) : HubInner :=
  match control with
  | M_Detach _ name => if is_open h name then h else write_daemon_tracking h (F_Control control)
  | M_DumpBacklog _ name =>
      let asked := default [] (hb_dumps h !! name) in
      write_daemon_tracking (set_dumps h (<[name := asked ++ [id]]> (hb_dumps h))) (F_Control control)
  | _ => write_daemon_tracking h (F_Control control)
  end.

Definition handle_msg (now : Z) (h : HubInner) (id : Z) (msg : BrowserMsg) : HubInner :=
  match position_of h id with
  | None => h
  | Some pos =>
      let client := hb_clients h !! pos in
      let previous := client ≫= cl_open in
      let refused := match command_name msg with
                     | Some name => bool_decide (client ≫= cl_pi <> Some name)
                     | None => false
                     end in
      if refused then queue h (has_id id) (error_msg "Pi command does not match this semantic pane")
      else
        let controls := map_browser_msg is_dir msg previous (hb_sessions h) in
        let silent := match msg with B_Release | B_PiClose _ => true | _ => false end in
        if match controls with [] => negb silent | _ => false end then queue h (has_id id) (error_msg "no such session")
        else
          let h := note_borrows (note_titles now h id msg) id previous msg in
          let moved c := mk_client (cl_id c) (next_open msg previous) (next_pi msg (cl_pi c))
                           (cl_queue c) (cl_taken c) (cl_gone c) in
          let h := set_clients h (alter moved pos (hb_clients h)) in
          foldl (send_control id) h controls
  end.

Definition handle_browser (now : Z) (h : HubInner) (id : Z) (t : string) : HubInner :=
  match parse_browser_msg t with Some msg => handle_msg now h id msg | None => h end.

Definition input (h : HubInner) (id : Z) (bytes : list byte) : HubInner :=
  match c ← find_first (has_id id) (hb_clients h); cl_open c with
  | Some name => write_daemon h (F_Data name bytes)
  | None => h
  end.

(** ** A frame of the daemon *)

Definition broadcast (h : HubInner) (p : Push) : HubInner := queue h everyone (Out_Text p).

Definition show_sessions (h : HubInner) : HubInner := queue h everyone (sessions_msg (hb_sessions h) (hb_layout h)).

Definition on_data (h : HubInner) (name : string) (bytes : list byte) : HubInner :=
  let h :=
    if bool_decide (name ∈ hb_pending h)
    then queue (set_pending h (hb_pending h ∖ {[name]})) (viewing name) (Out_Text (P_Backlog _ name)) else h in
  queue h (viewing name) (Out_Binary bytes).

Definition on_backlog (h : HubInner) (name : string) (bytes : list byte) : HubInner :=
  match hb_dumps h !! name with
  | None => h
  | Some ids =>
      foldl (fun h id => queue (queue h (has_id id) (Out_Text (P_BacklogReply _ name))) (has_id id) (Out_Binary bytes))
        (set_dumps h (delete name (hb_dumps h))) ids
  end.

Definition on_sessions (h : HubInner) (sessions : list SessionInfo) : HubInner :=
  if bool_decide (hb_sessions h = sessions) && negb (hb_dirty h) then h
  else show_sessions (set_view h sessions (hb_file h) (render_layout (hb_file h) sessions) false).

Definition on_sessions_changed (h : HubInner) (added : list SessionInfo) (removed : list string) : HubInner :=
  let kept := List.filter (fun s => negb (bool_decide (si_name s ∈ removed))
                                    && negb (existsb (fun a => bool_decide (si_name a = si_name s)) added)) (hb_sessions h) in
  let sessions := kept ++ added in
  show_sessions (set_view h sessions (hb_file h) (render_layout (hb_file h) sessions) (hb_dirty h)).

Definition on_frame (now : Z) (h : HubInner) (frame : Frame) : HubInner :=
  match frame with
  | F_Data name bytes => on_data h name bytes
  | F_Backlog name bytes => on_backlog h name bytes
  | F_Control msg =>
      match msg with
      | M_Created _ name => title_created_ack now h name
      | M_TitleSet _ name title => title_set_ack now h name title
      | M_Sessions _ sessions => on_sessions h sessions
      | M_SessionsChanged _ added removed => on_sessions_changed h added removed
      | M_Usage _ providers => set_usage h (Some providers)
      | M_Exit _ name code => queue h (viewing name) (Out_Text (P_Exit _ name code))
      | M_Error _ m => queue h everyone (error_msg m)
      | M_PiEvent _ name seq event => queue h (watching_pi name) (Out_Text (P_PiEvent _ name seq event))
      | M_PiBridgeStatus _ name available => queue h (watching_pi name) (Out_Text (P_PiStatus _ name available))
      | M_Activity _ name => broadcast h (P_Activity _ name)
      | M_MemoryStat _ name rss_kb growing => broadcast h (P_Memory _ name rss_kb growing)
      | M_MemoryPressure _ level current_kb budget_kb blocked =>
          broadcast h (P_MemoryPressure _ level current_kb budget_kb blocked)
      | M_ResourcePressure _ level causes blocked => broadcast h (P_ResourcePressure _ level causes blocked)
      | _ => h
      end
  end.

(** ** The daemon link ([run_daemon_link]) and the polls of [serve] *)

Definition names_of (f : Client -> option string) (h : HubInner) : list string :=
  dedup (sort_by string_leb (omap f (hb_clients h))).

Definition link_up (h : HubInner) : HubInner :=
  let h := set_link h (mk_link true [] (ln_oks (hb_link h))) in
  let h := write_daemon h (F_Control (M_WatchSessions _)) in
  let h := write_daemon h (F_Control (M_WatchMemoryPressure _ 2)) in
  let pi_sessions := names_of cl_pi h in
  let h := match pi_sessions with [] => h | _ => write_daemon h (F_Control (M_WatchPiEvents _ 1)) end in
  let h := foldl (fun h name => write_daemon h (F_Control (M_PiBridgeCommand _ name Pi_Snapshot))) h pi_sessions in
  foldl (fun h name => write_daemon_tracking h (F_Control (M_Attach _ name false false None))) h (names_of cl_open h).

Definition unreachable (h : HubInner) : HubInner := queue h everyone (error_msg "daemon unreachable").

(** After [read_loop] has returned. *)
Definition link_down (h : HubInner) : HubInner :=
  let h := set_link h (mk_link false (ln_sent (hb_link h)) (ln_oks (hb_link h))) in
  let h := set_titles (set_dumps (set_pending (set_view h [] (hb_file h) "" (hb_dirty h)) ∅) ∅) ∅ in
  unreachable (queue h everyone (sessions_msg [] "")).

Definition poll (now : Z) (h : HubInner) (file : LayoutFile) : HubInner :=
  let h := prune_title_pending now h in
  let rendered := render_layout file (hb_sessions h) in
  let moved := bool_decide (rendered <> hb_layout h) in
  let h := set_view h (hb_sessions h) file (if moved then rendered else hb_layout h) (moved || hb_dirty h) in
  write_daemon h (F_Control (M_ListSessionsDetailed _)).

Definition ask_usage (h : HubInner) (refresh : bool) : HubInner :=
  write_daemon h (F_Control (if refresh then M_RefreshUsage _ else M_GetUsage _)).

(** ** Runs *)

(** A writer thread takes a message, or ends. *)
Definition take_one (c : Client) : Client :=
  match cl_queue c with
  | m :: q => mk_client (cl_id c) (cl_open c) (cl_pi c) q (cl_taken c ++ [m]) (cl_gone c)
  | [] => c
  end.
Definition writer_ends (c : Client) : Client :=
  mk_client (cl_id c) (cl_open c) (cl_pi c) (cl_queue c) (cl_taken c) true.

(** [st_reading]: the link's thread is in [read_loop]; a failed write closes the
    connection, and what had arrived before is still read.  [st_seen], for the
    record, holds all the daemon has said of sessions. *)
Record State := mk_state { st_hub : HubInner; st_reading : bool; st_seen : list SessionInfo }.

Definition frame_sessions (frame : Frame) : list SessionInfo :=
  match frame with
  | F_Control (M_Sessions _ sessions) => sessions
  | F_Control (M_SessionsChanged _ added _) => added
  | _ => []
  end.

Definition with_hub (s : State) (h : HubInner) : State := mk_state h (st_reading s) (st_seen s).

Inductive step (s : State) : State -> Prop :=
| step_add : step s (with_hub s (add_client (st_hub s)).1)
| step_remove id : step s (with_hub s (remove_client (st_hub s) id))
| step_browser now id t : step s (with_hub s (handle_browser now (st_hub s) id t))
| step_input id bytes : step s (with_hub s (input (st_hub s) id bytes))
| step_frame now frame :
    st_reading s = true ->
    step s (mk_state (on_frame now (st_hub s) frame) true (frame_sessions frame ++ st_seen s))
| step_up : st_reading s = false -> step s (mk_state (link_up (st_hub s)) true (st_seen s))
| step_down : st_reading s = true -> step s (mk_state (link_down (st_hub s)) false (st_seen s))
| step_unreachable : st_reading s = false -> step s (with_hub s (unreachable (st_hub s)))
| step_poll now file : step s (with_hub s (poll now (st_hub s) file))
| step_usage refresh : step s (with_hub s (ask_usage (st_hub s) refresh))
| step_take pos : step s (with_hub s (set_clients (st_hub s) (alter take_one pos (hb_clients (st_hub s)))))
| step_gone pos : step s (with_hub s (set_clients (st_hub s) (alter writer_ends pos (hb_clients (st_hub s))))).

Inductive run : State -> State -> Prop :=
| run_nil s : run s s
| run_snoc s s' s'' : run s s' -> step s' s'' -> run s s''.

Definition initial (file : LayoutFile) (oks : list bool) : State := mk_state (new_hub file oks) false [].

(** ** What the hub says to the daemon *)

(** A grid the daemon gave a session. *)
Definition had_grid (seen : list SessionInfo) (n : string) (cols rows : Z) : Prop :=
  exists s, s ∈ seen /\ si_name s = n /\ si_cols s = cols /\ si_rows s = rows /\ (cols <> 0 /\ rows <> 0)%Z.

(** The control messages a browser can bring about, by what the daemon has said of
    sessions. *)
Definition permitted (seen : list SessionInfo) (m : ControlMsg Value) : Prop :=
  match m with
  | M_Attach _ n raw preview resume => is_live seen n /\ raw = false /\ preview = false /\ resume = None
  | M_Detach _ n | M_Focus _ n | M_SetTitle _ n _ | M_Kill _ n | M_DumpBacklog _ n => is_live seen n
  | M_Create _ n cwd kind _ => is_Some (parse_pane_name n) /\ kind ∈ CREATE_KINDS /\ is_dir cwd = true
  | M_Rename _ from to => is_live seen from /\ is_Some (parse_pane_name to)
  | M_Suspend _ n | M_Resume _ n => is_kind AGENT_KINDS seen n
  | M_Resize _ n cols rows =>
      is_live seen n /\ ((10 <= cols <= 1000 /\ 4 <= rows <= 300)%Z \/ had_grid seen n cols rows)
  | M_WatchPiEvents _ version => version = 1%Z
  | M_PiBridgeCommand _ n command => is_kind ["pi"] seen n /\ validate_pi_command command = Ok tt
  | M_WatchSessions _ | M_ListSessionsDetailed _ | M_GetUsage _ | M_RefreshUsage _ => True
  | M_WatchMemoryPressure _ version => version = 2%Z
  | _ => False
  end.

Definition spoken (seen : list SessionInfo) (f : Frame) : Prop :=
  match f with
  | F_Control m => permitted seen m
  | F_Data n _ => is_live seen n
  | F_Backlog _ _ => False
  end.

(** Whether the daemon sends a session's output here: the last thing said of it. *)
Fixpoint attached (n : string) (sent : list Frame) : bool :=
  match sent with
  | F_Control (M_Attach _ m _ _ _) :: sent' => bool_decide (m = n) || attached n sent'
  | F_Control (M_Detach _ m) :: sent' => negb (bool_decide (m = n)) && attached n sent'
  | _ :: sent' => attached n sent'
  | [] => false
  end.

Definition client_ok (seen : list SessionInfo) (c : Client) : Prop :=
  (forall n, cl_open c = Some n -> is_live seen n) /\ (forall n, cl_pi c = Some n -> is_kind ["pi"] seen n).

(** [except] are sessions about to be attached. *)
Record core_but (except : list string) (seen : list SessionInfo) (h : HubInner) : Prop := mk_core {
  co_sent : Forall (spoken seen) (ln_sent (hb_link h));
  co_clients : Forall (client_ok seen) (hb_clients h);
  co_attached : ln_up (hb_link h) = true -> forall c n, c ∈ hb_clients h -> cl_open c = Some n ->
    n ∉ except -> attached n (ln_sent (hb_link h)) = true;
  co_sessions : hb_sessions h ⊆ seen;
  co_borrows : map_Forall (fun n b => is_live seen n /\ had_grid seen n (bw_prior b).1 (bw_prior b).2) (hb_borrows h) }.
Abbreviation core := (core_but []).

(** Who and where a client is; its queue apart. *)
Definition same_place (c c' : Client) : Prop := cl_id c' = cl_id c /\ cl_open c' = cl_open c /\ cl_pi c' = cl_pi c.
Definition placed (cs : list Client) (c' : Client) : Prop := exists c, c ∈ cs /\ same_place c c'.

Lemma retain_placed want msg cs :
  Forall (placed cs) (retain want msg cs).1
  /\ Forall (fun o => exists c, c ∈ cs /\ cl_open c = o) (retain want msg cs).2.
Proof.
  induction cs as [|c cs IH]; [done|]. simpl. destruct (retain want msg cs) as [kept evicted]. destruct IH as [IHk IHe]. simpl in *.
  assert (Hk : Forall (placed (c :: cs)) kept).
  { eapply Forall_impl; [exact IHk|]. intros c' (c0 & Hin & Hs). exists c0. split; [by constructor|done]. }
  assert (He : Forall (fun o => exists c0, c0 ∈ c :: cs /\ cl_open c0 = o) evicted).
  { eapply Forall_impl; [exact IHe|]. intros o (c0 & Hin & Hs). exists c0. split; [by constructor|done]. }
  destruct (want c); simpl; [|split; [constructor; [|done]|done]; exists c; by repeat constructor].
  unfold try_send. destruct (_ || _); simpl; split; try done; constructor; try done; exists c; by repeat constructor.
Qed.

Lemma is_open_spec h n : is_open h n = true <-> exists c, c ∈ hb_clients h /\ cl_open c = Some n.
Proof.
  unfold is_open. rewrite existsb_exists. setoid_rewrite <- list_elem_of_In.
  split; intros (c & Hc & Hn); exists c; split; try done; [by apply bool_decide_eq_true in Hn|by apply bool_decide_eq_true].
Qed.

Lemma elem_of_delete {A} (x : A) (i : nat) (l : list A) : x ∈ delete i l -> x ∈ l.
Proof.
  revert i. induction l as [|y l IH]; intros [|i]; simpl; [done..|by constructor|].
  intros [->|Hin]%elem_of_cons; [by constructor|constructor; by eapply IH].
Qed.

Lemma elem_of_alter {A} (f : A -> A) (x : A) (i : nat) (l : list A) : x ∈ alter f i l -> x ∈ l \/ exists y, l !! i = Some y /\ x = f y.
Proof.
  revert i. induction l as [|y l IH]; intros [|i]; simpl; [by left..| |].
  - intros [->|Hin]%elem_of_cons; [right; by exists y|left; by constructor].
  - intros [->|Hin]%elem_of_cons; [left; by constructor|]. destruct (IH i Hin) as [?|?]; [left; by constructor|by right].
Qed.

Section Core.
Context (seen : list SessionInfo).

(** A frame that may be said, and takes no viewer's output away. *)
Definition sayable (h : HubInner) (f : Frame) : Prop :=
  spoken seen f /\ match f with F_Control (M_Detach _ n) => is_open h n = false | _ => True end.

Lemma core_write ex h f : core_but ex seen h -> sayable h f -> core_but ex seen (write_daemon h f).
Proof.
  intros [Hs Hc Ha Hss Hb] [Hf Hd]. unfold write_daemon. destruct (ln_up (hb_link h)) eqn:Hup; simpl; [|by constructor; rewrite ?Hup].
  assert (Hnew : forall c n, c ∈ hb_clients h -> cl_open c = Some n -> n ∉ ex -> attached n (f :: ln_sent (hb_link h)) = true).
  { intros c n Hin Ho Hex. specialize (Ha eq_refl c n Hin Ho Hex). destruct f as [m| |]; try done.
    destruct m; try done; simpl; rewrite Ha, ?orb_true_r; try done. case_bool_decide; [subst|done].
    exfalso. enough (is_open h n = true) by congruence. apply is_open_spec. by exists c. }
  destruct (ln_oks (hb_link h)) as [|[] oks]; constructor; simpl; try done; by constructor.
Qed.

Lemma core_clients h cs : core seen h -> Forall (placed (hb_clients h)) cs -> core seen (set_clients h cs).
Proof.
  intros [Hs Hc Ha Hss Hb] Hp. rewrite Forall_forall in Hc, Hp. constructor; simpl; try done.
  - apply Forall_forall. intros c' Hin. destruct (Hp c' Hin) as (c & Hcin & _ & Ho & Hpi). unfold client_ok. rewrite Ho, Hpi. by apply Hc.
  - intros Hup c' n Hin Hn Hex. destruct (Hp c' Hin) as (c & Hcin & _ & Ho & _). rewrite Ho in Hn. by apply (Ha Hup c).
Qed.

(** What else the hub keeps is not its business with the daemon. *)
Lemma core_set ex h p d t u n :
  core_but ex seen h ->
  core_but ex seen (set_pending h p) /\ core_but ex seen (set_dumps h d) /\ core_but ex seen (set_titles h t)
  /\ core_but ex seen (set_usage h u) /\ core_but ex seen (set_next h n).
Proof. intros []. split_and!; by constructor. Qed.

Lemma core_detach h0 h c :
  core seen h0 -> c ∈ hb_clients h0 -> core seen h -> core seen (detach_if_unwanted h (cl_open c)).
Proof.
  intros H0 Hin Hh. destruct (cl_open c) as [n|] eqn:Ho; simpl; [|done]. destruct (is_open h n) eqn:E; [done|].
  apply core_write; [done|]. split; [|done]. simpl. pose proof (co_clients _ _ _ H0) as Hc. rewrite Forall_forall in Hc. by apply (Hc c Hin).
Qed.

Lemma core_queue h want msg : core seen h -> core seen (queue h want msg).
Proof.
  intros Hi. unfold queue. pose proof (retain_placed want msg (hb_clients h)) as [Hk He].
  destruct (retain want msg (hb_clients h)) as [kept evicted]. simpl in *.
  assert (Hc : core seen (set_clients h kept)) by by apply core_clients.
  revert Hc. generalize (set_clients h kept). induction He as [|o os (c & Hin & <-) _ IH]; intros h' Hh; [done|]. simpl.
  apply IH. by apply (core_detach h).
Qed.

Lemma core_send_each h ids out : core seen h -> core seen (send_each h ids out).
Proof. unfold send_each. revert h. induction ids as [|id ids IH]; intros h Hi; [done|]. simpl. by apply IH, core_queue. Qed.

Lemma core_tracking ex h f : core_but ex seen h -> sayable h f -> core_but ex seen (write_daemon_tracking h f).
Proof.
  intros Hh Hf. unfold write_daemon_tracking. repeat case_match; try by apply core_write.
  apply core_write; [by apply (core_set ex h _ ∅ ∅ None 0)|exact Hf].
Qed.

Lemma core_titles ex h t : core_but ex seen h -> core_but ex seen (set_titles h t).
Proof. intros Hh. by apply (core_set ex h ∅ ∅ t None 0). Qed.
Lemma core_dumps ex h d : core_but ex seen h -> core_but ex seen (set_dumps h d).
Proof. intros Hh. by apply (core_set ex h ∅ d ∅ None 0). Qed.
Lemma core_pending ex h p : core_but ex seen h -> core_but ex seen (set_pending h p).
Proof. intros Hh. by apply (core_set ex h p ∅ ∅ None 0). Qed.

Lemma core_view h sessions file layout dirty :
  core seen h -> sessions ⊆ seen -> core seen (set_view h sessions file layout dirty).
Proof. intros [] Hs. by constructor. Qed.

Lemma core_set_borrows h b :
  core seen h -> map_Forall (fun n b => is_live seen n /\ had_grid seen n (bw_prior b).1 (bw_prior b).2) b ->
  core seen (set_borrows h b).
Proof. intros [] Hb. by constructor. Qed.

Lemma session_seen h n info : core seen h -> session h n = Some info -> info ∈ seen /\ si_name info = n.
Proof.
  intros Hh Hs. unfold session in Hs. apply find_first_Some in Hs as [Hin Hn]. apply bool_decide_eq_true in Hn.
  split; [|done]. by apply (co_sessions _ _ _ Hh).
Qed.

Lemma core_note_open h id n : core seen h -> core seen (note_open h id n).
Proof.
  intros Hh. unfold note_open. destruct (hb_borrows h !! n); [done|]. destruct (session h n) as [info|] eqn:Hs; [|done].
  destruct (_ || _) eqn:Hz; [done|]. apply (session_seen h n info Hh) in Hs as [Hin Hn].
  apply core_set_borrows; [done|]. apply map_Forall_insert_2; [|apply Hh]. apply orb_false_iff in Hz as [Hzc Hzr].
  simpl. split; [by exists info|]. exists info. split_and!; try done; lia.
Qed.

Lemma core_note_resize h id n cols rows : core seen h -> core seen (note_resize h id n cols rows).
Proof.
  intros Hh. unfold note_resize. destruct (hb_borrows h !! n) as [b|] eqn:Hb; [|done]. case_match; [|done].
  apply core_set_borrows; [done|]. apply map_Forall_insert_2; [|apply Hh]. simpl. by apply (co_borrows _ _ _ Hh n b).
Qed.

Lemma core_release_borrow h id n : core seen h -> core seen (release_borrow h id n).
Proof.
  intros Hh. unfold release_borrow. destruct (hb_borrows h !! n) as [b|] eqn:Hb; [|done]. case_match; [done|].
  destruct (co_borrows _ _ _ Hh n b Hb) as [Hlive Hgrid].
  assert (Hd : core seen (set_borrows h (delete n (hb_borrows h)))).
  { apply core_set_borrows; [done|]. by apply map_Forall_delete, Hh. }
  repeat case_match; try done. apply core_write; [done|]. split; [|done]. simpl. split; [done|by right].
Qed.

Lemma core_release_all h id : core seen h -> core seen (release_all h id).
Proof.
  unfold release_all. generalize (map fst (List.filter (fun e => (bw_client e.2 =? id)%Z) (map_to_list (hb_borrows h)))).
  intros ns. revert h. induction ns as [|n ns IH]; intros h Hh; [done|]. simpl. by apply IH, core_release_borrow.
Qed.

Lemma core_fold {A} (f : HubInner -> A -> HubInner) (l : list A) h :
  (forall h a, a ∈ l -> core seen h -> core seen (f h a)) -> core seen h -> core seen (foldl f h l).
Proof.
  revert h. induction l as [|a l IH]; intros h Hf Hh; [done|]. simpl. apply IH.
  - intros h' a' Ha'. apply Hf. by constructor.
  - apply Hf; [by constructor|done].
Qed.
End Core.

Create HintDb hub.
#[local] Hint Resolve core_queue core_send_each core_titles core_dumps core_pending core_note_open core_note_resize
  core_release_borrow core_release_all core_write core_tracking core_detach : hub.

Lemma core_track_title seen now h id name title created : core seen h -> core seen (track_title_pending now h id name title created).
Proof. intros Hh. unfold track_title_pending, prune_title_pending. destruct (validate_title title); eauto with hub. Qed.

Lemma core_remove_client seen h id : core seen h -> core seen (remove_client h id).
Proof.
  intros Hh. unfold remove_client. destruct (position_of h id) as [pos|] eqn:Hp; [|done].
  set (h' := forget_title_client _ _). assert (Hh' : core seen h') by (unfold h', forget_title_client; eauto with hub).
  assert (Hd : core seen (set_clients h' (delete pos (hb_clients h')))).
  { apply core_clients; [done|]. apply Forall_forall. intros c Hc. exists c. split; [|done]. by eapply elem_of_delete. }
  destruct (hb_clients h' !! pos) as [c|] eqn:Hc; simpl; [|done].
  apply (core_detach seen h'); [done|by eapply list_elem_of_lookup_2|done].
Qed.

Lemma core_add_client seen h : core seen h -> core seen (add_client h).1.
Proof.
  intros [Hs Hc Ha Hss Hb]. unfold add_client. constructor; simpl; try done.
  - apply Forall_app. split; [done|]. by apply Forall_singleton.
  - intros Hup c n [Hin| ->%list_elem_of_singleton]%elem_of_app Hn Hex; [by apply (Ha Hup c)|done].
Qed.

(** The controls made of a message may be said once its sender has moved. *)
Lemma admissible_spoken seen sessions open m :
  sessions ⊆ seen -> (forall n, open = Some n -> is_live seen n) ->
  admissible is_dir sessions open m -> permitted seen m.
Proof.
  intros Hs Ho. assert (Hl : forall n, is_live sessions n -> is_live seen n).
  { intros n (x & Hx & Hn). exists x. split; [by apply Hs|done]. }
  assert (Hk : forall ks n, is_kind ks sessions n -> is_kind ks seen n).
  { intros ks n (x & Hx & Hn). exists x. split; [by apply Hs|done]. }
  destruct m; simpl; try done; try apply Hl; try apply Hk; intros Hm; destruct_and?; split_and?; try done; auto.
  destruct Hm as [Hm|Hm]; auto.
Qed.

Lemma core_send_control seen ex id h m :
  core_but ex seen h -> permitted seen m -> core_but ex seen (send_control id h m).
Proof.
  intros Hh Hm. unfold send_control.
  destruct m; try (apply core_tracking; [auto with hub|split; done]).
  destruct (is_open h name) eqn:E; [done|]. apply core_tracking; [done|]. split; done.
Qed.

(** The sender is moved after its name is checked and before the controls are sent: it
    then no longer views what it leaves, and is attached to what it opens. *)
Lemma core_moved seen h pos c (f : Client -> Client) ex :
  core seen h -> hb_clients h !! pos = Some c -> client_ok seen (f c) ->
  (cl_open (f c) = None \/ cl_open (f c) = cl_open c \/ exists n, cl_open (f c) = Some n /\ n ∈ ex) ->
  core_but ex seen (set_clients h (alter f pos (hb_clients h))).
Proof.
  intros [Hs Hc Ha Hss Hb] Hpos Hf Hsame. constructor; simpl; try done.
  - apply Forall_forall. intros c' [Hin|(y & Hy & ->)]%elem_of_alter; [by rewrite Forall_forall in Hc; apply Hc|].
    by replace y with c by congruence.
  - intros Hup c' n [Hin|(y & Hy & ->)]%elem_of_alter Hn Hex; [apply (Ha Hup c'); [done..|apply not_elem_of_nil]|].
    replace y with c in * by congruence. destruct Hsame as [E|[E|(n' & E & Hin')]]; rewrite E in Hn; [done| |injection Hn as ->; by destruct (Hex Hin')].
    apply (Ha Hup c); [by eapply list_elem_of_lookup_2|done|apply not_elem_of_nil].
Qed.

Lemma core_attach seen ex h n : core_but (n :: ex) seen h -> is_live seen n ->
  core_but ex seen (write_daemon_tracking h (F_Control (M_Attach _ n false false None))).
Proof.
  intros Hh Hl. unfold write_daemon_tracking. set (h' := set_pending _ _).
  assert (core_but (n :: ex) seen h') as Hh' by (destruct Hh; by constructor). clearbody h'. clear h Hh.
  assert (Hw : core_but (n :: ex) seen (write_daemon h' (F_Control (M_Attach _ n false false None)))) by (by apply core_write).
  destruct Hw as [Hs Hc Ha Hss Hb]. constructor; try done. intros Hup c m Hin Hm Hex.
  destruct (decide (m = n)) as [->|Hne]; [|by apply (Ha Hup c m Hin Hm); rewrite not_elem_of_cons]. clear -Hup.
  unfold write_daemon in *. destruct (ln_up (hb_link h')) eqn:E; simpl in *; [|congruence].
  destruct (ln_oks (hb_link h')) as [|[] oks]; simpl in *; try done; by rewrite bool_decide_true.
Qed.

Lemma note_titles_shape now h id msg : exists t, note_titles now h id msg = set_titles h t.
Proof.
  assert (Hs : h = set_titles h (hb_titles h)) by by destruct h.
  assert (Ht : forall n t b, exists t', track_title_pending now h id n t b = set_titles h t').
  { intros. unfold track_title_pending, prune_title_pending. destruct (validate_title t); eexists; [reflexivity|exact Hs]. }
  destruct msg; try (exists (hb_titles h); exact Hs); [destruct title; [apply Ht|by exists (hb_titles h)]|apply Ht].
Qed.

(** Notes of titles and borrows leave the clients where they are. *)
Lemma write_daemon_clients h f : hb_clients (write_daemon h f) = hb_clients h.
Proof. unfold write_daemon. by repeat case_match. Qed.

Lemma release_borrow_clients h id n : hb_clients (release_borrow h id n) = hb_clients h.
Proof. unfold release_borrow. repeat case_match; try done. by rewrite write_daemon_clients. Qed.

Lemma release_all_clients h id : hb_clients (release_all h id) = hb_clients h.
Proof.
  unfold release_all. generalize (map fst (List.filter (fun e => (bw_client e.2 =? id)%Z) (map_to_list (hb_borrows h)))).
  intros ns. revert h. induction ns as [|n ns IH]; intros h; [done|]. simpl. by rewrite IH, release_borrow_clients.
Qed.

Lemma note_borrows_clients h id previous msg : hb_clients (note_borrows h id previous msg) = hb_clients h.
Proof.
  assert (Hno : forall h n, hb_clients (note_open h id n) = hb_clients h) by (intros; unfold note_open; by repeat case_match).
  destruct msg; simpl; try done; rewrite ?Hno, ?release_borrow_clients, ?release_all_clients; try done.
  - case_bool_decide; [by rewrite release_all_clients|done].
  - unfold note_resize. by repeat case_match.
Qed.

Lemma core_note_borrows seen h id previous msg : core seen h -> core seen (note_borrows h id previous msg).
Proof. intros Hh. destruct msg; simpl; try done; repeat case_match; eauto with hub. Qed.

Lemma map_open_shape open sessions n :
  map_browser_msg (Value := Value) is_dir (B_Open n) open sessions = [] \/
  (is_live sessions n /\
   map_browser_msg (Value := Value) is_dir (B_Open n) open sessions =
     (match open with Some prev => if bool_decide (prev <> n) then [M_Detach Value prev] else [] | None => [] end)
     ++ [M_Attach _ n false false None]).
Proof. simpl. destruct (live sessions n) eqn:Hl; simpl; [right|by left]. split; [by apply live_spec|done]. Qed.

Lemma core_controls seen ex id h ms :
  core_but ex seen h -> Forall (permitted seen) ms -> core_but ex seen (foldl (send_control id) h ms).
Proof. revert h. induction ms as [|m ms IH]; intros h Hh Hm; [done|]. apply Forall_cons in Hm as [Hm Hms]. by apply IH; [apply core_send_control|]. Qed.

Lemma core_handle_msg seen now h id msg : core seen h -> core seen (handle_msg now h id msg).
Proof.
  intros Hh. unfold handle_msg. destruct (position_of h id) as [pos|] eqn:Hp; [|done].
  match goal with |- core_but _ _ (if ?b then _ else _) => destruct b; [by apply core_queue|] end.
  destruct (hb_clients h !! pos) as [c|] eqn:Hpos; simpl in *; [|exfalso].
  2: { unfold position_of in Hp. apply position_Some in Hp as (x & Hx & _). congruence. }
  assert (Hcl : client_ok seen c).
  { pose proof (co_clients _ _ _ Hh) as Hc. rewrite Forall_forall in Hc. apply Hc. by eapply list_elem_of_lookup_2. }
  destruct Hcl as [Hopen Hpi].
  set (controls := map_browser_msg is_dir msg (cl_open c) (hb_sessions h)) in *.
  assert (Hper : Forall (permitted seen) controls).
  { eapply Forall_impl; [apply map_admissible|]. intros m. apply admissible_spoken; [apply Hh|done]. }
  match goal with |- core_but _ _ (if ?b then _ else _) => destruct b eqn:Hsilent; [by apply core_queue|] end.
  set (h1 := note_borrows _ _ _ _).
  assert (Hh1 : core seen h1).
  { unfold h1. apply core_note_borrows. destruct (note_titles_shape now h id msg) as [t ->]. by apply core_titles. }
  assert (Hc1 : hb_clients h1 = hb_clients h).
  { unfold h1. rewrite note_borrows_clients. by destruct (note_titles_shape now h id msg) as [t ->]. }
  assert (Hpos1 : hb_clients h1 !! pos = Some c) by by rewrite Hc1.
  clearbody h1. set (f := fun c0 => mk_client _ _ _ _ _ _).
  assert (Hfpi : forall n, next_pi msg (cl_pi c) = Some n -> is_kind ["pi"] seen n).
  { intros n Hn. destruct msg; simpl in Hn; try by apply Hpi.
    - injection Hn as <-. unfold controls in *. simpl in *. destruct (is_pi _ _); simpl in *; [|done].
      by apply Forall_app in Hper as [_ [_ [[? _] _]%Forall_cons]%Forall_cons].
    - case_bool_decide; [done|by apply Hpi]. }
  assert ((exists n, msg = B_Open n) \/ ~ exists n, msg = B_Open n) as [(n & ->)|Hno]
    by (destruct msg; first [by left; eexists|by right; intros [? ?]]).
  - destruct (map_open_shape (cl_open c) (hb_sessions h) n) as [E|[Hlive E]]; fold controls in E; [by rewrite E in Hsilent|].
    assert (Hln : is_live seen n).
    { destruct Hlive as (x & Hx & Hxn). exists x. split; [by apply (co_sessions _ _ _ Hh)|done]. }
    rewrite E in Hper |- *. apply Forall_app in Hper as [Hper _]. rewrite foldl_app. simpl. unfold send_control.
    apply core_attach; [|done]. apply core_controls; [|done].
    apply (core_moved seen h1 pos c f [n]); [done..|split; simpl; [congruence|done]|].
    right; right. exists n. split; [done|by constructor].
  - apply core_controls; [|done]. apply (core_moved seen h1 pos c f []); [done..| |].
    + split; [|exact Hfpi]. simpl. intros m Hm. destruct msg; simpl in Hm; try done; try by apply Hopen. by exfalso; eauto.
    + simpl. destruct msg; simpl; auto. by exfalso; eauto.
Qed.

(** *** Frames and the link *)

Lemma permitted_mono seen seen' m : seen ⊆ seen' -> permitted seen m -> permitted seen' m.
Proof.
  intros Hs. assert (Hl : forall n, is_live seen n -> is_live seen' n).
  { intros n (x & Hx & Hn). exists x. split; [by apply Hs|done]. }
  assert (Hk : forall ks n, is_kind ks seen n -> is_kind ks seen' n).
  { intros ks n (x & Hx & Hn). exists x. split; [by apply Hs|done]. }
  destruct m; simpl; try done; try apply Hl; try apply Hk; intros Hm; destruct_and?; split_and?; try done; auto.
  match goal with Hg : _ \/ _ |- _ => destruct Hg as [?|(x & Hx & ?)]; [by left|right] end.
  exists x. split; [by apply Hs|done].
Qed.

Lemma core_mono seen seen' h : seen ⊆ seen' -> core seen h -> core seen' h.
Proof.
  intros Hsub [Hs Hc Ha Hss Hb].
  assert (Hl : forall n, is_live seen n -> is_live seen' n).
  { intros n (x & Hx & Hn). exists x. split; [by apply Hsub|done]. }
  constructor; try done.
  - eapply Forall_impl; [exact Hs|]. intros [m|n bs|n bs]; simpl; [by apply permitted_mono|apply Hl|done].
  - eapply Forall_impl; [exact Hc|]. intros c [Ho Hp]. split; [intros n Hn; by apply Hl, Ho|].
    intros n Hn. destruct (Hp n Hn) as (x & Hx & ?). exists x. split; [by apply Hsub|done].
  - by trans seen.
  - intros n b Hn. destruct (Hb n b Hn) as [? (x & Hx & ?)]. split; [by apply Hl|]. exists x. split; [by apply Hsub|done].
Qed.

Lemma core_on_data seen h n bs : core seen h -> core seen (on_data h n bs).
Proof. intros Hh. unfold on_data. case_bool_decide; eauto with hub. Qed.

Lemma core_on_backlog seen h n bs : core seen h -> core seen (on_backlog h n bs).
Proof.
  intros Hh. unfold on_backlog. destruct (hb_dumps h !! n) as [ids|]; [|done].
  apply core_fold; [|by apply core_dumps]. intros h' id _ Hh'. by do 2 apply core_queue.
Qed.

Lemma core_show seen h sessions file layout dirty :
  core seen h -> sessions ⊆ seen -> core seen (show_sessions (set_view h sessions file layout dirty)).
Proof. intros Hh Hs. by apply core_queue, core_view. Qed.

Lemma core_on_frame seen now h frame : core seen h -> frame_sessions frame ⊆ seen -> core seen (on_frame now h frame).
Proof.
  intros Hh Hf. destruct frame as [m|n bs|n bs]; [|by apply core_on_data|by apply core_on_backlog].
  destruct m; simpl; try done; try by apply core_queue.
  - unfold title_set_ack, prune_title_pending. simpl. case_match; eauto with hub.
  - unfold on_sessions. case_match; [done|]. by apply core_show.
  - unfold on_sessions_changed. apply core_show; [done|]. intros x [Hx|Hx]%elem_of_app; [|by apply Hf].
    apply (co_sessions _ _ _ Hh). apply list_elem_of_In in Hx. apply filter_In in Hx as [Hx _]. by apply list_elem_of_In.
  - by apply (core_set seen [] h ∅ ∅ ∅ _ 0).
  - unfold title_created_ack, prune_title_pending. simpl. eauto with hub.
Qed.

Lemma hub_names_of f h n : n ∈ names_of f h <-> exists c, c ∈ hb_clients h /\ f c = Some n.
Proof. unfold names_of. by rewrite elem_of_dedup, elem_of_sort_by, list_elem_of_omap. Qed.

Lemma core_attach_all seen ns h : core_but ns seen h -> Forall (is_live seen) ns ->
  core seen (foldl (fun h n => write_daemon_tracking h (F_Control (M_Attach _ n false false None))) h ns).
Proof.
  revert h. induction ns as [|n ns IH]; intros h Hh Hl; [done|]. apply Forall_cons in Hl as [Hn Hl]. simpl.
  apply IH; [by apply core_attach|done].
Qed.

Lemma core_say_all {A} ex seen (f : A -> Frame) (l : list A) h :
  core_but ex seen h -> Forall (fun a => forall h, sayable seen h (f a)) l -> core_but ex seen (foldl (fun h a => write_daemon h (f a)) h l).
Proof.
  revert h. induction l as [|a l IH]; intros h Hh Hl; [done|]. apply Forall_cons in Hl as [Ha Hl]. simpl.
  apply IH; [by apply core_write|done].
Qed.

Lemma core_link_up seen h : core seen h -> core seen (link_up h).
Proof.
  intros Hh. unfold link_up. set (h0 := set_link h _). set (h1 := write_daemon (write_daemon h0 _) _).
  assert (Hopen : forall c n, c ∈ hb_clients h -> cl_open c = Some n -> is_live seen n).
  { intros c n Hin Hn. pose proof (co_clients _ _ _ Hh) as Hc. rewrite Forall_forall in Hc. by apply (Hc c Hin). }
  assert (Hpi : forall c n, c ∈ hb_clients h -> cl_pi c = Some n -> is_kind ["pi"] seen n).
  { intros c n Hin Hn. pose proof (co_clients _ _ _ Hh) as Hc. rewrite Forall_forall in Hc. by apply (Hc c Hin). }
  assert (H0 : core_but (names_of cl_open h) seen h0).
  { destruct Hh as [Hs Hc Ha Hss Hb]. constructor; simpl; try done. intros _ c n Hin Hn Hex. destruct Hex. apply hub_names_of. by exists c. }
  assert (H1 : core_but (names_of cl_open h) seen h1) by (by do 2 (apply core_write; [|done])).
  assert (Hcl : hb_clients h1 = hb_clients h) by (unfold h1; by rewrite !write_daemon_clients).
  assert (Hnames : forall f, names_of f h1 = names_of f h) by (intros f; unfold names_of; by rewrite Hcl).
  rewrite Hnames. set (h2 := match names_of cl_pi h with [] => h1 | _ => _ end).
  assert (H2 : core_but (names_of cl_open h) seen h2 /\ hb_clients h2 = hb_clients h).
  { unfold h2. case_match; [done|]. split; [by apply core_write|by rewrite write_daemon_clients]. }
  clearbody h2. destruct H2 as [H2 Hcl2]. set (h3 := foldl _ h2 _).
  assert (H3 : core_but (names_of cl_open h) seen h3).
  { apply core_say_all; [done|]. apply Forall_forall. intros n Hn h'. apply hub_names_of in Hn as (c & Hin & Hn).
    split; [|done]. simpl. split; [by eapply Hpi|done]. }
  assert (Hcl3 : hb_clients h3 = hb_clients h).
  { unfold h3. rewrite <- Hcl2. clear. generalize (names_of cl_pi h). intros l. revert h2.
    induction l as [|n l IH]; intros h2; [done|]. simpl. by rewrite IH, write_daemon_clients. }
  assert (Hn3 : names_of cl_open h3 = names_of cl_open h) by (unfold names_of; by rewrite Hcl3).
  rewrite Hn3. apply core_attach_all; [done|]. apply Forall_forall. intros n Hn.
  apply hub_names_of in Hn as (c & Hin & Hn). by eapply Hopen.
Qed.

Lemma core_link_down seen h : core seen h -> core seen (link_down h).
Proof.
  intros [Hs Hc Ha Hss Hb]. unfold link_down, unreachable. do 2 apply core_queue. constructor; simpl; try done. set_solver.
Qed.

Lemma step_core s s' : core (st_seen s) (st_hub s) -> step s s' -> core (st_seen s') (st_hub s').
Proof.
  intros Hh Hstep. destruct Hstep; simpl in *.
  - by apply core_add_client.
  - by apply core_remove_client.
  - unfold handle_browser. destruct (parse_browser_msg t); [by apply core_handle_msg|done].
  - unfold input. destruct (find_first _ _) as [c|] eqn:Hf; simpl; [|done]. destruct (cl_open c) as [n|] eqn:Hn; [|done].
    apply core_write; [done|]. split; [|done]. simpl. apply find_first_Some in Hf as [Hin _].
    pose proof (co_clients _ _ _ Hh) as Hc. rewrite Forall_forall in Hc. by apply (Hc c Hin).
  - apply core_on_frame; [|set_solver]. eapply core_mono; [|done]. set_solver.
  - by apply core_link_up.
  - by apply core_link_down.
  - by apply core_queue.
  - unfold poll, prune_title_pending. apply core_write; [|by split]. apply core_view; [by apply core_titles|apply Hh].
  - apply core_write; [done|]. by destruct refresh.
  - apply core_clients; [done|]. apply Forall_forall. intros c [Hin|(y & Hy & ->)]%elem_of_alter; [by exists c|].
    exists y. split; [by eapply list_elem_of_lookup_2|]. unfold take_one. by case_match.
  - apply core_clients; [done|]. apply Forall_forall. intros c [Hin|(y & Hy & ->)]%elem_of_alter; [by exists c|].
    exists y. split; [by eapply list_elem_of_lookup_2|done].
Qed.

Lemma run_core file oks s : run (initial file oks) s -> core (st_seen s) (st_hub s).
Proof.
  remember (initial file oks) as s0 eqn:E. induction 1 as [s0|s0 s' s'' _ IH Hstep]; subst.
  - constructor; simpl; first [done|set_solver].
  - eapply step_core; [by apply IH|done].
Qed.


(** C8. While the daemon can be reached, every session a browser is looking at is
    attached on the hub's connection, across other browsers coming, going, failing and
    leaving the same session, and across reconnects. *)
Theorem viewers_attached file oks s c n :
  run (initial file oks) s -> ln_up (hb_link (st_hub s)) = true ->
  c ∈ hb_clients (st_hub s) -> cl_open c = Some n -> attached n (ln_sent (hb_link (st_hub s))) = true.
Proof. intros Hr Hup Hc Hn. apply (co_attached _ _ _ (run_core _ _ _ Hr) Hup c n Hc Hn). apply not_elem_of_nil. Qed.
End Hub.

(** ** Examples *)

(** A JSON library for which every text is a request to open the session it names. *)
#[local] Instance open_requests : JsonValue string := {
  from_str t := Some t;
  get v k := Some (if bool_decide (k = "t") then "open" else v);
  as_str v := Some v;
  as_u64 _ := None;
  as_array _ := None;
  is_null _ := false }.

Definition no_layout : LayoutFile := mk_layout 1 1 ∅ ∅.
Definition demo_session : SessionInfo := mk_session_info "w1.1" "/" "pi" true None None 0 None None 120 40 1.
Definition demo_render (r : Rendered) : string := "null".

Definition hub_step := step (Value := string) (fun _ => true) demo_render.
Definition hub_run := run (Value := string) (fun _ => true) demo_render.

Lemma hub_snoc (s s' s'' : State (Value := string)) : hub_run s s' -> hub_step s' s'' -> hub_run s s''.
Proof. apply run_snoc. Qed.

(** The link comes up, the daemon lists a session, and a browser opens it. *)
Lemma hub_demo_view : exists s c,
  hub_run (initial no_layout []) s /\ ln_up (hb_link (st_hub s)) = true
  /\ c ∈ hb_clients (st_hub s) /\ cl_open c = Some "w1.1"
  /\ F_Control (M_Attach _ "w1.1" false false None) ∈ ln_sent (hb_link (st_hub s)) /\ st_seen s = [demo_session].
Proof.
  do 2 eexists. split_and!.
  - eapply hub_snoc.
    { eapply hub_snoc.
      { eapply hub_snoc.
        { eapply hub_snoc; [apply run_nil|by apply step_up]. }
        { apply (step_frame _ _ _ 0 (F_Control (M_Sessions _ [demo_session]))). done. } }
      { apply step_add. } }
    { apply (step_browser _ _ _ 0 0 "w1.1"). }
  - vm_compute. reflexivity.
  - vm_compute. left.
  - reflexivity.
  - vm_compute. left.
  - reflexivity.
Qed.


Lemma viewers_attached_witness : exists s : State (Value := string),
  hub_run (initial no_layout []) s /\ attached "w1.1" (ln_sent (hb_link (st_hub s))) = true.
Proof.
  destruct hub_demo_view as (s & c & Hr & Hup & Hc & Hn & _). exists s. split; [exact Hr|].
  exact (viewers_attached (fun _ => true) demo_render no_layout [] s c "w1.1" Hr Hup Hc Hn).
Defined.
