(* ===== verification/HubViews.v ===== *)
(** * What browsers see of the hub

    On [Hub]: a connected browser's picture of the sessions, borrowed grids that
    outlive their browser, and replays that go unmarked. *)
From S2P Require Import Prelude Utf8 Wire PiCommand Mosaic Manager Browser Hub.

Section Views.
Context {Value : Type} `{JsonValue Value} (is_dir : string -> bool) (to_string : Rendered -> string).

Abbreviation Out := (Out Value).
Abbreviation Client := (Client (Value := Value)).
Abbreviation HubInner := (HubInner (Value := Value)).
Abbreviation State := (State (Value := Value)).

(** All that was ever queued to a client. *)
Definition stream (c : Client) : list Out := cl_taken c ++ cl_queue c.

Definition quiet (o : Out) : Prop := match o with Out_Text (P_Sessions _ _ _) => False | _ => True end.

(** The sessions and layout a browser was told of last. *)
Definition last_sessions (l : list Out) : option (list SessionInfo * string) :=
  foldl (fun acc o => match o with Out_Text (P_Sessions _ sessions layout) => Some (sessions, layout) | _ => acc end) None l.

Lemma last_sessions_quiet l extra : Forall quiet extra -> last_sessions (l ++ extra) = last_sessions l.
Proof.
  unfold last_sessions. rewrite foldl_app. generalize (foldl (fun acc (o : Out) =>
    match o with Out_Text (P_Sessions _ sessions layout) => Some (sessions, layout) | _ => acc end) None l).
  intros acc Hq. induction Hq as [|o extra Ho _ IH]; [done|]. simpl. destruct o as [[]|]; done.
Qed.

(** [c'] is one of [cs] that has been told nothing of sessions since. *)
Definition follows (cs : list Client) (c' : Client) : Prop :=
  exists c, c ∈ cs /\ cl_id c' = cl_id c /\ exists extra, stream c' = stream c ++ extra /\ Forall quiet extra.

(** What happens to the hub between two reports of sessions: nobody joins, and nobody
    is told of sessions. *)
Record calm (h h' : HubInner) : Prop := mk_calm {
  ca_next : hb_next h' = hb_next h;
  ca_sessions : hb_sessions h' = hb_sessions h;
  ca_layout : hb_layout h' = hb_layout h;
  ca_dirty : hb_dirty h' = hb_dirty h;
  ca_ids : map cl_id (hb_clients h') `sublist_of` map cl_id (hb_clients h);
  ca_clients : Forall (follows (hb_clients h)) (hb_clients h') }.

Lemma follows_refl cs : Forall (follows cs) cs.
Proof. apply Forall_forall. intros c Hc. exists c. split_and!; try done. exists []. by rewrite app_nil_r. Qed.

Lemma follows_trans cs cs' c : Forall (follows cs) cs' -> follows cs' c -> follows cs c.
Proof.
  rewrite Forall_forall. intros Hf (c1 & Hin & Hid & extra & E & Hq). destruct (Hf c1 Hin) as (c0 & Hin0 & Hid0 & extra0 & E0 & Hq0).
  exists c0. split_and!; [done|congruence|]. exists (extra0 ++ extra). rewrite E, E0, app_assoc. split; [done|]. by apply Forall_app.
Qed.

#[local] Instance calm_preorder : PreOrder calm.
Proof.
  split.
  - intros h. constructor; try done. apply follows_refl.
  - intros h1 h2 h3 [] []. constructor; try congruence; [by etrans|].
    eapply Forall_impl; [eassumption|]. intros c. by apply follows_trans.
Qed.

(** Operations on the other fields, and on clients one by one. *)
Lemma calm_clients h h' cs :
  hb_next h' = hb_next h -> hb_sessions h' = hb_sessions h -> hb_layout h' = hb_layout h -> hb_dirty h' = hb_dirty h ->
  hb_clients h' = cs -> map cl_id cs `sublist_of` map cl_id (hb_clients h) -> Forall (follows (hb_clients h)) cs -> calm h h'.
Proof. intros. subst. by constructor. Qed.

Ltac calm_same := eapply calm_clients; [reflexivity..|apply follows_refl].

Lemma retain_ids want msg (cs : list Client) : map cl_id (retain want msg cs).1 `sublist_of` map cl_id cs.
Proof.
  induction cs as [|c cs IH]; [done|]. simpl. destruct (retain want msg cs) as [kept evicted]. simpl in *.
  destruct (want c); simpl; [|by constructor]. unfold try_send. destruct (_ || _); simpl; by constructor.
Qed.

Lemma calm_write h f : calm h (write_daemon h f).
Proof. unfold write_daemon. repeat case_match; try done; calm_same. Qed.

Lemma calm_tracking h f : calm h (write_daemon_tracking h f).
Proof.
  unfold write_daemon_tracking. repeat case_match; try apply calm_write.
  etrans; [|apply calm_write]. calm_same.
Qed.

Lemma retain_follows want msg cs : quiet msg -> Forall (follows cs) (retain want msg cs).1.
Proof.
  intros Hq. induction cs as [|c cs IH]; [done|]. simpl. destruct (retain want msg cs) as [kept evicted]. simpl in *.
  assert (Hk : Forall (follows (c :: cs)) kept).
  { eapply Forall_impl; [exact IH|]. intros c' (c0 & Hin & ?). exists c0. split; [by constructor|done]. }
  destruct (want c); simpl.
  - unfold try_send. destruct (_ || _); simpl; [done|]. constructor; [|done]. exists c. split_and!; [by constructor|done|].
    exists [msg]. unfold stream. simpl. rewrite app_assoc. split; [done|by constructor].
  - constructor; [|done]. exists c. split_and!; [by constructor|done|]. exists []. by rewrite app_nil_r.
Qed.

Lemma calm_detach h o : calm h (detach_if_unwanted h o).
Proof. destruct o as [n|]; simpl; [|done]. case_match; [done|apply calm_write]. Qed.

Lemma calm_fold {A} (f : HubInner -> A -> HubInner) l h : (forall h a, calm h (f h a)) -> calm h (foldl f h l).
Proof. intros Hf. revert h. induction l as [|a l IH]; intros h; [done|]. simpl. etrans; [apply Hf|apply IH]. Qed.

Lemma calm_queue h want msg : quiet msg -> calm h (queue h want msg).
Proof.
  intros Hq. unfold queue. pose proof (retain_follows want msg (hb_clients h) Hq) as Hk.
  pose proof (retain_ids want msg (hb_clients h)) as Hids.
  destruct (retain want msg (hb_clients h)) as [kept evicted]. simpl in Hk, Hids.
  etrans; [|apply calm_fold; apply calm_detach]. eapply calm_clients; [done..| |done]. exact Hids.
Qed.

Lemma calm_send_each h ids out : quiet out -> calm h (send_each h ids out).
Proof. intros Hq. apply calm_fold. intros. by apply calm_queue. Qed.

Lemma calm_set h l p d t u b :
  calm h (set_link h l) /\ calm h (set_pending h p) /\ calm h (set_dumps h d) /\ calm h (set_titles h t)
  /\ calm h (set_usage h u) /\ calm h (set_borrows h b).
Proof. split_and!; calm_same. Qed.

Lemma calm_titles h t : calm h (set_titles h t). Proof. calm_same. Qed.
Lemma calm_dumps h d : calm h (set_dumps h d). Proof. calm_same. Qed.
Lemma calm_pending h p : calm h (set_pending h p). Proof. calm_same. Qed.
Lemma calm_borrows h b : calm h (set_borrows h b). Proof. calm_same. Qed.

(** A client moved, or its queue taken from. *)
Lemma calm_alter h pos (f : Client -> Client) :
  (forall c, cl_id (f c) = cl_id c /\ stream (f c) = stream c) -> calm h (set_clients h (alter f pos (hb_clients h))).
Proof.
  intros Hf. apply (calm_clients h _ (alter f pos (hb_clients h))); try done.
  { assert (map cl_id (alter f pos (hb_clients h)) = map cl_id (hb_clients h)) as ->; [|done].
    generalize (hb_clients h) pos. intros cs. induction cs as [|c cs IH]; intros [|p]; simpl; try done; f_equal; [apply Hf|apply IH]. }
  apply Forall_forall.
  assert (Hsame : forall c c', c ∈ hb_clients h -> cl_id c' = cl_id c -> stream c' = stream c -> follows (hb_clients h) c').
  { intros c c' Hin Hid Hst. exists c. split_and!; try done. exists []. by rewrite app_nil_r. }
  intros c [Hin|(y & Hy & ->)]%elem_of_alter; [by apply (Hsame c)|].
  apply (Hsame y); [by eapply list_elem_of_lookup_2|apply Hf..].
Qed.

Lemma calm_delete h pos : calm h (set_clients h (delete pos (hb_clients h))).
Proof.
  apply (calm_clients h _ (delete pos (hb_clients h))); try done.
  { apply (fmap_sublist cl_id), sublist_delete. }
  apply Forall_forall. intros c Hc. apply elem_of_delete in Hc.
  pose proof (follows_refl (hb_clients h)) as Hf. rewrite Forall_forall in Hf. by apply Hf.
Qed.

Lemma calm_note_open h id n : calm h (note_open h id n).
Proof. unfold note_open. repeat case_match; first [done|apply calm_borrows]. Qed.

Lemma calm_note_resize h id n cols rows : calm h (note_resize h id n cols rows).
Proof. unfold note_resize. repeat case_match; first [done|apply calm_borrows]. Qed.

Lemma calm_release_borrow h id n : calm h (release_borrow h id n).
Proof.
  unfold release_borrow. repeat case_match; try done; try apply calm_borrows.
  etrans; [apply calm_borrows|apply calm_write].
Qed.

Lemma calm_release_all h id : calm h (release_all h id).
Proof. apply calm_fold. intros. apply calm_release_borrow. Qed.

Lemma calm_note_borrows h id previous msg : calm h (note_borrows h id previous msg).
Proof.
  destruct msg; simpl; try done; try apply calm_release_all; try apply calm_release_borrow; try apply calm_note_resize.
  etrans; [|apply calm_note_open]. case_bool_decide; [apply calm_release_all|done].
Qed.

Lemma calm_note_titles now h id msg : calm h (note_titles now h id msg).
Proof. destruct (note_titles_shape now h id msg) as [t ->]. apply calm_titles. Qed.

Lemma calm_send_control id h m : calm h (send_control id h m).
Proof.
  unfold send_control. destruct m; try apply calm_tracking; [case_match; [done|apply calm_tracking]|].
  etrans; [|apply calm_tracking]. apply calm_dumps.
Qed.

Lemma calm_handle_msg now h id msg : calm h (handle_msg is_dir now h id msg).
Proof.
  unfold handle_msg. destruct (position_of h id) as [pos|]; [|done].
  match goal with |- calm _ (if ?b then _ else _) => destruct b; [by apply calm_queue|] end.
  match goal with |- calm _ (if ?b then _ else _) => destruct b; [by apply calm_queue|] end.
  etrans; [|apply calm_fold; apply calm_send_control].
  etrans; [|by apply calm_alter]. etrans; [|apply calm_note_borrows]. apply calm_note_titles.
Qed.

Lemma calm_remove_client h id : calm h (remove_client h id).
Proof.
  unfold remove_client. destruct (position_of h id) as [pos|]; [|done].
  etrans; [|apply calm_detach]. etrans; [|apply calm_delete]. unfold forget_title_client.
  etrans; [apply calm_release_all|apply calm_titles].
Qed.

Definition reports (frame : Frame Value) : bool :=
  match frame with F_Control (M_Sessions _ _) | F_Control (M_SessionsChanged _ _ _) => true | _ => false end.

Lemma calm_on_frame now h frame : reports frame = false -> calm h (on_frame to_string now h frame).
Proof.
  intros Hr. destruct frame as [m|n bs|n bs].
  - destruct m; try done; simpl; try by apply calm_queue.
    + unfold title_set_ack, prune_title_pending. simpl. case_match; [|apply calm_titles].
      etrans; [|by apply calm_send_each]. etrans; apply calm_titles.
    + apply (calm_set h (hb_link h) ∅ ∅ ∅ _ ∅).
    + unfold title_created_ack, prune_title_pending. simpl. etrans; [|by apply calm_send_each]. etrans; apply calm_titles.
  - simpl. unfold on_data. etrans; [|by apply calm_queue]. case_bool_decide; [|done].
    etrans; [|by apply calm_queue]. apply calm_pending.
  - simpl. unfold on_backlog. case_match; [|done]. etrans; [apply calm_dumps|]. apply calm_fold. intros.
    etrans; by apply calm_queue.
Qed.

Lemma calm_link_up h : calm h (link_up h).
Proof.
  unfold link_up. etrans; [|apply calm_fold; intros; apply calm_tracking]. etrans; [|apply calm_fold; intros; apply calm_write].
  assert (H0 : calm h (write_daemon (write_daemon (set_link h (mk_link true [] (ln_oks (hb_link h)))) (F_Control (M_WatchSessions _)))
                         (F_Control (M_WatchMemoryPressure _ 2)))).
  { do 2 (etrans; [|apply calm_write]). apply (calm_set h _ ∅ ∅ ∅ None ∅). }
  etrans; [exact H0|]. case_match; [done|apply calm_write].
Qed.

(** ** The picture browsers have *)

Definition told (h : HubInner) : Prop :=
  Forall (fun c => exists layout, last_sessions (stream c) = Some (hb_sessions h, layout)
                                  /\ (hb_dirty h = false -> layout = hb_layout h)) (hb_clients h).

Lemma told_calm h h' : calm h h' -> told h -> told h'.
Proof.
  intros [_ Hs Hl Hd _ Hc] Ht. unfold told. eapply Forall_impl; [exact Hc|].
  intros c' (c & Hin & _ & extra & E & Hq). rewrite E, last_sessions_quiet, Hs, Hl, Hd by done.
  unfold told in Ht. rewrite Forall_forall in Ht. by apply Ht.
Qed.

Lemma retain_told sessions layout cs :
  Forall (fun c => last_sessions (stream c) = Some (sessions, layout)) (retain everyone (sessions_msg sessions layout) cs).1.
Proof.
  induction cs as [|c cs IH]; [done|]. simpl. destruct (retain everyone _ cs) as [kept evicted]. simpl in *.
  unfold try_send. destruct (_ || _); simpl; [done|]. constructor; [|done].
  unfold stream. simpl. rewrite app_assoc. unfold last_sessions. by rewrite foldl_app.
Qed.

(** Telling everyone makes it so, whatever they knew; who cannot be told is cut off. *)
Lemma told_show (h : HubInner) : told (show_sessions h).
Proof.
  unfold show_sessions, queue. pose proof (retain_told (hb_sessions h) (hb_layout h) (hb_clients h)) as Hk.
  destruct (retain _ _ _) as [kept evicted]. simpl in Hk. eapply told_calm; [apply calm_fold; apply calm_detach|].
  unfold told. simpl. eapply Forall_impl; [exact Hk|]. intros c E. by exists (hb_layout h).
Qed.

(** The daemon's sessions after a report. *)
Definition after_report (sessions : list SessionInfo) (frame : Frame Value) : list SessionInfo :=
  match frame with
  | F_Control (M_Sessions _ all) => all
  | F_Control (M_SessionsChanged _ added removed) =>
      List.filter (fun s => negb (bool_decide (si_name s ∈ removed))
                            && negb (existsb (fun a => bool_decide (si_name a = si_name s)) added)) sessions ++ added
  | _ => sessions
  end.

Lemma queue_sessions (h : HubInner) want msg : hb_sessions (queue h want msg) = hb_sessions h.
Proof.
  unfold queue. destruct (retain want msg (hb_clients h)) as [kept evicted].
  assert (Hf : forall h', hb_sessions (foldl detach_if_unwanted h' evicted) = hb_sessions h')
    by (intros h'; apply (ca_sessions h'), calm_fold, calm_detach).
  by rewrite Hf.
Qed.

Lemma queue_dirty (h : HubInner) want msg : hb_dirty (queue h want msg) = hb_dirty h.
Proof.
  unfold queue. destruct (retain want msg (hb_clients h)) as [kept evicted].
  by rewrite (ca_dirty _ _ (calm_fold detach_if_unwanted evicted (set_clients h kept) calm_detach)).
Qed.

Lemma on_sessions_clean (h : HubInner) sessions : hb_dirty (on_sessions to_string h sessions) = false.
Proof.
  unfold on_sessions. case_match eqn:E; [by apply andb_true_iff in E as [_ ->%negb_true_iff]|].
  unfold show_sessions. by rewrite queue_dirty.
Qed.

Lemma on_frame_sessions now (h : HubInner) frame : hb_sessions (on_frame to_string now h frame) = after_report (hb_sessions h) frame.
Proof.
  destruct (reports frame) eqn:Hr.
  - destruct frame as [[]| |]; try done; simpl.
    + unfold on_sessions. case_match eqn:E; [|by unfold show_sessions; rewrite queue_sessions].
      apply andb_true_iff in E as [E _]. by apply bool_decide_eq_true in E.
    + unfold on_sessions_changed, show_sessions. by rewrite queue_sessions.
  - rewrite (ca_sessions _ _ (calm_on_frame now h frame Hr)). destruct frame as [[]| |]; done.
Qed.

Lemma told_on_frame now (h : HubInner) frame : told h -> told (on_frame to_string now h frame).
Proof.
  intros Ht. destruct (reports frame) eqn:Hr; [|by eapply told_calm; [apply calm_on_frame|]].
  destruct frame as [[]| |]; try done; simpl.
  - unfold on_sessions. case_match; [done|apply told_show].
  - unfold on_sessions_changed. apply told_show.
Qed.

Lemma step_told s s' : told (st_hub s) -> step is_dir to_string s s' -> told (st_hub s').
Proof.
  intros Ht Hstep. destruct Hstep; simpl.
  - unfold told, add_client. simpl. apply Forall_app. split; [done|]. apply Forall_singleton.
    exists (hb_layout (st_hub s)). split; [|done]. unfold stream. simpl. by case_match.
  - eapply told_calm; [apply calm_remove_client|done].
  - unfold handle_browser. case_match; [|done]. eapply told_calm; [apply calm_handle_msg|done].
  - unfold input. case_match; [|done]. eapply told_calm; [apply calm_write|done].
  - by apply told_on_frame.
  - eapply told_calm; [apply calm_link_up|done].
  - unfold link_down, unreachable. eapply told_calm; [by apply calm_queue|].
    set (h := set_titles _ _). change (told (show_sessions h)). apply told_show.
  - eapply told_calm; [by apply calm_queue|done].
  - unfold poll. eapply told_calm; [apply calm_write|]. unfold told in *. simpl. eapply Forall_impl; [exact Ht|].
    intros c (layout & E & Hd). exists layout. split; [exact E|]. case_bool_decide; simpl; intros Hf; [done|by apply Hd].
  - eapply told_calm; [apply calm_write|done].
  - eapply told_calm; [|exact Ht]. apply calm_alter. intros c. unfold take_one, stream.
    destruct (cl_queue c) as [|m q] eqn:E; simpl; [by rewrite E|]. by rewrite <- app_assoc.
  - eapply told_calm; [|exact Ht]. by apply calm_alter.
Qed.

(** C28. A browser that is connected is up to date: the last list of sessions it was
    sent, or has waiting, is the hub's, with the hub's layout unless a change of the
    layout file waits for the next full report, after which none waits; the hub's list is the daemon's reports put
    together, and empty while the daemon cannot be reached.  A browser that cannot take
    a message is cut off instead. *)
Theorem browsers_current file oks s :
  run is_dir to_string (initial file oks) s ->
  (forall c, c ∈ hb_clients (st_hub s) -> exists layout,
     last_sessions (stream c) = Some (hb_sessions (st_hub s), layout)
     /\ (hb_dirty (st_hub s) = false -> layout = hb_layout (st_hub s)))
  /\ (forall now frame, hb_sessions (on_frame to_string now (st_hub s) frame) = after_report (hb_sessions (st_hub s)) frame)
  /\ (forall now sessions, hb_dirty (on_frame to_string now (st_hub s) (F_Control (M_Sessions _ sessions))) = false)
  /\ hb_sessions (link_down (st_hub s)) = [].
Proof.
  intros Hr. split_and!.
  - apply Forall_forall. change (told (st_hub s)). remember (initial file oks) as s0 eqn:E.
    induction Hr as [s0|s0 s' s'' _ IH Hstep]; subst; [by apply Forall_nil_2|]. by eapply step_told; [apply IH|].
  - intros. apply on_frame_sessions.
  - intros. apply on_sessions_clean.
  - unfold link_down, unreachable. by rewrite !queue_sessions.
Qed.

(** ** A grid that is never handed back *)

Definition ids_ok (h : HubInner) : Prop := NoDup (map cl_id (hb_clients h)) /\ Forall (fun c => cl_id c < hb_next h)%Z (hb_clients h).

Lemma ids_calm h h' : calm h h' -> ids_ok h -> ids_ok h'.
Proof.
  intros [Hn _ _ _ Hids Hc] [Hnd Hlt]. split; [by eapply sublist_NoDup|]. rewrite Hn.
  eapply Forall_impl; [exact Hc|]. intros c' (c & Hin & -> & _). rewrite Forall_forall in Hlt. by apply Hlt.
Qed.

(** Operations that look at nothing but who is connected. *)
Lemma ids_view (h : HubInner) sessions file layout dirty : ids_ok h -> ids_ok (set_view h sessions file layout dirty).
Proof. done. Qed.

Lemma ids_queue (h : HubInner) want msg : ids_ok h -> ids_ok (queue h want msg).
Proof.
  intros [Hnd Hlt]. unfold queue. pose proof (retain_ids want msg (hb_clients h)) as Hids.
  pose proof (retain_placed want msg (hb_clients h)) as [Hp _].
  destruct (retain want msg (hb_clients h)) as [kept evicted]. simpl in *.
  eapply ids_calm; [apply calm_fold; apply calm_detach|]. split; simpl; [by eapply sublist_NoDup|].
  eapply Forall_impl; [exact Hp|]. intros c' (c & Hin & -> & _). rewrite Forall_forall in Hlt. by apply Hlt.
Qed.

Lemma ids_step s s' : ids_ok (st_hub s) -> step is_dir to_string s s' -> ids_ok (st_hub s').
Proof.
  intros Hi Hstep. destruct Hstep; simpl.
  - destruct Hi as [Hnd Hlt]. split; simpl.
    + rewrite map_app. apply NoDup_app. split_and!; [done| |by apply NoDup_singleton].
      intros id (c & -> & Hin)%list_elem_of_fmap Heq%list_elem_of_singleton. rewrite Forall_forall in Hlt.
      specialize (Hlt c Hin). simpl in Heq. lia.
    + apply Forall_app. split; [|apply Forall_singleton; simpl; lia]. eapply Forall_impl; [exact Hlt|]. intros c Hc. cbv beta in *. simpl. lia.
  - eapply ids_calm; [apply calm_remove_client|done].
  - unfold handle_browser. case_match; [|done]. eapply ids_calm; [apply calm_handle_msg|done].
  - unfold input. case_match; [|done]. eapply ids_calm; [apply calm_write|done].
  - destruct (reports frame) eqn:Hr; [|by eapply ids_calm; [apply calm_on_frame|]].
    destruct frame as [[]| |]; try done; simpl.
    + unfold on_sessions. case_match; [done|]. by apply ids_queue.
    + by apply ids_queue.
  - eapply ids_calm; [apply calm_link_up|done].
  - by do 2 apply ids_queue.
  - by apply ids_queue.
  - unfold poll. eapply ids_calm; [apply calm_write|done].
  - eapply ids_calm; [apply calm_write|done].
  - eapply ids_calm; [|exact Hi]. apply calm_alter. intros c. unfold take_one, stream.
    destruct (cl_queue c) as [|m q] eqn:E; simpl; [by rewrite E|]. by rewrite <- app_assoc.
  - eapply ids_calm; [|exact Hi]. by apply calm_alter.
Qed.

(** Browser [id] is gone, and what it borrowed of [n] is still on the books. *)
Definition stranded (id : Z) (n : string) (b : Borrow) (h : HubInner) : Prop :=
  (id ∉ map cl_id (hb_clients h)) /\ (id < hb_next h)%Z /\ hb_borrows h !! n = Some b /\ bw_client b = id.

Lemma stranded_calm id n b h h' :
  calm h h' -> hb_borrows h' !! n = hb_borrows h !! n -> stranded id n b h -> stranded id n b h'.
Proof.
  intros [Hn _ _ _ Hids _] Hb (Hid & Hlt & Hlook & Hcl). split_and!; [|by rewrite Hn|by rewrite Hb|done].
  intros Hin. apply Hid. by eapply elem_of_sublist.
Qed.

Lemma borrows_write (h : HubInner) f : hb_borrows (write_daemon h f) = hb_borrows h.
Proof. unfold write_daemon. by repeat case_match. Qed.

Lemma borrows_tracking (h : HubInner) f : hb_borrows (write_daemon_tracking h f) = hb_borrows h.
Proof. unfold write_daemon_tracking. repeat case_match; by rewrite borrows_write. Qed.

Lemma borrows_fold {A} (f : HubInner -> A -> HubInner) l h : (forall h a, hb_borrows (f h a) = hb_borrows h) -> hb_borrows (foldl f h l) = hb_borrows h.
Proof. intros Hf. revert h. induction l as [|a l IH]; intros h; [done|]. simpl. by rewrite IH. Qed.

Lemma borrows_link_up (h : HubInner) : hb_borrows (link_up h) = hb_borrows h.
Proof.
  unfold link_up. set (h1 := write_daemon _ (F_Control (M_WatchMemoryPressure _ 2))).
  rewrite (borrows_fold _ (names_of cl_open _)) by (intros; apply borrows_tracking).
  rewrite (borrows_fold _ (names_of cl_pi h1)) by (intros; apply borrows_write).
  transitivity (hb_borrows h1); [|by unfold h1; rewrite !borrows_write].
  destruct (names_of cl_pi h1); [done|apply borrows_write].
Qed.

Lemma borrows_queue (h : HubInner) want msg : hb_borrows (queue h want msg) = hb_borrows h.
Proof.
  unfold queue. destruct (retain want msg (hb_clients h)) as [kept evicted]. rewrite borrows_fold; [done|].
  intros h' [n|]; simpl; [|done]. case_match; [done|apply borrows_write].
Qed.

Lemma borrows_on_frame now (h : HubInner) frame : hb_borrows (on_frame to_string now h frame) = hb_borrows h.
Proof.
  destruct frame as [m|n bs|n bs]; simpl.
  - destruct m; try done; simpl; try apply borrows_queue.
    + unfold title_set_ack. case_match; [|done]. unfold send_each. rewrite borrows_fold; [done|]. intros. apply borrows_queue.
    + unfold on_sessions, show_sessions. case_match; [done|]. by rewrite borrows_queue.
    + unfold on_sessions_changed, show_sessions. by rewrite borrows_queue.
    + unfold title_created_ack, send_each. rewrite borrows_fold; [done|]. intros. apply borrows_queue.
  - unfold on_data. rewrite borrows_queue. case_match; [by rewrite borrows_queue|done].
  - unfold on_backlog. case_match; [|done]. rewrite borrows_fold; [done|]. intros. by rewrite !borrows_queue.
Qed.

(** Another browser's doings leave the borrow of [id] alone. *)
Section Others.
Context (id other : Z) (n : string) (b : Borrow) (Hb : bw_client b = id) (Hne : other <> id).

Lemma kept_note_open (h : HubInner) m : hb_borrows h !! n = Some b -> hb_borrows (note_open h other m) !! n = Some b.
Proof.
  intros Hn. unfold note_open. destruct (hb_borrows h !! m) eqn:Hm; [done|]. repeat case_match; try done. simpl.
  by rewrite lookup_insert_ne by congruence.
Qed.

Lemma kept_note_resize (h : HubInner) m cols rows : hb_borrows h !! n = Some b -> hb_borrows (note_resize h other m cols rows) !! n = Some b.
Proof.
  intros Hn. unfold note_resize. destruct (hb_borrows h !! m) as [b'|] eqn:Hm; [|done].
  destruct (Z.eqb_spec (bw_client b') other); [|done]. simpl. by rewrite lookup_insert_ne by congruence.
Qed.

Lemma kept_release_borrow (h : HubInner) m : hb_borrows h !! n = Some b -> hb_borrows (release_borrow h other m) !! n = Some b.
Proof.
  intros Hn. unfold release_borrow. destruct (hb_borrows h !! m) as [b'|] eqn:Hm; [|done].
  destruct (Z.eqb_spec (bw_client b') other); simpl; [|done].
  assert (m <> n) by congruence.
  repeat case_match; rewrite ?borrows_write; simpl; by rewrite lookup_delete_ne.
Qed.

Lemma kept_release_all (h : HubInner) : hb_borrows h !! n = Some b -> hb_borrows (release_all h other) !! n = Some b.
Proof.
  unfold release_all. generalize (map fst (List.filter (fun e => (bw_client e.2 =? other)%Z) (map_to_list (hb_borrows h)))).
  intros ns. revert h. induction ns as [|m ns IH]; intros h Hn; [done|]. simpl. by apply IH, kept_release_borrow.
Qed.

Lemma kept_handle_msg now (h : HubInner) msg : hb_borrows h !! n = Some b -> hb_borrows (handle_msg is_dir now h other msg) !! n = Some b.
Proof.
  intros Hn. unfold handle_msg. destruct (position_of h other) as [pos|]; [|done].
  match goal with |- hb_borrows (if ?c then _ else _) !! _ = _ => destruct c; [by rewrite borrows_queue|] end.
  match goal with |- hb_borrows (if ?c then _ else _) !! _ = _ => destruct c; [by rewrite borrows_queue|] end.
  rewrite borrows_fold. 2: { intros h' m. unfold send_control. destruct m; rewrite ?borrows_tracking; try done. case_match; [done|by rewrite borrows_tracking]. }
  simpl. assert (Ht : hb_borrows (note_titles now h other msg) !! n = Some b).
  { destruct (note_titles_shape now h other msg) as [t ->]. done. }
  destruct msg; simpl; try done; first [by apply kept_release_all|by apply kept_release_borrow|by apply kept_note_resize|idtac].
  apply kept_note_open. case_bool_decide; [by apply kept_release_all|done].
Qed.

Lemma kept_remove (h : HubInner) : hb_borrows h !! n = Some b -> hb_borrows (remove_client h other) !! n = Some b.
Proof.
  intros Hn. unfold remove_client. destruct (position_of h other) as [pos|]; [|done].
  assert (Hr : hb_borrows (forget_title_client (release_all h other) other) !! n = Some b) by by apply kept_release_all.
  unfold detach_if_unwanted. repeat case_match; rewrite ?borrows_write; done.
Qed.
End Others.

Lemma absent_position (h : HubInner) id : id ∉ map cl_id (hb_clients h) -> position_of h id = None.
Proof.
  intros Hid. unfold position_of. apply position_None. intros c Hc. unfold has_id. apply Z.eqb_neq. intros <-.
  apply Hid. apply list_elem_of_fmap. by exists c.
Qed.

Lemma stranded_queue id n b (h : HubInner) want msg : stranded id n b h -> stranded id n b (queue h want msg).
Proof.
  intros (Hid & Hlt & Hn & Hb). unfold stranded. rewrite borrows_queue. split_and!; try done.
  - unfold queue. pose proof (retain_ids want msg (hb_clients h)) as Hids.
    destruct (retain want msg (hb_clients h)) as [kept evicted]. simpl in Hids. intros Hin. apply Hid.
    eapply elem_of_sublist; [|exact Hids]. eapply elem_of_sublist; [exact Hin|].
    exact (ca_ids _ _ (calm_fold detach_if_unwanted evicted (set_clients h kept) calm_detach)).
  - unfold queue. destruct (retain want msg (hb_clients h)) as [kept evicted].
    by rewrite (ca_next _ _ (calm_fold detach_if_unwanted evicted (set_clients h kept) calm_detach)).
Qed.

Lemma step_stranded id n b s s' : stranded id n b (st_hub s) -> step is_dir to_string s s' -> stranded id n b (st_hub s').
Proof.
  intros Hst Hstep. pose proof Hst as (Hid & Hlt & Hn & Hb). destruct Hstep; simpl.
  - split_and!; simpl; [|lia|done..]. rewrite map_app, not_elem_of_app. split; [done|]. simpl. set_unfold. lia.
  - destruct (decide (id0 = id)) as [->|Hne]; [by unfold remove_client; rewrite absent_position|].
    eapply stranded_calm; [apply calm_remove_client| |done]. rewrite Hn. by eapply kept_remove.
  - unfold handle_browser. destruct (parse_browser_msg t) as [msg|]; [|done].
    destruct (decide (id0 = id)) as [->|Hne]; [by unfold handle_msg; rewrite absent_position|].
    eapply stranded_calm; [apply calm_handle_msg| |done]. rewrite Hn. by eapply kept_handle_msg.
  - unfold input. case_match; [|done]. eapply stranded_calm; [apply calm_write|by rewrite borrows_write|done].
  - destruct (reports frame) eqn:Hr.
    + destruct frame as [[]| |]; try done; simpl; [unfold on_sessions; case_match; [done|]|]; by apply stranded_queue.
    + eapply stranded_calm; [by apply calm_on_frame|by rewrite borrows_on_frame|done].
  - eapply stranded_calm; [apply calm_link_up| |done]. apply (f_equal (lookup n)), borrows_link_up.
  - by do 2 apply stranded_queue.
  - by apply stranded_queue.
  - unfold poll. eapply stranded_calm; [apply calm_write|cbv zeta; by rewrite borrows_write|done].
  - unfold ask_usage. eapply stranded_calm; [apply calm_write|by rewrite borrows_write|done].
  - apply (stranded_calm id n b (st_hub s)); [|done|done]. apply calm_alter. intros c. unfold take_one, stream.
    destruct (cl_queue c) as [|m q] eqn:E; simpl; [by rewrite E|]. by rewrite <- app_assoc.
  - apply (stranded_calm id n b (st_hub s)); [|done|done]. by apply calm_alter.
Qed.

Lemma run_stranded id n b s s' : run is_dir to_string s s' -> stranded id n b (st_hub s) -> stranded id n b (st_hub s').
Proof. induction 1 as [|s s' s'' _ IH Hstep]; intros Hst; [done|]. eapply step_stranded; [by apply IH|done]. Qed.

Lemma run_ids file oks s : run is_dir to_string (initial file oks) s -> ids_ok (st_hub s).
Proof.
  remember (initial file oks) as s0 eqn:E. induction 1 as [s0|s0 s' s'' _ IH Hstep]; subst.
  - split; [by apply NoDup_nil_2|by apply Forall_nil_2].
  - eapply ids_step; [by apply IH|done].
Qed.

Lemma evicted_gone (h : HubInner) want msg c :
  ids_ok h -> c ∈ hb_clients h -> want c = true -> try_send c msg = None ->
  cl_id c ∉ map cl_id (hb_clients (queue h want msg)).
Proof.
  intros [Hnd _] Hin Hw Hs. unfold queue.
  assert (Hk : cl_id c ∉ map cl_id (retain want msg (hb_clients h)).1).
  { revert Hnd Hin. generalize (hb_clients h). induction l as [|c0 l IH]; intros Hnd Hin; [by apply elem_of_nil in Hin|].
    pose proof (retain_ids want msg l) as Hids. simpl in Hnd. apply NoDup_cons in Hnd as [Hn0 Hnd]. simpl.
    destruct (retain want msg l) as [kept evicted]. simpl in *. apply elem_of_cons in Hin as [->|Hin].
    - rewrite Hw, Hs. simpl. intros Hk. apply Hn0. by eapply elem_of_sublist.
    - specialize (IH Hnd Hin). assert (cl_id c <> cl_id c0).
      { intros E. apply Hn0. rewrite <- E. apply list_elem_of_fmap. by exists c. }
      destruct (want c0); simpl; [|by apply not_elem_of_cons].
      unfold try_send. destruct (_ || _); simpl; [done|by apply not_elem_of_cons]. }
  destruct (retain want msg (hb_clients h)) as [kept evicted]. simpl in Hk. intros Hin'. apply Hk.
  eapply elem_of_sublist; [exact Hin'|]. exact (ca_ids _ _ (calm_fold detach_if_unwanted evicted (set_clients h kept) calm_detach)).
Qed.

(** A browser whose queue is full is cut off, but the grid it borrowed is not given
    back, then or ever: the end of its socket finds it gone already, nobody else's
    leaving releases what it holds, and nobody who looks at the session later can
    borrow it, so the desktop keeps the narrow grid. *)
Theorem eviction_keeps_borrow file oks s want msg c n b s' :
  run is_dir to_string (initial file oks) s -> c ∈ hb_clients (st_hub s) ->
  hb_borrows (st_hub s) !! n = Some b -> bw_client b = cl_id c ->
  want c = true -> try_send c msg = None ->
  run is_dir to_string (with_hub s (queue (st_hub s) want msg)) s' ->
  hb_borrows (st_hub s') !! n = Some b
  /\ remove_client (st_hub s') (cl_id c) = st_hub s'
  /\ (forall other, note_open (st_hub s') other n = st_hub s')
  /\ (forall other, other <> cl_id c -> release_borrow (st_hub s') other n = st_hub s').
Proof.
  intros Hr Hin Hb Hcl Hw Hsend Hr'.
  assert (Hst : stranded (cl_id c) n b (st_hub s')).
  { eapply run_stranded; [exact Hr'|]. simpl. pose proof (run_ids _ _ _ Hr) as Hids. split_and!.
    - by apply evicted_gone.
    - destruct Hids as [_ Hlt]. rewrite Forall_forall in Hlt. specialize (Hlt c Hin).
      unfold queue. destruct (retain want msg (hb_clients (st_hub s))) as [kept evicted].
      by rewrite (ca_next _ _ (calm_fold detach_if_unwanted evicted (set_clients (st_hub s) kept) calm_detach)).
    - by rewrite borrows_queue.
    - done. }
  destruct Hst as (Hid & _ & Hn & _). split_and!; [done|..].
  - unfold remove_client. by rewrite absent_position.
  - intros other. unfold note_open. by rewrite Hn.
  - intros other Hne. unfold release_borrow. rewrite Hn, Hcl. by destruct (Z.eqb_spec (cl_id c) other); [congruence|].
Qed.
(** A second browser that opens a session while the first still has it borrows nothing,
    also when the first leaves without a resize: what it then sets is never undone. *)
Lemma second_viewer_unrestored (h : HubInner) first second n prior cols rows :
  hb_borrows h !! n = Some (mk_borrow first prior None) -> second <> first ->
  let h' := release_borrow (note_open h second n) first n in
  note_resize h' second n cols rows = h' /\ release_borrow h' second n = h'.
Proof.
  intros Hb Hne h'. assert (Hn : hb_borrows h' !! n = None).
  { unfold h', note_open. rewrite Hb. unfold release_borrow. rewrite Hb. simpl. rewrite Z.eqb_refl. simpl. apply lookup_delete_eq. }
  unfold note_resize, release_borrow. by rewrite Hn.
Qed.

(** A session attached twice before the daemon answers is sent twice from the start, and
    only the first time are its browsers told so. *)
Lemma second_replay_unmarked (h : HubInner) n resume replay again :
  let attach h := write_daemon_tracking h (F_Control (M_Attach _ n false false resume)) in
  hb_pending (attach (attach h)) = {[n]} ∪ hb_pending h
  /\ let shown := on_data (attach (attach h)) n replay in
     on_data shown n again = queue shown (viewing n) (Out_Binary again).
Proof.
  intros attach. assert (Hp : forall (h0 : HubInner) f, hb_pending (write_daemon h0 f) = hb_pending h0).
  { intros h0 f. unfold write_daemon. by repeat case_match. }
  assert (Hq : forall (h0 : HubInner) want msg, hb_pending (queue h0 want msg) = hb_pending h0).
  { intros h0 want msg. unfold queue. destruct (retain want msg (hb_clients h0)) as [kept evicted].
    transitivity (hb_pending (set_clients h0 kept)); [|done]. generalize (set_clients h0 kept).
    induction evicted as [|[o|] os IH]; intros h1; simpl; [done| |apply IH]. rewrite IH. case_match; [done|apply Hp]. }
  assert (Ha : hb_pending (attach (attach h)) = {[n]} ∪ hb_pending h).
  { unfold attach, write_daemon_tracking. rewrite Hp. simpl. rewrite Hp. simpl. set_solver. }
  split; [exact Ha|]. intros shown. unfold on_data at 1. rewrite bool_decide_false; [done|].
  unfold shown, on_data. rewrite Hq. case_bool_decide as E; [rewrite Hq; simpl; set_solver|done].
Qed.
End Views.

(** ** Examples *)

Lemma browsers_current_witness : exists (s : State (Value := string)) c layout,
  hub_run (initial no_layout []) s /\ c ∈ hb_clients (st_hub s)
  /\ last_sessions (stream c) = Some (hb_sessions (st_hub s), layout).
Proof.
  destruct hub_demo_view as (s & c & Hr & _ & Hc & _). exists s, c.
  destruct (proj1 (browsers_current (fun _ => true) demo_render no_layout [] s Hr) c Hc) as (layout & E & _).
  exists layout. split; [exact Hr|]. split; [exact Hc|exact E].
Defined.

(** The browser's connection fails while it looks at a session. *)
Lemma eviction_keeps_borrow_witness : exists (s : State (Value := string)) b,
  hub_run (initial no_layout []) s
  /\ hb_borrows (st_hub s) !! "w1.1" = Some b
  /\ hb_borrows (st_hub (with_hub s (queue (st_hub s) everyone (error_msg "x")))) !! "w1.1" = Some b
  /\ hb_clients (queue (st_hub s) everyone (error_msg "x")) = [].
Proof.
  assert (H : exists s c, hub_run (initial no_layout []) s /\ c ∈ hb_clients (st_hub s)
    /\ hb_borrows (st_hub s) !! "w1.1" = Some (mk_borrow 0 (120%Z, 40%Z) None)
    /\ cl_id c = 0%Z /\ try_send c (error_msg (Value := string) "x") = None
    /\ hb_clients (queue (st_hub s) everyone (error_msg "x")) = []).
  { do 2 eexists. split_and!.
    - eapply hub_snoc.
      { eapply hub_snoc.
        { eapply hub_snoc.
          { eapply hub_snoc.
            { eapply hub_snoc; [apply run_nil|by apply step_up]. }
            { apply (step_frame _ _ _ 0 (F_Control (M_Sessions _ [demo_session]))). done. } }
          { apply step_add. } }
        { apply (step_browser _ _ _ 0 0 "w1.1"). } }
      { apply (step_gone _ _ _ 0). }
    - vm_compute. left.
    - vm_compute. reflexivity.
    - reflexivity.
    - reflexivity.
    - vm_compute. reflexivity. }
  destruct H as (s & c & Hr & Hc & Hb & Hid & Hs & He). exists s, (mk_borrow 0 (120%Z, 40%Z) None). split_and!; [exact Hr|exact Hb| |exact He].
  exact (proj1 (eviction_keeps_borrow (fun _ => true) demo_render no_layout [] s everyone (error_msg "x") c "w1.1" _ _
    Hr Hc Hb (eq_sym Hid) eq_refl Hs (run_nil _ _ _))).
Defined.
