(* ===== verification/Bridge.v ===== *)
(** * The registry of Pi bridges

    [PiBridges] of [crates/amber/src/pi_bridge.rs]: which connection commands for a Pi
    session go to.  A registration has a generation and a bounded channel; the entry
    holds the sending half ([tx]) and the thread that serves the connection the
    receiving half.  Channels are kept by their generation, with all that was ever
    accepted ([ch_sent]) and taken ([ch_taken]) for the record. *)
From S2P Require Import Prelude Wire.

Definition COMMAND_QUEUE_DEPTH : nat := 16.

(** [ch_open]: the receiver is still there. *)
Record Channel := mk_channel {
  ch_name : string;
  ch_sent : list PiCommand;
  ch_taken : list PiCommand;
  ch_open : bool }.

(** [br_entries]: the generation registered for a name; [br_next]: the counter. *)
Record PiBridges := mk_bridges {
  br_entries : gmap string Z;
  br_next : Z;
  br_channels : gmap Z Channel }.

Definition new_bridges : PiBridges := mk_bridges ∅ 0 ∅.

Definition set_entries (entries : gmap string Z) (b : PiBridges) : PiBridges :=
  mk_bridges entries (br_next b) (br_channels b).
Definition set_channel (g : Z) (c : Channel) (b : PiBridges) : PiBridges :=
  mk_bridges (br_entries b) (br_next b) (<[g := c]> (br_channels b)).

(** The generations are those of a [u64] that does not wrap in the life of a daemon. *)
Definition register (name : string) (b : PiBridges) : Z * PiBridges :=
  let generation := (br_next b + 1)%Z in
  (generation, mk_bridges (<[name := generation]> (br_entries b)) generation
                 (<[generation := mk_channel name [] [] true]> (br_channels b))).

Definition is_current (name : string) (generation : Z) (b : PiBridges) : bool :=
  bool_decide (br_entries b !! name = Some generation).

Definition unregister (name : string) (generation : Z) (b : PiBridges) : bool * PiBridges :=
  if is_current name generation b then (true, set_entries (delete name (br_entries b)) b) else (false, b).

Definition contains (name : string) (b : PiBridges) : bool := bool_decide (is_Some (br_entries b !! name)).

Definition remove (name : string) (b : PiBridges) : bool * PiBridges :=
  (contains name b, set_entries (delete name (br_entries b)) b).

Definition waiting (c : Channel) : list PiCommand := drop (length (ch_taken c)) (ch_sent c).

Definition send (name : string) (command : PiCommand) (b : PiBridges) : result unit string * PiBridges :=
  match br_entries b !! name with
  | None => (Err ("Pi graphical bridge is unavailable for session " +:+ name), b)
  | Some g =>
      match br_channels b !! g with
      | Some c =>
          if negb (ch_open c)
          then (Err ("Pi graphical bridge disconnected for session " +:+ name), set_entries (delete name (br_entries b)) b)
          else if COMMAND_QUEUE_DEPTH <=? length (waiting c)
          then (Err ("Pi graphical bridge command queue is full for session " +:+ name), b)
          else (Ok tt, set_channel g (mk_channel (ch_name c) (ch_sent c ++ [command]) (ch_taken c) true) b)
      | None => (Err ("Pi graphical bridge disconnected for session " +:+ name), b)
      end
  end.

(** ** The receiving thread *)

(** What [rx.recv()] returns: a command, the end of the channel, or nothing yet. *)
Inductive Received := R_Command (command : PiCommand) | R_Closed | R_Blocked.

(** The sender is dropped with its entry. *)
Definition sender_alive (g : Z) (b : PiBridges) : bool :=
  match br_channels b !! g with
  | Some c => is_current (ch_name c) g b
  | None => false
  end.

Definition recv (g : Z) (b : PiBridges) : Received * PiBridges :=
  match br_channels b !! g with
  | None => (R_Closed, b)
  | Some c =>
      match waiting c with
      | command :: _ =>
          (R_Command command, set_channel g (mk_channel (ch_name c) (ch_sent c) (ch_taken c ++ [command]) (ch_open c)) b)
      | [] => if sender_alive g b then (R_Blocked, b) else (R_Closed, b)
      end
  end.

(** The thread ends and its receiver is dropped. *)
Definition hang_up (g : Z) (b : PiBridges) : PiBridges :=
  match br_channels b !! g with
  | Some c => set_channel g (mk_channel (ch_name c) (ch_sent c) (ch_taken c) false) b
  | None => b
  end.

(** ** Well-formedness *)

Record well_formed (b : PiBridges) : Prop := mk_well_formed {
  wf_entries : map_Forall (fun n g => exists c, br_channels b !! g = Some c /\ ch_name c = n) (br_entries b);
  wf_latest : map_Forall (fun n g => forall g' c, br_channels b !! g' = Some c -> ch_name c = n -> (g' <= g)%Z) (br_entries b);
  wf_next : map_Forall (fun g _ => (0 < g <= br_next b)%Z) (br_channels b);
  wf_nonneg : (0 <= br_next b)%Z;
  wf_taken : map_Forall (fun _ c => ch_taken c `prefix_of` ch_sent c) (br_channels b);
  wf_bound : map_Forall (fun _ c => length (waiting c) <= COMMAND_QUEUE_DEPTH) (br_channels b) }.

Lemma prefix_waiting c : ch_taken c `prefix_of` ch_sent c -> ch_sent c = ch_taken c ++ waiting c.
Proof. intros [k E]. unfold waiting. rewrite E, drop_app_length. done. Qed.

Lemma new_well_formed : well_formed new_bridges.
Proof. constructor; simpl; try lia; apply map_Forall_empty. Qed.

Lemma channel_known b n g : well_formed b -> br_entries b !! n = Some g -> exists c, br_channels b !! g = Some c /\ ch_name c = n.
Proof. intros Hw Hn. exact (wf_entries _ Hw n g Hn). Qed.

(** A generation belongs to one name, so what is current is current once. *)
Lemma current_unique b n n' g : well_formed b -> br_entries b !! n = Some g -> br_entries b !! n' = Some g -> n = n'.
Proof.
  intros Hw (c & Hc & <-)%(channel_known b) (c' & Hc' & <-)%(channel_known b); [|done..]. congruence.
Qed.

Lemma register_well_formed n b : well_formed b -> well_formed (register n b).2.
Proof.
  intros [He Hl Hn H0 Ht Hb]. constructor; simpl.
  - intros n' g [[<- <-]|[Hne Hg]]%lookup_insert_Some.
    + exists (mk_channel n [] [] true). by rewrite lookup_insert_eq.
    + destruct (He n' g Hg) as (c & Hc & Hcn). exists c. split; [|done].
      rewrite lookup_insert_ne; [done|]. specialize (Hn g c Hc). simpl in Hn. lia.
  - intros n' g [[<- <-]|[Hne Hg]]%lookup_insert_Some g' c [[<- <-]|[Hg' Hc]]%lookup_insert_Some; simpl; try done.
    + intros _. specialize (Hn g' c Hc). simpl in Hn. lia.
    + intros Hcn. exact (Hl n' g Hg g' c Hc Hcn).
  - apply map_Forall_insert_2; [lia|]. intros g c Hc. specialize (Hn g c Hc). simpl in Hn. lia.
  - lia.
  - by apply map_Forall_insert_2.
  - apply map_Forall_insert_2; [simpl; unfold waiting; simpl; lia|done].
Qed.

Lemma set_entries_well_formed entries b :
  well_formed b -> entries ⊆ br_entries b -> well_formed (set_entries entries b).
Proof.
  intros [He Hl Hn H0 Ht Hb] Hs. constructor; simpl; try done.
  - intros n g Hg. apply He. by eapply lookup_weaken.
  - intros n g Hg. apply (Hl n g). by eapply lookup_weaken.
Qed.

Lemma set_channel_well_formed g c c' b :
  well_formed b -> br_channels b !! g = Some c -> ch_name c' = ch_name c ->
  ch_taken c' `prefix_of` ch_sent c' -> length (waiting c') <= COMMAND_QUEUE_DEPTH -> well_formed (set_channel g c' b).
Proof.
  intros [He Hl Hn H0 Ht Hb] Hc Hname Hp Hw. constructor; simpl; try done; try by apply map_Forall_insert_2.
  - intros n h Hh. destruct (He n h Hh) as (d & Hd & Hdn). destruct (decide (h = g)) as [->|Hne].
    + exists c'. rewrite lookup_insert_eq. split; [done|congruence].
    + exists d. by rewrite lookup_insert_ne.
  - intros n h Hh g' d [[<- <-]|[_ Hd]]%lookup_insert_Some Hdn; [apply (Hl n h Hh g c Hc); congruence|exact (Hl n h Hh g' d Hd Hdn)].
  - apply map_Forall_insert_2; [by apply (Hn g c)|done].
Qed.

Lemma unregister_well_formed n g b : well_formed b -> well_formed (unregister n g b).2.
Proof. intros Hw. unfold unregister. case_match; [|done]. apply set_entries_well_formed; [done|apply delete_subseteq]. Qed.

Lemma remove_well_formed n b : well_formed b -> well_formed (remove n b).2.
Proof. intros Hw. apply set_entries_well_formed; [done|apply delete_subseteq]. Qed.

Lemma send_well_formed n command b : well_formed b -> well_formed (send n command b).2.
Proof.
  intros Hw. unfold send. destruct (br_entries b !! n) as [g|]; [|done]. destruct (br_channels b !! g) as [c|] eqn:Hc; [|done].
  destruct (ch_open c); cbn [negb]; [|apply set_entries_well_formed; [done|apply delete_subseteq]].
  destruct (Nat.leb_spec COMMAND_QUEUE_DEPTH (length (waiting c))); simpl; [done|].
  pose proof (wf_taken _ Hw g c Hc) as Hp. simpl in Hp.
  apply (set_channel_well_formed g c); simpl; try done; [by apply prefix_app_r|].
  unfold waiting in *. simpl. pose proof (prefix_length _ _ Hp) as Hl. rewrite drop_app_le, length_app by lia. simpl. lia.
Qed.

Lemma recv_well_formed g b : well_formed b -> well_formed (recv g b).2.
Proof.
  intros Hw. unfold recv. destruct (br_channels b !! g) as [c|] eqn:Hc; [|done].
  destruct (waiting c) as [|command rest] eqn:E; [by case_match|]. simpl.
  pose proof (wf_taken _ Hw g c Hc) as Hp. pose proof (wf_bound _ Hw g c Hc) as Hb. simpl in Hp, Hb.
  pose proof (prefix_waiting c Hp) as Hs. rewrite E in Hs, Hb.
  apply (set_channel_well_formed g c); simpl; try done.
  - exists rest. by rewrite Hs, <- app_assoc.
  - unfold waiting. simpl. rewrite Hs, length_drop, !length_app. simpl in *. lia.
Qed.

Lemma hang_up_well_formed g b : well_formed b -> well_formed (hang_up g b).
Proof.
  intros Hw. unfold hang_up. destruct (br_channels b !! g) as [c|] eqn:Hc; [|done].
  apply (set_channel_well_formed g c); try done; [by apply (wf_taken _ Hw g c)|exact (wf_bound _ Hw g c Hc)].
Qed.

(** ** Channels keep their names *)

Definition named (b : PiBridges) (n : string) (g : Z) : Prop := exists c, br_channels b !! g = Some c /\ ch_name c = n.

Definition extends (b b' : PiBridges) : Prop := forall n g, named b n g -> named b' n g.

Lemma extends_refl b : extends b b. Proof. by intros n g. Qed.

Lemma extends_set g c c' b : br_channels b !! g = Some c -> ch_name c' = ch_name c -> extends b (set_channel g c' b).
Proof.
  intros Hc Hn n h (d & Hd & Hdn). unfold named. simpl. destruct (decide (h = g)) as [->|Hne].
  - exists c'. rewrite lookup_insert_eq. split; [done|congruence].
  - exists d. by rewrite lookup_insert_ne.
Qed.

Lemma extends_register n b : well_formed b -> extends b (register n b).2.
Proof.
  intros Hw n' g (d & Hd & Hdn). exists d. split; [|done]. simpl. rewrite lookup_insert_ne; [done|].
  pose proof (wf_next _ Hw g d Hd) as Hg. simpl in Hg. lia.
Qed.

Lemma registered_named n b : named (register n b).2 n (register n b).1.
Proof. eexists. simpl. by rewrite lookup_insert_eq. Qed.

Lemma extends_unregister n g b : extends b (unregister n g b).2.
Proof. unfold unregister. by case_match; intros n' h. Qed.

Lemma extends_remove n b : extends b (remove n b).2. Proof. by intros n' h. Qed.

Lemma extends_send n command b : extends b (send n command b).2.
Proof.
  unfold send. destruct (br_entries b !! n) as [g|]; [|apply extends_refl].
  destruct (br_channels b !! g) as [c|] eqn:Hc; [|apply extends_refl].
  repeat case_match; try by intros n' h. by apply (extends_set g c).
Qed.

Lemma extends_recv g b : extends b (recv g b).2.
Proof.
  unfold recv. destruct (br_channels b !! g) as [c|] eqn:Hc; [|apply extends_refl].
  repeat case_match; try by intros n' h. by apply (extends_set g c).
Qed.

Lemma extends_hang_up g b : extends b (hang_up g b).
Proof. unfold hang_up. destruct (br_channels b !! g) as [c|] eqn:Hc; [by apply (extends_set g c)|apply extends_refl]. Qed.

(** ** What happens to one channel *)

Lemma send_channel n command b g c' :
  br_channels (send n command b).2 !! g = Some c' ->
  exists c, br_channels b !! g = Some c /\ ch_taken c' = ch_taken c /\ (ch_sent c' = ch_sent c \/ ch_sent c' = ch_sent c ++ [command]).
Proof.
  unfold send. destruct (br_entries b !! n) as [h|]; [|by exists c'; auto].
  destruct (br_channels b !! h) as [c|] eqn:Hc; [|by exists c'; auto].
  repeat case_match; try by exists c'; auto. simpl.
  intros [[<- <-]|[_ Hg]]%lookup_insert_Some; [exists c|exists c']; auto.
Qed.

Lemma recv_command g b command :
  well_formed b -> (recv g b).1 = R_Command command ->
  exists c, br_channels b !! g = Some c
    /\ (recv g b).2 = set_channel g (mk_channel (ch_name c) (ch_sent c) (ch_taken c ++ [command]) (ch_open c)) b.
Proof.
  intros Hw. unfold recv. destruct (br_channels b !! g) as [c|] eqn:Hc; [|done].
  destruct (waiting c) as [|command' rest]; [by case_match|]. intros [= ->]. by exists c.
Qed.

Create HintDb bridge.
#[export] Hint Resolve new_well_formed register_well_formed unregister_well_formed remove_well_formed
  send_well_formed recv_well_formed hang_up_well_formed extends_refl extends_register extends_unregister extends_remove
  extends_send extends_recv extends_hang_up registered_named : bridge.

(** An old registration's end does not erase the one that replaced it. *)
Lemma replaced_survives n g b :
  well_formed b -> (g <= br_next b)%Z -> let '(g', b') := register n b in unregister n g b' = (false, b').
Proof.
  intros Hw Hle. simpl. unfold unregister, is_current. simpl. rewrite lookup_insert_eq.
  rewrite bool_decide_false; [done|]. intros [= E]. lia.
Qed.
