(* ===== verification/Requests.v ===== *)
(** * The daemon's request handlers

    [handle_frame], [handle_control] and the end of [handle_connection] of
    [crates/amber/src/daemon.rs].  A handler is a program ([prog]) whose nodes are
    its calls to the session manager, the terminals, the watchers, the registry of
    Pi bridges and the connection ([action]); it goes on with what the call
    answered.  [wp] runs a program against any reading of the calls; here they may
    answer anything, in [Daemon] they act on what connections share. *)
From S2P Require Import Prelude Utf8 Wire PiCommand Store Browser.
From S2P Require Search DaemonAttach.

Definition PI_EVENT_MAX_BYTES : Z := 4 * 1024 * 1024.

(** What is used of [BudgetStatus]. *)
Record BudgetStatus := mk_budget_status {
  bs_configured_mb : option Z;
  bs_effective_budget_kb : option Z;
  bs_cgroup_limit_kb : option Z;
  bs_session_high_kb : Z }.

(** [Subscription]'s fields the read thread uses. *)
Record Subscribed := mk_subscribed { sb_id : Z; sb_end_offset : Z; sb_full : bool }.

Section Requests.
Context {Value : Type} `{JsonValue Value}.
(** The length of [serde_json::to_vec], and the text of a refused command. *)
Context (to_vec : Value -> result Z string) (refusal : PiCommand -> PiError -> string).

Abbreviation ControlMsg := (ControlMsg Value).
Abbreviation Frame := (Frame Value).

(** The threads a handler starts: an attached terminal's forwarder ([DaemonAttach]), a
    bridge's ([Daemon]), a scrollback dump and a search ([Search]). *)
Inductive thread :=
| T_forward (name : string) (sess : nat) (sub : Subscribed) (skip_backlog resume : bool)
| T_bridge (name : string) (generation : Z)
| T_dump (name : string) (sess : nat)
| T_search (token request_id : Z) (query : string) (names : list string) (limit : Z).

(** Calls, by what they are made on: the manager, a terminal (by its handle), the
    watchers, the bridges, the usage cache, the connection. *)
Inductive action :=
| A_create_with_title (name cwd : string) (kind : SessionKind) (title : option string)
| A_rename (from to : string)
| A_remove (name : string)
| A_set_title (name : string) (title : option string)
| A_record_pi_hook (name event session_id : string) (session_file : option string) (cwd : string) (pid start : Z)
| A_set_run_state_report (name state : string) (seq : Z)
| A_suspend (name : string)
| A_resume (name : string)
| A_focus_session (name : string)
| A_set_memory_budget (mb : option Z)
| A_get_memory_budget
| A_reap
| A_snapshot
| A_recovery_events (limit : Z)
| A_clear_recovery_events
| A_resize (name : string) (rows cols : Z)
| A_write (name : string) (bytes : list byte)
| A_names
| A_session (name : string)
| A_session_infos
| A_session_kind (name : string)
| A_record_recovery_event (level event : string) (session : option string) (detail : string)
| A_subscribe_from (sess : nat) (epoch offset : Z)
| A_unsubscribe (sess : nat) (id : Z)
| A_size (sess : nat)
| A_pty_resize (sess : nat) (rows cols : Z)
| A_scrollback_epoch (sess : nat)
| A_broadcast (msg : ControlMsg)
| A_broadcast_pi (msg : ControlMsg)
| A_register_sessions
| A_register_pressure (version : Z)
| A_register_pi (version : Z)
| A_bridge_register (name : string)
| A_bridge_unregister (name : string) (generation : Z)
| A_bridge_remove (name : string)
| A_bridge_contains (name : string)
| A_bridge_is_current (name : string) (generation : Z)
| A_bridge_send (name : string) (command : PiCommand)
| A_request_refresh
| A_usage_snapshot
| A_write_frame (frame : Frame)
| A_next_search_epoch
| A_spawn (t : thread).

(** What a call returns. *)
Definition answer (a : action) : Type :=
  match a with
  | A_create_with_title _ _ _ _ | A_remove _ | A_record_pi_hook _ _ _ _ _ _ _ | A_suspend _ | A_focus_session _
  | A_snapshot | A_clear_recovery_events | A_resize _ _ _ | A_write _ _ | A_bridge_send _ _ => result unit string
  | A_rename _ _ | A_set_title _ _ => result SessionInfo string
  | A_set_run_state_report _ _ _ | A_resume _ => result bool string
  | A_set_memory_budget _ | A_get_memory_budget => result BudgetStatus string
  | A_recovery_events _ => result (list RecoveryEvent) string
  | A_reap => result (list string) string
  | A_names => list string
  | A_session _ => option nat
  | A_session_infos => result (list SessionInfo) string
  | A_session_kind _ => option SessionKind
  | A_subscribe_from _ _ _ => Subscribed
  | A_size _ => option (Z * Z)
  | A_pty_resize _ _ _ | A_bridge_unregister _ _ | A_bridge_remove _ | A_bridge_contains _ | A_bridge_is_current _ _
  | A_write_frame _ => bool
  | A_scrollback_epoch _ | A_bridge_register _ | A_next_search_epoch => Z
  | A_usage_snapshot => list ProviderUsage
  | _ => unit
  end.

(** The read thread's own state: [subscriptions] and [pi_registration]. *)
Record Conn := mk_conn { cn_subscriptions : list (string * nat * Z); cn_pi : option (string * Z) }.

Inductive prog :=
| act (a : action) (k : answer a -> prog)
| halt (c : Conn).

(** Calls one after the other; a call whose result is dropped. *)
#[local] Notation "x <~ a ; k" := (act a (fun x => k)) (at level 100, a at next level, right associativity).
#[local] Notation "a ;~ k" := (act a (fun _ => k)) (at level 100, right associativity).

(** ** Frames *)

Definition reply (msg : ControlMsg) : action := A_write_frame (F_Control msg).
Definition error (msg : string) : action := reply (M_Error _ msg).

Definition parse_kind (kind : string) : result SessionKind string :=
  let is_ s := bool_decide (kind = s) in
  if is_ "shell" then Ok Shell else if is_ "claude" then Ok Claude else if is_ "grok" then Ok Grok
  else if is_ "codex" then Ok Codex else if is_ "opencode" then Ok OpenCode else if is_ "hermes" then Ok Hermes
  else if is_ "pi" then Ok Pi else if is_ "muse" then Ok Muse
  else Err ("unknown session kind: " +:+ kind).

Definition validate_pi_event (event : Value) : result unit string :=
  match field event "kind" with
  | None => Err "Pi event is missing a string kind"
  | Some kind =>
      if bool_decide (kind = "") then Err "Pi event kind must not be empty"
      else len <-? to_vec event;
           if (PI_EVENT_MAX_BYTES <? len)%Z then Err "Pi event exceeds the 4 MiB limit" else Ok tt
  end.

(** [unwrap_or_default] of the sessions, [ok()] and [find]. *)
Definition sessions_or_none (r : result (list SessionInfo) string) : list SessionInfo :=
  match r with Ok infos => infos | Err _ => [] end.
Definition find_info (name : string) (r : result (list SessionInfo) string) : option SessionInfo :=
  find_first (fun i => bool_decide (si_name i = name)) (sessions_or_none r).

Definition changed (info : SessionInfo) : ControlMsg := M_SessionsChanged _ [info] [].
Definition unavailable (name : string) : ControlMsg := M_PiBridgeStatus _ name false.

Definition budget_applied (s : BudgetStatus) : ControlMsg :=
  M_BudgetApplied _ (default 0%Z (bs_configured_mb s)) (default 0%Z (bs_effective_budget_kb s))
    (default 0%Z (bs_cgroup_limit_kb s)) (bs_session_high_kb s).

(** ** Shared pieces *)

(** [subscriptions.retain], releasing those of [name]. *)
Fixpoint release (name : string) (subs : list (string * nat * Z)) (k : list (string * nat * Z) -> prog) : prog :=
  match subs with
  | [] => k []
  | (n, sess, id) :: rest =>
      if bool_decide (n = name) then A_unsubscribe sess id ;~ release name rest k
      else release name rest (fun kept => k ((n, sess, id) :: kept))
  end.

(** A fresh [SessionInfo] of [name] to the watchers, if there is one. *)
Definition publish (name : string) (k : prog) : prog :=
  infos <~ A_session_infos;
  match find_info name infos with Some info => A_broadcast (changed info) ;~ k | None => k end.

(** The status of every Pi session to a new watcher. *)
Fixpoint pi_statuses (infos : list SessionInfo) (k : prog) : prog :=
  match infos with
  | [] => k
  | info :: rest =>
      if bool_decide (si_kind info = Store.as_str Pi)
      then available <~ A_bridge_contains (si_name info);
           reply (M_PiBridgeStatus _ (si_name info) available) ;~ pi_statuses rest k
      else pi_statuses rest k
  end.

(** The bridge of a name that is gone. *)
Definition forget_bridge (name : string) (k : prog) : prog :=
  removed <~ A_bridge_remove name;
  if removed then A_broadcast_pi (unavailable name) ;~ k else k.

Definition outcome (r : result unit string) (k : prog) : prog :=
  match r with Ok _ => k | Err e => error e ;~ k end.

(** ** Handlers *)

Definition handle_create (c : Conn) (name cwd kind : string) (title : option string) : prog :=
  match parse_kind kind with
  | Err e => error e ;~ halt c
  | Ok k =>
      result <~ A_create_with_title name cwd k title;
      match result with
      | Err e => error e ;~ halt c
      | Ok _ =>
          reply (M_Created _ name) ;~
          infos <~ A_session_infos;
          let info := find_info name infos in
          let journal := A_record_recovery_event "info" "session.created" (Some name)
                           ("created " +:+ kind +:+ " session in " +:+ cwd) ;~ halt c in
          let announce := match info with Some info => A_broadcast (changed info) ;~ journal | None => journal end in
          match title, info with
          | Some _, Some info => reply (M_TitleSet _ name (si_title info)) ;~ announce
          | _, _ => announce
          end
      end
  end.

Definition handle_attach (c : Conn) (name : string) (raw_client : bool) (resume : option AttachResume) : prog :=
  sess <~ A_session name;
  match sess with
  | None => error ("no such session: " +:+ name) ;~ halt c
  | Some sess =>
      release name (cn_subscriptions c) (fun subs =>
      sub <~ A_subscribe_from sess (from_option ar_epoch 0%Z resume) (from_option ar_offset 0%Z resume);
      kind <~ A_session_kind name;
      let skip_backlog := DaemonAttach.suppress_backlog raw_client (option_map Store.is_agent kind) in
      let c := mk_conn (subs ++ [(name, sess, sb_id sub)]) (cn_pi c) in
      let resumes := bool_decide (is_Some resume) in
      let forward := A_spawn (T_forward name sess sub skip_backlog resumes) ;~ halt c in
      let announce :=
        if resumes && negb skip_backlog then
          epoch <~ A_scrollback_epoch sess;
          written <~ reply (M_AttachBacklog _ name epoch (sb_end_offset sub) (sb_full sub));
          if written : bool then forward else A_unsubscribe sess (sb_id sub) ;~ halt c
        else forward in
      if skip_backlog then
        size <~ A_size sess;
        match size with
        | Some (rows, cols) =>
            A_pty_resize sess rows (Z.max 1 (Z.max 0 (cols - 1))) ;~
            A_pty_resize sess rows cols ;~
            announce
        | None => announce
        end
      else announce)
  end.

Definition handle_rename (c : Conn) (from to : string) : prog :=
  result <~ A_rename from to;
  match result with
  | Err e => error e ;~ halt c
  | Ok info =>
      release from (cn_subscriptions c) (fun subs =>
      forget_bridge from (
      A_broadcast (M_SessionsChanged _ [info] [from]) ;~
      A_record_recovery_event "info" "session.renamed" (Some to) ("renamed from " +:+ from) ;~
      reply (M_Created _ to) ;~
      halt (mk_conn subs (cn_pi c))))
  end.

Definition handle_kill (c : Conn) (name : string) : prog :=
  sess <~ A_session name;
  result <~ A_remove name;
  match result with
  | Err e => error e ;~ halt c
  | Ok _ =>
      if bool_decide (is_Some sess) then
        forget_bridge name (
        A_broadcast (M_SessionsChanged _ [] [name]) ;~
        A_record_recovery_event "info" "session.killed" (Some name) "session killed by client request" ;~
        halt c)
      else halt c
  end.

Definition handle_hello (c : Conn) (name : string) : prog :=
  kind <~ A_session_kind name;
  if bool_decide (kind <> Some Pi)
  then error ("Pi bridge rejected for non-Pi or missing session: " +:+ name) ;~ halt c
  else
    let register :=
      generation <~ A_bridge_register name;
      A_spawn (T_bridge name generation) ;~
      A_broadcast_pi (M_PiBridgeStatus _ name true) ;~
      halt (mk_conn (cn_subscriptions c) (Some (name, generation))) in
    match cn_pi c with
    | Some (old_name, old_generation) => A_bridge_unregister old_name old_generation ;~ register
    | None => register
    end.

Definition handle_bridge_command (c : Conn) (name : string) (command : PiCommand) : prog :=
  kind <~ A_session_kind name;
  if bool_decide (kind <> Some Pi) then error ("not a Pi session: " +:+ name) ;~ halt c
  else match validate_pi_command command with
  | Err e => error (refusal command e) ;~ halt c
  | Ok _ =>
      present <~ A_bridge_contains name;
      if negb present then reply (unavailable name) ;~ halt c
      else
        sent <~ A_bridge_send name command;
        match sent with
        | Ok _ => halt c
        | Err e =>
            present <~ A_bridge_contains name;
            if negb present then reply (unavailable name) ;~ A_broadcast_pi (unavailable name) ;~ halt c
            else error e ;~ halt c
        end
  end.

(** The conjunction is evaluated from the left and no further than needed. *)
Definition authorized (c : Conn) (name : string) (k : bool -> prog) : prog :=
  match cn_pi c with
  | Some (registered, generation) =>
      if bool_decide (registered = name) then
        kind <~ A_session_kind name;
        if bool_decide (kind = Some Pi) then current <~ A_bridge_is_current name generation; k current else k false
      else k false
  | None => k false
  end.

Definition handle_pi_event (c : Conn) (name : string) (seq : Z) (event : Value) : prog :=
  authorized c name (fun ok =>
  if negb ok then error ("unregistered Pi bridge event for session " +:+ name) ;~ halt c
  else match validate_pi_event event with
  | Ok _ => A_broadcast_pi (M_PiEvent _ name seq event) ;~ halt c
  | Err e => error e ;~ halt c
  end).

Definition handle_search (c : Conn) (request_id : Z) (query : string) (names : list string) (limit : Z) : prog :=
  if negb (is_ok (Search.validate_query (chars query)))
     || (1000 <? length names) || existsb (fun name => 512 <? String.length name) names
  then error "invalid scrollback search request" ;~ halt c
  else token <~ A_next_search_epoch; A_spawn (T_search token request_id query names limit) ;~ halt c.

Definition handle_control (c : Conn) (msg : ControlMsg) : prog :=
  match msg with
  | M_Create _ name cwd kind title => handle_create c name cwd kind title
  | M_ListSessions _ => names <~ A_names; reply (M_SessionList _ names) ;~ halt c
  | M_Attach _ name raw_client _ resume => handle_attach c name raw_client resume
  | M_PiHook _ name event session_id session_file cwd pid start =>
      result <~ A_record_pi_hook name event session_id session_file cwd pid start;
      match result with
      | Ok _ => reply (M_PiHookAck _ name) ;~ publish name (halt c)
      | Err e => error e ;~ halt c
      end
  | M_ReportRunState _ name state seq =>
      result <~ A_set_run_state_report name state seq;
      match result with
      | Ok applied =>
          let ack := reply (M_RunStateAck _ name seq) ;~ halt c in
          if applied : bool then publish name ack else ack
      | Err e => error e ;~ halt c
      end
  | M_Suspend _ name =>
      result <~ A_suspend name;
      match result with
      | Ok _ => A_record_recovery_event "info" "session.suspended" (Some name) "manually suspended" ;~ halt c
      | Err e => error e ;~ halt c
      end
  | M_Resume _ name =>
      result <~ A_resume name;
      match result with
      | Ok true => A_record_recovery_event "info" "session.resumed" (Some name) "manually resumed" ;~ halt c
      | Ok false => halt c
      | Err e => error e ;~ halt c
      end
  | M_SetMemoryBudget _ mb =>
      result <~ A_set_memory_budget (if (mb =? 0)%Z then None else Some mb);
      match result with
      | Ok status => reply (budget_applied status) ;~ halt c
      | Err e => error e ;~ halt c
      end
  | M_GetMemoryBudget _ =>
      result <~ A_get_memory_budget;
      match result with
      | Ok status => reply (budget_applied status) ;~ halt c
      | Err e => error e ;~ halt c
      end
  | M_Focus _ name => result <~ A_focus_session name; outcome result (halt c)
  | M_DumpBacklog _ name =>
      sess <~ A_session name;
      match sess with
      | None => error ("no such session: " +:+ name) ;~ halt c
      | Some sess => A_spawn (T_dump name sess) ;~ halt c
      end
  | M_SearchScrollback _ request_id query names limit => handle_search c request_id query names limit
  | M_Snapshot _ =>
      result <~ A_snapshot;
      match result with
      | Ok _ =>
          A_record_recovery_event "info" "snapshot.completed" None "explicit snapshot completed" ;~
          reply (M_SnapshotOk _) ;~ halt c
      | Err e => A_record_recovery_event "error" "snapshot.failed" None e ;~ error e ;~ halt c
      end
  | M_ListRecoveryEvents _ limit =>
      result <~ A_recovery_events limit;
      match result with
      | Ok events => reply (M_RecoveryEvents _ events) ;~ halt c
      | Err e => error e ;~ halt c
      end
  | M_ClearRecoveryEvents _ =>
      result <~ A_clear_recovery_events;
      match result with
      | Ok _ => reply (M_RecoveryEventsCleared _) ;~ halt c
      | Err e => error e ;~ halt c
      end
  | M_Resize _ name cols rows => A_resize name rows cols ;~ halt c
  | M_Kill _ name => handle_kill c name
  | M_WatchSessions _ => A_register_sessions ;~ halt c
  | M_WatchMemoryPressure _ version => A_register_pressure version ;~ halt c
  | M_WatchPiEvents _ version =>
      A_register_pi version ;~
      (if (1 <=? version)%Z then infos <~ A_session_infos; pi_statuses (sessions_or_none infos) (halt c) else halt c)
  | M_PiBridgeHello _ name => handle_hello c name
  | M_PiBridgeCommand _ name command => handle_bridge_command c name command
  | M_PiEvent _ name seq event => handle_pi_event c name seq event
  | M_ListSessionsDetailed _ =>
      infos <~ A_session_infos; reply (M_Sessions _ (sessions_or_none infos)) ;~ halt c
  | M_Detach _ name =>
      release name (cn_subscriptions c) (fun subs => halt (mk_conn subs (cn_pi c)))
  | M_Rename _ from to => handle_rename c from to
  | M_SetTitle _ name title =>
      result <~ A_set_title name title;
      match result with
      | Err e => error e ;~ halt c
      | Ok info =>
          reply (M_TitleSet _ name (si_title info)) ;~
          A_broadcast (changed info) ;~
          halt c
      end
  | M_GetUsage _ => providers <~ A_usage_snapshot; reply (M_Usage _ providers) ;~ halt c
  | M_RefreshUsage _ =>
      A_request_refresh ;~ providers <~ A_usage_snapshot; reply (M_Usage _ providers) ;~ halt c
  | _ => halt c
  end.

Definition handle_frame (c : Conn) (frame : Frame) : prog :=
  match frame with
  | F_Control msg => handle_control c msg
  | F_Data session bytes => A_write session bytes ;~ halt c
  | F_Backlog _ _ => halt c
  end.

Fixpoint unsubscribe_all (subs : list (string * nat * Z)) (k : prog) : prog :=
  match subs with
  | [] => k
  | (_, sess, id) :: rest => A_unsubscribe sess id ;~ unsubscribe_all rest k
  end.

(** What [handle_connection] does once its loop has ended. *)
Definition end_connection (c : Conn) : prog :=
  A_next_search_epoch ;~
  unsubscribe_all (cn_subscriptions c)
    (match cn_pi c with
     | Some (name, generation) =>
         was_current <~ A_bridge_unregister name generation;
         if was_current then A_broadcast_pi (unavailable name) ;~ halt (mk_conn [] None) else halt (mk_conn [] None)
     | None => halt (mk_conn [] None)
     end).
(** One round of the thread of [daemon_main] ([lib.rs]) that buries dead sessions. *)
Definition reap_tick : prog :=
  result <~ A_reap;
  let snapshot := A_snapshot ;~ halt (mk_conn [] None) in
  match result with
  | Ok [] | Err _ => snapshot
  | Ok reaped => A_broadcast (M_SessionsChanged _ [] reaped) ;~ snapshot
  end.

(** ** Running a program *)

(** [does a s Q]: from [s], whatever [a] answers and leaves, [Q] holds of it. *)
Section Wp.
Context {St : Type} (does : forall a : action, St -> (answer a -> St -> Prop) -> Prop).

Fixpoint wp (p : prog) (s : St) (Q : Conn -> St -> Prop) : Prop :=
  match p with
  | halt c => Q c s
  | act a k => does a s (fun r s' => wp (k r) s' Q)
  end.

Hypothesis does_mono : forall a s (Q Q' : answer a -> St -> Prop),
  (forall r s', Q r s' -> Q' r s') -> does a s Q -> does a s Q'.

(** A loop of calls that keep [I]. *)
Lemma wp_release (I : St -> Prop) name subs k s Q :
  I s -> (forall sess id s, I s -> does (A_unsubscribe sess id) s (fun _ => I)) ->
  (forall kept s, I s -> kept = List.filter (fun x => negb (bool_decide (x.1.1 = name))) subs -> wp (k kept) s Q) ->
  wp (release name subs k) s Q.
Proof.
  intros Hs Hu. revert k s Hs. induction subs as [|[[n sess] id] subs IH]; intros k s Hs Hk; simpl; [by apply Hk|].
  case_bool_decide as E; simpl.
  - apply (does_mono _ _ (fun _ => I)); [|by apply Hu]. intros r s' Hs'. apply IH; [done|]. intros kept s'' Hs'' ->. apply Hk; [done|].
    simpl. by rewrite bool_decide_true.
  - apply IH; [done|]. intros kept s'' Hs'' ->. apply Hk; [done|]. simpl. by rewrite bool_decide_false.
Qed.
End Wp.

(** ** What a request is answered, whatever the calls return *)

(** The trace of a handler: frames it wrote, what it told the watchers, what it wrote
    to the journal, how its main call ended, and the checks of a bridge that held. *)
Record Trace := mk_trace {
  tr_replies : list ControlMsg;
  tr_told : list ControlMsg;
  tr_told_pi : list ControlMsg;
  tr_journal : list (string * option string);
  tr_result : option (option string);
  tr_bridge : list (string * Z);
  tr_pi : list string }.

Definition no_trace : Trace := mk_trace [] [] [] [] None [] [].

Definition ended {A} (r : result A string) (t : Trace) : Trace :=
  mk_trace (tr_replies t) (tr_told t) (tr_told_pi t) (tr_journal t)
    (Some (match r with Ok _ => None | Err e => Some e end)) (tr_bridge t) (tr_pi t).

Definition note (a : action) : answer a -> Trace -> Trace :=
  match a with
  | A_create_with_title _ _ _ _ | A_remove _ | A_record_pi_hook _ _ _ _ _ _ _ | A_suspend _ | A_focus_session _
  | A_snapshot | A_clear_recovery_events | A_rename _ _ | A_set_title _ _ | A_set_run_state_report _ _ _ | A_resume _
  | A_set_memory_budget _ | A_get_memory_budget | A_recovery_events _ => fun r t => ended r t
  | A_write_frame (F_Control m) => fun _ t =>
      mk_trace (tr_replies t ++ [m]) (tr_told t) (tr_told_pi t) (tr_journal t) (tr_result t) (tr_bridge t) (tr_pi t)
  | A_broadcast m => fun _ t =>
      mk_trace (tr_replies t) (tr_told t ++ [m]) (tr_told_pi t) (tr_journal t) (tr_result t) (tr_bridge t) (tr_pi t)
  | A_broadcast_pi m => fun _ t =>
      mk_trace (tr_replies t) (tr_told t) (tr_told_pi t ++ [m]) (tr_journal t) (tr_result t) (tr_bridge t) (tr_pi t)
  | A_record_recovery_event _ event session _ => fun _ t =>
      mk_trace (tr_replies t) (tr_told t) (tr_told_pi t) (tr_journal t ++ [(event, session)]) (tr_result t) (tr_bridge t) (tr_pi t)
  | A_bridge_is_current n g => fun r t =>
      mk_trace (tr_replies t) (tr_told t) (tr_told_pi t) (tr_journal t) (tr_result t)
        (if r : bool then (n, g) :: tr_bridge t else tr_bridge t) (tr_pi t)
  | A_session_kind n => fun r t =>
      mk_trace (tr_replies t) (tr_told t) (tr_told_pi t) (tr_journal t) (tr_result t) (tr_bridge t)
        (if bool_decide (r = Some Pi) then n :: tr_pi t else tr_pi t)
  | _ => fun _ t => t
  end.

(** The calls answer anything. *)
Definition anything (a : action) (t : Trace) (Q : answer a -> Trace -> Prop) : Prop := forall r, Q r (note a r t).

(** The watchers are told of nothing, or of the session as it is. *)
Definition mentions (name : string) (t : Trace) : Prop :=
  tr_told t = [] \/ exists info, si_name info = name /\ tr_told t = [changed info].

Definition others (name : string) (c : Conn) : list (string * nat * Z) :=
  List.filter (fun x => negb (bool_decide (x.1.1 = name))) (cn_subscriptions c).

Definition only_replies (t : Trace) (msgs : list ControlMsg) : Prop :=
  tr_replies t = msgs /\ tr_told t = [] /\ tr_told_pi t = [] /\ tr_journal t = [].

(** The main call failed: its error is all that is said. *)
Definition refused (msg : ControlMsg) (e : string) (t : Trace) : Prop :=
  tr_replies t = [M_Error _ e] /\ tr_told t = [] /\ tr_told_pi t = []
  /\ tr_journal t = match msg with M_Snapshot _ => [("snapshot.failed", None)] | _ => [] end.

(** The main call succeeded. *)
Definition acknowledged (c : Conn) (msg : ControlMsg) (c' : Conn) (t : Trace) : Prop :=
  match msg with
  | M_Create _ n _ _ title =>
      c' = c /\ mentions n t /\ tr_told_pi t = [] /\ tr_journal t = [("session.created", Some n)]
      /\ (tr_replies t = [M_Created _ n]
          \/ is_Some title /\ exists info, tr_told t = [changed info] /\ tr_replies t = [M_Created _ n; M_TitleSet _ n (si_title info)])
  | M_PiHook _ n _ _ _ _ _ _ =>
      c' = c /\ mentions n t /\ tr_told_pi t = [] /\ tr_journal t = [] /\ tr_replies t = [M_PiHookAck _ n]
  | M_ReportRunState _ n _ seq =>
      c' = c /\ mentions n t /\ tr_told_pi t = [] /\ tr_journal t = [] /\ tr_replies t = [M_RunStateAck _ n seq]
  | M_Suspend _ n =>
      c' = c /\ tr_replies t = [] /\ tr_told t = [] /\ tr_told_pi t = [] /\ tr_journal t = [("session.suspended", Some n)]
  | M_Resume _ n =>
      c' = c /\ tr_replies t = [] /\ tr_told t = [] /\ tr_told_pi t = []
      /\ (tr_journal t = [] \/ tr_journal t = [("session.resumed", Some n)])
  | M_SetMemoryBudget _ _ | M_GetMemoryBudget _ => c' = c /\ exists status, only_replies t [budget_applied status]
  | M_Focus _ _ => c' = c /\ only_replies t []
  | M_Snapshot _ =>
      c' = c /\ tr_replies t = [M_SnapshotOk _] /\ tr_told t = [] /\ tr_told_pi t = [] /\ tr_journal t = [("snapshot.completed", None)]
  | M_ListRecoveryEvents _ _ => c' = c /\ exists events, only_replies t [M_RecoveryEvents _ events]
  | M_ClearRecoveryEvents _ => c' = c /\ only_replies t [M_RecoveryEventsCleared _]
  | M_Kill _ n =>
      c' = c /\ tr_replies t = []
      /\ (tr_told t = [] /\ tr_told_pi t = [] /\ tr_journal t = []
          \/ tr_told t = [M_SessionsChanged _ [] [n]] /\ tr_journal t = [("session.killed", Some n)]
             /\ (tr_told_pi t = [] \/ tr_told_pi t = [unavailable n]))
  | M_Rename _ from to =>
      c' = mk_conn (others from c) (cn_pi c) /\ tr_replies t = [M_Created _ to]
      /\ (exists info, tr_told t = [M_SessionsChanged _ [info] [from]])
      /\ (tr_told_pi t = [] \/ tr_told_pi t = [unavailable from]) /\ tr_journal t = [("session.renamed", Some to)]
  | M_SetTitle _ n _ =>
      c' = c /\ tr_told_pi t = [] /\ tr_journal t = []
      /\ exists info, tr_replies t = [M_TitleSet _ n (si_title info)] /\ tr_told t = [changed info]
  | _ => False
  end.

(** There was no main call. *)
Definition answered (c : Conn) (msg : ControlMsg) (c' : Conn) (t : Trace) : Prop :=
  match msg with
  | M_Create _ _ _ kind _ => c' = c /\ exists e, parse_kind kind = Err e /\ only_replies t [M_Error _ e]
  | M_ListSessions _ => c' = c /\ exists names, only_replies t [M_SessionList _ names]
  | M_Attach _ n _ _ resume =>
      c' = c /\ only_replies t [M_Error _ ("no such session: " +:+ n)]
      \/ exists sess sub, c' = mk_conn (others n c ++ [(n, sess, sb_id sub)]) (cn_pi c)
         /\ (only_replies t []
             \/ is_Some resume /\ exists epoch, only_replies t [M_AttachBacklog _ n epoch (sb_end_offset sub) (sb_full sub)])
  | M_Detach _ n => c' = mk_conn (others n c) (cn_pi c) /\ t = no_trace
  | M_DumpBacklog _ n => c' = c /\ (t = no_trace \/ only_replies t [M_Error _ ("no such session: " +:+ n)])
  | M_SearchScrollback _ _ _ _ _ => c' = c /\ (t = no_trace \/ only_replies t [M_Error _ "invalid scrollback search request"])
  | M_WatchPiEvents _ _ => c' = c /\ exists statuses, only_replies t (map (fun s => M_PiBridgeStatus _ s.1 s.2) statuses)
  | M_WatchSessions _ | M_WatchMemoryPressure _ _ | M_Resize _ _ _ _ => c' = c /\ t = no_trace
  | M_ListSessionsDetailed _ => c' = c /\ exists infos, only_replies t [M_Sessions _ infos]
  | M_GetUsage _ | M_RefreshUsage _ => c' = c /\ exists providers, only_replies t [M_Usage _ providers]
  | M_PiBridgeHello _ n =>
      tr_told t = []
      /\ (c' = c /\ (n ∉ tr_pi t) /\ tr_told_pi t = [] /\ (exists e, tr_replies t = [M_Error _ e])
          \/ n ∈ tr_pi t /\ tr_told_pi t = [M_PiBridgeStatus _ n true] /\ tr_replies t = []
             /\ exists g, c' = mk_conn (cn_subscriptions c) (Some (n, g)))
  | M_PiBridgeCommand _ n command =>
      c' = c /\ tr_told t = []
      /\ (n ∈ tr_pi t /\ validate_pi_command command = Ok tt /\ tr_replies t = [] /\ tr_told_pi t = []
          \/ tr_replies t = [unavailable n] /\ (tr_told_pi t = [] \/ tr_told_pi t = [unavailable n])
          \/ tr_told_pi t = [] /\ exists e, tr_replies t = [M_Error _ e])
  | M_PiEvent _ n seq event =>
      c' = c /\ tr_told t = []
      /\ (tr_replies t = [] /\ tr_told_pi t = [M_PiEvent _ n seq event] /\ validate_pi_event event = Ok tt
          /\ n ∈ tr_pi t /\ (exists g, cn_pi c = Some (n, g) /\ (n, g) ∈ tr_bridge t)
          \/ tr_told_pi t = [] /\ exists e, tr_replies t = [M_Error _ e])
  | M_PiHook _ _ _ _ _ _ _ _ | M_ReportRunState _ _ _ _ | M_Suspend _ _ | M_Resume _ _ | M_SetMemoryBudget _ _
  | M_GetMemoryBudget _ | M_Focus _ _ | M_Snapshot _ | M_ListRecoveryEvents _ _ | M_ClearRecoveryEvents _
  | M_Kill _ _ | M_Rename _ _ _ | M_SetTitle _ _ _ => False
  | _ => c' = c /\ t = no_trace
  end.

Definition protocol (c : Conn) (msg : ControlMsg) (c' : Conn) (t : Trace) : Prop :=
  match tr_result t with
  | Some (Some e) => c' = c /\ refused msg e t
  | Some None => acknowledged c msg c' t
  | None => answered c msg c' t
  end.

Lemma anything_mono a t (Q Q' : answer a -> Trace -> Prop) :
  (forall r t', Q r t' -> Q' r t') -> anything a t Q -> anything a t Q'.
Proof. intros HQ Ha r. apply HQ, Ha. Qed.

Lemma release_anything n c k t Q : wp anything (k (others n c)) t Q -> wp anything (release n (cn_subscriptions c) k) t Q.
Proof.
  intros Hk. apply (wp_release anything anything_mono (eq t)); [done|by intros sess id s -> r|].
  intros kept s <- ->. exact Hk.
Qed.

Lemma pi_statuses_anything infos c t Q :
  (forall statuses, Q c (mk_trace (tr_replies t ++ map (fun s => M_PiBridgeStatus _ s.1 s.2) statuses) (tr_told t) (tr_told_pi t)
                           (tr_journal t) (tr_result t) (tr_bridge t) (tr_pi t))) ->
  wp anything (pi_statuses infos (halt c)) t Q.
Proof.
  revert t. induction infos as [|info infos IH]; intros t HQ; simpl.
  - specialize (HQ []). destruct t. simpl in HQ. by rewrite app_nil_r in HQ.
  - case_bool_decide; [|by apply IH]. intros available written. apply IH. intros statuses. simpl.
    rewrite <- app_assoc. exact (HQ ((si_name info, available) :: statuses)).
Qed.

Lemma find_info_name n r info : find_info n r = Some info -> si_name info = n.
Proof. unfold find_info. intros [_ E]%find_first_Some. by apply bool_decide_eq_true in E. Qed.

(** Follow a handler through every answer. *)
Ltac drive :=
  repeat match goal with
  | |- wp anything (act _ _) _ _ => intros ?; cbn [note]
  | |- wp anything (release _ _ _) _ _ => apply release_anything
  | |- wp anything (match ?x with _ => _ end) _ _ => destruct x eqn:?
  | |- wp anything (halt _) _ _ => cbn [wp]
  | H : find_info _ _ = Some _ |- _ => apply find_info_name in H
  end.

(** Find the case of the protocol that applies. *)
Ltac conclude :=
  first [ reflexivity | eassumption | apply not_elem_of_nil | by apply list_elem_of_singleton | by eexists | by exists []
        | split; [conclude|conclude] | left; conclude | right; conclude | eexists; conclude ].

End Requests.
