(* ===== verification/Table.v ===== *)
(** * What the session manager promises its callers

    [SessionTable]: a table of live sessions with the calls that change it, as the
    request handlers and the reaper see it.  [SessionManager] ([Manager]) keeps it:
    [session_infos], [rename] and [set_title] of [crates/amber/src/manager.rs] with
    what they return, and the instance. *)
From S2P Require Import Prelude Utf8 Wire Store Manager Lifecycle.
From S2P Require RingBuf Suspend.

(** ** The interface *)

(** The sessions known by name; the calls relate the table before, what they return and
    the table after.  [tb_disturb] stands for all other calls and for what sessions do
    by themselves. *)
Class SessionTable (T : Type) := {
  tb_ok : T -> Prop;
  tb_names : T -> gset string;
  tb_create : string -> string -> SessionKind -> option string -> T -> result unit string -> T -> Prop;
  tb_rename : string -> string -> T -> result SessionInfo string -> T -> Prop;
  tb_remove : string -> T -> result unit string -> T -> Prop;
  tb_set_title : string -> option string -> T -> result SessionInfo string -> T -> Prop;
  tb_infos : T -> result (list SessionInfo) string -> T -> Prop;
  tb_reap : T -> result (list string) string -> T -> Prop;
  tb_disturb : T -> T -> Prop;
  tb_create_ok n cwd kind title t r t' : tb_ok t -> tb_create n cwd kind title t r t' ->
    tb_ok t' /\ tb_names t' = match r with Ok _ => {[n]} ∪ tb_names t | Err _ => tb_names t end;
  tb_rename_ok from to t r t' : tb_ok t -> tb_rename from to t r t' ->
    tb_ok t' /\ match r with
                | Ok info => si_name info = to /\ from ∈ tb_names t /\ tb_names t' = {[to]} ∪ tb_names t ∖ {[from]}
                | Err _ => tb_names t' = tb_names t
                end;
  tb_remove_ok n t r t' : tb_ok t -> tb_remove n t r t' ->
    tb_ok t' /\ tb_names t' = match r with Ok _ => tb_names t ∖ {[n]} | Err _ => tb_names t end;
  tb_set_title_ok n title t r t' : tb_ok t -> tb_set_title n title t r t' ->
    tb_ok t' /\ tb_names t' = tb_names t /\ forall info, r = Ok info -> si_name info = n /\ n ∈ tb_names t;
  tb_infos_ok t r t' : tb_ok t -> tb_infos t r t' ->
    tb_ok t' /\ tb_names t' = tb_names t /\ forall infos, r = Ok infos -> Forall (fun i => si_name i ∈ tb_names t) infos;
  tb_reap_ok t r t' : tb_ok t -> tb_reap t r t' ->
    tb_ok t' /\ tb_names t' = tb_names t ∖ match r with Ok names => list_to_set names | Err _ => ∅ end;
  tb_disturb_ok t t' : tb_ok t -> tb_disturb t t' -> tb_ok t' /\ tb_names t' = tb_names t }.

(** ** The manager's infos *)

(** What a terminal says of itself, and the branch of a directory. *)
Record Look := mk_look {
  lk_run_state : nat -> option string;
  lk_size : nat -> option (Z * Z);
  lk_branch : string -> option string }.

Section Infos.
Context {J : StateJson} (hs : Host) (lk : Look).

Definition safe_title (m : SessionMeta) : option string :=
  match validate_title (sm_title m) with Ok t => t | Err _ => None end.

Definition shown_state (state : option string) (origin : Suspend.SuspendOrigin) : option string :=
  match state, origin with
  | Some s, Suspend.O_Pressure => if bool_decide (s = "suspended") then Some "resource-suspended" else Some s
  | state, _ => state
  end.

(** [rename] shows the state as it is, [session_infos] as [shown_state] says. *)
Definition describe (show : option string -> Suspend.SuspendOrigin -> option string) (m : SessionMeta) (h : nat)
  : MM SessionInfo :=
  c <-m child h;
  claude <-m store (try (read_claude (sm_name m)));
  let size := lk_size lk h in
  mret (mk_session_info (sm_name m) (sm_cwd m) (as_str (sm_kind m))
    (match c with Some c => ch_alive c | None => false end) (safe_title m) (lk_branch lk (sm_cwd m)) (sm_updated m)
    (show (lk_run_state lk h) (match c with Some c => ch_origin c | None => Suspend.O_None end))
    (match claude with Ok (Some c) => Some (cm_session_id c) | _ => None end)
    (from_option snd 0%Z size) (from_option fst 0%Z size) (sm_slot m)).

Fixpoint describe_all (sessions : gmap string nat) (metas : list SessionMeta) : MM (list SessionInfo) :=
  match metas with
  | [] => mret []
  | persisted :: rest =>
      match sessions !! sm_name persisted with
      | None => describe_all sessions rest
      | Some h =>
          d <-m deferred_meta_for (sm_name persisted) h;
          info <-m describe shown_state (default persisted d) h;
          infos <-m describe_all sessions rest;
          mret (info :: infos)
      end
  end.

Definition session_infos : MM (list SessionInfo) :=
  g <-m manager;
  metas <-m store list_sessions;
  infos <-m describe_all (mg_sessions g) metas;
  mret (sort_by (fun a b => string_leb (si_name a) (si_name b)) infos).

(** [Manager.rename] and what it returns at its end. *)
Definition rename_info (from to : string) : MM SessionInfo :=
  meta <-m rename hs from to;
  h <-m session to;
  describe (fun state _ => state) meta (default 0 h).

(** [set_title], whose look at the sessions is [session_infos]. *)
Definition set_title_info (name : string) (title : option string) : MM SessionInfo :=
  match validate_title title with
  | Err e => mfail e
  | Ok title =>
      finish_pending_rename ;;m
      s <-m session name;
      match s with
      | None => mfail ("no such session: " +:+ name)
      | Some h =>
          meta <-m effective_meta_for name h;
          match meta with
          | None => mfail ("session " +:+ name +:+ " vanished from the store")
          | Some m =>
              store (write_session (with_title m title)) ;;m
              infos <-m session_infos;
              match find_first (fun i => bool_decide (si_name i = name)) infos with
              | Some info => mret info
              | None => mfail ("session " +:+ name +:+ " vanished after title update")
              end
          end
      end
  end.
End Infos.

(** ** The table over one operation *)

(** Deferred metadata is kept under its own name. *)
Definition keyed (w : World) : Prop := map_Forall (fun n x => sm_name (snd x) = n) (mg_deferred (w_manager w)).

Definition live_names (w : World) : gset string := dom (mg_sessions (w_manager w)).

Section Keeps.
Context {J : StateJson} (hs : Host) (lk : Look).

(** What an operation does to the table, however the files and the system fail. *)
Definition table {A} (m : MM A) (Q : result A string -> gmap string nat -> gmap string nat -> Prop) : Prop :=
  forall w, keyed w -> wp m w (fun r w' => keyed w' /\ Q r (mg_sessions (w_manager w)) (mg_sessions (w_manager w'))) (fun _ => True).

Definition keeps {A} (m : MM A) : Prop := table m (fun _ ss ss' => ss' = ss).

Lemma table_weaken {A} (m : MM A) (Q Q' : result A string -> gmap string nat -> gmap string nat -> Prop) :
  table m Q -> (forall r ss ss', Q r ss ss' -> Q' r ss ss') -> table m Q'.
Proof. intros Hm HQ w Hk. eapply wp_mono; [by apply Hm| |done]. intros r w' [? ?]. split; [done|by apply HQ]. Qed.

Lemma table_then {A B} (m : MM A) (k : A -> MM B) (Q : result B string -> gmap string nat -> gmap string nat -> Prop) :
  keeps m -> (forall e ss, Q (Err e) ss ss) -> (forall a, table (k a) Q) -> table (mthen m k) Q.
Proof.
  intros Hm He Hk w Hw. apply wp_then. eapply wp_mono; [by apply Hm| |done]. intros [a|e] w' [Hw' <-]; [by apply Hk|by split].
Qed.

Lemma keeps_then {A B} (m : MM A) (k : A -> MM B) : keeps m -> (forall a, keeps (k a)) -> keeps (mthen m k).
Proof. intros Hm Hk. by apply table_then. Qed.

Lemma keeps_ret {A} (a : A) : keeps (mret a). Proof. by intros w Hw. Qed.
Lemma keeps_fail {A} e : keeps (@mfail A e). Proof. by intros w Hw. Qed.

Lemma keeps_try {A} (m : MM A) : keeps m -> keeps (mtry m).
Proof. intros Hm w Hw. apply wp_try. by eapply wp_mono; [apply Hm|..]. Qed.

Lemma keeps_store {A} (m : M A) : keeps (store m).
Proof. intros w Hw. apply wp_store. by destruct (m (w_fs w) (w_faults w)). Qed.

Lemma keeps_ask : keeps ask. Proof. by intros w Hw. Qed.
Lemma keeps_emit e : keeps (emit e). Proof. by intros w Hw. Qed.
Lemma keeps_manager : keeps manager. Proof. by intros w Hw. Qed.
Lemma keeps_child h : keeps (child h). Proof. by intros w Hw. Qed.
Lemma keeps_update_child h f : keeps (update_child h f). Proof. by intros w Hw. Qed.
Lemma keeps_require e : keeps (require e).
Proof. apply keeps_then; [apply keeps_ask|]. intros []; [apply keeps_ret|apply keeps_fail]. Qed.

(** An update of the other tables. *)
Lemma keeps_update f : (forall g, mg_sessions (f g) = mg_sessions g) -> (forall g, mg_deferred (f g) ⊆ mg_deferred g) -> keeps (update f).
Proof.
  intros Hs Hd w Hw. split; [|apply Hs]. unfold keyed. simpl. intros n x Hx. apply (Hw n x). by eapply lookup_weaken.
Qed.

Create HintDb keeps.
Hint Resolve keeps_ret keeps_fail keeps_try keeps_store keeps_ask keeps_emit keeps_manager keeps_child keeps_update_child
  keeps_require : keeps.

Ltac keep :=
  repeat first
    [ by auto with keeps
    | apply keeps_then; [|intros ?]
    | apply keeps_try
    | match goal with |- keeps (match ?x with _ => _ end) => destruct x end ].

Lemma keeps_write_all metas : keeps (write_all metas).
Proof. induction metas as [|m metas IH]; [apply keeps_ret|]. by apply keeps_then; [apply keeps_store|]. Qed.

Lemma keeps_finish : keeps finish_pending_rename.
Proof.
  unfold finish_pending_rename. apply keeps_then; [auto with keeps|]. intros []; simpl; [|auto with keeps].
  intros w Hw. apply wp_then. unfold wp at 1, manager at 1. apply wp_then. unfold wp at 1, update at 1.
  set (w1 := mk_world _ _ _ _ _ _).
  assert (H1 : keyed w1).
  { intros n x Hx. apply map_lookup_filter_Some in Hx as [Hx _]. exact (Hw n x Hx). }
  change (mg_sessions (w_manager w)) with (mg_sessions (w_manager w1)). revert H1. generalize w1. clear w1.
  apply keeps_then; [apply keeps_write_all|]. intros _. apply keeps_update; [done|]. intros g. apply map_empty_subseteq.
Qed.
Hint Resolve keeps_write_all keeps_finish : keeps.

Lemma keeps_deferred n h : keeps (deferred_meta_for n h).
Proof.
  apply keeps_then; [auto with keeps|]. intros g. destruct (mg_deferred g !! n) as [[h' m]|]; [|auto with keeps].
  destruct (decide (h' = h)); [auto with keeps|]. apply keeps_then; [|auto with keeps].
  apply keeps_update; [done|]. intros g'. apply delete_subseteq.
Qed.

(** What is deferred for a name names it. *)
Lemma deferred_named n h : forall w, keyed w ->
  wp (deferred_meta_for n h) w (fun r w' => keyed w' /\ mg_sessions (w_manager w') = mg_sessions (w_manager w)
    /\ forall m, r = Ok (Some m) -> sm_name m = n) (fun _ => True).
Proof.
  intros w Hw. pose proof (keeps_deferred n h w Hw) as Hk. unfold wp in *.
  destruct (deferred_meta_for n h w) as [r w'|fs] eqn:E; [|done]. destruct Hk as [Hk Hs]. split_and!; [done..|].
  intros m ->. revert E. unfold deferred_meta_for, mthen, manager. destruct (mg_deferred (w_manager w) !! n) as [[h' m']|] eqn:Hd; [|done].
  destruct (decide (h' = h)); [|done]. intros [= <- _]. exact (Hw n _ Hd).
Qed.

Lemma keeps_effective n h : keeps (effective_meta_for n h).
Proof. apply keeps_then; [apply keeps_deferred|]. intros [m|]; auto with keeps. Qed.
Hint Resolve keeps_deferred keeps_effective : keeps.

Lemma keeps_session n : keeps (session n). Proof. unfold session. keep. Qed.
Lemma keeps_kill_group slot : keeps (kill_group slot). Proof. unfold kill_group. keep. Qed.
Hint Resolve keeps_session keeps_kill_group : keeps.

Lemma keeps_stop slot s : keeps (stop_session_locked hs slot s).
Proof. unfold stop_session_locked. keep. Qed.

Lemma keeps_spawn kind n cwd slot susp : keeps (spawn hs kind n cwd slot susp).
Proof. unfold spawn. keep. Qed.

Lemma keeps_prepare slot : keeps (prepare_session slot). Proof. apply keeps_require. Qed.
Hint Resolve keeps_stop keeps_spawn keeps_prepare : keeps.

Lemma keeps_restore_one m susp : keeps (restore_one hs m susp).
Proof. unfold restore_one. keep. Qed.

Lemma keeps_suspension h : keeps (suspension_of h). Proof. unfold suspension_of. keep. Qed.

Lemma keeps_event now level event sess detail code : keeps (record_recovery_event now level event sess detail code).
Proof. unfold record_recovery_event. keep. Qed.
Hint Resolve keeps_restore_one keeps_suspension keeps_event : keeps.

Lemma keeps_clear_slot slot : keeps (update (clear_foreground_slot slot)). Proof. by apply keeps_update. Qed.
Hint Resolve keeps_clear_slot : keeps.

(** *** The operations *)

(** From a given table. *)
Definition from_table {A} (ss : gmap string nat) (m : MM A) (Q : result A string -> gmap string nat -> Prop) : Prop :=
  forall w, keyed w -> mg_sessions (w_manager w) = ss -> wp m w (fun r w' => keyed w' /\ Q r (mg_sessions (w_manager w'))) (fun _ => True).

Lemma from_then {A B} ss (m : MM A) (k : A -> MM B) (Q : result B string -> gmap string nat -> Prop) :
  keeps m -> (forall e, Q (Err e) ss) -> (forall a, from_table ss (k a) Q) -> from_table ss (mthen m k) Q.
Proof.
  intros Hm He Hk w Hw <-. apply wp_then. eapply wp_mono; [by apply Hm| |done]. intros [a|e] w' [Hw' E].
  - by apply Hk.
  - rewrite E. by split.
Qed.

Lemma from_fail {A} ss e (Q : result A string -> gmap string nat -> Prop) : Q (Err e) ss -> from_table ss (mfail e) Q.
Proof. by intros HQ w Hw <-. Qed.

Lemma from_ret {A} ss a (Q : result A string -> gmap string nat -> Prop) : Q (Ok a) ss -> from_table ss (mret a) Q.
Proof. by intros HQ w Hw <-. Qed.

Lemma from_session {A} ss n (k : option nat -> MM A) Q : from_table ss (k (ss !! n)) Q -> from_table ss (mthen (session n) k) Q.
Proof. intros Hk w Hw <-. by apply Hk. Qed.

Lemma from_update {A} ss f (k : unit -> MM A) Q :
  (forall g, mg_deferred (f g) ⊆ mg_deferred g) -> (forall g, mg_sessions g = ss -> from_table (mg_sessions (f g)) (k tt) Q) ->
  from_table ss (mthen (update f) k) Q.
Proof.
  intros Hd Hk w Hw Hs. apply wp_then. 
  apply (Hk _ Hs (mk_world (w_fs w) (w_faults w) (w_answers w) (f (w_manager w)) (w_children w) (w_effects w))); [|done].
  intros n x Hx. exact (Hw n x (lookup_weaken _ _ _ _ Hx (Hd _))).
Qed.

Lemma from_keeps {A} ss (m : MM A) (Q : result A string -> gmap string nat -> Prop) : keeps m -> (forall r, Q r ss) -> from_table ss m Q.
Proof. intros Hm HQ w Hw <-. eapply wp_mono; [by apply Hm| |done]. intros r w' [Hw' ->]. by split. Qed.

Lemma from_try {A B} ss (m : MM A) (k : result A string -> MM B) (P : result A string -> gmap string nat -> Prop) Q :
  from_table ss m P -> (forall r ss', P r ss' -> from_table ss' (k r) Q) -> from_table ss (mthen (mtry m) k) Q.
Proof.
  intros Hm Hk w Hw Hs. apply wp_then, wp_try. eapply wp_mono; [by apply Hm| |done]. intros r w' [Hw' HP]. by eapply Hk.
Qed.

Lemma from_clear ss slot (Q : result unit string -> gmap string nat -> Prop) :
  Q (Ok tt) ss -> from_table ss (update (clear_foreground_slot slot)) Q.
Proof. by intros HQ w Hw <-. Qed.

Ltac walk :=
  repeat match goal with
  | |- from_table _ (mthen (session _) _) _ => apply from_session
  | |- from_table _ (mthen (update _) _) _ => apply from_update; [done || (intros; reflexivity)|intros g Hg; cbn; rewrite ?Hg]
  | |- from_table _ (mthen _ _) _ => apply from_then; [solve [keep]|done|intros ?]
  | |- from_table _ (match ?x with _ => _ end) _ => destruct x eqn:?
  | |- from_table _ (mfail _) _ => by apply from_fail
  | |- from_table _ (mret _) _ => by apply from_ret
  | |- from_table _ (update (clear_foreground_slot _)) _ => by apply from_clear
  end.

(** *** The operations *)

Lemma from_create ss n cwd kind title now :
  from_table ss (create_with_title hs n cwd kind title now)
    (fun r ss' => match r with Ok h => ss' = <[n := h]> ss | Err _ => ss' = ss end).
Proof. unfold create_with_title. walk. Qed.

Lemma from_remove ss n :
  from_table ss (remove hs n) (fun r ss' => match r with Ok _ => ss' = delete n ss | Err _ => ss' = ss end).
Proof. unfold remove. walk. Qed.

Lemma from_reap_one ss n h :
  from_table ss (reap_one hs n h) (fun r ss' => match r with Ok _ => ss' = delete n ss | Err _ => ss' = ss end).
Proof. unfold reap_one. walk. Qed.

Lemma from_reap_all ss now exit_code found :
  from_table ss (reap_all hs now exit_code found)
    (fun r ss' => match r with Ok names => dom ss' = dom ss ∖ list_to_set names | Err _ => False end).
Proof.
  revert ss. induction found as [|[n h] found IH]; intros ss; simpl.
  { apply from_ret. set_solver. }
  eapply from_try; [apply from_reap_one|]. intros r ss' Hr. simpl in Hr.
  assert (Hrest : forall (names : list string -> list string) (m : MM unit),
    keeps m -> (forall w r w', m w = Returned r w' -> r = Ok tt) ->
    (forall l, dom ss' ∖ list_to_set l = dom ss ∖ list_to_set (names l)) ->
    from_table ss' (m ;;m (names' <-m reap_all hs now exit_code found; mret (names names')))
      (fun r ss'' => match r with Ok l => dom ss'' = dom ss ∖ list_to_set l | Err _ => False end)).
  { intros names m Hm Hok Hn w Hw Hs. apply wp_then. pose proof (Hm w Hw) as Hk. unfold wp at 1. unfold wp at 1 in Hk.
    destruct (m w) as [r' w'|] eqn:E; [|done]. rewrite (Hok _ _ _ E). destruct Hk as [Hw' Hs'].
    apply wp_then. eapply wp_mono; [apply (IH ss' w'); [done|congruence]| |done]. intros [l|e] w'' [Hw'' HQ]; [|done].
    split; [done|]. by rewrite HQ, Hn. }
  destruct r as [[]|e].
  - apply (Hrest (cons n)); [auto with keeps| |].
    + intros w r w'. unfold record_recovery_event, mthen, store, try. destruct (append_recovery_event _ _ _); [|done]. by intros [= <- _].
    + intros l. subst ss'. rewrite dom_delete_L. set_solver.
  - apply (Hrest id); [apply keeps_ret|by intros w r w' [= <- _]|]. intros l. by subst ss'.
Qed.

Lemma from_weaken {A} ss (m : MM A) (Q Q' : result A string -> gmap string nat -> Prop) :
  from_table ss m Q -> (forall r ss', Q r ss' -> Q' r ss') -> from_table ss m Q'.
Proof. intros Hm HQ w Hw Hs. eapply wp_mono; [by apply Hm| |done]. intros r w' [? ?]. split; [done|by apply HQ]. Qed.

Lemma from_rolled_back {A} ss e (m : MM unit) (Q : result A string -> gmap string nat -> Prop) :
  from_table ss m (fun _ ss' => dom ss' = dom ss) -> (forall e ss', dom ss' = dom ss -> Q (Err e) ss') ->
  from_table ss (rolled_back e m) Q.
Proof.
  intros Hm HQ. unfold rolled_back. eapply from_try; [exact Hm|]. intros [[]|e'] ss' Hs; by apply from_fail, HQ.
Qed.

Lemma from_rollback ss from to m susp moved :
  is_Some (ss !! from) -> from_table ss (rollback_agent_rename hs from to m susp moved) (fun _ ss' => dom ss' = dom ss).
Proof.
  intros Hfrom. unfold rollback_agent_rename. repeat (apply from_then; [solve [keep]|done|intros ?]).
  intros w Hw Hs. split; [done|]. simpl. rewrite Hs, dom_insert_L. apply elem_of_dom in Hfrom. set_solver.
Qed.

Lemma from_rename ss from to :
  from_table ss (rename hs from to) (fun r ss' => match r with
    | Ok meta => sm_name meta = to /\ from ∈ dom ss /\ is_Some (ss' !! to) /\ dom ss' = {[to]} ∪ dom ss ∖ {[from]}
    | Err _ => dom ss' = dom ss
    end).
Proof.
  unfold rename. walk.
  all: try (apply from_rolled_back; [by apply from_rollback; eexists|done]).
  apply from_ret. split_and!; [done|by apply elem_of_dom_2 in Heqo|by rewrite lookup_insert_eq|].
  rewrite dom_insert_L, dom_delete_L. set_solver.
Qed.

Lemma from_reap ss now exit_code :
  from_table ss (reap hs now exit_code)
    (fun r ss' => dom ss' = dom ss ∖ match r with Ok names => list_to_set names | Err _ => ∅ end).
Proof.
  unfold reap. apply from_then; [auto with keeps|intros _; set_solver|]. intros _.
  apply from_then; [auto with keeps|intros _; set_solver|]. intros g.
  apply from_then; [by intros w Hw|intros _; set_solver|]. intros found.
  eapply from_weaken; [apply from_reap_all|]. by intros [l|e] ss' Hr.
Qed.

(** *** The infos *)

Lemma from_describe ss show m h :
  from_table ss (describe lk show m h) (fun r ss' => ss' = ss /\ exists info, r = Ok info /\ si_name info = sm_name m).
Proof.
  intros w Hw <-. unfold wp, describe, mthen, child, store, try. destruct (read_claude _ _ _); [|done].
  split; [done|]. split; [done|]. by eexists.
Qed.

Lemma from_describe_all ss sessions metas :
  from_table ss (describe_all lk sessions metas)
    (fun r ss' => ss' = ss /\ forall infos, r = Ok infos -> Forall (fun i => si_name i ∈ dom sessions) infos).
Proof.
  induction metas as [|m metas IH]; simpl; [apply from_ret; split; [done|]; by intros infos [= <-]|].
  destruct (sessions !! sm_name m) as [h|] eqn:Hm; [|exact IH].
  intros w Hw Hs. apply wp_then. eapply wp_mono; [by apply (deferred_named (sm_name m) h)| |done].
  intros [d|e] w' (Hw' & Hs' & Hd); [|by split_and!; [|congruence|]].
  apply wp_then. eapply wp_mono; [apply (from_describe ss); [done|congruence]| |done].
  intros r w2 (Hw2 & Hs2 & info & -> & Hi). cbn beta iota.
  apply wp_then. eapply wp_mono; [by apply IH| |done]. intros [infos|e] w3 (Hw3 & Hs3 & Hin); [|by split_and!].
  split_and!; [done..|]. intros ? [= <-]. constructor; [|by apply Hin]. rewrite Hi.
  destruct d as [d|]; simpl; [rewrite (Hd d eq_refl)|]; by apply elem_of_dom_2 in Hm.
Qed.

Lemma from_infos ss :
  from_table ss (session_infos lk) (fun r ss' => ss' = ss /\ forall infos, r = Ok infos -> Forall (fun i => si_name i ∈ dom ss) infos).
Proof.
  unfold session_infos. intros w Hw <-. apply wp_then. unfold wp at 1, manager at 1.
  apply wp_then. eapply wp_mono; [by apply keeps_store| |done]. intros [metas|e] w' [Hw' Hs']; [|by split].
  apply wp_then. eapply wp_mono; [by apply (from_describe_all (mg_sessions (w_manager w)))| |done].
  intros [infos|e] w2 (Hw2 & Hs2 & Hin); [|by split]. split_and!; [done..|]. intros ? [= <-].
  specialize (Hin infos eq_refl). rewrite Forall_forall in Hin |- *. intros i Hi. apply Hin.
  rewrite <- elem_of_sort_by. exact Hi.
Qed.

Lemma from_rename_info ss from to :
  from_table ss (rename_info hs lk from to) (fun r ss' => match r with
    | Ok info => si_name info = to /\ from ∈ dom ss /\ dom ss' = {[to]} ∪ dom ss ∖ {[from]}
    | Err _ => dom ss' = dom ss
    end).
Proof.
  intros w Hw Hs. unfold rename_info. apply wp_then. eapply wp_mono; [by apply (from_rename ss)| |done].
  intros [meta|e] w' [Hw' Hr]; [|done]. destruct Hr as (Hto & Hfrom & [h Hh] & Hd). apply wp_then.
  unfold wp at 1, session, mthen, manager, mret. eapply wp_mono; [by apply from_describe| |done].
  intros r w2 (Hw2 & Hs2 & info & -> & Hi). split; [done|]. rewrite Hs2, Hi. by split_and!.
Qed.

Lemma from_set_title ss n title :
  from_table ss (set_title_info lk n title) (fun r ss' =>
    ss' = ss /\ forall info, r = Ok info -> si_name info = n /\ n ∈ dom ss).
Proof.
  unfold set_title_info. destruct (validate_title title); [|by apply from_fail]. walk; try done.
  intros w Hw Hs. apply wp_then. eapply wp_mono; [by apply (from_infos ss)| |done].
  intros [infos|e] w' (Hw' & Hs' & _); [|done]. destruct (find_first _ _) as [info|] eqn:E; [|done].
  split_and!; [done..|]. intros ? [= <-]. apply find_first_Some in E as [_ E]. apply bool_decide_eq_true in E.
  split; [done|]. by apply elem_of_dom_2 in Heqo.
Qed.

(** *** All else *)

Lemma keeps_snapshot is_final seen now : keeps (snapshot_inner hs is_final seen now).
Proof.
  assert (Hc : forall n h, keeps (persist_scrollback_if_changed n h)).
  { intros n h. unfold persist_scrollback_if_changed. by keep. }
  assert (Hp : forall n l, keeps (persist_live_cwd hs n is_final l now)).
  { intros n l. unfold persist_live_cwd. by keep. }
  unfold snapshot_inner. keep. generalize (map_to_list (mg_sessions a0)).
  intros handles. induction handles as [|[n h] handles IH]; [apply keeps_ret|]. simpl. by repeat (apply keeps_then; [auto|intros _]).
Qed.

Lemma keeps_hook n event id file cwd primary now : keeps (record_pi_hook n event id file cwd primary now).
Proof. unfold record_pi_hook. keep. Qed.
End Keeps.

(** ** The manager keeps the promise *)

(** A call runs on the world with the faults and answers it meets. *)
Definition meets (faults : list fault) (answers : list bool) (w : World) : World :=
  mk_world (w_fs w) faults answers (w_manager w) (w_children w) (w_effects w).

Definition ran {A} (m : MM A) (w : World) (r : result A string) (w' : World) : Prop :=
  exists faults answers, m (meets faults answers w) = Returned r w'.

Definition no_value {A} (r : result A string) : result unit string := match r with Ok _ => Ok tt | Err e => Err e end.

(** What leaves the table as it is: looking things up, hooks, snapshots, the journal, and
    whatever else calls and children do to files, children and the other tables. *)
Inductive disturbance `{StateJson} (hs : Host) : World -> World -> Prop :=
| ds_effective w n h r w' : ran (effective_meta_for n h) w r w' -> disturbance hs w w'
| ds_hook w n event id file cwd primary now r w' :
    ran (record_pi_hook n event id file cwd primary now) w r w' -> disturbance hs w w'
| ds_snapshot w is_final seen now r w' : ran (snapshot_inner hs is_final seen now) w r w' -> disturbance hs w w'
| ds_journal w now level event session detail code r w' :
    ran (record_recovery_event now level event session detail code) w r w' -> disturbance hs w w'
| ds_other w w' :
    mg_sessions (w_manager w') = mg_sessions (w_manager w) -> mg_deferred (w_manager w') ⊆ mg_deferred (w_manager w) ->
    disturbance hs w w'.

Lemma ran_from {A} (m : MM A) (Q : result A string -> gmap string nat -> Prop) w r w' :
  keyed w -> ran m w r w' -> from_table (mg_sessions (w_manager w)) m Q -> keyed w' /\ Q r (mg_sessions (w_manager w')).
Proof.
  intros Hw (faults & answers & E) Hm. specialize (Hm (meets faults answers w) Hw eq_refl). unfold wp in Hm. by rewrite E in Hm.
Qed.

Lemma ran_keeps {A} (m : MM A) w r w' : keyed w -> ran m w r w' -> keeps m -> keyed w' /\ live_names w' = live_names w.
Proof.
  intros Hw Hr Hm. apply (ran_from m (fun _ ss => ss = mg_sessions (w_manager w)) w r w') in Hr as [Hw' E]; [|done|by apply from_keeps].
  split; [done|]. unfold live_names. by rewrite E.
Qed.

#[export] Program Instance manager_table `{StateJson} (hs : Host) (lk : Look) : SessionTable World := {
  tb_ok := keyed;
  tb_names := live_names;
  tb_create n cwd kind title w r w' := exists now r0, ran (create_with_title hs n cwd kind title now) w r0 w' /\ r = no_value r0;
  tb_rename from to w r w' := ran (rename_info hs lk from to) w r w';
  tb_remove n w r w' := ran (remove hs n) w r w';
  tb_set_title n title w r w' := ran (set_title_info lk n title) w r w';
  tb_infos w r w' := ran (session_infos lk) w r w';
  tb_reap w r w' := exists now exit_code, ran (reap hs now exit_code) w r w';
  tb_disturb := disturbance hs }.
Next Obligation.
  intros H hs lk n cwd kind title w r w' Hw (now & r0 & Hr & ->). eapply ran_from in Hr as [Hw' Hr]; [|done|apply from_create].
  split; [done|]. unfold live_names. destruct r0 as [h|e]; simpl in *; rewrite Hr; [apply dom_insert_L|done].
Qed.
Next Obligation.
  intros H hs lk from to w r w' Hw Hr. eapply ran_from in Hr as [Hw' Hr]; [|done|apply from_rename_info].
  split; [done|]. by destruct r.
Qed.
Next Obligation.
  intros H hs lk n w r w' Hw Hr. eapply ran_from in Hr as [Hw' Hr]; [|done|apply from_remove].
  split; [done|]. unfold live_names. destruct r; simpl in *; rewrite Hr; [apply dom_delete_L|done].
Qed.
Next Obligation.
  intros H hs lk n title w r w' Hw Hr. eapply ran_from in Hr as [Hw' Hr]; [|done|apply from_set_title]. destruct Hr as [Hs Hi].
  unfold live_names. by rewrite Hs.
Qed.
Next Obligation.
  intros H hs lk w r w' Hw Hr. eapply ran_from in Hr as [Hw' Hr]; [|done|apply from_infos]. destruct Hr as [Hs Hi].
  unfold live_names. by rewrite Hs.
Qed.
Next Obligation.
  intros H hs lk w r w' Hw (now & exit_code & Hr). eapply ran_from in Hr as [Hw' Hr]; [|done|apply from_reap]. done.
Qed.
Next Obligation.
  intros H hs lk w w' Hw Hd. destruct Hd as [w n h r w' Hr|w n event id file cwd primary now r w' Hr|w f seen now r w' Hr
    |w now level event session detail code r w' Hr|w w' Hs Hd]; cycle -1.
  { split; [|unfold live_names; by rewrite Hs]. intros k x Hx. apply (Hw k x). by eapply lookup_weaken. }
  all: eapply ran_keeps; [done|exact Hr|].
  - apply keeps_effective.
  - apply keeps_hook.
  - apply keeps_snapshot.
  - apply keeps_event.
Qed.
