(* ===== verification/Daemon.v ===== *)
(** * The daemon's connections together

    [Daemon] of [crates/amber/src/daemon.rs]: every connection's read thread runs the
    programs of [Requests] one call at a time, interleaved with the others', with the
    threads that serve Pi bridges, and with the reaper of [lib.rs].  They share the
    session table, seen through [Table]'s interface, the registry of Pi bridges and
    the streams the watchers are told; all other calls may answer anything. *)
From S2P Require Import Prelude Utf8 Wire PiCommand Store Browser Bridge Requests Table.
From S2P Require Manager Lifecycle.

Section Daemon.
Context {T : Type} `{SessionTable T} {Value : Type} `{JsonValue Value}.
Context (to_vec : Value -> result Z string) (refusal : PiCommand -> PiError -> string).

Abbreviation ControlMsg := (ControlMsg Value).
Abbreviation action := (action (Value := Value)).
Abbreviation prog := (prog (Value := Value)).
Abbreviation handle_frame := (handle_frame to_vec refusal).
Abbreviation handle_control := (handle_control to_vec refusal).

(** ** Shared state *)

(** [sh_told] and [sh_told_pi] are what watchers are told of sessions and of Pi, oldest
    first; for the record, Pi messages with the connection that had them told, which
    connection a registration is of, and the checks of a registration that held. *)
Record Shared := mk_shared {
  sh_table : T;
  sh_bridges : PiBridges;
  sh_owner : gmap Z nat;
  sh_told : list ControlMsg;
  sh_told_pi : list (nat * ControlMsg);
  sh_checked : list (nat * string * Z) }.

Definition set_table (t : T) (s : Shared) : Shared :=
  mk_shared t (sh_bridges s) (sh_owner s) (sh_told s) (sh_told_pi s) (sh_checked s).
Definition set_bridges (b : PiBridges) (s : Shared) : Shared :=
  mk_shared (sh_table s) b (sh_owner s) (sh_told s) (sh_told_pi s) (sh_checked s).
Definition own (g : Z) (i : nat) (s : Shared) : Shared :=
  mk_shared (sh_table s) (sh_bridges s) (<[g := i]> (sh_owner s)) (sh_told s) (sh_told_pi s) (sh_checked s).
Definition tell (m : ControlMsg) (s : Shared) : Shared :=
  mk_shared (sh_table s) (sh_bridges s) (sh_owner s) (sh_told s ++ [m]) (sh_told_pi s) (sh_checked s).
Definition tell_pi (i : nat) (m : ControlMsg) (s : Shared) : Shared :=
  mk_shared (sh_table s) (sh_bridges s) (sh_owner s) (sh_told s) (sh_told_pi s ++ [(i, m)]) (sh_checked s).
Definition checked (i : nat) (n : string) (g : Z) (s : Shared) : Shared :=
  mk_shared (sh_table s) (sh_bridges s) (sh_owner s) (sh_told s) (sh_told_pi s) ((i, n, g) :: sh_checked s).

Definition disturbed (s s' : Shared) : Prop := s' = s \/ exists t, rtc tb_disturb (sh_table s) t /\ s' = set_table t s.

(** A call of connection [i]. *)
Definition performs (i : nat) (a : action) : Shared -> answer a -> Shared -> Prop :=
  match a with
  | A_create_with_title n cwd kind title => fun s r s' => exists t, tb_create n cwd kind title (sh_table s) r t /\ s' = set_table t s
  | A_rename from to => fun s r s' => exists t, tb_rename from to (sh_table s) r t /\ s' = set_table t s
  | A_remove n => fun s r s' => exists t, tb_remove n (sh_table s) r t /\ s' = set_table t s
  | A_set_title n title => fun s r s' => exists t, tb_set_title n title (sh_table s) r t /\ s' = set_table t s
  | A_session_infos => fun s r s' => exists t, tb_infos (sh_table s) r t /\ s' = set_table t s
  | A_reap => fun s r s' => exists t, tb_reap (sh_table s) r t /\ s' = set_table t s
  | A_session n => fun s r s' => (is_Some r <-> n ∈ tb_names (sh_table s)) /\ s' = s
  | A_names => fun s r s' => list_to_set r = tb_names (sh_table s) /\ s' = s
  | A_broadcast m => fun s _ s' => s' = tell m s
  | A_broadcast_pi m => fun s _ s' => s' = tell_pi i m s
  | A_bridge_register n => fun s r s' =>
      r = (register n (sh_bridges s)).1 /\ s' = own r i (set_bridges (register n (sh_bridges s)).2 s)
  | A_bridge_unregister n g => fun s r s' =>
      r = (unregister n g (sh_bridges s)).1 /\ s' = set_bridges (unregister n g (sh_bridges s)).2 s
  | A_bridge_remove n => fun s r s' =>
      r = (remove n (sh_bridges s)).1 /\ s' = set_bridges (remove n (sh_bridges s)).2 s
  | A_bridge_send n command => fun s r s' =>
      r = (send n command (sh_bridges s)).1 /\ s' = set_bridges (send n command (sh_bridges s)).2 s
  | A_bridge_contains n => fun s r s' => r = contains n (sh_bridges s) /\ s' = s
  | A_bridge_is_current n g => fun s r s' =>
      r = is_current n g (sh_bridges s) /\ s' = if is_current n g (sh_bridges s) then checked i n g s else s
  | _ => fun s _ s' => disturbed s s'
  end.

(** ** Threads *)

(** A read thread: in [read], in a handler, with [true] in the end of
    [handle_connection], or gone. *)
Inductive Thread := Idle (c : Conn) | Busy (ending : bool) (p : prog) | Ended.

(** A bridge's thread: its connection, the command it took and has not written, and
    those it wrote. *)
Record Writer := mk_writer {
  wr_conn : nat; wr_name : string; wr_holding : option PiCommand; wr_written : list PiCommand; wr_alive : bool }.

Record State := mk_state {
  ds_shared : Shared;
  ds_conns : gmap nat Thread;
  ds_writers : gmap Z Writer;
  ds_reaper : prog }.

Definition set_conn (i : nat) (th : Thread) (s : State) : State :=
  mk_state (ds_shared s) (<[i := th]> (ds_conns s)) (ds_writers s) (ds_reaper s).
Definition set_shared (sh : Shared) (s : State) : State :=
  mk_state sh (ds_conns s) (ds_writers s) (ds_reaper s).
Definition set_writer (g : Z) (w : Writer) (s : State) : State :=
  mk_state (ds_shared s) (ds_conns s) (<[g := w]> (ds_writers s)) (ds_reaper s).
Definition set_reaper (p : prog) (s : State) : State :=
  mk_state (ds_shared s) (ds_conns s) (ds_writers s) p.
Definition on_bridges (f : PiBridges -> PiBridges) (s : State) : State :=
  set_shared (set_bridges (f (sh_bridges (ds_shared s))) (ds_shared s)) s.

(** [thread::spawn]; the other threads touch nothing of this. *)
Definition spawned (i : nat) (a : action) (s : State) : State :=
  match a with A_spawn (T_bridge n g) => set_writer g (mk_writer i n None [] true) s | _ => s end.

(** The reaper is no connection. *)
Definition REAPER : nat := 0.

Definition no_conn : Conn := mk_conn [] None.

Inductive step (s : State) : State -> Prop :=
| step_accept i : i <> REAPER -> ds_conns s !! i = None -> step s (set_conn i (Idle no_conn) s)
| step_frame i c f : ds_conns s !! i = Some (Idle c) -> step s (set_conn i (Busy false (handle_frame c f)) s)
| step_eof i c : ds_conns s !! i = Some (Idle c) -> step s (set_conn i (Busy true (end_connection c)) s)
| step_act i e a k r sh :
    ds_conns s !! i = Some (Busy e (act a k)) -> performs i a (ds_shared s) r sh ->
    step s (spawned i a (set_shared sh (set_conn i (Busy e (k r)) s)))
| step_halt i e c : ds_conns s !! i = Some (Busy e (halt c)) -> step s (set_conn i (if e then Ended else Idle c) s)
| step_recv g w command :
    ds_writers s !! g = Some w -> wr_alive w = true -> wr_holding w = None ->
    (recv g (sh_bridges (ds_shared s))).1 = R_Command command ->
    step s (on_bridges (fun b => (recv g b).2)
             (set_writer g (mk_writer (wr_conn w) (wr_name w) (Some command) (wr_written w) true) s))
| step_closed g w :
    ds_writers s !! g = Some w -> wr_alive w = true -> wr_holding w = None ->
    (recv g (sh_bridges (ds_shared s))).1 = R_Closed ->
    step s (on_bridges (hang_up g) (set_writer g (mk_writer (wr_conn w) (wr_name w) None (wr_written w) false) s))
| step_write g w command :
    ds_writers s !! g = Some w -> wr_alive w = true -> wr_holding w = Some command ->
    step s (set_writer g (mk_writer (wr_conn w) (wr_name w) None (wr_written w ++ [command]) true) s)
| step_write_fails g w command :
    ds_writers s !! g = Some w -> wr_alive w = true -> wr_holding w = Some command ->
    step s (on_bridges (hang_up g) (set_writer g (mk_writer (wr_conn w) (wr_name w) (Some command) (wr_written w) false) s))
| step_disturb t : tb_disturb (sh_table (ds_shared s)) t -> step s (set_shared (set_table t (ds_shared s)) s)
| step_reap c : ds_reaper s = halt c -> step s (set_reaper reap_tick s)
| step_reaper a k r sh :
    ds_reaper s = act a k -> performs REAPER a (ds_shared s) r sh -> step s (set_reaper (k r) (set_shared sh s)).

Inductive run : State -> State -> Prop :=
| run_nil s : run s s
| run_snoc s s' s'' : run s s' -> step s' s'' -> run s s''.

Definition start (t : T) : Shared := mk_shared t new_bridges ∅ [] [] [].
Definition initial (t : T) : State := mk_state (start t) ∅ ∅ (halt no_conn).

(** ** What a connection may rely on *)

(** A connection's registrations, its checks that held, and a registration whose thread
    is not started yet. *)
Record Know := mk_know { kn_reg : list (string * Z); kn_checked : list (string * Z); kn_fresh : option Z }.

Definition allowed (a : action) (K : Know) : Prop :=
  match a with
  | A_bridge_is_current n g => (n, g) ∈ kn_reg K
  | A_broadcast_pi (M_PiEvent _ n _ event) => validate_pi_event to_vec event = Ok tt /\ exists g, (n, g) ∈ kn_checked K
  | A_bridge_send _ command => validate_pi_command command = Ok tt
  | A_spawn (T_bridge n g) => (n, g) ∈ kn_reg K /\ kn_fresh K = Some g
  | _ => True
  end.

Definition learn (a : action) : answer a -> Know -> Know :=
  match a with
  | A_bridge_register n => fun r K => mk_know ((n, r) :: kn_reg K) (kn_checked K) (Some r)
  | A_bridge_is_current n g => fun r K => if r : bool then mk_know (kn_reg K) ((n, g) :: kn_checked K) (kn_fresh K) else K
  | A_spawn (T_bridge _ _) => fun _ K => mk_know (kn_reg K) (kn_checked K) None
  | _ => fun _ K => K
  end.

Definition careful (a : action) (K : Know) (Q : answer a -> Know -> Prop) : Prop := allowed a K /\ forall r, Q r (learn a r K).

Definition known (c : Conn) (K : Know) : Prop := forall n g, cn_pi c = Some (n, g) -> (n, g) ∈ kn_reg K.

Lemma careful_mono a K (Q Q' : answer a -> Know -> Prop) :
  (forall r K', Q r K' -> Q' r K') -> careful a K Q -> careful a K Q'.
Proof. intros HQ [Ha Hr]. split; [done|]. intros r. apply HQ, Hr. Qed.

Lemma careful_release n subs k K Q : (forall kept, wp careful (k kept) K Q) -> wp careful (release n subs k) K Q.
Proof.
  intros Hk. apply (wp_release careful careful_mono (eq K)); [done|by intros sess id ? <-|by intros kept ? <- _].
Qed.

Lemma careful_statuses infos k K Q : wp careful k K Q -> wp careful (pi_statuses infos k) K Q.
Proof. intros Hk. induction infos as [|info infos IH]; simpl; [done|]. case_bool_decide; [|done]. by repeat (split; [done|]; intros ?). Qed.

Lemma careful_unsubscribe subs k K Q : wp careful k K Q -> wp careful (unsubscribe_all subs k) K Q.
Proof. intros Hk. induction subs as [|[[n sess] id] subs IH]; simpl; [done|]. by split. Qed.

Ltac careful_walk :=
  repeat match goal with
  | |- wp careful (act _ _) _ _ => split; [first [done | cbn; eauto using list_elem_of_here]|intros ?]; cbn [learn]
  | |- wp careful (release _ _ _) _ _ => apply careful_release; intros ?
  | |- wp careful (pi_statuses _ _) _ _ => apply careful_statuses
  | |- wp careful (unsubscribe_all _ _) _ _ => apply careful_unsubscribe
  | |- wp careful (match ?x with _ => _ end) _ _ => destruct x eqn:?
  | |- wp careful (halt _) _ _ => cbn [wp]
  end.

Lemma handle_careful c f K : known c K -> wp careful (handle_frame c f) K known.
Proof.
  intros Hk. destruct f as [msg|n bs|n bs]; cbn [handle_frame]; [|by split|done].
  destruct msg; cbn [handle_control]; unfold handle_create, handle_attach, handle_rename, handle_kill, handle_hello,
    handle_bridge_command, handle_pi_event, authorized, handle_search, outcome, publish, forget_bridge, reply, error; cbv zeta;
  careful_walk; try done;
  repeat match goal with
  | u : unit |- _ => destruct u
  | E : negb ?b = false |- _ => apply negb_false_iff in E; subst b
  | E : bool_decide _ = true |- _ => apply bool_decide_eq_true in E; subst
  | r : answer (A_bridge_is_current _ _) |- _ => simpl in r; destruct r
  end; simplify_eq/=;
  first [ done | by apply Hk | by intros ? ? [= <- <-]; left | split; [done|eexists; by left] ].
Qed.

Lemma end_careful c K : known c K -> wp careful (end_connection c) K known.
Proof.
  intros Hk. unfold end_connection. careful_walk; by intros ? ? [=].
Qed.

(** The calls of the reaper. *)
Definition mild (a : action) (u : unit) (Q : answer a -> unit -> Prop) : Prop :=
  match a with A_reap | A_broadcast _ | A_snapshot => True | _ => False end /\ forall r, Q r u.

Lemma reap_mild : wp mild reap_tick tt (fun _ _ => True).
Proof. split; [done|]. intros [[|n ns]|e]; by repeat split. Qed.

(** ** The invariant *)

Abbreviation bridges s := (sh_bridges (ds_shared s)).

Definition held (w : Writer) : list PiCommand := wr_written w ++ option_list (wr_holding w).

(** What a connection knows is so. *)
Record holds (i : nat) (K : Know) (s : State) : Prop := mk_holds {
  ho_reg : forall n g, (n, g) ∈ kn_reg K -> sh_owner (ds_shared s) !! g = Some i /\ named (bridges s) n g;
  ho_checked : forall n g, (n, g) ∈ kn_checked K -> (i, n, g) ∈ sh_checked (ds_shared s);
  ho_fresh : forall g, kn_fresh K = Some g -> ds_writers s !! g = None /\ sh_owner (ds_shared s) !! g = Some i }.

Definition thread_ok (i : nat) (th : Thread) (s : State) : Prop :=
  match th with
  | Idle c => exists K, holds i K s /\ known c K
  | Busy _ p => exists K, holds i K s /\ wp careful p K known
  | Ended => True
  end.

Definition valid (command : PiCommand) : Prop := validate_pi_command command = Ok tt.

(** What is kept of bridges. *)
Record faithful (sh : Shared) (ws : gmap Z Writer) : Prop := mk_faithful {
  fa_wf : well_formed (sh_bridges sh);
  fa_owner : map_Forall (fun g _ => (g <= br_next (sh_bridges sh))%Z) (sh_owner sh);
  fa_valid : map_Forall (fun _ c => Forall valid (ch_sent c)) (br_channels (sh_bridges sh));
  fa_taken : map_Forall (fun g c => ch_taken c = from_option held [] (ws !! g)) (br_channels (sh_bridges sh));
  fa_writers : map_Forall (fun g w => sh_owner sh !! g = Some (wr_conn w) /\ named (sh_bridges sh) (wr_name w) g) ws;
  fa_told : forall i n seq event, (i, M_PiEvent _ n seq event) ∈ sh_told_pi sh ->
    validate_pi_event to_vec event = Ok tt /\ exists g, (i, n, g) ∈ sh_checked sh;
  fa_checked : forall i n g, (i, n, g) ∈ sh_checked sh -> sh_owner sh !! g = Some i /\ named (sh_bridges sh) n g }.

Record inv (s : State) : Prop := mk_inv {
  in_faithful : faithful (ds_shared s) (ds_writers s);
  in_conns : map_Forall (fun i th => i <> REAPER /\ thread_ok i th s) (ds_conns s);
  in_reaper : wp mild (ds_reaper s) tt (fun _ _ => True) }.

(** What no step undoes. *)
Record grows (sh sh' : Shared) : Prop := mk_grows {
  gr_owner : sh_owner sh ⊆ sh_owner sh';
  gr_named : extends (sh_bridges sh) (sh_bridges sh');
  gr_checked : sh_checked sh ⊆ sh_checked sh' }.

Lemma grows_refl sh : grows sh sh. Proof. constructor; [done|apply extends_refl|done]. Qed.

Lemma holds_grows i K s s' :
  grows (ds_shared s) (ds_shared s') ->
  (forall g, ds_writers s !! g = None -> sh_owner (ds_shared s) !! g = Some i -> ds_writers s' !! g = None) ->
  holds i K s -> holds i K s'.
Proof.
  intros [Ho Hn Hc] Hw [Hr Hk Hf]. constructor.
  - intros n g Hg. destruct (Hr n g Hg) as [? ?]. split; [by eapply lookup_weaken|by apply Hn].
  - intros n g Hg. by apply Hc, Hk.
  - intros g Hg. destruct (Hf g Hg) as [? ?]. split; [by apply Hw|by eapply lookup_weaken].
Qed.

Lemma faithful_bridges b' sh ws :
  faithful sh ws -> well_formed b' -> (br_next (sh_bridges sh) <= br_next b')%Z -> extends (sh_bridges sh) b' ->
  map_Forall (fun g c => exists c0, br_channels (sh_bridges sh) !! g = Some c0 /\ ch_taken c = ch_taken c0 /\ Forall valid (ch_sent c))
    (br_channels b') ->
  faithful (set_bridges b' sh) ws.
Proof.
  intros [Hwf Ho Hv Ht Hw Htold Hc] Hwf' Hnext He Hch. constructor; simpl; try done.
  - intros g i Hg. specialize (Ho g i Hg). simpl in Ho. lia.
  - intros g c Hg. by destruct (Hch g c Hg) as (c0 & _ & _ & ?).
  - intros g c Hg. destruct (Hch g c Hg) as (c0 & Hc0 & -> & _). by apply (Ht g c0).
  - intros g w Hg. destruct (Hw g w Hg) as [? ?]. split; [done|by apply He].
  - intros i n g Hg. destruct (Hc i n g Hg) as [? ?]. split; [done|by apply He].
Qed.

(** Operations on the entries alone. *)
Lemma faithful_entries entries sh ws :
  faithful sh ws -> entries ⊆ br_entries (sh_bridges sh) -> faithful (set_bridges (set_entries entries (sh_bridges sh)) sh) ws.
Proof.
  intros Hf Hs. apply faithful_bridges; [done|by apply set_entries_well_formed; [apply Hf|]|done|by intros n g|].
  intros g c Hg. exists c. split_and!; [done..|]. by apply (fa_valid _ _ Hf g c).
Qed.

Lemma unregister_entries n g b : exists entries, (unregister n g b).2 = set_entries entries b /\ entries ⊆ br_entries b.
Proof. unfold unregister. case_match; [eexists; split; [done|apply delete_subseteq]|exists (br_entries b); by destruct b]. Qed.

Lemma faithful_register i n sh ws :
  faithful sh ws -> faithful (own (register n (sh_bridges sh)).1 i (set_bridges (register n (sh_bridges sh)).2 sh)) ws.
Proof.
  intros [Hwf Ho Hv Ht Hw Htold Hc]. set (b := sh_bridges sh) in *.
  assert (Hfresh : sh_owner sh !! (br_next b + 1)%Z = None).
  { destruct (sh_owner sh !! (br_next b + 1)%Z) eqn:E; [|done]. specialize (Ho _ _ E). simpl in Ho. lia. }
  assert (Hnone : ws !! (br_next b + 1)%Z = None).
  { destruct (ws !! (br_next b + 1)%Z) as [w|] eqn:E; [|done]. destruct (Hw _ w E). congruence. }
  assert (He := extends_register n b Hwf).
  constructor; simpl; try done.
  - by apply (register_well_formed n b).
  - intros g j [[<- <-]|[_ Hg]]%lookup_insert_Some; [lia|]. specialize (Ho g j Hg). simpl in Ho. lia.
  - by apply map_Forall_insert_2.
  - apply map_Forall_insert_2; [by rewrite Hnone|done].
  - intros g w Hg. destruct (Hw g w Hg) as [Hg' ?]. split; [|by apply He]. rewrite lookup_insert_ne; [done|congruence].
  - intros j n' g Hg. destruct (Hc j n' g Hg) as [Hg' ?]. split; [|by apply He]. rewrite lookup_insert_ne; [done|congruence].
Qed.

Lemma send_next n command b : br_next (send n command b).2 = br_next b.
Proof. unfold send. by repeat case_match. Qed.

Lemma faithful_send n command sh ws :
  faithful sh ws -> valid command -> faithful (set_bridges (send n command (sh_bridges sh)).2 sh) ws.
Proof.
  intros Hf Hcmd. apply faithful_bridges; [done|apply send_well_formed, Hf|by rewrite send_next|apply extends_send|].
  intros g c' (c & Hc & Ht & Hs)%send_channel. exists c. split_and!; [done..|].
  pose proof (fa_valid _ _ Hf g c Hc) as Hv. simpl in Hv. destruct Hs as [->| ->]; [done|]. apply Forall_app. by repeat constructor.
Qed.

(** Knowledge in terms of what is shared. *)
Definition sure (i : nat) (K : Know) (sh : Shared) : Prop :=
  (forall n g, (n, g) ∈ kn_reg K -> sh_owner sh !! g = Some i /\ named (sh_bridges sh) n g)
  /\ (forall n g, (n, g) ∈ kn_checked K -> (i, n, g) ∈ sh_checked sh).

Lemma faithful_disturbed sh sh' ws : disturbed sh sh' -> faithful sh ws -> faithful sh' ws.
Proof. intros [->|(t & _ & ->)]; [done|]. by intros []. Qed.

Lemma performs_faithful i a K sh r sh' ws :
  faithful sh ws -> sure i K sh -> allowed a K -> performs i a sh r sh' -> faithful sh' ws.
Proof.
  intros Hf [Hreg Hchk] Ha Hp.
  assert (Htable : forall t, faithful (set_table t sh) ws) by (intros t; by destruct Hf).
  destruct a; simpl in Hp; try (by eapply faithful_disturbed); try (destruct Hp as (? & _ & ->); apply Htable); try (destruct Hp as [_ E]; rewrite E; exact Hf).
  - subst sh'. by destruct Hf.
  - subst sh'. destruct Hf as [Hwf Ho Hv Ht Hw Htold Hc]. constructor; simpl; try done.
    intros j n seq event [Hin|[= -> <-]%list_elem_of_singleton]%elem_of_app; [by apply (Htold j n seq)|].
    destruct Ha as (Hev & g & Hg). split; [done|]. exists g. by apply Hchk.
  - destruct Hp as [-> ->]. by apply faithful_register.
  - destruct Hp as [_ ->]. destruct (unregister_entries name generation (sh_bridges sh)) as (entries & -> & Hs). by apply faithful_entries.
  - destruct Hp as [_ ->]. apply faithful_entries; [done|apply delete_subseteq].
  - destruct Hp as [_ ->]. case_match; [|done]. destruct Hf as [Hwf Ho Hv Ht Hw Htold Hc]. constructor; simpl; try done.
    + intros j n seq event (Hev & g & Hg)%Htold. split; [done|]. exists g. by right.
    + intros j n g [[= -> -> ->]|Hg]%elem_of_cons; [by apply Hreg|by apply Hc].
  - destruct Hp as [_ ->]. by apply faithful_send.
Qed.

Lemma performs_grows i a sh r sh' ws : faithful sh ws -> performs i a sh r sh' -> grows sh sh'.
Proof.
  intros Hf Hp.
  assert (Hb : forall b, extends (sh_bridges sh) b -> grows sh (set_bridges b sh)) by by constructor.
  assert (Hd : disturbed sh sh' -> grows sh sh').
  { intros [->|(t & _ & ->)]; [apply grows_refl|]. constructor; [done|apply extends_refl|done]. }
  destruct a; simpl in Hp; try (by apply Hd);
    try (destruct Hp as (? & _ & ->); constructor; [done|apply extends_refl|done]);
    try (destruct Hp as [_ E]; rewrite E; apply grows_refl);
    try (destruct Hp as [_ E]; rewrite E; apply Hb; first [by auto with bridge|by intros ? ?]).
  - subst sh'. constructor; [done|apply extends_refl|done].
  - subst sh'. constructor; [done|apply extends_refl|done].
  - destruct Hp as [-> ->]. constructor; simpl; [|by apply extends_register, Hf|done].
    apply insert_subseteq. destruct (sh_owner sh !! _) as [j|] eqn:E; [|done]. pose proof (fa_owner _ _ Hf _ _ E) as Hle. simpl in Hle. lia.
  - destruct Hp as [_ ->]. case_match; [|apply grows_refl]. constructor; simpl; [done|apply extends_refl|set_solver].
Qed.

(** ** Steps *)

Lemma faithful_writer g w w' sh ws :
  faithful sh ws -> ws !! g = Some w -> wr_conn w' = wr_conn w -> wr_name w' = wr_name w -> held w' = held w ->
  faithful sh (<[g := w']> ws).
Proof.
  intros [Hwf Ho Hv Ht Hw Htold Hc] Hg Hconn Hname Hheld. constructor; try done.
  - intros h c Hh. rewrite (Ht h c Hh). destruct (decide (h = g)) as [->|Hne]; [|by rewrite lookup_insert_ne].
    rewrite Hg, lookup_insert_eq. simpl. done.
  - apply map_Forall_insert_2; [|done]. rewrite Hconn, Hname. by apply (Hw g w).
Qed.

Lemma faithful_hang_up g sh ws : faithful sh ws -> faithful (set_bridges (hang_up g (sh_bridges sh)) sh) ws.
Proof.
  intros Hf. apply faithful_bridges; [done|apply hang_up_well_formed, Hf|unfold hang_up; case_match; simpl; lia|apply extends_hang_up|].
  intros h c'. unfold hang_up. destruct (br_channels (sh_bridges sh) !! g) as [c|] eqn:Hc; simpl.
  - intros [[<- <-]|[_ Hh]]%lookup_insert_Some; [exists c|exists c']; (split_and!; [done..|]); first [exact (fa_valid _ _ Hf g c Hc)|exact (fa_valid _ _ Hf h c' Hh)].
  - intros Hh. exists c'. split_and!; [done..|]. exact (fa_valid _ _ Hf h c' Hh).
Qed.

Lemma faithful_recv g w command sh ws :
  faithful sh ws -> ws !! g = Some w -> wr_holding w = None -> (recv g (sh_bridges sh)).1 = R_Command command ->
  faithful (set_bridges (recv g (sh_bridges sh)).2 sh)
    (<[g := mk_writer (wr_conn w) (wr_name w) (Some command) (wr_written w) true]> ws).
Proof.
  intros Hf Hg Hh Hr. destruct Hf as [Hwf Ho Hv Ht Hw Htold Hc].
  pose proof (recv_well_formed g _ Hwf) as Hwf'. pose proof (extends_recv g (sh_bridges sh)) as He.
  destruct (recv_command g _ command Hwf Hr) as (c & Hcg & E). rewrite E in *.
  constructor; simpl; try done.
  - apply map_Forall_insert_2; [|done]. by apply (Hv g c).
  - intros h d [[<- <-]|[Hne Hd]]%lookup_insert_Some; simpl.
    + rewrite lookup_insert_eq, (Ht g c Hcg), Hg. unfold held. simpl. by rewrite Hh, app_nil_r.
    + rewrite lookup_insert_ne by done. by apply Ht.
  - intros h v [[<- <-]|[_ Hv']]%lookup_insert_Some; [destruct (Hw g w Hg)|destruct (Hw h v Hv')]; (split; [done|by apply He]).
  - intros j n h Hj. destruct (Hc j n h Hj). split; [done|by apply He].
Qed.

Lemma inv_initial t : inv (initial t).
Proof.
  constructor; simpl; [|by apply map_Forall_empty|done].
  constructor; simpl; try apply map_Forall_empty; [apply new_well_formed|..].
  - intros i n seq event Hin. by apply elem_of_nil in Hin.
  - intros i n g Hin. by apply elem_of_nil in Hin.
Qed.

(** One thread moves, and what it leaves is fine for the others. *)
Lemma inv_conn i th s :
  inv s -> i <> REAPER -> thread_ok i th s -> inv (set_conn i th s).
Proof.
  intros [Hf Hc Hr] Hi Hth. constructor; simpl; [done| |done].
  assert (Hsame : forall j th', thread_ok j th' s -> thread_ok j th' (set_conn i th s)).
  { intros j [c|e p|]; simpl; [| |done]; intros (K & Hk & Hp); exists K; (split; [|done]); by destruct Hk. }
  apply map_Forall_insert_2; [by split; [|apply Hsame]|]. intros j th' Hj. destruct (Hc j th' Hj). by split; [|apply Hsame].
Qed.

Lemma inv_shared s sh ws :
  inv s -> faithful sh ws -> grows (ds_shared s) sh ->
  (forall i g, i <> REAPER -> ds_writers s !! g = None -> sh_owner (ds_shared s) !! g = Some i -> ws !! g = None) ->
  inv (mk_state sh (ds_conns s) ws (ds_reaper s)).
Proof.
  intros [Hf Hc Hr] Hf' Hg Hw. constructor; simpl; [done| |done]. intros i th Hi. destruct (Hc i th Hi) as [Hne Hth].
  split; [done|]. destruct th as [c|e p|]; simpl in *; [| |done]; destruct Hth as (K & Hk & Hp); exists K; (split; [|done]);
    eapply holds_grows; [exact Hg|by intros g; apply Hw|exact Hk|exact Hg|by intros g; apply Hw|exact Hk].
Qed.

Lemma holds_sure i K s : holds i K s -> sure i K (ds_shared s).
Proof. intros []. by split. Qed.

(** What a call teaches the connection is so after it. *)
Lemma holds_learn i a K r s sh :
  faithful (ds_shared s) (ds_writers s) -> holds i K s -> allowed a K -> performs i a (ds_shared s) r sh ->
  (forall n g, a = A_spawn (T_bridge n g) -> False) ->
  holds i (learn a r K) (mk_state sh (ds_conns s) (ds_writers s) (ds_reaper s)).
Proof.
  intros Hf Hk Ha Hp Hns. pose proof (performs_grows i a _ r sh _ Hf Hp) as Hg.
  assert (Hk' : holds i K (mk_state sh (ds_conns s) (ds_writers s) (ds_reaper s))).
  { by eapply holds_grows; [exact Hg|by intros g|exact Hk]. }
  destruct a; simpl; try done.
  - simpl in Hp. destruct Hp as [-> ->]. destruct Hk' as [Hr Hc Hfr]. constructor; simpl in *; [|done|].
    + intros n g [[= -> ->]|Hin]%elem_of_cons; [|by apply Hr]. split; [by rewrite lookup_insert_eq|apply registered_named].
    + intros g [= <-]. rewrite lookup_insert_eq. split; [|done].
      destruct (ds_writers s !! _) as [w|] eqn:E; [|done]. destruct (fa_writers _ _ Hf _ w E) as [Ho _].
      pose proof (fa_owner _ _ Hf _ _ Ho) as Hle. simpl in Hle. lia.
  - simpl in Hp. destruct Hp as [-> ->]. destruct (is_current _ _ _); [|done]. destruct Hk' as [Hr Hc Hfr].
    constructor; simpl in *; [done| |done]. intros n g [[= -> ->]|Hin]%elem_of_cons; [by left|by apply Hc].
  - destruct t; try done. by destruct (Hns name generation).
Qed.

(** The thread of a fresh registration starts. *)
Lemma faithful_spawn i n g sh ws :
  faithful sh ws -> ws !! g = None -> sh_owner sh !! g = Some i -> named (sh_bridges sh) n g ->
  faithful sh (<[g := mk_writer i n None [] true]> ws).
Proof.
  intros [Hwf Ho Hv Ht Hw Htold Hc] Hg Hown Hn. constructor; try done.
  - intros h c Hh. rewrite (Ht h c Hh). destruct (decide (h = g)) as [->|Hne]; [|by rewrite lookup_insert_ne].
    by rewrite lookup_insert_eq, Hg.
  - by apply map_Forall_insert_2.
Qed.

Lemma inv_act i e a k r sh s :
  inv s -> ds_conns s !! i = Some (Busy e (act a k)) -> performs i a (ds_shared s) r sh ->
  inv (spawned i a (set_shared sh (set_conn i (Busy e (k r)) s))).
Proof.
  intros Hi Hth Hp. destruct (in_conns s Hi i _ Hth) as (Hne & K & Hk & Ha & Hr).
  pose proof (performs_faithful i a K _ r sh _ (in_faithful s Hi) (holds_sure i K s Hk) Ha Hp) as Hf.
  pose proof (performs_grows i a _ r sh _ (in_faithful s Hi) Hp) as Hg.
  assert (Hplain : (forall n g, a = A_spawn (T_bridge n g) -> False) -> inv (set_conn i (Busy e (k r)) (set_shared sh s))).
  { intros Hns. apply inv_conn; [by apply (inv_shared s sh (ds_writers s))|done|]. exists (learn a r K). split; [|apply Hr].
    by apply holds_learn; [apply in_faithful| | | |]. }
  destruct a; try by apply Hplain. destruct t; try by apply Hplain. clear Hplain.
  destruct Ha as [Hreg Hfresh]. destruct (ho_reg i K s Hk _ _ Hreg) as [Hown Hn]. destruct (ho_fresh i K s Hk _ Hfresh) as [Hnone _].
  assert (Hown' : sh_owner sh !! generation = Some i) by (eapply lookup_weaken; [exact Hown|apply Hg]).
  set (w := mk_writer i name None [] true).
  assert (Hi' : inv (mk_state sh (<[i := Ended]> (ds_conns s)) (<[generation := w]> (ds_writers s)) (ds_reaper s))).
  { destruct Hi as [_ Hc Hreap]. constructor; simpl; [by apply faithful_spawn; [|..|apply Hg]| |done].
    intros j th [[<- <-]|[Hji Hj]]%lookup_insert_Some; [done|]. destruct (Hc j th Hj) as [Hj0 Hjth]. split; [done|].
    assert (Hh : forall K', holds j K' s -> holds j K' (mk_state sh (<[i := Ended]> (ds_conns s)) (<[generation := w]> (ds_writers s)) (ds_reaper s))).
    { intros K' Hk'. eapply holds_grows; [exact Hg| |exact Hk']. intros g Hgn Hgo. simpl. rewrite lookup_insert_ne; [done|congruence]. }
    destruct th as [c|e' p|]; simpl in *; [| |done]; destruct Hjth as (K' & Hk' & Hp'); exists K'; (split; [by apply Hh|done]). }
  pose proof (inv_conn i (Busy e (k r)) _ Hi' Hne) as Hfin. unfold set_conn in Hfin. simpl in Hfin. rewrite insert_insert_eq in Hfin.
  apply Hfin. exists (mk_know (kn_reg K) (kn_checked K) None). split; [|apply Hr].
  destruct Hk as [Hr1 Hc1 _]. constructor; simpl; [| |done].
  - intros n g Hin. destruct (Hr1 n g Hin) as [? ?]. split; [by eapply lookup_weaken; [|apply Hg]|by apply Hg].
  - intros n g Hin. by apply Hg, Hc1.
Qed.

Lemma inv_writer g w w' f s :
  inv s -> ds_writers s !! g = Some w ->
  faithful (set_bridges (f (bridges s)) (ds_shared s)) (<[g := w']> (ds_writers s)) -> extends (bridges s) (f (bridges s)) ->
  inv (on_bridges f (set_writer g w' s)).
Proof.
  intros Hi Hg Hf He. apply (inv_shared s _ (<[g := w']> (ds_writers s))); [done..| |].
  - by constructor.
  - intros i h _ Hh _. rewrite lookup_insert_ne; [done|congruence].
Qed.

Lemma daemon_step_inv s s' : inv s -> step s s' -> inv s'.
Proof.
  intros Hi Hs. destruct Hs as [i Hne Hnone|i c f Hc|i c Hc|i e a k r sh Hc Hp|i e c Hc|g w command Hg Ha Hh Hr|g w Hg Ha Hh Hr
    |g w command Hg Ha Hh|g w command Hg Ha Hh|t Hd|c Hr|a k r sh Hr Hp].
  - apply inv_conn; [done..|]. exists (mk_know [] [] None). split; [|by intros n g].
    constructor; simpl; [..|done]; intros n g Hin; by apply elem_of_nil in Hin.
  - destruct (in_conns s Hi i _ Hc) as (Hne & K & Hk & Hkn). apply inv_conn; [done..|]. exists K. split; [done|by apply handle_careful].
  - destruct (in_conns s Hi i _ Hc) as (Hne & K & Hk & Hkn). apply inv_conn; [done..|]. exists K. split; [done|by apply end_careful].
  - by apply inv_act.
  - destruct (in_conns s Hi i _ Hc) as (Hne & K & Hk & Hkn). apply inv_conn; [done..|]. destruct e; [done|]. by exists K.
  - eapply inv_writer; [done|exact Hg| |apply extends_recv]. by apply faithful_recv; [apply in_faithful|..].
  - eapply inv_writer; [done|exact Hg| |apply extends_hang_up]. eapply faithful_writer; [by apply faithful_hang_up, in_faithful|exact Hg|done..|].
    unfold held. simpl. by rewrite Hh.
  - pose proof (inv_writer g w (mk_writer (wr_conn w) (wr_name w) None (wr_written w ++ [command]) true) id s Hi Hg) as Hw.
    assert (E : forall s : State, on_bridges id s = s) by (intros [[] ? ? ?]; done). rewrite E in Hw. apply Hw; [|by intros n h].
    assert (E' : set_bridges (id (bridges s)) (ds_shared s) = ds_shared s) by by destruct (ds_shared s). rewrite E'.
    eapply faithful_writer; [apply in_faithful, Hi|exact Hg|done..|]. unfold held. simpl. rewrite Hh. by rewrite app_nil_r.
  - eapply inv_writer; [done|exact Hg| |apply extends_hang_up]. eapply faithful_writer; [by apply faithful_hang_up, in_faithful|exact Hg|done..|].
    unfold held. simpl. by rewrite Hh.
  - apply (inv_shared s _ (ds_writers s)); [done| |constructor; [done|apply extends_refl|done]|done].
    destruct (in_faithful s Hi); by constructor.
  - destruct Hi as [Hf Hc _]. constructor; simpl; [done| |apply reap_mild]. intros i th Hth. destruct (Hc i th Hth) as [? Ht].
    split; [done|]. destruct th; simpl in *; try done; destruct Ht as (K & Hk & Hp); exists K; (split; [by destruct Hk|done]).
  - pose proof (in_reaper s Hi) as Hw. rewrite Hr in Hw. destruct Hw as [Hm Hk].
    assert (Ha : allowed a (mk_know [] [] None)) by by destruct a.
    assert (Hsure : sure REAPER (mk_know [] [] None) (ds_shared s)) by by split; intros n g Hin; apply elem_of_nil in Hin.
    pose proof (performs_faithful REAPER a _ _ r sh _ (in_faithful s Hi) Hsure Ha Hp) as Hf.
    pose proof (performs_grows REAPER a _ r sh _ (in_faithful s Hi) Hp) as Hg.
    destruct (inv_shared s sh (ds_writers s) Hi Hf Hg ltac:(done)) as [_ Hc _]. constructor; simpl; [done| |].
    + intros i th Hth. destruct (Hc i th Hth) as [? Ht]. split; [done|].
      destruct th; simpl in *; try done; destruct Ht as (K & HK & Hp'); exists K; (split; [by destruct HK|done]).
    + apply Hk.
Qed.

Lemma daemon_run_inv t s : run (initial t) s -> inv s.
Proof.
  remember (initial t) as s0 eqn:E. induction 1 as [s0|s0 s' s'' _ IH Hstep]; subst; [apply inv_initial|].
  by eapply daemon_step_inv; [apply IH|].
Qed.


(** C7. Nobody speaks for another's Pi session: an event that watchers were told of a
    session came from a connection that had registered for that very session with the
    registry, under a generation that is nobody else's, that the registry then
    confirmed as the current one; and it is within the limits. *)
Theorem events_authentic t s i n seq event :
  run (initial t) s -> (i, M_PiEvent _ n seq event) ∈ sh_told_pi (ds_shared s) ->
  validate_pi_event to_vec event = Ok tt
  /\ exists g, (i, n, g) ∈ sh_checked (ds_shared s) /\ sh_owner (ds_shared s) !! g = Some i /\ named (bridges s) n g
     /\ forall n', named (bridges s) n' g -> n' = n.
Proof.
  intros [[Hwf Ho Hv Ht Hw Htold Hc] _ _]%daemon_run_inv Hin. destruct (Htold i n seq event Hin) as (Hev & g & Hg).
  split; [done|]. destruct (Hc i n g Hg) as (Hown & c & Hcg & Hn). exists g. split_and!; try done; [by exists c|].
  intros n' (c' & Hcg' & <-). congruence.
Qed.

(** ** What watchers believe of bridges *)

Definition last_status (n : string) (l : list ControlMsg) : option bool :=
  foldl (fun acc m => match m with M_PiBridgeStatus _ n' b => if bool_decide (n' = n) then Some b else acc | _ => acc end) None l.

(** No connection is in the middle of something. *)
Definition quiet (s : State) : bool :=
  forallb (fun e => match e.2 with Busy _ _ => false | _ => true end) (map_to_list (ds_conns s)).

Lemma run_cons s s' s'' : step s s' -> run s' s'' -> run s s''.
Proof.
  intros Hs Hr. induction Hr as [s'|s' s1 s2 _ IH Hstep]; [eapply run_snoc; [apply run_nil|done]|].
  eapply run_snoc; [by apply IH|done].
Qed.

Tactic Notation "go" uconstr(H) := eapply run_cons; [eapply H; first [reflexivity|by left|by split|done]|vm_compute].

(** Watchers can be left with the wrong word: a bridge reconnects while the end of its
    old connection has taken the old registration out but not said so yet; the new
    registration is announced first and the old one's end last, so watchers hold the
    bridge to be gone for as long as it stays. *)
Theorem status_race t : exists s,
  run (initial t) s /\ quiet s = true /\ contains "w1.1" (bridges s) = true
  /\ (exists w, ds_writers s !! 2%Z = Some w /\ wr_alive w = true /\ br_entries (bridges s) !! "w1.1" = Some 2%Z)
  /\ last_status "w1.1" (map snd (sh_told_pi (ds_shared s))) = Some false.
Proof.
  eexists. split.
  - go (step_accept _ 1). go (step_accept _ 2).
    go (step_frame _ 1 _ (F_Control (M_PiBridgeHello _ "w1.1"))).
    go (step_act _ 1 _ (A_session_kind "w1.1") _ (Some Pi)).
    go (step_act _ 1). go (step_act _ 1). go (step_act _ 1). go (step_halt _ 1).
    go (step_eof _ 1). go (step_act _ 1 _ A_next_search_epoch _ 0%Z). go (step_act _ 1).
    go (step_frame _ 2 _ (F_Control (M_PiBridgeHello _ "w1.1"))).
    go (step_act _ 2 _ (A_session_kind "w1.1") _ (Some Pi)).
    go (step_act _ 2). go (step_act _ 2). go (step_act _ 2). go (step_halt _ 2).
    go (step_act _ 1). go (step_halt _ 1). apply run_nil.
  - split_and!; try (vm_compute; reflexivity). eexists. split_and!; vm_compute; reflexivity.
  Unshelve. all: exact tt.
Qed.
End Daemon.

(** ** Examples *)

(** A JSON library for which every text is a message event. *)
#[export] Instance message_events : JsonValue string := {
  from_str t := Some t;
  get v k := Some (if bool_decide (k = "kind") then "message" else v);
  as_str v := Some v;
  as_u64 _ := None;
  as_array _ := None;
  is_null _ := false }.

Definition demo_size (v : string) : result Z string := Ok (Z.of_nat (String.length v)).
Definition demo_refusal (command : PiCommand) (e : PiError) : string := "refused".

Section Examples.
Context {T : Type} `{SessionTable T}.

Tactic Notation "go" uconstr(H) := eapply run_cons; [eapply H; first [reflexivity|by left|by split|done]|vm_compute].

Abbreviation demo_run := (run (T := T) (Value := string) demo_size demo_refusal).

(** A bridge registers, another connection sends it a command, its thread writes it, and
    the bridge reports an event. *)
Lemma demo_bridge (t : T) : exists s,
  demo_run (initial t) s
  /\ ds_writers s !! 1%Z = Some (mk_writer 1 "w1.1" None [Pi_Snapshot] true)
  /\ (1, M_PiEvent _ "w1.1" 7 "hello") ∈ sh_told_pi (ds_shared s).
Proof.
  eexists. split.
  - go (step_accept _ _ _ 1). go (step_accept _ _ _ 2).
    go (step_frame _ _ _ 1 _ (F_Control (M_PiBridgeHello _ "w1.1"))).
    go (step_act _ _ _ 1 _ (A_session_kind "w1.1") _ (Some Pi)).
    go (step_act _ _ _ 1). go (step_act _ _ _ 1). go (step_act _ _ _ 1). go (step_halt _ _ _ 1).
    go (step_frame _ _ _ 2 _ (F_Control (M_PiBridgeCommand _ "w1.1" Pi_Snapshot))).
    go (step_act _ _ _ 2 _ (A_session_kind "w1.1") _ (Some Pi)).
    go (step_act _ _ _ 2). go (step_act _ _ _ 2). go (step_halt _ _ _ 2).
    go (step_recv _ _ _ 1%Z). go (step_write _ _ _ 1%Z).
    go (step_frame _ _ _ 1 _ (F_Control (M_PiEvent _ "w1.1" 7 "hello"))).
    go (step_act _ _ _ 1 _ (A_session_kind "w1.1") _ (Some Pi)).
    go (step_act _ _ _ 1). go (step_act _ _ _ 1). go (step_halt _ _ _ 1).
    apply run_nil.
  - split; [vm_compute; reflexivity|]. vm_compute. apply list_elem_of_further. by left.
  Unshelve. all: exact tt.
Qed.

End Examples.

Definition demo_look : Look := mk_look (fun _ => None) (fun _ => None) (fun _ => None).
#[export] Instance demo_sessions : SessionTable Manager.World := @manager_table numbered Lifecycle.demo_host demo_look.
Definition empty_world : Manager.World := Manager.mk_world ∅ [] [] (Manager.mk_manager ∅ 0 ∅ ∅ ∅ ∅) [] [].

Definition demo_run := run (T := Manager.World) (Value := string) demo_size demo_refusal.


Lemma events_authentic_witness : exists s g,
  demo_run (initial empty_world) s /\ (1, M_PiEvent _ "w1.1" 7 "hello") ∈ sh_told_pi (ds_shared s)
  /\ (1, "w1.1", g) ∈ sh_checked (ds_shared s) /\ sh_owner (ds_shared s) !! g = Some 1.
Proof.
  destruct (demo_bridge empty_world) as (s & Hr & _ & He).
  destruct (events_authentic demo_size demo_refusal empty_world s 1 "w1.1" 7 "hello" Hr He) as (_ & g & Hg & Ho & _).
  by exists s, g.
Defined.
