(* ===== verification/DaemonViews.v ===== *)
(** * What watchers are told of sessions

    On [Daemon]: the picture of the sessions that follows from the deltas broadcast.
    Handlers and reaper one after the other keep it true of any table that keeps
    [Table]'s promises, as the manager does; interleaved they need not. *)
From S2P Require Import Prelude Utf8 Wire PiCommand Store Browser Bridge Requests Table Daemon.
From S2P Require Manager Lifecycle.

Section Views.
Context {T : Type} `{SessionTable T} {Value : Type} `{JsonValue Value}.
Context (to_vec : Value -> result Z string) (refusal : PiCommand -> PiError -> string).

Abbreviation ControlMsg := (ControlMsg Value).
Abbreviation action := (action (Value := Value)).
Abbreviation prog := (prog (Value := Value)).
Abbreviation Shared := (Shared (T := T) (Value := Value)).
Abbreviation State := (State (T := T) (Value := Value)).
Abbreviation handle_frame := (handle_frame to_vec refusal).

(** ** The picture *)

(** A delta, as every watcher applies it. *)
Definition see (names : gset string) (m : ControlMsg) : gset string :=
  match m with
  | M_SessionsChanged _ added removed => list_to_set (map si_name added) ∪ names ∖ list_to_set removed
  | _ => names
  end.

Definition view (names : gset string) (told : list ControlMsg) : gset string := foldl see names told.

Lemma view_snoc names told m : view names (told ++ [m]) = see (view names told) m.
Proof. unfold view. by rewrite foldl_app. Qed.

(** ** One handler after the other *)

(** [whole]: whether the listings of the sessions answered are complete. *)
Definition lists_all (names : gset string) (r : result (list SessionInfo) string) : Prop :=
  exists infos, r = Ok infos /\ forall n, n ∈ names -> exists i, i ∈ infos /\ si_name i = n.

Definition acceptable (whole : bool) (a : action) (names : gset string) : answer a -> Prop :=
  match a with A_session_infos => fun r => whole = true -> lists_all names r | _ => fun _ => True end.

Fixpoint exec (whole : bool) (i : nat) (p : prog) (s : Shared) (c : Conn) (s' : Shared) : Prop :=
  match p with
  | halt c0 => c0 = c /\ s = s'
  | act a k => exists r s1, performs i a s r s1 /\ acceptable whole a (tb_names (sh_table s)) r /\ exec whole i (k r) s1 c s'
  end.

Inductive serial (whole : bool) (s : Shared) : Shared -> Prop :=
| serial_nil : serial whole s s
| serial_frame s1 i c f c' s2 : serial whole s s1 -> exec whole i (handle_frame c f) s1 c' s2 -> serial whole s s2
| serial_end s1 i c c' s2 : serial whole s s1 -> exec whole i (end_connection c) s1 c' s2 -> serial whole s s2
| serial_reap s1 c' s2 : serial whole s s1 -> exec whole REAPER reap_tick s1 c' s2 -> serial whole s s2
| serial_disturb s1 t : serial whole s s1 -> tb_disturb (sh_table s1) t -> serial whole s (set_table t s1).

(** What calls do to the names of the table and to the picture. *)
Definition effect (whole : bool) (a : action) (x : gset string * gset string)
  : (answer a -> gset string * gset string -> Prop) -> Prop :=
  let '(names, seen) := x in
  match a with
  | A_create_with_title n _ _ _ => fun Q => forall r, Q r (match r with Ok _ => {[n]} ∪ names | Err _ => names end, seen)
  | A_rename from to => fun Q => forall r,
      match r with
      | Ok info => si_name info = to -> from ∈ names -> Q r ({[to]} ∪ names ∖ {[from]}, seen)
      | Err _ => Q r (names, seen)
      end
  | A_remove n => fun Q => forall r, Q r (match r with Ok _ => names ∖ {[n]} | Err _ => names end, seen)
  | A_set_title n _ => fun Q => forall r, (forall info, r = Ok info -> si_name info = n /\ n ∈ names) -> Q r (names, seen)
  | A_session_infos => fun Q => forall r,
      (forall infos, r = Ok infos -> Forall (fun i => si_name i ∈ names) infos) -> (whole = true -> lists_all names r) -> Q r (names, seen)
  | A_reap => fun Q => forall r, Q r (names ∖ match r with Ok ns => list_to_set ns | Err _ => ∅ end, seen)
  | A_session n => fun Q => forall r, (is_Some r <-> n ∈ names) -> Q r (names, seen)
  | A_broadcast m => fun Q => Q tt (names, see seen m)
  | _ => fun Q => forall r, Q r (names, seen)
  end.

Definition picture (names0 : gset string) (s : Shared) : gset string * gset string :=
  (tb_names (sh_table s), view names0 (sh_told s)).

Lemma disturbed_names t t' : tb_ok t -> rtc tb_disturb t t' -> tb_ok t' /\ tb_names t' = tb_names t.
Proof.
  intros Hok. induction 1 as [t|t t1 t2 Hd _ IH]; [done|]. destruct (tb_disturb_ok _ _ Hok Hd) as [Hok1 <-]. by apply IH.
Qed.

Lemma disturbed_picture names0 s s' : tb_ok (sh_table s) -> disturbed s s' -> tb_ok (sh_table s') /\ picture names0 s' = picture names0 s.
Proof.
  intros Hok [->|(t & Hd & ->)]; [done|]. destruct (disturbed_names _ _ Hok Hd) as [Hok' Hn]. split; [done|].
  unfold picture. simpl. by rewrite Hn.
Qed.

Lemma performs_effect whole names0 i a s r s' Q :
  tb_ok (sh_table s) -> performs i a s r s' -> acceptable whole a (tb_names (sh_table s)) r ->
  effect whole a (picture names0 s) Q -> tb_ok (sh_table s') /\ Q r (picture names0 s').
Proof.
  intros Hok Hp Hacc HQ.
  destruct a; simpl in Hp, HQ, Hacc;
    try (destruct (disturbed_picture names0 s s' Hok Hp) as [Hok' E]; split; [done|]; rewrite E; exact (HQ r)).
  - destruct Hp as (t & Ht & ->). destruct (tb_create_ok _ _ _ _ _ _ _ Hok Ht) as [Hok' E]. split; [done|].
    unfold picture. simpl. rewrite E. exact (HQ r).
  - destruct Hp as (t & Ht & ->). destruct (tb_rename_ok _ _ _ _ _ Hok Ht) as [Hok' E]. split; [done|].
    specialize (HQ r). unfold picture. simpl. destruct r; [destruct E as (? & ? & ->); by apply HQ|by rewrite E].
  - destruct Hp as (t & Ht & ->). destruct (tb_remove_ok _ _ _ _ Hok Ht) as [Hok' E]. split; [done|].
    unfold picture. simpl. rewrite E. exact (HQ r).
  - destruct Hp as (t & Ht & ->). destruct (tb_set_title_ok _ _ _ _ _ Hok Ht) as (Hok' & E & Hi). split; [done|].
    unfold picture. simpl. rewrite E. exact (HQ r Hi).
  - destruct Hp as (t & Ht & ->). destruct (tb_reap_ok _ _ _ Hok Ht) as [Hok' E]. split; [done|].
    unfold picture. simpl. rewrite E. exact (HQ r).
  - destruct Hp as [_ ->]. split; [done|exact (HQ r)].
  - destruct Hp as [Hr ->]. split; [done|]. exact (HQ r Hr).
  - destruct Hp as (t & Ht & ->). destruct (tb_infos_ok _ _ _ Hok Ht) as (Hok' & E & Hi). split; [done|].
    unfold picture. simpl. rewrite E. exact (HQ r Hi Hacc).
  - subst s'. split; [done|]. unfold picture. simpl. rewrite view_snoc. by destruct r.
  - subst s'. split; [done|exact (HQ r)].
  - destruct Hp as [_ ->]. split; [done|exact (HQ r)].
  - destruct Hp as [_ ->]. split; [done|exact (HQ r)].
  - destruct Hp as [_ ->]. split; [done|exact (HQ r)].
  - destruct Hp as [_ ->]. split; [done|exact (HQ r)].
  - destruct Hp as [_ ->]. split; [by case_match|]. specialize (HQ r). by case_match.
  - destruct Hp as [_ ->]. split; [done|exact (HQ r)].
Qed.

Lemma exec_effect whole names0 i p s c s' Q :
  tb_ok (sh_table s) -> exec whole i p s c s' -> wp (effect whole) p (picture names0 s) Q ->
  tb_ok (sh_table s') /\ Q c (picture names0 s').
Proof.
  revert s. induction p as [a k IH|c0]; intros s Hok He Hw; simpl in *.
  - destruct He as (r & s1 & Hp & Hacc & He). destruct (performs_effect whole names0 i a s r s1 _ Hok Hp Hacc Hw) as [Hok1 Hw1].
    by eapply IH.
  - destruct He as [<- <-]. by split.
Qed.

(** ** Handlers keep the picture *)

Definition true_view (whole : bool) (x : gset string * gset string) : Prop := x.2 ⊆ x.1 /\ (whole = true -> x.1 ⊆ x.2).

Lemma effect_mono whole a x (Q Q' : answer a -> gset string * gset string -> Prop) :
  (forall r y, Q r y -> Q' r y) -> effect whole a x Q -> effect whole a x Q'.
Proof.
  destruct x as [names seen]. intros HQ. destruct a; simpl; intros Hq; try (intros r; intros; by apply HQ, Hq); [|by apply HQ].
  intros r. specialize (Hq r). destruct r; [intros ? ?; by apply HQ, Hq|by apply HQ].
Qed.

Lemma view_release whole n subs k x Q : (forall kept, wp (effect whole) (k kept) x Q) -> wp (effect whole) (release n subs k) x Q.
Proof.
  intros Hk. apply (wp_release (effect whole) (effect_mono whole) (eq x)); [done| |by intros kept ? <- _].
  intros sess id s <-. by destruct x.
Qed.

Lemma view_unsubscribe whole subs k x Q : wp (effect whole) k x Q -> wp (effect whole) (unsubscribe_all subs k) x Q.
Proof. intros Hk. destruct x. induction subs as [|[[n sess] id] subs IH]; simpl; [done|]. by intros _. Qed.

Lemma view_statuses whole infos k x Q : wp (effect whole) k x Q -> wp (effect whole) (pi_statuses infos k) x Q.
Proof. intros Hk. destruct x. induction infos as [|info infos IH]; simpl; [done|]. case_bool_decide; [|done]. by intros ? ?. Qed.

Lemma find_info_in n r info : find_info n r = Some info -> si_name info = n /\ exists infos, r = Ok infos /\ info ∈ infos.
Proof.
  unfold find_info. intros [Hin E]%find_first_Some. apply bool_decide_eq_true in E. split; [done|].
  destruct r as [infos|e]; [by exists infos|by apply elem_of_nil in Hin].
Qed.

Lemma find_info_whole names n r : lists_all names r -> n ∈ names -> find_info n r <> None.
Proof.
  intros (infos & -> & Hall) Hn E. destruct (Hall n Hn) as (i & Hi & Hin). unfold find_info in E. simpl in E.
  apply (proj1 (find_first_None _ _) E) in Hi. rewrite Hin, bool_decide_true in Hi; done.
Qed.

(** Follow a handler. *)
Ltac follow :=
  repeat match goal with
  | |- wp (effect _) (act _ _) _ _ => cbn [wp effect]; intros
  | |- wp (effect _) (release _ _ _) _ _ => apply view_release; intros ?
  | |- wp (effect _) (pi_statuses _ _) _ _ => apply view_statuses
  | |- wp (effect _) (unsubscribe_all _ _) _ _ => apply view_unsubscribe
  | |- wp (effect _) (match ?x with _ => _ end) _ _ => destruct x eqn:?
  | |- wp (effect _) (halt _) _ _ => cbn [wp]
  end.

(** Deltas that keep up with the table. *)
Lemma told_changed whole names seen info :
  true_view whole (names, seen) -> si_name info ∈ names -> true_view whole (names, see seen (changed info)).
Proof. intros [Hs Ha] Hi. split; simpl in *; [set_solver|intros Hw; specialize (Ha Hw); set_solver]. Qed.

Lemma told_created whole names seen n info :
  true_view whole (names, seen) -> si_name info = n -> true_view whole ({[n]} ∪ names, see seen (changed info)).
Proof. intros [Hs Ha] <-. split; simpl in *; [set_solver|intros Hw; specialize (Ha Hw); set_solver]. Qed.

Lemma told_removed whole names seen l :
  true_view whole (names, seen) -> true_view whole (names ∖ list_to_set l, see seen (M_SessionsChanged _ [] l)).
Proof. intros [Hs Ha]. split; simpl in *; [set_solver|intros Hw; specialize (Ha Hw); set_solver]. Qed.

Lemma told_killed whole names seen n :
  true_view whole (names, seen) -> true_view whole (names ∖ {[n]}, see seen (M_SessionsChanged _ [] [n])).
Proof. intros Hv. replace ({[n]} : gset string) with (list_to_set [n] : gset string) by set_solver. by apply told_removed. Qed.

Lemma told_renamed whole names seen from to info :
  true_view whole (names, seen) -> si_name info = to ->
  true_view whole ({[to]} ∪ names ∖ {[from]}, see seen (M_SessionsChanged _ [info] [from])).
Proof. intros [Hs Ha] <-. split; simpl in *; [set_solver|intros Hw; specialize (Ha Hw); set_solver]. Qed.

(** Silence that is none of the listings' fault. *)
Lemma silent_absent whole names seen n :
  true_view whole (names, seen) -> n ∉ names -> true_view whole (names ∖ {[n]}, seen).
Proof. intros Hv Hn. by rewrite difference_disjoint_L by set_solver. Qed.

Lemma silent_created whole (names seen : gset string) n r :
  true_view whole (names, seen) -> (whole = true -> lists_all ({[n]} ∪ names) r) -> find_info n r = None ->
  true_view whole ({[n]} ∪ names, seen).
Proof.
  intros [Hs _] Hr E. split; simpl in *; [set_solver|]. intros Hw.
  by destruct (find_info_whole _ n r (Hr Hw)); [set_solver|].
Qed.

(** What was listed of a session is of a session there is. *)
Lemma listed_in (names : gset string) n r info :
  (forall infos, r = Ok infos -> Forall (fun i => si_name i ∈ names) infos) -> find_info n r = Some info ->
  si_name info = n /\ si_name info ∈ names.
Proof.
  intros Hr (<- & infos & -> & Hin)%find_info_in. split; [done|]. specialize (Hr infos eq_refl). rewrite Forall_forall in Hr. by apply Hr.
Qed.

Lemma session_absent (names : gset string) n (sess : option nat) :
  (is_Some sess <-> n ∈ names) -> bool_decide (is_Some sess) = false -> n ∉ names.
Proof. intros Hs Hb%bool_decide_eq_false Hn. by apply Hb, Hs. Qed.

Create HintDb view.
Hint Resolve told_changed told_created told_removed told_killed told_renamed silent_absent silent_created session_absent : view.

Lemma handle_view whole c f names seen :
  true_view whole (names, seen) -> wp (effect whole) (handle_frame c f) (names, seen) (fun _ => true_view whole).
Proof.
  intros Hv. destruct f as [msg|n bs|n bs]; cbn [handle_frame]; [|by intros _|exact Hv].
  destruct msg; cbn [handle_control]; unfold handle_create, handle_attach, handle_rename, handle_kill, handle_hello,
    handle_bridge_command, handle_pi_event, authorized, handle_search, outcome, publish, forget_bridge, error, reply; cbv zeta;
  follow; try done.
  all: try match goal with |- match ?r with _ => _ end => destruct r; intros; follow; try done end.
  all: repeat match goal with
    | Hr : forall infos, ?r = Ok infos -> Forall _ _, E : find_info ?n ?r = Some _ |- _ => destruct (listed_in _ _ _ _ Hr E) as [? ?]; clear Hr
    | Hr : forall info, Ok ?a = Ok info -> _ |- _ => destruct (Hr a eq_refl) as [<- ?]; clear Hr
    end.
  all: eauto with view.
Qed.

Lemma end_view whole c names seen :
  true_view whole (names, seen) -> wp (effect whole) (end_connection c) (names, seen) (fun _ => true_view whole).
Proof. intros Hv. unfold end_connection. cbn [wp effect]. intros _. apply view_unsubscribe. destruct (cn_pi c) as [[n g]|]; [|exact Hv]. intros []; [|exact Hv]. intros _. exact Hv. Qed.

Lemma reap_view whole names seen :
  true_view whole (names, seen) -> wp (effect whole) reap_tick (names, seen) (fun _ => true_view whole).
Proof.
  intros Hv. unfold reap_tick. cbv zeta. follow; auto with view; by rewrite ?list_to_set_nil, difference_empty_L.
Qed.

Lemma exec_view whole names0 i p s c s' :
  tb_ok (sh_table s) -> true_view whole (picture names0 s) -> exec whole i p s c s' ->
  (forall names seen, true_view whole (names, seen) -> wp (effect whole) p (names, seen) (fun _ => true_view whole)) ->
  tb_ok (sh_table s') /\ true_view whole (picture names0 s').
Proof.
  intros Hok Hv He Hp. apply (exec_effect whole names0 i p s c s' (fun _ => true_view whole)); [done..|]. by apply Hp.
Qed.

(** C4. What watchers were told of sessions is so as long as handlers and the reaper do
    not overlap: with the table as it was when they began to watch and every delta since,
    each request and each end of a connection and each round of the reaper leaves them
    no session that is not there, and, when listings were complete, every one that
    is. *)
Theorem views_truthful whole t s :
  tb_ok t -> serial whole (start t) s ->
  view (tb_names t) (sh_told s) ⊆ tb_names (sh_table s)
  /\ (whole = true -> view (tb_names t) (sh_told s) = tb_names (sh_table s)).
Proof.
  intros Hok Hs. enough (Hi : tb_ok (sh_table s) /\ true_view whole (picture (tb_names t) s)).
  { destruct Hi as (_ & Hsub & Hall). simpl in *. split; [done|]. intros Hw. apply (anti_symm (⊆)); auto. }
  induction Hs as [|s1 i c f c' s2 _ [Hok1 Hv] He|s1 i c c' s2 _ [Hok1 Hv] He|s1 c' s2 _ [Hok1 Hv] He|s1 t' _ [Hok1 Hv] Hd].
  - by split.
  - eapply exec_view; [done..|exact He|]. apply handle_view.
  - eapply exec_view; [done..|exact He|]. apply end_view.
  - eapply exec_view; [done..|exact He|]. apply reap_view.
  - destruct (disturbed_picture (tb_names t) s1 (set_table t' s1) Hok1) as [Hok' E']; [by right; exists t'; split; [apply rtc_once|]|].
    by rewrite E'.
Qed.

(** ** Handlers that overlap *)

(** Calls of one connection, none of which starts a bridge's thread. *)
Inductive calls (i : nat) : prog -> Shared -> prog -> Shared -> Prop :=
| calls_nil p s : calls i p s p s
| calls_cons a k r s s1 p s2 :
    match a with A_spawn (T_bridge _ _) => False | _ => True end ->
    performs i a s r s1 -> calls i (k r) s1 p s2 -> calls i (act a k) s p s2.

Abbreviation run := (run to_vec refusal).
Abbreviation step := (step to_vec refusal).

Lemma run_after s s' s'' : run s s' -> run s' s'' -> run s s''.
Proof. intros Hr. induction 1 as [|s' s1 s2 _ IH Hstep]; [done|]. eapply run_snoc; [by apply IH|done]. Qed.

Definition at_conn (i : nat) (th : Thread) (sh : Shared) (s : State) : State := set_shared sh (set_conn i th s).

Lemma at_conn_twice i th th' sh sh' s : at_conn i th' sh' (at_conn i th sh s) = at_conn i th' sh' s.
Proof. unfold at_conn, set_shared, set_conn. simpl. by rewrite insert_insert_eq. Qed.

Lemma at_conn_same i th s : ds_conns s !! i = Some th -> at_conn i th (ds_shared s) s = s.
Proof. intros Hi. unfold at_conn, set_shared, set_conn. simpl. rewrite insert_id by done. by destruct s. Qed.

Lemma at_conn_lookup i th sh s : ds_conns (at_conn i th sh s) !! i = Some th.
Proof. apply lookup_insert_eq. Qed.

Lemma run_calls i e p sh p' sh' s :
  calls i p sh p' sh' -> run (at_conn i (Busy e p) sh s) (at_conn i (Busy e p') sh' s).
Proof.
  induction 1 as [p sh|a k r sh sh1 p sh2 Ha Hp _ IH]; [apply run_nil|]. eapply run_cons; [|exact IH].
  pose proof (step_act to_vec refusal _ i e a k r sh1 (at_conn_lookup i _ sh s) Hp) as Hs.
  replace (spawned i a _) with (at_conn i (Busy e (k r)) sh1 s) in Hs; [done|].
  rewrite <- (at_conn_twice i (Busy e (act a k)) _ sh). by destruct a as [| | | | | | | | | | | | | | | | | | | | | | | | | | | | | | | | | | | | | | | | | |[]].
Qed.

(** A connection is accepted; it handles a frame up to some call, and to the end. *)
Lemma run_accept i s : i <> REAPER -> ds_conns s !! i = None -> run s (at_conn i (Idle no_conn) (ds_shared s) s).
Proof. intros Hi Hn. eapply run_snoc; [apply run_nil|]. exact (step_accept to_vec refusal s i Hi Hn). Qed.

Lemma run_frame i c f s p sh :
  ds_conns s !! i = Some (Idle c) -> calls i (handle_frame c f) (ds_shared s) p sh -> run s (at_conn i (Busy false p) sh s).
Proof.
  intros Hi Hc. eapply run_cons; [by apply (step_frame to_vec refusal s i c f)|].
  by apply (run_calls i false _ (ds_shared s)).
Qed.

Lemma run_rest i e p s c sh :
  ds_conns s !! i = Some (Busy e p) -> calls i p (ds_shared s) (halt c) sh ->
  run s (at_conn i (if e then Ended else Idle c) sh s).
Proof.
  intros Hi Hc. rewrite <- (at_conn_same i _ s Hi) at 1. eapply run_snoc; [by apply run_calls|].
  pose proof (step_halt to_vec refusal _ i e c (at_conn_lookup i (Busy e (halt c)) sh s)) as Hs.
  rewrite <- (at_conn_twice i (Busy e (halt c)) (if e then Ended else Idle c) sh sh). exact Hs.
Qed.

(** C30. Watchers can be left with a session that is gone: one connection creates it and has
    read its description when another kills it; the kill is broadcast before the
    description is, and nothing withdraws that. *)
Theorem ghost_session n cwd infos info t0 t1 t2 t3 :
  tb_ok t0 -> tb_create n cwd Shell None t0 (Ok tt) t1 -> tb_infos t1 (Ok infos) t2 ->
  find_info n (Ok infos) = Some info -> tb_remove n t2 (Ok tt) t3 ->
  exists s, run (initial t0) s /\ quiet s = true /\ sh_table (ds_shared s) = t3
    /\ (n ∉ tb_names t3) /\ n ∈ view (tb_names t0) (sh_told (ds_shared s)).
Proof.
  intros Hok Hcreate Hinfos Hfind Hremove.
  assert (Hn : si_name info = n /\ n ∈ tb_names t2 /\ n ∉ tb_names t3).
  { destruct (tb_create_ok _ _ _ _ _ _ _ Hok Hcreate) as [Hok1 _]. destruct (tb_infos_ok _ _ _ Hok1 Hinfos) as (Hok2 & E & Hi).
    destruct (tb_remove_ok _ _ _ _ Hok2 Hremove) as [_ ->]. destruct (listed_in _ _ _ _ Hi Hfind) as [<- ?]. rewrite E. set_solver. }
  destruct Hn as (Hn & Hin & Hout). set (sh := (start t0 : Shared)).
  set (journal := act (Value := Value) (A_record_recovery_event "info" "session.created" (Some n)
    ("created " +:+ "shell" +:+ " session in " +:+ cwd)) (fun _ => halt no_conn)).
  set (pause := act (A_broadcast (changed info)) (fun _ => journal)).
  assert (H1 : calls 1 (handle_frame no_conn (F_Control (M_Create _ n cwd "shell" None))) sh pause (set_table t2 sh)).
  { simpl. eapply (calls_cons 1 (A_create_with_title _ _ _ _) _ (Ok tt)); [done|by exists t1|].
    eapply (calls_cons 1 (reply _) _ true); [done|by left|]. eapply (calls_cons 1 A_session_infos _ (Ok infos)); [done|by exists t2|].
    rewrite Hfind. apply calls_nil. }
  set (told := tell (M_SessionsChanged _ [] [n]) (set_table t3 sh)).
  assert (H2 : calls 2 (handle_frame no_conn (F_Control (M_Kill _ n))) (set_table t2 sh) (halt no_conn) told).
  { simpl. unfold handle_kill. eapply (calls_cons 2 (A_session _) _ (Some 0)); [done|by split|].
    eapply (calls_cons 2 (A_remove _) _ (Ok tt)); [done|by exists t3|]. cbn.
    eapply (calls_cons 2 (A_bridge_remove _) _ false); [done|by split|]. cbn.
    eapply (calls_cons _ (A_broadcast _) _ tt); [done|reflexivity|].
    eapply (calls_cons _ (A_record_recovery_event _ _ _ _) _ tt); [done|by left|]. apply calls_nil. }
  assert (H3 : calls 1 pause told (halt no_conn) (tell (changed info) told)).
  { eapply (calls_cons _ (A_broadcast _) _ tt); [done|reflexivity|].
    eapply (calls_cons _ (A_record_recovery_event _ _ _ _) _ tt); [done|by left|]. apply calls_nil. }
  eexists. split.
  - eapply run_after; [by apply (run_accept 1)|]. eapply run_after; [by apply (run_accept 2)|].
    eapply run_after; [by eapply (run_frame 1); [|exact H1]|]. eapply run_after; [by eapply (run_frame 2); [|exact H2]|].
    eapply run_after; [by eapply (run_rest 2); [|apply calls_nil]|]. by eapply (run_rest 1); [|exact H3].
  - split_and!; [by vm_compute|done..|]. cbn [at_conn set_shared ds_shared tell sh_told]. rewrite !view_snoc.
    unfold see. simpl. rewrite Hn. set_solver.
Qed.
End Views.

(** ** Examples *)

(** The manager creates a session, lists it and removes it. *)
Definition created_world : Manager.World :=
  Eval vm_compute in default empty_world
    (Lifecycle.world_after (@Manager.create_with_title numbered Lifecycle.demo_host "a" "/src" Shell None 3 empty_world)).
Definition demo_listing : result (list SessionInfo) string * Manager.World :=
  Eval vm_compute in
    match @session_infos numbered demo_look created_world with Manager.Returned r w => (r, w) | _ => (Err "", empty_world) end.
Definition listed_world : Manager.World := Eval vm_compute in snd demo_listing.
Definition listed_info : SessionInfo := mk_session_info "a" "/src" "shell" true None None 3 None None 0 0 1.
Definition listed_infos : list SessionInfo := [listed_info].
Definition removed_world : Manager.World :=
  Eval vm_compute in default empty_world
    (Lifecycle.world_after (@Manager.remove numbered Lifecycle.demo_host "a" listed_world)).

Lemma empty_world_ok : tb_ok empty_world.
Proof. intros n x Hx. change ((∅ : gmap string (nat * SessionMeta)) !! n = Some x) in Hx. by rewrite lookup_empty in Hx. Qed.

Lemma demo_created : tb_create "a" "/src" Shell None empty_world (Ok tt) created_world.
Proof. exists 3%Z, (Ok 0). split; [|done]. exists [], []. vm_compute. reflexivity. Qed.

Lemma demo_listed : tb_infos created_world (Ok listed_infos) listed_world.
Proof. exists [], []. vm_compute. reflexivity. Qed.

Lemma demo_removed : tb_remove "a" listed_world (Ok tt) removed_world.
Proof. exists [], []. vm_compute. reflexivity. Qed.

Lemma created_names : tb_names created_world = {["a"]}.
Proof. vm_compute. reflexivity. Qed.

Definition demo_serial := serial (T := Manager.World) (Value := string) demo_size demo_refusal true.

(** A connection creates a session. *)
Lemma demo_create_frame :
  demo_serial (start empty_world) (tell (changed listed_info)
    (set_table listed_world (start empty_world))).
Proof.
  eapply (serial_frame _ _ _ _ _ 1 no_conn (F_Control (M_Create _ "a" "/src" "shell" None)) no_conn); [apply serial_nil|].
  exists (Ok tt), (set_table created_world (start empty_world)). split; [by exists created_world; split; [apply demo_created|]|].
  split; [done|]. exists true, (set_table created_world (start empty_world)). split; [by left|]. split; [done|].
  exists (Ok listed_infos), (set_table listed_world (start empty_world)).
  split; [by exists listed_world; split; [apply demo_listed|]|]. split.
  { intros _. exists listed_infos. split; [done|]. intros n Hn.
    change (n ∈ tb_names created_world) in Hn. rewrite created_names in Hn. apply elem_of_singleton in Hn as ->.
    eexists. split; [by left|done]. }
  exists tt. eexists. split; [reflexivity|]. split; [done|]. exists tt. eexists. split; [by left|]. by split.
Qed.

Lemma views_truthful_witness : exists s,
  demo_serial (start empty_world) s /\ tb_names (sh_table s) = {["a"]} /\ view (tb_names empty_world) (sh_told s) = {["a"]}.
Proof.
  eexists. split; [apply demo_create_frame|]. split; [vm_compute; reflexivity|].
  destruct (views_truthful demo_size demo_refusal true empty_world _ empty_world_ok demo_create_frame) as [_ E].
  rewrite (E eq_refl). vm_compute. reflexivity.
Defined.

Lemma ghost_session_witness : exists s,
  run (T := Manager.World) (Value := string) demo_size demo_refusal (initial empty_world) s /\ quiet s = true
  /\ sh_table (ds_shared s) = removed_world /\ ("a" ∉ tb_names removed_world) /\ "a" ∈ view (tb_names empty_world) (sh_told (ds_shared s)).
Proof.
  eapply (ghost_session demo_size demo_refusal "a" "/src" listed_infos);
    [apply empty_world_ok|apply demo_created|apply demo_listed|reflexivity|apply demo_removed].
Defined.
