(* ===== verification/Calendar.v ===== *)
(** * RFC 3339 timestamps

    [rfc3339_to_unix] and [parse_utc_offset] of [crates/amber/src/usage.rs] against a
    calendar that counts days one by one.  Text is bytes; a slice that is not on
    character boundaries holds a byte that is no digit, so it does not parse. *)
From S2P Require Import Prelude Utf8.
From S2P Require Http.

Local Open Scope Z_scope.

Definition i64_max : Z := 2 ^ 63 - 1.
Definition wrap_i64 (z : Z) : Z := (z + 2 ^ 63) mod 2 ^ 64 - 2 ^ 63.

(** [str::parse::<i64>]. *)
Definition parse_i64 (l : list byte) : option Z :=
  match l with
  | 45 :: 43 :: _ => None
  | 45 :: rest => Z.opp <$> parse_uint (2 ^ 63) rest
  | _ => parse_uint i64_max l
  end.

(** ** The code *)

(** [s.get(a..b)] *)
Definition slice (s : list byte) (a b : nat) : option (list byte) :=
  if (length s <? b)%nat then None else Some (take (b - a) (drop a s)).

Definition num (s : list byte) (a b : nat) : option Z := t ← slice s a b; parse_i64 t.

(** Days from civil; [/] truncates. *)
Definition civil_days (y mo d : Z) : Z :=
  let y2 := if mo <=? 2 then y - 1 else y in
  let era := Z.quot (if 0 <=? y2 then y2 else y2 - 399) 400 in
  let yoe := y2 - era * 400 in
  let mp := Z.rem (mo + 9) 12 in
  let doy := Z.quot (153 * mp + 2) 5 + d - 1 in
  let doe := yoe * 365 + Z.quot yoe 4 - Z.quot yoe 100 + doy in
  era * 146097 + doe - 719468.

(** [rfind(['+', '-'])]: the sign and what follows it. *)
Fixpoint rfind_sign (l : list byte) : option (byte * list byte) :=
  match l with
  | [] => None
  | b :: rest =>
      match rfind_sign rest with
      | Some found => Some found
      | None => if (b =? 43) || (b =? 45) then Some (b, rest) else None
      end
  end.

(** A release build wraps. *)
Definition parse_utc_offset (s : list byte) : Z :=
  match rfind_sign (drop 19 s) with
  | None => 0
  | Some (b, rest) =>
      let sign := if b =? 45 then -1 else 1 in
      let '(hh, mm) := match Http.split_once 58 rest with
                       | Some (h, m) => (default 0 (parse_i64 h), default 0 (parse_i64 m))
                       | None => (default 0 (parse_i64 rest), 0)
                       end in
      wrap_i64 (sign * wrap_i64 (wrap_i64 (hh * 3600) + wrap_i64 (mm * 60)))
  end.

Definition rfc3339_to_unix (s : list byte) : option Z :=
  if (length s <? 19)%nat then None else
  y ← num s 0 4; mo ← num s 5 7; d ← num s 8 10;
  h ← num s 11 13; mi ← num s 14 16; sec ← num s 17 19;
  if negb ((1 <=? mo) && (mo <=? 12)) || negb ((1 <=? d) && (d <=? 31)) then None
  else Some (wrap_i64 (civil_days y mo d * 86400 + h * 3600 + mi * 60 + sec - parse_utc_offset s)).

(** ** The calendar *)

Record date := mk_date { dt_year : Z; dt_month : Z; dt_day : Z }.

Definition leap (y : Z) : bool := ((y mod 4 =? 0) && negb (y mod 100 =? 0)) || (y mod 400 =? 0).

Definition month_length (y m : Z) : Z :=
  if m =? 2 then (if leap y then 29 else 28)
  else if (m =? 4) || (m =? 6) || (m =? 9) || (m =? 11) then 30 else 31.

Definition next_day (d : date) : date :=
  if dt_day d <? month_length (dt_year d) (dt_month d) then mk_date (dt_year d) (dt_month d) (dt_day d + 1)
  else if dt_month d <? 12 then mk_date (dt_year d) (dt_month d + 1) 1
  else mk_date (dt_year d + 1) 1 1.

Definition epoch : date := mk_date 1970 1 1.

(** The date so many days after 1 January 1970. *)
Definition day (n : nat) : date := Nat.iter n next_day epoch.

Definition calendar (d : date) : Prop :=
  1 <= dt_month d <= 12 /\ 1 <= dt_day d <= month_length (dt_year d) (dt_month d).

Lemma month_length_bounds y m : 28 <= month_length y m <= 31.
Proof. unfold month_length. repeat case_match; lia. Qed.

Lemma next_day_calendar d : calendar d -> calendar (next_day d).
Proof.
  intros [Hm Hd]. unfold next_day.
  destruct (Z.ltb_spec (dt_day d) (month_length (dt_year d) (dt_month d))); [split; simpl; lia|].
  destruct (Z.ltb_spec (dt_month d) 12); split; simpl; try lia; match goal with |- context [month_length ?y ?m] => pose proof (month_length_bounds y m) end; lia.
Qed.

(** Years of the Gregorian cycle that begin in March. *)
Definition year_days (y : Z) : Z := 365 * y + y / 4 - y / 100 + y / 400.

Lemma civil_days_floor y mo d :
  civil_days y mo d =
    year_days (if mo <=? 2 then y - 1 else y) + Z.quot (153 * Z.rem (mo + 9) 12 + 2) 5 + d - 1 - 719468.
Proof.
  unfold civil_days, year_days. set (y2 := if mo <=? 2 then y - 1 else y). cbv zeta.
  assert (Hera : Z.quot (if 0 <=? y2 then y2 else y2 - 399) 400 = y2 / 400).
  { destruct (Z.leb_spec 0 y2); zdivmod. }
  rewrite Hera. replace (y2 - y2 / 400 * 400) with (y2 mod 400) by zdivmod.
  rewrite !(Z.quot_div_nonneg (y2 mod 400)) by (try apply Z.mod_pos_bound; lia). zdivmod.
Qed.

(** Days before a month, counted from March. *)
Definition month_days (mo : Z) : Z := nth (Z.to_nat mo) [0; 306; 337; 0; 31; 61; 92; 122; 153; 184; 214; 245; 275] 0.

Lemma civil_days_month y mo d :
  1 <= mo <= 12 ->
  civil_days y mo d = year_days (if mo <=? 2 then y - 1 else y) + d - 719469
    + month_days mo.
Proof.
  intros Hm. rewrite civil_days_floor.
  assert (mo = 1 \/ mo = 2 \/ mo = 3 \/ mo = 4 \/ mo = 5 \/ mo = 6 \/ mo = 7 \/ mo = 8 \/ mo = 9 \/ mo = 10 \/ mo = 11 \/ mo = 12) as Hc by lia.
  destruct_or! Hc; subst; unfold month_days; simpl;
    match goal with |- context [Z.quot ?e 5] => let v := eval vm_compute in (Z.quot e 5) in change (Z.quot e 5) with v end; lia.
Qed.

Lemma year_days_next y : year_days y = year_days (y - 1) + 365 + (if leap y then 1 else 0).
Proof.
  unfold year_days, leap. destruct (Z.eqb_spec (y mod 4) 0), (Z.eqb_spec (y mod 100) 0), (Z.eqb_spec (y mod 400) 0); simpl; zdivmod.
Qed.

(** Counting is what the formula does. *)
Lemma civil_days_next d : calendar d ->
  civil_days (dt_year (next_day d)) (dt_month (next_day d)) (dt_day (next_day d))
    = civil_days (dt_year d) (dt_month d) (dt_day d) + 1.
Proof.
  intros [Hm Hd]. destruct d as [y m d]. simpl in *. unfold next_day. simpl.
  rewrite (civil_days_month y m d Hm).
  destruct (Z.ltb_spec d (month_length y m)); simpl; [rewrite civil_days_month by lia; lia|].
  assert (d = month_length y m) as -> by lia. clear Hd.
  destruct (Z.ltb_spec m 12); simpl; rewrite civil_days_month by lia; unfold month_days.
  - assert (m = 1 \/ m = 2 \/ m = 3 \/ m = 4 \/ m = 5 \/ m = 6 \/ m = 7 \/ m = 8 \/ m = 9 \/ m = 10 \/ m = 11) as Hc by lia.
    destruct_or! Hc; subst; unfold month_length; simpl; try lia. rewrite (year_days_next y). destruct (leap y); lia.
  - assert (m = 12) as -> by lia. unfold month_length. simpl. replace (y + 1 - 1) with y by lia. lia.
Qed.

Lemma day_calendar n : calendar (day n).
Proof. induction n as [|n IH]; [split; simpl; unfold month_length; simpl; lia|]. by apply next_day_calendar. Qed.

Lemma civil_days_day n : civil_days (dt_year (day n)) (dt_month (day n)) (dt_day (day n)) = Z.of_nat n.
Proof.
  induction n as [|n IH]; [done|]. change (day (S n)) with (next_day (day n)).
  rewrite civil_days_next by apply day_calendar. lia.
Qed.

(** ** Timestamps as the endpoint writes them *)

Inductive zone := Zulu | Offset (west : bool) (hh mm : Z).

Definition two (n : Z) : list byte := [48 + n / 10; 48 + n mod 10].
Definition four (n : Z) : list byte := two (n / 100) ++ two (n mod 100).

Definition show_zone (z : zone) : list byte :=
  match z with Zulu => [90] | Offset west hh mm => (if west : bool then 45 else 43) :: two hh ++ 58 :: two mm end.

Definition show (d : date) (h mi s : Z) (fraction : list byte) (z : zone) : list byte :=
  four (dt_year d) ++ 45 :: two (dt_month d) ++ 45 :: two (dt_day d) ++ 84 :: two h ++ 58 :: two mi ++ 58 :: two s
    ++ (match fraction with [] => [] | _ => 46 :: fraction end) ++ show_zone z.

Definition zone_ok (z : zone) : Prop := match z with Zulu => True | Offset _ hh mm => 0 <= hh < 24 /\ 0 <= mm < 60 end.
Definition offset (z : zone) : Z :=
  match z with Zulu => 0 | Offset west hh mm => (if west : bool then -1 else 1) * (hh * 3600 + mm * 60) end.

(** A check of every number below a bound. *)
Lemma below (p : Z -> bool) k n : forallb p (seqZ 0 k) = true -> 0 <= n < k -> p n = true.
Proof. rewrite forallb_forall. intros H Hn. apply H, list_elem_of_In, elem_of_seqZ. lia. Qed.

Definition reads (f : Z -> list byte) (n : Z) : bool := bool_decide (parse_i64 (f n) = Some n).

Lemma parse_two n : 0 <= n < 100 -> parse_i64 (two n) = Some n.
Proof. intros Hn. apply (bool_decide_eq_true (parse_i64 (two n) = Some n)), (below (reads two) 100); [vm_compute; reflexivity|lia]. Qed.

Lemma parse_four n : 0 <= n < 10000 -> parse_i64 (four n) = Some n.
Proof. intros Hn. apply (bool_decide_eq_true (parse_i64 (four n) = Some n)), (below (reads four) 10000); [vm_compute; reflexivity|lia]. Qed.

Definition unsigned (l : list byte) : Prop := Forall (fun b => b <> 43 /\ b <> 45) l.

Lemma two_unsigned n : 0 <= n -> unsigned (two n).
Proof. intros Hn. pose proof (Z.mod_pos_bound n 10). pose proof (Z.div_pos n 10). repeat constructor; lia. Qed.

Lemma rfind_unsigned l : unsigned l -> rfind_sign l = None.
Proof.
  induction 1 as [|b l [Hp Hm] _ IH]; simpl; [done|]. rewrite IH.
  destruct (Z.eqb_spec b 43), (Z.eqb_spec b 45); done.
Qed.

Lemma rfind_last l b rest : (b = 43 \/ b = 45) -> unsigned rest -> rfind_sign (l ++ b :: rest) = Some (b, rest).
Proof.
  intros Hb Hr. induction l as [|c l IH]; simpl; [|by rewrite IH]. rewrite (rfind_unsigned rest Hr). by destruct Hb as [-> | ->].
Qed.

Lemma unsigned_zone fraction z :
  unsigned fraction -> zone_ok z ->
  rfind_sign ((match fraction with [] => [] | _ => 46 :: fraction end) ++ show_zone z)
    = match z with Zulu => None | Offset west hh mm => Some (if west : bool then 45 else 43, two hh ++ 58 :: two mm) end.
Proof.
  intros Hf Hz. set (l := match fraction with [] => [] | _ => 46 :: fraction end).
  assert (Hl : unsigned l) by (unfold l; destruct fraction; [constructor|by constructor]).
  destruct z as [|west hh mm]; simpl show_zone.
  - apply rfind_unsigned, Forall_app. split; [done|]. by repeat constructor.
  - apply rfind_last; [destruct west; auto|]. simpl in Hz. apply Forall_app. split; [apply two_unsigned; lia|].
    constructor; [done|apply two_unsigned; lia].
Qed.

Lemma wrap_small z : - 2 ^ 63 <= z < 2 ^ 63 -> wrap_i64 z = z.
Proof. intros Hz. unfold wrap_i64. rewrite Z.mod_small; lia. Qed.

Lemma show_offset d h mi s fraction z :
  unsigned fraction -> zone_ok z -> parse_utc_offset (show d h mi s fraction z) = offset z.
Proof.
  intros Hf Hz. unfold parse_utc_offset.
  change (drop 19 (show d h mi s fraction z)) with ((match fraction with [] => [] | _ => 46 :: fraction end) ++ show_zone z).
  rewrite (unsigned_zone fraction z Hf Hz).
  destruct z as [|west hh mm]; [done|]. simpl in Hz. destruct Hz as [Hh Hm].
  assert (E : Http.split_once 58 (two hh ++ 58 :: two mm) = Some (two hh, two mm)).
  { unfold two. simpl. pose proof (Z.mod_pos_bound hh 10). pose proof (Z.div_lt_upper_bound hh 10 10).
    destruct (Z.eqb_spec (48 + hh / 10) 58); [lia|]. destruct (Z.eqb_spec (48 + hh mod 10) 58); [lia|]. done. }
  rewrite E, !parse_two by lia. simpl default. simpl offset.
  rewrite !(wrap_small (hh * 3600)), !(wrap_small (mm * 60)), (wrap_small (_ + _)) by lia.
  destruct west; simpl; rewrite wrap_small; lia.
Qed.

Lemma day_year n : 1970 <= dt_year (day n).
Proof.
  induction n as [|n IH]; [done|]. change (day (S n)) with (next_day (day n)). unfold next_day. repeat case_match; simpl; lia.
Qed.

Lemma day_bound n : dt_year (day n) <= 9999 -> Z.of_nat n <= 4000000.
Proof.
  intros Hy. rewrite <- civil_days_day. destruct (day_calendar n) as [Hm Hd]. pose proof (day_year n).
  pose proof (month_length_bounds (dt_year (day n)) (dt_month (day n))).
  rewrite civil_days_floor. unfold year_days. destruct (dt_month (day n) <=? 2); zdivmod.
Qed.

(** C18. A timestamp of the form the endpoint writes is read as the instant it names: with
    the days counted one by one from 1 January 1970 in the Gregorian calendar, whatever
    the fraction of the second and the zone. *)
Theorem rfc3339_roundtrip n h mi s fraction z :
  dt_year (day n) <= 9999 -> 0 <= h < 24 -> 0 <= mi < 60 -> 0 <= s < 60 -> unsigned fraction -> zone_ok z ->
  rfc3339_to_unix (show (day n) h mi s fraction z) = Some (Z.of_nat n * 86400 + h * 3600 + mi * 60 + s - offset z).
Proof.
  intros Hy Hh Hmi Hs Hf Hz. pose proof (day_year n) as Hy'. destruct (day_calendar n) as [Hm Hd].
  pose proof (month_length_bounds (dt_year (day n)) (dt_month (day n))) as Hl.
  unfold rfc3339_to_unix. rewrite (show_offset _ _ _ _ _ _ Hf Hz).
  assert (E1 : num (show (day n) h mi s fraction z) 0 4 = Some (dt_year (day n))) by (apply (parse_four (dt_year (day n))); lia).
  assert (E2 : num (show (day n) h mi s fraction z) 5 7 = Some (dt_month (day n))) by (apply (parse_two (dt_month (day n))); lia).
  assert (E3 : num (show (day n) h mi s fraction z) 8 10 = Some (dt_day (day n))) by (apply (parse_two (dt_day (day n))); lia).
  assert (E4 : num (show (day n) h mi s fraction z) 11 13 = Some h) by (apply (parse_two h); lia).
  assert (E5 : num (show (day n) h mi s fraction z) 14 16 = Some mi) by (apply (parse_two mi); lia).
  assert (E6 : num (show (day n) h mi s fraction z) 17 19 = Some s) by (apply (parse_two s); lia).
  simpl ((length _ <? _)%nat). rewrite E1, E2, E3, E4, E5, E6. simpl.
  rewrite civil_days_day.
  destruct (Z.leb_spec 1 (dt_month (day n))), (Z.leb_spec (dt_month (day n)) 12), (Z.leb_spec 1 (dt_day (day n))),
    (Z.leb_spec (dt_day (day n)) 31); try lia. simpl. f_equal. apply wrap_small.
  pose proof (day_bound n Hy). destruct z as [|[] hh mm]; simpl in *; lia.
Qed.

Lemma rfc3339_roundtrip_witness :
  rfc3339_to_unix (show (mk_date 2024 10 4) 12 34 56 [53; 48] (Offset true 5 30)) = Some (20000 * 86400 + 12 * 3600 + 34 * 60 + 56 + 5 * 3600 + 30 * 60).
Proof.
  apply (rfc3339_roundtrip 20000 12 34 56 [53; 48] (Offset true 5 30)); try lia.
  - apply Z.leb_le. vm_compute. reflexivity.
  - by repeat constructor.
  - simpl. lia.
Defined.
