(* ===== verification/CodexUsage.v ===== *)
(** * Codex's quota

    [crates/amber/src/codex_usage.rs]: reading an answer of Codex's local server into
    gauges, and the exchange of [request] with that server, whose reads are a list of
    events. *)
From S2P Require Import Prelude Utf8 Wire Browser.

(** What else is used of [serde_json::Value]; an [f64] is its bits. *)
Class JsonNumbers (Value : Type) := {
  as_f64 : Value -> option Z;
  as_i64 : Value -> option Z;
  as_object : Value -> option (list (string * Value)) }.

Definition number (n : Z) : string := string_of_bytes (dec n).

(** [resets_at.is_some_and(|r| r <= now)] *)
Definition rolled (resets_at : option Z) (now : Z) : bool := from_option (fun r => (r <=? now)%Z) false resets_at.

Section Codex.
Context {Value : Type} `{JsonValue Value, !JsonNumbers Value}.
(** Whether an [f64] is finite and between 0 and 100. *)
Context (in_percent : Z -> bool).

(** ** The answer *)

Definition window_label (minutes : option Z) (fallback : string) : string * string :=
  match minutes with
  | Some n =>
      if (n =? 300)%Z then ("session", "5h window")
      else if (n =? 10080)%Z then ("weekly", "weekly")
      else if ((0 <? n) && (n <=? 525600))%Z then (number n +:+ "m", number n +:+ "m window")
      else (fallback, fallback +:+ " window")
  | None => (fallback, fallback +:+ " window")
  end.

Definition id_ok (id : string) : bool :=
  (String.length id <=? 64)
  && forallb (fun c => is_ascii_alphanumeric c || (c =? 95)%Z || (c =? 45)%Z) (bytes_of_string id).

Definition str_of (v : Value) (key : string) : option string := x ← get v key; as_str x.

Definition buckets (result : Value) : list (string * Value) :=
  match x ← get result "rateLimitsByLimitId"; as_object x with
  | Some (b :: map) => take 32 (b :: map)
  | _ => match get result "rateLimits" with
         | Some value => [(default "codex" (str_of value "limitId"), value)]
         | None => []
         end
  end.

(** A dot between an id and a label, U+00B7. *)
Definition DOT : string := string_of_bytes [32; 194; 183; 32]%Z.

Definition window (id : string) (snapshot : Value) (now : Z) (key : string) : list Gauge :=
  match block ← get snapshot key; get block "usedPercent" ≫= as_f64 with
  | Some percent =>
      if in_percent percent then
        let of_block k := block ← get snapshot key; get block k in
        let '(kind, label) := window_label (of_block "windowDurationMins" ≫= as_u64) key in
        let reset := of_block "resetsAt" ≫= as_i64 in
        let codex := bool_decide (id = "codex") in
        [mk_gauge (if codex then kind else id +:+ ":" +:+ kind) (if codex then label else id +:+ DOT +:+ label)
           percent reset (rolled reset now)]
      else []
  | None => []
  end.

(** The loop over the buckets, with the gauges and the plan so far. *)
Fixpoint read_buckets (now : Z) (bs : list (string * Value)) (gauges : list Gauge) (plan : option string)
  : list Gauge * option string :=
  match bs with
  | [] => (gauges, plan)
  | (id, snapshot) :: rest =>
      if negb (id_ok id) then read_buckets now rest gauges plan
      else
        let plan := if bool_decide (id = "codex") || negb (bool_decide (is_Some plan)) then str_of snapshot "planType" else plan in
        read_buckets now rest (gauges ++ window id snapshot now "primary" ++ window id snapshot now "secondary") plan
  end.

Definition LIVE_DETAIL : string := "Live quota" +:+ DOT +:+ "Codex login".

Definition parse_live (result : Value) (now : Z) : Prelude.result ProviderUsage string :=
  let '(gauges, plan) := read_buckets now (buckets result) [] None in
  match gauges with
  | [] => Err "Codex returned no readable quota windows"
  | _ => Ok (mk_provider_usage "codex" plan gauges (Z.max 0 now) "ok" (Some LIVE_DETAIL))
  end.

(** ** The exchange *)

(** What is sent. *)
Inductive Rpc := R_initialize | R_initialized | R_account_read | R_rate_limits_read.

(** [output.read]: bytes, nothing yet, the end, or a failure. *)
Inductive Read := Got (bytes : list byte) | Would_block | Eof | Read_failed.

Record Exchange := mk_exchange { xc_expected : Z; xc_buffer : list byte; xc_total : Z; xc_sent : list Rpc }.

(** The replies in a buffer: whole lines, and what is left. *)
Definition drain_line (buffer : list byte) : option (list byte * list byte) :=
  match position (fun b => (b =? 10)%Z) buffer with
  | Some i => Some (take (S i) buffer, drop (S i) buffer)
  | None => None
  end.

(** [serde_json::from_slice], and whether the writes go through. *)
Context (from_slice : list byte -> option Value) (writes : Rpc -> bool).

(** How a reply or a read ends. *)
Inductive Outcome := Go | Return (v : Value) | Fail (e : string).

Definition with_sent (rpc : Rpc) (x : Exchange) : Exchange :=
  mk_exchange (xc_expected x) (xc_buffer x) (xc_total x) (xc_sent x ++ [rpc]).
Definition with_buffer (buffer : list byte) (x : Exchange) : Exchange :=
  mk_exchange (xc_expected x) buffer (xc_total x) (xc_sent x).
Definition with_total (total : Z) (x : Exchange) : Exchange :=
  mk_exchange (xc_expected x) (xc_buffer x) total (xc_sent x).
Definition expect (n : Z) (x : Exchange) : Exchange := mk_exchange n (xc_buffer x) (xc_total x) (xc_sent x).

(** [send(...)?] and what follows. *)
Definition send (rpc : Rpc) (x : Exchange) (k : Exchange -> Exchange * Outcome) : Exchange * Outcome :=
  if writes rpc then k (with_sent rpc x) else (x, Fail "Codex quota reader closed its input").

(** One reply. *)
Definition on_reply (reply : Value) (x : Exchange) : Exchange * Outcome :=
  if negb (bool_decide ((get reply "id" ≫= as_u64) = Some (xc_expected x))) then (x, Go)
  else if bool_decide (is_Some (get reply "error"))
  then (x, Fail "Live Codex quota unavailable; check Codex login or connectivity")
  else match get reply "result" with
  | None => (x, Fail "Missing Codex quota response")
  | Some result =>
      if (xc_expected x =? 0)%Z then
        send R_initialized x (fun x => send R_account_read x (fun x => (expect 1 x, Go)))
      else if (xc_expected x =? 1)%Z then
        if bool_decide ((account ← get result "account"; str_of account "type") = Some "chatgpt")
        then send R_rate_limits_read x (fun x => (expect 2 x, Go))
        else (x, Fail "Live plan quota requires a ChatGPT login in Codex")
      else (x, Return result)
  end.

(** [while let Some(end) = ...], at most once per byte of the buffer. *)
Fixpoint on_lines (fuel : nat) (x : Exchange) : Exchange * Outcome :=
  match fuel, drain_line (xc_buffer x) with
  | S fuel, Some (line, rest) =>
      let x := with_buffer rest x in
      match from_slice line with
      | None => (x, Fail "Invalid Codex quota response")
      | Some reply =>
          match on_reply reply x with
          | (x, Go) => on_lines fuel x
          | ended => ended
          end
      end
  | _, _ => (x, Go)
  end.

Definition on_read (r : Read) (x : Exchange) : Exchange * Outcome :=
  match r with
  | Eof => (x, Fail "Codex quota reader exited before replying")
  | Read_failed => (x, Fail "Could not read live Codex quota")
  | Would_block => (x, Go)
  | Got bytes =>
      let x := with_total (xc_total x + Z.of_nat (length bytes)) x in
      if (1024 * 1024 <? xc_total x)%Z then (x, Fail "Codex quota response exceeded size limit")
      else let buffer := xc_buffer x ++ bytes in on_lines (length buffer) (with_buffer buffer x)
  end.

(** The loop: reads until the deadline, which is the end of the list. *)
Fixpoint exchange (reads : list Read) (x : Exchange) : Exchange * Outcome :=
  match reads with
  | [] => (x, Fail "Live Codex quota timed out")
  | r :: rest =>
      match on_read r x with
      | (x, Go) => exchange rest x
      | ended => ended
      end
  end.

Definition request (reads : list Read) : Exchange * Outcome :=
  send R_initialize (mk_exchange 0 [] 0 []) (exchange reads).

(** [collect]; [now] is the instant the answer is there. *)
Definition collect (reads : list Read) (now : Z) : ProviderUsage :=
  let failed message := mk_provider_usage "codex" None [] 0 "error" (Some message) in
  match snd (request reads) with
  | Return v => match parse_live v now with Ok row => row | Err message => failed message end
  | Fail message => failed message
  | Go => failed ""
  end.

(** ** What is promised *)

(** What was read. *)
Definition heard (reads : list Read) : list byte := mjoin (map (fun r => match r with Got bs => bs | _ => [] end) reads).

Definition whole (line : list byte) : Prop := exists t, line = t ++ [10%Z] /\ 10%Z ∉ t.

(** A line is the reply to a request. *)
Definition replies (k : Z) (line : list byte) (result : Value) : Prop :=
  exists v, from_slice line = Some v /\ (get v "id" ≫= as_u64) = Some k /\ get v "error" = None /\ get v "result" = Some result.

Definition signed_in (line : list byte) : Prop :=
  exists r, replies 1 line r /\ (account ← get r "account"; str_of account "type") = Some "chatgpt".

Definition protocol : list Rpc := [R_initialize; R_initialized; R_account_read; R_rate_limits_read].

(** How far the exchange is, after whole lines. *)
Definition stage (x : Exchange) (lines : list (list byte)) : Prop :=
  xc_expected x = 0%Z /\ xc_sent x = [R_initialize]
  \/ xc_expected x = 1%Z /\ xc_sent x = [R_initialize; R_initialized; R_account_read]
     /\ (exists l0 r0, replies 0 l0 r0 /\ l0 ∈ lines)
  \/ xc_expected x = 2%Z /\ xc_sent x = protocol
     /\ exists l0 r0 l1, replies 0 l0 r0 /\ signed_in l1 /\ [l0; l1] `sublist_of` lines.

Record going (x : Exchange) (got : list byte) (lines : list (list byte)) : Prop := mk_going {
  go_heard : got = mjoin lines ++ xc_buffer x;
  go_whole : Forall whole lines;
  go_total : xc_total x = Z.of_nat (length got);
  go_stage : stage x lines }.

(** What the end of an exchange means. *)
Definition ended (x : Exchange) (lines : list (list byte)) (o : Outcome) : Prop :=
  match o with
  | Go => True
  | Return v => xc_sent x = protocol /\ exists l0 r0 l1 l2, replies 0 l0 r0 /\ signed_in l1 /\ replies 2 l2 v
      /\ [l0; l1; l2] `sublist_of` lines
  | Fail _ => xc_sent x `prefix_of` protocol
      /\ (R_rate_limits_read ∈ xc_sent x -> exists l0 r0 l1, replies 0 l0 r0 /\ signed_in l1 /\ [l0; l1] `sublist_of` lines)
  end.

Lemma drain_line_spec buffer line rest :
  drain_line buffer = Some (line, rest) -> buffer = line ++ rest /\ whole line.
Proof.
  unfold drain_line. destruct (position _ buffer) as [i|] eqn:E; [|done]. intros [= <- <-]. split; [by rewrite take_drop|].
  revert i E. induction buffer as [|b buffer IH]; intros i E; simpl in E; [done|]. destruct (Z.eqb_spec b 10) as [->|Hb].
  - injection E as <-. exists []. split; [done|apply not_elem_of_nil].
  - destruct (position _ buffer) as [j|] eqn:Ej; [|done]. injection E as <-. destruct (IH j eq_refl) as (t & Et & Hn).
    exists (b :: t). cbn [take]. rewrite Et. split; [done|]. set_solver.
Qed.

Lemma stage_more x lines line : stage x lines -> stage x (lines ++ [line]).
Proof.
  intros [Hs|[(He & Hs & l0 & r0 & Hr & Hin)|(He & Hs & l0 & r0 & l1 & H0 & H1 & Hl)]]; [by left|right; left|right; right].
  - split_and!; try done. exists l0, r0. split; [done|]. set_solver.
  - split_and!; try done. exists l0, r0, l1. split_and!; try done. by apply sublist_inserts_r.
Qed.

(** An exchange may be given up at any stage. *)
Lemma stage_ended x lines e : stage x lines -> ended x lines (Fail e).
Proof.
  unfold ended. intros [[_ ->]|[(_ & -> & _)|(_ & -> & l0 & r0 & l1 & Hl)]]; (split; [by eexists|]); [set_solver..|].
  intros _. by exists l0, r0, l1.
Qed.

Lemma on_reply_stage reply x lines line :
  stage x lines -> from_slice line = Some reply ->
  let '(x', o) := on_reply reply x in
  ended x' (lines ++ [line]) o
  /\ (o = Go -> stage x' (lines ++ [line]) /\ xc_buffer x' = xc_buffer x /\ xc_total x' = xc_total x).
Proof.
  intros Hst Hline. pose proof (stage_more x lines line Hst) as Hm.
  assert (Hfail : forall e, ended x (lines ++ [line]) (Fail e)) by (intros e; by apply stage_ended).
  unfold on_reply. case_bool_decide as Hid; simpl; [|by split].
  case_bool_decide as Herr; [by split|]. destruct (get reply "result") as [r|] eqn:Hres; [|by split].
  assert (Hrep : replies (xc_expected x) line r).
  { exists reply. split_and!; try done. destruct (get reply "error"); [by destruct Herr|done]. }
  destruct Hst as [[He Hs]|[(He & Hs & l0 & r0 & Hr & Hin)|(He & Hs & l0 & r0 & l1 & H0 & H1 & Hl)]]; rewrite He in *; simpl.
  - unfold send. destruct (writes R_initialized); [|by split].
    destruct (writes R_account_read); simpl.
    + split; [done|]. intros _. split_and!; try done. right; left. simpl. rewrite Hs. split_and!; try done. exists line, r. set_solver.
    + split; [|done]. rewrite Hs. split; [by eexists|set_solver].
  - case_bool_decide as Hacc; [|by split]. unfold send. destruct (writes R_rate_limits_read); [|by split].
    split; [done|]. intros _. split_and!; try done. right; right. simpl. rewrite Hs. split_and!; try done. exists l0, r0, line. split_and!; try done.
    + by exists r.
    + apply (sublist_app [l0] lines [line] [line]); [by apply singleton_sublist_l|done].
  - split; [|done]. split; [done|]. exists l0, r0, l1, line. split_and!; try done. by apply (sublist_app [l0; l1] lines [line] [line]).
Qed.

(** The lines of the buffer: what is heard is consumed in whole lines and none is left. *)
Lemma on_lines_going fuel x got lines :
  going x got lines -> length (xc_buffer x) <= fuel ->
  let '(x', o) := on_lines fuel x in
  exists lines', mjoin lines' `prefix_of` got /\ Forall whole lines' /\ ended x' lines' o
    /\ (o = Go -> going x' got lines' /\ 10%Z ∉ xc_buffer x').
Proof.
  revert x lines. induction fuel as [|fuel IH]; intros x lines Hg Hlen.
  { simpl. exists lines. destruct (xc_buffer x) eqn:E; [|simpl in Hlen; lia]. split_and!; try done; [|apply Hg|].
    - rewrite (go_heard _ _ _ Hg). by eexists.
    - intros _. split; [done|]. apply not_elem_of_nil. }
  simpl. destruct (drain_line (xc_buffer x)) as [[line rest]|] eqn:E.
  2:{ exists lines. split_and!; try done; [|apply Hg|].
      - rewrite (go_heard _ _ _ Hg). by eexists.
      - intros _. split; [done|]. unfold drain_line in E. destruct (position _ _) eqn:Ep; [done|].
        rewrite position_None in Ep. intros Hin. by specialize (Ep _ Hin). }
  apply drain_line_spec in E as [Eb Hw]. destruct Hg as [Hh Hwh Ht Hs].
  assert (Hh' : got = mjoin (lines ++ [line]) ++ rest) by (by rewrite join_app; simpl; rewrite app_nil_r, <- app_assoc, <- Eb).
  assert (Hwh' : Forall whole (lines ++ [line])) by (apply Forall_app; by split; [|constructor]).
  assert (Hp : mjoin (lines ++ [line]) `prefix_of` got) by (rewrite Hh'; by eexists).
  destruct (from_slice line) as [reply|] eqn:Hl.
  2:{ exists (lines ++ [line]). split_and!; try done. by apply stage_ended, stage_more. }
  pose proof (on_reply_stage reply (with_buffer rest x) lines line Hs Hl) as Hr.
  destruct (on_reply reply (with_buffer rest x)) as [x' o]. destruct Hr as [He Hgo]. destruct o as [|v|e].
  - destruct (Hgo eq_refl) as (Hs' & Hb' & Ht'). apply (IH x' (lines ++ [line])).
    + constructor; [by rewrite Hb'|done|by rewrite Ht'|done].
    + rewrite Hb'. simpl. rewrite Eb, length_app in Hlen. destruct Hw as (t & -> & _). rewrite length_app in Hlen. simpl in Hlen. lia.
  - exists (lines ++ [line]). by split_and!.
  - exists (lines ++ [line]). by split_and!.
Qed.

Definition READ_LIMIT : nat := Z.to_nat (1024 * 1024).

Lemma exchange_ended reads x got lines :
  going x got lines ->
  let '(x', o) := exchange reads x in
  exists lines', mjoin lines' `prefix_of` got ++ heard reads /\ Forall whole lines' /\ ended x' lines' o /\ o <> Go
    /\ forall v, o = Return v -> length (mjoin lines') <= READ_LIMIT.
Proof.
  revert x got lines. induction reads as [|r reads IH]; intros x got lines Hg.
  { cbn [exchange]. exists lines. split_and!; [|apply Hg|by apply stage_ended, Hg|done..].
    rewrite (go_heard _ _ _ Hg), app_nil_r. by eexists. }
  assert (Hstop : forall x' e, xc_expected x' = xc_expected x -> xc_sent x' = xc_sent x ->
    exists lines', mjoin lines' `prefix_of` got ++ heard (r :: reads) /\ Forall whole lines' /\ ended x' lines' (Fail e) /\ Fail e <> Go
      /\ forall v, Fail e = Return v -> length (mjoin lines') <= READ_LIMIT).
  { intros x' e He Hs. exists lines. split_and!; [|apply Hg| |done..].
    - rewrite (go_heard _ _ _ Hg), <- !app_assoc. by eexists.
    - apply stage_ended. pose proof (go_stage _ _ _ Hg) as Hst. unfold stage in *. by rewrite He, Hs. }
  destruct r as [bytes| | |]; cbn [exchange on_read]; [|by eapply (IH x)|by apply Hstop..].
  - simpl xc_total. destruct (Z.ltb_spec (1024 * 1024) (xc_total x + Z.of_nat (length bytes))) as [Hover|Hok]; [by apply Hstop|].
    simpl xc_buffer. set (x1 := with_buffer _ _).
    assert (Hg1 : going x1 (got ++ bytes) lines).
    { destruct Hg as [Hh Hw Ht Hs]. constructor; simpl; try done; [by rewrite Hh, <- app_assoc|rewrite Ht, length_app; lia]. }
    pose proof (on_lines_going (length (xc_buffer x ++ bytes)) x1 _ _ Hg1 ltac:(done)) as Hl.
    destruct (on_lines _ x1) as [x2 o]. destruct Hl as (lines2 & Hp & Hw & He & Hgo).
    assert (Hp' : mjoin lines2 `prefix_of` got ++ heard (Got bytes :: reads)).
    { unfold heard. simpl. rewrite app_assoc. by apply prefix_app_r. }
    destruct o as [|v|e].
    + destruct (Hgo eq_refl) as [Hg2 _]. pose proof (IH x2 _ _ Hg2) as Hrest. by rewrite <- app_assoc in Hrest.
    + exists lines2. split_and!; try done. intros _ _. apply prefix_length in Hp. pose proof (go_total _ _ _ Hg1) as Ht.
      simpl in Ht. unfold READ_LIMIT. lia.
    + exists lines2. by split_and!.
Qed.

(** Whatever Codex's server writes and however it arrives, it is sent a prefix of the
    four requests and asked for its limits only after it has said, in whole lines and in
    order, that it is initialized and signed in with ChatGPT; a result is the one of the
    third reply, read within a megabyte; and no read is left unanswered: the exchange
    ends in a result or a message. *)
Theorem quota_exchange reads :
  let '(x, o) := request reads in
  exists lines, mjoin lines `prefix_of` heard reads /\ Forall whole lines /\ ended x lines o /\ o <> Go
    /\ forall v, o = Return v -> length (mjoin lines) <= READ_LIMIT.
Proof.
  unfold request, send. destruct (writes R_initialize).
  - apply (exchange_ended reads _ [] []). constructor; [done|constructor|done|by left].
  - exists []. split_and!; [apply prefix_nil|constructor| |done..]. split; [apply prefix_nil|]. intros Hin. by apply elem_of_nil in Hin.
Qed.

(** ** The row *)

Lemma window_good id snapshot now key :
  length (window id snapshot now key) <= 1
  /\ Forall (fun g => in_percent (g_percent g) = true /\ g_stale g = rolled (g_resets_at g) now) (window id snapshot now key).
Proof.
  unfold window. destruct (_ ≫= _) as [percent|]; [|by split; [simpl; lia|constructor]].
  destruct (in_percent percent) eqn:E; [|by split; [simpl; lia|constructor]].
  destruct (window_label _ _). split; [simpl; lia|]. by repeat constructor.
Qed.

Lemma read_buckets_good now bs gauges plan :
  Forall (fun g => in_percent (g_percent g) = true /\ g_stale g = rolled (g_resets_at g) now) gauges ->
  let '(gauges', _) := read_buckets now bs gauges plan in
  length gauges' <= length gauges + 2 * length bs
  /\ Forall (fun g => in_percent (g_percent g) = true /\ g_stale g = rolled (g_resets_at g) now) gauges'.
Proof.
  revert gauges plan. induction bs as [|[id snapshot] bs IH]; intros gauges plan Hg; simpl; [split; [lia|done]|].
  destruct (id_ok id); simpl.
  - destruct (window_good id snapshot now "primary") as [L1 F1]. destruct (window_good id snapshot now "secondary") as [L2 F2].
    match goal with |- context [read_buckets now bs ?g ?p] => specialize (IH g p); destruct (read_buckets now bs g p) end.
    destruct IH as [Hl Hf]; [by rewrite !Forall_app|]. split; [|done]. rewrite !length_app in Hl. lia.
  - specialize (IH gauges plan Hg). destruct (read_buckets now bs gauges plan). destruct IH. split; [lia|done].
Qed.

Lemma buckets_bounded v : length (buckets v) <= 32.
Proof.
  unfold buckets. destruct (_ ≫= _) as [[|b bs]|]; [..|]; try (destruct (get _ _); simpl; lia). rewrite length_take. lia.
Qed.

(** A row is current and readable or says why not. *)
Lemma collect_row reads now :
  pu_provider (collect reads now) = "codex"
  /\ (pu_state (collect reads now) = "ok" /\ pu_updated (collect reads now) = Z.max 0 now
      /\ 1 <= length (pu_gauges (collect reads now)) <= 64
      /\ Forall (fun g => in_percent (g_percent g) = true /\ g_stale g = rolled (g_resets_at g) now) (pu_gauges (collect reads now))
      \/ pu_state (collect reads now) = "error" /\ pu_updated (collect reads now) = 0%Z /\ pu_gauges (collect reads now) = []).
Proof.
  unfold collect. destruct (request reads) as [x [|v|e]]; simpl; try (split; [done|by right]).
  unfold parse_live. pose proof (read_buckets_good now (buckets v) [] None (Forall_nil_2 _)) as Hr.
  pose proof (buckets_bounded v). destruct (read_buckets now (buckets v) [] None) as [[|g gauges] plan]; simpl in *; [split; [done|by right]|].
  destruct Hr as [Hl Hf]. split; [done|]. left. split_and!; try done; lia.
Qed.
End Codex.
