(* ===== verification/Usage.v ===== *)
(** * Quota collection

    [crates/amber/src/usage.rs]: the Claude request and its answer, the cache that
    spaces requests out and keeps rows, and the one poller thread, interleaved by
    [step] with the handlers that ask for a refresh.  Credentials, curl and the clocks
    are arguments; Codex's row is [CodexUsage]'s. *)
From S2P Require Import Prelude Utf8 Wire Browser CodexUsage.
From S2P Require Calendar Search Http.

Definition HTTP_MARKER : string := "__amber_http:".
Definition RATE_LIMIT_DETAIL : string := "usage rate-limited " +:+ string_of_bytes [226; 128; 148]%Z +:+ " backing off for 10 min".
Definition CLAUDE_USAGE_URL : string := "https://api.anthropic.com/api/oauth/usage".
Definition CLAUDE_POLL_SECS : Z := 300.
Definition CLAUDE_BACKOFF_SECS : Z := 600.

(** [i64::saturating_add] of a positive number. *)
Definition sat_add_i64 (a b : Z) : Z := Z.min Calendar.i64_max (a + b).

Record RunOutput := mk_run_output { ro_ok : bool; ro_status : string; ro_stdout : list byte }.

(** ** Text *)

Definition split_status (stdout : list byte) : list byte * option Z :=
  match Http.rsplit_once 10 stdout with
  | Some (body, last) =>
      if Search.starts_with last (bytes_of_string HTTP_MARKER)
      then (body, parse_uint u16_max (drop (String.length HTTP_MARKER) last))
      else (stdout, None)
  | None => (stdout, None)
  end.

(** [str::replace] of a pattern that is not empty; each turn takes a character. *)
Fixpoint replace (fuel : nat) (pat by_ l : list Z) : list Z :=
  match fuel, l with
  | S fuel, c :: rest =>
      if Search.starts_with l pat then by_ ++ replace fuel pat by_ (drop (length pat) l)
      else c :: replace fuel pat by_ rest
  | _, _ => []
  end.

(** The characters of a server's message that are shown. *)
Definition shortened (token msg : list Z) : list Z :=
  let flat := map (fun c => if is_control c then 32%Z else c) msg in
  let short := take 140 flat in
  let short := match token with [] => short | _ => replace (length short) token (bytes_of_string "[REDACTED]") short end in
  trim short.

Section Usage.
Context {Value : Type} `{JsonValue Value, !JsonNumbers Value}.
(** serde_json's text for a body it cannot read. *)
Context (json_error : list byte -> string).

Definition from_bytes (body : list byte) : option Value := from_str (string_of_bytes body).

Definition server_message (body : list byte) (token : string) : option (list Z) :=
  v ← from_bytes body;
  msg ← (match e ← get v "error"; get e "message" with Some m => Some m | None => get v "message" end) ≫= as_str;
  match shortened (chars token) (chars msg) with [] => None | short => Some short end.

Definition gauge (kind label : string) (percent : Z) (resets_at : option Z) (now : Z) : Gauge :=
  mk_gauge kind label percent resets_at (rolled resets_at now).

Definition label_for (group kind : string) : string :=
  if bool_decide (group = "session") then "5h window" else if bool_decide (group = "weekly") then "weekly" else kind.

Definition resets_of (entry : Value) : option Z :=
  r ← get entry "resets_at"; t ← as_str r; Calendar.rfc3339_to_unix (bytes_of_string t).

Definition limit_gauge (now : Z) (entry : Value) : option Gauge :=
  percent ← get entry "percent" ≫= as_f64;
  let kind := default "limit" (str_of entry "kind") in
  let group := default kind (str_of entry "group") in
  Some (gauge group (label_for group kind) percent (resets_of entry) now).

Definition block_gauge (v : Value) (now : Z) (key group label : string) : option Gauge :=
  block ← get v key;
  if is_null block then None else
  percent ← get block "utilization" ≫= as_f64;
  Some (gauge group label percent (resets_of block) now).

Definition parse_claude_usage (body : list byte) (now : Z) : result (list Gauge * option string) string :=
  match from_bytes body with
  | None => Err ("unreadable usage response: " +:+ json_error body)
  | Some v =>
      let plan := (match o ← get v "organization"; get o "plan_type" with Some p => Some p | None => get v "plan_type" end) ≫= as_str in
      let gauges := match get v "limits" ≫= as_array with Some limits => omap (limit_gauge now) limits | None => [] end in
      let gauges := match gauges with
        | [] => omap id [block_gauge v now "five_hour" "session" "5h window"; block_gauge v now "seven_day" "weekly" "weekly"]
        | _ => gauges
        end in
      match gauges with
      | [] => Err "usage response carried no readable windows"
      | _ => Ok (gauges, plan)
      end
  end.

Definition unavailable (provider detail : string) (now : Z) : ProviderUsage :=
  mk_provider_usage provider None [] (Z.max 0 now) "unavailable" (Some detail).
Definition errored (provider detail : string) (now : Z) : ProviderUsage :=
  mk_provider_usage provider None [] (Z.max 0 now) "error" (Some detail).
Definition needs_auth (detail : string) (now : Z) : ProviderUsage :=
  mk_provider_usage "claude" None [] (Z.max 0 now) "needs-auth" (Some detail).

(** ** The request *)

(** What is found of the credentials: no home, no file, or its text. *)
Inductive Credentials := No_home | No_file | Text (raw : string).

Definition DASH : string := string_of_bytes [32; 226; 128; 148; 32]%Z.

(** What the answer to the request says; [true] when it was a refusal by rate. *)
Definition on_answer (token : string) (now : Z) (out : result RunOutput string) : ProviderUsage * bool :=
  match out with
  | Err e => (errored "claude" ("could not run curl: " +:+ e) now, false)
  | Ok out =>
      if negb (ro_ok out) then (errored "claude" ("usage request failed (" +:+ ro_status out +:+ ")") now, false)
      else
        let '(body, status) := split_status (ro_stdout out) in
        let status := default 200%Z status in
        if (status =? 200)%Z then
          match parse_claude_usage body now with
          | Ok (gauges, plan) => (mk_provider_usage "claude" plan gauges (Z.max 0 now) "ok" None, false)
          | Err e => (errored "claude" e now, false)
          end
        else if (status =? 429)%Z then (errored "claude" RATE_LIMIT_DETAIL now, true)
        else if ((status =? 401) || (status =? 403))%Z
        then (needs_auth ("claude token rejected" +:+ DASH +:+ "run claude to refresh") now, false)
        else
          let detail := "usage request failed (HTTP " +:+ number status +:+ ")" in
          (errored "claude" (match server_message body token with
                             | Some msg => detail +:+ ": " +:+ string_of_bytes (Http.as_bytes msg)
                             | None => detail
                             end) now, false)
  end.

(** The arguments of curl. *)
Definition curl_args (token : string) : list string :=
  ["-sS"; "--max-time"; "5"; "-w"; string_of_bytes [10]%Z +:+ HTTP_MARKER +:+ "%{http_code}";
   "-H"; "Authorization: Bearer " +:+ token; "-H"; "anthropic-beta: oauth-2025-04-20"; CLAUDE_USAGE_URL].

(** The token there is to ask with, or the row that says why there is none. *)
Definition bearer (creds : Credentials) (now : Z) : result string ProviderUsage :=
  let out := unavailable "claude" "claude not logged in" now in
  match creds with
  | No_home => Err (unavailable "claude" "no home directory" now)
  | No_file => Err out
  | Text raw =>
      match from_str raw with
      | None => Err (unavailable "claude" "claude credentials unreadable" now)
      | Some creds =>
          match get creds "claudeAiOauth" with
          | None => Err out
          | Some oauth =>
              match str_of oauth "accessToken" with
              | None => Err out
              | Some token =>
                  match get oauth "expiresAt" ≫= as_i64 with
                  | Some exp_ms =>
                      if (Z.quot exp_ms 1000 <=? now)%Z
                      then Err (needs_auth ("claude token expired" +:+ DASH +:+ "run claude to refresh") now)
                      else Ok token
                  | None => Ok token
                  end
              end
          end
      end
  end.

Definition fetch_claude (creds : Credentials) (now : Z) (run : list string -> result RunOutput string) : ProviderUsage * bool :=
  match bearer creds now with
  | Err row => (row, false)
  | Ok token => on_answer token now (run (curl_args token))
  end.

(** ** The cache *)

Record UsageCache := mk_cache {
  uc_inner : list ProviderUsage; uc_refresh : bool; uc_next : Z; uc_backoff : Z; uc_force : bool }.

Definition new_cache : UsageCache := mk_cache [] false 0 0 false.

Definition stale_gauge (g : Gauge) : Gauge := mk_gauge (g_kind g) (g_label g) (g_percent g) (g_resets_at g) true.

Definition snapshot_row (now : Z) (row : ProviderUsage) : ProviderUsage :=
  if bool_decide (pu_provider row = "codex") && bool_decide (pu_state row = "ok") && (180 <? sat_sub64 now (pu_updated row))%Z
  then mk_provider_usage (pu_provider row) (pu_plan row) (map stale_gauge (pu_gauges row)) (pu_updated row) "error"
         (Some "Live Codex quota is stale; refresh to retry")
  else row.

Definition snapshot_at (now : Z) (c : UsageCache) : list ProviderUsage := map (snapshot_row now) (uc_inner c).

Definition stored_row (rows : list ProviderUsage) (row : ProviderUsage) : ProviderUsage :=
  if bool_decide (pu_provider row = "codex") && negb (bool_decide (pu_state row = "ok")) then
    match find_first (fun r => bool_decide (pu_provider r = "codex") && (0 <? pu_updated r)%Z) rows with
    | Some previous =>
        mk_provider_usage (pu_provider row) (pu_plan previous) (map stale_gauge (pu_gauges previous)) (pu_updated previous)
          (pu_state row) (pu_detail row)
    | None => row
    end
  else row.

Definition store (rows : list ProviderUsage) (c : UsageCache) : UsageCache :=
  mk_cache (map (stored_row (uc_inner c)) rows) (uc_refresh c) (uc_next c) (uc_backoff c) (uc_force c).

Definition claude_reuse (now : Z) (c : UsageCache) : ProviderUsage :=
  match find_first (fun r => bool_decide (pu_provider r = "claude")) (uc_inner c) with
  | Some row => row
  | None => unavailable "claude" "waiting for next poll" now
  end.

Definition set_refresh (b : bool) (c : UsageCache) : UsageCache :=
  mk_cache (uc_inner c) b (uc_next c) (uc_backoff c) (uc_force c).
Definition set_force (b : bool) (c : UsageCache) : UsageCache :=
  mk_cache (uc_inner c) (uc_refresh c) (uc_next c) (uc_backoff c) b.

(** [claude_poll] up to the request: whether there is one, with the flag taken. *)
Definition wants_fetch (now : Z) (c : UsageCache) : bool :=
  let backed_off := (now <? uc_backoff c)%Z in
  let due := (uc_next c <=? now)%Z in
  negb (backed_off || (negb due && negb (uc_force c))).

(** [claude_poll] after it. *)
Definition fetched (now : Z) (limited : bool) (c : UsageCache) : UsageCache :=
  mk_cache (uc_inner c) (uc_refresh c) (sat_add_i64 now CLAUDE_POLL_SECS)
    (if limited then sat_add_i64 now CLAUDE_BACKOFF_SECS else uc_backoff c) (uc_force c).

Definition grok_usage (now : Z) : ProviderUsage := unavailable "grok" "grok exposes no quota data" now.
Definition muse_usage (now : Z) : ProviderUsage := unavailable "muse" "muse exposes no quota data" now.

Context (in_percent : Z -> bool) (from_slice : list byte -> option Value) (writes : Rpc -> bool).

(** Codex's row; there may be no Codex. *)
Definition codex_row (reads : option (list Read)) (now : Z) : ProviderUsage :=
  match reads with
  | Some reads => collect in_percent from_slice writes reads now
  | None => unavailable "codex" "Codex not installed; live quota unavailable" 0
  end.

Definition collect_all (claude codex : ProviderUsage) (now : Z) : list ProviderUsage :=
  [claude; codex; grok_usage now; muse_usage now].

(** ** The poller *)

(** Where the thread of [start] is; rounds are timed by a clock that only goes forward,
    in milliseconds. *)
Inductive Phase :=
| P_round
| P_fetching (began now : Z) (forced : bool)
| P_collecting (began now : Z) (claude : ProviderUsage)
| P_waiting (began since : Z)
| P_sleeping (began : Z).

(** A request that was made: when, by which clock, whether asked for, and its answer. *)
Record Fetch := mk_fetch { fe_now : Z; fe_began : Z; fe_forced : bool; fe_limited : bool; fe_row : ProviderUsage }.

(** [us_asking]: handlers between the two locks of [request_refresh]; [us_asked]: refreshes
    asked for; [us_fetches], newest first, and [us_codex], the rows collected. *)
Record State := mk_state {
  us_cache : UsageCache;
  us_phase : Phase;
  us_clock : Z;
  us_asking : nat;
  us_asked : nat;
  us_fetches : list Fetch;
  us_codex : list ProviderUsage }.

Definition POLL_INTERVAL : Z := 60000.

Definition poller (c : UsageCache) (p : Phase) (s : State) : State :=
  mk_state c p (us_clock s) (us_asking s) (us_asked s) (us_fetches s) (us_codex s).

Inductive step (s : State) : State -> Prop :=
| step_tick clock : (us_clock s <= clock)%Z -> step s (mk_state (us_cache s) (us_phase s) clock (us_asking s) (us_asked s) (us_fetches s) (us_codex s))
| step_request :
    step s (mk_state (set_refresh true (us_cache s)) (us_phase s) (us_clock s) (S (us_asking s)) (us_asked s) (us_fetches s) (us_codex s))
| step_force n :
    us_asking s = S n ->
    step s (mk_state (set_force true (us_cache s)) (us_phase s) (us_clock s) n (S (us_asked s)) (us_fetches s) (us_codex s))
| step_fetch now :
    us_phase s = P_round -> wants_fetch now (us_cache s) = true ->
    step s (poller (set_force false (us_cache s)) (P_fetching (us_clock s) now (uc_force (us_cache s))) s)
| step_reuse now :
    us_phase s = P_round -> wants_fetch now (us_cache s) = false ->
    step s (poller (set_force false (us_cache s)) (P_collecting (us_clock s) now (claude_reuse now (us_cache s))) s)
| step_answer began now forced creds curl row limited :
    us_phase s = P_fetching began now forced -> fetch_claude creds now curl = (row, limited) ->
    step s (mk_state (fetched now limited (us_cache s)) (P_collecting began now row) (us_clock s) (us_asking s) (us_asked s)
              (mk_fetch now began forced limited row :: us_fetches s) (us_codex s))
| step_store began now claude reads later since :
    us_phase s = P_collecting began now claude -> (now <= later)%Z -> (us_clock s <= since)%Z ->
    step s (mk_state (store (collect_all claude (codex_row reads later) now) (us_cache s)) (P_waiting began since) since (us_asking s) (us_asked s)
              (us_fetches s) (codex_row reads later :: us_codex s))
| step_wake began since :
    us_phase s = P_waiting began since -> uc_refresh (us_cache s) = true \/ (since + POLL_INTERVAL <= us_clock s)%Z ->
    step s (poller (set_refresh false (us_cache s)) (P_sleeping began) s)
| step_next began :
    us_phase s = P_sleeping began -> (began + 10000 <= us_clock s)%Z -> step s (poller (us_cache s) P_round s).

Inductive run : State -> State -> Prop :=
| run_nil s : run s s
| run_snoc s s' s'' : run s s' -> step s' s'' -> run s s''.

Definition initial : State := mk_state new_cache P_round 0 0 0 [] [].

(** ** Requests are spaced out *)

(** The requests made, newest first. *)
Fixpoint spaced (fs : list Fetch) : Prop :=
  match fs with
  | [] => True
  | f :: older =>
      spaced older
      /\ Forall (fun g => fe_limited g = true -> (sat_add_i64 (fe_now g) CLAUDE_BACKOFF_SECS <= fe_now f)%Z) older
      /\ match older with
         | [] => True
         | g :: _ => (fe_began g + 10000 <= fe_began f)%Z
             /\ (fe_forced f = true \/ (sat_add_i64 (fe_now g) CLAUDE_POLL_SECS <= fe_now f)%Z)
         end
  end.

Definition forced_fetches (fs : list Fetch) : nat := length (List.filter fe_forced fs).

Definition pending (b : bool) : nat := if b then 1 else 0.

(** The round a request belongs to has not begun before this. *)
Definition round_began (p : Phase) : option Z :=
  match p with P_round => None | P_fetching b _ _ | P_collecting b _ _ | P_waiting b _ | P_sleeping b => Some b end.

(** A request in flight. *)
Definition in_flight (p : Phase) : option (Z * Z * bool) :=
  match p with P_fetching began now forced => Some (began, now, forced) | _ => None end.

Record paced (s : State) : Prop := mk_paced {
  pa_spaced : spaced (us_fetches s);
  pa_next : match us_fetches s with [] => True | f :: _ => uc_next (us_cache s) = sat_add_i64 (fe_now f) CLAUDE_POLL_SECS end;
  pa_backoff : Forall (fun f => fe_limited f = true -> (sat_add_i64 (fe_now f) CLAUDE_BACKOFF_SECS <= uc_backoff (us_cache s))%Z) (us_fetches s);
  pa_clock : match us_fetches s, round_began (us_phase s) with
             | f :: _, None => (fe_began f + 10000 <= us_clock s)%Z
             | f :: _, Some b => match in_flight (us_phase s) with
                                 | Some _ => (fe_began f + 10000 <= b)%Z
                                 | None => (fe_began f <= b)%Z
                                 end
             | [], _ => True
             end;
  pa_flight : match in_flight (us_phase s) with
              | Some (began, now, forced) =>
                  (uc_backoff (us_cache s) <= now)%Z /\ (forced = true \/ (uc_next (us_cache s) <= now)%Z)
              | None => True
              end;
  pa_asked : forced_fetches (us_fetches s)
             + pending (match in_flight (us_phase s) with Some (_, _, f) => f | None => false end)
             + pending (uc_force (us_cache s)) <= us_asked s }.

Lemma wants_fetch_spec now c :
  wants_fetch now c = true -> (uc_backoff c <= now)%Z /\ (uc_force c = true \/ (uc_next c <= now)%Z).
Proof.
  unfold wants_fetch. destruct (Z.ltb_spec now (uc_backoff c)); simpl; [done|]. intros Hn. split; [done|].
  destruct (Z.leb_spec (uc_next c) now), (uc_force c); simpl in Hn; auto; done.
Qed.

Lemma paced_step s s' : paced s -> step s s' -> paced s'.
Proof.
  intros [Hsp Hn Hb Hc Hf Ha] Hs. destruct Hs as [clock Ht| |n E|now E Hw|now E Hw|began now forced creds curl row limited E Hr
    |began now claude reads later since E Hl Ht|began since E Hw|began E Ht]; constructor; simpl in *; rewrite ?E in *; simpl in *; try done.
  - destruct (us_fetches s) as [|f fs]; [done|]. destruct (round_began (us_phase s)); [done|lia].
  - destruct (uc_force (us_cache s)); simpl in Ha; lia.
  - by apply wants_fetch_spec.
  - lia.
  - destruct (us_fetches s); [done|]. lia.
  - lia.
  - destruct Hf as [Hback Hdue]. split_and!; [done| |].
    + eapply Forall_impl; [exact Hb|]. intros g Hg Hl. specialize (Hg Hl). lia.
    + destruct (us_fetches s); [done|]. split; [done|]. by rewrite <- Hn.
  - destruct Hf as [Hback _]. constructor; simpl.
    + by intros ->.
    + eapply Forall_impl; [exact Hb|]. intros g Hg Hl. specialize (Hg Hl). destruct limited; [|done].
      unfold sat_add_i64, CLAUDE_BACKOFF_SECS in *. lia.
  - unfold forced_fetches in *. simpl. destruct forced; simpl in *; lia.
  - destruct (us_fetches s); [done|]. lia.
Qed.

Lemma paced_run s s' : paced s -> run s s' -> paced s'.
Proof. intros Hp. induction 1 as [|s s1 s2 _ IH Hs]; [done|]. by eapply paced_step; [apply IH|]. Qed.

Lemma paced_initial : paced initial.
Proof. by constructor. Qed.

Lemma spaced_older newer f older : spaced (newer ++ f :: older) -> spaced (f :: older).
Proof. induction newer as [|h newer IH]; [done|]. intros [Hs _]. by apply IH. Qed.

(** C17. Claude's endpoint is asked politely, however many clients ask for a refresh and
    whenever: after a refusal by rate it is left alone for ten minutes, even by those who
    ask; it is asked again within five minutes only because somebody asked, and not more
    often than was asked; and never twice within ten seconds. *)
Theorem polite_polling s newer f older :
  run initial s -> us_fetches s = newer ++ f :: older ->
  (forall g, g ∈ older -> fe_limited g = true -> (sat_add_i64 (fe_now g) 600 <= fe_now f)%Z)
  /\ (forall g, head older = Some g ->
       (fe_began g + 10000 <= fe_began f)%Z /\ (fe_forced f = true \/ (sat_add_i64 (fe_now g) 300 <= fe_now f)%Z))
  /\ forced_fetches (us_fetches s) <= us_asked s.
Proof.
  intros Hr E. destruct (paced_run _ _ paced_initial Hr) as [Hsp _ _ _ _ Ha]. rewrite E in Hsp.
  destruct (spaced_older _ _ _ Hsp) as (_ & Hl & Hh). split_and!.
  - rewrite Forall_forall in Hl. by apply Hl.
  - intros g Hg. destruct older as [|g' older]; [done|]. by injection Hg as ->.
  - lia.
Qed.

(** ** What is shown *)

Definition rows_stale (row : ProviderUsage) : Prop := Forall (fun g => g_stale g = true) (pu_gauges row).

(** A row of Claude's answer. *)
Definition sampled (f : Fetch) : Prop :=
  pu_provider (fe_row f) = "claude" /\ pu_updated (fe_row f) = Z.max 0 (fe_now f)
  /\ (pu_state (fe_row f) = "ok" -> pu_gauges (fe_row f) <> []
      /\ Forall (fun g => g_stale g = rolled (g_resets_at g) (fe_now f)) (pu_gauges (fe_row f)))
  /\ (pu_state (fe_row f) <> "ok" -> pu_gauges (fe_row f) = []).

Lemma parse_gauges body now gauges plan :
  parse_claude_usage body now = Ok (gauges, plan) -> gauges <> [] /\ Forall (fun g => g_stale g = rolled (g_resets_at g) now) gauges.
Proof.
  unfold parse_claude_usage. destruct (from_bytes body) as [v|]; [|done]. cbv zeta.
  set (limits := match _ with Some l => omap (limit_gauge now) l | None => [] end).
  assert (Hlimits : Forall (fun g => g_stale g = rolled (g_resets_at g) now) limits).
  { unfold limits. destruct (_ ≫= _) as [l|]; [|constructor]. apply Forall_forall. intros g (e & _ & He)%list_elem_of_omap.
    unfold limit_gauge in He. destruct (_ ≫= as_f64); [|done]. by injection He as <-. }
  set (blocks := omap id _).
  assert (Hblocks : Forall (fun g => g_stale g = rolled (g_resets_at g) now) blocks).
  { apply Forall_forall. intros g (e & He & Hg)%list_elem_of_omap. unfold id in Hg. subst e.
    assert (Hb : forall key group label, Some g = block_gauge v now key group label -> g_stale g = rolled (g_resets_at g) now).
    { intros key group label. unfold block_gauge. destruct (get v key) as [block|]; [|done]. simpl. destruct (is_null block); [done|].
      destruct (_ ≫= as_f64); [|done]. by intros [= ->]. }
    apply list_elem_of_In in He as [He|[He|[]]]; by eapply Hb. }
  destruct limits as [|g l] eqn:El; [destruct blocks as [|g l]; [done|]|]; intros [= <- <-]; by split.
Qed.

Lemma fetch_sampled creds now curl began forced :
  sampled (mk_fetch now began forced (snd (fetch_claude creds now curl)) (fst (fetch_claude creds now curl))).
Proof.
  assert (Hno : forall d st, st <> "ok" -> sampled (mk_fetch now began forced false (mk_provider_usage "claude" None [] (Z.max 0 now) st d))
    /\ sampled (mk_fetch now began forced true (mk_provider_usage "claude" None [] (Z.max 0 now) st d))).
  { by intros d st Hst. }
  assert (Hbearer : forall row, bearer creds now = Err row -> sampled (mk_fetch now began forced false row)).
  { intros row. unfold bearer. repeat case_match; intros [= <-]; by apply Hno. }
  unfold fetch_claude. destruct (bearer creds now) as [token|row] eqn:Eb; [|by apply Hbearer].
  unfold on_answer. destruct (curl _) as [out|e]; [|by apply Hno]. destruct (ro_ok out); simpl; [|by apply Hno].
  destruct (split_status (ro_stdout out)) as [body status]. cbv zeta. 
  destruct (_ =? 200)%Z.
  - destruct (parse_claude_usage body now) as [[gauges plan]|e] eqn:Ep; [|by apply Hno].
    destruct (parse_gauges _ _ _ _ Ep). by repeat split.
  - destruct (_ =? 429)%Z; [by apply Hno|]. destruct (_ || _); [by apply Hno|]. by apply Hno.
Qed.

(** Where a row that is kept comes from. *)
Definition from_codex (samples : list ProviderUsage) (row : ProviderUsage) : Prop :=
  pu_provider row = "codex"
  /\ (pu_state row = "ok" -> row ∈ samples)
  /\ (pu_state row <> "ok" ->
       pu_gauges row = [] /\ pu_updated row = 0%Z
       \/ exists c, c ∈ samples /\ pu_state c = "ok" /\ pu_updated row = pu_updated c /\ pu_plan row = pu_plan c
            /\ pu_gauges row = map stale_gauge (pu_gauges c)).

Definition from_claude (fetches : list Fetch) (row : ProviderUsage) : Prop :=
  pu_provider row = "claude"
  /\ ((exists f, f ∈ fetches /\ fe_row f = row) \/ pu_state row = "unavailable" /\ pu_gauges row = []).

Definition kept (s : State) (row : ProviderUsage) : Prop :=
  from_claude (us_fetches s) row \/ from_codex (us_codex s) row
  \/ (pu_provider row = "grok" \/ pu_provider row = "muse") /\ pu_state row = "unavailable" /\ pu_gauges row = [].

Record truthful (s : State) : Prop := mk_truthful {
  tr_sampled : Forall sampled (us_fetches s);
  tr_kept : Forall (kept s) (uc_inner (us_cache s));
  tr_collecting : forall began now row, us_phase s = P_collecting began now row -> from_claude (us_fetches s) row }.

Lemma kept_more s s' row : us_fetches s ⊆ us_fetches s' -> us_codex s ⊆ us_codex s' -> kept s row -> kept s' row.
Proof.
  intros Hf Hc [[Hp [(f & Hin & E)|Hu]]|[(Hp & Hok & Hno)|Hg]].
  - left. split; [done|]. left. exists f. auto.
  - left. split; [done|]. by right.
  - right; left. split_and!; [done|by intros Hst; apply Hc, Hok|]. intros Hst.
    destruct (Hno Hst) as [?|(c & Hin & Hrest)]; [by left|]. right. exists c. split; [by apply Hc|done].
  - by right; right.
Qed.

Lemma codex_row_from reads now samples : from_codex (codex_row reads now :: samples) (codex_row reads now).
Proof.
  destruct reads as [reads|]; simpl.
  - destruct (collect_row in_percent from_slice writes reads now) as [Hp [(Hst & _)|(Hst & Hu & Hg)]]; (split; [done|split; [intros Hok|intros Hno]]).
    + by left.
    + by destruct Hno.
    + congruence.
    + by left.
  - split_and!; [done..|]. intros _. by left.
Qed.

Lemma stale_twice gs : map stale_gauge (map stale_gauge gs) = map stale_gauge gs.
Proof. rewrite map_map. by apply map_ext. Qed.

(** A failed sample keeps the numbers of the last good one. *)
Lemma stored_from rows samples row :
  (forall r, r ∈ rows -> pu_provider r = "codex" -> from_codex samples r) -> from_codex samples row ->
  from_codex samples (stored_row rows row).
Proof.
  intros Hrows Hrow. destruct Hrow as (Hp & Hok & Hno). unfold stored_row. rewrite Hp. rewrite bool_decide_true by done. simpl.
  case_bool_decide as Hst; simpl; [split_and!; auto; by rewrite Hst|].
  destruct (find_first _ rows) as [previous|] eqn:E; [|by split_and!].
  apply find_first_Some in E as [Hin [Hpp Hpu]%andb_true_iff]. apply bool_decide_eq_true in Hpp. apply Z.ltb_lt in Hpu.
  destruct (Hrows previous Hin Hpp) as (_ & Hpok & Hpno). split_and!; simpl; [done|by intros ?|]. intros _. right.
  destruct (decide (pu_state previous = "ok")) as [Hs|Hs].
  - exists previous. split_and!; auto.
  - destruct (Hpno Hs) as [[_ Hu]|(c & Hc & Hcs & Hu & Hpl & Hg)]; [lia|]. exists c. split_and!; try done. by rewrite Hg, stale_twice.
Qed.

Lemma kept_codex s r : kept s r -> pu_provider r = "codex" -> from_codex (us_codex s) r.
Proof. intros [[Hp _]|[Hk|[[Hp|Hp] _]]] Hc; [congruence|done|congruence..]. Qed.

Lemma reuse_from s now : Forall (kept s) (uc_inner (us_cache s)) -> from_claude (us_fetches s) (claude_reuse now (us_cache s)).
Proof.
  intros Hk. unfold claude_reuse. destruct (find_first _ _) as [row|] eqn:E; [|split; [done|by right]].
  apply find_first_Some in E as [Hin Hp%bool_decide_eq_true]. rewrite Forall_forall in Hk.
  destruct (Hk row Hin) as [Hc|[(Hq & _)|[[Hq|Hq] _]]]; [done|congruence..].
Qed.

Lemma truthful_step s s' : truthful s -> step s s' -> truthful s'.
Proof.
  intros [Hsa Hk Hcl] Hs. destruct Hs as [clock Ht| |n E|now E Hw|now E Hw|began now forced creds curl row limited E Hr
    |began now claude reads later since E Hl Ht|began since E Hw|began E Ht]; constructor; simpl in *; try done.
  - intros ? ? ? [= <- <- <-]. by apply reuse_from.
  - constructor; [|done]. pose proof (fetch_sampled creds now curl began forced) as Hf. by rewrite Hr in Hf.
  - eapply Forall_impl; [exact Hk|]. intros r. by apply kept_more; [apply list_subseteq_cons|].
  - intros ? ? ? [= <- <- <-]. pose proof (fetch_sampled creds now curl began forced) as (Hp & _). rewrite Hr in Hp.
    split; [done|]. left. eexists. split; [by left|done].
  - assert (Hc : from_claude (us_fetches s) claude) by by eapply Hcl.
    assert (Hid : forall r, pu_provider r <> "codex" -> stored_row (uc_inner (us_cache s)) r = r).
    { intros r Hr. unfold stored_row. by rewrite bool_decide_false. }
    rewrite !(Hid claude), !(Hid (grok_usage now)), !(Hid (muse_usage now)) by (try done; destruct Hc as [-> _]; done).
    rewrite !Forall_cons. split_and!; [by left| |right; right; by auto..|constructor].
    right; left. apply stored_from; [|apply codex_row_from]. intros r Hin Hp. rewrite Forall_forall in Hk.
    eapply (kept_codex (mk_state (us_cache s) (us_phase s) (us_clock s) 0 0 (us_fetches s) (codex_row reads later :: us_codex s))); [|done].
    by eapply kept_more; [| |by apply Hk]; [|apply list_subseteq_cons].
Qed.

Lemma truthful_run s : run initial s -> truthful s.
Proof.
  intros Hr. remember initial as s0 eqn:E. induction Hr as [s|s s1 s2 _ IH Hs]; subst; [by constructor|].
  eapply truthful_step; [by apply IH|done].
Qed.

End Usage.

(** The message is cut before the token is looked for: one that begins within the first
    140 characters and ends after them is shown as far as it goes. *)
Theorem token_prefix_shown : exists token msg,
  length token = 108 /\ Search.contains (shortened token msg) (take 100 token) = true.
Proof.
  exists (repeat 97%Z 108), (repeat 120%Z 40 ++ repeat 97%Z 108). split; vm_compute; reflexivity.
Qed.

(** ** Examples *)

(** A JSON library whose values are the keys that lead to them: every text holds a token
    and one window, which resets at 1100. *)
#[local] Instance one_window : JsonValue string := {
  from_str t := Some t;
  get v k := if bool_decide (k ∈ ["claudeAiOauth"; "accessToken"; "limits"; "percent"; "group"; "resets_at"]) then Some k else None;
  as_str v := Some (if bool_decide (v = "resets_at") then "1970-01-01T00:18:20Z" else v);
  as_u64 _ := None;
  as_array v := Some [v];
  is_null _ := false }.
#[local] Instance one_number : JsonNumbers string := {
  as_f64 _ := Some 42%Z;
  as_i64 _ := None;
  as_object _ := None }.

Definition demo_step := step (fun _ => "") (fun _ => true) (fun _ => None) (fun _ => true).
Definition demo_run := run (fun _ => "") (fun _ => true) (fun _ => None) (fun _ => true).

Definition demo_gauge : Gauge := mk_gauge "group" "limit" 42 (Some 1100%Z) false.
Definition demo_row : ProviderUsage := mk_provider_usage "claude" None [demo_gauge] 1000 "ok" None.
Definition demo_fetch : Fetch := mk_fetch 1000 0 false false demo_row.

(** A first round at 1000, and the cache after it. *)
Definition demo_state : State :=
  mk_state (store (collect_all demo_row (unavailable "codex" "Codex not installed; live quota unavailable" 0) 1000)
              (fetched 1000 false new_cache))
    (P_waiting 0 0) 0 0 0 [demo_fetch] [unavailable "codex" "Codex not installed; live quota unavailable" 0].

Definition demo_curl (args : list string) : result RunOutput string := Ok (mk_run_output true "" []).

Lemma demo_answer : fetch_claude (fun _ => "") (Text "creds") 1000 demo_curl = (demo_row, false).
Proof. vm_compute. reflexivity. Qed.

Lemma demo_reached : demo_run initial demo_state.
Proof.
  pose proof (step_fetch (fun _ => "") (fun _ => true) (fun _ => None) (fun _ => true) initial 1000 eq_refl eq_refl) as H1.
  match type of H1 with step _ _ _ _ _ ?s => set (s1 := s) in H1 end.
  pose proof (step_answer (fun _ => "") (fun _ => true) (fun _ => None) (fun _ => true) s1 0 1000 false (Text "creds") demo_curl
    demo_row false eq_refl demo_answer) as H2.
  match type of H2 with step _ _ _ _ _ ?s => set (s2 := s) in H2 end.
  pose proof (step_store (fun _ => "") (fun _ => true) (fun _ => None) (fun _ => true) s2 0 1000 demo_row None 1000 0 eq_refl
    (Z.le_refl _) (Z.le_refl _)) as H3.
  exact (run_snoc _ _ _ _ _ _ _ (run_snoc _ _ _ _ _ _ _ (run_snoc _ _ _ _ _ _ _ (run_nil _ _ _ _ _) H1) H2) H3).
Qed.

(** A window that has rolled since it was read is shown as current. *)
Theorem rolled_window_shown : exists s now row g,
  demo_run initial s /\ row ∈ snapshot_at now (us_cache s) /\ pu_state row = "ok" /\ g ∈ pu_gauges row
  /\ g_stale g = false /\ rolled (g_resets_at g) now = true.
Proof.
  exists demo_state, 1200%Z, demo_row, demo_gauge. split_and!; [exact demo_reached|vm_compute; by left|done|by left|done..].
Qed.


Lemma polite_polling_witness :
  demo_run initial demo_state /\ us_fetches demo_state = [] ++ demo_fetch :: [] /\ forced_fetches (us_fetches demo_state) <= us_asked demo_state.
Proof.
  split; [exact demo_reached|]. split; [done|].
  exact (proj2 (proj2 (polite_polling (fun _ => "") (fun _ => true) (fun _ => None) (fun _ => true) demo_state [] demo_fetch [] demo_reached eq_refl))).
Defined.
