(* ===== verification/Muse.v ===== *)
(** * Finding Muse's conversations

    [crates/amber/src/muse.rs] beyond its recognizers ([Agents]), the processes of a pane
    ([pty.rs]) and [persist_muse_recording] of [manager.rs]: which conversation of Muse's
    own store a pane is in, and writing that down.  The directories and the heads of the
    logs are arguments; the records are in [Store]'s files. *)
From S2P Require Import Prelude Utf8 Wire ProcTree Store Browser.
From S2P Require Search Http Agents.

(** ** The processes of a pane *)

Definition is_muse_process (comm : string) : bool :=
  bool_decide (comm = "muse") || Search.starts_with (bytes_of_string comm) (bytes_of_string "muse-bin").

Definition muse_descendant_pids (pid : option Z) (table : list ProcEntry) : option (list Z) :=
  match pid with
  | None => Some []
  | Some pid =>
      below ← descendants_of table pid;
      Some (map pe_pid (List.filter (fun entry => bool_decide (pe_pid entry ∈ below) && is_muse_process (pe_comm entry)) table))
  end.

(** ** Muse's store *)

(** [XDG_DATA_HOME] and the home directory. *)
Definition sessions_base (xdg home : option string) : option string :=
  match xdg with
  | Some p => if bool_decide (p = "") then None else Some (p +:+ "/muse/sessions")
  | None => None
  end ∪ ((fun h => h +:+ "/.local/share/muse/sessions") <$> home).

Record MuseSession := mk_muse_session {
  ms_id : string; ms_workspace_root : string; ms_created_us : Z; ms_pid : option Z }.

Definition SCAN_DIR_CAP : nat := 2 ^ 13.

(** Equality of paths: of their components. *)
Definition path_components (p : string) : bool * bool * list (list byte) :=
  let segments := split_on 47 (bytes_of_string p) in
  (bool_decide (head segments = Some [] /\ p <> ""), bool_decide (head segments = Some [46%Z]),
   List.filter (fun s => negb (bool_decide (s = [] \/ s = [46%Z]))) segments).
Definition path_eq (p q : string) : bool := bool_decide (path_components p = path_components q).

Section Store.
Context {Value : Type} `{JsonValue Value}.
(** [std::fs::read_dir] of a directory of the store, empty where it cannot be read, and
    the first bytes of a log. *)
Context (read_dir : list string -> list string) (read_head : list string -> option (list byte)).

Definition read_dir_names (dir : list string) : list string := sort_by string_leb (read_dir dir).

(** What a log says so far. *)
Record Head := mk_head { hd_workspace_root : option string; hd_pid : option Z; hd_created_us : option Z }.

Definition pointer (v : Value) (keys : list string) : option Value :=
  foldl (fun o k => v ← o; get v k) (Some v) keys.

Definition inspect_record (record : Value) (h : Head) : Head :=
  let created := match get record "recorded_at" ≫= as_u64 with
                 | Some ts => Some (from_option (Z.min ts) ts (hd_created_us h))
                 | None => hd_created_us h
                 end in
  match get record "payload_type" ≫= as_str with
  | Some payload_type =>
      if bool_decide (payload_type = "runtime.session.metadata") then
        mk_head (hd_workspace_root h ∪ (pointer record ["payload"; "record"; "workspace_root"] ≫= as_str)) (hd_pid h) created
      else if bool_decide (payload_type = "runtime.session.route_facts") then
        let pid := found ← pointer record ["payload"; "record"; "pid"] ≫= as_u64;
                   if (found <=? u32_max)%Z then Some found else None in
        mk_head (hd_workspace_root h) (pid ∪ hd_pid h) created
      else mk_head (hd_workspace_root h) (hd_pid h) created
  | None => mk_head (hd_workspace_root h) (hd_pid h) created
  end.

Definition inspect_child (h : Head) (child : Value) : Head :=
  match get child "record_json" ≫= as_str with
  | Some nested => match from_str nested with Some record => inspect_record record h | None => h end
  | None => h
  end.

Definition inspect_line (h : Head) (line : list Z) : Head :=
  match from_str (string_of_bytes (Http.as_bytes line)) with
  | None => h
  | Some value =>
      let h := inspect_record value h in
      match get value "children" ≫= as_array with
      | Some children => foldl inspect_child h children
      | None => h
      end
  end.

Definition parse_session_head (id : string) (log : list string) : option MuseSession :=
  if negb (Agents.muse.is_session_id id) then None else
  bytes ← read_head log;
  let h := foldl inspect_line (mk_head None None None) (Search.lines (Search.from_utf8_lossy bytes)) in
  workspace_root ← hd_workspace_root h;
  Some (mk_muse_session id workspace_root (default 0%Z (hd_created_us h)) (hd_pid h)).

(** The days there are, in order. *)
Definition day_dirs : list (list string) :=
  concat (map (fun year =>
    concat (map (fun month =>
      map (fun day => [year; month; day]) (read_dir_names [year; month])) (read_dir_names [year]))) (read_dir_names [])).

(** [None]: returned from, with what there is. *)
Fixpoint scan_day (day ids : list string) (out : list MuseSession) : list MuseSession * bool :=
  match ids with
  | [] => (out, false)
  | id :: ids =>
      if SCAN_DIR_CAP <=? length out then (out, true) else
      scan_day day ids (out ++ option_list (parse_session_head id (day ++ [id; "session.jsonl"])))
  end.

Fixpoint scan_days (days : list (list string)) (out : list MuseSession) : list MuseSession :=
  match days with
  | [] => out
  | day :: days =>
      let '(out, full) := scan_day day (read_dir_names day) out in
      if full : bool then out else scan_days days out
  end.

Definition scan_sessions_in : list MuseSession := scan_days day_dirs [].

Definition mine (cwd : string) (pids : list Z) (s : MuseSession) : bool :=
  path_eq (ms_workspace_root s) cwd && match ms_pid s with Some pid => bool_decide (pid ∈ pids) | None => false end.

(** The loop of [find_session_for_pids]. *)
Fixpoint oldest (cwd : string) (pids : list Z) (sessions : list MuseSession) (best : option MuseSession) : option MuseSession :=
  match sessions with
  | [] => best
  | session :: sessions =>
      oldest cwd pids sessions
        (if negb (mine cwd pids session) then best
         else match best with
              | None => Some session
              | Some current => if (ms_created_us session <? ms_created_us current)%Z then Some session else best
              end)
  end.

Definition find_session_for_pids (cwd : string) (pids : list Z) : option MuseSession :=
  match pids with [] => None | _ => oldest cwd pids scan_sessions_in None end.

(** ** Writing it down *)
Context `{StateJson}.

Definition record_session (name : string) (session : MuseSession) (now : Z) : M unit :=
  previous <-! read_claude name;
  let updated := from_option (fun c => Z.max now (sat_add64 (cm_updated c) 1)) now previous in
  write_claude name (mk_claude (ms_id session) (ms_workspace_root session) updated None (Some Muse)).

Definition usable (recording : result (option ClaudeMeta) string) : bool :=
  match recording with
  | Ok (Some c) => bool_decide (cm_agent_kind c = Some Muse) && Agents.muse.is_session_id (cm_session_id c)
  | _ => false
  end.

(** [running]: Muse is the agent nearest to the pane; errors are printed. *)
Definition persist_muse_recording (name : string) (is_final running : bool) (pids : list Z) (now : Z) : M unit :=
  if is_final then ret tt else
  meta <-! try (read_session name);
  match meta with
  | Ok (Some meta) =>
      if negb (bool_decide (sm_kind meta = Shell \/ sm_kind meta = Muse)) then ret tt
      else if bool_decide (sm_kind meta = Shell) && negb running then ret tt else
      recording <-! try (read_claude name);
      if usable recording then ret tt else
      match find_session_for_pids (sm_cwd meta) pids with
      | None => ret tt
      | Some found => _ <-! try (record_session name found now); ret tt
      end
  | _ => ret tt
  end.

(** ** Which sessions are looked at *)

Definition parsed (log : list string * string) : option MuseSession :=
  parse_session_head log.2 (log.1 ++ [log.2; "session.jsonl"]).
Definition logs_of (day : list string) : list (list string * string) := map (fun id => (day, id)) (read_dir_names day).
Definition all_logs : list (list string * string) := concat (map logs_of day_dirs).

Lemma scan_day_spec day ids : forall out, length out <= SCAN_DIR_CAP ->
  let r := scan_day day ids out in
  r.1 = take SCAN_DIR_CAP (out ++ omap parsed (map (fun id => (day, id)) ids)) /\ (r.2 = true -> length r.1 = SCAN_DIR_CAP).
Proof.
  induction ids as [|id ids IH]; intros out Hout.
  - cbn [scan_day map omap list_omap fst snd]. rewrite app_nil_r, take_ge by lia. done.
  - cbn [scan_day map]. destruct (Nat.leb_spec SCAN_DIR_CAP (length out)) as [Hfull|Hroom].
    + cbn [fst snd]. rewrite take_app_le, take_ge by lia. split; [done|lia].
    + cbn [omap list_omap]. change (parsed (day, id)) with (parse_session_head id (day ++ [id; "session.jsonl"])).
      destruct (parse_session_head _ _) as [s|]; cbn [option_list].
      * rewrite (cons_middle s), app_assoc. apply IH. rewrite length_app. simpl. lia.
      * rewrite app_nil_r. by apply IH.
Qed.

Lemma scan_days_spec days : forall out, length out <= SCAN_DIR_CAP ->
  scan_days days out = take SCAN_DIR_CAP (out ++ omap parsed (concat (map logs_of days))).
Proof.
  induction days as [|day days IH]; intros out Hout; [simpl; by rewrite app_nil_r, take_ge by lia|].
  cbn [scan_days map concat]. pose proof (scan_day_spec day (read_dir_names day) out Hout) as [H1 H2].
  fold (logs_of day) in H1. destruct (scan_day day (read_dir_names day) out) as [out' full]. cbn [fst snd] in *.
  rewrite omap_app, app_assoc. destruct full.
  - rewrite H1 in *. rewrite length_take in H2. rewrite (take_app_le (out ++ _)) by (specialize (H2 eq_refl); lia). done.
  - rewrite IH by (rewrite H1, length_take; lia). rewrite H1.
    destruct (Nat.le_gt_cases (length (out ++ omap parsed (logs_of day))) SCAN_DIR_CAP) as [Hle|Hgt].
    + by rewrite (take_ge (out ++ _)) by done.
    + assert (Hfull : length (take SCAN_DIR_CAP (out ++ omap parsed (logs_of day))) = SCAN_DIR_CAP) by (rewrite length_take; lia).
      rewrite (take_app_le (take _ _)), (take_app_le (out ++ _)) by lia. by rewrite take_take, Nat.min_id.
Qed.

(** The sessions that are looked at are the first [SCAN_DIR_CAP], by date, of those that
    can be read. *)
Lemma scan_first : scan_sessions_in = take SCAN_DIR_CAP (omap parsed all_logs).
Proof. apply scan_days_spec. simpl. lia. Qed.

(** ** Which one is a pane's *)

Lemma oldest_spec cwd pids sessions : forall best r,
  oldest cwd pids sessions best = r ->
  match r with
  | None => best = None /\ Forall (fun s => mine cwd pids s = false) sessions
  | Some s => (best = Some s \/ s ∈ sessions /\ mine cwd pids s = true) /\
      (forall b, best = Some b -> (ms_created_us s <= ms_created_us b)%Z) /\
      Forall (fun x => mine cwd pids x = true -> (ms_created_us s <= ms_created_us x)%Z) sessions
  end.
Proof.
  induction sessions as [|x sessions IH]; intros best r Hr; simpl in Hr.
  - subst r. destruct best as [b|]; [|by split]. split; [by left|]. split; [by intros ? [= ->]|constructor].
  - specialize (IH _ _ Hr). destruct (mine cwd pids x) eqn:Hm; simpl in *.
    + destruct r as [s|]; [|by destruct IH as [IH _]; destruct best as [b|]; [destruct (_ <? _)%Z|]].
      destruct IH as (H1 & H2 & H3).
      destruct best as [b|]; [destruct (Z.ltb_spec (ms_created_us x) (ms_created_us b)) as [Hlt|Hge]|].
      * specialize (H2 x eq_refl). split; [destruct H1 as [[= ->]|[]]; right; split; set_solver|].
        split; [intros ? [= <-]; lia|by constructor].
      * specialize (H2 b eq_refl). split; [destruct H1 as [[= ->]|[]]; [by left|right; split; set_solver]|].
        split; [intros ? [= <-]; lia|constructor; [lia|done]].
      * specialize (H2 x eq_refl). split; [destruct H1 as [[= ->]|[]]; right; split; set_solver|]. split; [done|by constructor].
    + destruct r as [s|].
      * destruct IH as (H1 & H2 & H3). split; [destruct H1 as [|[]]; [by left|right; split; set_solver]|].
        split; [done|]. constructor; [by rewrite Hm|done].
      * destruct IH as [H1 H2]. split; [done|by constructor].
Qed.

Lemma find_spec cwd pids r :
  find_session_for_pids cwd pids = r ->
  match r with
  | None => Forall (fun s => mine cwd pids s = false) scan_sessions_in
  | Some s => s ∈ scan_sessions_in /\ mine cwd pids s = true /\
      Forall (fun x => mine cwd pids x = true -> (ms_created_us s <= ms_created_us x)%Z) scan_sessions_in
  end.
Proof.
  unfold find_session_for_pids. destruct pids as [|p pids].
  - intros <-. apply Forall_forall. intros s _. unfold mine. destruct (ms_pid s); by rewrite ?bool_decide_false, ?andb_false_r by set_solver.
  - intros Hr. apply oldest_spec in Hr. destruct r as [s|]; [|by destruct Hr]. by destruct Hr as ([|[]] & _ & ?).
Qed.

Lemma scanned_id s : s ∈ scan_sessions_in -> Agents.muse.is_session_id (ms_id s) = true.
Proof.
  rewrite scan_first. intros (i & Hi & _)%elem_of_take.
  apply list_elem_of_lookup_2, list_elem_of_omap in Hi as ([day id] & _ & Hp).
  unfold parsed, parse_session_head in Hp. simpl in Hp. destruct (negb _) eqn:Hid; [done|]. apply negb_false_iff in Hid.
  destruct (read_head _); [|done]. simpl in Hp. destruct (hd_workspace_root _); [|done]. by injection Hp as <-.
Qed.

(** ** What is written down *)

Definition files {A} (r : outcome A) : gmap (string * string) (list byte) :=
  match r with Done _ fs _ => fs | Crashed fs => fs end.

(** Reading a session or a recording changes no file, and says what is there. *)
Lemma read_session_says name fs o :
  match read_session name fs o with
  | Done r fs' _ => fs' = fs /\ forall m, r = Ok (Some m) -> exists b, fs !! session_path name = Some b /\ read_meta b = Some m
  | Crashed fs' => fs' = fs
  end.
Proof.
  unfold read_session, mbind, read. destruct (next o); try done; [|by split..].
  destruct (fs !! session_path name) as [b|]; [|by split]. destruct (read_meta b) as [m|] eqn:Hm; [|by split].
  split; [done|]. intros m' [= <-]. eauto.
Qed.

Lemma read_claude_says name fs o :
  match read_claude name fs o with
  | Done r fs' _ => fs' = fs /\ forall c, r = Ok c -> c = fs !! claude_path name ≫= read_claude_meta
  | Crashed fs' => fs' = fs
  end.
Proof.
  unfold read_claude, mbind, read. destruct (next o); try done; [|by split..].
  destruct (fs !! claude_path name) as [b|]; [|split; [done|by intros c [= <-]]].
  destruct (read_claude_meta b) as [m|] eqn:Hm; (split; [done|]); [|done]. intros c [= <-]. simpl. by rewrite Hm.
Qed.

(** A recording later than the one before it. *)
Definition newer (previous : option ClaudeMeta) (c : ClaudeMeta) : Prop :=
  forall p, previous = Some p -> (cm_updated p < u64_max)%Z -> (cm_updated p < cm_updated c)%Z.

Definition recorded (found : MuseSession) (updated : Z) : ClaudeMeta :=
  mk_claude (ms_id found) (ms_workspace_root found) updated None (Some Muse).

Lemma record_session_writes name found now fs o :
  let fs' := files (record_session name found now fs o) in
  fs' = fs \/ exists updated,
    fs' = <[claude_path name := claude_text (recorded found updated)]> fs /\
    newer (fs !! claude_path name ≫= read_claude_meta) (recorded found updated).
Proof.
  unfold record_session, mbind. pose proof (read_claude_says name fs o) as Hr.
  destruct (read_claude name fs o) as [[previous|e] fs1 o1|fs1]; [|by left; apply Hr|by left].
  destruct Hr as [-> Hp]. specialize (Hp _ eq_refl). unfold write_claude, atomic_write, change.
  set (updated := from_option _ _ _). assert (Hnew : newer previous (recorded found updated)).
  { intros p -> Hmax. unfold updated, sat_add64. simpl. unfold u64_max in *. lia. }
  rewrite Hp in Hnew. destruct (next o1); simpl; eauto.
Qed.

Lemma files_dropped {A} (m : M A) fs o : files ((_ <-! try m; ret tt) fs o) = files (m fs o).
Proof. unfold mbind, try. by destruct (m fs o). Qed.

(** When a snapshot comes to write, and what. *)
Lemma persist_reaches name is_final running pids now fs o fs' :
  files (persist_muse_recording name is_final running pids now fs o) = fs' ->
  fs' = fs \/ exists b m found o',
    is_final = false /\ fs !! session_path name = Some b /\ read_meta b = Some m /\
    (sm_kind m = Muse \/ sm_kind m = Shell /\ running = true) /\
    find_session_for_pids (sm_cwd m) pids = Some found /\
    (o = [] -> usable (Ok (fs !! claude_path name ≫= read_claude_meta)) = false) /\
    fs' = files (record_session name found now fs o').
Proof.
  unfold persist_muse_recording. intros Hfs. destruct is_final; [left; by rewrite <- Hfs|]. unfold mbind at 1, try at 1 in Hfs. pose proof (read_session_says name fs o) as Hs.
  assert (Ho : o = [] -> forall r fs1 o1, read_session name fs o = Done r fs1 o1 -> o1 = []).
  { intros -> r fs1 o1. unfold read_session, mbind, read. simpl. repeat case_match; by intros [=]. }
  destruct (read_session name fs o) as [meta fs1 o1|fs1]; [|left; by rewrite <- Hfs]. specialize (fun e => Ho e _ _ _ eq_refl).
  destruct Hs as [-> Hm]. destruct meta as [[m|]|e]; [|left; by rewrite <- Hfs..]. destruct (Hm m eq_refl) as (b & Hb & Hbm).
  destruct (negb _) eqn:Hk1; [left; by rewrite <- Hfs|]. destruct (bool_decide (sm_kind m = Shell) && negb running) eqn:Hk2; [left; by rewrite <- Hfs|].
  assert (Hkind : sm_kind m = Muse \/ sm_kind m = Shell /\ running = true).
  { apply negb_false_iff, bool_decide_eq_true in Hk1 as [Hk|Hk]; [|by left]. right. split; [done|].
    rewrite (bool_decide_true _ Hk) in Hk2. by destruct running. }
  unfold mbind at 1, try at 1 in Hfs. pose proof (read_claude_says name fs o1) as Hc.
  assert (Hu0 : o1 = [] -> forall r fs2 o2, read_claude name fs o1 = Done r fs2 o2 -> usable r = false ->
    usable (Ok (fs !! claude_path name ≫= read_claude_meta)) = false).
  { intros -> r fs2 o2. unfold read_claude, mbind, read. simpl.
    destruct (fs !! claude_path name); simpl; [|by intros]. destruct (read_claude_meta _); by intros [= <- _ _]. }
  destruct (read_claude name fs o1) as [recording fs2 o2|fs2]; [|left; by rewrite <- Hfs]. destruct Hc as [-> _].
  destruct (usable recording) eqn:Hu; [left; by rewrite <- Hfs|].
  destruct (find_session_for_pids (sm_cwd m) pids) as [found|] eqn:Hf; [|left; by rewrite <- Hfs].
  right. exists b, m, found, o2. rewrite files_dropped in Hfs. split_and!; try done. intros E. by eapply (Hu0 (Ho E)).
Qed.


(** The store is looked at oldest day first, up to a number of conversations: once that
    many are older, a new one is not among those looked at. *)
Theorem newest_never_found older newer_logs cwd pids :
  all_logs = older ++ newer_logs -> SCAN_DIR_CAP <= length (omap parsed older) ->
  forall s, find_session_for_pids cwd pids = Some s -> s ∈ omap parsed older.
Proof.
  intros Hlogs Hcap s Hf. apply find_spec in Hf as (Hin & _ & _).
  rewrite scan_first, Hlogs, omap_app, take_app_le in Hin by done.
  apply elem_of_take in Hin as (i & Hi & _). by eapply list_elem_of_lookup_2.
Qed.
End Store.

(** ** One pane's conversation and another's *)

(** Panes that share no process never get the same conversation. *)
Lemma panes_apart {Value} `{JsonValue Value} read_dir read_head cwd cwd' pids pids' s s' :
  (forall p, p ∈ pids -> p ∉ pids') ->
  find_session_for_pids read_dir read_head cwd pids = Some s ->
  find_session_for_pids read_dir read_head cwd' pids' = Some s' -> s <> s'.
Proof.
  intros Hd H1 H2 <-. apply find_spec in H1 as (_ & H1 & _), H2 as (_ & H2 & _). unfold mine in *.
  apply andb_true_iff in H1 as [_ H1], H2 as [_ H2]. destruct (ms_pid s) as [p|]; [|done].
  apply bool_decide_eq_true in H1, H2. by eapply Hd.
Qed.

(** A store of one record per log: its words are root, pid and time. *)
#[local] Instance words : JsonValue (list string) := {
  from_str := fun s => Some [s];
  get := fun v k =>
    match v with
    | [s] => if bool_decide (k = "payload_type") then Some ["type"; s]
             else if bool_decide (k = "recorded_at") then Some ["at"; s] else if bool_decide (k = "payload") then Some ["p"; s] else None
    | ["p"; s] => if bool_decide (k = "record") then Some ["r"; s] else None
    | ["r"; s] => Some ["f"; k; s]
    | _ => None
    end;
  as_str := fun v =>
    match v with
    | ["type"; s] => Some (if Search.starts_with (bytes_of_string s) (bytes_of_string "pid") then "runtime.session.route_facts" else "runtime.session.metadata")
    | ["f"; _; s] => Some s
    | _ => None
    end;
  as_u64 := fun v =>
    match v with
    | ["at"; s] => parse_uint u64_max (drop 4 (bytes_of_string s))
    | ["f"; _; s] => Some 700%Z
    | _ => None
    end;
  as_array := fun _ => None;
  is_null := fun _ => false }.

Definition old_id : string := "00000000-0000-0000-0000-000000000001".
Definition new_id : string := "00000000-0000-0000-0000-000000000002".

Definition two_days (dir : list string) : list string :=
  match dir with
  | [] => ["2026"]
  | [_] => ["01"]
  | [_; _] => ["30"; "02"]
  | [_; _; "02"] => [old_id]
  | [_; _; _] => [new_id]
  | _ => []
  end.

Definition newline : string := String "010" "".
Definition log_head (log : list string) : option (list byte) :=
  Some (bytes_of_string ("/src" +:+ newline +:+ (if bool_decide (log !! 2 = Some "02") then "pid 5" else "pid 9"))).

(** A conversation of months ago whose process had the number the pane's has now is the
    one that is found, and not the pane's own. *)
Theorem reused_pid_wins :
  map ms_id (scan_sessions_in two_days log_head) = [old_id; new_id] /\
  ms_id <$> find_session_for_pids two_days log_head "/src/" [700%Z] = Some old_id.
Proof. split; vm_compute; reflexivity. Qed.

(** A shell in which Muse runs gets a recording. *)
#[local] Existing Instance numbered.
Definition shell_meta : SessionMeta := mk_meta "a" "/src" Shell 5 None false false None 1.
Definition shell_files : gmap (string * string) (list byte) := {[session_path "a" := meta_text shell_meta]}.

