(* ===== verification/Cgroup.v ===== *)
(** * Containment of sessions

    [crates/amber/src/cgroup.rs]: where a session's control groups are, and what is done
    to them.  A validated path is the list of its components; an operation is a program
    ([Calls]) of the system calls it makes ([action]), each of which may answer anything. *)
From S2P Require Import Prelude Utf8 Calls.
From S2P Require Search Http.

Abbreviation text := (list Z).
Abbreviation path := (list string).

(** The name a piece of text is. *)
Definition name_of (t : text) : string := string_of_bytes (Http.as_bytes t).

Definition DAEMON_MEMORY_LOW_BYTES : Z := 128 * 1024 * 1024.
Definition DAEMON_CPU_WEIGHT : Z := 10000.
Definition FOREGROUND_CPU_WEIGHT : Z := 1000.
Definition BACKGROUND_CPU_WEIGHT : Z := 100.
Definition KILL_TIMEOUT : Z := 2000.
Definition KILL_POLL_INTERVAL : Z := 10.

Inductive CgroupRole := Supervisor | Workload.

Inductive IoError := E_not_found | E_exists | E_other (msg : string).

(** ** Paths *)

Inductive Component := RootDir | CurDir | ParentDir | Normal (name : string).

Definition component (segment : text) : option Component :=
  match segment with
  | [] | [46%Z] => None
  | [46%Z; 46%Z] => Some ParentDir
  | _ => Some (Normal (name_of segment))
  end.

(** [Path::components] *)
Definition components (p : text) : list Component :=
  match split_on 47 p with
  | [] :: rest => match p with [] => [] | _ => RootDir :: omap component rest end
  | [46%Z] :: rest => CurDir :: omap component rest
  | segments => omap component segments
  end.

Fixpoint normals (cs : list Component) : option path :=
  match cs with
  | [] => Some []
  | Normal n :: rest => cons n <$> normals rest
  | _ => None
  end.

Definition validate_absolute (p : text) : result path IoError :=
  match components p with
  | RootDir :: rest => match normals rest with Some ns => Ok ns | None => Err (E_other "unsafe cgroup path") end
  | _ => Err (E_other "unsafe cgroup path")
  end.

(** [strip_prefix] of a path. *)
Fixpoint strip_path (p prefix : path) : option path :=
  match prefix, p with
  | [], _ => Some p
  | x :: prefix, y :: p => if String.eqb x y then strip_path p prefix else None
  | _ :: _, [] => None
  end.

(** ** What the kernel says of this process *)

Definition octal (a b c : Z) : text := [92; a; b; c]%Z.

(** [str::replace] of an escape by one byte. *)
Fixpoint unescape (e : text) (by_ : Z) (fuel : nat) (l : text) : text :=
  match fuel, l with
  | S fuel, b :: rest =>
      if Search.starts_with l e then by_ :: unescape e by_ fuel (drop (length e) l) else b :: unescape e by_ fuel rest
  | _, _ => []
  end.

Definition replaced (e : text) (by_ : Z) (l : text) : text := unescape e by_ (length l) l.

Definition decode_proc_path (value : text) : text :=
  replaced (octal 49 51 52) 92 (replaced (octal 48 49 50) 10 (replaced (octal 48 49 49) 9 (replaced (octal 48 52 48) 32 value))).

(** [str::splitn(3, ':')] *)
Definition splitn3 (line : text) : text * option (text * option (text)) :=
  match Http.split_once 58 line with
  | None => (line, None)
  | Some (a, rest) =>
      match Http.split_once 58 rest with
      | None => (a, Some (rest, None))
      | Some (b, c) => (a, Some (b, Some c))
      end
  end.

Fixpoint unified_in (lines : list (text)) : result path IoError :=
  match lines with
  | [] => Err E_not_found
  | line :: rest =>
      match splitn3 line with
      | ([48%Z], Some ([], p)) => validate_absolute (default [] p)
      | _ => unified_in rest
      end
  end.

Definition parse_unified_path (body : text) : result path IoError := unified_in (Search.lines body).

Record CgroupMount := mk_mount { cm_root : path; cm_mount_point : path }.

(** [line.split_once(" - ")] *)
Fixpoint split_dash (l : text) : option (text * text) :=
  match l with
  | [] => None
  | b :: rest =>
      if Search.starts_with l [32; 45; 32]%Z then Some ([], drop 3 l)
      else match split_dash rest with Some (a, c) => Some (b :: a, c) | None => None end
  end.

Fixpoint mount_in (unified : path) (lines : list (text)) : result CgroupMount IoError :=
  match lines with
  | [] => Err E_not_found
  | line :: rest =>
      match split_dash line with
      | None => mount_in unified rest
      | Some (before, after) =>
          if negb (bool_decide (head (Search.split_whitespace after) = Some (bytes_of_string "cgroup2"))) then mount_in unified rest
          else match Search.split_whitespace before with
          | _ :: _ :: _ :: root :: mount_point :: _ =>
              root <-? validate_absolute (decode_proc_path root);
              mount_point <-? validate_absolute (decode_proc_path mount_point);
              match strip_path unified root with
              | None => mount_in unified rest
              | Some _ => Ok (mk_mount root mount_point)
              end
          | _ => mount_in unified rest
          end
      end
  end.

Definition parse_cgroup2_mount (body : text) (unified : path) : result CgroupMount IoError :=
  mount_in unified (Search.lines body).

Definition resolve_cgroup_path (mount : CgroupMount) (unified : path) : result path IoError :=
  match strip_path unified (cm_root mount) with
  | None => Err (E_other "unified cgroup is outside the cgroup2 mount root")
  | Some relative => Ok (cm_mount_point mount ++ relative)
  end.

(** ** Where a session is *)

Definition number (n : Z) : string := string_of_bytes (dec n).
Definition session_dir (slot : Z) : string := "session-" +:+ number slot.

Record SessionPaths := mk_paths { sp_parent : path; sp_supervisor : path; sp_workload : path }.

Definition session_paths (root : path) (slot : Z) : result SessionPaths IoError :=
  if (slot =? 0)%Z then Err (E_other "cgroup slot must be at least 1")
  else let parent := root ++ [session_dir slot] in
       Ok (mk_paths parent (parent ++ ["supervisor"]) (parent ++ ["workload"])).

(** The slot in a directory's name. *)
Definition slot_of (name : string) : option Z :=
  let bs := bytes_of_string name in
  if Search.starts_with bs (bytes_of_string "session-") then
    match parse_uint u32_max (drop 8 bs) with
    | Some slot => if (0 <? slot)%Z then Some slot else None
    | None => None
    end
  else None.

Definition parent_of (p : path) : option path := match p with [] => None | _ => Some (removelast p) end.

Definition service_root (current : path) : option path :=
  name ← last current;
  if bool_decide (name = "_daemon") then parent_of current
  else if bool_decide (name = "supervisor") || bool_decide (name = "workload") then
    session ← parent_of current;
    dir ← last session;
    _ ← slot_of dir;
    parent_of session
  else None.

Definition placement_target (current : path) (slot : Z) (role : CgroupRole) : option path :=
  root ← service_root current;
  match session_paths root slot with
  | Err _ => None
  | Ok paths => Some (match role with Supervisor => sp_supervisor paths | Workload => sp_workload paths end)
  end.

Definition workload_from_current (current : path) (slot : Z) : option path :=
  name ← last current;
  if negb (bool_decide (name = "supervisor")) then None
  else
    session ← parent_of current;
    dir ← last session;
    if negb (bool_decide (dir = session_dir slot)) then None else Some (session ++ ["workload"]).

(** ** Calls *)

(** What is listed of a directory: a name and what it names. *)
Inductive file_kind := K_dir | K_file | K_other.
Definition entry : Type := result (string * result file_kind IoError) IoError.

Inductive action :=
| A_read (p : path) (control : string)
| A_write (p : path) (control value : string)
| A_create_dir (p : path)
| A_remove_dir (p : path)
| A_remove_file (p : path)
| A_is_dir (p : path)
| A_exists (p : path)
| A_read_dir (p : path)
| A_kill (pid : Z)
| A_now
| A_sleep.

(** [E_not_found] of [A_kill] is [ESRCH]; an instant is in milliseconds. *)
Definition answer (a : action) : Type :=
  match a with
  | A_read _ _ => result text IoError
  | A_write _ _ _ | A_create_dir _ | A_remove_dir _ | A_remove_file _ | A_kill _ => result unit IoError
  | A_is_dir _ => result bool IoError
  | A_exists _ => bool
  | A_read_dir _ => result (list entry) IoError
  | A_now => Z
  | A_sleep => unit
  end.

Abbreviation prog := (Calls.prog answer).
Abbreviation io A := (prog (result A IoError)).

Definition write_control (p : path) (control value : string) : io unit := call (A_write p control value).

(** ** Reading controls *)

Definition number_in (value : text) : result Z IoError :=
  match parse_uint u64_max (trim value) with Some n => Ok n | None => Err (E_other "invalid value") end.

Definition read_u64_control (p : path) (control : string) : io Z :=
  value <~? call (A_read p control); pure (number_in value).

Definition read_finite_control (p : path) (control : string) : io (option Z) :=
  r <~ call (A_read p control);
  ret match r with
      | Err E_not_found => Ok None
      | Err e => Err e
      | Ok value => if bool_decide (trim value = bytes_of_string "max") then Ok None
                    else n <-? number_in value; Ok (Some n)
      end.

Fixpoint populated_in (lines : list text) : option bool :=
  match lines with
  | [] => None
  | line :: rest =>
      match Search.split_whitespace line with
      | w :: value => if bool_decide (w = bytes_of_string "populated") then Some (bool_decide (head value = Some [49%Z])) else populated_in rest
      | [] => populated_in rest
      end
  end.

Definition read_populated (p : path) : io bool :=
  r <~ call (A_read p "cgroup.events");
  match r with
  | Err E_not_found => there <~ call (A_exists p); ret (if there : bool then Err E_not_found else Ok false)
  | Err e => ret (Err e)
  | Ok body => ret match populated_in (Search.lines body) with
                   | Some b => Ok b
                   | None => Err (E_other "missing populated field")
                   end
  end.

(** ** Killing *)

(** [str::parse::<i32>] of a line of [cgroup.procs]. *)
Definition parse_pid (line : text) : option Z :=
  match trim line with
  | 45%Z :: 43%Z :: _ => None
  | 45%Z :: rest => Z.opp <$> parse_uint (2 ^ 31) rest
  | rest => parse_uint (2 ^ 31 - 1) rest
  end.

Definition pids_in (body : text) : list Z := omap parse_pid (Search.lines body).

(** Each is killed unless the deadline is past; [false] when it is. *)
Fixpoint kill_pids (deadline : Z) (pids : list Z) : io bool :=
  match pids with
  | [] => ret (Ok true)
  | pid :: rest =>
      now <~ call A_now;
      if (deadline <=? now)%Z then ret (Ok false) else
      r <~ call (A_kill pid);
      match r with
      | Ok _ | Err E_not_found => kill_pids deadline rest
      | Err e => ret (Err e)
      end
  end.

(** The directories of a listing, pushed. *)
Fixpoint push_dirs (deadline : Z) (p : path) (entries : list entry) (pending : list path) : io (option (list path)) :=
  match entries with
  | [] => ret (Ok (Some pending))
  | e :: rest =>
      now <~ call A_now;
      if (deadline <=? now)%Z then ret (Ok None) else
      e <~? pure e;
      kind <~? pure (snd e);
      push_dirs deadline p rest (match kind with K_dir => (p ++ [fst e]) :: pending | _ => pending end)
  end.

Fixpoint kill_all (fuel : nat) (deadline : Z) (pending : list path) : io bool :=
  match fuel, pending with
  | _, [] => now <~ call A_now; ret (Ok (now <? deadline)%Z)
  | O, _ => spin
  | S fuel, p :: pending =>
      now <~ call A_now;
      if (deadline <=? now)%Z then ret (Ok false) else
      procs <~ call (A_read p "cgroup.procs");
      killed <~? match procs with
                 | Ok body => kill_pids deadline (pids_in body)
                 | Err E_not_found => ret (Ok true)
                 | Err e => ret (Err e)
                 end;
      if negb killed then ret (Ok false) else
      entries <~? call (A_read_dir p);
      pending <~? push_dirs deadline p entries pending;
      match pending with None => ret (Ok false) | Some pending => kill_all fuel deadline pending end
  end.

Definition kill_all_pids (fuel : nat) (root : path) (deadline : Z) : io bool := kill_all fuel deadline [root].

Fixpoint kill_loop (fuel : nat) (target : path) (fallback : bool) (deadline : Z) (turns : nat) : io bool :=
  match turns with
  | O => spin
  | S turns =>
      killed <~? (if fallback then kill_all_pids fuel target deadline else ret (Ok true));
      if negb killed then ret (Ok false) else
      populated <~? read_populated target;
      if negb populated then ret (Ok true) else
      now <~ call A_now;
      if (deadline <=? now)%Z then ret (Ok false) else
      _ <~ call A_sleep;
      kill_loop fuel target fallback deadline turns
  end.

(** A turn sleeps for a 200th of the time there is. *)
Definition TURNS : nat := 202.

Definition kill_tree (fuel : nat) (target : path) : io bool :=
  there <~ call (A_exists target);
  if negb there then ret (Ok true) else
  w <~ write_control target "cgroup.kill" "1";
  match w with
  | Err E_not_found | Ok _ =>
      now <~ call A_now;
      kill_loop fuel target (negb (is_ok w)) (now + KILL_TIMEOUT) TURNS
  | Err e => ret (Err e)
  end.

(** ** The manager *)

(** [cg_high] is [session_high_bytes]; what it logs is left out. *)
Record CgroupManager := mk_manager {
  cg_root : option path; cg_mount_point : option path; cg_cpu_enabled : bool; cg_high : Z }.

Definition SESSION_HIGH_UNSET : Z := u64_max.

Definition disabled : CgroupManager := mk_manager None None false SESSION_HIGH_UNSET.

Definition set_session_high_kb (kb : Z) (m : CgroupManager) : CgroupManager :=
  mk_manager (cg_root m) (cg_mount_point m) (cg_cpu_enabled m) (sat_mul64 kb 1024).

Definition current_session_high_bytes (m : CgroupManager) : option Z :=
  if (cg_high m =? SESSION_HIGH_UNSET)%Z then None else Some (cg_high m).

Definition is_enabled (m : CgroupManager) : bool :=
  bool_decide (is_Some (cg_root m)) && bool_decide (is_Some (cg_mount_point m)).

(** The first error of two. *)
Definition first_error (e : option IoError) {A} (r : result A IoError) : option IoError :=
  match e, r with None, Err e => Some e | _, _ => e end.

Fixpoint reconcile_session_cpu_weights (root : path) (foreground : Z) (entries : list entry) (error : option IoError)
  : prog (option IoError) :=
  match entries with
  | [] => ret error
  | Err e :: rest => reconcile_session_cpu_weights root foreground rest (first_error error (@Err unit _ e))
  | Ok (name, _) :: rest =>
      match slot_of name with
      | None => reconcile_session_cpu_weights root foreground rest error
      | Some slot =>
          let weight := if (slot =? foreground)%Z then FOREGROUND_CPU_WEIGHT else BACKGROUND_CPU_WEIGHT in
          r <~ write_control (root ++ [name]) "cpu.weight" (number weight);
          reconcile_session_cpu_weights root foreground rest (first_error error r)
      end
  end.

(** The error it reports, if any. *)
Definition reconcile_cpu_weights (m : CgroupManager) (foreground : Z) : prog (option IoError) :=
  match cg_cpu_enabled m, cg_root m with
  | true, Some root =>
      r <~ write_control (root ++ ["_daemon"]) "cpu.weight" (number DAEMON_CPU_WEIGHT);
      let error := first_error None r in
      entries <~ call (A_read_dir root);
      match entries with
      | Ok entries =>
          e <~ reconcile_session_cpu_weights root foreground entries None;
          ret (match error with None => e | _ => error end)
      | Err e => ret (first_error error (@Err unit _ e))
      end
  | _, _ => ret None
  end.

(** The directories of a listing, pushed; a file is removed unless it is the kernel's. *)
Fixpoint push_children (mounted : bool) (p : path) (entries : list entry) (pending : list (path * bool)) : io (list (path * bool)) :=
  match entries with
  | [] => ret (Ok pending)
  | e :: rest =>
      e <~? pure e;
      kind <~? pure (snd e);
      match kind, mounted with
      | K_dir, _ => push_children mounted p rest ((p ++ [fst e], false) :: pending)
      | K_file, false => call (A_remove_file (p ++ [fst e])) ;~? push_children mounted p rest pending
      | _, _ => push_children mounted p rest pending
      end
  end.

Fixpoint remove_all (fuel : nat) (mounted : bool) (pending : list (path * bool)) : io unit :=
  match fuel, pending with
  | _, [] => ret (Ok tt)
  | O, _ => spin
  | S fuel, (p, true) :: pending =>
      r <~ call (A_remove_dir p);
      match r with
      | Ok _ | Err E_not_found => remove_all fuel mounted pending
      | Err e => ret (Err e)
      end
  | S fuel, (p, false) :: pending =>
      is_dir <~ call (A_is_dir p);
      match is_dir with
      | Err E_not_found => remove_all fuel mounted pending
      | Err e => ret (Err e)
      | Ok is_dir =>
          if negb is_dir then ret (Err (E_other "expected a cgroup directory")) else
          entries <~ call (A_read_dir p);
          match entries with
          | Err E_not_found => remove_all fuel mounted pending
          | Err e => ret (Err e)
          | Ok entries => pending <~? push_children mounted p entries ((p, true) :: pending); remove_all fuel mounted pending
          end
      end
  end.

(** An operation on a slot's directories, when there is containment. *)
Definition at_slot {A} (m : CgroupManager) (slot : Z) (none : A) (k : SessionPaths -> io A) : io A :=
  match cg_root m with
  | None => ret (Ok none)
  | Some root => paths <~? pure (session_paths root slot); k paths
  end.

Definition remove_session (fuel : nat) (m : CgroupManager) (slot : Z) : io unit :=
  at_slot m slot tt (fun paths => remove_all fuel (bool_decide (is_Some (cg_mount_point m))) [(sp_parent paths, false)]).

Definition kill_workload (fuel : nat) (m : CgroupManager) (slot : Z) : io bool :=
  match cg_mount_point m with
  | None => ret (Ok false)
  | Some _ => at_slot m slot false (fun paths => kill_tree fuel (sp_workload paths))
  end.

Definition kill_session (fuel : nat) (m : CgroupManager) (slot : Z) : io bool :=
  match cg_mount_point m with
  | None => ret (Ok false)
  | Some _ => at_slot m slot false (fun paths => kill_tree fuel (sp_parent paths))
  end.

Definition create_session (paths : SessionPaths) (high : Z) : io unit :=
  call (A_create_dir (sp_parent paths)) ;~?
  call (A_create_dir (sp_supervisor paths)) ;~?
  call (A_create_dir (sp_workload paths)) ;~?
  write_control (sp_parent paths) "cgroup.subtree_control" "+memory" ;~?
  write_control (sp_parent paths) "memory.high" (number high).

Definition fake_events : string := "populated 0" +:+ String "010" "".

(** The files of a directory that is not a control group. *)
Definition fake_group (p : path) : io unit :=
  call (A_create_dir p) ;~?
  call (A_write p "cgroup.procs" "") ;~?
  call (A_write p "cgroup.events" fake_events).

Definition fake_session (m : CgroupManager) (paths : SessionPaths) : io unit :=
  fake_group (sp_parent paths) ;~?
  fake_group (sp_supervisor paths) ;~?
  fake_group (sp_workload paths) ;~?
  call (A_write (sp_parent paths) "cgroup.subtree_control" "+memory") ;~?
  call (A_write (sp_parent paths) "memory.high" "0") ;~?
  if cg_cpu_enabled m then call (A_write (sp_parent paths) "cpu.weight" "") else ret (Ok tt).

Definition prepare_session (fuel : nat) (m : CgroupManager) (slot : Z) : io unit :=
  match cg_root m, cg_mount_point m with
  | None, _ => ret (Ok tt)
  | Some root, None =>
      paths <~? pure (session_paths root slot);
      remove_session fuel m slot ;~? fake_session m paths
  | Some root, Some _ =>
      match current_session_high_bytes m with
      | None => ret (Err (E_other "session memory.high is not configured"))
      | Some high =>
          paths <~? pure (session_paths root slot);
          there <~ call (A_exists (sp_parent paths));
          (if there : bool then
             dead <~? kill_session fuel m slot;
             if negb dead then ret (Err (E_other "cgroup stayed populated")) else remove_session fuel m slot
           else ret (Ok tt)) ;~?
          r <~ create_session paths high;
          match r with
          | Ok _ => ret r
          | Err _ => _ <~ remove_session fuel m slot; ret r
          end
      end
  end.

Definition read_current_kb (p : path) : io (option Z) :=
  r <~ read_u64_control p "memory.current";
  ret match r with Ok bytes => Ok (Some (bytes / 1024)%Z) | Err E_not_found => Ok None | Err e => Err e end.

Definition aggregate_current_kb (m : CgroupManager) : io (option Z) :=
  match cg_root m with None => ret (Ok None) | Some root => read_current_kb root end.

Definition session_current_kb (m : CgroupManager) (slot : Z) : io (option Z) :=
  at_slot m slot None (fun paths => read_current_kb (sp_parent paths)).

Definition rewrite_session_high (m : CgroupManager) (slot : Z) : io bool :=
  match cg_root m, current_session_high_bytes m with
  | Some root, Some high =>
      paths <~? pure (session_paths root slot);
      there <~ call (A_exists (sp_parent paths ++ ["cgroup.procs"]));
      if negb there then ret (Ok false) else
      write_control (sp_parent paths) "memory.high" (number high) ;~? ret (Ok true)
  | _, _ => ret (Ok false)
  end.

(** [Path::ancestors], nearest first. *)
Fixpoint ancestors_of (rev : list string) : list path :=
  reverse rev :: match rev with [] => [] | _ :: up => ancestors_of up end.
Definition ancestors (p : path) : list path := ancestors_of (reverse p).

Definition lower (lowest : option Z) (bytes : option Z) : option Z :=
  match lowest, bytes with Some l, Some b => Some (Z.min l b) | None, b => b | l, None => l end.

Fixpoint lowest_of (mount_point : path) (ps : list path) (lowest : option Z) : io (option Z) :=
  match ps with
  | [] => ret (Ok lowest)
  | p :: rest =>
      high <~? read_finite_control p "memory.high";
      max <~? read_finite_control p "memory.max";
      let lowest := lower (lower lowest high) max in
      if bool_decide (p = mount_point) then ret (Ok lowest) else lowest_of mount_point rest lowest
  end.

Definition lowest_finite_limit_kb (m : CgroupManager) : io (option Z) :=
  match cg_root m with
  | None => ret (Ok None)
  | Some root =>
      match cg_mount_point m with
      | None => ret (Err (E_other "missing cgroup2 mount boundary"))
      | Some mount_point =>
          if negb (bool_decide (is_Some (strip_path root mount_point)))
          then ret (Err (E_other "cgroup root is outside its mount point"))
          else lowest <~? lowest_of mount_point (ancestors root) None;
               ret (Ok ((fun bytes => bytes / 1024)%Z <$> lowest))
      end
  end.

(** What is undone when the controllers cannot be delegated. *)
Definition roll_back (root : path) (pid : string) (e : IoError) : io CgroupManager :=
  _ <~ write_control root "cgroup.procs" pid;
  _ <~ call (A_remove_dir (root ++ ["_daemon"]));
  ret (Err e).

Definition offers (controllers : text) (name : string) : bool :=
  existsb (fun w => bool_decide (w = bytes_of_string name)) (Search.split_whitespace controllers).

Definition activate_at (root mount_point : path) (pid : string) : io CgroupManager :=
  controllers <~? call (A_read root "cgroup.controllers");
  if negb (offers controllers "memory") then ret (Err (E_other "delegated cgroup has no memory controller")) else
  let daemon := root ++ ["_daemon"] in
  made <~ call (A_create_dir daemon);
  match made with
  | Err ((E_not_found | E_other _) as e) => ret (Err e)
  | Ok _ | Err E_exists =>
      write_control daemon "cgroup.procs" pid ;~?
      let finish cpu_enabled :=
        _ <~ write_control daemon "memory.low" (number DAEMON_MEMORY_LOW_BYTES);
        let m := mk_manager (Some root) (Some mount_point) cpu_enabled SESSION_HIGH_UNSET in
        _ <~ reconcile_cpu_weights m 0;
        ret (Ok m) in
      let memory_only :=
        r <~ write_control root "cgroup.subtree_control" "+memory";
        match r with Ok _ => finish false | Err e => roll_back root pid e end in
      if offers controllers "cpu" then
        both <~ write_control root "cgroup.subtree_control" "+cpu +memory";
        match both with Ok _ => finish true | Err _ => memory_only end
      else memory_only
  end.

(** ** From inside a process *)

Definition proc_self : path := ["proc"; "self"].

Definition activate_linux (pid : string) : io CgroupManager :=
  unified <~? try_ (call (A_read proc_self "cgroup")) (fun body => pure (parse_unified_path body));
  mount <~? try_ (call (A_read proc_self "mountinfo")) (fun body => pure (parse_cgroup2_mount body unified));
  root <~? pure (resolve_cgroup_path mount unified);
  activate_at root (cm_mount_point mount) pid.

Definition activate (pid : string) : prog CgroupManager :=
  r <~ activate_linux pid; ret (match r with Ok m => m | Err _ => disabled end).

Definition place_current (slot : Z) (role : CgroupRole) : io unit :=
  unified <~? try_ (call (A_read proc_self "cgroup")) (fun body => pure (parse_unified_path body));
  mount <~? try_ (call (A_read proc_self "mountinfo")) (fun body => pure (parse_cgroup2_mount body unified));
  current <~? pure (resolve_cgroup_path mount unified);
  match placement_target current slot role with
  | None => ret (Ok tt)
  | Some target =>
      is_dir <~ call (A_is_dir target);
      match is_dir with
      | Ok true => write_control target "cgroup.procs" "0"
      | _ => ret (Err E_not_found)
      end
  end.

(** What a group that is not there is to one that asks about it. *)
Definition or_none {A B} (r : result A IoError) (k : A -> io (option B)) : io (option B) :=
  match r with Ok a => k a | Err E_not_found => ret (Ok None) | Err e => ret (Err e) end.

Definition kill_workload_from_current (fuel : nat) (slot : Z) : io (option bool) :=
  cgroup <~? call (A_read proc_self "cgroup");
  or_none (parse_unified_path cgroup) (fun unified =>
  mountinfo <~? call (A_read proc_self "mountinfo");
  or_none (parse_cgroup2_mount mountinfo unified) (fun mount =>
  current <~? pure (resolve_cgroup_path mount unified);
  match workload_from_current current slot with
  | None => ret (Ok None)
  | Some workload => killed <~? kill_tree fuel workload; ret (Ok (Some killed))
  end)).

(** ** Containment *)

(** Every call is at or under a directory, and only processes listed there are killed. *)
Definition confined (p : path) (a : action) (seen : list Z) : (answer a -> list Z -> Prop) -> Prop :=
  match a with
  | A_read q control => fun Q => p `prefix_of` q /\ forall r : result text IoError,
      Q r (match r with Ok body => if bool_decide (control = "cgroup.procs") then pids_in body ++ seen else seen | Err _ => seen end)
  | A_write q _ _ => fun Q => p `prefix_of` q /\ forall r, Q r seen
  | A_create_dir q => fun Q => p `prefix_of` q /\ forall r, Q r seen
  | A_remove_dir q => fun Q => p `prefix_of` q /\ forall r, Q r seen
  | A_remove_file q => fun Q => p `prefix_of` q /\ forall r, Q r seen
  | A_is_dir q => fun Q => p `prefix_of` q /\ forall r, Q r seen
  | A_exists q => fun Q => p `prefix_of` q /\ forall r, Q r seen
  | A_read_dir q => fun Q => p `prefix_of` q /\ forall r, Q r seen
  | A_kill pid => fun Q => pid ∈ seen /\ forall r, Q r seen
  | A_now | A_sleep => fun Q => forall r, Q r seen
  end.

Lemma confined_mono p a seen (Q Q' : answer a -> list Z -> Prop) :
  (forall r s, Q r s -> Q' r s) -> confined p a seen Q -> confined p a seen Q'.
Proof. intros HQ. destruct a; simpl; try (intros [Hp Hq]; split; [done|]; intros r; by apply HQ, Hq); intros Hq r; by apply HQ, Hq. Qed.

(** Contained whatever its calls answer, and whatever was listed before. *)
Definition contained {A} (p : path) (m : prog A) : Prop := forall seen, wp (confined p) True m seen (fun _ _ => True).

Section Contained.
Context (p : path).

Lemma contained_bind {A B} (m : prog A) (k : A -> prog B) : contained p m -> (forall a, contained p (k a)) -> contained p (pbind m k).
Proof.
  intros Hm Hk seen. apply (prog_bind _ _ (confined_mono p)).
  eapply (prog_mono _ _ (confined_mono p)); [|apply Hm]. intros a s _. apply Hk.
Qed.

Lemma contained_try {A B} (m : io A) (k : A -> io B) : contained p m -> (forall a, contained p (k a)) -> contained p (try_ m k).
Proof. intros Hm Hk. apply contained_bind; [done|]. by intros [a|e]. Qed.

Lemma contained_ret {A} (a : A) : contained p (ret a). Proof. by intros seen. Qed.
Lemma contained_spin {A} : contained p (spin : prog A). Proof. by intros seen. Qed.

Lemma contained_call a :
  match a with
  | A_read q _ | A_write q _ _ | A_create_dir q | A_remove_dir q | A_remove_file q | A_is_dir q | A_exists q | A_read_dir q => p `prefix_of` q
  | A_kill _ => False
  | _ => True
  end -> contained p (call a).
Proof. intros Ha seen. by destruct a. Qed.

Create HintDb contained.
Hint Resolve contained_ret contained_spin : contained.
Hint Extern 4 (contained _ (call _)) => apply contained_call : contained.

Lemma under q n : p `prefix_of` q -> p `prefix_of` q ++ n. Proof. apply prefix_app_r. Qed.
Hint Resolve under : contained.

Ltac contain :=
  repeat first
    [ by eauto with contained
    | apply contained_bind; [|intros ?]
    | apply contained_try; [|intros ?]
    | match goal with |- contained _ (match ?x with _ => _ end) => destruct x end
    | match goal with |- contained _ (if ?x then _ else _) => destruct x end ].

(** Processes that were listed may be killed. *)
Lemma contained_kill_pids deadline pids seen :
  pids ⊆ seen -> wp (confined p) True (kill_pids deadline pids) seen (fun _ _ => True).
Proof.
  induction pids as [|pid pids IH]; intros Hs; simpl; [done|]. intros now. destruct (deadline <=? now)%Z; [done|].
  simpl. split; [set_solver|]. intros [[]|[]]; simpl; try done; apply IH; set_solver.
Qed.

Lemma contained_push deadline q entries pending :
  p `prefix_of` q -> Forall (fun x => p `prefix_of` x) pending ->
  forall seen, wp (confined p) True (push_dirs deadline q entries pending) seen
    (fun r _ => match r with Ok (Some ps) => Forall (fun x => p `prefix_of` x) ps | _ => True end).
Proof.
  intros Hq. revert pending. induction entries as [|e entries IH]; intros pending Hp seen; simpl; [done|].
  intros now. destruct (deadline <=? now)%Z; [done|]. destruct e as [[n [[]|e]]|e]; simpl; try done; apply IH; auto using under.
Qed.

Lemma contained_kill_all fuel deadline pending :
  Forall (fun q => p `prefix_of` q) pending -> contained p (kill_all fuel deadline pending).
Proof.
  revert pending. induction fuel as [|fuel IH]; intros [|q pending] Hp; try by intros seen; simpl.
  apply Forall_cons in Hp as [Hq Hp]. intros seen. simpl. intros now. destruct (deadline <=? now)%Z; [done|].
  simpl. split; [done|]. intros procs.
  apply (prog_try _ _ (confined_mono p)). eapply (prog_mono _ _ (confined_mono p) _ _ (fun _ _ => True)).
  2:{ destruct procs as [body|[]]; try done. apply contained_kill_pids. set_solver. }
  intros [[]|e] s' _; try done. simpl. split; [done|]. intros [entries|e]; [|done]. simpl.
  apply (prog_try _ _ (confined_mono p)). eapply (prog_mono _ _ (confined_mono p)); [|by apply contained_push].
  intros [[ps|]|e] s'' Hps; [by apply IH|done..].
Qed.

Lemma contained_loop fuel q fallback deadline turns : p `prefix_of` q -> contained p (kill_loop fuel q fallback deadline turns).
Proof.
  intros Hq. induction turns as [|turns IH]; simpl; [auto with contained|].
  apply contained_try; [destruct fallback; [apply contained_kill_all; by constructor|auto with contained]|]. intros killed.
  unfold read_populated. contain.
  intros seen now. simpl. destruct (deadline <=? now)%Z; [done|]. intros []. apply IH.
Qed.

Lemma contained_kill fuel q : p `prefix_of` q -> contained p (kill_tree fuel q).
Proof.
  intros Hq. apply contained_bind; [by apply contained_call|]. intros []; [|apply contained_ret].
  apply contained_bind; [by apply contained_call|].
  intros [?|[]]; try apply contained_ret; (apply contained_bind; [by apply contained_call|intros; by apply contained_loop]).
Qed.

Lemma contained_push_children mounted q entries pending :
  p `prefix_of` q -> Forall (fun x => p `prefix_of` x.1) pending ->
  forall seen, wp (confined p) True (push_children mounted q entries pending) seen
    (fun r _ => match r with Ok ps => Forall (fun x => p `prefix_of` x.1) ps | _ => True end).
Proof.
  intros Hq. revert pending. induction entries as [|e entries IH]; intros pending Hp seen; simpl; [done|].
  destruct e as [[n [[]|e]]|e]; simpl; try done; try by apply IH.
  - apply IH. constructor; [by apply under|done].
  - destruct mounted; [by apply IH|]. simpl. split; [by apply under|]. intros [[]|e]; [by apply IH|done].
Qed.

Lemma contained_remove_all fuel mounted pending :
  Forall (fun x => p `prefix_of` x.1) pending -> contained p (remove_all fuel mounted pending).
Proof.
  revert pending. induction fuel as [|fuel IH]; intros [|[q []] pending] Hp; try by intros seen; simpl.
  - apply Forall_cons in Hp as [Hq Hp]. intros seen. simpl. split; [done|]. intros [[]|[]]; try done; by apply IH.
  - apply Forall_cons in Hp as [Hq Hp]. intros seen. simpl. split; [done|]. intros [[]|[]]; try done; [|by apply IH].
    simpl. split; [done|]. intros [entries|[]]; try done; [|by apply IH]. cbv beta iota.
    apply (prog_try _ _ (confined_mono p)).
    eapply (prog_mono _ _ (confined_mono p)); [|apply contained_push_children; [done|by constructor]].
    intros [ps|e] s Hps; [by apply IH|done].
Qed.

Lemma contained_current q : p `prefix_of` q -> contained p (read_current_kb q).
Proof.
  intros Hq. apply contained_bind; [|intros; apply contained_ret].
  apply contained_try; [by apply contained_call|]. intros. apply contained_ret.
Qed.
Hint Resolve contained_kill contained_current : contained.

Lemma contained_slot {A} m slot (none : A) k :
  (forall root, cg_root m = Some root -> forall paths, session_paths root slot = Ok paths -> contained p (k paths)) ->
  contained p (at_slot m slot none k).
Proof.
  intros Hk. unfold at_slot, pure. destruct (cg_root m) as [root|]; [|apply contained_ret].
  destruct (session_paths root slot) as [paths|e] eqn:E; [|by intros seen]. intros seen. by eapply Hk.
Qed.
End Contained.

(** The directory of a slot. *)
Definition slot_dir (m : CgroupManager) (slot : Z) : path := default [] (cg_root m) ++ [session_dir slot].

Lemma paths_in root slot paths :
  session_paths root slot = Ok paths ->
  paths = mk_paths (root ++ [session_dir slot]) (root ++ [session_dir slot; "supervisor"]) (root ++ [session_dir slot; "workload"]).
Proof. unfold session_paths. destruct (slot =? 0)%Z; [done|]. intros [= <-]. by rewrite <- !app_assoc. Qed.

Lemma contained_remove fuel m slot : contained (slot_dir m slot) (remove_session fuel m slot).
Proof.
  apply contained_slot. intros root Hr paths ->%paths_in. apply contained_remove_all. constructor; [|done].
  unfold slot_dir. by rewrite Hr.
Qed.

Lemma contained_kill_session fuel m slot : contained (slot_dir m slot) (kill_session fuel m slot).
Proof.
  unfold kill_session. destruct (cg_mount_point m); [|apply contained_ret]. apply contained_slot. intros root Hr paths ->%paths_in.
  apply contained_kill. unfold slot_dir. by rewrite Hr.
Qed.

Lemma contained_kill_workload fuel m slot : contained (slot_dir m slot ++ ["workload"]) (kill_workload fuel m slot).
Proof.
  unfold kill_workload. destruct (cg_mount_point m); [|apply contained_ret]. apply contained_slot. intros root Hr paths ->%paths_in.
  apply contained_kill. unfold slot_dir. by rewrite Hr, <- app_assoc.
Qed.

(** A sequence of calls under a directory. *)
Ltac calls := repeat (apply contained_try; [apply contained_call|intros _]); try apply contained_call; simpl; auto using prefix_app_r.

Lemma contained_create p paths high :
  p `prefix_of` sp_parent paths -> p `prefix_of` sp_supervisor paths -> p `prefix_of` sp_workload paths ->
  contained p (create_session paths high).
Proof. intros. unfold create_session, write_control. calls. Qed.

Lemma contained_fake_group p q : p `prefix_of` q -> contained p (fake_group q).
Proof. intros. unfold fake_group. calls. Qed.

Lemma contained_fake p m paths :
  p `prefix_of` sp_parent paths -> p `prefix_of` sp_supervisor paths -> p `prefix_of` sp_workload paths ->
  contained p (fake_session m paths).
Proof.
  intros. unfold fake_session. do 3 (apply contained_try; [by apply contained_fake_group|intros _]).
  destruct (cg_cpu_enabled m); calls. apply contained_ret.
Qed.

Lemma contained_prepare fuel m slot : contained (slot_dir m slot) (prepare_session fuel m slot).
Proof.
  unfold prepare_session. destruct (cg_root m) as [root|] eqn:Hr; [|apply contained_ret].
  assert (Hd : slot_dir m slot = root ++ [session_dir slot]) by (unfold slot_dir; by rewrite Hr).
  assert (Hin : forall sub, slot_dir m slot `prefix_of` root ++ session_dir slot :: sub).
  { intros sub. rewrite Hd. exists sub. by rewrite <- app_assoc. }
  destruct (session_paths root slot) as [paths|e] eqn:E; cycle 1.
  { destruct (cg_mount_point m); [destruct (current_session_high_bytes m)|]; rewrite ?try_err; apply contained_ret. }
  apply paths_in in E as ->.
  destruct (cg_mount_point m) as [mp|]; [destruct (current_session_high_bytes m) as [high|]; [|apply contained_ret]|];
    rewrite try_ok.
  - apply contained_bind; [apply contained_call; apply Hin|]. intros there. apply contained_try; [|intros _].
    + destruct there; [|apply contained_ret]. apply contained_try; [apply contained_kill_session|]. intros [].
      * apply contained_remove.
      * apply contained_ret.
    + apply contained_bind; [apply contained_create; apply Hin|]. intros [[]|e]; [apply contained_ret|].
      apply contained_bind; [apply contained_remove|]. intros r. apply contained_ret.
  - apply contained_try; [apply contained_remove|]. intros _. apply contained_fake; apply Hin.
Qed.

Lemma contained_rewrite m slot : contained (slot_dir m slot) (rewrite_session_high m slot).
Proof.
  unfold rewrite_session_high. destruct (cg_root m) as [root|] eqn:Hr; [|apply contained_ret].
  destruct (current_session_high_bytes m) as [high|]; [|apply contained_ret]. unfold pure.
  destruct (session_paths root slot) as [paths|e] eqn:E; [|by intros seen]. apply paths_in in E as ->.
  assert (Hd : slot_dir m slot = root ++ [session_dir slot]) by (unfold slot_dir; by rewrite Hr).
  intros seen. simpl. rewrite Hd. split; [by apply prefix_app_r|]. intros []; simpl; [|done]. split; [done|]. by intros [].
Qed.

Lemma contained_session_current m slot : contained (slot_dir m slot) (session_current_kb m slot).
Proof.
  apply contained_slot. intros root Hr paths ->%paths_in. apply contained_current. unfold slot_dir. by rewrite Hr.
Qed.

(** A slot is what its directory's name says. *)
Lemma slot_of_dir slot : (0 < slot <= u32_max)%Z -> slot_of (session_dir slot) = Some slot.
Proof.
  intros Hs. unfold slot_of, session_dir. rewrite bytes_of_string_app. simpl. unfold number.
  rewrite bytes_of_string_of_bytes.
  2:{ eapply Forall_impl; [apply dec_digits; lia|]. intros b Hb. unfold is_digit in Hb. unfold is_byte. lia. }
  rewrite drop_0. replace (Search.starts_with (dec slot) []) with true by (by destruct (dec slot)). rewrite parse_uint_dec by (unfold u32_max, u64_max in *; lia). by rewrite (proj2 (Z.ltb_lt 0 slot)) by lia.
Qed.

(** Nothing is both a slot's and another's. *)
Lemma slots_apart m slot slot' q :
  (0 < slot <= u32_max)%Z -> (0 < slot' <= u32_max)%Z ->
  slot_dir m slot `prefix_of` q -> slot_dir m slot' `prefix_of` q -> slot = slot'.
Proof.
  intros Hs Hs' [k ->] [k' Hq]. unfold slot_dir in Hq. rewrite <- !app_assoc in Hq. apply app_inv_head in Hq.
  apply (f_equal (fun l => head l ≫= slot_of)) in Hq. cbn [app head mbind option_bind] in Hq.
  rewrite !slot_of_dir in Hq by done. by injection Hq.
Qed.

(** C22. What is done for a session is done in its own directory: whatever the system
    answers, preparing, removing, killing and reading a session, and moving its limit,
    touch nothing outside [session-<slot>] and kill only processes listed inside it, and
    killing its workload touches and kills only in [workload], so the supervisor beside
    it survives; and no path is in the directories of two slots. *)
Theorem session_contained fuel m slot :
  (0 < slot <= u32_max)%Z ->
  let dir := slot_dir m slot in
  contained dir (prepare_session fuel m slot) /\ contained dir (remove_session fuel m slot) /\
  contained dir (kill_session fuel m slot) /\ contained dir (session_current_kb m slot) /\
  contained dir (rewrite_session_high m slot) /\
  contained (dir ++ ["workload"]) (kill_workload fuel m slot) /\
  forall slot' q, (0 < slot' <= u32_max)%Z -> slot <> slot' -> dir `prefix_of` q -> ~ slot_dir m slot' `prefix_of` q.
Proof.
  intros Hs dir. split; [apply contained_prepare|]. split; [apply contained_remove|]. split; [apply contained_kill_session|].
  split; [apply contained_session_current|]. split; [apply contained_rewrite|]. split; [apply contained_kill_workload|].
  intros slot' q Hs' Hne Hq Hq'. by eapply Hne, slots_apart.
Qed.

(** ** Placement *)

Lemma parent_last (p up : path) (n : string) : last p = Some n -> parent_of p = Some up -> p = up ++ [n].
Proof.
  destruct p as [|x p] using rev_ind; [done|]. rewrite last_snoc. intros [= ->]. unfold parent_of.
  destruct (p ++ [n]) eqn:E; [by destruct p|]. rewrite <- E. intros [= <-]. by rewrite removelast_last.
Qed.

(** Where the groups of a service are, as seen from one of its processes. *)
Lemma service_root_sound current root :
  service_root current = Some root ->
  current = root ++ ["_daemon"] \/
  exists dir k role, current = root ++ [dir; role] /\ slot_of dir = Some k /\ (role = "supervisor" \/ role = "workload").
Proof.
  unfold service_root. destruct (last current) as [name|] eqn:El; [|done]. simpl.
  case_bool_decide as Hd; [subst; intros Hp; left; by apply parent_last|].
  destruct (bool_decide (name = "supervisor") || bool_decide (name = "workload")) eqn:Hr; [|done].
  destruct (parent_of current) as [session|] eqn:Es; [|done]. simpl.
  destruct (last session) as [dir|] eqn:Ed; [|done]. simpl. destruct (slot_of dir) as [k|] eqn:Ek; [|done]. simpl.
  intros Hp. right. exists dir, k, name. split; [|split; [done|]].
  - rewrite (parent_last _ _ _ El Es), (parent_last _ _ _ Ed Hp). by rewrite <- app_assoc.
  - apply orb_true_iff in Hr as [Hr|Hr]; apply bool_decide_eq_true in Hr; auto.
Qed.

(** A launcher is placed in its own slot's group of the service it is in, and only from
    inside the daemon's group or a session's. *)
Theorem placement_stays current slot role target :
  placement_target current slot role = Some target ->
  exists root, service_root current = Some root /\ (slot <> 0)%Z /\
    target = root ++ [session_dir slot; match role with Supervisor => "supervisor" | Workload => "workload" end].
Proof.
  unfold placement_target. destruct (service_root current) as [root|]; [|done]. simpl.
  unfold session_paths. destruct (Z.eqb_spec slot 0); [done|]. intros [= <-]. exists root. split; [done|split; [done|]].
  destruct role; simpl; by rewrite <- app_assoc.
Qed.

(** ** Removing a session *)

(** The name of a directory in a listing. *)
Definition dir_name (e : entry) : option string :=
  match e with Ok (n, Ok K_dir) => Some n | _ => None end.

Definition readable (e : entry) : Prop := match e with Ok (_, Ok _) => True | _ => False end.

(** A listing of [p] when the directories are [fs]: the directories in it, in any order,
    and any files. *)
Definition listing (fs : gset path) (p : path) (entries : list entry) : Prop :=
  Forall readable entries /\ NoDup (omap dir_name entries) /\
  forall n, n ∈ omap dir_name entries <-> p ++ [n] ∈ fs.

(** Empty control groups: a directory with one inside it cannot be removed. *)
Definition live (a : action) (fs : gset path) : (answer a -> gset path -> Prop) -> Prop :=
  match a with
  | A_is_dir q => fun Q => Q (if bool_decide (q ∈ fs) then Ok true else Err E_not_found) fs
  | A_read_dir q => fun Q =>
      if bool_decide (q ∈ fs) then forall entries, listing fs q entries -> Q (Ok entries) fs else Q (Err E_not_found) fs
  | A_remove_dir q => fun Q =>
      if negb (bool_decide (q ∈ fs)) then Q (Err E_not_found) fs
      else if bool_decide (set_Exists (fun r => r <> q /\ q `prefix_of` r) fs) then Q (Err (E_other "busy")) fs
      else Q (Ok tt) (fs ∖ {[q]})
  | A_remove_file _ => fun Q => Q (Ok tt) fs
  | _ => fun Q => forall r, Q r fs
  end.

(** What is at or under a path, and the rest. *)
Definition subtree (fs : gset path) (p : path) : gset path := filter (fun q => p `prefix_of` q) fs.

(** What is at or under one of the directories [ns] of [p]. *)
Definition below (fs : gset path) (p : path) (ns : list string) : gset path :=
  filter (fun q => Exists (fun n => p ++ [n] `prefix_of` q) ns) fs.

Lemma elem_subtree fs p q : q ∈ subtree fs p <-> p `prefix_of` q /\ q ∈ fs.
Proof. apply elem_of_filter. Qed.

Lemma elem_below fs p ns q : q ∈ below fs p ns <-> (exists n, n ∈ ns /\ p ++ [n] `prefix_of` q) /\ q ∈ fs.
Proof. unfold below. by rewrite elem_of_filter, Exists_exists. Qed.

(** Paths in two children are in one of them. *)
Lemma child_of (p : path) n n' q : p ++ [n] `prefix_of` q -> p ++ [n'] `prefix_of` q -> n = n'.
Proof. intros [k ->] [k' Hq]. rewrite <- !app_assoc in Hq. apply app_inv_head in Hq. by injection Hq. Qed.

(** Removing one child first. *)
Lemma below_cons fs p n ns :
  n ∉ ns ->
  size (below fs p (n :: ns)) = size (subtree fs (p ++ [n])) + size (below (fs ∖ subtree fs (p ++ [n])) p ns) /\
  fs ∖ below fs p (n :: ns) = fs ∖ subtree fs (p ++ [n]) ∖ below (fs ∖ subtree fs (p ++ [n])) p ns.
Proof.
  intros Hn.
  assert (Hb : below fs p (n :: ns) = subtree fs (p ++ [n]) ∪ below (fs ∖ subtree fs (p ++ [n])) p ns).
  { apply set_eq. intros q. rewrite elem_of_union, !elem_below, elem_of_difference, elem_subtree. split.
    - intros [[m [Hm Hq]] Hfs]. destruct (decide (p ++ [n] `prefix_of` q)) as [Hp|Hp]; [by left|]. right.
      apply list_elem_of_In in Hm. destruct Hm as [->|Hm]; [done|]. apply list_elem_of_In in Hm. naive_solver.
    - intros [[Hp Hq]|[[m [Hm Hp]] [Hq _]]]; (split; [|done]); [exists n|exists m]; (split; [set_solver|done]). }
  split; [|rewrite Hb; set_solver].
  rewrite Hb. apply size_union. intros q. rewrite elem_subtree, elem_below, elem_of_difference, elem_subtree. naive_solver.
Qed.

Section Remove.
Context (top : path) (mounted : bool).

(** Every directory above one, from [top] down, is there. *)
Definition rooted (fs : gset path) : Prop := forall q n, top `prefix_of` q -> q ++ [n] ∈ fs -> q ∈ fs.

Lemma rooted_without fs q : rooted fs -> rooted (fs ∖ subtree fs q).
Proof.
  intros Hr r n Ht. rewrite !elem_of_difference, !elem_subtree. intros [Hfs Hq]. split; [by eapply Hr|].
  intros [Hp _]. apply Hq. split; [by apply prefix_app_r|done].
Qed.

Lemma rooted_up fs q k : rooted fs -> top `prefix_of` q -> q ++ k ∈ fs -> q ∈ fs.
Proof.
  intros Hr Ht. induction k as [|n k IH] using rev_ind; [by rewrite app_nil_r|]. rewrite app_assoc. intros Hk. apply IH.
  eapply Hr; [|done]. by apply prefix_app_r.
Qed.

(** A directory is its own and its children's. *)
Lemma subtree_below fs p entries :
  rooted fs -> top `prefix_of` p -> p ∈ fs -> listing fs p entries ->
  let names := reverse (omap dir_name entries) in
  subtree fs p = {[p]} ∪ below fs p names /\ p ∉ below fs p names.
Proof.
  intros Hr Ht Hp [_ [_ Hl]] names. split.
  - apply set_eq. intros q. rewrite elem_of_union, elem_of_singleton, elem_subtree, elem_below. split.
    + intros [[[|n k] ->] Hq]; [left; by rewrite app_nil_r|right; split; [|done]]. exists n.
      split; [|exists k; by rewrite <- app_assoc]. apply elem_of_reverse, Hl. eapply (rooted_up _ _ k); [done|by apply prefix_app_r|].
      by rewrite <- app_assoc.
    + intros [->|[[n [_ Hn]] Hq]]; [done|]. split; [|done]. etrans; [|exact Hn]. by apply prefix_app_r.
  - rewrite elem_below. intros [[n [_ [k Hk]]] _]. apply (f_equal length) in Hk. rewrite !length_app in Hk. simpl in Hk. lia.
Qed.

Lemma live_push p entries : Forall readable entries -> forall pending fs Q,
  Q (Ok (map (fun n => (p ++ [n], false)) (reverse (omap dir_name entries)) ++ pending)) fs ->
  wp live False (push_children mounted p entries pending) fs Q.
Proof.
  induction 1 as [|e entries He _ IH]; intros pending fs Q HQ; [done|].
  destruct e as [[n [[]|]]|]; try done; simpl in *.
  - apply IH. rewrite reverse_cons, map_app, <- app_assoc in HQ. exact HQ.
  - destruct mounted; [by apply IH|]. simpl. by apply IH.
  - by apply IH.
Qed.

Lemma live_mono (a : action) (fs : gset path) (Q Q' : answer a -> gset path -> Prop) : (forall r s, Q r s -> Q' r s) -> live a fs Q -> live a fs Q'.
Proof. intros HQ. destruct a; simpl; intros; repeat case_match; auto. Qed.

(** With a subtree's worth of fuel, it goes and nothing else does. *)
Definition removes (size_ : nat) : Prop := forall fs p fuel pending Q,
  size (subtree fs p) = size_ -> rooted fs -> top `prefix_of` p -> p ∈ fs ->
  wp live False (remove_all fuel mounted pending) (fs ∖ subtree fs p) Q ->
  wp live False (remove_all (2 * size_ + fuel) mounted ((p, false) :: pending)) fs Q.

Lemma removes_children bound p ns : forall fs fuel pending Q,
  (forall n, n < bound -> removes n) -> top `prefix_of` p -> rooted fs ->
  NoDup ns -> Forall (fun n => p ++ [n] ∈ fs) ns -> size (below fs p ns) < bound ->
  wp live False (remove_all fuel mounted pending) (fs ∖ below fs p ns) Q ->
  wp live False (remove_all (2 * size (below fs p ns) + fuel) mounted (map (fun n => (p ++ [n], false)) ns ++ pending)) fs Q.
Proof.
  induction ns as [|n ns IH]; intros fs fuel pending Q Hrem Ht Hr Hnd Hin Hb Hw.
  - assert (H0 : below fs p [] = ∅) by (apply set_eq; intros q; rewrite elem_below; set_solver).
    rewrite H0 in *. rewrite size_empty. by rewrite difference_empty_L in Hw.
  - apply NoDup_cons in Hnd as [Hn Hnd]. apply Forall_cons in Hin as [Hpn Hin].
    destruct (below_cons fs p n ns Hn) as [Hsize Hrest]. rewrite Hsize in *. rewrite Hrest in Hw.
    rewrite Nat.mul_add_distr_l, <- Nat.add_assoc. simpl map. simpl app.
    eapply Hrem; [|reflexivity|done|by apply prefix_app_r|done|]; [lia|].
    apply IH; try done; [by apply rooted_without| |lia].
    rewrite Forall_forall in Hin |- *. intros m Hm. specialize (Hin m Hm). rewrite elem_of_difference, elem_subtree. split; [done|].
    intros [Hp _]. apply Hn. by rewrite (child_of p n m _ Hp ltac:(reflexivity)).
Qed.

Lemma removes_all n : removes n.
Proof.
  induction n as [n IH] using lt_wf_ind. intros fs p fuel pending Q Hn Hr Ht Hp Hw.
  assert (exists m, n = S m) as [m ->].
  { destruct n as [|m]; [|eauto]. apply size_empty_inv in Hn. exfalso. apply (not_elem_of_empty (C:=gset path) p).
    rewrite <- Hn. by apply elem_subtree. }
  replace (2 * S m + fuel) with (S (2 * m + S fuel)) by lia. simpl. rewrite (bool_decide_true _ Hp). simpl.
  rewrite (bool_decide_true _ Hp). intros entries Hl. cbv beta iota.
  apply (prog_try _ _ live_mono). apply live_push; [apply Hl|]. cbv beta iota.
  destruct (subtree_below fs p entries Hr Ht Hp Hl) as [Hsub Hnot]. cbv zeta in Hsub, Hnot.
  set (names := reverse (omap dir_name entries)) in *.
  assert (Hsize : size (below fs p names) = m).
  { rewrite Hsub, size_union, size_singleton in Hn by set_solver. lia. }
  rewrite <- Hsize.
  apply removes_children with (bound := S m);
    [intros k Hk; by apply IH|done|done| | |lia|].
  - unfold names. rewrite reverse_Permutation. apply Hl.
  - apply Forall_forall. intros k Hk. by apply Hl, elem_of_reverse.
  - simpl. rewrite (bool_decide_true (p ∈ _)) by set_solver. simpl. rewrite bool_decide_false; cycle 1.
    { intros [q [Hq [Hne Hpq]]]. apply elem_of_difference in Hq as [Hq Hb]. apply Hb.
      assert (Hin : q ∈ subtree fs p) by by apply elem_subtree. rewrite Hsub in Hin. set_solver. }
    cbv beta iota. replace (fs ∖ below fs p names ∖ {[p]}) with (fs ∖ subtree fs p) by (rewrite Hsub; set_solver).
    exact Hw.
Qed.
End Remove.

(** C23. A session's directory is removed entirely and nothing else is: when its control
    groups are empty (no fault, no process left), in whatever order the directories of
    each are listed, removing a session with twice as many turns of the loop as it has
    directories returns, without error, having removed every directory at or under the
    session's own, children before parents, and no other; a session with none is no
    error. *)
Theorem remove_clears m slot root fs fuel :
  cg_root m = Some root -> (0 < slot)%Z -> rooted (slot_dir m slot) fs ->
  2 * size (subtree fs (slot_dir m slot)) < fuel ->
  wp live False (remove_session fuel m slot) fs (fun r fs' => r = Ok tt /\ fs' = fs ∖ subtree fs (slot_dir m slot)).
Proof.
  intros Hroot Hs Hr Hfuel. unfold remove_session, at_slot. rewrite Hroot.
  unfold slot_dir in *. rewrite Hroot in *. simpl default in *. set (top := root ++ [session_dir slot]) in *.
  unfold session_paths. rewrite (proj2 (Z.eqb_neq slot 0)) by lia. rewrite try_ok. fold top. simpl sp_parent.
  destruct (decide (top ∈ fs)) as [Hin|Hin].
  - replace fuel with (2 * size (subtree fs top) + (fuel - 2 * size (subtree fs top))) by lia.
    apply (removes_all top); try done. by destruct (fuel - _).
  - assert (Hnone : subtree fs top = ∅).
    { apply set_eq. intros q. rewrite elem_subtree. split; [|set_solver]. intros [[k ->] Hq]. exfalso. apply Hin.
      by eapply (rooted_up _ _ _ k Hr). }
    destruct fuel as [|fuel]; [lia|]. simpl. rewrite bool_decide_false by done. simpl.
    destruct fuel; simpl; (split; [done|]); rewrite Hnone; set_solver.
Qed.

(** ** Killing a tree *)

Section Killing.
Context (target : path) (has_kill : bool).

(** A clock that only goes forward and is ten later after each sleep; and whether what
    was last seen of [target] is that it is empty or gone.  [cgroup.kill] is there when
    the kernel has it. *)
Definition patient (a : action) (s : Z * bool) : (answer a -> Z * bool -> Prop) -> Prop :=
  match a with
  | A_now => fun Q => forall t : Z, (s.1 <= t)%Z -> Q t (t, s.2)
  | A_sleep => fun Q => forall t, (s.1 + KILL_POLL_INTERVAL <= t)%Z -> Q tt (t, s.2)
  | A_write q control _ => fun Q => forall r,
      (q = target -> control = "cgroup.kill" -> has_kill = true -> r <> Err E_not_found) -> Q r s
  | A_read q control => fun Q => forall r : result text IoError,
      let quiet := match r with Ok body => bool_decide (populated_in (Search.lines body) = Some false) | Err _ => false end in
      Q r (s.1, if bool_decide (q = target /\ control = "cgroup.events") then quiet else s.2)
  | A_exists q => fun Q => forall r : bool, Q r (s.1, if bool_decide (q = target) && negb r then true else s.2)
  | _ => fun Q => forall r, Q r s
  end.

Lemma patient_mono (a : action) s (Q Q' : answer a -> Z * bool -> Prop) :
  (forall r s, Q r s -> Q' r s) -> patient a s Q -> patient a s Q'.
Proof. intros HQ. destruct a; simpl; auto. Qed.

(** Without [cgroup.kill] the walk over the processes ends as the tree does. *)
Abbreviation spins := (has_kill = false).

Lemma patient_any {A} (m : prog A) s : spins -> wp patient spins m s (fun _ _ => True).
Proof.
  intros Hs. revert s. induction m as [a|a k IH|]; intros s; simpl; [done| |done].
  destruct a; simpl; intros; apply IH.
Qed.

Definition told (r : result bool IoError) (s : Z * bool) : Prop := r = Ok true -> s.2 = true.

Lemma patient_populated s (Q : result bool IoError -> Z * bool -> Prop) :
  (forall r gone, (r = Ok false -> gone = true) -> Q r (s.1, gone)) ->
  wp patient spins (read_populated target) s Q.
Proof.
  intros HQ. simpl. intros body. rewrite bool_decide_true by done.
  destruct body as [body|[]]; simpl; try (by apply HQ).
  - apply HQ. intros Hb. apply bool_decide_eq_true. by destruct (populated_in _) as [[]|].
  - intros []; rewrite bool_decide_true by done; simpl; by apply HQ.
Qed.

(** What is left of a turn: another follows only before the deadline, later. *)
Lemma patient_turn fuel fallback deadline turns (s : Z * bool) :
  (forall t gone, (s.1 + KILL_POLL_INTERVAL <= t)%Z -> (s.1 < deadline)%Z ->
    wp patient spins (kill_loop fuel target fallback deadline turns) (t, gone) told) ->
  wp patient spins (populated <~? read_populated target; if negb populated then ret (Ok true) else
      now <~ call A_now; if (deadline <=? now)%Z then ret (Ok false) else
      _ <~ call A_sleep; kill_loop fuel target fallback deadline turns) s told.
Proof.
  intros Hk. apply (prog_try _ _ patient_mono), patient_populated. intros [[]|e] gone Hg; simpl; try done; cycle 1.
  { intros _. by apply Hg. }
  intros now Hnow. destruct (Z.leb_spec deadline now) as [|Hlt]; [done|]. simpl. intros t Ht. apply Hk; lia.
Qed.

(** With [cgroup.kill], a turn for each sleep that fits before the deadline is enough. *)
Lemma patient_loop fuel deadline turns : forall s : Z * bool, 0 < turns ->
  (deadline <= s.1 + KILL_POLL_INTERVAL * Z.of_nat (turns - 1))%Z ->
  wp patient spins (kill_loop fuel target false deadline turns) s told.
Proof.
  induction turns as [|turns IH]; intros s Hturns Hd; [lia|].
  apply (patient_turn fuel false). intros t gone Ht Hlt. unfold KILL_POLL_INTERVAL in *.
  assert (0 < turns) by (destruct turns; simpl in *; lia). apply IH; [done|simpl; lia].
Qed.

Lemma patient_fallback fuel deadline turns : spins -> forall s, wp patient spins (kill_loop fuel target true deadline turns) s told.
Proof.
  intros Hs. induction turns as [|turns IH]; intros s; [done|]. cbn [kill_loop].
  apply (prog_try _ _ patient_mono). eapply (prog_mono _ _ patient_mono); [|by apply patient_any].
  intros [[]|e] s' _; [|done..]. apply (patient_turn fuel true). intros t gone _ _. apply IH.
Qed.

End Killing.

(** A session with two groups beside another's. *)
Definition two_sessions : gset path :=
  let at_ := fun l : list string => "sys" :: l in
  list_to_set [at_ ["session-1"]; at_ ["session-1"; "supervisor"]; at_ ["session-1"; "workload"]; at_ ["session-12"]].

Definition managed : CgroupManager := mk_manager (Some ["sys"]) (Some []) false 4096.

Lemma two_sessions_rooted : rooted (slot_dir managed 1) two_sessions.
Proof.
  intros q n [k ->] Hq. vm_compute slot_dir in *. unfold two_sessions in *. rewrite elem_of_list_to_set in *.
  destruct k as [|x [|y k]]; simpl in *; [apply elem_of_cons; by left|..]; exfalso;
    repeat (apply elem_of_cons in Hq as [Hq|Hq]; [discriminate|]); by apply elem_of_nil in Hq.
Qed.

Lemma remove_clears_witness :
  wp live False (remove_session 7 managed 1) two_sessions
    (fun r fs' => r = Ok tt /\ fs' = two_sessions ∖ subtree two_sessions (slot_dir managed 1)) /\
  two_sessions ∖ subtree two_sessions (slot_dir managed 1) = {[["sys"; "session-12"]]}.
Proof.
  split; [|by vm_compute].
  apply (remove_clears managed 1 ["sys"]); [done|done|apply two_sessions_rooted|vm_compute; lia].
Defined.

Lemma session_contained_witness :
  let dir := slot_dir managed 1 in
  contained dir (prepare_session 7 managed 1) /\ contained dir (remove_session 7 managed 1) /\
  contained dir (kill_session 7 managed 1) /\ contained dir (session_current_kb managed 1) /\
  contained dir (rewrite_session_high managed 1) /\
  contained (dir ++ ["workload"]) (kill_workload 7 managed 1) /\
  forall slot' q, (0 < slot' <= u32_max)%Z -> 1%Z <> slot' -> dir `prefix_of` q -> ~ slot_dir managed slot' `prefix_of` q.
Proof. apply (session_contained 7 managed 1). unfold u32_max. lia. Defined.
