(* ===== verification/Routes.v ===== *)
(** * The router's HTTP surface

    [crates/amber-router/src/routes.rs], [admin.rs], [state.rs] and the rest of
    [live.rs]: which request reaches what, behind which token.  A request is handled
    whole; the network, the clock and the wake-ups of [Proxy]'s walk are arguments, and
    so are serde's parsers.  Texts of errors are left out. *)
From S2P Require Import Prelude Health RouterConfig Upstream Selector Proxy Slots.
From S2P Require Search.

Record AppState := mk_state {
  as_registry : Registry;
  as_selector : Selector;
  as_admission : nat;
  as_auth_token : option string;
  as_max_body_bytes : Z }.

(** [AppState::new]; [None] is the panic of [Registry::build]. *)
Definition new_state (cfg : Config) : option AppState :=
  g ← build cfg;
  Some (mk_state g (Selector.new g) (Z.to_nat (s_queue_capacity (c_server cfg)))
          (s_auth_token (c_server cfg)) (s_max_body_bytes (c_server cfg))).

(** [lv_store]: the state root's file, when there is one. *)
Record Live := mk_live {
  lv_current : AppState;
  lv_store : option Store;
  lv_server : ServerConfig;
  lv_started : Z;
  lv_port : Z }.

Definition set_current (s : AppState) (lv : Live) : Live :=
  mk_live s (lv_store lv) (lv_server lv) (lv_started lv) (lv_port lv).
Definition set_store (st : Store) (lv : Live) : Live :=
  mk_live (lv_current lv) (Some st) (lv_server lv) (lv_started lv) (lv_port lv).
Definition set_selector (sel : Selector) (lv : Live) : Live :=
  let s := lv_current lv in
  set_current (mk_state (as_registry s) sel (as_admission s) (as_auth_token s) (as_max_body_bytes s)) lv.

Definition with_port (port : Z) (lv : Live) : Live :=
  mk_live (lv_current lv) (lv_store lv) (lv_server lv) (lv_started lv) port.

(** ** Requests and responses *)

(** A HEAD is a GET whose answer's body is not sent. *)
Inductive Method := GET | PUT | POST | Other_method.

(** [rq_authorization]: the header's value, when it is visible ASCII. *)
Record Request := mk_request {
  rq_method : Method;
  rq_path : list string;
  rq_authorization : option string;
  rq_content_type : option string;
  rq_body : list byte }.

Record Status := mk_status {
  ss_port : Z;
  ss_uptime_secs : Z;
  ss_editable : bool;
  ss_slots : list SlotView;
  ss_queue_available : nat;
  ss_keys : list KeySnapshot }.

(** [R_rejected] is answered before the handler is called. *)
Inductive Body :=
| R_health
| R_error (message : string)
| R_failed
| R_rejected
| R_models (names : list string)
| R_stats (queue_available : nat) (keys : list KeySnapshot) (aliases : list string)
| R_slots (slots : list SlotView) (alias : string)
| R_key (name api_key : string)
| R_reloaded
| R_status (status : Status)
| R_bytes (content_type : string) (bytes : list byte)
| R_json (v : Value)
| R_text_error (text : list Z)
| R_stream (bodies : list (option string)).

Record Response := mk_response {
  rp_status : Z;
  rp_attempts : option string;
  rp_body : Body }.

Definition reply (status : Z) (body : Body) : Response := mk_response status None body.

Section Routes.
(** Of [Slots]. *)
Context (to_string_pretty : Config -> option string) (of_toml : string -> option Config).
Context (new_slot_id : nat -> option string) (default_server : ServerConfig).
(** [serde_json::from_slice] and [from_str], and what the body of a replacement is read
    as, or the status it is rejected with. *)
Context (from_slice : list byte -> option Value) (from_str : list Z -> option Value).
Context (slots_body : option string -> list byte -> result (list Slot) Z).

(** *** Live state *)

Definition slots (lv : Live) : option (list Slot) :=
  match lv_store lv with Some st => load of_toml st | None => Some [] end.

(** The new state, and whether it was put in place; [None] is a panic. *)
Definition reload (lv : Live) : option (Live * bool) :=
  match slots lv with
  | None => Some (lv, false)
  | Some l => next ← new_state (to_config (lv_server lv) l); Some (set_current next lv, true)
  end.

Definition replace_slots (l : list Slot) (lv : Live) : option (Live * bool) :=
  match lv_store lv with
  | None => Some (lv, false)
  | Some st =>
      match save to_string_pretty new_slot_id default_server st l with
      | None => Some (lv, false)
      | Some st => reload (set_store st lv)
      end
  end.

(** [Live::from_store]: what the router starts with. *)
Definition from_store (st : Store) (server : ServerConfig) (started : Z) : option Live :=
  '(st, l) ← ensure_ids to_string_pretty of_toml new_slot_id default_server st;
  state ← new_state (to_config server l);
  Some (mk_live state (Some st) server started 0).

(** *** Authorization *)

(** [str::strip_prefix] *)
Fixpoint strip_prefix (prefix s : string) : option string :=
  match prefix, s with
  | EmptyString, _ => Some s
  | String a prefix, String b s => if Ascii.eqb a b then strip_prefix prefix s else None
  | String _ _, EmptyString => None
  end.

Definition bearer (header : string) : option string := strip_prefix "Bearer " header.

Definition authorized (s : AppState) (rq : Request) : bool :=
  match as_auth_token s with
  | None => true
  | Some expected => bool_decide (rq_authorization rq ≫= bearer = Some expected)
  end.

Definition unauthorized : Response := reply 401 (R_error "invalid or missing bearer token").

Definition guard (lv : Live) (rq : Request) : option Response :=
  if negb (authorized (lv_current lv) rq) then Some unauthorized
  else match lv_store lv with
       | None => Some (reply 404 (R_error "this router has no editable config"))
       | Some _ => None
       end.

Definition failed : Response := reply 400 R_failed.

(** *** Handlers

    What is answered, with the new state and what was sent upstream. *)
Definition answer : Type := option (Live * Response * list Sent).

Definition with_token (lv : Live) (rq : Request) (k : AppState -> answer) : answer :=
  if authorized (lv_current lv) rq then k (lv_current lv) else Some (lv, unauthorized, []).

Definition guarded (lv : Live) (rq : Request) (k : answer) : answer :=
  match guard lv rq with Some deny => Some (lv, deny, []) | None => k end.

Definition alias_names (g : Registry) : list string := sort_by string_leb (map fst (map_to_list (g_chains g))).

Definition models (lv : Live) (rq : Request) : answer :=
  with_token lv rq (fun s => Some (lv, reply 200 (R_models (alias_names (as_registry s))), [])).

Definition stats (lv : Live) (rq : Request) (now : Z) : answer :=
  with_token lv rq (fun s =>
    keys ← snapshot (as_selector s) now;
    Some (lv, reply 200 (R_stats (as_admission s) keys (alias_names (as_registry s))), [])).

Definition list_slots (lv : Live) (rq : Request) : answer :=
  guarded lv rq
    (Some (lv, match slots lv with
               | Some l => reply 200 (R_slots (map view l) DEFAULT_ALIAS)
               | None => failed
               end, [])).

Definition replace (lv : Live) (rq : Request) : answer :=
  match slots_body (rq_content_type rq) (rq_body rq) with
  | Err status => Some (lv, reply status R_rejected, [])
  | Ok incoming =>
      guarded lv rq
        (match slots lv with
         | None => Some (lv, failed, [])
         | Some stored =>
             '(lv, done) ← replace_slots (merge_keys incoming stored) lv;
             if done : bool then list_slots lv rq else Some (lv, failed, [])
         end)
  end.

Definition reveal (lv : Live) (rq : Request) (name : string) : answer :=
  guarded lv rq
    (Some (lv, match slots lv with
               | None => failed
               | Some l =>
                   match find_first (fun s => String.eqb (sl_name s) name) l with
                   | Some slot => reply 200 (R_key (sl_name slot) (sl_api_key slot))
                   | None => reply 404 (R_error ("no slot named `" +:+ name +:+ "`"))
                   end
               end, [])).

Definition status (lv : Live) (rq : Request) (now : Z) : answer :=
  with_token lv rq (fun s =>
    keys ← snapshot (as_selector s) now;
    Some (lv, reply 200 (R_status (mk_status (lv_port lv) ((now - lv_started lv) / nanos_per_sec)
      (bool_decide (is_Some (lv_store lv))) (map view (default [] (slots lv))) (as_admission s) keys)), [])).

Definition reload_route (lv : Live) (rq : Request) : answer :=
  guarded lv rq ('(lv, done) ← reload lv; Some (lv, if done : bool then reply 200 R_reloaded else failed, [])).

(** [StatusCode::from_u16] *)
Definition status_code (n : Z) : Z := if ((100 <=? n) && (n <=? 999))%Z then n else 502%Z.

Definition error_response (alias : string) (e : ProxyError) : Response :=
  let '(status, attempts, body) :=
    match e with
    | UnknownAlias => (404%Z, [], R_error ("unknown model `" +:+ alias +:+ "`"))
    | QueueFull => (503%Z, [], R_error "router queue is full")
    | PE_AllDead attempts => (502%Z, attempts, R_error "every credential in the chain is dead")
    | PE_Timeout attempts => (504%Z, attempts, R_error "router deadline exceeded")
    | Exhausted attempts upstream_status upstream_body =>
        let text := Search.from_utf8_lossy upstream_body in
        (status_code upstream_status, attempts,
         match from_str text with Some parsed => R_json parsed | None => R_text_error text end)
    end in
  mk_response status (Some (attempts_header attempts)) body.

(** What a walk ends with. *)
Definition walked {FE R} (lv : Live) (alias : string) (t : turn Router FE R) (respond : R -> Response) : answer :=
  match t with
  | Return s r =>
      Some (set_selector (rt_sel (w_world s)) lv, match r with Ok out => respond out | Err e => error_response alias e end, w_sent s)
  | _ => None
  end.

Definition text_of (v : option Value) : string := match v with Some (VString s) => s | _ => "" end.

Definition chat_completions (lv : Live) (rq : Request) (once : network) (streamed : stream_network)
    (now : Z) (wakes : list (Z * (Selector -> Selector))) : answer :=
  with_token lv rq (fun s =>
    match from_slice (rq_body rq) with
    | None => Some (lv, reply 422 (R_error "invalid JSON body"), [])
    | Some body =>
        let alias := text_of (get body "model") in
        let world := mk_router (as_selector s) now wakes in
        if is_stream_requested body then
          walked lv alias (proxy_stream (as_registry s) streamed from_str (as_admission s) now world alias body)
            (fun c => mk_response 200 (Some (cm_attempts_header c)) (R_stream (cm_bodies c)))
        else
          walked lv alias (proxy_once (as_registry s) once (as_admission s) now world alias body)
            (fun out => mk_response (po_status out) (Some (attempts_header (po_attempts out)))
                          (R_bytes (po_content_type out) (po_body out)))
    end).

(** *** The router

    A path with another method is not allowed, any other path not found; a body over the
    limit is rejected by what reads it, before the handler. *)
Inductive route := To_health | To_models | To_stats | To_chat | To_slots | To_key (name : string) | To_reload | To_status.

Definition route_of (path : list string) : option route :=
  match path with
  | ["health"] => Some To_health
  | ["v1"; "models"] => Some To_models
  | ["stats"] => Some To_stats
  | ["v1"; "chat"; "completions"] => Some To_chat
  | ["admin"; "slots"] => Some To_slots
  | ["admin"; "slots"; name; "key"] => if bool_decide (name = "") then None else Some (To_key name)
  | ["admin"; "reload"] => Some To_reload
  | ["admin"; "status"] => Some To_status
  | _ => None
  end.

Definition bounded (lv : Live) (limit : Z) (rq : Request) (k : answer) : answer :=
  if (limit <? Z.of_nat (length (rq_body rq)))%Z then Some (lv, reply 413 R_rejected, []) else k.

Definition not_allowed (lv : Live) : answer := Some (lv, reply 405 R_rejected, []).

(** [limit] is the one of the state the router was built with. *)
Definition handle (limit : Z) (once : network) (streamed : stream_network) (now : Z)
    (wakes : list (Z * (Selector -> Selector))) (lv : Live) (rq : Request) : answer :=
  match route_of (rq_path rq), rq_method rq with
  | None, _ => Some (lv, reply 404 R_rejected, [])
  | Some To_health, GET => Some (lv, reply 200 R_health, [])
  | Some To_models, GET => models lv rq
  | Some To_stats, GET => stats lv rq now
  | Some To_chat, POST => bounded lv limit rq (chat_completions lv rq once streamed now wakes)
  | Some To_slots, GET => list_slots lv rq
  | Some To_slots, PUT => bounded lv limit rq (replace lv rq)
  | Some (To_key name), GET => reveal lv rq name
  | Some To_reload, POST => reload_route lv rq
  | Some To_status, GET => status lv rq now
  | Some _, _ => not_allowed lv
  end.

(** ** The token *)

Lemma strip_prefix_spec prefix s rest : strip_prefix prefix s = Some rest <-> s = prefix +:+ rest.
Proof.
  revert s. induction prefix as [|a prefix IH]; intros s; simpl; [split; [by intros [= ->]|by intros ->]|].
  destruct s as [|b s]; simpl; [by split|]. destruct (Ascii.eqb_spec a b) as [->|Hne].
  - rewrite IH. split; [by intros ->|by intros [= ->]].
  - split; [done|]. intros [= ->]. by destruct Hne.
Qed.

Lemma authorized_spec s rq token :
  as_auth_token s = Some token -> authorized s rq = true <-> rq_authorization rq = Some ("Bearer " +:+ token).
Proof.
  unfold authorized. intros ->. rewrite bool_decide_eq_true. destruct (rq_authorization rq) as [h|]; [|done]. simpl.
  unfold bearer. rewrite strip_prefix_spec. split; [by intros ->|by intros [= ->]].
Qed.

(** What a request without the token gets. *)
Definition denied (limit : Z) (rq : Request) : Response :=
  let over := (limit <? Z.of_nat (length (rq_body rq)))%Z in
  match route_of (rq_path rq), rq_method rq with
  | None, _ => reply 404 R_rejected
  | Some To_health, GET => reply 200 R_health
  | Some To_chat, POST => if over then reply 413 R_rejected else unauthorized
  | Some To_slots, PUT =>
      if over then reply 413 R_rejected
      else match slots_body (rq_content_type rq) (rq_body rq) with Err status => reply status R_rejected | Ok _ => unauthorized end
  | Some (To_models | To_stats | To_slots | To_key _ | To_status), GET | Some To_reload, POST => unauthorized
  | Some _, _ => reply 405 R_rejected
  end.

Lemma handle_denied limit once streamed now wakes lv rq :
  authorized (lv_current lv) rq = false ->
  handle limit once streamed now wakes lv rq = Some (lv, denied limit rq, []).
Proof.
  intros Ha. unfold handle, denied, bounded, not_allowed, models, stats, status, chat_completions, list_slots, replace, reveal,
    reload_route, guarded, guard, with_token. rewrite Ha. simpl.
  destruct (route_of (rq_path rq)) as [[]|]; [..|done]; destruct (rq_method rq); try done;
    destruct (limit <? _)%Z; try done; by destruct (slots_body _ _).
Qed.

(** The token served by is the service's own. *)
Definition keeps (lv : Live) : Prop := as_auth_token (lv_current lv) = s_auth_token (lv_server lv).

Definition step (limit : Z) (lv lv' : Live) : Prop :=
  exists once streamed now wakes rq r sent, handle limit once streamed now wakes lv rq = Some (lv', r, sent).

Lemma new_state_token server l s : new_state (to_config server l) = Some s -> as_auth_token s = s_auth_token server.
Proof. unfold new_state. destruct (build _); [|done]. by intros [= <-]. Qed.

(** What a live state may become: the service's server section stays, and with it the
    token. *)
Definition kept (lv lv' : Live) : Prop := lv_server lv' = lv_server lv /\ (keeps lv -> keeps lv').

Lemma reload_keeps lv lv' ok : reload lv = Some (lv', ok) -> kept lv lv'.
Proof.
  unfold reload. destruct (slots lv) as [l|]; [|by intros [= <- _]]. destruct (new_state _) as [s|] eqn:Hs; [|done].
  intros [= <- _]. split; [done|]. intros _. unfold keeps. simpl. by apply new_state_token in Hs.
Qed.

Lemma replace_keeps l lv lv' ok : replace_slots l lv = Some (lv', ok) -> kept lv lv'.
Proof.
  unfold replace_slots. destruct (lv_store lv) as [st|]; [|by intros [= <- _]].
  destruct (save _ _ _ st l) as [st'|]; [|by intros [= <- _]]. apply reload_keeps.
Qed.

(** A key is in an answer only as the slot's that the path names. *)
Definition reveals (lv : Live) (rq : Request) (r : Response) : Prop :=
  forall n k, rp_body r = R_key n k ->
    rq_path rq = ["admin"; "slots"; n; "key"] /\ rq_method rq = GET /\
    exists l s, slots lv = Some l /\ s ∈ l /\ sl_name s = n /\ sl_api_key s = k.

Definition good (lv : Live) (rq : Request) (x : answer) : Prop :=
  forall lv' r sent, x = Some (lv', r, sent) -> kept lv lv' /\ reveals lv rq r.

Lemma good_same lv rq r sent : reveals lv rq r -> good lv rq (Some (lv, r, sent)).
Proof. by intros Hr lv' r' sent' [= <- <- _]. Qed.

Lemma reveals_other lv rq st at_ b : (forall n k, b <> R_key n k) -> reveals lv rq (mk_response st at_ b).
Proof. intros Hb n k Hk. by destruct (Hb n k). Qed.

(** An answer that leaves the state as it is and shows no key. *)
Ltac quiet := apply good_same, reveals_other; done.

Lemma good_token lv rq k : (forall s, good lv rq (k s)) -> good lv rq (with_token lv rq k).
Proof. intros Hk. unfold with_token. destruct (authorized _ _); [apply Hk|quiet]. Qed.

Lemma good_guarded lv rq x : good lv rq x -> good lv rq (guarded lv rq x).
Proof. intros Hx. unfold guarded, guard. destruct (authorized _ _); simpl; [|quiet]. destruct (lv_store lv); [done|quiet]. Qed.

Lemma good_list lv0 lv rq : kept lv0 lv -> good lv0 rq (list_slots lv rq).
Proof.
  intros Hk. unfold list_slots, guarded, guard. intros lv' r sent.
  destruct (authorized _ _); simpl; [|intros [= <- <- _]; split; [done|by apply reveals_other]].
  destruct (lv_store lv); intros [= <- <- _]; (split; [done|]); [|by apply reveals_other].
  destruct (slots lv); by apply reveals_other.
Qed.

Lemma good_walked {FE R} lv rq alias (t : turn Router FE R) respond :
  (forall out, reveals lv rq (respond out)) -> good lv rq (walked lv alias t respond).
Proof.
  intros Hr lv' r sent. destruct t as [|w res| |]; try done. intros [= <- <- _]. split; [done|].
  destruct res as [out|e]; [apply Hr|]. unfold error_response. destruct e; try by apply reveals_other.
  destruct (from_str _); by apply reveals_other.
Qed.

Lemma good_chat lv rq once streamed now wakes : good lv rq (chat_completions lv rq once streamed now wakes).
Proof.
  apply good_token. intros s. destruct (from_slice _) as [body|]; [|quiet].
  destruct (is_stream_requested body); apply good_walked; intros out; by apply reveals_other.
Qed.

Lemma good_replace lv rq : good lv rq (replace lv rq).
Proof.
  unfold replace. destruct (slots_body _ _) as [incoming|st]; [|quiet]. apply good_guarded.
  destruct (slots lv) as [stored|]; [|quiet].
  destruct (replace_slots _ lv) as [[lv1 ok]|] eqn:Hr; [|done]. simpl. apply replace_keeps in Hr.
  destruct ok; [by apply good_list|]. intros lv' r sent [= <- <- _]. split; [done|by apply reveals_other].
Qed.

Lemma good_reveal lv rq name :
  rq_path rq = ["admin"; "slots"; name; "key"] -> rq_method rq = GET -> good lv rq (reveal lv rq name).
Proof.
  intros Hp Hm. apply good_guarded. intros lv' r sent [= <- <- _]. split; [done|]. intros n k.
  destruct (slots lv) as [l|]; [|done]. destruct (find_first _ l) as [s|] eqn:Hf; [|done]. intros [= <- <-].
  apply find_first_Some in Hf as [Hin Hname]. apply String.eqb_eq in Hname as <-. eauto 10.
Qed.

Lemma route_key path name : route_of path = Some (To_key name) -> path = ["admin"; "slots"; name; "key"].
Proof. unfold route_of. repeat case_match; intros; by simplify_eq. Qed.

Lemma handle_good limit once streamed now wakes lv rq : good lv rq (handle limit once streamed now wakes lv rq).
Proof.
  unfold handle, bounded, not_allowed.
  destruct (route_of (rq_path rq)) as [[]|] eqn:Hr; [..|quiet]; destruct (rq_method rq) eqn:Hm; try quiet.
  - apply good_token. intros s. quiet.
  - apply good_token. intros s. destruct (snapshot _ _); [simpl; quiet|done].
  - destruct (_ <? _)%Z; [quiet|apply good_chat].
  - by apply good_list.
  - destruct (_ <? _)%Z; [quiet|apply good_replace].
  - apply good_reveal; [by apply route_key|done].
  - apply good_guarded. destruct (reload lv) as [[lv1 ok]|] eqn:Hl; [|done]. apply reload_keeps in Hl. simpl.
    intros lv' r sent [= <- <- _]. split; [done|]. destruct ok; by apply reveals_other.
  - apply good_token. intros s. destruct (snapshot _ _); [simpl; quiet|done].
Qed.

Lemma steps_keep limit lv lv' : rtc (step limit) lv lv' -> kept lv lv'.
Proof.
  induction 1 as [lv|lv lv1 lv' (once & streamed & now & wakes & rq & r & sent & Hh) _ [IH1 IH2]]; [done|].
  apply handle_good in Hh as [[H1 H2] _]. split; [congruence|auto].
Qed.

End Routes.

(** A router without slots, asked for a key. *)
Definition empty_server : ServerConfig := mk_server "127.0.0.1:0" (Some "t") 100 4.
Definition asks_key : Request := mk_request GET ["admin"; "slots"; "a"; "key"] (Some "Bearer T") None [].

